(* ===== verification/_CoqProject ===== *)
-Q . S2P
Prelude.v
CMem.v
CLogic.v
Messages.v
MessageSpec.v
Ring.v
CircularMsgQ.v
CircularSpec.v
Demo.v
QueueProps.v
System.v
SystemSpec.v
TaskIds.v
Repository.v
SystemProps.v
TimeHelper.v
Tasks.v
Transport.v
SimpleTasks.v
Arrays.v
Database.v
DatabaseSpec.v
DatabaseProps.v
DatabaseServer.v
DatabaseClient.v
Exchange.v
Weather.v
WeatherProps.v
Broadcast.v
Subscription.v
SampleSort.v
SortPure.v
SortSpec.v
SortProps.v
Scenarios.v
TestPrograms.v
TestProps.v
WeissList.v
PthreadInproc.v
SharedIpc.v
SharedIpcSpec.v
Posix.v
Environment.v
IpcPrograms.v
IpcSpec.v
StreamModel.v
StreamSpec.v
StreamProps.v
Explorations.v
MqSpec.v
RpcSpec.v
NnTrie.v
NnTrieSpec.v
NnList.v
NnPrio.v
NnPrioSpec.v
NnMsgQueue.v
NnMsgQueueSpec.v
NnInproc.v
NnInprocSpec.v
NnBalance.v
NnBalanceSpec.v
NnCodec.v
NnCodecSpec.v
NnHash.v
NnHashSpec.v
NnRouting.v
NnRoutingSpec.v
NnReq.v
NnReqSpec.v
NnReqSystem.v
NnSha1.v
NnSha1Spec.v
