(* ===== verification/Prelude.v ===== *)
(** * TaskSystem: a verification development

    [src/TaskSystem] is a small message-passing runtime in C: tasks are threads of
    any number of processes of one machine, and they talk by messages that are
    copied into circular queues in POSIX shared memory.  On top of it the
    repository has a student database, a weather broadcast, a parallel sample sort
    and an example with three tasks.  [src/nano_benchmarking] and
    [src/exploration] have small programs that compare ways to share a list.  This
    library translates the C code into executable definitions over a model of
    memory and processes, and proves what the parts do.

    ** How the program works

    A message object ([src/Messages], [include/TaskSystem/Messages]) is a struct
    that starts with a tag, a class id, a size and function pointers.  [Enqueue]
    ([src/MsgQueue/CircularMsgQ.c]) asks the object to write itself at the tail of
    the queue of the target; [Dequeue] gives the address of the oldest message in
    the segment and rebinds its function pointers, which belong to the process that
    wrote them; the receiver clones it.  [src/System/System.c] keeps the shared
    data of all processes (the next task id, the names of tasks, the condition
    variables that tasks sleep on), finds the queue of a task by a name made from
    its id, and runs a loop that wakes tasks with a message.  A task
    ([src/Tasks/*], [include/TaskSystem/Tasks/*/generated.h]) is a struct with an
    id and a thread; its loop waits for a message, dispatches on the tag, and
    handles it.

    ** The model

    [Prelude]: integers at their width, little-endian bytes, sums over lists.
    [CMem]: the machine.  A [world] has blocks of bytes with bounds, locks, the
    names of shared memory objects, the output, the started threads, and the
    readings of the clock and of [random] to come.  A pointer to a block, and one to
    a function, is of the process that made it.  A C function is a definition in the
    monad [M]: process and world in, [Ok], [Exit] (a call of [exit]), [Fault]
    (undefined behaviour: an access out of bounds, to a freed block or to bytes that
    were never written, a call through a pointer that is not a function of this
    process, an unlock or a lock that cannot be) or [Spin] (no end within the fuel,
    or a lock that is taken) out.  [CLogic]: [wp c p w Q], the total weakest
    precondition: [c] ends without fault in a state of [Q], and its rules; [ext F w
    w'], the frame: only the bytes in [F] of the old blocks changed.  [Demo],
    [Arrays]: deciding the predicates on concrete worlds, arrays in memory.

    ** The parts

    - Messages: [Messages] (the nine classes: constructor, [rebind], [clone],
      [writeAt], accessors, virtual calls), [MessageSpec] ([msg], the content of a
      message; [obj_at], an object that holds it; [ser_at], its bytes in a queue).
    - Queue: [Ring] (where records go, the invariant of the regions, refinement of a
      FIFO list, all pure), [CircularMsgQ] (the C code), [CircularSpec] ([q_inv]:
      the bytes of the segment are those of a ring), [QueueProps].
    - System: [System] (every function of [System.c]), [SystemSpec], [Repository],
      [SystemProps], [TaskIds] (the statements of [getNextTaskID], for calls that
      interleave).
    - Tasks: [Tasks] (what [generated.h] repeats for every task, [wait_tag]),
      [Transport]: the interface that the system offers to tasks, a type class in
      terms of the messages that wait for every task, with [System_transport], its
      implementation by [System] over the queues.
    - Database: [Database] (both tasks), [DatabaseSpec] and [DatabaseProps] (the
      table), [DatabaseServer] and [DatabaseClient] (a turn of each loop against
      [Transport]), [Exchange] (two processes together).
    - Weather: [Weather], [WeatherProps], [Broadcast] (the messages to the
      subscribers, against [Transport]), [Subscription] (the turns of the loop of the
      station, and a client in another process).  Example tasks: [SimpleTasks].
    - Sample sort: [SampleSort] (root and buckets, cut where they wait for
      messages), [SortPure] (the sort as a function on lists), [SortSpec],
      [SortProps].
    - Programs: [Scenarios] (whole programs under orders of their threads),
      [TestPrograms] and [TestProps] (the other [main] functions of [test/], and
      [exploration/c_quicksort]), [TimeHelper].
    - Benchmarks: [WeissList] (the linked list of [common/list.c]),
      [PthreadInproc] (threads over that list with a mutex), [SharedIpc] and
      [SharedIpcSpec] (producers and a consumer over a shared buffer, also
      [exploration/shared_memory]), the last two as step relations in which the
      statements of all threads or processes interleave in any way.
    - Programs over the operating system: [Posix] (a process as an interaction tree
      over its memory and the calls of the system; runs against any answers, and a
      logic of them), [IpcPrograms] (the benchmarks over pipes, sockets and
      nanomsg), [IpcSpec] (what each does alone), [StreamModel], [StreamSpec] and
      [StreamProps] (server and clients over byte channels, in any interleaving: an
      abstract transition system with its invariant and measure, the programs that
      follow it, and the benchmarks as instances).
    - Explorations: [Explorations] (the programs of [exploration/dns], [posix_mq],
      [pthreads], [timer], [nanomsg_exploration], and [tool/gen.c]), [Environment]
      (a program and an environment whose answers follow from a state: the total
      logic [reaches]), [MqSpec] and [RpcSpec] (the message queue and the socket
      as environments).
    - The messaging library that the benchmarks use, a copy of which is in the
      repository ([nanomsg-1.0.0/src]), in files of its own over plain values, with
      [None] for a failed assertion or a bad pointer: [NnTrie] (the subscriptions of
      [pubsub/trie.c]), [NnList], [NnHash] (the linked lists and the hash map of
      [utils]), [NnPrio] (the prioritised pipes of [priolist.c]), [NnBalance] (load
      balancing and fair queueing, [lb.c] and [fq.c], over an interface [Pipes] of
      the pipes), [NnMsgQueue] (the queue of the inproc transport), [NnInproc] (two
      pair sockets over inproc: [sinproc.c], [pipe.c], [excl.c], [xpair.c] and the
      events of [fsm.c] and [ctx.c]), [NnRouting] (raw request and reply sockets,
      [xreq.c] and [xrep.c]), [NnReq] (the requester of [req.c] with its resend timer,
      [aio/timer.c], over an interface [RawReq] of the raw socket), [NnCodec]
      (integers in network order, base64, ports, UTF-8, the mask of a WebSocket),
      [NnSha1] (the hash of a WebSocket handshake, [sha1.c]); each has its theorems in
      a file [*Spec], but for [NnList].  [NnBalanceSpec] has its theorem over pipes that
      a send releases ([SendPipes]), and connections over inproc as such pipes; [NnReqSpec] proves the
      requester against the promises [RawReqOk] of the raw socket; [NnReqSystem]
      shows that [NnRouting] over pipes keeps them, and has the witnesses.

    ** What the theorems show

    - The queue refines a first-in first-out list under any sequence of operations
      by any processes, accepts a message exactly when there is room, and a message
      of any class arrives with its content, bound to the receiver.  The invariant
      says that an empty queue has not rolled over, so that it has room for any
      message of less than half of its size ([room_half]).
    - What a process sends to a task whose queue is empty is what the owner of the task
      receives; ids are unique, whatever calls ask for them at the same time; names
      registered by one process are found by the others; the signal loop and the
      shutdown.
    - A turn of the database serves the next request as the function [answer] on
      tables says (but for deletions, which fault), and any number of exchanges with a
      client in another process go through and leave the table that [answer] makes of
      the requests.  A weather station reaches every one of its subscribers that has room, and a client that subscribes
      prints the weather once for every broadcast.
    - The buckets of the sample sort hold the parts they should, and the sorted
      buckets one after the other are the data, sorted, unless a difference of two
      values overflows.
    - The shared buffer and the list under a mutex: mutual exclusion, bounds, order,
      nothing lost, no deadlock, in every reachable state of every interleaving.
    - The benchmarks over pipes and sockets end, in every interleaving, with the list
      they should; those over nanomsg count what has arrived; the main programs
      end with 0 or -1 for the reasons they say.
    - What a client puts in a POSIX message queue is what the server prints; a server
      of requests and responses serves its clients in whole rounds.
    - The structures of nanomsg refine what they stand for: the hash map a finite
      map, the prioritised list sixteen circles, the message queue a bounded
      sequence; the trie counts the subscriptions and matches their prefixes, up to
      those that its changes of representation lose.  Two pair sockets over inproc
      are a first-in first-out channel each way, whatever the order of the events,
      which come to an end; load balancing serves the pipes of a priority in
      the order in which they came back; a reply passes the raw sockets that its request
      came through, each to the pipe it came from, until it reaches the requester; a requester meets no event that it does not expect, sends a request again
      until it is answered, and hands over replies to the last request only; the
      codecs are exact, and the hash is the one of the standard.
    - What the code does not do as it means to: faults on empty queues and unknown
      tasks, a receiver that loses a race with a sender, writes out of bounds in the
      shared data, in the deletion of a student, for long names, a sort that reads
      an array of a thread that has ended, a test that uses freed memory, a server
      that counts parts of messages, one that takes a failed receive for a message.

    ** Bounds and fuel

    Integers wrap at 32 and 64 bits where the code computes with them; [int] results
    of subtractions that overflow wrap as well.  A loop whose bound is a number of
    the program is structural ([for_range], [for_find], [for_fold]) and needs no
    fuel.  Fuel bounds the waits for a message ([wait_tag]), the main loops, and the
    walks over a linked list.  Theorems about them hold for all fuel, or for fuel of
    at least the length of the list; the waits in [DatabaseServer],
    [DatabaseClient] and [Subscription] need none, as the message is there.  [Scenarios] and the
    witnesses run with the fuel they name.  The parts of the sample sort are cut at
    the waits and need none.  Loops over the operating system are interaction trees
    and need none either: [stream_benchmarks_correct] bounds the steps of their runs.
    In the files of nanomsg the fuel is part of the operation and its theorem shows
    that it is enough: the length of the data for the trie, the number of items of
    the hash map for its loops ([hash_fuel]), 17 for the search of a slot
    ([lower_slot]), the length of the body for the stack of a request ([stack_size]),
    one more than the characters for the loops over the text
    of base64 (enough below 2^32 of them, where the counters do not wrap) and 4 for those
    within a byte and at the end, one more than the
    messages that wait ([raw_pending]) for the loop of a requester, 64 for the padding
    of a hash ([sha1_pad]).

    ** Not modelled

    - [malloc] succeeds for sizes below 2^47, and blocks that were freed are not used
      again.  A failing [shm_open] or [mmap] is only modelled where the name does not
      exist, which is how the programs fail.
    - Operations of the queue are atomic: they run with the lock of the queue taken,
      and C1 shows that each of them releases it.  The functions of [System.c] are run
      as a whole, but for [getNextTaskID], whose statements are in [TaskIds].  Where the code
      has no lock (a message between [Dequeue] and [clone], the arrays of the sample
      sort) theorems show what another order does.  Condition variables only record
      who was signalled; a [message_wait] returns, as its callers loop.
      [pthread_join] at shutdown is no step of the sequential model.
    - [printf] records format and arguments, without the newline and without
      addresses; floats are copied as four bytes; [srand] has no effect on the stream
      of random numbers, which is arbitrary.  [qsort] is insertion by the comparison
      function.
    - Alone ([Posix.run]), a process gets any answers from the system.  Together
      ([StreamSpec.step]), the processes over pipes and sockets start connected, with
      a first-in first-out channel of bytes for each descriptor: a write takes all its
      bytes when they fit, a read some of those that are there, the end is read when
      the writers have ended, and neither fails while both sides live.  Opening,
      accepting and closing are in the runs of one process only; what the system does
      to a file that is no pipe is not modelled.  nanomsg is only calls with answers.
    - An environment of [Environment] is what a program sees when the other side does
      its part in order: the queue of messages with room for ten, the clients that
      ask one after the other.  Priorities and permissions are left out.
    - Of nanomsg 1.0.0 the blocking calls and the global state ([sock.c], [global.c]),
      the state machines over the sockets and threads of the system ([aio], [tcp],
      [ipc], [ws]; of [aio/timer.c] the tasks and the expiry come in any order and at
      any time, so the lengths of intervals are not there), devices, and stopping and disconnecting: most of it
      is asynchronous input and output and the plumbing of options.  Its allocations
      succeed.
    - The Java and JavaScript trials in [exploration] have no C code.  Of
      [pthread_inproc.c] the creation and joining of threads is the initial state and
      the end of the runs; [samplesort_test.c] is modelled up to its wait. *)

From stdpp Require Import base numbers list strings gmap.
From Stdlib Require Import Lia.

Declare Scope ts_scope.
Delimit Scope ts_scope with ts.
#[local] Open Scope Z_scope.

(** ** Fixed-width integers *)

(** [unsigned int] arithmetic: reduction modulo [2 ^ 32]. *)
Definition u32 (z : Z) : Z := z mod 4294967296.

(** Conversion to [int]: two's complement on 32 bits. *)
Definition s32 (z : Z) : Z :=
  if u32 z <? 2147483648 then u32 z else u32 z - 4294967296.

(** Conversion to [long]: two's complement on 64 bits. *)
Definition s64 (z : Z) : Z :=
  let u := z mod 18446744073709551616 in
  if u <? 9223372036854775808 then u else u - 18446744073709551616.

Definition is_s32 (z : Z) : Prop := -2147483648 <= z < 2147483648.
Definition is_u32 (z : Z) : Prop := 0 <= z < 4294967296.
Definition is_s64 (z : Z) : Prop :=
  -9223372036854775808 <= z < 9223372036854775808.

#[export] Instance is_s32_dec z : Decision (is_s32 z).
Proof. unfold is_s32. apply _. Defined.
#[export] Instance is_u32_dec z : Decision (is_u32 z).
Proof. unfold is_u32. apply _. Defined.

Lemma u32_small z : is_u32 z → u32 z = z.
Proof. intros H. apply Z.mod_small, H. Qed.

Lemma u32_range z : is_u32 (u32 z).
Proof. apply Z.mod_pos_bound. lia. Qed.

Lemma u32_s32 z : u32 (s32 z) = u32 z.
Proof.
  unfold s32. case_match; [apply u32_small, u32_range|].
  unfold u32. rewrite <- (Z.mod_add _ 1) by lia.
  replace (z mod 4294967296 - 4294967296 + 1 * 4294967296)
    with (z mod 4294967296) by lia.
  by rewrite Z.mod_mod by lia.
Qed.

Lemma s32_u32 z : s32 (u32 z) = s32 z.
Proof. unfold s32. by rewrite (u32_small (u32 z)) by apply u32_range. Qed.

Lemma s32_small z : is_s32 z → s32 z = z.
Proof.
  unfold is_s32, s32, u32. intros H. destruct (decide (0 <= z)) as [Hz|Hz].
  - rewrite Z.mod_small by lia. case_match; lia.
  - assert (z mod 4294967296 = z + 4294967296) as ->.
    { rewrite <- (Z.mod_add _ 1) by lia. apply Z.mod_small. lia. }
    case_match; lia.
Qed.

Lemma s32_range z : is_s32 (s32 z).
Proof. unfold is_s32, s32. pose proof (u32_range z) as H. unfold is_u32 in H. case_match; lia. Qed.

Lemma s64_small z : is_s64 z → s64 z = z.
Proof.
  unfold is_s64, s64. intros H. cbv zeta. destruct (decide (0 <= z)) as [Hz|Hz].
  - rewrite Z.mod_small by lia. case_match; lia.
  - assert (z mod 18446744073709551616 = z + 18446744073709551616) as ->.
    { rewrite <- (Z.mod_add _ 1) by lia. apply Z.mod_small. lia. }
    case_match; lia.
Qed.

(** ** Little-endian byte strings *)

Fixpoint le_split (n : nat) (z : Z) : list Z :=
  match n with
  | O => []
  | S n' => z mod 256 :: le_split n' (z / 256)
  end.

Fixpoint le_join (l : list Z) : Z :=
  match l with
  | [] => 0
  | b :: t => b + 256 * le_join t
  end.

Lemma length_le_split n z : length (le_split n z) = n.
Proof. revert z. induction n; intros z; simpl; auto. Qed.

Lemma le_join_split n z : le_join (le_split n z) = z mod 256 ^ Z.of_nat n.
Proof.
  revert z. induction n as [|n IH]; intros z.
  - cbn. by rewrite Z.mod_1_r.
  - cbn [le_split le_join]. rewrite IH, Nat2Z.inj_succ, Z.pow_succ_r by lia.
    pose proof (Z.pow_pos_nonneg 256 (Z.of_nat n)).
    rewrite Z.rem_mul_r by lia. lia.
Qed.

Lemma le_split_mod n z : le_split n (z mod 256 ^ Z.of_nat n) = le_split n z.
Proof.
  revert z. induction n as [|n IH]; intros z; [done|].
  cbn [le_split]. rewrite Nat2Z.inj_succ, Z.pow_succ_r by lia.
  pose proof (Z.pow_pos_nonneg 256 (Z.of_nat n)).
  rewrite Z.rem_mul_r by lia. f_equal.
  - rewrite (Z.mul_comm 256), Z.mod_add by lia. by rewrite Z.mod_mod by lia.
  - rewrite <- (IH (z / 256)). f_equal.
    rewrite (Z.mul_comm 256), Z.div_add by lia.
    rewrite (Z.div_small (z mod 256)); [lia|]. apply Z.mod_pos_bound. lia.
Qed.

(** ** Automation *)

Create HintDb ts discriminated.
Create HintDb fields.
Create Rewrite HintDb ts.
#[export] Hint Resolve u32_range s32_range : ts.
#[export] Hint Rewrite u32_s32 s32_u32 : ts.

(** Case analysis on the boolean comparison in the goal, then arithmetic. *)
Ltac zbool :=
  repeat match goal with
    | |- context [?a =? ?b] => destruct (Z.eqb_spec a b)
    | |- context [?a <? ?b] => destruct (Z.ltb_spec a b)
    | |- context [?a <=? ?b] => destruct (Z.leb_spec a b)
    | |- context [?a >? ?b] => rewrite (Z.gtb_ltb a b)
    end.

(** ** Sums over lists *)

Definition zsum {A} (f : A → Z) (ts : list A) : Z := foldr (λ t n, f t + n) 0 ts.

Lemma zsum_cons {A} (f : A → Z) t ts : zsum f (t :: ts) = f t + zsum f ts.
Proof. done. Qed.
#[global] Arguments zsum {A} f ts : simpl never.

Lemma zsum_insert {A} (f : A → Z) ts k t t' :
  ts !! k = Some t → zsum f (<[k := t']> ts) = zsum f ts - f t + f t'.
Proof.
  revert k. induction ts as [|x ts IH]; intros k Hk; [done|].
  destruct k as [|k]; cbn in Hk.
  - injection Hk as ->. change (<[0%nat := t']> (t :: ts)) with (t' :: ts). rewrite !zsum_cons. lia.
  - change (<[S k := t']> (x :: ts)) with (x :: <[k := t']> ts). rewrite !zsum_cons, (IH k Hk). lia.
Qed.

Lemma zsum_le {A} (f g : A → Z) ts : (∀ t, 0 <= f t <= g t) → 0 <= zsum f ts <= zsum g ts.
Proof. intros Hf. induction ts as [|x l IH]; [done|]. rewrite !zsum_cons. specialize (Hf x). lia. Qed.

(** The other elements have no more of [f] than of [g]. *)
Lemma zsum_le_other {A} (f g : A → Z) ts k t :
  (∀ t, 0 <= f t <= g t) → ts !! k = Some t → 0 <= zsum f ts - f t <= zsum g ts - g t.
Proof.
  intros Hf. pose proof (λ ts, zsum_le f g ts Hf) as Hle. revert k. induction ts as [|x ts IH]; intros k Hk; [done|].
  destruct k as [|k]; cbn in Hk; rewrite !zsum_cons.
  - injection Hk as ->. specialize (Hle ts). lia.
  - specialize (IH k Hk). specialize (Hf x). lia.
Qed.

Lemma zsum_replicate {A} (f : A → Z) n t : zsum f (replicate n t) = Z.of_nat n * f t.
Proof. induction n as [|n IH]; [done|]. cbn [replicate]. rewrite zsum_cons, IH. lia. Qed.

Lemma zsum_nonneg {A} (f : A → Z) ts : (∀ t, 0 <= f t) → 0 <= zsum f ts.
Proof. intros Hf. induction ts as [|t ts IH]; [done|]. rewrite zsum_cons. specialize (Hf t). lia. Qed.

(** Sums under bounds that hold of all elements. *)
Lemma zsum_bound {A} (f : A → Z) b ts : Forall (λ t, f t <= b) ts → zsum f ts <= Z.of_nat (length ts) * b.
Proof. induction 1 as [|t ts Ht _ IH]; [done|]. rewrite zsum_cons. cbn [length]. lia. Qed.

Lemma zsum_const {A} (f : A → Z) b ts : Forall (λ t, f t = b) ts → zsum f ts = Z.of_nat (length ts) * b.
Proof. induction 1 as [|t ts Ht _ IH]; [done|]. rewrite zsum_cons. cbn [length]. lia. Qed.

Lemma zsum_pos {A} (f : A → Z) ts : 0 < zsum f ts → ∃ k t, ts !! k = Some t ∧ 0 < f t.
Proof.
  induction ts as [|t ts IH]; [done|]. rewrite zsum_cons. intros H.
  destruct (decide (0 < f t)); [by exists 0%nat, t|].
  destruct IH as (k & u & Hk & Hu); [lia|]. by exists (S k), u.
Qed.

Lemma zsum_one {A} (f : A → Z) ts k t : Forall (λ u, 0 <= f u) ts → ts !! k = Some t → f t <= zsum f ts.
Proof.
  intros Hf. revert k. induction Hf as [|u us Hu Hf IH]; intros k Hk; [done|]. rewrite zsum_cons.
  assert (0 <= zsum f us) by (clear -Hf; induction Hf as [|v vs Hv _ IH]; [done|]; rewrite zsum_cons; lia).
  destruct k as [|k]; cbn in Hk; [injection Hk as ->; lia|]. specialize (IH k Hk). lia.
Qed.
