(* ===== verification/CMem.v ===== *)
(** * Memory, effects and the C library

    The machine the translated C code runs on: byte-addressed memory objects
    (blocks) with bounds, pointers that are only valid in the process that
    made them, mutexes, POSIX shared memory names, standard output, started
    threads, and the streams the code reads the clock and [random] from.  The
    code is translated into the monad [M]; [wp] is its total-correctness
    weakest precondition ([wp c p w Q]: process [p] runs [c] from [w] without
    fault and ends in a state satisfying [Q]). *)

From S2P Require Import Prelude.
From stdpp Require Import base numbers list strings gmap.
From Stdlib Require Import Lia.
#[local] Open Scope Z_scope.

(** ** Pointers, memory bytes, blocks *)

(** [Addr p b o] is the address, valid in process [p], of offset [o] of memory
    object [b]; [Fun p f] the address in process [p] of the C function [f].
    Shared memory is one object that several processes have addresses of. *)
Inductive ptr :=
| Null
| Addr (p b o : Z)
| Fun (p : Z) (f : string).

#[export] Instance ptr_eq_dec : EqDecision ptr.
Proof. solve_decision. Defined.

(** One byte of memory: not initialised, a number, or byte [i] of the
    representation of a pointer. *)
Inductive memval :=
| Undef
| Byte (b : Z)
| PFrag (p : ptr) (i : nat).

#[export] Instance memval_eq_dec : EqDecision memval.
Proof. solve_decision. Defined.

(** [bfill]: what the bytes never written hold: not initialised in a block from
    [malloc], zero in a shared memory object. *)
Record blk := Blk { bsize : Z; bfill : memval; bdata : gmap Z memval }.

(** [w_guard]: how many bytes past the end of a shared memory mapping can be
    written without a fault (what the kernel happened to map there).
    [w_threads]: the threads created and not yet run, as the start routine and
    its argument.  [w_out]: what was printed, the format and its arguments. *)
Inductive parg := AInt (z : Z) | AStr (s : list memval).

Record world := World {
  w_blocks : gmap Z blk;
  w_next : Z;
  w_locks : gset (Z * Z);
  w_shm : gmap string Z;
  w_guard : Z;
  w_out : list (string * list parg);
  w_threads : list (Z * string * ptr);
  w_signals : list (Z * Z);
  w_clock : list (Z * Z);
  w_rand : list Z
}.

Definition set_blocks (f : gmap Z blk → gmap Z blk) (w : world) : world :=
  World (f (w_blocks w)) (w_next w) (w_locks w) (w_shm w) (w_guard w)
    (w_out w) (w_threads w) (w_signals w) (w_clock w) (w_rand w).
Definition set_locks (f : gset (Z * Z) → gset (Z * Z)) (w : world) : world :=
  World (w_blocks w) (w_next w) (f (w_locks w)) (w_shm w) (w_guard w)
    (w_out w) (w_threads w) (w_signals w) (w_clock w) (w_rand w).
Definition set_shm (f : gmap string Z → gmap string Z) (w : world) : world :=
  World (w_blocks w) (w_next w) (w_locks w) (f (w_shm w)) (w_guard w)
    (w_out w) (w_threads w) (w_signals w) (w_clock w) (w_rand w).
Definition add_out (e : string * list parg) (w : world) : world :=
  World (w_blocks w) (w_next w) (w_locks w) (w_shm w) (w_guard w)
    (w_out w ++ [e]) (w_threads w) (w_signals w) (w_clock w) (w_rand w).
Definition set_threads (f : list (Z * string * ptr) → list (Z * string * ptr))
    (w : world) : world :=
  World (w_blocks w) (w_next w) (w_locks w) (w_shm w) (w_guard w)
    (w_out w) (f (w_threads w)) (w_signals w) (w_clock w) (w_rand w).
Definition add_signal (e : Z * Z) (w : world) : world :=
  World (w_blocks w) (w_next w) (w_locks w) (w_shm w) (w_guard w)
    (w_out w) (w_threads w) (w_signals w ++ [e]) (w_clock w) (w_rand w).
Definition set_clock (c : list (Z * Z)) (w : world) : world :=
  World (w_blocks w) (w_next w) (w_locks w) (w_shm w) (w_guard w)
    (w_out w) (w_threads w) (w_signals w) c (w_rand w).
Definition set_rand (r : list Z) (w : world) : world :=
  World (w_blocks w) (w_next w) (w_locks w) (w_shm w) (w_guard w)
    (w_out w) (w_threads w) (w_signals w) (w_clock w) r.

(** Put a new block [k] in memory at the next free block number. *)
Definition add_block (k : blk) (w : world) : world :=
  World (<[w_next w := k]> (w_blocks w)) (w_next w + 1) (w_locks w) (w_shm w)
    (w_guard w) (w_out w) (w_threads w) (w_signals w) (w_clock w) (w_rand w).

Definition world_init (guard : Z) (clock : list (Z * Z)) (rand : list Z) : world :=
  World ∅ 1 ∅ ∅ guard [] [] [] clock rand.

(** ** Reading and writing byte ranges *)

(** Bytes [o .. o+n-1] of a block. *)
Fixpoint rd (k : blk) (o : Z) (n : nat) : list memval :=
  match n with
  | O => []
  | S n' => default (bfill k) (bdata k !! o) :: rd k (o + 1) n'
  end.

Fixpoint wr (d : gmap Z memval) (o : Z) (l : list memval) : gmap Z memval :=
  match l with
  | [] => d
  | v :: t => wr (<[o := v]> d) (o + 1) t
  end.

Definition in_block (k : blk) (o : Z) (n : nat) : Prop :=
  0 <= o ∧ o + Z.of_nat n <= bsize k.

#[export] Instance in_block_dec k o n : Decision (in_block k o n).
Proof. unfold in_block. apply _. Defined.

(** [upd w b o l]: memory with [l] written at offset [o] of block [b]. *)
Definition upd (w : world) (b o : Z) (l : list memval) : world :=
  match w_blocks w !! b with
  | Some k => set_blocks (<[b := Blk (bsize k) (bfill k) (wr (bdata k) o l)]>) w
  | None => w
  end.

(** [valid w b o n]: [n] bytes can be accessed at offset [o] of block [b]. *)
Definition valid (w : world) (b o : Z) (n : nat) : Prop :=
  ∃ k, w_blocks w !! b = Some k ∧ in_block k o n.

(** [mb w b o l]: memory holds the bytes [l] at offset [o] of block [b]. *)
Definition mb (w : world) (b o : Z) (l : list memval) : Prop :=
  ∃ k, w_blocks w !! b = Some k ∧ in_block k o (length l) ∧
       rd k o (length l) = l.

(** ** The monad *)

(** [Ok]: a result; [Exit]: the process called [exit]; [Fault]: undefined
    behaviour (a bad access, a division by zero); [Spin]: the code waits for
    something only another task can do, or ran out of fuel in a loop. *)
Inductive res (A : Type) :=
| Ok (a : A) (w : world)
| Exit (code : Z) (w : world)
| Fault
| Spin.
Arguments Ok {A}. Arguments Exit {A}. Arguments Fault {A}. Arguments Spin {A}.

(** A computation of a process: process number, then state. *)
Definition M (A : Type) : Type := Z → world → res A.

Definition ret {A} (a : A) : M A := λ _ w, Ok a w.
Definition bind {A B} (c : M A) (k : A → M B) : M B := λ p w,
  match c p w with
  | Ok a w' => k a p w'
  | Exit n w' => Exit n w'
  | Fault => Fault
  | Spin => Spin
  end.
Definition fault {A} : M A := λ _ _, Fault.
Definition spin {A} : M A := λ _ _, Spin.
Definition exit {A} (code : Z) : M A := λ _ w, Exit code w.
Definition self : M Z := λ p w, Ok p w.
Definition get_world : M world := λ _ w, Ok w w.
Definition modify (f : world → world) : M unit := λ _ w, Ok tt (f w).

Notation "x <- c ;; k" := (bind c (λ x, k))
  (at level 100, c at next level, right associativity) : ts_scope.
Notation "c ;;; k" := (bind c (λ _, k))
  (at level 100, right associativity) : ts_scope.
#[local] Open Scope ts_scope.

(** [for (i = lo; i < lo + n; i++) body]. *)
Fixpoint for_up (n : nat) (lo : Z) (body : Z → M unit) : M unit :=
  match n with
  | O => ret tt
  | S n' => body lo;;; for_up n' (lo + 1) body
  end.

(** [for (int i = lo; i < hi; i++) body]. *)
Definition for_range (lo hi : Z) (body : Z → M unit) : M unit :=
  for_up (Z.to_nat (hi - lo)) lo body.

(** [for (int i = lo; i < lo + n; i++) { ... }] where the body can [break]:
    it answers [Some a] to leave the loop with [a]. *)
Fixpoint for_find {A} (n : nat) (lo : Z) (body : Z → M (option A)) : M (option A) :=
  match n with
  | O => ret None
  | S n' =>
      r <- body lo;;
      match r with
      | Some a => ret (Some a)
      | None => for_find n' (lo + 1) body
      end
  end.

(** The same with a local variable [s] that the body changes. *)
Fixpoint for_fold {S} (n : nat) (lo : Z) (s : S) (body : Z → S → M S) : M S :=
  match n with
  | O => ret s
  | Datatypes.S n' => s' <- body lo s;; for_fold n' (lo + 1) s' body
  end.

(** [while (c) body], at most [fuel] times round; [Spin] when it is not over
    by then. *)
Fixpoint while_fuel {S} (fuel : nat) (s : S) (cond : S → bool) (body : S → M S) : M S :=
  if cond s then
    match fuel with
    | O => spin
    | Datatypes.S f => s' <- body s;; while_fuel f s' cond body
    end
  else ret s.

(** ** Pointer arithmetic and access *)

Definition padd (p : ptr) (n : Z) : ptr :=
  match p with
  | Addr pr b o => Addr pr b (o + n)
  | _ => p
  end.

(** [n] bytes at [p]: the address must be one of the running process. *)
Definition load (p : ptr) (n : nat) : M (list memval) := λ me w,
  match p with
  | Addr pr b o =>
      if decide (pr = me) then
        match w_blocks w !! b with
        | Some k =>
            if decide (in_block k o n) then Ok (rd k o n) w else Fault
        | None => Fault
        end
      else Fault
  | _ => Fault
  end.

Definition store (p : ptr) (l : list memval) : M unit := λ me w,
  match p with
  | Addr pr b o =>
      if decide (pr = me) then
        match w_blocks w !! b with
        | Some k =>
            if decide (in_block k o (length l)) then Ok tt (upd w b o l) else Fault
        | None => Fault
        end
      else Fault
  | _ => Fault
  end.

(** ** Representation of scalars *)

Definition enc_n (n : nat) (z : Z) : list memval := Byte <$> le_split n z.
Definition enc_i32 (z : Z) : list memval := enc_n 4 z.
Definition enc_i64 (z : Z) : list memval := enc_n 8 z.
Definition enc_i8 (z : Z) : list memval := enc_n 1 z.
Definition enc_ptr (p : ptr) : list memval :=
  match p with
  | Null => replicate 8 (Byte 0)
  | _ => PFrag p <$> seq 0 8
  end.

Definition get_byte (v : memval) : option Z :=
  match v with Byte b => Some b | _ => None end.

Definition dec_n (l : list memval) : option Z := le_join <$> mapM get_byte l.

Definition dec_ptr (l : list memval) : option ptr :=
  if decide (l = enc_ptr Null) then Some Null
  else match l with
       | PFrag p _ :: _ => if decide (l = enc_ptr p) then Some p else None
       | _ => None
       end.

(** [a / b] on [int]: a division by zero is a fault. *)
Definition int_div (a b : Z) : M Z := if b =? 0 then fault else ret (Z.quot a b).

Definition lift {A} (o : option A) : M A :=
  match o with Some a => ret a | None => fault end.

Definition ld_u32 (p : ptr) : M Z := l <- load p 4;; lift (dec_n l).
Definition ld_i32 (p : ptr) : M Z := z <- ld_u32 p;; ret (s32 z).
Definition ld_i64 (p : ptr) : M Z := l <- load p 8;; z <- lift (dec_n l);; ret (s64 z).
Definition ld_ptr (p : ptr) : M ptr := l <- load p 8;; lift (dec_ptr l).
Definition st_i32 (p : ptr) (z : Z) : M unit := store p (enc_i32 z).
Definition st_i64 (p : ptr) (z : Z) : M unit := store p (enc_i64 z).
Definition st_ptr (p : ptr) (v : ptr) : M unit := store p (enc_ptr v).


(** ** Struct layout (the System V x86-64 ABI)

    A struct is declared by its members, in order; the offset of each one is
    computed from the size and alignment of its type. *)

Inductive ctype :=
| CInt | CUInt | CLong | CFloat | CPtr
| CArr (t : ctype) (n : Z)
| COpaque (size align : Z).

Definition CChar : ctype := COpaque 1 1.

Fixpoint ct_align (t : ctype) : Z :=
  match t with
  | CInt | CUInt | CFloat => 4
  | CLong | CPtr => 8
  | CArr t _ => ct_align t
  | COpaque _ a => a
  end.

Fixpoint ct_size (t : ctype) : Z :=
  match t with
  | CInt | CUInt | CFloat => 4
  | CLong | CPtr => 8
  | CArr t n => ct_size t * n
  | COpaque s _ => s
  end.

Definition align_up (o a : Z) : Z := (o + a - 1) / a * a.

(** A member: where it is in the struct and how many bytes it has. *)
Record field := Fld { f_off : Z; f_len : Z }.

Definition struct_decl : Type := list (string * ctype).

Fixpoint layout_from (o : Z) (ms : struct_decl) : list (string * field) :=
  match ms with
  | [] => []
  | (name, t) :: ms' =>
      let o' := align_up o (ct_align t) in
      (name, Fld o' (ct_size t)) :: layout_from (o' + ct_size t) ms'
  end.

Fixpoint end_from (o : Z) (ms : struct_decl) : Z :=
  match ms with
  | [] => o
  | (_, t) :: ms' => end_from (align_up o (ct_align t) + ct_size t) ms'
  end.

Definition struct_align (ms : struct_decl) : Z :=
  fold_right (λ m a, Z.max (ct_align m.2) a) 1 ms.
Definition struct_layout (ms : struct_decl) : list (string * field) :=
  layout_from 0 ms.
Definition struct_size (ms : struct_decl) : Z :=
  align_up (end_from 0 ms) (struct_align ms).

Fixpoint alist_get {A} (name : string) (l : list (string * A)) : option A :=
  match l with
  | [] => None
  | (n, a) :: l' => if String.eqb n name then Some a else alist_get name l'
  end.

(** The member [name] of a struct. *)
Definition member (ms : struct_decl) (name : string) : field :=
  default (Fld (-1) 0) (alist_get name (struct_layout ms)).

(** [&p->f], and reading and assigning members. *)
Definition addr_of (p : ptr) (f : field) : ptr := padd p (f_off f).
Definition get_int (p : ptr) (f : field) : M Z := ld_i32 (addr_of p f).
Definition get_uint (p : ptr) (f : field) : M Z := ld_u32 (addr_of p f).
Definition get_long (p : ptr) (f : field) : M Z := ld_i64 (addr_of p f).
Definition get_ptr (p : ptr) (f : field) : M ptr := ld_ptr (addr_of p f).
Definition set_int (p : ptr) (f : field) (z : Z) : M unit := st_i32 (addr_of p f) z.
Definition set_long (p : ptr) (f : field) (z : Z) : M unit := st_i64 (addr_of p f) z.
Definition set_ptr (p : ptr) (f : field) (v : ptr) : M unit := st_ptr (addr_of p f) v.

(** [p->f = fn], for a C function [fn] of the running process. *)
Definition set_fun (p : ptr) (f : field) (fn : string) : M unit :=
  me <- self;; set_ptr p f (Fun me fn).

(** [dst->f = src->g]: the bytes of the member are copied. *)
Definition copy_field (dst : ptr) (f : field) (src : ptr) (g : field) : M unit :=
  l <- load (addr_of src g) (Z.to_nat (f_len g));; store (addr_of dst f) l.

(** [(p->f)(...)]: the pointer stored in the member must be one to a function of
    the running process that [table] knows. *)
Definition call_through {A} (p : ptr) (f : field) (table : list (string * M A)) : M A :=
  v <- get_ptr p f;;
  match v with
  | Fun pr fn =>
      me <- self;;
      if decide (pr = me) then
        match alist_get fn table with Some c => c | None => fault end
      else fault
  | _ => fault
  end.

(** ** The C library and POSIX, as far as the code uses them *)

(** [malloc]: a fresh uninitialised block; NULL for a size no machine has (a
    negative [int] converted to [size_t]). *)
Definition malloc (n : Z) : M ptr := λ me w,
  if decide (0 <= n < 140737488355328) then
    Ok (Addr me (w_next w) 0) (add_block (Blk n Undef ∅) w)
  else Ok Null w.

Definition free (p : ptr) : M unit := λ me w,
  match p with
  | Null => Ok tt w
  | Addr pr b o =>
      if decide (pr = me ∧ o = 0) then
        match w_blocks w !! b with
        | Some _ => Ok tt (set_blocks (delete b) w)
        | None => Fault
        end
      else Fault
  | Fun _ _ => Fault
  end.

(** A local variable of [n] bytes: a block of the process until the function
    that declares it returns. *)
Definition with_local {A} (n : Z) (k : ptr → M A) : M A :=
  p <- malloc n;; a <- k p;; free p;;; ret a.

(** [FatalError]: [exit(1)]. *)
Definition FatalError {A} : M A := exit 1.

(** [memcpy(dst, src, n)]: the ranges must not overlap. *)
Definition overlap (p q : ptr) (n : Z) : bool :=
  match p, q with
  | Addr _ b o, Addr _ b' o' => bool_decide (b = b' ∧ o < o' + n ∧ o' < o + n)
  | _, _ => false
  end.

Definition memcpy (dst src : ptr) (n : Z) : M ptr :=
  if n =? 0 then ret dst
  else if n <? 0 then fault
  else if overlap dst src n then fault
  else (l <- load src (Z.to_nat n);; store dst l;;; ret dst).

Definition memset0 (p : ptr) (n : Z) : M unit := store p (replicate (Z.to_nat n) (Byte 0)).

(** A string literal: a static object of the process. *)
Fixpoint chars (s : string) : list memval :=
  match s with
  | EmptyString => []
  | String a s' => Byte (Z.of_N (Ascii.N_of_ascii a)) :: chars s'
  end.

Definition str_lit (s : string) : M ptr :=
  p <- malloc (Z.of_nat (String.length s) + 1);;
  store p (chars s ++ [Byte 0]);;; ret p.

(** The characters before the terminating zero of the string at [p]; a fault
    when the memory object ends first or a byte is not initialised. *)
Fixpoint scan (n : nat) (k : blk) (o : Z) : option (list memval) :=
  match n with
  | O => None
  | S n' =>
      match default (bfill k) (bdata k !! o) with
      | Byte 0 => Some []
      | Byte b => (λ l, Byte b :: l) <$> scan n' k (o + 1)
      | _ => None
      end
  end.

Definition load_str (p : ptr) : M (list memval) := λ me w,
  match p with
  | Addr pr b o =>
      if decide (pr = me) then
        match w_blocks w !! b with
        | Some k =>
            if decide (0 <= o) then
              match scan (Z.to_nat (bsize k - o)) k o with
              | Some l => Ok l w
              | None => Fault
              end
            else Fault
        | None => Fault
        end
      else Fault
  | _ => Fault
  end.

Definition strcpy (dst src : ptr) : M unit :=
  l <- load_str src;; store dst (l ++ [Byte 0]).

(** At most [n] characters; the rest of the [n] bytes is filled with zeros.
    The source is not read past its terminator or past [n] characters. *)
Fixpoint scan_n (n : nat) (k : blk) (o : Z) : option (list memval) :=
  match n with
  | O => Some []
  | S n' =>
      if decide (in_block k o 1) then
        match default (bfill k) (bdata k !! o) with
        | Byte 0 => Some []
        | Byte b => (λ l, Byte b :: l) <$> scan_n n' k (o + 1)
        | _ => None
        end
      else None
  end.

Definition load_str_n (p : ptr) (n : nat) : M (list memval) := λ me w,
  match p with
  | Addr pr b o =>
      if decide (pr = me) then
        match w_blocks w !! b with
        | Some k => match scan_n n k o with Some l => Ok l w | None => Fault end
        | None => Fault
        end
      else Fault
  | _ => Fault
  end.

Definition strncpy (dst src : ptr) (n : nat) : M unit :=
  l <- load_str_n src n;; store dst (l ++ replicate (n - length l) (Byte 0)).

(** Zero exactly when the strings are equal. *)
Definition strcmp (p q : ptr) : M Z :=
  a <- load_str p;; b <- load_str q;; ret (if decide (a = b) then 0 else 1).

Definition printf (fmt : string) (args : list parg) : M unit :=
  modify (add_out (fmt, args)).

(** [accessible me w p n]: process [me] can access [n] bytes at [p]. *)
Definition accessible (me : Z) (w : world) (p : ptr) (n : nat) : bool :=
  match p with
  | Addr pr b o =>
      match w_blocks w !! b with
      | Some k => bool_decide (pr = me ∧ in_block k o n)
      | None => false
      end
  | _ => false
  end.

(** A mutex is known by the block and offset it is at, so that it is the same
    one in every process that maps the block. *)
Definition mutex_id (p : ptr) : Z * Z :=
  match p with Addr _ b o => (b, o) | _ => (0, 0) end.

(** [pthread_mutex_lock] on a free mutex takes it; on one that is held the
    task waits. *)
Definition mutex_lock (p : ptr) : M unit := λ me w,
  if accessible me w p 1 then
    if decide (mutex_id p ∈ w_locks w) then Spin
    else Ok tt (set_locks (λ l, {[mutex_id p]} ∪ l) w)
  else Fault.

Definition mutex_unlock (p : ptr) : M unit := λ me w,
  if accessible me w p 1 then
    Ok tt (set_locks (λ l, l ∖ {[mutex_id p]}) w)
  else Fault.

(** [pthread_mutex_init]: the mutex is free. *)
Definition mutex_init (p : ptr) : M unit := mutex_unlock p.

(** [pthread_cond_wait] gives the mutex up, may return at any time (spurious
    wake-ups are allowed), and takes the mutex again.  What other tasks do in
    between is not part of this sequential semantics. *)
Definition cond_wait (c m : ptr) : M unit :=
  mutex_unlock m;;; mutex_lock m.

(** [pthread_cond_init]. *)
Definition cond_init (c : ptr) : M unit := λ me w,
  if accessible me w c 1 then Ok tt w else Fault.

(** [pthread_cond_signal]: recorded, with the block and offset of the
    condition variable. *)
Definition cond_signal (c : ptr) : M unit := λ me w,
  if accessible me w c 1 then Ok tt (add_signal (mutex_id c) w) else Fault.

(** [shm_open] with [O_CREAT], [ftruncate] and [mmap]: the object of that name
    when there is one (nothing asks for a new one), else a new one that holds
    zeros.  [w_guard] more bytes than asked for can be written after it. *)
Definition shm_create (name : string) (size : Z) : M ptr := λ me w,
  match w_shm w !! name with
  | Some b => Ok (Addr me b 0) w
  | None =>
      Ok (Addr me (w_next w) 0)
         (set_shm (<[name := w_next w]>)
            (add_block (Blk (size + w_guard w) (Byte 0) ∅) w))
  end.

(** [shm_open] without [O_CREAT] and [mmap]: NULL when the name is not there. *)
Definition shm_acquire (name : string) : M ptr := λ me w,
  match w_shm w !! name with
  | Some b => Ok (Addr me b 0) w
  | None => Ok Null w
  end.

(** [shm_unlink]: the name goes, the mappings stay. *)
Definition shm_unlink (name : string) : M unit := modify (set_shm (delete name)).

(** [pthread_create(..., run, arg)]: the thread is recorded as started; it
    always succeeds here. *)
Definition pthread_create (run : string) (arg : ptr) : M Z := λ me w,
  Ok 0 (set_threads (λ l, l ++ [(me, run, arg)]) w).

(** [clock_gettime(CLOCK_MONOTONIC, &t)]: the next reading of the clock. *)
Definition clock_gettime : M (Z * Z) := λ _ w,
  match w_clock w with
  | t :: c => Ok t (set_clock c w)
  | [] => Ok (0, 0) w
  end.

(** [random()]: the next number of the stream; a task that needs more numbers
    than there are is out of fuel. *)
Definition random : M Z := λ _ w,
  match w_rand w with
  | x :: r => Ok x (set_rand r w)
  | [] => Spin
  end.

(** [p[i]] for arrays of pointers. *)
Definition idx_ptr (p : ptr) (i : Z) : ptr := padd p (8 * i).

(** [qsort] on [int]s with comparison function [cmp]: the order [cmp] asks for,
    whatever the algorithm, when [cmp] is consistent. *)
Fixpoint insert_by (cmp : Z → Z → Z) (x : Z) (l : list Z) : list Z :=
  match l with
  | [] => [x]
  | y :: t => if cmp x y <=? 0 then x :: l else y :: insert_by cmp x t
  end.

Definition sort_by (cmp : Z → Z → Z) (l : list Z) : list Z :=
  fold_right (insert_by cmp) [] l.

(** [p[i]] for arrays of [int]. *)
Definition idx_i32 (p : ptr) (i : Z) : ptr := padd p (4 * i).

Fixpoint ld_ints (p : ptr) (n : nat) : M (list Z) :=
  match n with
  | O => ret []
  | S n' => z <- ld_i32 p;; l <- ld_ints (padd p 4) n';; ret (z :: l)
  end.

Fixpoint st_ints (p : ptr) (l : list Z) : M unit :=
  match l with
  | [] => ret tt
  | z :: t => st_i32 p z;;; st_ints (padd p 4) t
  end.

Definition qsort (p : ptr) (n : Z) (cmp : Z → Z → Z) : M unit :=
  l <- ld_ints p (Z.to_nat n);; st_ints p (sort_by cmp l).

(** [for (int i = 0; i < n; i++) dst[i] = src[i];] on [w]-byte elements. *)
Definition copy_array (w : Z) (dst src : ptr) (n : Z) : M unit :=
  for_range 0 n (λ i,
    l <- load (padd src (w * i)) (Z.to_nat w);; store (padd dst (w * i)) l).
