(* ===== verification/CLogic.v ===== *)
(** * Reasoning about the translated C code

    Facts about memory ([mb], [valid]), the relation [ext F w w'] (only the
    bytes in [F] of the blocks of [w] may differ in [w'], and nothing but
    memory changed), and the rules of [wp] for every operation of [CMem]. *)

From S2P Require Import Prelude CMem.
From stdpp Require Import base numbers list strings gmap.
From Stdlib Require Import Lia.
#[local] Open Scope Z_scope.
#[local] Open Scope ts_scope.

(** Byte [i] of a block. *)
Definition kbyte (k : blk) (i : Z) : memval := default (bfill k) (bdata k !! i).

(** Everything in the state but memory. *)
Definition env (w : world) :=
  (w_locks w, w_shm w, w_guard w, w_out w, w_threads w, w_signals w,
   w_clock w, w_rand w).

(** Block numbers from [w_next] on are free. *)
Definition wok (w : world) : Prop := ∀ b, w_next w <= b → w_blocks w !! b = None.

Definition frame (F : Z → Z → Prop) (w w' : world) : Prop :=
  ∀ b k, w_blocks w !! b = Some k →
    ∃ k', w_blocks w' !! b = Some k' ∧ bsize k' = bsize k ∧
      ∀ i, ¬ F b i → kbyte k' i = kbyte k i.

Definition ext (F : Z → Z → Prop) (w w' : world) : Prop :=
  frame F w w' ∧ env w' = env w ∧ w_next w <= w_next w' ∧ (wok w → wok w').

(** The bytes [o .. o+n-1] of block [b]. *)
Definition range (b o n : Z) : Z → Z → Prop := λ b' i, b' = b ∧ o <= i < o + n.
Definition nowhere : Z → Z → Prop := λ _ _, False.

Definition wp {A} (c : M A) (p : Z) (w : world) (Q : A → world → Prop) : Prop :=
  match c p w with Ok a w' => Q a w' | _ => False end.

Create Rewrite HintDb len.

(** ** Bytes of blocks *)

Lemma length_rd k o n : length (rd k o n) = n.
Proof. revert o. induction n; intros; simpl; auto. Qed.
#[export] Hint Rewrite length_rd : len.

Lemma rd_ext k k' o n :
  (∀ i, o <= i < o + Z.of_nat n → kbyte k i = kbyte k' i) → rd k o n = rd k' o n.
Proof.
  revert o. induction n as [|n IH]; intros o H; [done|]. cbn [rd].
  f_equal; [apply H; lia|]. apply IH. intros i Hi. apply H. lia.
Qed.

Lemma rd_plus k o n m :
  rd k o (n + m) = rd k o n ++ rd k (o + Z.of_nat n) m.
Proof.
  revert o. induction n as [|n IH]; intros o.
  - cbn. by rewrite Z.add_0_r.
  - cbn [rd Nat.add app]. rewrite IH.
    by replace (o + 1 + Z.of_nat n) with (o + Z.of_nat (S n)) by lia.
Qed.

Lemma lookup_wr_out d o l i :
  i < o ∨ o + Z.of_nat (length l) <= i → wr d o l !! i = d !! i.
Proof.
  revert d o. induction l as [|v l IH]; intros d o H; [done|].
  cbn [wr length] in *. rewrite IH by lia. apply lookup_insert_ne. lia.
Qed.

Lemma wr_app d o l1 l2 :
  wr d o (l1 ++ l2) = wr (wr d o l1) (o + Z.of_nat (length l1)) l2.
Proof.
  revert d o. induction l1 as [|v l IH]; intros d o.
  - cbn. by rewrite Z.add_0_r.
  - cbn [wr app length]. rewrite IH. f_equal. lia.
Qed.

Definition kwr (k : blk) (o : Z) (l : list memval) : blk :=
  Blk (bsize k) (bfill k) (wr (bdata k) o l).

Lemma rd_kwr_same k o l : rd (kwr k o l) o (length l) = l.
Proof.
  unfold kwr. destruct k as [s f d]. cbn [bsize bfill bdata].
  revert d o. induction l as [|v l IH]; intros d o; [done|].
  cbn [rd length wr bdata bfill]. f_equal; [|apply IH].
  rewrite lookup_wr_out by lia. by rewrite lookup_insert_eq.
Qed.

Lemma kbyte_kwr_out k o l i :
  i < o ∨ o + Z.of_nat (length l) <= i → kbyte (kwr k o l) i = kbyte k i.
Proof. intros H. unfold kbyte, kwr. cbn. by rewrite lookup_wr_out. Qed.

(** ** [upd], [valid] and [mb] *)

Lemma upd_blocks w b o l k :
  w_blocks w !! b = Some k → w_blocks (upd w b o l) = <[b := kwr k o l]> (w_blocks w).
Proof. intros H. unfold upd. by rewrite H. Qed.

Lemma upd_lookup w b o l b' :
  w_blocks (upd w b o l) !! b' =
    if decide (b' = b) then (λ k, kwr k o l) <$> w_blocks w !! b else w_blocks w !! b'.
Proof.
  unfold upd. destruct (w_blocks w !! b) as [k|] eqn:E; cbn.
  - destruct (decide (b' = b)) as [->|Hne]; [by rewrite lookup_insert_eq|].
    by rewrite lookup_insert_ne.
  - by destruct (decide (b' = b)) as [->|Hne].
Qed.

Lemma upd_env w b o l : env (upd w b o l) = env w.
Proof. unfold upd. by case_match. Qed.

Lemma upd_next w b o l : w_next (upd w b o l) = w_next w.
Proof. unfold upd. by case_match. Qed.

Lemma upd_locks w b o l : w_locks (upd w b o l) = w_locks w.
Proof. unfold upd. by case_match. Qed.

Lemma upd_app w b o l1 l2 :
  upd w b o (l1 ++ l2) = upd (upd w b o l1) b (o + Z.of_nat (length l1)) l2.
Proof.
  unfold upd at 1 3. destruct (w_blocks w !! b) as [k|] eqn:E.
  - unfold upd. cbn. rewrite lookup_insert_eq. unfold set_blocks. cbn.
    by rewrite insert_insert_eq, wr_app.
  - unfold upd. by rewrite E.
Qed.

Lemma upd_nil w b o : upd w b o [] = w.
Proof.
  unfold upd. case_match eqn:E; [|done]. unfold set_blocks. destruct w. cbn in *.
  f_equal. apply insert_id. rewrite E. by destruct b0.
Qed.

Lemma valid_upd w b o l b' o' n : valid w b' o' n → valid (upd w b o l) b' o' n.
Proof.
  intros (k & Hk & Hin). unfold valid. rewrite upd_lookup.
  destruct (decide (b' = b)) as [->|Hne]; [rewrite Hk; eexists|]; eauto.
Qed.

Lemma mb_valid w b o l : mb w b o l → valid w b o (length l).
Proof. intros (k & ? & ? & ?). by exists k. Qed.

Lemma valid_le w b o n o' n' :
  valid w b o n → o <= o' → o' + Z.of_nat n' <= o + Z.of_nat n → valid w b o' n'.
Proof. intros (k & ? & ? & ?) ? ?. exists k. split; [done|]. split; lia. Qed.

Lemma mb_upd_same w b o l : valid w b o (length l) → mb (upd w b o l) b o l.
Proof.
  intros (k & Hk & Hin). exists (kwr k o l). rewrite upd_lookup, decide_True by done.
  rewrite Hk. repeat split; try apply Hin. apply rd_kwr_same.
Qed.

Lemma mb_ext w w' b o l :
  (∀ k, w_blocks w !! b = Some k → ∃ k', w_blocks w' !! b = Some k' ∧
     bsize k' = bsize k ∧
     ∀ i, o <= i < o + Z.of_nat (length l) → kbyte k' i = kbyte k i) →
  mb w b o l → mb w' b o l.
Proof.
  intros H (k & Hk & Hin & Hrd). destruct (H k Hk) as (k' & Hk' & Hs & Hb).
  exists k'. split; [done|]. split; [unfold in_block in *; rewrite Hs; done|].
  rewrite <- Hrd at 2. apply rd_ext. auto.
Qed.

Lemma mb_upd_block w b o l b' o' l' :
  b ≠ b' → mb w b o l → mb (upd w b' o' l') b o l.
Proof.
  intros Hne. apply mb_ext. intros k Hk. exists k.
  by rewrite upd_lookup, decide_False by done.
Qed.

Lemma mb_upd_disj w b o l o' l' :
  o + Z.of_nat (length l) <= o' ∨ o' + Z.of_nat (length l') <= o →
  mb w b o l → mb (upd w b o' l') b o l.
Proof.
  intros Hd. apply mb_ext. intros k Hk. exists (kwr k o' l').
  rewrite upd_lookup, decide_True, Hk by done. repeat split.
  intros i Hi. apply kbyte_kwr_out. lia.
Qed.

Lemma mb_nil w b o : valid w b o 0 → mb w b o [].
Proof. intros (k & ? & ?). by exists k. Qed.

Lemma mb_app w b o l1 l2 :
  mb w b o (l1 ++ l2) ↔ mb w b o l1 ∧ mb w b (o + Z.of_nat (length l1)) l2.
Proof.
  unfold mb, in_block. setoid_rewrite length_app. setoid_rewrite rd_plus. split.
  - intros (k & Hk & Hin & Hrd). apply app_inj_1 in Hrd as [? ?]; [|apply length_rd].
    split; exists k; repeat split; (lia || done).
  - intros [(k & Hk & Hin & Hrd) (k' & Hk' & Hin' & Hrd')].
    assert (k' = k) as -> by congruence. exists k.
    repeat split; [done|lia|lia|congruence].
Qed.

Lemma mb_inj w b o l l' : mb w b o l → mb w b o l' → length l = length l' → l = l'.
Proof.
  intros (k & Hk & _ & <-) (k' & Hk' & _ & <-). rewrite !length_rd. congruence.
Qed.

(** ** Allocation *)

Lemma add_block_lookup_old w k b :
  b ≠ w_next w → w_blocks (add_block k w) !! b = w_blocks w !! b.
Proof. intros H. cbn. apply lookup_insert_ne. done. Qed.

Lemma add_block_valid w k o n :
  in_block k o n → valid (add_block k w) (w_next w) o n.
Proof. intros H. exists k. split; [|done]. cbn. apply lookup_insert_eq. Qed.

Lemma mb_add_block w k b o l :
  b ≠ w_next w → mb w b o l → mb (add_block k w) b o l.
Proof.
  intros H. apply mb_ext. intros k' Hk. exists k'.
  by rewrite add_block_lookup_old by done.
Qed.

Lemma valid_add_block w k b o n :
  b ≠ w_next w → valid w b o n → valid (add_block k w) b o n.
Proof. intros H (k' & ? & ?). exists k'. by rewrite add_block_lookup_old by done. Qed.

Lemma mb_fresh w b o l : wok w → mb w b o l → b < w_next w.
Proof.
  intros Hok (k & Hk & _). destruct (decide (w_next w <= b)); [|lia].
  by rewrite Hok in Hk by done.
Qed.

Lemma valid_fresh w b o n : wok w → valid w b o n → b < w_next w.
Proof.
  intros Hok (k & Hk & _). destruct (decide (w_next w <= b)); [|lia].
  by rewrite Hok in Hk by done.
Qed.

Lemma mb_same_blocks w w' b o l : w_blocks w' = w_blocks w → mb w b o l → mb w' b o l.
Proof. unfold mb. by intros ->. Qed.

Lemma valid_same_blocks w w' b o n :
  w_blocks w' = w_blocks w → valid w b o n → valid w' b o n.
Proof. unfold valid. by intros ->. Qed.

(** ** [ext] *)

Lemma mb_extF F w w' b o l :
  ext F w w' → (∀ i, o <= i < o + Z.of_nat (length l) → ¬ F b i) →
  mb w b o l → mb w' b o l.
Proof.
  intros [Hf _] HF. apply mb_ext. intros k Hk.
  destruct (Hf b k Hk) as (k' & ? & ? & Hb). exists k'. auto.
Qed.

Lemma valid_extF F w w' b o n : ext F w w' → valid w b o n → valid w' b o n.
Proof.
  intros [Hf _] (k & Hk & Hin). destruct (Hf b k Hk) as (k' & ? & Hs & _).
  exists k'. split; [done|]. unfold in_block in *. by rewrite Hs.
Qed.

Lemma ext_refl F w : ext F w w.
Proof. repeat split; auto; [|lia]. intros b k ?. by exists k. Qed.

Lemma ext_trans F w1 w2 w3 : ext F w1 w2 → ext F w2 w3 → ext F w1 w3.
Proof.
  intros (Hf & He & Hn & Ho) (Hf' & He' & Hn' & Ho'). repeat split.
  - intros b k Hk. destruct (Hf b k Hk) as (k' & Hk' & Hs & Hb).
    destruct (Hf' b k' Hk') as (k'' & Hk'' & Hs' & Hb').
    exists k''. repeat split; [done|congruence|]. intros i Hi.
    by rewrite Hb', Hb.
  - congruence.
  - lia.
  - auto.
Qed.

(** What happens to new blocks in the second part does not count. *)
Lemma ext_trans_old (F G : Z → Z → Prop) w1 w2 w3 :
  (∀ b k i, w_blocks w1 !! b = Some k → G b i → F b i) → ext F w1 w2 → ext G w2 w3 → ext F w1 w3.
Proof.
  intros HG (Hf & He & Hn & Ho) (Hf' & He' & Hn' & Ho'). split_and!; [|congruence|lia|auto].
  intros b k Hk. destruct (Hf b k Hk) as (k' & Hk' & Hs & Hb).
  destruct (Hf' b k' Hk') as (k'' & Hk'' & Hs' & Hb'). exists k''. split_and!; [done|congruence|].
  intros i Hi. rewrite Hb', Hb; eauto.
Qed.

Lemma ext_weaken (F G : Z → Z → Prop) w w' :
  (∀ b k i, w_blocks w !! b = Some k → F b i → G b i) → ext F w w' → ext G w w'.
Proof.
  intros H (Hf & He & Hn & Ho). split; [|done]. intros b k Hk.
  destruct (Hf b k Hk) as (k' & ? & ? & Hb). exists k'. repeat split; eauto.
Qed.

Lemma ext_upd F w w' b o l :
  (∀ k i, w_blocks w !! b = Some k → o <= i < o + Z.of_nat (length l) → F b i) →
  ext F w w' → ext F w (upd w' b o l).
Proof.
  intros H (Hf & He & Hn & Ho). split; [|split; [|split]].
  - intros b' k Hk. destruct (Hf b' k Hk) as (k' & Hk' & Hs & Hb).
    rewrite upd_lookup. destruct (decide (b' = b)) as [->|Hne]; [|by exists k'].
    rewrite Hk'. exists (kwr k' o l). repeat split; [done|]. intros i Hi.
    rewrite <- Hb by done. apply kbyte_kwr_out.
    destruct (decide (o <= i < o + Z.of_nat (length l))); [|lia].
    exfalso. eauto.
  - by rewrite upd_env.
  - by rewrite upd_next.
  - intros Hok b' Hb'. rewrite upd_next in Hb'. rewrite upd_lookup.
    specialize (Ho Hok). case_decide; subst; [by rewrite Ho|auto].
Qed.

Lemma ext_add_block F w w' k :
  wok w → ext F w w' → ext F w (add_block k w').
Proof.
  intros Hok (Hf & He & Hn & Ho). split; [|split; [|split]].
  - intros b k0 Hk0. destruct (Hf b k0 Hk0) as (k' & Hk' & Hs & Hb).
    exists k'. split; [|done]. rewrite add_block_lookup_old; [done|].
    intros ->. by rewrite (Ho Hok) in Hk' by lia.
  - done.
  - cbn. lia.
  - intros _ b Hb. cbn in *. rewrite lookup_insert_ne by lia. apply (Ho Hok). lia.
Qed.

Lemma ext_wok F w w' : ext F w w' → wok w → wok w'.
Proof. intros (_ & _ & _ & H). done. Qed.

Lemma ext_env F w w' : ext F w w' → env w' = env w.
Proof. intros (_ & H & _). done. Qed.

Lemma ext_next F w w' : ext F w w' → w_next w <= w_next w'.
Proof. intros (_ & _ & H & _). done. Qed.

(** ** Encodings *)

Lemma length_enc_n n z : length (enc_n n z) = n.
Proof. unfold enc_n. by rewrite length_fmap, length_le_split. Qed.
Lemma length_enc_i32 z : length (enc_i32 z) = 4%nat.
Proof. apply length_enc_n. Qed.
Lemma length_enc_i64 z : length (enc_i64 z) = 8%nat.
Proof. apply length_enc_n. Qed.
Lemma length_enc_ptr v : length (enc_ptr v) = 8%nat.
Proof. by destruct v. Qed.
#[export] Hint Rewrite length_enc_n length_enc_i32 length_enc_i64 length_enc_ptr : len.

Lemma mapM_get_byte l : mapM get_byte (Byte <$> l) = Some l.
Proof. induction l as [|b l IH]; [done|]. cbn. by rewrite IH. Qed.

Lemma dec_enc_n n z : dec_n (enc_n n z) = Some (z mod 256 ^ Z.of_nat n).
Proof. unfold dec_n, enc_n. rewrite mapM_get_byte. cbn. by rewrite le_join_split. Qed.

Lemma dec_enc_ptr v : dec_ptr (enc_ptr v) = Some v.
Proof.
  unfold dec_ptr. destruct v; [done| |];
    (rewrite decide_False by done; cbn; by rewrite decide_True by done).
Qed.

Lemma enc_i32_u32 z : enc_i32 (u32 z) = enc_i32 z.
Proof. unfold enc_i32, enc_n, u32. f_equal. apply (le_split_mod 4). Qed.

Lemma enc_i32_s32 z : enc_i32 (s32 z) = enc_i32 z.
Proof. rewrite <- enc_i32_u32, u32_s32. apply enc_i32_u32. Qed.

#[global] Arguments enc_n : simpl never.
#[global] Arguments enc_i32 : simpl never.
#[global] Arguments enc_i64 : simpl never.
#[global] Arguments enc_ptr : simpl never.
#[global] Arguments upd : simpl never.
#[global] Arguments add_block : simpl never.

(** ** Rules of [wp] *)

Lemma wp_ret {A} (a : A) p w (Q : A → world → Prop) : Q a w → wp (ret a) p w Q.
Proof. done. Qed.

Lemma wp_bind {A B} (c : M A) (k : A → M B) p w Q :
  wp c p w (λ a w', wp (k a) p w' Q) → wp (bind c k) p w Q.
Proof. unfold wp, bind. by destruct (c p w). Qed.

Lemma wp_bind_inv {A B} (c : M A) (k : A → M B) p w Q :
  wp (bind c k) p w Q → wp c p w (λ a w', wp (k a) p w' Q).
Proof. unfold wp, bind. by destruct (c p w). Qed.

Lemma wp_mono {A} (c : M A) p w (Q Q' : A → world → Prop) :
  wp c p w Q → (∀ a w', Q a w' → Q' a w') → wp c p w Q'.
Proof. unfold wp. destruct (c p w); eauto. Qed.

Lemma wp_Ok {A} (c : M A) p w Q : wp c p w Q ↔ ∃ a w', c p w = Ok a w' ∧ Q a w'.
Proof.
  unfold wp. split.
  - destruct (c p w); try done. eauto.
  - by intros (a & w' & -> & ?).
Qed.

Lemma wp_self p w (Q : Z → world → Prop) : Q p w → wp self p w Q.
Proof. done. Qed.

Lemma wp_load p w b o l n (Q : list memval → world → Prop) :
  mb w b o l → n = length l → Q l w → wp (load (Addr p b o) n) p w Q.
Proof.
  intros (k & Hk & Hin & Hrd) -> HQ. unfold wp, load.
  rewrite decide_True by done. rewrite Hk, decide_True by done. by rewrite Hrd.
Qed.

Lemma wp_store p w b o l (Q : unit → world → Prop) :
  valid w b o (length l) → Q tt (upd w b o l) → wp (store (Addr p b o) l) p w Q.
Proof.
  intros (k & Hk & Hin) HQ. unfold wp, store.
  rewrite decide_True by done. by rewrite Hk, decide_True by done.
Qed.

Lemma wp_lift {A} (o : option A) a p w (Q : A → world → Prop) :
  o = Some a → Q a w → wp (lift o) p w Q.
Proof. by intros ->. Qed.

Lemma wp_ld_u32 p w b o z (Q : Z → world → Prop) :
  mb w b o (enc_i32 z) → Q (u32 z) w → wp (ld_u32 (Addr p b o)) p w Q.
Proof.
  intros Hm HQ. apply wp_bind. eapply wp_load; [done|by autorewrite with len|].
  eapply wp_lift; [apply dec_enc_n|done].
Qed.

Lemma wp_ld_i32 p w b o z (Q : Z → world → Prop) :
  mb w b o (enc_i32 z) → Q (s32 z) w → wp (ld_i32 (Addr p b o)) p w Q.
Proof.
  intros Hm HQ. apply wp_bind. eapply wp_ld_u32; [done|]. apply wp_ret. by rewrite s32_u32.
Qed.

Lemma wp_ld_i64 p w b o z (Q : Z → world → Prop) :
  mb w b o (enc_i64 z) → is_s64 z → Q z w → wp (ld_i64 (Addr p b o)) p w Q.
Proof.
  intros Hm Hz HQ. apply wp_bind. eapply wp_load; [done|by autorewrite with len|].
  apply wp_bind. eapply wp_lift; [apply dec_enc_n|]. apply wp_ret.
  replace (s64 (z mod 256 ^ Z.of_nat 8)) with z; [done|].
  rewrite <- (s64_small z) at 1 by done. unfold s64.
  change (256 ^ Z.of_nat 8) with 18446744073709551616. by rewrite Z.mod_mod by lia.
Qed.

Lemma wp_ld_ptr p w b o v (Q : ptr → world → Prop) :
  mb w b o (enc_ptr v) → Q v w → wp (ld_ptr (Addr p b o)) p w Q.
Proof.
  intros Hm HQ. apply wp_bind. eapply wp_load; [done|by autorewrite with len|].
  eapply wp_lift; [apply dec_enc_ptr|done].
Qed.

Lemma wp_get_int p w b o f z (Q : Z → world → Prop) :
  mb w b (o + f_off f) (enc_i32 z) → Q (s32 z) w → wp (get_int (Addr p b o) f) p w Q.
Proof. apply wp_ld_i32. Qed.

Lemma wp_get_uint p w b o f z (Q : Z → world → Prop) :
  mb w b (o + f_off f) (enc_i32 z) → Q (u32 z) w → wp (get_uint (Addr p b o) f) p w Q.
Proof. apply wp_ld_u32. Qed.

Lemma wp_get_ptr p w b o f v (Q : ptr → world → Prop) :
  mb w b (o + f_off f) (enc_ptr v) → Q v w → wp (get_ptr (Addr p b o) f) p w Q.
Proof. apply wp_ld_ptr. Qed.

Lemma wp_set_int p w b o f z (Q : unit → world → Prop) :
  valid w b (o + f_off f) 4 → Q tt (upd w b (o + f_off f) (enc_i32 z)) →
  wp (set_int (Addr p b o) f z) p w Q.
Proof. intros H HQ. apply wp_store; [|done]. by autorewrite with len. Qed.

Lemma wp_set_ptr p w b o f v (Q : unit → world → Prop) :
  valid w b (o + f_off f) 8 → Q tt (upd w b (o + f_off f) (enc_ptr v)) →
  wp (set_ptr (Addr p b o) f v) p w Q.
Proof. intros H HQ. apply wp_store; [|done]. by autorewrite with len. Qed.

Lemma wp_set_fun p w b o f fn (Q : unit → world → Prop) :
  valid w b (o + f_off f) 8 → Q tt (upd w b (o + f_off f) (enc_ptr (Fun p fn))) →
  wp (set_fun (Addr p b o) f fn) p w Q.
Proof. intros H HQ. apply wp_bind, wp_self. by apply wp_set_ptr. Qed.

Lemma wp_copy_field p w bd od f bs os g l (Q : unit → world → Prop) :
  mb w bs (os + f_off g) l → Z.to_nat (f_len g) = length l →
  valid w bd (od + f_off f) (length l) →
  Q tt (upd w bd (od + f_off f) l) →
  wp (copy_field (Addr p bd od) f (Addr p bs os) g) p w Q.
Proof.
  intros Hm Hl Hv HQ. apply wp_bind. eapply wp_load; [done..|]. by apply wp_store.
Qed.

Lemma wp_malloc p w n (Q : ptr → world → Prop) :
  0 <= n < 140737488355328 →
  Q (Addr p (w_next w) 0) (add_block (Blk n Undef ∅) w) → wp (malloc n) p w Q.
Proof. intros H HQ. unfold wp, malloc. by rewrite decide_True by done. Qed.

Lemma wp_call_through {A} p w b o f fn (table : list (string * M A)) c Q :
  mb w b (o + f_off f) (enc_ptr (Fun p fn)) → alist_get fn table = Some c →
  wp c p w Q → wp (call_through (Addr p b o) f table) p w Q.
Proof.
  intros Hm Ht HQ. apply wp_bind. eapply wp_get_ptr; [done|]. cbn.
  apply wp_bind, wp_self. rewrite decide_True by done. by rewrite Ht.
Qed.

Lemma wp_memcpy p w bd od bs os n l (Q : ptr → world → Prop) :
  mb w bs os l → n = Z.of_nat (length l) → valid w bd od (length l) → bd ≠ bs →
  Q (Addr p bd od) (upd w bd od l) →
  wp (memcpy (Addr p bd od) (Addr p bs os) n) p w Q.
Proof.
  intros Hm -> Hv Hne HQ. unfold memcpy. destruct (Z.eqb_spec (Z.of_nat (length l)) 0) as [H0|H0].
  - destruct l; [|done]. by rewrite upd_nil in HQ.
  - destruct (Z.ltb_spec (Z.of_nat (length l)) 0) as [?|_]; [lia|].
    unfold overlap. rewrite bool_decide_eq_false_2 by (intros [? _]; congruence). rewrite Nat2Z.id.
    apply wp_bind. eapply wp_load; [done..|]. apply wp_bind. by apply wp_store.
Qed.

Lemma wp_for_up (I : Z → world → Prop) n lo body p w (Q : unit → world → Prop) :
  I lo w →
  (∀ i w', lo <= i < lo + Z.of_nat n → I i w' → wp (body i) p w' (λ _ w'', I (i + 1) w'')) →
  (∀ w', I (lo + Z.of_nat n) w' → Q tt w') →
  wp (for_up n lo body) p w Q.
Proof.
  revert lo w. induction n as [|n IH]; intros lo w HI Hb HQ.
  - apply wp_ret, HQ. by rewrite Z.add_0_r.
  - apply wp_bind. eapply wp_mono; [apply Hb; [lia|done]|]. intros u w' HI'.
    apply IH; [done| |].
    + intros i w'' Hi. apply Hb. lia.
    + intros w''. replace (lo + 1 + Z.of_nat n) with (lo + Z.of_nat (S n)) by lia. apply HQ.
Qed.

Lemma wp_for_range (I : Z → world → Prop) lo hi body p w (Q : unit → world → Prop) :
  lo <= hi → I lo w →
  (∀ i w', lo <= i < hi → I i w' → wp (body i) p w' (λ _ w'', I (i + 1) w'')) →
  (∀ w', I hi w' → Q tt w') →
  wp (for_range lo hi body) p w Q.
Proof.
  intros Hle HI Hb HQ. apply (wp_for_up I); [done| |].
  - intros i w' Hi. apply Hb. lia.
  - intros w'. rewrite Z2Nat.id by lia.
    replace (lo + (hi - lo)) with hi by lia. apply HQ.
Qed.

(** The element-by-element copy loop writes the source bytes in one go. *)
Lemma wp_copy_array p w bd od bs os sz n l (Q : unit → world → Prop) :
  0 < sz → 0 <= n → mb w bs os l → Z.of_nat (length l) = sz * n →
  valid w bd od (length l) → bd ≠ bs → Q tt (upd w bd od l) →
  wp (copy_array sz (Addr p bd od) (Addr p bs os) n) p w Q.
Proof.
  intros Hsz Hn Hm Hl Hv Hne HQ. unfold copy_array.
  apply (wp_for_range (λ i w', w' = upd w bd od (take (Z.to_nat (sz * i)) l))).
  - done.
  - rewrite Z.mul_0_r. cbn. by rewrite upd_nil.
  - intros i w' Hi ->. cbn [padd].
    assert (sz * i + sz <= Z.of_nat (length l)) by nia.
    assert (l = take (Z.to_nat (sz * i)) l ++
      take (Z.to_nat sz) (drop (Z.to_nat (sz * i)) l) ++
      drop (Z.to_nat sz) (drop (Z.to_nat (sz * i)) l)) as Hsplit.
    { by rewrite (take_drop (Z.to_nat sz)), take_drop. }
    set (l1 := take (Z.to_nat (sz * i)) l) in *.
    set (l2 := take (Z.to_nat sz) (drop (Z.to_nat (sz * i)) l)) in *.
    assert (length l1 = Z.to_nat (sz * i)) as Hl1.
    { unfold l1. rewrite length_take. nia. }
    assert (length l2 = Z.to_nat sz) as Hl2.
    { unfold l2. rewrite length_take, length_drop. nia. }
    apply wp_bind. eapply wp_load with (l := l2).
    + apply mb_upd_block; [done|]. rewrite Hsplit in Hm.
      rewrite !mb_app in Hm. destruct Hm as (_ & Hm & _).
      rewrite Hl1 in Hm. by replace (os + sz * i) with (os + Z.of_nat (Z.to_nat (sz * i))) by nia.
    + done.
    + apply wp_store.
      { apply valid_upd. eapply valid_le; [exact Hv|nia|]. rewrite Hl2. nia. }
      replace (take (Z.to_nat (sz * (i + 1))) l) with (l1 ++ l2).
      { rewrite upd_app, Hl1. f_equal. nia. }
      replace (Z.to_nat (sz * (i + 1))) with (Z.to_nat (sz * i) + Z.to_nat sz)%nat by nia.
      unfold l1, l2. by rewrite take_take_drop.
  - intros w' ->. replace (Z.to_nat (sz * n)) with (length l) by nia.
    by rewrite firstn_all.
Qed.

(** ** Mutexes *)

Lemma accessible_valid p w b o n : valid w b o n → accessible p w (Addr p b o) n = true.
Proof. intros (k & Hk & ?). cbn. rewrite Hk. by apply bool_decide_eq_true_2. Qed.

Lemma wp_mutex_lock p w b o (Q : unit → world → Prop) :
  valid w b o 1 → (b, o) ∉ w_locks w →
  Q tt (set_locks (λ l, {[(b, o)]} ∪ l) w) → wp (mutex_lock (Addr p b o)) p w Q.
Proof.
  intros Hv Hl HQ. unfold wp, mutex_lock. rewrite accessible_valid by done. cbn.
  by rewrite decide_False by done.
Qed.

Lemma wp_mutex_unlock p w b o (Q : unit → world → Prop) :
  valid w b o 1 → Q tt (set_locks (λ l, l ∖ {[(b, o)]}) w) →
  wp (mutex_unlock (Addr p b o)) p w Q.
Proof. intros Hv HQ. unfold wp, mutex_unlock. by rewrite accessible_valid by done. Qed.

(** ** Strings *)

Definition char_ok (v : memval) : Prop :=
  match v with Byte b => b ≠ 0 | _ => False end.

#[export] Instance char_ok_dec v : Decision (char_ok v).
Proof. unfold char_ok. case_match; apply _. Defined.

Lemma scan_ok n k o l :
  Forall char_ok l → rd k o (length (l ++ [Byte 0])) = l ++ [Byte 0] →
  (length l < n)%nat → scan n k o = Some l.
Proof.
  revert n o. induction l as [|v l IH]; intros n o Hc Hrd Hn; destruct n as [|n]; try (cbn in Hn; lia).
  - cbn in *. injection Hrd as ->. done.
  - cbn [app length rd] in Hrd. injection Hrd as Hv Hrd. cbn [scan]. rewrite Hv.
    apply Forall_cons in Hc as [Hv' Hc]. destruct v as [|z|]; try done. cbn in Hv'.
    rewrite (IH n) by (done || cbn in Hn; lia). destruct z; done.
Qed.

Lemma wp_load_str p w b o l (Q : list memval → world → Prop) :
  mb w b o (l ++ [Byte 0]) → Forall char_ok l → Q l w →
  wp (load_str (Addr p b o)) p w Q.
Proof.
  intros (k & Hk & Hin & Hrd) Hc HQ. unfold wp, load_str.
  rewrite decide_True by done. rewrite Hk. destruct Hin as [H0 Hin].
  rewrite decide_True by done. rewrite length_app in Hin. cbn in Hin.
  rewrite (scan_ok _ _ _ l); [done..|lia].
Qed.

Lemma wp_strcpy p w bd od bs os l (Q : unit → world → Prop) :
  mb w bs os (l ++ [Byte 0]) → Forall char_ok l → valid w bd od (S (length l)) →
  Q tt (upd w bd od (l ++ [Byte 0])) →
  wp (strcpy (Addr p bd od) (Addr p bs os)) p w Q.
Proof.
  intros Hm Hc Hv HQ. apply wp_bind. eapply wp_load_str; [done..|].
  apply wp_store; [|done]. rewrite length_app. cbn. by rewrite Nat.add_1_r.
Qed.

(** ** Arrays

    [array_at w p d l]: the pointer [d] of process [p] points to the bytes [l];
    nothing is asked of a pointer to an empty array. *)

Definition array_at (w : world) (p : Z) (d : ptr) (l : list memval) : Prop :=
  l = [] ∨ ∃ bd od, d = Addr p bd od ∧ mb w bd od l.

Definition ptr_block (d : ptr) : option Z :=
  match d with Addr _ b _ => Some b | _ => None end.

(** The array [l] at [d] is not in block [b]. *)
Definition arr_sep (d : ptr) (l : list memval) (b : Z) : Prop :=
  l = [] ∨ ptr_block d ≠ Some b.

Lemma array_at_upd w p d l b o l' :
  arr_sep d l b → array_at w p d l → array_at (upd w b o l') p d l.
Proof.
  intros Hs [->|(bd & od & -> & Hm)]; [by left|].
  destruct Hs as [->|Hne]; [by left|right]. exists bd, od. split; [done|].
  apply mb_upd_block; [cbn in Hne; congruence|done].
Qed.

Lemma arr_sep_fresh w p d l b :
  wok w → array_at w p d l → w_next w <= b → arr_sep d l b.
Proof.
  intros Hok [->|(bd & od & -> & Hm)] Hb; [by left|right]. cbn. intros [= ->].
  apply mb_fresh in Hm; [lia|done].
Qed.

Lemma add_block_next k w : w_next (add_block k w) = w_next w + 1.
Proof. done. Qed.

Lemma array_at_add_block w p d l k :
  arr_sep d l (w_next w) → array_at w p d l → array_at (add_block k w) p d l.
Proof.
  intros Hs [->|(bd & od & -> & Hm)]; [by left|].
  destruct Hs as [->|Hne]; [by left|right]. exists bd, od. split; [done|].
  apply mb_add_block; [cbn in Hne; congruence|done].
Qed.

Lemma array_at_extF F w w' p d l :
  ext F w w' → (l = [] ∨ ∀ b i, ptr_block d = Some b → ¬ F b i) →
  array_at w p d l → array_at w' p d l.
Proof.
  intros He HF [->|(bd & od & -> & Hm)]; [by left|].
  destruct HF as [->|HF]; [by left|right]. exists bd, od. split; [done|].
  eapply mb_extF; [done| |done]. intros i _. by apply HF.
Qed.

Lemma add_block_valid_eq w k b o n :
  b = w_next w → in_block k o n → valid (add_block k w) b o n.
Proof. intros ->. apply add_block_valid. Qed.

Lemma wp_memcpy_array p w bd od d n l (Q : ptr → world → Prop) :
  array_at w p d l → n = Z.of_nat (length l) → valid w bd od (length l) →
  arr_sep d l bd → Q (Addr p bd od) (upd w bd od l) →
  wp (memcpy (Addr p bd od) d n) p w Q.
Proof.
  intros Ha -> Hv Hs HQ. destruct (decide (l = [])) as [->|Hl].
  - unfold memcpy. cbn. apply wp_ret. by rewrite upd_nil in HQ.
  - destruct Ha as [?|(bs & os & -> & Hm)]; [done|]. destruct Hs as [?|Hne]; [done|].
    eapply wp_memcpy; try done. cbn in Hne. congruence.
Qed.

Lemma wp_copy_array_at p w bd od d sz n l (Q : unit → world → Prop) :
  0 < sz → 0 <= n → array_at w p d l → Z.of_nat (length l) = sz * n →
  valid w bd od (length l) → arr_sep d l bd → Q tt (upd w bd od l) →
  wp (copy_array sz (Addr p bd od) d n) p w Q.
Proof.
  intros Hsz Hn Ha Hl Hv Hs HQ. destruct (decide (l = [])) as [->|Hne].
  - cbn in Hl. assert (n = 0) as -> by nia. unfold copy_array, for_range. cbn.
    apply wp_ret. by rewrite upd_nil in HQ.
  - destruct Ha as [?|(bs & os & -> & Hm)]; [done|]. destruct Hs as [?|Hd]; [done|].
    eapply wp_copy_array; try done. cbn in Hd. congruence.
Qed.

(** ** Freed blocks *)

Lemma ext_free F w w' nb :
  w_next w <= nb → wok w → ext F w w' → ext F w (set_blocks (delete nb) w').
Proof.
  intros Hnb Hok (Hf & He & Hn & Ho). split_and!; [|done|done|].
  - intros b k Hk. destruct (Hf b k Hk) as (k' & Hk' & ?). exists k'. split; [|done].
    cbn. rewrite lookup_delete_ne; [done|]. intros ->. rewrite Hok in Hk by lia. done.
  - intros _ b Hb. cbn in *. rewrite lookup_delete. case_match; [done|]. by apply Ho.
Qed.

Lemma mb_free w b o l nb : b ≠ nb → mb w b o l → mb (set_blocks (delete nb) w) b o l.
Proof. intros Hne. apply mb_ext. intros k Hk. exists k. cbn. by rewrite lookup_delete_ne. Qed.

Lemma valid_free w b o n nb : b ≠ nb → valid w b o n → valid (set_blocks (delete nb) w) b o n.
Proof. intros Hne (k & Hk & ?). exists k. cbn. by rewrite lookup_delete_ne. Qed.

Lemma mb_block w b o l : mb w b o l → ∃ k, w_blocks w !! b = Some k.
Proof. intros (k & Hk & _). by exists k. Qed.

Lemma valid_block w b o n : valid w b o n → ∃ k, w_blocks w !! b = Some k.
Proof. intros (k & Hk & _). by exists k. Qed.

Lemma wp_free p w b k (Q : unit → world → Prop) :
  w_blocks w !! b = Some k → Q tt (set_blocks (delete b) w) → wp (free (Addr p b 0)) p w Q.
Proof. intros Hk HQ. unfold wp, free. rewrite decide_True by done. by rewrite Hk. Qed.

(** ** Automation *)

(** Evaluate the offsets of struct members, then do arithmetic. *)
Ltac off :=
  autounfold with fields; cbn [f_off f_len bsize length app]; autorewrite with len;
  cbn [length]; try lia.

Ltac nxt := repeat (progress rewrite ?upd_next, ?add_block_next).
Ltac diff := solve [congruence | nxt; lia].

Ltac sep :=
  solve [ eassumption
        | eapply arr_sep_fresh; [eassumption | eassumption | nxt; lia]
        | right; cbn; congruence | right; cbn; let H := fresh in intros [= H]; lia
        | left; reflexivity ].

Ltac find_array :=
  repeat first
    [ eassumption
    | apply array_at_upd; [sep |]
    | apply array_at_add_block; [sep |] ].

(** Prove an access in bounds: the block is the one of some known access. *)
Ltac find_valid :=
  repeat first
    [ apply valid_upd
    | apply valid_add_block; [diff |]
    | apply add_block_valid_eq; [nxt; lia | split; solve [off]] ];
  try match goal with
    | H : valid ?w ?b _ _ |- valid ?w ?b _ _ =>
        solve [refine (valid_le _ _ _ _ _ _ H _ _); off]
    end.

(** Find the bytes at an address: what was written there last, or go back
    through the updates elsewhere. *)
Ltac find_mb :=
  repeat first
    [ eassumption
    | match goal with
      | |- mb (upd _ ?b ?o ?l) ?b' ?o' _ =>
          constr_eq b b'; constr_eq o o'; apply mb_upd_same; solve [find_valid]
      end
    | apply mb_upd_block; [diff |]
    | apply mb_add_block; [diff |]
    | apply mb_upd_disj; [solve [off] |] ].

Ltac small := repeat rewrite s32_small by (unfold is_s32 in *; off).

Ltac wp1 :=
  lazymatch goal with
  | |- wp (bind _ _) _ _ _ => apply wp_bind
  | |- wp (ret _) _ _ _ => apply wp_ret
  | |- wp self _ _ _ => apply wp_self
  | |- wp (copy_field _ _ _ _) _ _ _ =>
      eapply wp_copy_field; [find_mb | solve [off] | solve [find_valid] |]
  | |- wp (get_int _ _) _ _ _ => eapply wp_get_int; [find_mb |]; small
  | |- wp (get_uint _ _) _ _ _ => eapply wp_get_uint; [find_mb |]
  | |- wp (get_ptr _ _) _ _ _ => eapply wp_get_ptr; [find_mb |]
  | |- wp (set_int _ _ _) _ _ _ => eapply wp_set_int; [solve [find_valid] |]
  | |- wp (set_ptr _ _ _) _ _ _ => eapply wp_set_ptr; [solve [find_valid] |]
  | |- wp (set_fun _ _ _) _ _ _ => eapply wp_set_fun; [solve [find_valid] |]
  | |- wp (memcpy _ _ _) _ _ _ =>
      eapply wp_memcpy_array; [find_array | solve [off] | solve [find_valid] | sep |]
  | |- wp (copy_array _ _ _ _) _ _ _ =>
      eapply wp_copy_array_at;
        [lia | solve [off] | find_array | solve [off] | solve [find_valid] | sep |]
  | |- wp (strcpy (addr_of (Addr ?p ?b ?o) ?f) (addr_of (Addr _ ?b' ?o') ?f')) _ _ _ =>
      eapply (wp_strcpy _ _ b (o + f_off f) b' (o' + f_off f'));
        [find_mb | eassumption | solve [find_valid] |]
  | |- wp (malloc _) _ _ _ => apply wp_malloc; [solve [off] |]; nxt
  | |- wp (if decide (Addr _ _ _ = Null) then _ else _) _ _ _ =>
      rewrite decide_False by discriminate
  | |- wp ((λ _, _) _) _ _ _ => cbv beta
  end.

(** Bytes of the final state. *)
Ltac final_mb :=
  repeat first
    [ apply mb_upd_same; solve [find_valid]
    | apply mb_upd_block; [diff |]
    | apply mb_add_block; [diff |]
    | apply mb_upd_disj; [solve [off] |] ];
  try eassumption; try (apply mb_nil; solve [find_valid]).

(** Only bytes of the footprint were written. *)
Ltac in_range :=
  let Hi := fresh in
  unfold range; intros ? ? ? Hi; autounfold with fields in Hi;
  cbn [f_off f_len length app] in Hi; autorewrite with len in Hi; cbn [length] in Hi;
  try (split; [done|off]).

(** The block written was not there at the start. *)
Ltac new_block :=
  let Hk := fresh in
  match goal with
  | Hok : wok ?w |- ∀ k i, w_blocks ?w !! ?b = Some k → _ =>
      intros ? ? Hk; rewrite (Hok b) in Hk by lia; discriminate
  end.

Ltac final_ext :=
  repeat first
    [ apply ext_refl
    | apply ext_upd; [solve [in_range | new_block] |]
    | apply ext_add_block; [eassumption |] ].

(** ** Output, and new blocks *)

Lemma wp_printf fmt args p w (Q : unit → world → Prop) : Q tt (add_out (fmt, args) w) → wp (printf fmt args) p w Q.
Proof. done. Qed.

(** Bytes that were never written. *)
Lemma mb_undef w n o k :
  0 <= o → o + Z.of_nat k <= n → mb (add_block (Blk n Undef ∅) w) (w_next w) o (replicate k Undef).
Proof.
  intros Ho Hn. exists (Blk n Undef ∅). rewrite length_replicate. split; [cbn; apply lookup_insert_eq|].
  split; [done|]. clear. revert o. induction k as [|k IH]; intros o; [done|]. cbn [rd replicate bdata bfill].
  by rewrite lookup_empty, IH.
Qed.

Lemma length_chars s : length (chars s) = String.length s.
Proof. induction s as [|a s IH]; [done|]. cbn [chars length String.length]. by rewrite IH. Qed.

(** A string literal is a new block. *)
Lemma str_lit_wp s p w (Q : ptr → world → Prop) :
  wok w → Z.of_nat (String.length s) < 1000 →
  (∀ w', ext nowhere w w' → mb w' (w_next w) 0 (chars s ++ [Byte 0]) → w_next w < w_next w' → Q (Addr p (w_next w) 0) w') →
  wp (str_lit s) p w Q.
Proof.
  intros Hok Hs HQ. unfold str_lit. apply wp_bind, wp_malloc; [lia|]. apply wp_bind.
  assert (length (chars s ++ [Byte 0]) = S (String.length s)) as Hl by (rewrite length_app, length_chars; cbn; lia).
  assert (valid (add_block (Blk (Z.of_nat (String.length s) + 1) Undef ∅) w) (w_next w) 0 (length (chars s ++ [Byte 0]))) as Hv.
  { apply add_block_valid_eq; [done|]. rewrite Hl. split; cbn; lia. }
  apply wp_store; [exact Hv|]. apply wp_ret, HQ.
  - apply ext_upd; [new_block|]. apply ext_add_block; [done|apply ext_refl].
  - by apply mb_upd_same.
  - nxt. lia.
Qed.
