(* ===== verification/Messages.v ===== *)
(** * Message objects

    The nine message classes of [include/TaskSystem/Messages] and
    [src/Messages]: the struct of each one, its constructor, the [rebind] that
    makes a message found in shared memory usable, and its methods.  An object
    is a struct in memory whose first members are those of [struct Message];
    a virtual call goes through the function pointer stored in the object. *)

From S2P Require Import Prelude CMem.
From stdpp Require Import base numbers list strings gmap.
#[local] Open Scope Z_scope.
#[local] Open Scope ts_scope.

(** ** struct Message *)

Definition Message_struct : struct_decl :=
  [("tag", CInt); ("tid", CInt); ("msg_size", CInt);
   ("getTag", CPtr); ("clone", CPtr); ("destroy", CPtr); ("writeAt", CPtr)]%string.

Definition Message_tag := Eval vm_compute in member Message_struct "tag".
Definition Message_tid := Eval vm_compute in member Message_struct "tid".
Definition Message_msg_size := Eval vm_compute in member Message_struct "msg_size".
Definition Message_getTag := Eval vm_compute in member Message_struct "getTag".
Definition Message_clone := Eval vm_compute in member Message_struct "clone".
Definition Message_destroy := Eval vm_compute in member Message_struct "destroy".
Definition Message_writeAt := Eval vm_compute in member Message_struct "writeAt".

(** ** BarMsg *)

Definition BarMsg_struct : struct_decl :=
  Message_struct ++
   [("value", CInt); ("getValue", CPtr); ("setValue", CPtr)]%string.

Definition sizeof_BarMsg := Eval vm_compute in struct_size BarMsg_struct.
Definition BarMsg_value := Eval vm_compute in member BarMsg_struct "value".
Definition BarMsg_getValue_f := Eval vm_compute in member BarMsg_struct "getValue".
Definition BarMsg_setValue_f := Eval vm_compute in member BarMsg_struct "setValue".

Definition BAR_MSG_ID : Z := 1.

Definition BarMsg_create (tag : Z) : M ptr :=
  newRec <- malloc sizeof_BarMsg;;
  if decide (newRec = Null) then FatalError else (
  set_int newRec Message_tag tag;;;
  set_int newRec Message_tid BAR_MSG_ID;;;
  set_int newRec Message_msg_size sizeof_BarMsg;;;
  set_fun newRec Message_getTag "BarMsg.getTag";;;
  set_fun newRec Message_clone "BarMsg.clone";;;
  set_fun newRec Message_destroy "BarMsg.destroy";;;
  set_fun newRec Message_writeAt "BarMsg.writeAt";;;
  set_fun newRec BarMsg_getValue_f "BarMsg.getValue";;;
  set_fun newRec BarMsg_setValue_f "BarMsg.setValue";;;
  ret newRec).

Definition BarMsg_rebind (msg : ptr) : M unit :=
  let rebind_msg := msg in
  set_fun rebind_msg Message_getTag "BarMsg.getTag";;;
  set_fun rebind_msg Message_clone "BarMsg.clone";;;
  set_fun rebind_msg Message_destroy "BarMsg.destroy";;;
  set_fun rebind_msg Message_writeAt "BarMsg.writeAt";;;
  set_fun rebind_msg BarMsg_getValue_f "BarMsg.getValue";;;
  set_fun rebind_msg BarMsg_setValue_f "BarMsg.setValue".

Definition BarMsg_getTag (this : ptr) : M Z := get_int this Message_tag.

Definition BarMsg_clone (this : ptr) : M ptr :=
  tmp <- BarMsg_create 0;;
  copy_field tmp Message_tag this Message_tag;;;
  copy_field tmp Message_tid this Message_tid;;;
  copy_field tmp Message_msg_size this Message_msg_size;;;
  copy_field tmp BarMsg_value this BarMsg_value;;;
  ret tmp.

Definition BarMsg_destroy (this : ptr) : M unit := free this.

Definition BarMsg_writeAt (this addr : ptr) : M Z :=
  let tmp := addr in
  copy_field tmp Message_tag this Message_tag;;;
  copy_field tmp Message_tid this Message_tid;;;
  copy_field tmp Message_msg_size this Message_msg_size;;;
  copy_field tmp BarMsg_value this BarMsg_value;;;
  get_int this Message_msg_size.

Definition BarMsg_getValue (this : ptr) : M Z := get_int this BarMsg_value.

Definition BarMsg_setValue (this : ptr) (value : Z) : M unit :=
  set_int this BarMsg_value value.

(** ** TextMsg *)

Definition TextMsg_struct : struct_decl :=
  Message_struct ++
   [("msg", CArr CChar 100); ("getMsg", CPtr); ("setMsg", CPtr)]%string.

Definition sizeof_TextMsg := Eval vm_compute in struct_size TextMsg_struct.
Definition TextMsg_msg := Eval vm_compute in member TextMsg_struct "msg".
Definition TextMsg_getMsg_f := Eval vm_compute in member TextMsg_struct "getMsg".
Definition TextMsg_setMsg_f := Eval vm_compute in member TextMsg_struct "setMsg".

Definition TEXT_MSG_ID : Z := 2.

Definition TextMsg_create (tag : Z) : M ptr :=
  newRec <- malloc sizeof_TextMsg;;
  if decide (newRec = Null) then FatalError else (
  set_int newRec Message_tag tag;;;
  set_int newRec Message_tid TEXT_MSG_ID;;;
  set_int newRec Message_msg_size sizeof_TextMsg;;;
  set_fun newRec Message_getTag "TextMsg.getTag";;;
  set_fun newRec Message_clone "TextMsg.clone";;;
  set_fun newRec Message_destroy "TextMsg.destroy";;;
  set_fun newRec Message_writeAt "TextMsg.writeAt";;;
  set_fun newRec TextMsg_getMsg_f "TextMsg.getMsg";;;
  set_fun newRec TextMsg_setMsg_f "TextMsg.setMsg";;;
  ret newRec).

Definition TextMsg_rebind (msg : ptr) : M unit :=
  let rebind_msg := msg in
  set_fun rebind_msg Message_getTag "TextMsg.getTag";;;
  set_fun rebind_msg Message_clone "TextMsg.clone";;;
  set_fun rebind_msg Message_destroy "TextMsg.destroy";;;
  set_fun rebind_msg Message_writeAt "TextMsg.writeAt";;;
  set_fun rebind_msg TextMsg_getMsg_f "TextMsg.getMsg";;;
  set_fun rebind_msg TextMsg_setMsg_f "TextMsg.setMsg".

Definition TextMsg_getTag (this : ptr) : M Z := get_int this Message_tag.

Definition TextMsg_clone (this : ptr) : M ptr :=
  tmp <- TextMsg_create 0;;
  copy_field tmp Message_tag this Message_tag;;;
  copy_field tmp Message_tid this Message_tid;;;
  copy_field tmp Message_msg_size this Message_msg_size;;;
  strcpy (addr_of tmp TextMsg_msg) (addr_of this TextMsg_msg);;;
  ret tmp.

Definition TextMsg_destroy (this : ptr) : M unit := free this.

Definition TextMsg_writeAt (this addr : ptr) : M Z :=
  let tmp := addr in
  copy_field tmp Message_tag this Message_tag;;;
  copy_field tmp Message_tid this Message_tid;;;
  copy_field tmp Message_msg_size this Message_msg_size;;;
  strcpy (addr_of tmp TextMsg_msg) (addr_of this TextMsg_msg);;;
  ret sizeof_TextMsg.

Definition TextMsg_getMsg (this : ptr) : M ptr := ret (addr_of this TextMsg_msg).

Definition TextMsg_setMsg (this msg : ptr) : M unit :=
  strcpy (addr_of this TextMsg_msg) msg.

(** ** RefIntArrayMsg *)

Definition RefIntArrayMsg_struct : struct_decl :=
  Message_struct ++
   [("size", CInt); ("values", CPtr); ("setValues", CPtr); ("getSize", CPtr); ("getValue", CPtr)]%string.

Definition sizeof_RefIntArrayMsg := Eval vm_compute in struct_size RefIntArrayMsg_struct.
Definition RefIntArrayMsg_size := Eval vm_compute in member RefIntArrayMsg_struct "size".
Definition RefIntArrayMsg_values := Eval vm_compute in member RefIntArrayMsg_struct "values".
Definition RefIntArrayMsg_setValues_f := Eval vm_compute in member RefIntArrayMsg_struct "setValues".
Definition RefIntArrayMsg_getSize_f := Eval vm_compute in member RefIntArrayMsg_struct "getSize".
Definition RefIntArrayMsg_getValue_f := Eval vm_compute in member RefIntArrayMsg_struct "getValue".

Definition REFINTARRAY_MSG_ID : Z := 3.

Definition RefIntArrayMsg_create (tag : Z) : M ptr :=
  newRec <- malloc sizeof_RefIntArrayMsg;;
  if decide (newRec = Null) then FatalError else (
  set_int newRec Message_tag tag;;;
  set_int newRec Message_tid REFINTARRAY_MSG_ID;;;
  set_int newRec Message_msg_size sizeof_RefIntArrayMsg;;;
  set_fun newRec Message_getTag "RefIntArrayMsg.getTag";;;
  set_fun newRec Message_clone "RefIntArrayMsg.clone";;;
  set_fun newRec Message_destroy "RefIntArrayMsg.destroy";;;
  set_fun newRec Message_writeAt "RefIntArrayMsg.writeAt";;;
  set_fun newRec RefIntArrayMsg_setValues_f "RefIntArrayMsg.setValues";;;
  set_fun newRec RefIntArrayMsg_getSize_f "RefIntArrayMsg.getSize";;;
  set_fun newRec RefIntArrayMsg_getValue_f "RefIntArrayMsg.getValue";;;
  ret newRec).

Definition RefIntArrayMsg_rebind (msg : ptr) : M unit :=
  let rebind_msg := msg in
  set_fun rebind_msg Message_getTag "RefIntArrayMsg.getTag";;;
  set_fun rebind_msg Message_clone "RefIntArrayMsg.clone";;;
  set_fun rebind_msg Message_destroy "RefIntArrayMsg.destroy";;;
  set_fun rebind_msg Message_writeAt "RefIntArrayMsg.writeAt";;;
  set_fun rebind_msg RefIntArrayMsg_setValues_f "RefIntArrayMsg.setValues";;;
  set_fun rebind_msg RefIntArrayMsg_getSize_f "RefIntArrayMsg.getSize";;;
  set_fun rebind_msg RefIntArrayMsg_getValue_f "RefIntArrayMsg.getValue".

Definition RefIntArrayMsg_getTag (this : ptr) : M Z := get_int this Message_tag.

Definition RefIntArrayMsg_clone (this : ptr) : M ptr :=
  tag <- get_int this Message_tag;;
  tmp <- RefIntArrayMsg_create tag;;
  copy_field tmp Message_tag this Message_tag;;;
  copy_field tmp Message_tid this Message_tid;;;
  copy_field tmp Message_msg_size this Message_msg_size;;;
  copy_field tmp RefIntArrayMsg_size this RefIntArrayMsg_size;;;
  copy_field tmp RefIntArrayMsg_values this RefIntArrayMsg_values;;;
  ret tmp.

Definition RefIntArrayMsg_destroy (this : ptr) : M unit := free this.

Definition RefIntArrayMsg_writeAt (this addr : ptr) : M Z :=
  let tmp := addr in
  copy_field tmp Message_tag this Message_tag;;;
  copy_field tmp Message_tid this Message_tid;;;
  copy_field tmp Message_msg_size this Message_msg_size;;;
  copy_field tmp RefIntArrayMsg_size this RefIntArrayMsg_size;;;
  copy_field tmp RefIntArrayMsg_values this RefIntArrayMsg_values;;;
  get_int this Message_msg_size.

Definition RefIntArrayMsg_setValues (this : ptr) (count : Z) (pointer_to_values : ptr) : M unit :=
  set_int this RefIntArrayMsg_size count;;;
  set_ptr this RefIntArrayMsg_values pointer_to_values.

Definition RefIntArrayMsg_getSize (this : ptr) : M Z := get_int this RefIntArrayMsg_size.

Definition RefIntArrayMsg_getValue (this : ptr) (index : Z) : M Z :=
  values <- get_ptr this RefIntArrayMsg_values;;
  ld_i32 (idx_i32 values index).

(** ** TopologyMsg *)

Definition TopologyMsg_struct : struct_decl :=
  Message_struct ++
   [("bucket_count", CInt); ("root_id", CInt); ("sample_size", CInt); ("data_size", CInt); ("bucket_ids", CPtr); ("setBucketIds", CPtr); ("getBucketId", CPtr); ("setRootId", CPtr); ("getRootId", CPtr)]%string.

Definition sizeof_TopologyMsg := Eval vm_compute in struct_size TopologyMsg_struct.
Definition TopologyMsg_bucket_count := Eval vm_compute in member TopologyMsg_struct "bucket_count".
Definition TopologyMsg_root_id := Eval vm_compute in member TopologyMsg_struct "root_id".
Definition TopologyMsg_sample_size := Eval vm_compute in member TopologyMsg_struct "sample_size".
Definition TopologyMsg_data_size := Eval vm_compute in member TopologyMsg_struct "data_size".
Definition TopologyMsg_bucket_ids := Eval vm_compute in member TopologyMsg_struct "bucket_ids".
Definition TopologyMsg_setBucketIds_f := Eval vm_compute in member TopologyMsg_struct "setBucketIds".
Definition TopologyMsg_getBucketId_f := Eval vm_compute in member TopologyMsg_struct "getBucketId".
Definition TopologyMsg_setRootId_f := Eval vm_compute in member TopologyMsg_struct "setRootId".
Definition TopologyMsg_getRootId_f := Eval vm_compute in member TopologyMsg_struct "getRootId".

Definition TOPOLOGY_MSG_ID : Z := 4.

Definition TopologyMsg_create (tag : Z) : M ptr :=
  newRec <- malloc sizeof_TopologyMsg;;
  if decide (newRec = Null) then FatalError else (
  set_int newRec Message_tag tag;;;
  set_int newRec Message_tid TOPOLOGY_MSG_ID;;;
  set_int newRec Message_msg_size sizeof_TopologyMsg;;;
  set_fun newRec Message_getTag "TopologyMsg.getTag";;;
  set_fun newRec Message_clone "TopologyMsg.clone";;;
  set_fun newRec Message_destroy "TopologyMsg.destroy";;;
  set_fun newRec Message_writeAt "TopologyMsg.writeAt";;;
  set_fun newRec TopologyMsg_setBucketIds_f "TopologyMsg.setBucketIds";;;
  set_fun newRec TopologyMsg_getBucketId_f "TopologyMsg.getBucketId";;;
  set_fun newRec TopologyMsg_setRootId_f "TopologyMsg.setRootId";;;
  set_fun newRec TopologyMsg_getRootId_f "TopologyMsg.getRootId";;;
  ret newRec).

Definition TopologyMsg_rebind (msg : ptr) : M unit :=
  let rebind_msg := msg in
  set_fun rebind_msg Message_getTag "TopologyMsg.getTag";;;
  set_fun rebind_msg Message_clone "TopologyMsg.clone";;;
  set_fun rebind_msg Message_destroy "TopologyMsg.destroy";;;
  set_fun rebind_msg Message_writeAt "TopologyMsg.writeAt";;;
  set_fun rebind_msg TopologyMsg_setBucketIds_f "TopologyMsg.setBucketIds";;;
  set_fun rebind_msg TopologyMsg_getBucketId_f "TopologyMsg.getBucketId";;;
  set_fun rebind_msg TopologyMsg_setRootId_f "TopologyMsg.setRootId";;;
  set_fun rebind_msg TopologyMsg_getRootId_f "TopologyMsg.getRootId";;;
  set_ptr rebind_msg TopologyMsg_bucket_ids (padd msg sizeof_TopologyMsg).

Definition TopologyMsg_getTag (this : ptr) : M Z := get_int this Message_tag.

Definition TopologyMsg_clone (this : ptr) : M ptr :=
  tag <- get_int this Message_tag;;
  tmp <- TopologyMsg_create tag;;
  copy_field tmp Message_tag this Message_tag;;;
  copy_field tmp Message_tid this Message_tid;;;
  copy_field tmp Message_msg_size this Message_msg_size;;;
  copy_field tmp TopologyMsg_bucket_count this TopologyMsg_bucket_count;;;
  copy_field tmp TopologyMsg_root_id this TopologyMsg_root_id;;;
  copy_field tmp TopologyMsg_sample_size this TopologyMsg_sample_size;;;
  copy_field tmp TopologyMsg_data_size this TopologyMsg_data_size;;;
  bucket_count <- get_int this TopologyMsg_bucket_count;;
  ids <- malloc (bucket_count * 4);;
  set_ptr tmp TopologyMsg_bucket_ids ids;;;
  src <- get_ptr this TopologyMsg_bucket_ids;;
  copy_array 4 ids src bucket_count;;;
  ret tmp.

Definition TopologyMsg_destroy (this : ptr) : M unit :=
  ids <- get_ptr this TopologyMsg_bucket_ids;;
  free ids;;;
  free this.

(** The size of the array is added to [this->msg_size], after the old value
    was written. *)
Definition TopologyMsg_writeAt (this addr : ptr) : M Z :=
  let tmp := addr in
  copy_field tmp Message_tag this Message_tag;;;
  copy_field tmp Message_tid this Message_tid;;;
  copy_field tmp Message_msg_size this Message_msg_size;;;
  copy_field tmp TopologyMsg_bucket_count this TopologyMsg_bucket_count;;;
  copy_field tmp TopologyMsg_root_id this TopologyMsg_root_id;;;
  copy_field tmp TopologyMsg_sample_size this TopologyMsg_sample_size;;;
  copy_field tmp TopologyMsg_data_size this TopologyMsg_data_size;;;
  ids <- get_ptr this TopologyMsg_bucket_ids;;
  bucket_count <- get_int this TopologyMsg_bucket_count;;
  p <- memcpy (padd addr sizeof_TopologyMsg) ids (bucket_count * 4);;
  set_ptr tmp TopologyMsg_bucket_ids p;;;
  msg_size <- get_int this Message_msg_size;;
  set_int this Message_msg_size (msg_size + bucket_count * 4);;;
  get_int this Message_msg_size.

Definition TopologyMsg_setBucketIds (this : ptr) (count : Z) (ids : ptr) : M unit :=
  set_int this TopologyMsg_bucket_count count;;;
  set_int this Message_msg_size (sizeof_TopologyMsg + count * 4);;;
  arr <- malloc (count * 4);;
  set_ptr this TopologyMsg_bucket_ids arr;;;
  copy_array 4 arr ids count.

Definition TopologyMsg_getBucketId (this : ptr) (index : Z) : M Z :=
  ids <- get_ptr this TopologyMsg_bucket_ids;;
  ld_u32 (idx_i32 ids index).

Definition TopologyMsg_setRootId (this : ptr) (id : Z) : M unit :=
  set_int this TopologyMsg_root_id id.

Definition TopologyMsg_getRootId (this : ptr) : M Z := get_uint this TopologyMsg_root_id.

(** ** IntArrayMsg *)

Definition IntArrayMsg_struct : struct_decl :=
  Message_struct ++
   [("size", CInt); ("values", CPtr); ("setValues", CPtr); ("getSize", CPtr); ("getValue", CPtr)]%string.

Definition sizeof_IntArrayMsg := Eval vm_compute in struct_size IntArrayMsg_struct.
Definition IntArrayMsg_size := Eval vm_compute in member IntArrayMsg_struct "size".
Definition IntArrayMsg_values := Eval vm_compute in member IntArrayMsg_struct "values".
Definition IntArrayMsg_setValues_f := Eval vm_compute in member IntArrayMsg_struct "setValues".
Definition IntArrayMsg_getSize_f := Eval vm_compute in member IntArrayMsg_struct "getSize".
Definition IntArrayMsg_getValue_f := Eval vm_compute in member IntArrayMsg_struct "getValue".

Definition INTARRAY_MSG_ID : Z := 5.

Definition IntArrayMsg_create (tag : Z) : M ptr :=
  newRec <- malloc sizeof_IntArrayMsg;;
  if decide (newRec = Null) then FatalError else (
  set_int newRec Message_tag tag;;;
  set_int newRec Message_tid INTARRAY_MSG_ID;;;
  set_int newRec Message_msg_size sizeof_IntArrayMsg;;;
  set_fun newRec Message_getTag "IntArrayMsg.getTag";;;
  set_fun newRec Message_clone "IntArrayMsg.clone";;;
  set_fun newRec Message_destroy "IntArrayMsg.destroy";;;
  set_fun newRec Message_writeAt "IntArrayMsg.writeAt";;;
  set_fun newRec IntArrayMsg_setValues_f "IntArrayMsg.setValues";;;
  set_fun newRec IntArrayMsg_getSize_f "IntArrayMsg.getSize";;;
  set_fun newRec IntArrayMsg_getValue_f "IntArrayMsg.getValue";;;
  ret newRec).

Definition IntArrayMsg_rebind (msg : ptr) : M unit :=
  let rebind_msg := msg in
  set_fun rebind_msg Message_getTag "IntArrayMsg.getTag";;;
  set_fun rebind_msg Message_clone "IntArrayMsg.clone";;;
  set_fun rebind_msg Message_destroy "IntArrayMsg.destroy";;;
  set_fun rebind_msg Message_writeAt "IntArrayMsg.writeAt";;;
  set_fun rebind_msg IntArrayMsg_setValues_f "IntArrayMsg.setValues";;;
  set_fun rebind_msg IntArrayMsg_getSize_f "IntArrayMsg.getSize";;;
  set_fun rebind_msg IntArrayMsg_getValue_f "IntArrayMsg.getValue";;;
  set_ptr rebind_msg IntArrayMsg_values (padd msg sizeof_IntArrayMsg).

Definition IntArrayMsg_getTag (this : ptr) : M Z := get_int this Message_tag.

Definition IntArrayMsg_clone (this : ptr) : M ptr :=
  tag <- get_int this Message_tag;;
  tmp <- IntArrayMsg_create tag;;
  copy_field tmp Message_tag this Message_tag;;;
  copy_field tmp Message_tid this Message_tid;;;
  copy_field tmp Message_msg_size this Message_msg_size;;;
  copy_field tmp IntArrayMsg_size this IntArrayMsg_size;;;
  size <- get_int this IntArrayMsg_size;;
  values <- malloc (size * 4);;
  set_ptr tmp IntArrayMsg_values values;;;
  src <- get_ptr this IntArrayMsg_values;;
  copy_array 4 values src size;;;
  ret tmp.

Definition IntArrayMsg_destroy (this : ptr) : M unit :=
  values <- get_ptr this IntArrayMsg_values;;
  free values;;;
  free this.

Definition IntArrayMsg_writeAt (this addr : ptr) : M Z :=
  let tmp := addr in
  copy_field tmp Message_tag this Message_tag;;;
  copy_field tmp Message_tid this Message_tid;;;
  copy_field tmp Message_msg_size this Message_msg_size;;;
  copy_field tmp IntArrayMsg_size this IntArrayMsg_size;;;
  values <- get_ptr this IntArrayMsg_values;;
  size <- get_int this IntArrayMsg_size;;
  p <- memcpy (padd addr sizeof_IntArrayMsg) values (size * 4);;
  set_ptr tmp IntArrayMsg_values p;;;
  get_int this Message_msg_size.

Definition IntArrayMsg_setValues (this : ptr) (count : Z) (val : ptr) : M unit :=
  set_int this IntArrayMsg_size count;;;
  size <- get_int this IntArrayMsg_size;;
  values <- malloc (size * 4);;
  set_ptr this IntArrayMsg_values values;;;
  set_int this Message_msg_size (sizeof_IntArrayMsg + count * 4);;;
  copy_array 4 values val count.

Definition IntArrayMsg_getSize (this : ptr) : M Z := get_int this IntArrayMsg_size.

Definition IntArrayMsg_getValue (this : ptr) (index : Z) : M Z :=
  values <- get_ptr this IntArrayMsg_values;;
  ld_i32 (idx_i32 values index).

(** ** DoneMsg *)

Definition DoneMsg_struct : struct_decl :=
  Message_struct ++
   [("success", CInt)]%string.

Definition sizeof_DoneMsg := Eval vm_compute in struct_size DoneMsg_struct.
Definition DoneMsg_success := Eval vm_compute in member DoneMsg_struct "success".

Definition DONE_MSG_ID : Z := 6.

Definition DoneMsg_create (tag : Z) : M ptr :=
  newRec <- malloc sizeof_DoneMsg;;
  if decide (newRec = Null) then FatalError else (
  set_int newRec Message_tag tag;;;
  set_int newRec Message_tid DONE_MSG_ID;;;
  set_int newRec Message_msg_size sizeof_DoneMsg;;;
  set_fun newRec Message_getTag "DoneMsg.getTag";;;
  set_fun newRec Message_clone "DoneMsg.clone";;;
  set_fun newRec Message_destroy "DoneMsg.destroy";;;
  set_fun newRec Message_writeAt "DoneMsg.writeAt";;;
  ret newRec).

Definition DoneMsg_rebind (msg : ptr) : M unit :=
  let rebind_msg := msg in
  set_fun rebind_msg Message_getTag "DoneMsg.getTag";;;
  set_fun rebind_msg Message_clone "DoneMsg.clone";;;
  set_fun rebind_msg Message_destroy "DoneMsg.destroy";;;
  set_fun rebind_msg Message_writeAt "DoneMsg.writeAt".

Definition DoneMsg_getTag (this : ptr) : M Z := get_int this Message_tag.

Definition DoneMsg_clone (this : ptr) : M ptr :=
  tag <- get_int this Message_tag;;
  tmp <- DoneMsg_create tag;;
  copy_field tmp Message_tag this Message_tag;;;
  copy_field tmp Message_tid this Message_tid;;;
  copy_field tmp Message_msg_size this Message_msg_size;;;
  copy_field tmp DoneMsg_success this DoneMsg_success;;;
  ret tmp.

Definition DoneMsg_destroy (this : ptr) : M unit := free this.

Definition DoneMsg_writeAt (this addr : ptr) : M Z :=
  let tmp := addr in
  copy_field tmp Message_tag this Message_tag;;;
  copy_field tmp Message_tid this Message_tid;;;
  copy_field tmp Message_msg_size this Message_msg_size;;;
  copy_field tmp DoneMsg_success this DoneMsg_success;;;
  get_int this Message_msg_size.

(** ** RefTwoDimIntArrayMsg *)

Definition RefTwoDimIntArrayMsg_struct : struct_decl :=
  Message_struct ++
   [("size", CInt); ("counts", CPtr); ("values", CPtr)]%string.

Definition sizeof_RefTwoDimIntArrayMsg := Eval vm_compute in struct_size RefTwoDimIntArrayMsg_struct.
Definition RefTwoDimIntArrayMsg_size := Eval vm_compute in member RefTwoDimIntArrayMsg_struct "size".
Definition RefTwoDimIntArrayMsg_counts := Eval vm_compute in member RefTwoDimIntArrayMsg_struct "counts".
Definition RefTwoDimIntArrayMsg_values := Eval vm_compute in member RefTwoDimIntArrayMsg_struct "values".

Definition REFTWODIMINTARRAY_MSG_ID : Z := 7.

Definition RefTwoDimIntArrayMsg_create (tag : Z) : M ptr :=
  newRec <- malloc sizeof_RefTwoDimIntArrayMsg;;
  if decide (newRec = Null) then FatalError else (
  set_int newRec Message_tag tag;;;
  set_int newRec Message_tid REFTWODIMINTARRAY_MSG_ID;;;
  set_int newRec Message_msg_size sizeof_RefTwoDimIntArrayMsg;;;
  set_fun newRec Message_getTag "RefTwoDimIntArrayMsg.getTag";;;
  set_fun newRec Message_clone "RefTwoDimIntArrayMsg.clone";;;
  set_fun newRec Message_destroy "RefTwoDimIntArrayMsg.destroy";;;
  set_fun newRec Message_writeAt "RefTwoDimIntArrayMsg.writeAt";;;
  ret newRec).

Definition RefTwoDimIntArrayMsg_rebind (msg : ptr) : M unit :=
  let rebind_msg := msg in
  set_fun rebind_msg Message_getTag "RefTwoDimIntArrayMsg.getTag";;;
  set_fun rebind_msg Message_clone "RefTwoDimIntArrayMsg.clone";;;
  set_fun rebind_msg Message_destroy "RefTwoDimIntArrayMsg.destroy";;;
  set_fun rebind_msg Message_writeAt "RefTwoDimIntArrayMsg.writeAt".

Definition RefTwoDimIntArrayMsg_getTag (this : ptr) : M Z := get_int this Message_tag.

Definition RefTwoDimIntArrayMsg_clone (this : ptr) : M ptr :=
  tag <- get_int this Message_tag;;
  tmp <- RefTwoDimIntArrayMsg_create tag;;
  copy_field tmp Message_tag this Message_tag;;;
  copy_field tmp Message_tid this Message_tid;;;
  copy_field tmp Message_msg_size this Message_msg_size;;;
  copy_field tmp RefTwoDimIntArrayMsg_size this RefTwoDimIntArrayMsg_size;;;
  copy_field tmp RefTwoDimIntArrayMsg_counts this RefTwoDimIntArrayMsg_counts;;;
  copy_field tmp RefTwoDimIntArrayMsg_values this RefTwoDimIntArrayMsg_values;;;
  ret tmp.

Definition RefTwoDimIntArrayMsg_destroy (this : ptr) : M unit := free this.

Definition RefTwoDimIntArrayMsg_writeAt (this addr : ptr) : M Z :=
  let tmp := addr in
  copy_field tmp Message_tag this Message_tag;;;
  copy_field tmp Message_tid this Message_tid;;;
  copy_field tmp Message_msg_size this Message_msg_size;;;
  copy_field tmp RefTwoDimIntArrayMsg_size this RefTwoDimIntArrayMsg_size;;;
  copy_field tmp RefTwoDimIntArrayMsg_counts this RefTwoDimIntArrayMsg_counts;;;
  copy_field tmp RefTwoDimIntArrayMsg_values this RefTwoDimIntArrayMsg_values;;;
  get_int this Message_msg_size.

(** ** RequestMsg *)

Definition RequestMsg_struct : struct_decl :=
  Message_struct ++
   [("sender_task_id", CInt); ("request_type", CInt); ("data_size", CInt); ("data", CPtr); ("getData", CPtr); ("setData", CPtr)]%string.

Definition sizeof_RequestMsg := Eval vm_compute in struct_size RequestMsg_struct.
Definition RequestMsg_sender_task_id := Eval vm_compute in member RequestMsg_struct "sender_task_id".
Definition RequestMsg_request_type := Eval vm_compute in member RequestMsg_struct "request_type".
Definition RequestMsg_data_size := Eval vm_compute in member RequestMsg_struct "data_size".
Definition RequestMsg_data := Eval vm_compute in member RequestMsg_struct "data".
Definition RequestMsg_getData_f := Eval vm_compute in member RequestMsg_struct "getData".
Definition RequestMsg_setData_f := Eval vm_compute in member RequestMsg_struct "setData".

Definition REQUEST_MSG_ID : Z := 8.

Definition RequestMsg_create (tag : Z) : M ptr :=
  newRec <- malloc sizeof_RequestMsg;;
  if decide (newRec = Null) then FatalError else (
  set_int newRec Message_tag tag;;;
  set_int newRec Message_tid REQUEST_MSG_ID;;;
  set_int newRec Message_msg_size sizeof_RequestMsg;;;
  set_fun newRec Message_getTag "RequestMsg.getTag";;;
  set_fun newRec Message_clone "RequestMsg.clone";;;
  set_fun newRec Message_destroy "RequestMsg.destroy";;;
  set_fun newRec Message_writeAt "RequestMsg.writeAt";;;
  set_int newRec RequestMsg_data_size 0;;;
  set_ptr newRec RequestMsg_data Null;;;
  set_int newRec RequestMsg_sender_task_id (-1);;;
  set_int newRec RequestMsg_request_type (-1);;;
  set_fun newRec RequestMsg_getData_f "RequestMsg.getData";;;
  set_fun newRec RequestMsg_setData_f "RequestMsg.setData";;;
  ret newRec).

Definition RequestMsg_rebind (msg : ptr) : M unit :=
  let rebind_msg := msg in
  set_fun rebind_msg Message_getTag "RequestMsg.getTag";;;
  set_fun rebind_msg Message_clone "RequestMsg.clone";;;
  set_fun rebind_msg Message_destroy "RequestMsg.destroy";;;
  set_fun rebind_msg Message_writeAt "RequestMsg.writeAt";;;
  set_fun rebind_msg RequestMsg_getData_f "RequestMsg.getData";;;
  set_fun rebind_msg RequestMsg_setData_f "RequestMsg.setData";;;
  set_ptr rebind_msg RequestMsg_data (padd msg sizeof_RequestMsg).

Definition RequestMsg_getTag (this : ptr) : M Z := get_int this Message_tag.

Definition RequestMsg_clone (this : ptr) : M ptr :=
  tmp <- RequestMsg_create 0;;
  copy_field tmp Message_tag this Message_tag;;;
  copy_field tmp Message_tid this Message_tid;;;
  copy_field tmp Message_msg_size this Message_msg_size;;;
  copy_field tmp RequestMsg_sender_task_id this RequestMsg_sender_task_id;;;
  copy_field tmp RequestMsg_request_type this RequestMsg_request_type;;;
  copy_field tmp RequestMsg_data_size this RequestMsg_data_size;;;
  size <- get_int this RequestMsg_data_size;;
  data <- malloc size;;
  set_ptr tmp RequestMsg_data data;;;
  src <- get_ptr this RequestMsg_data;;
  copy_array 1 data src size;;;
  ret tmp.

Definition RequestMsg_destroy (this : ptr) : M unit :=
  data <- get_ptr this RequestMsg_data;;
  free data;;;
  free this.

Definition RequestMsg_writeAt (this addr : ptr) : M Z :=
  let tmp := addr in
  copy_field tmp Message_tag this Message_tag;;;
  copy_field tmp Message_tid this Message_tid;;;
  copy_field tmp Message_msg_size this Message_msg_size;;;
  copy_field tmp RequestMsg_sender_task_id this RequestMsg_sender_task_id;;;
  copy_field tmp RequestMsg_request_type this RequestMsg_request_type;;;
  copy_field tmp RequestMsg_data_size this RequestMsg_data_size;;;
  data <- get_ptr this RequestMsg_data;;
  size <- get_int this RequestMsg_data_size;;
  p <- memcpy (padd addr sizeof_RequestMsg) data size;;
  set_ptr tmp RequestMsg_data p;;;
  get_int this Message_msg_size.

Definition RequestMsg_getData (this : ptr) : M ptr := get_ptr this RequestMsg_data.

Definition RequestMsg_setData (this data : ptr) (size : Z) : M unit :=
  arr <- malloc size;;
  set_ptr this RequestMsg_data arr;;;
  copy_array 1 arr data size;;;
  set_int this RequestMsg_data_size size;;;
  msg_size <- get_int this Message_msg_size;;
  set_int this Message_msg_size (msg_size + size).

(** ** ResponseMsg *)

Definition ResponseMsg_struct : struct_decl :=
  Message_struct ++
   [("code", CInt); ("data_size", CInt); ("data", CPtr); ("getData", CPtr); ("setData", CPtr)]%string.

Definition sizeof_ResponseMsg := Eval vm_compute in struct_size ResponseMsg_struct.
Definition ResponseMsg_code := Eval vm_compute in member ResponseMsg_struct "code".
Definition ResponseMsg_data_size := Eval vm_compute in member ResponseMsg_struct "data_size".
Definition ResponseMsg_data := Eval vm_compute in member ResponseMsg_struct "data".
Definition ResponseMsg_getData_f := Eval vm_compute in member ResponseMsg_struct "getData".
Definition ResponseMsg_setData_f := Eval vm_compute in member ResponseMsg_struct "setData".

Definition RESPONSE_MSG_ID : Z := 9.

Definition ResponseMsg_create (tag : Z) : M ptr :=
  newRec <- malloc sizeof_ResponseMsg;;
  if decide (newRec = Null) then FatalError else (
  set_int newRec Message_tag tag;;;
  set_int newRec Message_tid RESPONSE_MSG_ID;;;
  set_int newRec Message_msg_size sizeof_ResponseMsg;;;
  set_fun newRec Message_getTag "ResponseMsg.getTag";;;
  set_fun newRec Message_clone "ResponseMsg.clone";;;
  set_fun newRec Message_destroy "ResponseMsg.destroy";;;
  set_fun newRec Message_writeAt "ResponseMsg.writeAt";;;
  set_int newRec ResponseMsg_data_size 0;;;
  set_ptr newRec ResponseMsg_data Null;;;
  set_int newRec ResponseMsg_code (-1);;;
  set_fun newRec ResponseMsg_getData_f "ResponseMsg.getData";;;
  set_fun newRec ResponseMsg_setData_f "ResponseMsg.setData";;;
  ret newRec).

Definition ResponseMsg_rebind (msg : ptr) : M unit :=
  let rebind_msg := msg in
  set_fun rebind_msg Message_getTag "ResponseMsg.getTag";;;
  set_fun rebind_msg Message_clone "ResponseMsg.clone";;;
  set_fun rebind_msg Message_destroy "ResponseMsg.destroy";;;
  set_fun rebind_msg Message_writeAt "ResponseMsg.writeAt";;;
  set_fun rebind_msg ResponseMsg_getData_f "ResponseMsg.getData";;;
  set_fun rebind_msg ResponseMsg_setData_f "ResponseMsg.setData";;;
  set_ptr rebind_msg ResponseMsg_data (padd msg sizeof_ResponseMsg).

Definition ResponseMsg_getTag (this : ptr) : M Z := get_int this Message_tag.

Definition ResponseMsg_clone (this : ptr) : M ptr :=
  tmp <- ResponseMsg_create 0;;
  copy_field tmp Message_tag this Message_tag;;;
  copy_field tmp Message_tid this Message_tid;;;
  copy_field tmp Message_msg_size this Message_msg_size;;;
  copy_field tmp ResponseMsg_code this ResponseMsg_code;;;
  copy_field tmp ResponseMsg_data_size this ResponseMsg_data_size;;;
  size <- get_int this ResponseMsg_data_size;;
  data <- malloc size;;
  set_ptr tmp ResponseMsg_data data;;;
  src <- get_ptr this ResponseMsg_data;;
  copy_array 1 data src size;;;
  ret tmp.

Definition ResponseMsg_destroy (this : ptr) : M unit :=
  data <- get_ptr this ResponseMsg_data;;
  free data;;;
  free this.

Definition ResponseMsg_writeAt (this addr : ptr) : M Z :=
  let tmp := addr in
  copy_field tmp Message_tag this Message_tag;;;
  copy_field tmp Message_tid this Message_tid;;;
  copy_field tmp Message_msg_size this Message_msg_size;;;
  copy_field tmp ResponseMsg_code this ResponseMsg_code;;;
  copy_field tmp ResponseMsg_data_size this ResponseMsg_data_size;;;
  data <- get_ptr this ResponseMsg_data;;
  size <- get_int this ResponseMsg_data_size;;
  p <- memcpy (padd addr sizeof_ResponseMsg) data size;;
  set_ptr tmp ResponseMsg_data p;;;
  get_int this Message_msg_size.

Definition ResponseMsg_getData (this : ptr) : M ptr := get_ptr this ResponseMsg_data.

Definition ResponseMsg_setData (this data : ptr) (size : Z) : M unit :=
  arr <- malloc size;;
  set_ptr this ResponseMsg_data arr;;;
  copy_array 1 arr data size;;;
  set_int this ResponseMsg_data_size size;;;
  msg_size <- get_int this Message_msg_size;;
  set_int this Message_msg_size (msg_size + size).

(** ** Virtual calls *)

(** [item->writeAt(item, addr)], [msg->clone(msg)], ... on an object of any class. *)
Definition call_writeAt (item addr : ptr) : M Z :=
  call_through item Message_writeAt
    [("BarMsg.writeAt", BarMsg_writeAt item addr);
     ("TextMsg.writeAt", TextMsg_writeAt item addr);
     ("RefIntArrayMsg.writeAt", RefIntArrayMsg_writeAt item addr);
     ("TopologyMsg.writeAt", TopologyMsg_writeAt item addr);
     ("IntArrayMsg.writeAt", IntArrayMsg_writeAt item addr);
     ("DoneMsg.writeAt", DoneMsg_writeAt item addr);
     ("RefTwoDimIntArrayMsg.writeAt", RefTwoDimIntArrayMsg_writeAt item addr);
     ("RequestMsg.writeAt", RequestMsg_writeAt item addr);
     ("ResponseMsg.writeAt", ResponseMsg_writeAt item addr)]%string.

Definition call_clone (msg : ptr) : M ptr :=
  call_through msg Message_clone
    [("BarMsg.clone", BarMsg_clone msg);
     ("TextMsg.clone", TextMsg_clone msg);
     ("RefIntArrayMsg.clone", RefIntArrayMsg_clone msg);
     ("TopologyMsg.clone", TopologyMsg_clone msg);
     ("IntArrayMsg.clone", IntArrayMsg_clone msg);
     ("DoneMsg.clone", DoneMsg_clone msg);
     ("RefTwoDimIntArrayMsg.clone", RefTwoDimIntArrayMsg_clone msg);
     ("RequestMsg.clone", RequestMsg_clone msg);
     ("ResponseMsg.clone", ResponseMsg_clone msg)]%string.

Definition call_destroy (msg : ptr) : M unit :=
  call_through msg Message_destroy
    [("BarMsg.destroy", BarMsg_destroy msg);
     ("TextMsg.destroy", TextMsg_destroy msg);
     ("RefIntArrayMsg.destroy", RefIntArrayMsg_destroy msg);
     ("TopologyMsg.destroy", TopologyMsg_destroy msg);
     ("IntArrayMsg.destroy", IntArrayMsg_destroy msg);
     ("DoneMsg.destroy", DoneMsg_destroy msg);
     ("RefTwoDimIntArrayMsg.destroy", RefTwoDimIntArrayMsg_destroy msg);
     ("RequestMsg.destroy", RequestMsg_destroy msg);
     ("ResponseMsg.destroy", ResponseMsg_destroy msg)]%string.

Definition call_getTag (msg : ptr) : M Z :=
  call_through msg Message_getTag
    [("BarMsg.getTag", BarMsg_getTag msg);
     ("TextMsg.getTag", TextMsg_getTag msg);
     ("RefIntArrayMsg.getTag", RefIntArrayMsg_getTag msg);
     ("TopologyMsg.getTag", TopologyMsg_getTag msg);
     ("IntArrayMsg.getTag", IntArrayMsg_getTag msg);
     ("DoneMsg.getTag", DoneMsg_getTag msg);
     ("RefTwoDimIntArrayMsg.getTag", RefTwoDimIntArrayMsg_getTag msg);
     ("RequestMsg.getTag", RequestMsg_getTag msg);
     ("ResponseMsg.getTag", ResponseMsg_getTag msg)]%string.

(** ** The table of rebind functions

    [build_mapping] fills the table that is indexed by [tid]. *)

Definition MAX_MESSAGE_TYPE : nat := 20.

Definition build_mapping : list (option (ptr → M unit)) :=
  let rebinder := replicate MAX_MESSAGE_TYPE None in
  let rebinder := <[1%nat := Some BarMsg_rebind]> rebinder in
  let rebinder := <[2%nat := Some TextMsg_rebind]> rebinder in
  let rebinder := <[3%nat := Some RefIntArrayMsg_rebind]> rebinder in
  let rebinder := <[4%nat := Some TopologyMsg_rebind]> rebinder in
  let rebinder := <[5%nat := Some IntArrayMsg_rebind]> rebinder in
  let rebinder := <[6%nat := Some DoneMsg_rebind]> rebinder in
  let rebinder := <[7%nat := Some RefTwoDimIntArrayMsg_rebind]> rebinder in
  let rebinder := <[8%nat := Some RequestMsg_rebind]> rebinder in
  let rebinder := <[9%nat := Some ResponseMsg_rebind]> rebinder in
  rebinder.

Definition rebinder : list (option (ptr → M unit)) := build_mapping.

#[export] Hint Unfold Message_tag
  Message_tid
  Message_msg_size
  Message_getTag
  Message_clone
  Message_destroy
  Message_writeAt
  BarMsg_value
  BarMsg_getValue_f
  BarMsg_setValue_f
  TextMsg_msg
  TextMsg_getMsg_f
  TextMsg_setMsg_f
  RefIntArrayMsg_size
  RefIntArrayMsg_values
  RefIntArrayMsg_setValues_f
  RefIntArrayMsg_getSize_f
  RefIntArrayMsg_getValue_f
  TopologyMsg_bucket_count
  TopologyMsg_root_id
  TopologyMsg_sample_size
  TopologyMsg_data_size
  TopologyMsg_bucket_ids
  TopologyMsg_setBucketIds_f
  TopologyMsg_getBucketId_f
  TopologyMsg_setRootId_f
  TopologyMsg_getRootId_f
  IntArrayMsg_size
  IntArrayMsg_values
  IntArrayMsg_setValues_f
  IntArrayMsg_getSize_f
  IntArrayMsg_getValue_f
  DoneMsg_success
  RefTwoDimIntArrayMsg_size
  RefTwoDimIntArrayMsg_counts
  RefTwoDimIntArrayMsg_values
  RequestMsg_sender_task_id
  RequestMsg_request_type
  RequestMsg_data_size
  RequestMsg_data
  RequestMsg_getData_f
  RequestMsg_setData_f
  ResponseMsg_code
  ResponseMsg_data_size
  ResponseMsg_data
  ResponseMsg_getData_f
  ResponseMsg_setData_f
  sizeof_BarMsg
  sizeof_TextMsg
  sizeof_RefIntArrayMsg
  sizeof_TopologyMsg
  sizeof_IntArrayMsg
  sizeof_DoneMsg
  sizeof_RefTwoDimIntArrayMsg
  sizeof_RequestMsg
  sizeof_ResponseMsg : fields.
