(* ===== verification/MessageSpec.v ===== *)
(** * What a message object is, and what its methods do

    [msg] is the content of a message, whatever object holds it.  [obj_at]
    says that an object of process [p] with all its function pointers bound is
    in memory; [ser_at] says that the bytes of a message are in a queue, where
    the function pointers and the data pointer mean nothing.  The lemmas give,
    for every class, the effect of [writeAt], of [rebind] and of [clone]. *)

From S2P Require Import Prelude CMem CLogic Messages.
From stdpp Require Import base numbers list strings gmap.
From Stdlib Require Import Lia.
#[local] Open Scope Z_scope.
#[local] Open Scope ts_scope.

Inductive body :=
| BBar (value : Z)
| BText (s : list memval)
| BRefInt (size : Z) (values : ptr)
| BTopo (root sample data : Z) (ids : list Z)
| BInts (vals : list Z)
| BDone (success : Z)
| BRef2 (size : Z) (counts values : ptr)
| BReq (sender rtype : Z) (data : list memval)
| BRes (code : Z) (data : list memval).

(** [m_size] is the [msg_size] member. *)
Record msg := Msg { m_tag : Z; m_size : Z; m_body : body }.

Definition tid_of (b : body) : Z :=
  match b with
  | BBar _ => BAR_MSG_ID | BText _ => TEXT_MSG_ID
  | BRefInt _ _ => REFINTARRAY_MSG_ID | BTopo _ _ _ _ => TOPOLOGY_MSG_ID
  | BInts _ => INTARRAY_MSG_ID | BDone _ => DONE_MSG_ID
  | BRef2 _ _ _ => REFTWODIMINTARRAY_MSG_ID
  | BReq _ _ _ => REQUEST_MSG_ID | BRes _ _ => RESPONSE_MSG_ID
  end.

Definition sizeof_of (b : body) : Z :=
  match b with
  | BBar _ => sizeof_BarMsg | BText _ => sizeof_TextMsg
  | BRefInt _ _ => sizeof_RefIntArrayMsg | BTopo _ _ _ _ => sizeof_TopologyMsg
  | BInts _ => sizeof_IntArrayMsg | BDone _ => sizeof_DoneMsg
  | BRef2 _ _ _ => sizeof_RefTwoDimIntArrayMsg
  | BReq _ _ _ => sizeof_RequestMsg | BRes _ _ => sizeof_ResponseMsg
  end.

Definition ints (l : list Z) : list memval := concat (enc_i32 <$> l).

(** The array that follows the struct in a queue. *)
Definition payload (b : body) : list memval :=
  match b with
  | BTopo _ _ _ ids => ints ids
  | BInts vals => ints vals
  | BReq _ _ data | BRes _ data => data
  | _ => []
  end.

Definition cls_methods (c : string) (own : list (field * string)) : list (field * string) :=
  [(Message_getTag, c +:+ ".getTag"); (Message_clone, c +:+ ".clone");
   (Message_destroy, c +:+ ".destroy"); (Message_writeAt, c +:+ ".writeAt")]%string ++ own.

(** The function every method member of an object of the class points to. *)
Definition methods_of (b : body) : list (field * string) :=
  match b with
  | BBar _ => cls_methods "BarMsg"
      [(BarMsg_getValue_f, "BarMsg.getValue"); (BarMsg_setValue_f, "BarMsg.setValue")]%string
  | BText _ => cls_methods "TextMsg"
      [(TextMsg_getMsg_f, "TextMsg.getMsg"); (TextMsg_setMsg_f, "TextMsg.setMsg")]%string
  | BRefInt _ _ => cls_methods "RefIntArrayMsg"
      [(RefIntArrayMsg_setValues_f, "RefIntArrayMsg.setValues");
       (RefIntArrayMsg_getSize_f, "RefIntArrayMsg.getSize");
       (RefIntArrayMsg_getValue_f, "RefIntArrayMsg.getValue")]%string
  | BTopo _ _ _ _ => cls_methods "TopologyMsg"
      [(TopologyMsg_setBucketIds_f, "TopologyMsg.setBucketIds");
       (TopologyMsg_getBucketId_f, "TopologyMsg.getBucketId");
       (TopologyMsg_setRootId_f, "TopologyMsg.setRootId");
       (TopologyMsg_getRootId_f, "TopologyMsg.getRootId")]%string
  | BInts _ => cls_methods "IntArrayMsg"
      [(IntArrayMsg_setValues_f, "IntArrayMsg.setValues");
       (IntArrayMsg_getSize_f, "IntArrayMsg.getSize");
       (IntArrayMsg_getValue_f, "IntArrayMsg.getValue")]%string
  | BDone _ => cls_methods "DoneMsg" []
  | BRef2 _ _ _ => cls_methods "RefTwoDimIntArrayMsg" []
  | BReq _ _ _ => cls_methods "RequestMsg"
      [(RequestMsg_getData_f, "RequestMsg.getData"); (RequestMsg_setData_f, "RequestMsg.setData")]%string
  | BRes _ _ => cls_methods "ResponseMsg"
      [(ResponseMsg_getData_f, "ResponseMsg.getData"); (ResponseMsg_setData_f, "ResponseMsg.setData")]%string
  end.

(** The members that are the same in an object and in a queue. *)
Definition scalars (b : body) : list (field * list memval) :=
  match b with
  | BBar v => [(BarMsg_value, enc_i32 v)]
  | BText s => [(TextMsg_msg, s ++ [Byte 0])]
  | BRefInt size values =>
      [(RefIntArrayMsg_size, enc_i32 size); (RefIntArrayMsg_values, enc_ptr values)]
  | BTopo root sample data ids =>
      [(TopologyMsg_bucket_count, enc_i32 (Z.of_nat (length ids)));
       (TopologyMsg_root_id, enc_i32 root); (TopologyMsg_sample_size, enc_i32 sample);
       (TopologyMsg_data_size, enc_i32 data)]
  | BInts vals => [(IntArrayMsg_size, enc_i32 (Z.of_nat (length vals)))]
  | BDone s => [(DoneMsg_success, enc_i32 s)]
  | BRef2 size counts values =>
      [(RefTwoDimIntArrayMsg_size, enc_i32 size);
       (RefTwoDimIntArrayMsg_counts, enc_ptr counts);
       (RefTwoDimIntArrayMsg_values, enc_ptr values)]
  | BReq sender rtype data =>
      [(RequestMsg_sender_task_id, enc_i32 sender); (RequestMsg_request_type, enc_i32 rtype);
       (RequestMsg_data_size, enc_i32 (Z.of_nat (length data)))]
  | BRes code data =>
      [(ResponseMsg_code, enc_i32 code);
       (ResponseMsg_data_size, enc_i32 (Z.of_nat (length data)))]
  end.

(** The member that points to the array, for the classes that own one. *)
Definition data_field (b : body) : option field :=
  match b with
  | BTopo _ _ _ _ => Some TopologyMsg_bucket_ids
  | BInts _ => Some IntArrayMsg_values
  | BReq _ _ _ => Some RequestMsg_data
  | BRes _ _ => Some ResponseMsg_data
  | _ => None
  end.

Definition header (m : msg) : list (field * list memval) :=
  [(Message_tag, enc_i32 (m_tag m)); (Message_tid, enc_i32 (tid_of (m_body m)));
   (Message_msg_size, enc_i32 (m_size m))].

(** Struct at offset [o] of block [b]: these members have these bytes. *)
Fixpoint flds (w : world) (b o : Z) (l : list (field * list memval)) : Prop :=
  match l with
  | [] => True
  | x :: t => mb w b (o + f_off x.1) x.2 ∧ flds w b o t
  end.

Fixpoint bound (w : world) (p b o : Z) (l : list (field * string)) : Prop :=
  match l with
  | [] => True
  | x :: t => mb w b (o + f_off x.1) (enc_ptr (Fun p x.2)) ∧ bound w p b o t
  end.

Definition data_at (w : world) (p b o : Z) (bd : body) (d : ptr) : Prop :=
  match data_field bd with
  | Some f => mb w b (o + f_off f) (enc_ptr d) ∧ array_at w p d (payload bd)
  | None => True
  end.

Definition obj_at (w : world) (p b o : Z) (m : msg) (d : ptr) : Prop :=
  valid w b o (Z.to_nat (sizeof_of (m_body m))) ∧
  flds w b o (header m) ∧ bound w p b o (methods_of (m_body m)) ∧
  flds w b o (scalars (m_body m)) ∧ data_at w p b o (m_body m) d.

Definition ser_at (w : world) (q a : Z) (m : msg) : Prop :=
  flds w q a (header m) ∧ flds w q a (scalars (m_body m)) ∧
  mb w q (a + sizeof_of (m_body m)) (payload (m_body m)).

Definition body_ok (b : body) : Prop :=
  match b with
  | BText s => Forall char_ok s ∧ (length s < 100)%nat
  | _ => Z.of_nat (length (payload b)) < 2147483648
  end.

(** [msg_size] covers the struct and its array. *)
Definition msg_ok (m : msg) : Prop :=
  is_s32 (m_tag m) ∧ body_ok (m_body m) ∧
  sizeof_of (m_body m) + Z.of_nat (length (payload (m_body m))) <= m_size m < 2147483648.

(** What [writeAt] leaves of the message object: a [TopologyMsg] grows. *)
Definition bump (m : msg) : msg :=
  match m_body m with
  | BTopo _ _ _ ids => Msg (m_tag m) (s32 (m_size m + Z.of_nat (length ids) * 4)) (m_body m)
  | _ => m
  end.

Definition is_topo (b : body) : Prop :=
  match b with BTopo _ _ _ _ => True | _ => False end.

(** The bytes [writeAt] may change: the room for the message in the queue,
    and the [msg_size] of the object when it is a [TopologyMsg]. *)
Definition write_foot (q a b o : Z) (m : msg) : Z → Z → Prop := λ b' i,
  range q a (m_size m) b' i ∨ (is_topo (m_body m) ∧ range b (o + f_off Message_msg_size) 4 b' i).

Lemma length_ints l : length (ints l) = (4 * length l)%nat.
Proof. unfold ints. induction l; cbn [fmap list_fmap concat]; [done|].
  rewrite length_app. autorewrite with len. cbn [length]. fold (ints l) in *. unfold ints in *. lia. Qed.
#[export] Hint Rewrite length_ints @length_app : len.

(** Expose the facts about an object as hypotheses. *)
Ltac open_obj H :=
  unfold obj_at, data_at in H;
  cbn [m_body m_tag m_size header methods_of cls_methods scalars data_field flds bound
       fst snd app sizeof_of payload tid_of] in H;
  destruct_and? H.

Ltac run_writeAt Ho f :=
  open_obj Ho; eapply wp_call_through; [eassumption| |]; [reflexivity|];
  unfold f; cbv zeta; repeat wp1.

Ltac close_obj :=
  unfold obj_at, data_at;
  cbn [m_body m_tag m_size header methods_of cls_methods scalars data_field flds bound
       fst snd app sizeof_of payload tid_of];
  rewrite ?enc_i32_s32;
  split_and!; try done;
  [find_valid | final_mb ..]; try find_array.

(** The footprint of [writeAt]. *)
Ltac in_foot :=
  let Hi := fresh in
  unfold write_foot, range; intros ? ? ? Hi; autounfold with fields in Hi;
  cbn [f_off f_len length app] in Hi; autorewrite with len in Hi; cbn [length] in Hi;
  cbn [m_size];
  solve [ left; split; [done|off]
        | right; split; [exact I|split; [done|off]] ].

Ltac close_ser :=
  split; [|split];
  [ unfold ser_at; cbn [flds header scalars payload m_body m_tag m_size sizeof_of fst snd];
    split_and!; try done; final_mb
  | close_obj
  | repeat first [ apply ext_refl | apply ext_upd; [in_foot |] ] ].

(** [writeAt] leaves a copy of the message in the queue; the object itself is
    as [bump] says. *)
Lemma writeAt_wp p w b o q a m d :
  msg_ok m → obj_at w p b o m d → b ≠ q →
  arr_sep d (payload (m_body m)) q → arr_sep d (payload (m_body m)) b →
  valid w q a (Z.to_nat (m_size m)) →
  wp (call_writeAt (Addr p b o) (Addr p q a)) p w
    (λ r w', ser_at w' q a m ∧ obj_at w' p b o (bump m) d ∧
             ext (write_foot q a b o m) w w').
Proof.
  destruct m as [tag sz bd].
  intros (Htag & Hb & Hsz) Ho Hne Hd Hd' Hv. cbn [m_size m_body m_tag] in *.
  destruct bd; cbn [sizeof_of payload body_ok] in Hsz, Hb, Hd, Hd';
    autounfold with fields in Hsz; autorewrite with len in Hsz, Hb; cbn [length] in Hsz, Hb;
    cbn [bump m_body m_tag m_size].
  - run_writeAt Ho BarMsg_writeAt. close_ser.
  - destruct Hb. run_writeAt Ho TextMsg_writeAt. close_ser.
  - run_writeAt Ho RefIntArrayMsg_writeAt. close_ser.
  - run_writeAt Ho TopologyMsg_writeAt. close_ser.
  - run_writeAt Ho IntArrayMsg_writeAt. close_ser.
  - run_writeAt Ho DoneMsg_writeAt. close_ser.
  - run_writeAt Ho RefTwoDimIntArrayMsg_writeAt. close_ser.
  - run_writeAt Ho RequestMsg_writeAt. close_ser.
  - run_writeAt Ho ResponseMsg_writeAt. close_ser.
Qed.

Ltac run_clone Ho f g :=
  open_obj Ho; eapply wp_call_through; [eassumption| |]; [reflexivity|];
  unfold f, g; repeat wp1; split; [done|]; split; [final_ext|].

Lemma clone_wp p w b o m d :
  wok w → msg_ok m → obj_at w p b o m d →
  wp (call_clone (Addr p b o)) p w (λ r w',
    r = Addr p (w_next w) 0 ∧ ext nowhere w w' ∧
    ∃ d', obj_at w' p (w_next w) 0 m d' ∧
          (data_field (m_body m) = None ∨ ptr_block d' = Some (w_next w + 1))).
Proof.
  destruct m as [tag sz bd].
  intros Hok (Htag & Hb & Hsz) Ho. cbn [m_size m_body m_tag] in *.
  assert (b < w_next w) as Hfr by (eapply valid_fresh; [done|apply Ho]).
  destruct bd; cbn [sizeof_of payload body_ok] in Hsz, Hb;
    autounfold with fields in Hsz; autorewrite with len in Hsz, Hb; cbn [length] in Hsz, Hb.
  - run_clone Ho BarMsg_clone BarMsg_create. exists Null. split; [|by left]. close_obj.
  - destruct Hb. run_clone Ho TextMsg_clone TextMsg_create.
    exists Null. split; [|by left]. close_obj.
  - run_clone Ho RefIntArrayMsg_clone RefIntArrayMsg_create.
    exists Null. split; [|by left]. close_obj.
  - run_clone Ho TopologyMsg_clone TopologyMsg_create.
    exists (Addr p (w_next w + 1) 0). split; [|by right]. close_obj.
    right. exists (w_next w + 1), 0. split; [done|]. final_mb.
  - run_clone Ho IntArrayMsg_clone IntArrayMsg_create.
    exists (Addr p (w_next w + 1) 0). split; [|by right]. close_obj.
    right. exists (w_next w + 1), 0. split; [done|]. final_mb.
  - run_clone Ho DoneMsg_clone DoneMsg_create. exists Null. split; [|by left]. close_obj.
  - run_clone Ho RefTwoDimIntArrayMsg_clone RefTwoDimIntArrayMsg_create.
    exists Null. split; [|by left]. close_obj.
  - run_clone Ho RequestMsg_clone RequestMsg_create.
    exists (Addr p (w_next w + 1) 0). split; [|by right]. close_obj.
    right. exists (w_next w + 1), 0. split; [done|]. final_mb.
  - run_clone Ho ResponseMsg_clone ResponseMsg_create.
    exists (Addr p (w_next w + 1) 0). split; [|by right]. close_obj.
    right. exists (w_next w + 1), 0. split; [done|]. final_mb.
Qed.

(** [rebinder[tid]] on a message in a queue makes it an object of the process:
    every function pointer is bound and the array pointer points after the
    struct. *)
Ltac run_rebind :=
  eexists; split; [reflexivity|];
  match goal with |- wp (?f _) _ _ _ => unfold f end;
  cbv zeta; cbn [padd]; repeat wp1; split; [close_obj | final_ext].

Lemma rebind_wp p w q a m :
  msg_ok m → ser_at w q a m → valid w q a (Z.to_nat (m_size m)) →
  ∃ f, rebinder !! Z.to_nat (tid_of (m_body m)) = Some (Some f) ∧
    wp (f (Addr p q a)) p w (λ _ w',
      obj_at w' p q a m (Addr p q (a + sizeof_of (m_body m))) ∧
      ext (range q a (sizeof_of (m_body m))) w w').
Proof.
  destruct m as [tag sz bd].
  intros (Htag & Hb & Hsz) (Hh & Hs & Hp) Hv. cbn [m_size m_body m_tag header flds fst snd] in *.
  destruct_and? Hh.
  destruct bd; cbn [sizeof_of payload body_ok scalars flds fst snd] in Hsz, Hb, Hs, Hp;
    autounfold with fields in Hsz; autorewrite with len in Hsz, Hb; cbn [length] in Hsz, Hb;
    destruct_and? Hs; cbn [sizeof_of m_body].
  - run_rebind.
  - destruct Hb. run_rebind.
  - run_rebind.
  - run_rebind. right. do 2 eexists. split; [done|]. final_mb.
  - run_rebind. right. do 2 eexists. split; [done|]. final_mb.
  - run_rebind.
  - run_rebind.
  - run_rebind. right. do 2 eexists. split; [done|]. final_mb.
  - run_rebind. right. do 2 eexists. split; [done|]. final_mb.
Qed.

(** ** Framing *)

Lemma flds_extF F w w' b o n l :
  ext F w w' → (∀ i, o <= i < o + n → ¬ F b i) →
  Forall (λ x, 0 <= f_off x.1 ∧ f_off x.1 + Z.of_nat (length x.2) <= n) l →
  flds w b o l → flds w' b o l.
Proof.
  intros He HF Hl. induction Hl as [|x l [? ?] _ IH]; [done|].
  cbn [flds]. intros [Hx Ht]. split; [|auto].
  eapply mb_extF; [done| |done]. intros i Hi. apply HF. lia.
Qed.

Lemma bound_extF F w w' p b o n l :
  ext F w w' → (∀ i, o <= i < o + n → ¬ F b i) →
  Forall (λ x, 0 <= f_off x.1 ∧ f_off x.1 + 8 <= n) l →
  bound w p b o l → bound w' p b o l.
Proof.
  intros He HF Hl. induction Hl as [|x l [? ?] _ IH]; [done|].
  cbn [bound]. intros [Hx Ht]. split; [|auto].
  eapply mb_extF; [done| |done]. intros i Hi. apply HF. autorewrite with len in Hi. lia.
Qed.

Ltac bounded := repeat constructor; cbn [fst snd]; off.

Lemma header_bounded m :
  Forall (λ x, 0 <= f_off x.1 ∧ f_off x.1 + Z.of_nat (length x.2) <= 12) (header m).
Proof. bounded. Qed.

Lemma scalars_bounded b :
  body_ok b →
  Forall (λ x, 0 <= f_off x.1 ∧ f_off x.1 + Z.of_nat (length x.2) <= sizeof_of b) (scalars b).
Proof. destruct b; cbn [scalars sizeof_of body_ok]; intros Hb; try destruct Hb; bounded. Qed.

Lemma methods_bounded b :
  Forall (λ x, 0 <= f_off x.1 ∧ f_off x.1 + 8 <= sizeof_of b) (methods_of b).
Proof. destruct b; cbn [methods_of cls_methods sizeof_of app]; bounded. Qed.

Lemma sizeof_min b : 56 <= sizeof_of b.
Proof. destruct b; cbn [sizeof_of]; autounfold with fields; lia. Qed.

Lemma ser_extF F w w' q a m :
  msg_ok m → ext F w w' → (∀ i, a <= i < a + m_size m → ¬ F q i) →
  ser_at w q a m → ser_at w' q a m.
Proof.
  intros (_ & Hb & Hsz) He HF (Hh & Hs & Hp).
  pose proof (sizeof_min (m_body m)). split; [|split].
  - eapply (flds_extF _ _ _ _ _ 12); [done| |apply header_bounded|done].
    intros i Hi. apply HF. lia.
  - eapply flds_extF; [done| |by apply scalars_bounded|done].
    intros i Hi. apply HF. lia.
  - eapply mb_extF; [done| |done]. intros i Hi. apply HF. lia.
Qed.

(** An object is left alone by what happens outside of its block and of its
    array. *)
Lemma obj_extF F w w' p b o m d :
  body_ok (m_body m) → ext F w w' → (∀ i, ¬ F b i) →
  (payload (m_body m) = [] ∨ ∀ b' i, ptr_block d = Some b' → ¬ F b' i) →
  obj_at w p b o m d → obj_at w' p b o m d.
Proof.
  intros Hb He HF HFd (Hv & Hh & Hm & Hs & Hd). unfold obj_at. split_and!.
  - by eapply valid_extF.
  - eapply flds_extF; [done|auto|apply header_bounded|done].
  - eapply bound_extF; [done|auto|apply methods_bounded|done].
  - eapply flds_extF; [done|auto|by apply scalars_bounded|done].
  - unfold data_at in *. destruct (data_field (m_body m)); [|done].
    destruct Hd as [Hd Ha]. split; [|by eapply array_at_extF].
    eapply mb_extF; [done|auto|done].
Qed.

(** Another block is freed. *)
Lemma flds_free w b o l nb : b ≠ nb → flds w b o l → flds (set_blocks (delete nb) w) b o l.
Proof. intros Hne. induction l as [|x l IH]; [done|]. cbn [flds]. intros [? ?]. split; [by apply mb_free|auto]. Qed.

Lemma bound_free w p b o l nb : b ≠ nb → bound w p b o l → bound (set_blocks (delete nb) w) p b o l.
Proof. intros Hne. induction l as [|x l IH]; [done|]. cbn [bound]. intros [? ?]. split; [by apply mb_free|auto]. Qed.

Lemma array_at_free w p d l nb : arr_sep d l nb → array_at w p d l → array_at (set_blocks (delete nb) w) p d l.
Proof.
  intros [->|Hne] Ha; [by left|]. destruct Ha as [?|(b & o & -> & Hm)]; [by left|right].
  exists b, o. split; [done|]. apply mb_free; [by intros ->|done].
Qed.

Lemma obj_free w p b o m d nb :
  b ≠ nb → arr_sep d (payload (m_body m)) nb → obj_at w p b o m d → obj_at (set_blocks (delete nb) w) p b o m d.
Proof.
  intros Hb Hd (Hv & Hh & Hm & Hs & Hx). split; [by apply valid_free|]. split; [by apply flds_free|].
  split; [by apply bound_free|]. split; [by apply flds_free|]. unfold data_at in *.
  destruct (data_field (m_body m)); [|done]. destruct Hx. split; [by apply mb_free|by apply array_at_free].
Qed.

Lemma bump_ok m :
  msg_ok m → is_s32 (m_size m + Z.of_nat (length (payload (m_body m)))) → msg_ok (bump m).
Proof.
  destruct m as [tag sz bd]. intros (Ht & Hb & Hsz) Hs.
  destruct bd; try done. unfold bump, msg_ok in *. unfold is_s32 in *.
  cbn [m_tag m_body m_size payload sizeof_of body_ok] in *. autorewrite with len in *.
  rewrite s32_small by (unfold is_s32; lia). lia.
Qed.
