(* ===== verification/Ring.v ===== *)
(** * Geometry of the circular queue

    The queue keeps variable-size records one after the other between a fixed
    header and the end of its segment.  When a record does not fit before the
    end, the tail goes back to just after the header and the position where it
    left is the rollover position.  This file is the pure part: which region a
    record is put in, the invariant of the regions, and the refinement of a
    FIFO list.  [CircularSpec] connects it to the bytes of the segment. *)

From S2P Require Import Prelude.
From stdpp Require Import base numbers list.
From Stdlib Require Import Lia.
#[local] Open Scope Z_scope.

Section ring.
Context {A : Type} (size : A → Z) (hdr cap : Z).

(** [r_ro] is -1 when the tail has not rolled over.  [r_segs]: the records,
    oldest first, with the position each one is at. *)
Record ring := Ring {
  r_head : Z; r_tail : Z; r_ro : Z; r_segs : list (Z * A)
}.

Definition contents (r : ring) : list A := snd <$> r_segs r.

Definition ring_empty : ring := Ring hdr hdr (-1) [].

(** Where a record of [n] bytes goes: its position, and the rollover
    position after.  [None]: the queue is full. *)
Definition ring_place (r : ring) (n : Z) : option (Z * Z) :=
  if r_ro r =? -1 then
    if cap <? r_tail r + n then
      if r_head r <? hdr + n then None else Some (hdr, r_tail r)
    else Some (r_tail r, -1)
  else if r_head r <? r_tail r + n then None else Some (r_tail r, r_ro r).

Definition ring_enq (r : ring) (x : A) : option ring :=
  match ring_place r (size x) with
  | None => None
  | Some (pos, ro) => Some (Ring (r_head r) (pos + size x) ro (r_segs r ++ [(pos, x)]))
  end.

(** Where the oldest record is read. *)
Definition ring_read (r : ring) : Z :=
  if r_head r =? r_ro r then hdr else r_head r.

Definition ring_deq (r : ring) : option (Z * A * ring) :=
  match r_segs r with
  | [] => None
  | (_, x) :: segs =>
      Some (ring_read r, x,
            Ring (ring_read r + size x) (r_tail r)
              (if r_head r =? r_ro r then -1 else r_ro r) segs)
  end.

(** The records lie one after the other from [from] to [to]. *)
Fixpoint chain (from : Z) (segs : list (Z * A)) (to : Z) : Prop :=
  match segs with
  | [] => from = to
  | (p, x) :: t => p = from ∧ 0 < size x ∧ chain (from + size x) t to
  end.

Definition ring_ok (r : ring) : Prop :=
  0 <= hdr <= r_head r ∧
  ((r_ro r = -1 ∧ chain (r_head r) (r_segs r) (r_tail r) ∧ r_tail r <= cap) ∨
   (∃ s1 s2, r_segs r = s1 ++ s2 ∧ chain (r_head r) s1 (r_ro r) ∧
      chain hdr s2 (r_tail r) ∧ r_tail r <= r_head r ∧ r_ro r <= cap ∧ s2 ≠ [])).

(** Two regions do not meet. *)
Definition apart (p n p' n' : Z) : Prop := p + n <= p' ∨ p' + n' <= p.

Lemma chain_le a s b : chain a s b → a <= b.
Proof.
  revert a. induction s as [|[p x] s IH]; intros a H; cbn in H; [lia|].
  destruct H as (_ & ? & H). apply IH in H. lia.
Qed.

(** No chain has more records than bytes. *)
Lemma chain_length a s b : chain a s b → Z.of_nat (length s) <= b - a.
Proof.
  revert a. induction s as [|[p x] s IH]; intros a H; cbn [chain length] in *; [lia|].
  destruct H as (_ & ? & H). apply IH in H. lia.
Qed.

Lemma ring_length r : ring_ok r → Z.of_nat (length (r_segs r)) <= cap + cap.
Proof.
  intros (Hh & [(_ & Hc & Ht)|(s1 & s2 & E & Hc1 & Hc2 & Ht & Hro & Hs2)]).
  - apply chain_length in Hc. lia.
  - rewrite E, length_app. pose proof (chain_le _ _ _ Hc1).
    apply chain_length in Hc1, Hc2. lia.
Qed.

Lemma chain_app a s1 s2 b :
  chain a (s1 ++ s2) b ↔ ∃ m, chain a s1 m ∧ chain m s2 b.
Proof.
  revert a. induction s1 as [|[p x] s1 IH]; intros a; cbn.
  - split; [eauto|]. by intros (m & -> & ?).
  - rewrite IH. split; [intros (? & ? & m & ? & ?)|intros (m & (? & ? & ?) & ?)]; eauto 10.
Qed.

Lemma chain_snoc a s b x :
  0 < size x → chain a s b → chain a (s ++ [(b, x)]) (b + size x).
Proof. intros Hx Hc. apply chain_app. exists b. split; [done|]. by cbn. Qed.

(** Every record of a chain lies between its ends. *)
Lemma chain_in a s b p x :
  chain a s b → (p, x) ∈ s → a <= p ∧ 0 < size x ∧ p + size x <= b.
Proof.
  revert a. induction s as [|[q y] s IH]; intros a Hc Hin; [by apply not_elem_of_nil in Hin|].
  cbn in Hc. destruct Hc as (-> & Hy & Hc).
  apply elem_of_cons in Hin as [[= -> ->]|Hin].
  - apply chain_le in Hc. lia.
  - destruct (IH _ Hc Hin). lia.
Qed.

Lemma ring_empty_ok : 0 <= hdr <= cap → ring_ok ring_empty.
Proof. intros ?. split; [cbn; lia|]. left. cbn. lia. Qed.

(** Every record is between the header and the end of the segment. *)
Lemma ring_in_bounds r p x :
  ring_ok r → (p, x) ∈ r_segs r → hdr <= p ∧ 0 < size x ∧ p + size x <= cap.
Proof.
  intros (Hh & [(_ & Hc & Ht)|(s1 & s2 & E & Hc1 & Hc2 & Ht & Hro & Hs2)]) Hin.
  - pose proof (chain_in _ _ _ _ _ Hc Hin). lia.
  - rewrite E in Hin. pose proof (chain_le _ _ _ Hc1).
    apply elem_of_app in Hin as [Hin|Hin].
    + pose proof (chain_in _ _ _ _ _ Hc1 Hin). lia.
    + pose proof (chain_in _ _ _ _ _ Hc2 Hin). lia.
Qed.

Lemma ring_head_tail r :
  ring_ok r → hdr <= r_head r <= cap ∧ hdr <= r_tail r <= cap ∧
              (r_ro r = -1 ∨ hdr <= r_ro r <= cap).
Proof.
  intros (Hh & [(E & Hc & Ht)|(s1 & s2 & E & Hc1 & Hc2 & Ht & Hro & Hs2)]).
  - apply chain_le in Hc. lia.
  - apply chain_le in Hc1, Hc2. lia.
Qed.

(** A new record is put inside the segment, apart from every record that is
    there. *)
Lemma ring_place_apart r n pos ro p x :
  ring_ok r → 0 < n → ring_place r n = Some (pos, ro) → (p, x) ∈ r_segs r →
  apart pos n p (size x).
Proof.
  intros (Hh & [(E & Hc & Ht)|(s1 & s2 & E & Hc1 & Hc2 & Ht & Hro & Hs2)]) Hn Hp Hin;
    unfold ring_place in Hp; unfold apart.
  - rewrite E in Hp. pose proof (chain_in _ _ _ _ _ Hc Hin).
    cbn in Hp. repeat case_match; simplify_eq; lia.
  - pose proof (chain_le _ _ _ Hc1). pose proof (chain_le _ _ _ Hc2).
    rewrite E in Hin. destruct (Z.eqb_spec (r_ro r) (-1)); [lia|].
    destruct (Z.ltb_spec (r_head r) (r_tail r + n)); [done|]. simplify_eq.
    apply elem_of_app in Hin as [Hin|Hin].
    + pose proof (chain_in _ _ _ _ _ Hc1 Hin). lia.
    + pose proof (chain_in _ _ _ _ _ Hc2 Hin). lia.
Qed.

Lemma ring_place_bounds r n pos ro :
  ring_ok r → 0 < n → ring_place r n = Some (pos, ro) → hdr <= pos ∧ pos + n <= cap.
Proof.
  intros Hok Hn Hp. pose proof (ring_head_tail _ Hok). unfold ring_place in Hp.
  repeat case_match; simplify_eq; lia.
Qed.

Lemma ring_enq_ok r x r' :
  ring_ok r → 0 < size x → ring_enq r x = Some r' → ring_ok r'.
Proof.
  intros Hok Hx He. pose proof Hok as (Hh & Hcase). unfold ring_enq in He.
  destruct (ring_place r (size x)) as [[pos ro]|] eqn:Hp; [|done]. simplify_eq.
  split; [done|]. unfold ring_place in Hp. cbn.
  destruct Hcase as [(E & Hc & Ht)|(s1 & s2 & E & Hc1 & Hc2 & Ht & Hro & Hs2)].
  - rewrite E in Hp. cbn in Hp.
    destruct (Z.ltb_spec cap (r_tail r + size x)).
    + destruct (Z.ltb_spec (r_head r) (hdr + size x)); [done|]. simplify_eq.
      right. exists (r_segs r), [(hdr, x)]. split_and!; try done; lia.
    + simplify_eq. left. split_and!; [done|by apply chain_snoc|lia].
  - destruct (Z.eqb_spec (r_ro r) (-1)).
    { apply chain_le in Hc1. lia. }
    destruct (Z.ltb_spec (r_head r) (r_tail r + size x)); [done|]. simplify_eq.
    right. exists s1, (s2 ++ [(r_tail r, x)]). rewrite E, app_assoc.
    split_and!; try done; try lia; [by apply chain_snoc|by destruct s2].
Qed.

Lemma ring_enq_contents r x r' :
  ring_enq r x = Some r' → contents r' = contents r ++ [x].
Proof.
  unfold ring_enq, contents. intros H. repeat case_match; simplify_eq.
  cbn. by rewrite fmap_app.
Qed.

(** The oldest record is where it is read. *)
Lemma ring_read_head r p x segs :
  ring_ok r → r_segs r = (p, x) :: segs → ring_read r = p.
Proof.
  intros (Hh & [(E & Hc & Ht)|(s1 & s2 & E & Hc1 & Hc2 & Ht & Hro & Hs2)]) Hs; unfold ring_read.
  - rewrite Hs in Hc. destruct (Z.eqb_spec (r_head r) (r_ro r)); [lia|]. by destruct Hc.
  - rewrite Hs in E. destruct s1 as [|[p1 x1] s1]; cbn in E.
    + cbn in Hc1. rewrite Hc1, Z.eqb_refl. rewrite <- E in Hc2. by destruct Hc2.
    + injection E as <- <- _. destruct Hc1 as (-> & ? & Hc1). apply chain_le in Hc1.
      destruct (Z.eqb_spec (r_head r) (r_ro r)); [lia|done].
Qed.

Lemma ring_deq_ok r p x r' :
  ring_ok r → ring_deq r = Some (p, x, r') →
  ring_ok r' ∧ r_segs r = (p, x) :: r_segs r'.
Proof.
  intros Hok Hd. unfold ring_deq in Hd.
  destruct (r_segs r) as [|[p0 x0] segs] eqn:Hs; [done|]. simplify_eq.
  pose proof (ring_read_head _ _ _ _ Hok Hs) as Hr. cbn [r_segs]. split; [|by rewrite Hr].
  unfold ring_read in *.
  destruct Hok as (Hh & [(E & Hc & Ht)|(s1 & s2 & E & Hc1 & Hc2 & Ht & Hro & Hs2)]);
    unfold ring_ok; cbn.
  - rewrite Hs in Hc. destruct Hc as (-> & Hx & Hc). rewrite E.
    destruct (Z.eqb_spec (r_head r) (-1)); [lia|].
    split; [lia|]. left. done.
  - rewrite Hs in E. destruct s1 as [|[p1 x1] s1]; cbn in E.
    + cbn in Hc1. rewrite Hc1, Z.eqb_refl. rewrite <- E in Hc2. destruct Hc2 as (-> & ? & Hc2).
      split; [lia|]. left. split_and!; [done|done|]. lia.
    + injection E as -> -> ->. destruct Hc1 as (-> & ? & Hc1). pose proof (chain_le _ _ _ Hc1).
      destruct (Z.eqb_spec (r_head r) (r_ro r)); [lia|].
      split; [lia|]. right. exists s1, s2. split_and!; try done; lia.
Qed.

Lemma ring_deq_contents r p x r' :
  ring_deq r = Some (p, x, r') → contents r = x :: contents r'.
Proof.
  unfold ring_deq, contents. destruct (r_segs r) as [|[p0 x0] segs]; intros [=]. by subst.
Qed.

(** The oldest record is apart from the others. *)
Lemma ring_head_apart r p x segs p' x' :
  ring_ok r → r_segs r = (p, x) :: segs → (p', x') ∈ segs →
  apart p (size x) p' (size x').
Proof.
  intros (Hh & [(E & Hc & Ht)|(s1 & s2 & E & Hc1 & Hc2 & Ht & Hro & Hs2)]) Hs Hin; unfold apart.
  - rewrite Hs in Hc. destruct Hc as (-> & ? & Hc).
    pose proof (chain_in _ _ _ _ _ Hc Hin). lia.
  - rewrite Hs in E. destruct s1 as [|[p1 x1] s1]; cbn in E.
    + rewrite <- E in Hc2. destruct Hc2 as (-> & ? & Hc2).
      pose proof (chain_in _ _ _ _ _ Hc2 Hin). lia.
    + injection E as -> -> ->. destruct Hc1 as (-> & ? & Hc1).
      pose proof (chain_le _ _ _ Hc1). apply elem_of_app in Hin as [Hin|Hin].
      * pose proof (chain_in _ _ _ _ _ Hc1 Hin). lia.
      * pose proof (chain_in _ _ _ _ _ Hc2 Hin). lia.
Qed.

(** Room is found whenever the record fits after the tail, or, with the tail
    not rolled over, before the head. *)
Lemma ring_place_None r n :
  ring_place r n = None ↔
    (r_ro r = -1 ∧ cap < r_tail r + n ∧ r_head r < hdr + n) ∨
    (r_ro r ≠ -1 ∧ r_head r < r_tail r + n).
Proof.
  unfold ring_place. zbool; split; intros Hx; try done; lia.
Qed.
End ring.

Arguments ring : clear implicits.
Arguments Ring {A}.
