(* ===== verification/CircularMsgQ.v ===== *)
(** * CircularMsgQ

    [src/MsgQueue/CircularMsgQ.c]: the message queue of a task, a circular
    array of messages in a shared memory segment, with its header [struct
    Queue] at offset 0. *)

From S2P Require Import Prelude CMem Messages.
From stdpp Require Import base numbers list strings gmap.
#[local] Open Scope Z_scope.
#[local] Open Scope ts_scope.

Definition Q_SIZE : Z := 1000000.

Definition Queue_struct : struct_decl :=
  [("QLock", COpaque 40 8); ("head", CUInt); ("tail", CUInt); ("size", CUInt);
   ("rollover_position", CInt)]%string.

Definition sizeof_Queue := Eval vm_compute in struct_size Queue_struct.
Definition Queue_QLock := Eval vm_compute in member Queue_struct "QLock".
Definition Queue_head := Eval vm_compute in member Queue_struct "head".
Definition Queue_tail := Eval vm_compute in member Queue_struct "tail".
Definition Queue_size := Eval vm_compute in member Queue_struct "size".
Definition Queue_rollover_position :=
  Eval vm_compute in member Queue_struct "rollover_position".

Definition CreateQueue (unique_name : string) : M ptr :=
  addr <- shm_create unique_name Q_SIZE;;
  let Q := addr in
  set_int Q Queue_size 0;;;
  set_int Q Queue_head sizeof_Queue;;;
  set_int Q Queue_tail sizeof_Queue;;;
  set_int Q Queue_rollover_position (-1);;;
  mutex_init (addr_of Q Queue_QLock);;;
  ret Q.

Definition AcquireQueue (unique_name : string) : M ptr :=
  addr <- shm_acquire unique_name;;
  if decide (addr = Null) then
    printf "ERROR; Error acquire Q for task %d " [];;;
    ret Null
  else ret addr.

Definition DeleteQueue (unique_name : string) : M unit := shm_unlink unique_name.

Definition IsEmpty_not_safe (Q : ptr) : M Z :=
  if decide (Q = Null) then ret 0
  else (size <- get_uint Q Queue_size;; ret (if size =? 0 then 1 else 0)).

Definition IsEmpty (Q : ptr) : M Z :=
  if decide (Q = Null) then ret 0
  else (
    mutex_lock (addr_of Q Queue_QLock);;;
    size <- get_uint Q Queue_size;;
    let toret := if size =? 0 then 1 else 0 in
    mutex_unlock (addr_of Q Queue_QLock);;;
    ret toret).

(** The lock is taken before [Q] is compared with NULL. *)
Definition Peek (Q : ptr) : M ptr :=
  mutex_lock (addr_of Q Queue_QLock);;;
  toret <- (if decide (Q = Null) then ret Null else (
    empty <- IsEmpty_not_safe Q;;
    if empty =? 0 then (
      head <- get_uint Q Queue_head;;
      rollover_position <- get_int Q Queue_rollover_position;;
      let read_pos :=
        if head =? u32 rollover_position then sizeof_Queue else s32 head in
      ret (padd Q read_pos))
    else ret Null));;
  mutex_unlock (addr_of Q Queue_QLock);;;
  ret toret.

(** The part of [Enqueue] after the room was found. *)
Definition Enqueue_write (Q item : ptr) (future_tail has_to_rollover : Z) : M Z :=
  msg_size <- get_int item Message_msg_size;;
  size <- call_writeAt item (padd Q (future_tail - msg_size));;
  set_int Q Queue_tail future_tail;;;
  (if 0 <? has_to_rollover then set_int Q Queue_rollover_position has_to_rollover
   else ret tt);;;
  qsize <- get_uint Q Queue_size;;
  set_int Q Queue_size (qsize + 1);;;
  mutex_unlock (addr_of Q Queue_QLock);;;
  ret 1.

Definition Enqueue_full (Q : ptr) : M Z :=
  printf "Circular array full" [];;;
  mutex_unlock (addr_of Q Queue_QLock);;;
  ret 0.

Definition Enqueue (Q item : ptr) : M Z :=
  if decide (Q ≠ Null ∧ item ≠ Null) then (
    mutex_lock (addr_of Q Queue_QLock);;;
    tail <- get_uint Q Queue_tail;;
    msg_size <- get_int item Message_msg_size;;
    rollover_position <- get_int Q Queue_rollover_position;;
    head <- get_uint Q Queue_head;;
    let future_tail := s32 (u32 (tail + msg_size)) in
    if rollover_position =? -1 then
      if Q_SIZE <? future_tail then
        let future_tail := s32 (sizeof_Queue + msg_size) in
        let has_to_rollover := s32 tail in
        if negb (has_to_rollover =? -1) && (head <? u32 future_tail)
        then Enqueue_full Q
        else Enqueue_write Q item future_tail has_to_rollover
      else Enqueue_write Q item future_tail (-1)
    else
      if head <? u32 future_tail then Enqueue_full Q
      else Enqueue_write Q item future_tail (-1))
  else ret 0.

(** The message stays in the segment: the caller gets its address there. *)
Definition Dequeue (Q : ptr) : M ptr :=
  mutex_lock (addr_of Q Queue_QLock);;;
  toret <- (if decide (Q = Null) then ret Null else (
    empty <- IsEmpty_not_safe Q;;
    if empty =? 0 then (
      head <- get_uint Q Queue_head;;
      rollover_position <- get_int Q Queue_rollover_position;;
      read_pos <- (if head =? u32 rollover_position
                   then (set_int Q Queue_rollover_position (-1);;; ret sizeof_Queue)
                   else ret (s32 head));;
      let message_part := padd Q read_pos in
      msg_size <- get_int message_part Message_msg_size;;
      set_int Q Queue_head (read_pos + msg_size);;;
      size <- get_uint Q Queue_size;;
      set_int Q Queue_size (size - 1);;;
      tid <- get_int message_part Message_tid;;
      if decide (0 <= tid) then
        match rebinder !! Z.to_nat tid with
        | Some (Some rebind) => rebind message_part;;; ret message_part
        | Some None => printf "Q error : No mapping" [];;; ret Null
        | None => fault
        end
      else fault)
    else ret Null));;
  mutex_unlock (addr_of Q Queue_QLock);;;
  ret toret.

#[export] Hint Unfold Queue_QLock Queue_head Queue_tail Queue_size
  Queue_rollover_position sizeof_Queue : fields.
