(* ===== verification/CircularSpec.v ===== *)
(** * The circular queue implements a bounded FIFO of messages

    [q_inv w q r]: block [q] holds a queue whose regions are those of the ring
    [r] and every region holds the bytes of its message. *)

From S2P Require Import Prelude CMem CLogic Messages MessageSpec Ring CircularMsgQ.
From stdpp Require Import base numbers list strings gmap.
From Stdlib Require Import Lia.
#[local] Open Scope Z_scope.
#[local] Open Scope ts_scope.

Abbreviation mring := (ring msg).
Abbreviation mring_ok := (ring_ok m_size sizeof_Queue Q_SIZE).
Abbreviation mring_enq := (ring_enq m_size sizeof_Queue Q_SIZE).
Abbreviation mring_place := (@ring_place msg sizeof_Queue Q_SIZE).
Abbreviation mring_deq := (ring_deq m_size sizeof_Queue).

Definition q_header (w : world) (q : Z) (r : mring) : Prop :=
  mb w q (0 + f_off Queue_head) (enc_i32 (r_head r)) ∧
  mb w q (0 + f_off Queue_tail) (enc_i32 (r_tail r)) ∧
  mb w q (0 + f_off Queue_size) (enc_i32 (Z.of_nat (length (r_segs r)))) ∧
  mb w q (0 + f_off Queue_rollover_position) (enc_i32 (r_ro r)).

Definition q_inv (w : world) (q : Z) (r : mring) : Prop :=
  valid w q 0 (Z.to_nat Q_SIZE) ∧ q_header w q r ∧ mring_ok r ∧
  Forall (λ x, msg_ok x.2) (r_segs r) ∧ Forall (λ x, ser_at w q x.1 x.2) (r_segs r).

(** An empty queue. *)
Lemma q_inv_empty w q :
  valid w q 0 (Z.to_nat Q_SIZE) → q_header w q (ring_empty sizeof_Queue) → q_inv w q (ring_empty sizeof_Queue).
Proof.
  intros Hv Hh. split; [done|]. split; [done|]. split; [apply ring_empty_ok; unfold Q_SIZE, sizeof_Queue; lia|].
  split; constructor.
Qed.

(** The queue is not locked. *)
Definition unlocked (w : world) (q : Z) : Prop := (q, 0) ∉ w_locks w.

(** What [Enqueue] of the object at [b], [o] may change. *)
Definition enq_foot (q b o : Z) (m : msg) : Z → Z → Prop := λ b' i,
  b' = q ∨ (is_topo (m_body m) ∧ range b (o + f_off Message_msg_size) 4 b' i).

(** ** Locking *)

Definition locked (q : Z) (w : world) : world := set_locks (λ l, {[(q, 0)]} ∪ l) w.
Definition released (q : Z) (w : world) : world := set_locks (λ l, l ∖ {[(q, 0)]}) w.

Lemma ext_locked F q w w' :
  unlocked w q → ext F (locked q w) w' → ext F w (released q w').
Proof.
  intros Hu (Hf & He & Hn & Ho). split_and!; [done| |done|done].
  unfold env, unlocked in *. cbn in He |- *. injection He as E1 E2 E3 E4 E5 E6 E7 E8.
  assert (w_locks w' ∖ {[(q, 0)]} = w_locks w) as -> by (rewrite E1; set_solver).
  congruence.
Qed.

Lemma q_inv_blocks w w' q r : w_blocks w' = w_blocks w → q_inv w q r → q_inv w' q r.
Proof.
  intros E (Hv & (H1 & H2 & H3 & H4) & Hok & Hm & Hs).
  assert (∀ b o l, mb w b o l → mb w' b o l) as Hmb by (intros b o l; by apply mb_same_blocks).
  unfold q_inv, q_header. split_and!; auto; [by eapply valid_same_blocks|].
  eapply Forall_impl; [exact Hs|]. intros [a m]. cbn. intros (Hh & Hsc & Hp).
  assert (∀ l, flds w q a l → flds w' q a l) as Hfl.
  { intros l. induction l as [|x l IH]; [done|]. cbn. intros [? ?]. auto. }
  unfold ser_at. auto.
Qed.

Lemma ext_blocks F w w' : w_blocks w' = w_blocks w → env w' = env w →
  w_next w' = w_next w → ext F w w'.
Proof.
  intros Eb Ee En. split_and!; [|done|lia|].
  - intros b k Hk. exists k. by rewrite Eb.
  - unfold wok. by rewrite En, Eb.
Qed.

Lemma frame_obj w w' p b o m d :
  w_blocks w' = w_blocks w → obj_at w p b o m d → obj_at w' p b o m d.
Proof.
  intros E (Hv & Hh & Hm & Hs & Hd).
  assert (∀ l, flds w b o l → flds w' b o l) as Hfl.
  { intros l. induction l as [|x l IH]; [done|]. cbn. intros [? ?].
    split; [|auto]. by eapply mb_same_blocks. }
  assert (∀ l, bound w p b o l → bound w' p b o l) as Hbl.
  { intros l. induction l as [|x l IH]; [done|]. cbn. intros [? ?].
    split; [|auto]. by eapply mb_same_blocks. }
  unfold obj_at. split_and!; auto; [by eapply valid_same_blocks|].
  unfold data_at in *. destruct (data_field (m_body m)); [|done].
  destruct Hd as [Hd Ha]. split; [by eapply mb_same_blocks|].
  destruct Ha as [->|(bd & od & -> & Ha)]; [by left|right].
  do 2 eexists. split; [done|]. by eapply mb_same_blocks.
Qed.

Lemma q_inv_extF F w w' q r :
  ext F w w' → (∀ i, ¬ F q i) → q_inv w q r → q_inv w' q r.
Proof.
  intros He HF (Hv & (Hh & Ht & Hs & Hro) & Hok & Hm & Hser).
  unfold q_inv, q_header. split_and!; try done.
  1: by eapply valid_extF.
  1-4: by (eapply mb_extF; [done|auto|done]).
  apply Forall_forall. intros x Hx. rewrite Forall_forall in Hm, Hser.
  eapply ser_extF; [by apply Hm|done|auto|by apply Hser].
Qed.

(** ** Enqueue *)

Lemma q_header_bounds w q r : q_inv w q r →
  56 <= r_head r <= Q_SIZE ∧ 56 <= r_tail r <= Q_SIZE ∧
  (r_ro r = -1 ∨ 56 <= r_ro r <= Q_SIZE) ∧ Z.of_nat (length (r_segs r)) <= 2 * Q_SIZE.
Proof.
  intros (_ & _ & Hok & _). pose proof (ring_head_tail _ _ _ _ Hok).
  pose proof (ring_length _ _ _ _ Hok). unfold sizeof_Queue in *. lia.
Qed.

Definition seg_ok (w : world) (q : Z) (x : Z * msg) : Prop :=
  msg_ok x.2 ∧ ser_at w q x.1 x.2.

Lemma q_segs w q r p m :
  q_inv w q r → (p, m) ∈ r_segs r →
  msg_ok m ∧ ser_at w q p m ∧ 56 <= p ∧ 0 < m_size m ∧ p + m_size m <= Q_SIZE.
Proof.
  intros (_ & _ & Hok & Hm & Hs) Hin. rewrite Forall_forall in Hm, Hs.
  pose proof (ring_in_bounds _ _ _ _ _ _ Hok Hin).
  split; [by apply (Hm _ Hin)|]. split; [by apply (Hs _ Hin)|done].
Qed.

Lemma msg_size_min m : msg_ok m → 56 <= m_size m < 2147483648.
Proof. intros (_ & _ & H). pose proof (sizeof_min (m_body m)). lia. Qed.

Lemma bump_body m : m_body (bump m) = m_body m.
Proof. unfold bump. destruct (m_body m) eqn:E; first [done | congruence]. Qed.

(** All records of the ring are in the segment, after the header. *)
Definition segs_at (w : world) (q : Z) (segs : list (Z * msg)) : Prop :=
  Forall (λ x, msg_ok x.2 ∧ ser_at w q x.1 x.2 ∧ 56 <= x.1) segs.

Lemma q_segs_at w q r : q_inv w q r → segs_at w q (r_segs r).
Proof.
  intros Hq. apply Forall_forall. intros [p m] Hin. by destruct (q_segs _ _ _ _ _ Hq Hin) as (? & ? & ? & _).
Qed.

(** Records stay where only the header is written. *)
Lemma segs_header w w' q segs : ext (range q 0 56) w w' → segs_at w q segs → segs_at w' q segs.
Proof.
  intros He Hs. eapply Forall_impl; [exact Hs|]. intros [p m] (Hm & Hser & Hp). split; [done|]. split; [|done].
  cbn [fst snd] in *. eapply ser_extF; [done|exact He| |done]. intros i Hi [_ ?]. lia.
Qed.

(** After [writeAt] the new record is there, and the old ones are as before. *)
Lemma segs_written w w' q b o m r pos ro :
  q_inv w q r → msg_ok m → b ≠ q → mring_place r (m_size m) = Some (pos, ro) →
  ext (write_foot q pos b o m) w w' → ser_at w' q pos m → segs_at w' q (r_segs r ++ [(pos, m)]).
Proof.
  intros Hq Hm Hne Hp He Hser. pose proof Hq as (_ & _ & Hok & _). pose proof (msg_size_min _ Hm) as Hsz.
  assert (0 < m_size m) as Hsz0 by lia. pose proof (ring_place_bounds _ _ _ _ _ _ _ Hok Hsz0 Hp) as Hpos.
  change sizeof_Queue with 56 in Hpos. apply Forall_app. split; [|apply Forall_singleton; cbn [fst snd]; split; [done|]; split; [done|lia]].
  apply Forall_forall. intros [p' m'] Hin. destruct (q_segs _ _ _ _ _ Hq Hin) as (Hm' & Hser' & Hp' & _).
  split; [done|]. split; [|done]. cbn [fst snd].
  eapply ser_extF; [done|exact He| |done]. intros i Hi [[_ ?]|[_ [? _]]]; [|congruence].
  pose proof (ring_place_apart _ _ _ _ _ _ _ _ _ Hok Hsz0 Hp Hin) as Hap. unfold apart in Hap. lia.
Qed.

(** The header is updated: the queue holds one message more. *)
Lemma enq_done w w2 w3 p q b o m d r pos ro :
  q_inv w q r → msg_ok m → b ≠ q → arr_sep d (payload (m_body m)) q →
  mring_place r (m_size m) = Some (pos, ro) →
  ext (write_foot q pos b o m) w w2 → segs_at w2 q (r_segs r ++ [(pos, m)]) → obj_at w2 p b o (bump m) d →
  ext (range q 0 56) w2 w3 → q_header w3 q (Ring (r_head r) (pos + m_size m) ro (r_segs r ++ [(pos, m)])) →
  q_inv w3 q (Ring (r_head r) (pos + m_size m) ro (r_segs r ++ [(pos, m)])) ∧
  obj_at w3 p b o (bump m) d ∧ ext (enq_foot q b o m) w w3.
Proof.
  intros (Hv & _ & Hok & _) Hm Hne Hd Hp He2 Hsegs Ho2 He3 Hh3. pose proof (msg_size_min _ Hm) as Hsz. split; [|split].
  - apply (segs_header _ _ _ _ He3) in Hsegs.
    split; [by do 2 (eapply valid_extF; [done|])|]. split; [done|]. split.
    { eapply ring_enq_ok; [exact Hok| |unfold ring_enq; by rewrite Hp]. lia. }
    split; (eapply Forall_impl; [exact Hsegs|]); naive_solver.
  - eapply obj_extF; [|exact He3| | |exact Ho2].
    + rewrite bump_body. apply Hm.
    + intros i [? _]. congruence.
    + rewrite bump_body. destruct Hd as [Hd|Hd]; [by left|right]. intros b' i Hb' [-> _]. congruence.
  - eapply ext_trans; (eapply ext_weaken; [|done]).
    + intros b' k i _. unfold write_foot, enq_foot, range. tauto.
    + intros b' k i _ [-> _]. by left.
Qed.

Lemma Enqueue_write_wp p w q b o m d r pos ro htr :
  q_inv w q r → obj_at w p b o m d → msg_ok m → b ≠ q →
  arr_sep d (payload (m_body m)) q → arr_sep d (payload (m_body m)) b →
  mring_place r (m_size m) = Some (pos, ro) →
  (htr <= 0 ∧ ro = r_ro r ∨ 0 < htr ∧ ro = htr) →
  wp (Enqueue_write (Addr p q 0) (Addr p b o) (pos + m_size m) htr) p w (λ a w',
    a = 1 ∧ ∃ w2, w' = released q w2 ∧
      q_inv w2 q (Ring (r_head r) (pos + m_size m) ro (r_segs r ++ [(pos, m)])) ∧
      obj_at w2 p b o (bump m) d ∧ ext (enq_foot q b o m) w w2).
Proof.
  intros Hq Ho Hmok Hne Hd Hd' Hp Hhtr.
  pose proof (q_header_bounds _ _ _ Hq) as (Hb1 & Hb2 & Hb3 & Hb4).
  pose proof (msg_size_min _ Hmok) as Hsz. pose proof Hq as (Hv & Hh & Hok & _).
  assert (0 < m_size m) as Hsz0 by lia.
  pose proof (ring_place_bounds _ _ _ _ _ _ _ Hok Hsz0 Hp) as Hpos.
  change sizeof_Queue with 56 in Hpos. unfold Q_SIZE in *.
  pose proof Ho as (_ & (_ & _ & Hosz & _) & _). cbn [fst snd] in Hosz.
  unfold Enqueue_write. apply wp_bind. eapply wp_get_int; [exact Hosz|].
  rewrite s32_small by (unfold is_s32; lia).
  apply wp_bind. cbn [padd]. replace (0 + (pos + m_size m - m_size m)) with pos by lia.
  eapply wp_mono; [apply writeAt_wp; try done; eapply valid_le; [exact Hv|lia|lia]|]. cbv beta.
  intros rv w2 (Hser & Ho2 & He2). pose proof (segs_written _ _ _ _ _ _ _ _ _ Hq Hmok Hne Hp He2 Hser) as Hsegs.
  assert (∀ o' l, 0 <= o' → o' + Z.of_nat (length l) <= 56 → mb w q o' l → mb w2 q o' l) as Hhd.
  { intros o' l H0 Hl. eapply mb_extF; [exact He2|]. intros i Hi [[_ ?]|[_ [? _]]]; [lia|congruence]. }
  destruct Hh as (Hh1 & Hh2 & Hh3 & Hh4). apply Hhd in Hh1, Hh2, Hh3, Hh4; try off.
  assert (valid w2 q 0 (Z.to_nat 1000000)) as Hv2 by (by eapply valid_extF).
  apply wp_bind. eapply wp_set_int; [find_valid|].
  apply wp_bind. apply (wp_mono _ _ _ (λ _ w3, ext (range q 0 56) w2 w3 ∧
    mb w3 q (0 + f_off Queue_head) (enc_i32 (r_head r)) ∧
    mb w3 q (0 + f_off Queue_tail) (enc_i32 (pos + m_size m)) ∧
    mb w3 q (0 + f_off Queue_size) (enc_i32 (Z.of_nat (length (r_segs r)))) ∧
    mb w3 q (0 + f_off Queue_rollover_position) (enc_i32 ro))).
  { destruct (Z.ltb_spec 0 htr); [eapply wp_set_int; [find_valid|]|apply wp_ret];
      (destruct Hhtr as [[? ->]|[? ->]]; try lia); (split; [final_ext|]); split_and!; final_mb. }
  intros u w3 (He3 & H1 & H2 & H3 & H4).
  assert (valid w3 q 0 (Z.to_nat 1000000)) as Hv3 by (by eapply valid_extF).
  apply wp_bind. eapply wp_get_uint; [exact H3|]. apply wp_bind. eapply wp_set_int; [find_valid|].
  apply wp_bind. eapply wp_mutex_unlock; [find_valid|]. apply wp_ret. split; [done|].
  eexists. split; [reflexivity|]. eapply (enq_done w w2); try done.
  - eapply ext_upd; [in_range|done].
  - unfold q_header. cbn [r_head r_tail r_ro r_segs]. split_and!; try by final_mb.
    rewrite length_app, Nat2Z.inj_add. cbn [length].
    rewrite u32_small by (unfold is_u32; lia). apply mb_upd_same. find_valid.
Qed.

Lemma released_locked q w : unlocked w q → released q (locked q w) = w.
Proof.
  unfold unlocked, released, locked, set_locks. destruct w. cbn. intros Hu. f_equal. set_solver.
Qed.

Lemma unlocked_ext F w w' q : ext F w w' → unlocked w q → unlocked w' q.
Proof.
  intros (_ & He & _). unfold unlocked. unfold env in He. by injection He as -> _ _ _ _ _ _ _.
Qed.

Lemma Enqueue_full_wp p w q :
  valid w q 0 1 → unlocked w q →
  wp (Enqueue_full (Addr p q 0)) p (locked q w) (λ a w',
    a = 0 ∧ w' = add_out ("Circular array full"%string, []) w).
Proof.
  intros Hv Hu. unfold Enqueue_full. apply wp_bind.
  change (wp (printf "Circular array full" []) p (locked q w)) with
    (wp (modify (add_out ("Circular array full"%string, []))) p (locked q w)).
  apply wp_bind. eapply wp_mutex_unlock.
  { by apply (valid_same_blocks w). }
  apply wp_ret. split; [done|].
  rewrite <- (released_locked q w Hu) at 2. done.
Qed.

(** [Enqueue] follows the ring: it puts the message in, or says that the queue
    is full and changes nothing. *)
Lemma Enqueue_wp p w q b o m d r :
  q_inv w q r → unlocked w q → obj_at w p b o m d → msg_ok m → b ≠ q →
  arr_sep d (payload (m_body m)) q → arr_sep d (payload (m_body m)) b →
  m_size m + Q_SIZE < 2147483648 →
  wp (Enqueue (Addr p q 0) (Addr p b o)) p w (λ a w',
    match mring_enq r m with
    | Some r' => a = 1 ∧ q_inv w' q r' ∧ obj_at w' p b o (bump m) d ∧
                 ext (enq_foot q b o m) w w'
    | None => a = 0 ∧ w' = add_out ("Circular array full"%string, []) w
    end).
Proof.
  intros Hq Hu Ho Hmok Hne Hd Hd' Hlim.
  pose proof (q_header_bounds _ _ _ Hq) as (Hb1 & Hb2 & Hb3 & Hb4).
  pose proof (msg_size_min _ Hmok) as Hsz. unfold Q_SIZE in Hlim, Hb1, Hb2, Hb3.
  assert (valid w q 0 1) as Hv1.
  { destruct Hq as [Hv _]. unfold Q_SIZE in Hv. eapply valid_le; [exact Hv|lia|lia]. }
  unfold Enqueue. rewrite decide_True by done.
  apply wp_bind. eapply wp_mutex_lock; [done|done|]. fold (locked q w).
  assert (q_inv (locked q w) q r) as Hql by (by apply (q_inv_blocks w)).
  assert (obj_at (locked q w) p b o m d) as Hol by (by apply (frame_obj w)).
  pose proof Hql as (_ & (Hh & Ht & Hs & Hro) & _).
  pose proof Hol as (_ & (_ & _ & Hms & _) & _). cbn [header flds fst snd] in Hms.
  apply wp_bind. eapply wp_get_uint; [exact Ht|]. rewrite u32_small by (unfold is_u32; lia).
  apply wp_bind. eapply wp_get_int; [exact Hms|]. rewrite (s32_small (m_size m)) by (unfold is_s32; lia).
  apply wp_bind. eapply wp_get_int; [exact Hro|]. rewrite (s32_small (r_ro r)) by (unfold is_s32; lia).
  apply wp_bind. eapply wp_get_uint; [exact Hh|]. rewrite (u32_small (r_head r)) by (unfold is_u32; lia).
  cbv zeta. change sizeof_Queue with 56.
  rewrite (u32_small (r_tail r + m_size m)) by (unfold is_u32; lia).
  rewrite !(s32_small (r_tail r + _)), (s32_small (56 + _)), (s32_small (r_tail r))
    by (unfold is_s32; lia).
  rewrite (u32_small (r_tail r + m_size m)), (u32_small (56 + m_size m)) by (unfold is_u32; lia).
  assert (∀ pos ro htr, mring_place r (m_size m) = Some (pos, ro) →
    (htr <= 0 ∧ ro = r_ro r ∨ 0 < htr ∧ ro = htr) →
    wp (Enqueue_write (Addr p q 0) (Addr p b o) (pos + m_size m) htr) p (locked q w) (λ a w',
    match mring_enq r m with
    | Some r' => a = 1 ∧ q_inv w' q r' ∧ obj_at w' p b o (bump m) d ∧
                 ext (enq_foot q b o m) w w'
    | None => a = 0 ∧ w' = add_out ("Circular array full"%string, []) w
    end)) as Hwrite.
  { intros pos ro htr Hp Hhtr. unfold ring_enq. rewrite Hp.
    eapply wp_mono; [by eapply Enqueue_write_wp|]. cbv beta.
    intros a w' (-> & w2 & -> & Hq2 & Ho2 & He2). split; [done|].
    split; [by apply (q_inv_blocks w2)|]. split; [by apply (frame_obj w2)|]. by apply ext_locked. }
  assert (mring_place r (m_size m) = None →
    wp (Enqueue_full (Addr p q 0)) p (locked q w) (λ a w',
    match mring_enq r m with
    | Some r' => a = 1 ∧ q_inv w' q r' ∧ obj_at w' p b o (bump m) d ∧
                 ext (enq_foot q b o m) w w'
    | None => a = 0 ∧ w' = add_out ("Circular array full"%string, []) w
    end)) as Hfull.
  { intros Hp. unfold ring_enq. rewrite Hp. by apply Enqueue_full_wp. }
  unfold ring_place, Q_SIZE in Hwrite, Hfull. change sizeof_Queue with 56 in *. unfold Q_SIZE.
  destruct (Z.eqb_spec (r_ro r) (-1)) as [Er|Er].
  - destruct (Z.ltb_spec 1000000 (r_tail r + m_size m)).
    + destruct (Z.eqb_spec (r_tail r) (-1)); [lia|]. cbn [negb andb].
      destruct (Z.ltb_spec (r_head r) (56 + m_size m)); [by apply Hfull|].
      eapply Hwrite; [done|]. lia.
    + eapply Hwrite; [done|]. lia.
  - destruct (Z.ltb_spec (r_head r) (r_tail r + m_size m)); [by apply Hfull|].
    eapply Hwrite; [done|]. lia.
Qed.

(** ** Dequeue, Peek and IsEmpty *)

Lemma IsEmpty_not_safe_wp p w q r (Q : Z → world → Prop) :
  q_inv w q r → Q (match r_segs r with [] => 1 | _ => 0 end) w →
  wp (IsEmpty_not_safe (Addr p q 0)) p w Q.
Proof.
  intros Hq HQ. pose proof (q_header_bounds _ _ _ Hq) as (_ & _ & _ & Hlen).
  destruct Hq as (_ & (_ & _ & Hs & _) & _). unfold Q_SIZE in Hlen.
  unfold IsEmpty_not_safe. rewrite decide_False by done.
  apply wp_bind. eapply wp_get_uint; [exact Hs|].
  rewrite u32_small by (unfold is_u32; lia). apply wp_ret.
  destruct (r_segs r); cbn [length] in *; [done|].
  destruct (Z.eqb_spec (Z.of_nat (S (length l))) 0); [lia|done].
Qed.

Lemma q_valid1 w q r : q_inv w q r → valid w q 0 1.
Proof.
  intros [Hv _]. unfold Q_SIZE in Hv. eapply valid_le; [exact Hv|lia|lia].
Qed.

Lemma IsEmpty_wp p w q r :
  q_inv w q r → unlocked w q →
  wp (IsEmpty (Addr p q 0)) p w (λ a w',
    a = (match r_segs r with [] => 1 | _ => 0 end) ∧ w' = w).
Proof.
  intros Hq Hu. pose proof (q_header_bounds _ _ _ Hq) as (_ & _ & _ & Hlen).
  unfold Q_SIZE in Hlen. pose proof (q_valid1 _ _ _ Hq) as Hv1.
  unfold IsEmpty. rewrite decide_False by done.
  apply wp_bind. eapply wp_mutex_lock; [done|done|]. fold (locked q w).
  assert (q_inv (locked q w) q r) as (_ & (_ & _ & Hs & _) & _) by (by apply (q_inv_blocks w)).
  apply wp_bind. eapply wp_get_uint; [exact Hs|]. cbv zeta.
  apply wp_bind. eapply wp_mutex_unlock; [by apply (valid_same_blocks w)|].
  apply wp_ret. split; [|by apply released_locked].
  rewrite u32_small by (unfold is_u32; lia).
  destruct (r_segs r); cbn [length] in *; [done|].
  destruct (Z.eqb_spec (Z.of_nat (S (length l))) 0); [lia|done].
Qed.

(** The comparison of [head] with [rollover_position] is the one of the ring. *)
Lemma read_pos_spec w q r :
  q_inv w q r → (r_head r =? u32 (r_ro r)) = (r_head r =? r_ro r).
Proof.
  intros Hq. pose proof (q_header_bounds _ _ _ Hq) as (Hb1 & _ & Hb3 & _). unfold Q_SIZE in *.
  destruct Hb3 as [->|Hb3].
  - change (u32 (-1)) with 4294967295. zbool; lia.
  - by rewrite (u32_small (r_ro r)) by (unfold is_u32; lia).
Qed.

Lemma Peek_wp p w q r :
  q_inv w q r → unlocked w q →
  wp (Peek (Addr p q 0)) p w (λ a w', w' = w ∧
    a = match r_segs r with [] => Null | (pos, _) :: _ => Addr p q pos end).
Proof.
  intros Hq Hu. pose proof (q_header_bounds _ _ _ Hq) as (Hb1 & _ & Hb3 & _).
  unfold Q_SIZE in *. pose proof (q_valid1 _ _ _ Hq) as Hv1.
  unfold Peek. apply wp_bind. eapply wp_mutex_lock; [done|done|]. fold (locked q w).
  assert (q_inv (locked q w) q r) as Hql by (by apply (q_inv_blocks w)).
  apply wp_bind. rewrite decide_False by done. apply wp_bind.
  eapply IsEmpty_not_safe_wp; [done|].
  assert (∀ a : ptr, wp (mutex_unlock (addr_of (Addr p q 0) Queue_QLock);;; ret a) p (locked q w)
    (λ a' w', w' = w ∧ a' = a)) as Hun.
  { intros a. apply wp_bind. eapply wp_mutex_unlock; [by apply (valid_same_blocks w)|].
    apply wp_ret. split; [by apply released_locked|done]. }
  destruct (r_segs r) as [|[pos m] segs] eqn:Hs; cbn [Z.eqb].
  { apply wp_ret. apply Hun. }
  pose proof Hql as (_ & (Hh & _ & _ & Hro) & Hok & _).
  apply wp_bind. eapply wp_get_uint; [exact Hh|]. rewrite (u32_small (r_head r)) by (unfold is_u32; lia).
  apply wp_bind. eapply wp_get_int; [exact Hro|]. rewrite (s32_small (r_ro r)) by (unfold is_s32; lia).
  cbv zeta. apply wp_ret. rewrite (read_pos_spec _ _ _ Hq), (s32_small (r_head r)) by (unfold is_s32; lia).
  eapply wp_mono; [apply Hun|]. cbv beta. intros a' w' [-> ->]. split; [done|].
  pose proof (ring_read_head _ _ _ _ _ _ _ Hok Hs) as <-. cbn [padd]. done.
Qed.

(** Where the oldest message is read; the rollover position is reset there. *)
Lemma read_position_wp p w wl q r pos :
  q_inv w q r → q_inv wl q r → ring_read sizeof_Queue r = pos → 0 <= r_head r <= 1000000 →
  wp (if r_head r =? u32 (r_ro r) then set_int (Addr p q 0) Queue_rollover_position (-1);;; ret sizeof_Queue
      else ret (s32 (r_head r))) p wl (λ a w1, a = pos ∧ ext (range q 0 56) wl w1 ∧
    mb w1 q (0 + f_off Queue_tail) (enc_i32 (r_tail r)) ∧
    mb w1 q (0 + f_off Queue_size) (enc_i32 (Z.of_nat (length (r_segs r)))) ∧
    mb w1 q (0 + f_off Queue_rollover_position) (enc_i32 (if r_head r =? r_ro r then -1 else r_ro r))).
Proof.
  intros Hq (Hv & (Hh & Ht & Hsize & Hro) & _) Hread Hb. rewrite (read_pos_spec _ _ _ Hq). unfold Q_SIZE in Hv.
  unfold ring_read in Hread. destruct (Z.eqb_spec (r_head r) (r_ro r)).
  - apply wp_bind. eapply wp_set_int; [find_valid|]. apply wp_ret.
    split; [done|]. split; [final_ext|]. split_and!; final_mb.
  - apply wp_ret. rewrite s32_small by (unfold is_s32; lia). split; [done|]. split; [final_ext|]. done.
Qed.

(** The header is updated and the message rebound: the other messages are left. *)
Lemma deq_done w w2 w3 q r pos m r' :
  q_inv w q r → mring_deq r = Some (pos, m, r') → ext (range q 0 56) w w2 → q_header w2 q r' →
  ext (range q pos (sizeof_of (m_body m))) w2 w3 → q_inv w3 q r'.
Proof.
  intros Hq Hd He2 Hh2 He3. pose proof Hq as (Hv & _ & Hok & _).
  destruct (ring_deq_ok _ _ _ _ _ _ _ Hok Hd) as [Hok' Hs].
  destruct (q_segs _ _ _ pos m Hq ltac:(rewrite Hs; left)) as ((_ & _ & Hsize) & _ & Hp & _).
  assert (∀ o' z, 0 <= o' → o' + 4 <= 56 → mb w2 q o' (enc_i32 z) → mb w3 q o' (enc_i32 z)) as Hhd.
  { intros o' z Hlo Hl. apply (mb_extF _ _ _ _ _ _ He3). intros i Hi [_ ?]. autorewrite with len in Hi. lia. }
  assert (Forall (λ x, msg_ok x.2 ∧ ser_at w3 q x.1 x.2) (r_segs r')) as Hsegs.
  { apply Forall_forall. intros [p' m'] Hin. cbn [fst snd].
    destruct (q_segs _ _ _ p' m' Hq ltac:(rewrite Hs; by right)) as (Hm' & Hser & ? & _). split; [done|].
    pose proof (ring_head_apart _ _ _ _ _ _ _ _ _ Hok Hs Hin) as Hap. unfold apart in Hap.
    eapply ser_extF; [done|exact He3| |].
    { intros i Hi [_ ?]. lia. }
    eapply ser_extF; [done|exact He2| |done]. intros i Hi [_ ?]. lia. }
  split; [by do 2 (eapply valid_extF; [done|])|]. split.
  { destruct Hh2 as (? & ? & ? & ?). unfold q_header. split_and!; apply Hhd; try done; off. }
  split; [done|]. split; (eapply Forall_impl; [exact Hsegs|]); naive_solver.
Qed.

(** [Dequeue] takes the oldest message off the ring and makes it an object of
    the calling process, where it is in the segment. *)
Lemma Dequeue_wp p w q r :
  q_inv w q r → unlocked w q →
  wp (Dequeue (Addr p q 0)) p w (λ a w',
    match mring_deq r with
    | Some (pos, m, r') =>
        a = Addr p q pos ∧ q_inv w' q r' ∧
        obj_at w' p q pos m (Addr p q (pos + sizeof_of (m_body m))) ∧
        ext (λ b _, b = q) w w'
    | None => a = Null ∧ w' = w
    end).
Proof.
  intros Hq Hu. pose proof (q_header_bounds _ _ _ Hq) as (Hb1 & Hb2 & Hb3 & Hb4).
  unfold Q_SIZE in *. pose proof (q_valid1 _ _ _ Hq) as Hv1.
  unfold Dequeue. apply wp_bind. eapply wp_mutex_lock; [done|done|]. fold (locked q w).
  assert (q_inv (locked q w) q r) as Hql by (by apply (q_inv_blocks w)).
  apply wp_bind. rewrite decide_False by done. apply wp_bind. eapply IsEmpty_not_safe_wp; [done|].
  destruct (r_segs r) as [|[pos m] segs] eqn:Hs; cbn [Z.eqb].
  { assert (mring_deq r = None) as -> by (unfold ring_deq; by rewrite Hs).
    apply wp_ret, wp_bind. eapply wp_mutex_unlock; [by apply (valid_same_blocks w)|].
    apply wp_ret. split; [done|by apply released_locked]. }
  pose proof (ring_read_head _ _ _ _ _ _ _ (proj1 (proj2 (proj2 Hql))) Hs) as Hread.
  set (ro := if r_head r =? r_ro r then -1 else r_ro r).
  assert (mring_deq r = Some (pos, m, Ring (pos + m_size m) (r_tail r) ro segs)) as Hdq.
  { unfold ring_deq, ro. by rewrite Hs, Hread. }
  rewrite Hdq. pose proof (q_segs _ _ _ pos m Hql ltac:(rewrite Hs; left)) as (Hmok & Hser & Hp0 & Hp1 & Hp2).
  unfold Q_SIZE in Hp2. pose proof (msg_size_min _ Hmok) as Hsz. pose proof Hql as (Hv & (Hh & _ & _ & Hro) & _).
  unfold Q_SIZE in Hv. apply wp_bind. eapply wp_get_uint; [exact Hh|]. rewrite (u32_small (r_head r)) by (unfold is_u32; lia).
  apply wp_bind. eapply wp_get_int; [exact Hro|]. rewrite (s32_small (r_ro r)) by (unfold is_s32; lia).
  apply wp_bind. eapply wp_mono; [apply (read_position_wp p w (locked q w) q r pos); [done|done|done|lia]|]. cbv beta. fold ro.
  intros a w1 (-> & He1 & Ht1 & Hsize1 & Hro1). cbv zeta. cbn [padd]. rewrite Z.add_0_l.
  assert (valid w1 q 0 (Z.to_nat 1000000)) as Hv1' by (by eapply valid_extF).
  assert (ser_at w1 q pos m) as ((_ & Htid & Hms & _) & _).
  { eapply ser_extF; [done|exact He1| |done]. intros i Hi [_ ?]. lia. }
  cbn [fst snd] in Htid, Hms.
  apply wp_bind. eapply wp_get_int; [exact Hms|]. rewrite (s32_small (m_size m)) by (unfold is_s32; lia).
  apply wp_bind. eapply wp_set_int; [find_valid|].
  apply wp_bind. eapply wp_get_uint; [find_mb|]. rewrite Hs. cbn [length].
  rewrite (u32_small (Z.of_nat (S (length segs)))) by (cbn [length] in Hb4; unfold is_u32; lia).
  apply wp_bind. eapply wp_set_int; [find_valid|]. apply wp_bind. eapply wp_get_int; [find_mb|].
  assert (s32 (tid_of (m_body m)) = tid_of (m_body m)) as -> by (apply s32_small; unfold is_s32; by destruct (m_body m)).
  rewrite decide_True by (by destruct (m_body m)).
  set (w2 := upd (upd w1 q _ _) q _ _).
  assert (ext (range q 0 56) (locked q w) w2) as He2 by (unfold w2; repeat (eapply ext_upd; [in_range|]); done).
  assert (q_header w2 q (Ring (pos + m_size m) (r_tail r) ro segs)) as Hh2.
  { unfold q_header, w2. cbn [r_head r_tail r_segs r_ro].
    replace (Z.of_nat (S (length segs)) - 1) with (Z.of_nat (length segs)) by lia. split_and!; final_mb. }
  assert (ser_at w2 q pos m) as Hser2 by (eapply ser_extF; [done|exact He2| |done]; intros i Hi [_ ?]; lia).
  assert (valid w2 q 0 (Z.to_nat 1000000)) as Hv2 by (by eapply valid_extF).
  destruct (rebind_wp p w2 q pos m Hmok Hser2) as (f & Hf & Hrb); [find_valid|].
  rewrite Hf. apply wp_bind. eapply wp_mono; [exact Hrb|]. cbv beta. intros u w3 (Ho3 & He3). apply wp_ret.
  assert (valid w3 q 0 (Z.to_nat 1000000)) as Hv3 by (by eapply valid_extF).
  apply wp_bind. eapply wp_mutex_unlock; [find_valid|]. apply wp_ret. split; [done|]. split; [|split].
  - apply (q_inv_blocks w3); [done|]. by eapply (deq_done (locked q w) w2).
  - by apply (frame_obj w3).
  - apply ext_locked; [done|]. eapply ext_trans; (eapply ext_weaken; [|done]); by intros b k i _ [-> _].
Qed.
