(* ===== verification/Demo.v ===== *)
(** * Concrete states

    Decision procedures for the predicates on memory, and a small concrete
    state of the system that the witnesses of the theorems evaluate: a queue
    made by [CreateQueue] and message objects made by their constructors. *)

From S2P Require Import Prelude CMem CLogic Messages MessageSpec Ring CircularMsgQ CircularSpec.
From stdpp Require Import base numbers list strings gmap.
From Stdlib Require Import Lia.
#[local] Open Scope Z_scope.
#[local] Open Scope ts_scope.

(** ** Decision procedures *)

Definition mbb (w : world) (b o : Z) (l : list memval) : bool :=
  match w_blocks w !! b with
  | Some k => bool_decide (in_block k o (length l)) && bool_decide (rd k o (length l) = l)
  | None => false
  end.

Lemma mbb_spec w b o l : mbb w b o l = true ↔ mb w b o l.
Proof.
  unfold mbb, mb. destruct (w_blocks w !! b) as [k|]; [|naive_solver].
  rewrite andb_true_iff, !bool_decide_eq_true. naive_solver.
Qed.

#[export] Instance mb_dec w b o l : Decision (mb w b o l).
Proof. refine (cast_if (decide (mbb w b o l = true))); by rewrite <- mbb_spec. Defined.

Definition validb (w : world) (b o : Z) (n : nat) : bool :=
  match w_blocks w !! b with Some k => bool_decide (in_block k o n) | None => false end.

Lemma validb_spec w b o n : validb w b o n = true ↔ valid w b o n.
Proof.
  unfold validb, valid. destruct (w_blocks w !! b) as [k|]; [|naive_solver].
  rewrite bool_decide_eq_true. naive_solver.
Qed.

#[export] Instance valid_dec w b o n : Decision (valid w b o n).
Proof. refine (cast_if (decide (validb w b o n = true))); by rewrite <- validb_spec. Defined.

#[export] Instance flds_dec w b o l : Decision (flds w b o l).
Proof. induction l; cbn [flds]; apply _. Defined.

#[export] Instance bound_dec w p b o l : Decision (bound w p b o l).
Proof. induction l; cbn [bound]; apply _. Defined.

Definition array_atb (w : world) (p : Z) (d : ptr) (l : list memval) : bool :=
  match l, d with
  | [], _ => true
  | _, Addr p' bd od => bool_decide (p' = p) && mbb w bd od l
  | _, _ => false
  end.

Lemma array_atb_spec w p d l : array_atb w p d l = true ↔ array_at w p d l.
Proof.
  unfold array_atb, array_at. destruct l as [|v l]; [naive_solver|].
  destruct d as [|p' bd od|]; [naive_solver| |naive_solver].
  rewrite andb_true_iff, bool_decide_eq_true, mbb_spec. naive_solver.
Qed.

#[export] Instance array_at_dec w p d l : Decision (array_at w p d l).
Proof. refine (cast_if (decide (array_atb w p d l = true))); by rewrite <- array_atb_spec. Defined.

#[export] Instance data_at_dec w p b o bd d : Decision (data_at w p b o bd d).
Proof. unfold data_at. case_match; apply _. Defined.

#[export] Instance obj_at_dec w p b o m d : Decision (obj_at w p b o m d).
Proof. unfold obj_at. apply _. Defined.

#[export] Instance ser_at_dec w q a m : Decision (ser_at w q a m).
Proof. unfold ser_at. apply _. Defined.

#[export] Instance body_ok_dec bd : Decision (body_ok bd).
Proof. destruct bd; unfold body_ok; apply _. Defined.

#[export] Instance msg_ok_dec m : Decision (msg_ok m).
Proof. unfold msg_ok. apply _. Defined.

#[export] Instance unlocked_dec w q : Decision (unlocked w q).
Proof. unfold unlocked. apply _. Defined.

#[export] Instance q_header_dec w q r : Decision (q_header w q r).
Proof. unfold q_header. apply _. Defined.

#[export] Instance arr_sep_dec d l b : Decision (arr_sep d l b).
Proof. unfold arr_sep. apply _. Defined.

#[export] Instance is_topo_dec bd : Decision (is_topo bd).
Proof. destruct bd; unfold is_topo; apply _. Defined.

(** No block at or above [w_next]. *)
Definition wokb (w : world) : bool :=
  forallb (λ x, bool_decide (x.1 < w_next w)) (map_to_list (w_blocks w)).

Lemma wokb_spec w : wokb w = true → wok w.
Proof.
  unfold wokb, wok. rewrite forallb_forall. intros H b Hb.
  destruct (w_blocks w !! b) as [k|] eqn:E; [|done]. exfalso.
  apply elem_of_map_to_list, list_elem_of_In, H, bool_decide_eq_true in E. cbn in E. lia.
Qed.

(** ** A queue and two messages *)

(** The state a computation ends in. *)
Definition state_of {A} (c : M A) (p : Z) (w : world) : world :=
  match c p w with Ok _ w' => w' | _ => w end.

(** Process 1 makes a queue and a [BarMsg] of value 44 with tag 1 and an
    [IntArrayMsg] of three values with tag 5. *)
Definition demo_setup : M unit :=
  Q <- CreateQueue "/TS_T1";;
  bar <- BarMsg_create 1;;
  BarMsg_setValue bar 44;;;
  vals <- malloc 12;;
  st_ints vals [7; -1; 9];;;
  arr <- IntArrayMsg_create 5;;
  IntArrayMsg_setValues arr 3 vals.

Definition demo : world := Eval vm_compute in state_of demo_setup 1 (world_init 0 [] []).

Definition demo_bar : msg := Msg 1 72 (BBar 44).
Definition demo_ints : msg := Msg 5 100 (BInts [7; -1; 9]).

Lemma demo_wok : wok demo.
Proof. apply wokb_spec. vm_compute. reflexivity. Qed.

Lemma demo_q_inv : q_inv demo 1 (ring_empty sizeof_Queue).
Proof. apply q_inv_empty; apply (bool_decide_unpack _); vm_compute; reflexivity. Qed.

Lemma demo_unlocked : unlocked demo 1.
Proof. apply (bool_decide_unpack _). vm_compute. reflexivity. Qed.
Lemma demo_bar_at : obj_at demo 1 2 0 demo_bar Null.
Proof. apply (bool_decide_unpack _). vm_compute. reflexivity. Qed.
Lemma demo_ints_at : obj_at demo 1 4 0 demo_ints (Addr 1 5 0).
Proof. apply (bool_decide_unpack _). vm_compute. reflexivity. Qed.

(** The same with the [msg_size] of the two objects set to 400000 and 600000
    bytes: large messages without large arrays. *)
Definition demo_big_setup : M unit :=
  Q <- CreateQueue "/TS_T1";;
  m1 <- BarMsg_create 1;; BarMsg_setValue m1 44;;; set_int m1 Message_msg_size 400000;;;
  m2 <- BarMsg_create 1;; BarMsg_setValue m2 45;;; set_int m2 Message_msg_size 600000.

Definition demo_big : world := Eval vm_compute in state_of demo_big_setup 1 (world_init 0 [] []).

Lemma demo_big_q_inv : q_inv demo_big 1 (ring_empty sizeof_Queue).
Proof. apply q_inv_empty; apply (bool_decide_unpack _); vm_compute; reflexivity. Qed.
