(* ===== verification/QueueProps.v ===== *)
(** * Properties of the message queue

    The queue as its callers see it: sequences of operations by any processes
    refine a first-in first-out list, the lock is never left taken, and what
    the code does on the cases it does not handle. *)

From S2P Require Import Prelude CMem CLogic Messages MessageSpec Ring CircularMsgQ CircularSpec Demo.
From stdpp Require Import base numbers list strings gmap.
From Stdlib Require Import Lia.
#[local] Open Scope Z_scope.
#[local] Open Scope ts_scope.

(** ** Sequences of operations *)

(** A message object that a process can send: process, block, offset, content
    and data pointer. *)
Record sobj := SObj { so_p : Z; so_b : Z; so_o : Z; so_m : msg; so_d : ptr }.

Definition sobj_ok (w : world) (q : Z) (x : sobj) : Prop :=
  obj_at w (so_p x) (so_b x) (so_o x) (so_m x) (so_d x) ∧ msg_ok (so_m x) ∧
  so_b x ≠ q ∧ arr_sep (so_d x) (payload (m_body (so_m x))) q ∧
  arr_sep (so_d x) (payload (m_body (so_m x))) (so_b x) ∧
  m_size (so_m x) + Q_SIZE < 2147483648 ∧ ¬ is_topo (m_body (so_m x)).

#[export] Instance sobj_ok_dec w q x : Decision (sobj_ok w q x).
Proof. unfold sobj_ok. apply _. Defined.

(** Enqueue the object, or let process [p] dequeue, look at the next message,
    or ask whether there is one. *)
Inductive qop := OEnq (x : sobj) | ODeq (p : Z) | OPeek (p : Z) | OEmpty (p : Z).
Inductive qres := RInt (z : Z) | RPtr (a : ptr).

Definition rmap {A B} (f : A → B) (r : res A) : res B :=
  match r with Ok a w => Ok (f a) w | Exit n w => Exit n w | Fault => Fault | Spin => Spin end.

Definition run_op (q : Z) (op : qop) (w : world) : res qres :=
  match op with
  | OEnq x => rmap RInt (Enqueue (Addr (so_p x) q 0) (Addr (so_p x) (so_b x) (so_o x)) (so_p x) w)
  | ODeq p => rmap RPtr (Dequeue (Addr p q 0) p w)
  | OPeek p => rmap RPtr (Peek (Addr p q 0) p w)
  | OEmpty p => rmap RInt (IsEmpty (Addr p q 0) p w)
  end.

Fixpoint run_ops (q : Z) (ops : list qop) (w : world) : res (list qres) :=
  match ops with
  | [] => Ok [] w
  | op :: ops' =>
      match run_op q op w with
      | Ok r w' => rmap (cons r) (run_ops q ops' w')
      | Exit n w' => Exit n w'
      | Fault => Fault
      | Spin => Spin
      end
  end.

(** The same on the abstract ring. *)
Definition ring_op (q : Z) (op : qop) (r : mring) : qres * mring :=
  match op with
  | OEnq x => match mring_enq r (so_m x) with
              | Some r' => (RInt 1, r')
              | None => (RInt 0, r)
              end
  | ODeq p => match mring_deq r with
              | Some (pos, _, r') => (RPtr (Addr p q pos), r')
              | None => (RPtr Null, r)
              end
  | OPeek p => (RPtr (match r_segs r with [] => Null | (pos, _) :: _ => Addr p q pos end), r)
  | OEmpty _ => (RInt (match r_segs r with [] => 1 | _ => 0 end), r)
  end.

(** The specification: a list of messages, first in first out, and where the
    message is in the world after the operation: [Dequeue] answers the address of an
    object that is the oldest message, bound to the functions of its process, and
    [Peek] that of its bytes.  The only choice is whether an enqueue finds room. *)
Inductive fifo_step (q : Z) : qop → qres → world → list msg → list msg → Prop :=
| fifo_enq x w l : fifo_step q (OEnq x) (RInt 1) w l (l ++ [so_m x])
| fifo_full x w l : fifo_step q (OEnq x) (RInt 0) w l l
| fifo_deq p pos m d w l : obj_at w p q pos m d → fifo_step q (ODeq p) (RPtr (Addr p q pos)) w (m :: l) l
| fifo_none p w : fifo_step q (ODeq p) (RPtr Null) w [] []
| fifo_peek p pos m w l : ser_at w q pos m → fifo_step q (OPeek p) (RPtr (Addr p q pos)) w (m :: l) (m :: l)
| fifo_nopeek p w : fifo_step q (OPeek p) (RPtr Null) w [] []
| fifo_empty p w : fifo_step q (OEmpty p) (RInt 1) w [] []
| fifo_some p m w l : fifo_step q (OEmpty p) (RInt 0) w (m :: l) (m :: l).

(** The operations one after the other, each a step of the list. *)
Inductive fifo_trace (q : Z) : world → list qop → list qres → list msg → list msg → Prop :=
| fifo_nil w l : fifo_trace q w [] [] l l
| fifo_cons op x ops xs w w' l l' l'' :
    run_op q op w = Ok x w' → fifo_step q op x w' l l' → fifo_trace q w' ops xs l' l'' →
    fifo_trace q w (op :: ops) (x :: xs) l l''.

Lemma wp_run {A} (c : M A) p w Q :
  wp c p w Q → ∃ a w', c p w = Ok a w' ∧ Q a w'.
Proof. intros H. by apply wp_Ok. Qed.

Lemma sobj_frame F w w' q x :
  sobj_ok w q x → ext F w w' → (∀ b i, F b i → b = q) → sobj_ok w' q x.
Proof.
  intros (Ho & Hm & Hb & Hd & Hd' & Hs & Ht) He HF. split; [|done].
  eapply obj_extF; [apply Hm|exact He| | |exact Ho].
  - intros i Hi. by apply HF in Hi.
  - destruct Hd as [Hd|Hd]; [by left|right]. intros b i Hbd Hi. apply HF in Hi. congruence.
Qed.

Lemma sobj_env_out w q x e : sobj_ok w q x → sobj_ok (add_out e w) q x.
Proof. intros (Ho & ?). split; [|done]. by apply (frame_obj w). Qed.

Definition queue_state (w : world) (q : Z) (r : mring) (xs : list sobj) : Prop :=
  q_inv w q r ∧ unlocked w q ∧ Forall (sobj_ok w q) xs.

Definition op_in (xs : list sobj) (op : qop) : Prop :=
  match op with OEnq x => x ∈ xs | _ => True end.

Lemma state_ext F w w' q r r' xs :
  queue_state w q r xs → ext F w w' → (∀ b i, F b i → b = q) → q_inv w' q r' →
  queue_state w' q r' xs.
Proof.
  intros (_ & Hu & Hx) He HF Hq. split; [done|]. split; [by eapply unlocked_ext|].
  eapply Forall_impl; [exact Hx|]. intros x Hxo. by eapply sobj_frame.
Qed.

(** One operation follows the ring. *)
Lemma run_op_ring w q r xs op :
  queue_state w q r xs → op_in xs op →
  ∃ w', run_op q op w = Ok (ring_op q op r).1 w' ∧
        queue_state w' q (ring_op q op r).2 xs.
Proof.
  intros Hst Hop. pose proof Hst as (Hq & Hu & Hx). destruct op as [x|p|p|p]; cbn [run_op ring_op].
  - cbn in Hop. rewrite Forall_forall in Hx. pose proof (Hx _ Hop) as (Ho & Hm & Hb & Hd & Hd' & Hs & Ht).
    pose proof (Enqueue_wp _ _ _ _ _ _ _ _ Hq Hu Ho Hm Hb Hd Hd' Hs) as Hw.
    apply wp_run in Hw as (a & w' & -> & Hw). cbn [rmap].
    destruct (mring_enq r (so_m x)) as [r'|].
    + destruct Hw as (-> & Hq' & _ & He). exists w'. split; [done|].
      eapply state_ext; [done|exact He| |done]. unfold enq_foot. intros b i [?|[? _]]; [done|]. by destruct Ht.
    + destruct Hw as (-> & ->). eexists. split; [done|]. split; [by apply (q_inv_blocks w)|].
      split; [done|]. apply Forall_forall. intros y Hy. apply sobj_env_out. auto.
  - apply (Dequeue_wp p) in Hq as Hw; [|done]. apply wp_run in Hw as (a & w' & -> & Hw). cbn [rmap].
    destruct (mring_deq r) as [[[pos m] r']|].
    + destruct Hw as (-> & Hq' & _ & He). exists w'. split; [done|].
      eapply state_ext; [done|exact He|done|done].
    + destruct Hw as (-> & ->). by exists w.
  - apply (Peek_wp p) in Hq as Hw; [|done]. apply wp_run in Hw as (a & w' & -> & -> & ->). by exists w.
  - apply (IsEmpty_wp p) in Hq as Hw; [|done]. apply wp_run in Hw as (a & w' & -> & -> & ->). by exists w.
Qed.

(** It is a step of the list. *)
Lemma run_op_fifo w q r xs op :
  queue_state w q r xs → op_in xs op →
  ∃ x w' r', run_op q op w = Ok x w' ∧ queue_state w' q r' xs ∧ fifo_step q op x w' (contents r) (contents r').
Proof.
  intros Hst Hop. destruct (run_op_ring _ _ _ _ _ Hst Hop) as (w' & E & Hst').
  exists (ring_op q op r).1, w', (ring_op q op r).2. split; [done|]. split; [done|].
  destruct op as [x|p|p|p]; cbn [ring_op] in *.
  - destruct (mring_enq r (so_m x)) eqn:Er; cbn; [|constructor].
    rewrite (ring_enq_contents _ _ _ _ _ _ Er). constructor.
  - destruct Hst as (Hq & Hu & _). apply (Dequeue_wp p) in Hq as Hw; [|done].
    apply wp_run in Hw as (a & w1 & E1 & Hw). cbn [run_op] in E. rewrite E1 in E. cbn [rmap] in E.
    destruct (mring_deq r) as [[[pos m] r']|] eqn:Ed; cbn [fst snd] in *.
    + destruct Hw as (-> & _ & Ho & _). injection E as <-. rewrite (ring_deq_contents _ _ _ _ _ _ Ed). by econstructor.
    + unfold ring_deq in Ed. unfold contents. destruct (r_segs r) as [|[]]; [cbn; constructor|done].
  - destruct Hst' as (Hq & _). unfold contents. cbn [fst snd] in *.
    destruct (r_segs r) as [|[pos m] l] eqn:Es; cbn; constructor.
    destruct (q_segs _ _ _ pos m Hq) as (_ & Hser & _); [rewrite Es; by left|done].
  - unfold contents. cbn [fst snd]. destruct (r_segs r) as [|[pos m] l]; cbn; constructor.
Qed.

(** C1. The queue refines a first-in first-out list: whatever sequence of
    enqueues (of message objects of any processes), dequeues, peeks and
    emptiness tests is run on a queue, every operation returns, the results
    and the content are those of a list of messages, where a dequeue answers the
    address of an object that is the oldest message and a peek that of its bytes,
    and the queue is left unlocked and well formed. *)
Theorem queue_refines_fifo w q r xs ops :
  queue_state w q r xs → Forall (op_in xs) ops →
  ∃ rs w' r', run_ops q ops w = Ok rs w' ∧ queue_state w' q r' xs ∧
    fifo_trace q w ops rs (contents r) (contents r').
Proof.
  intros Hst Hops. revert w r Hst. induction Hops as [|op ops Hop _ IH]; intros w r Hst.
  - exists [], w, r. split_and!; try done. constructor.
  - destruct (run_op_fifo _ _ _ _ _ Hst Hop) as (x & w1 & r1 & Hr & Hst1 & Hf). cbn [run_ops]. rewrite Hr.
    destruct (IH _ _ Hst1) as (rs & w' & r' & -> & Hst' & Htr). cbn [rmap].
    exists (x :: rs), w', r'. split; [done|]. split; [done|]. by econstructor.
Qed.

Definition demo_sbar : sobj := SObj 1 2 0 demo_bar Null.
Definition demo_sints : sobj := SObj 1 4 0 demo_ints (Addr 1 5 0).

Lemma demo_state : queue_state demo 1 (ring_empty sizeof_Queue) [demo_sbar; demo_sints].
Proof.
  split; [apply demo_q_inv|]. split; [apply demo_unlocked|].
  apply (bool_decide_unpack _). vm_compute. reflexivity.
Qed.

(** Two enqueues by process 1, then process 2 takes them out. *)
Lemma queue_refines_fifo_witness :
  ∃ rs w' r', run_ops 1 [OEnq demo_sbar; OEnq demo_sints; OPeek 2; ODeq 2; ODeq 2; ODeq 2] demo
      = Ok rs w' ∧ queue_state w' 1 r' [demo_sbar; demo_sints] ∧
    fifo_trace 1 demo [OEnq demo_sbar; OEnq demo_sints; OPeek 2; ODeq 2; ODeq 2; ODeq 2] rs
      (contents (ring_empty sizeof_Queue)) (contents r').
Proof.
  apply (queue_refines_fifo demo 1 (ring_empty sizeof_Queue) [demo_sbar; demo_sints]).
  - apply demo_state.
  - repeat constructor.
Defined.

(** ** Room *)

(** There is room for [n] bytes: after the tail, or, when the tail has not
    rolled over, between the header and the head. *)
Definition room (r : mring) (n : Z) : Prop :=
  (r_ro r = -1 ∧ (r_tail r + n <= Q_SIZE ∨ sizeof_Queue + n <= r_head r)) ∨
  (r_ro r ≠ -1 ∧ r_tail r + n <= r_head r).

(** A queue without messages has not rolled over, and has the room after its head
    or before it. *)
Lemma room_when_empty r n :
  mring_ok r → r_segs r = [] → room r n ↔ n <= Q_SIZE - r_head r ∨ n <= r_head r - sizeof_Queue.
Proof.
  intros (_ & [(E & Hc & _)|(s1 & s2 & E & _ & _ & _ & _ & Hs2)]) Hs; rewrite Hs in *; unfold room.
  - cbn in Hc. lia.
  - by destruct s1, s2.
Qed.

(** So every message of less than half of the segment is accepted. *)
Lemma room_half r n : mring_ok r → r_segs r = [] → 2 * n <= Q_SIZE - sizeof_Queue → room r n.
Proof. intros Hok Hs Hn. apply room_when_empty; [done|done|]. lia. Qed.

Lemma enq_room r m r' : mring_enq r m = Some r' → room r (m_size m).
Proof.
  unfold ring_enq. destruct (mring_place r (m_size m)) as [x|] eqn:E; [|done]. intros _.
  unfold room. unfold ring_place in E. revert E. zbool; intros ?; try done; lia.
Qed.

Lemma enq_no_room r m : mring_enq r m = None → ¬ room r (m_size m).
Proof.
  unfold ring_enq. destruct (mring_place r (m_size m)) as [[]|] eqn:E; [done|]. intros _.
  apply ring_place_None in E. unfold room. lia.
Qed.

(** C7. [Enqueue] answers 1 exactly when there is room, and then the message is
    last in the queue and inside the segment; otherwise it answers 0 and nothing
    but the report on standard output changes.  Either way the mutex is free
    afterwards and the object can be sent again. *)
Theorem Enqueue_room p w q b o m d r :
  q_inv w q r → unlocked w q → obj_at w p b o m d → msg_ok m → b ≠ q →
  arr_sep d (payload (m_body m)) q → arr_sep d (payload (m_body m)) b →
  m_size m + Q_SIZE < 2147483648 →
  ∃ a w', Enqueue (Addr p q 0) (Addr p b o) p w = Ok a w' ∧ unlocked w' q ∧
    (a = 1 ∧ room r (m_size m) ∧ obj_at w' p b o (bump m) d ∧
       (∃ r' pos, q_inv w' q r' ∧ r_segs r' = r_segs r ++ [(pos, m)] ∧
          sizeof_Queue <= pos ∧ pos + m_size m <= Q_SIZE)
     ∨ a = 0 ∧ ¬ room r (m_size m) ∧ w' = add_out ("Circular array full"%string, []) w).
Proof.
  intros Hq Hu Ho Hm Hb Hd Hd' Hs.
  destruct (wp_run _ _ _ _ (Enqueue_wp _ _ _ _ _ _ _ _ Hq Hu Ho Hm Hb Hd Hd' Hs)) as (a & w' & E & HQ).
  exists a, w'. split; [done|]. destruct (mring_enq r m) as [r'|] eqn:Er.
  - destruct HQ as (-> & Hq' & Ho' & He). split; [by eapply unlocked_ext|]. left.
    split_and!; [done|by eapply enq_room|done|].
    unfold ring_enq in Er. destruct (mring_place r (m_size m)) as [[pos ro]|] eqn:Ep; [|done].
    simplify_eq. do 2 eexists. split; [done|]. cbn [r_segs]. split; [done|].
    eapply (q_segs _ _ _ pos m) in Hq' as (_ & _ & ? & ? & ?); [done|].
    cbn. apply elem_of_app. right. by left.
  - destruct HQ as (-> & ->). split; [done|]. right. split_and!; try done. by apply enq_no_room.
Qed.

Lemma Enqueue_room_witness :
  ∃ a w', Enqueue (Addr 1 1 0) (Addr 1 4 0) 1 demo = Ok a w' ∧ unlocked w' 1 ∧
    (a = 1 ∧ room (ring_empty sizeof_Queue) (m_size demo_ints) ∧
       obj_at w' 1 4 0 (bump demo_ints) (Addr 1 5 0) ∧
       (∃ r' pos, q_inv w' 1 r' ∧
          r_segs r' = r_segs (ring_empty sizeof_Queue) ++ [(pos, demo_ints)] ∧
          sizeof_Queue <= pos ∧ pos + m_size demo_ints <= Q_SIZE)
     ∨ a = 0 ∧ ¬ room (ring_empty sizeof_Queue) (m_size demo_ints) ∧
       w' = add_out ("Circular array full"%string, []) demo).
Proof.
  apply (Enqueue_room 1 demo 1 4 0 demo_ints (Addr 1 5 0));
    [apply demo_q_inv | apply demo_unlocked | apply demo_ints_at
    | apply (bool_decide_unpack _); vm_compute; reflexivity
    | done | right; cbn; congruence | right; cbn; congruence | done].
Defined.

(** ** Taking a message out *)

(** What a receiver does: [Dequeue], then [clone] of what it got. *)
Definition take_clone (Q : ptr) : M ptr := msg <- Dequeue Q;; call_clone msg.

Lemma take_clone_wp p w q r pos m segs :
  wok w → q_inv w q r → unlocked w q → r_segs r = (pos, m) :: segs →
  wp (take_clone (Addr p q 0)) p w (λ a w', unlocked w' q ∧ ext (λ b _, b = q) w w' ∧
    (∃ r', q_inv w' q r' ∧ r_segs r' = segs) ∧
    ∃ b d, a = Addr p b 0 ∧ w_next w <= b ∧ obj_at w' p b 0 m d ∧
           (data_field (m_body m) = None ∨ ptr_block d = Some (b + 1))).
Proof.
  intros Hok Hq Hu Hs. unfold take_clone. apply wp_bind. eapply wp_mono; [by apply Dequeue_wp|]. cbv beta.
  intros a w1 Hd. pose proof Hq as (_ & _ & Hrok & Hms & _).
  unfold ring_deq in Hd. rewrite Hs in Hd, Hms. destruct Hd as (-> & Hq1 & Ho1 & He1).
  apply Forall_cons in Hms as [Hm _]. cbn [snd] in Hm.
  eapply wp_mono; [eapply clone_wp; [by eapply ext_wok|exact Hm|exact Ho1]|]. cbv beta.
  intros a w2 (-> & He2 & d & Ho2 & Hd2).
  assert (ext (λ b _, b = q) w1 w2) as He2' by (by eapply ext_weaken; [|exact He2]).
  assert (ext (λ b _, b = q) w w2) as He by (by eapply ext_trans).
  split; [by eapply unlocked_ext|]. split; [done|]. split.
  - eexists. split; [eapply q_inv_extF; [exact He2|auto|exact Hq1]|done].
  - exists (w_next w1), d. split; [done|]. split; [by eapply ext_next|]. done.
Qed.

(** C4. A message of any of the nine classes that process [p] puts in an empty
    queue with room is what process [p'] gets when it takes and clones the next
    one, and nothing is put in between the two (see C38): a fresh object of [p'], bound to the functions of [p'], with the same members
    and the same array, while the object of [p] is as before (of a [TopologyMsg]
    the size has grown). *)
Theorem message_roundtrip p p' w q b o m d r :
  wok w → q_inv w q r → r_segs r = [] → unlocked w q → obj_at w p b o m d → msg_ok m → b ≠ q →
  arr_sep d (payload (m_body m)) q → arr_sep d (payload (m_body m)) b →
  m_size m + Q_SIZE < 2147483648 → room r (m_size m) →
  ∃ w1 w2 b' d', Enqueue (Addr p q 0) (Addr p b o) p w = Ok 1 w1 ∧
    take_clone (Addr p' q 0) p' w1 = Ok (Addr p' b' 0) w2 ∧
    obj_at w1 p b o (bump m) d ∧ obj_at w2 p' b' 0 m d' ∧ w_next w <= b' ∧
    ∃ r', q_inv w2 q r' ∧ r_segs r' = [].
Proof.
  intros Hok Hq Hs Hu Ho Hm Hb Hd Hd' Hsz Hroom.
  destruct (wp_run _ _ _ _ (Enqueue_wp _ _ _ _ _ _ _ _ Hq Hu Ho Hm Hb Hd Hd' Hsz)) as (a & w1 & E & HQ).
  destruct (mring_enq r m) as [r1|] eqn:Er; [|by apply enq_no_room in Er].
  destruct HQ as (-> & Hq1 & Ho1 & He1).
  assert (∃ pos, r_segs r1 = [(pos, m)]) as [pos Hs1].
  { unfold ring_enq in Er. destruct (mring_place r (m_size m)) as [[pos ro]|]; simplify_eq.
    exists pos. cbn. by rewrite Hs. }
  assert (wok w1) as Hok1 by (by eapply ext_wok).
  destruct (wp_run _ _ _ _ (take_clone_wp p' _ _ _ _ _ _ Hok1 Hq1 ltac:(by eapply unlocked_ext) Hs1))
    as (a & w2 & E2 & Hu2 & He2 & Hr2 & b' & d' & -> & Hb' & Ho2 & _).
  exists w1, w2, b', d'. pose proof (ext_next _ _ _ He1). split_and!; try done. lia.
Qed.

Lemma message_roundtrip_witness :
  ∃ w1 w2 b' d', Enqueue (Addr 1 1 0) (Addr 1 4 0) 1 demo = Ok 1 w1 ∧
    take_clone (Addr 2 1 0) 2 w1 = Ok (Addr 2 b' 0) w2 ∧
    obj_at w1 1 4 0 (bump demo_ints) (Addr 1 5 0) ∧ obj_at w2 2 b' 0 demo_ints d' ∧
    w_next demo <= b' ∧ ∃ r', q_inv w2 1 r' ∧ r_segs r' = [].
Proof.
  apply (message_roundtrip 1 2 demo 1 4 0 demo_ints (Addr 1 5 0) (ring_empty sizeof_Queue));
    [apply demo_wok | apply demo_q_inv | done | apply demo_unlocked | apply demo_ints_at
    | apply (bool_decide_unpack _); vm_compute; reflexivity
    | done | right; cbn; congruence | right; cbn; congruence | done
    | left; split; [done | left; vm_compute; discriminate]].
Defined.

(** ** Creating a queue *)

Lemma kbyte_zero n i : kbyte (Blk n (Byte 0) ∅) i = Byte 0.
Proof. done. Qed.

(** The header writes of [CreateQueue] on a block of the size of a queue. *)
Lemma create_header p w q (Q : ptr → world → Prop) :
  valid w q 0 (Z.to_nat Q_SIZE) →
  (∀ w', ext (range q 0 56) w w' → q_inv w' q (ring_empty sizeof_Queue) →
         Q (Addr p q 0) (set_locks (λ l, l ∖ {[(q, 0)]}) w')) →
  wp (let Q := Addr p q 0 in
      set_int Q Queue_size 0;;;
      set_int Q Queue_head sizeof_Queue;;;
      set_int Q Queue_tail sizeof_Queue;;;
      set_int Q Queue_rollover_position (-1);;;
      mutex_init (addr_of Q Queue_QLock);;;
      ret Q) p w Q.
Proof.
  intros Hv HQ. cbv zeta. unfold Q_SIZE in Hv.
  apply wp_bind. eapply wp_set_int; [find_valid|].
  apply wp_bind. eapply wp_set_int; [find_valid|].
  apply wp_bind. eapply wp_set_int; [find_valid|].
  apply wp_bind. eapply wp_set_int; [find_valid|].
  apply wp_bind. unfold mutex_init. eapply wp_mutex_unlock; [find_valid|]. apply wp_ret.
  apply HQ.
  - repeat (eapply ext_upd; [in_range|]). apply ext_refl.
  - apply q_inv_empty; [unfold Q_SIZE; repeat apply valid_upd; done|].
    unfold q_header. cbn [r_head r_tail r_ro r_segs ring_empty length]. split_and!; final_mb.
Qed.

Lemma CreateQueue_new p w name :
  wok w → w_shm w !! name = None → 0 <= w_guard w → (∀ o, (w_next w, o) ∉ w_locks w) →
  ∃ w', CreateQueue name p w = Ok (Addr p (w_next w) 0) w' ∧
    q_inv w' (w_next w) (ring_empty sizeof_Queue) ∧ unlocked w' (w_next w) ∧
    w_shm w' !! name = Some (w_next w) ∧ frame nowhere w w'.
Proof.
  intros Hok Hn Hg Hl. unfold CreateQueue.
  enough (wp (CreateQueue name) p w (λ a w', a = Addr p (w_next w) 0 ∧
    q_inv w' (w_next w) (ring_empty sizeof_Queue) ∧ unlocked w' (w_next w) ∧
    w_shm w' !! name = Some (w_next w) ∧ frame nowhere w w')) as (a & w' & E & -> & H)%wp_run.
  { exists w'. done. }
  unfold CreateQueue. apply wp_bind.
  set (w1 := set_shm (<[name:=w_next w]>) (add_block (Blk (Q_SIZE + w_guard w) (Byte 0) ∅) w)).
  assert (shm_create name Q_SIZE p w = Ok (Addr p (w_next w) 0) w1) as E.
  { unfold shm_create. by rewrite Hn. }
  unfold wp at 1. rewrite E. apply (create_header p w1 (w_next w)).
  { apply (valid_same_blocks (add_block (Blk (Q_SIZE + w_guard w) (Byte 0) ∅) w)); [done|].
    apply add_block_valid. unfold in_block, Q_SIZE. cbn. lia. }
  intros w2 (Hf & He & Hnx & _) Hq. split; [done|].
  unfold env in He. injection He as E1 E2 _ _ _ _ _ _.
  split; [by apply (q_inv_blocks w2)|]. split; [unfold unlocked; cbn; set_solver|].
  split; [cbn; rewrite E2; apply lookup_insert_eq|].
  intros b k Hk. assert (b ≠ w_next w) as Hb by (intros ->; by rewrite Hok in Hk by lia).
  destruct (Hf b k) as (k' & ? & ? & Hk').
  { change (w_blocks (add_block (Blk (Q_SIZE + w_guard w) (Byte 0) ∅) w) !! b = Some k).
    by rewrite add_block_lookup_old. }
  exists k'. split; [done|]. split; [done|]. intros i _. apply Hk'. by intros [? _].
Qed.

(** [CreateQueue] on a name nobody uses makes an empty, unlocked queue in a
    shared object of that name, and leaves the memory there was alone. *)
Theorem CreateQueue_fresh p w name :
  wok w → w_shm w !! name = None → 0 <= w_guard w → (∀ o, (w_next w, o) ∉ w_locks w) →
  ∃ w', CreateQueue name p w = Ok (Addr p (w_next w) 0) w' ∧
    q_inv w' (w_next w) (ring_empty sizeof_Queue) ∧ unlocked w' (w_next w) ∧
    w_shm w' !! name = Some (w_next w) ∧ frame nowhere w w'.
Proof. apply CreateQueue_new. Qed.

Lemma CreateQueue_fresh_witness :
  ∃ w', CreateQueue "/TS_T7" 3 demo = Ok (Addr 3 (w_next demo) 0) w' ∧
    q_inv w' (w_next demo) (ring_empty sizeof_Queue) ∧ unlocked w' (w_next demo) ∧
    w_shm w' !! "/TS_T7"%string = Some (w_next demo) ∧ frame nowhere demo w'.
Proof.
  apply (CreateQueue_fresh 3 demo "/TS_T7"); [apply demo_wok | reflexivity | done|].
  intros o. by vm_compute.
Defined.

(** [CreateQueue] on a name that is in use does not fail: it empties the queue
    that is there, whatever messages it holds and whoever holds its mutex. *)
Theorem CreateQueue_existing p w name q r :
  q_inv w q r → w_shm w !! name = Some q →
  ∃ w', CreateQueue name p w = Ok (Addr p q 0) w' ∧
    q_inv w' q (ring_empty sizeof_Queue) ∧ unlocked w' q.
Proof.
  intros (Hv & _) Hn.
  enough (wp (CreateQueue name) p w (λ a w', a = Addr p q 0 ∧
    q_inv w' q (ring_empty sizeof_Queue) ∧ unlocked w' q)) as (a & w' & E & -> & H)%wp_run.
  { exists w'. done. }
  unfold CreateQueue. apply wp_bind. unfold wp at 1, shm_create. rewrite Hn.
  apply (create_header p w q); [done|]. intros w2 He Hq.
  split; [done|]. split; [by apply (q_inv_blocks w2)|]. unfold unlocked. cbn. set_solver.
Qed.

Lemma CreateQueue_existing_witness :
  ∃ w', CreateQueue "/TS_T1" 3 demo = Ok (Addr 3 1 0) w' ∧
    q_inv w' 1 (ring_empty sizeof_Queue) ∧ unlocked w' 1.
Proof.
  apply (CreateQueue_existing 3 demo "/TS_T1" 1 (ring_empty sizeof_Queue));
    [apply demo_q_inv | reflexivity].
Defined.

(** NULL queues: [Enqueue] and the emptiness tests answer 0 as their checks
    say, but [Dequeue] and [Peek] lock the mutex before they compare with NULL,
    so their checks never apply and the program faults. *)
Theorem null_queue p w item :
  Enqueue Null item p w = Ok 0 w ∧ IsEmpty Null p w = Ok 0 w ∧
  IsEmpty_not_safe Null p w = Ok 0 w ∧ Dequeue Null p w = Fault ∧ Peek Null p w = Fault.
Proof. split_and!; reflexivity. Qed.

(** ** Placement *)

Lemma enq_after r m r' :
  mring_enq r m = Some r' →
  ∃ pos ro, mring_place r (m_size m) = Some (pos, ro) ∧
    r' = Ring (r_head r) (pos + m_size m) ro (r_segs r ++ [(pos, m)]).
Proof.
  unfold ring_enq. destruct (mring_place r (m_size m)) as [[pos ro]|]; intros; simplify_eq. eauto.
Qed.

(** The ring after a first message was put in an empty queue and taken out. *)
Definition ring_used (n : Z) : mring := Ring (56 + n) (56 + n) (-1) [].

Lemma first_enq_deq w q xs x p :
  queue_state w q (ring_empty sizeof_Queue) xs → x ∈ xs → 0 < m_size (so_m x) <= Q_SIZE - 56 →
  ∃ w', run_ops q [OEnq x; ODeq p] w = Ok [RInt 1; RPtr (Addr p q 56)] w' ∧
        queue_state w' q (ring_used (m_size (so_m x))) xs.
Proof.
  intros Hst Hx Hn. destruct (run_op_ring _ _ _ _ (OEnq x) Hst Hx) as (w1 & E1 & Hst1).
  assert (mring_enq (ring_empty sizeof_Queue) (so_m x) =
    Some (Ring 56 (56 + m_size (so_m x)) (-1) [(56, so_m x)])) as Ee.
  { unfold ring_enq, ring_place, ring_empty. cbn [r_ro r_head r_tail r_segs]. rewrite Z.eqb_refl.
    unfold sizeof_Queue, Q_SIZE in *. destruct (Z.ltb_spec 1000000 (56 + m_size (so_m x))); [lia|done]. }
  cbn [ring_op] in E1, Hst1. rewrite Ee in E1, Hst1. cbn [fst snd] in E1, Hst1.
  destruct (run_op_ring _ _ _ _ (ODeq p) Hst1 I) as (w2 & E2 & Hst2).
  assert (ring_op q (ODeq p) (Ring 56 (56 + m_size (so_m x)) (-1) [(56, so_m x)]) =
    (RPtr (Addr p q 56), ring_used (m_size (so_m x)))) as Eop by reflexivity.
  rewrite Eop in E2, Hst2. exists w2. cbn [run_ops]. rewrite E1, E2. done.
Qed.

(** An empty queue can refuse a message that fits in it: after a message of
    [n1] bytes went through a new queue, the free bytes are cut in two by the
    position of the head, and a message of [n2] bytes with [n1 < n2] and
    [56 + n1 + n2 > Q_SIZE] is refused although the queue is empty. *)
Theorem empty_queue_refuses w q xs x1 x2 p :
  queue_state w q (ring_empty sizeof_Queue) xs → x1 ∈ xs → x2 ∈ xs →
  0 < m_size (so_m x1) < m_size (so_m x2) → m_size (so_m x2) <= Q_SIZE - sizeof_Queue →
  Q_SIZE < sizeof_Queue + m_size (so_m x1) + m_size (so_m x2) →
  ∃ w', run_ops q [OEnq x1; ODeq p; OEmpty p; OEnq x2] w
    = Ok [RInt 1; RPtr (Addr p q 56); RInt 1; RInt 0] w'.
Proof.
  unfold sizeof_Queue. intros Hst H1 H2 Hn Hn2 Hsum.
  destruct (first_enq_deq _ _ _ _ p Hst H1) as (w' & E & Hst'); [lia|].
  destruct (run_op_ring _ _ _ _ (OEmpty p) Hst' I) as (w3 & E3 & Hst3).
  destruct (run_op_ring _ _ _ _ (OEnq x2) Hst3 H2) as (w4 & E4 & _). cbn [ring_op] in E4.
  assert (mring_enq (ring_used (m_size (so_m x1))) (so_m x2) = None) as En.
  { unfold ring_enq. replace (mring_place _ _) with (@None (Z * Z)); [done|].
    symmetry. apply ring_place_None. left. cbn. unfold sizeof_Queue. lia. }
  cbn [snd] in E4. rewrite En in E4. exists w4.
  change [OEnq x1; ODeq p; OEmpty p; OEnq x2] with ([OEnq x1; ODeq p] ++ [OEmpty p; OEnq x2]).
  revert E. cbn [run_ops app]. destruct (run_op q (OEnq x1) w) as [a1 v1| | |]; try done.
  destruct (run_op q (ODeq p) v1) as [a2 v2| | |]; try done. cbn [rmap]. intros [= -> -> ->].
  rewrite E3. cbn [fst]. by rewrite E4.
Qed.

Definition big_1 : sobj := SObj 1 2 0 (Msg 1 400000 (BBar 44)) Null.
Definition big_2 : sobj := SObj 1 3 0 (Msg 1 600000 (BBar 45)) Null.

Lemma demo_big_state : queue_state demo_big 1 (ring_empty sizeof_Queue) [big_1; big_2].
Proof.
  split; [apply demo_big_q_inv|]. split; [apply (bool_decide_unpack _); vm_compute; reflexivity|].
  apply (bool_decide_unpack _). vm_compute. reflexivity.
Qed.

Lemma empty_queue_refuses_witness :
  ∃ w', run_ops 1 [OEnq big_1; ODeq 2; OEmpty 2; OEnq big_2] demo_big
    = Ok [RInt 1; RPtr (Addr 2 1 56); RInt 1; RInt 0] w'.
Proof.
  apply (empty_queue_refuses demo_big 1 [big_1; big_2] big_1 big_2 2);
    [apply demo_big_state | set_solver | set_solver | cbn; lia
    | unfold Q_SIZE, sizeof_Queue; cbn; lia | unfold Q_SIZE, sizeof_Queue; cbn; lia].
Defined.



(** ** The classes *)

(** Any message can be used as a [struct Message], and any task struct as the
    common part: the struct of every class starts with the members of [struct
    Message] at the same offsets, and no two members of a struct overlap. *)
Definition disjoint_members (s : struct_decl) : bool :=
  let fix go (o : Z) (l : list (string * field)) :=
    match l with
    | [] => o <=? struct_size s
    | (_, f) :: l' => (o <=? f_off f) && (0 <? f_len f) && go (f_off f + f_len f) l'
    end in
  go 0 (struct_layout s).

Definition message_structs : list struct_decl :=
  [BarMsg_struct; TextMsg_struct; RefIntArrayMsg_struct; TopologyMsg_struct; IntArrayMsg_struct;
   DoneMsg_struct; RefTwoDimIntArrayMsg_struct; RequestMsg_struct; ResponseMsg_struct].

Theorem message_prefix :
  Forall (λ s, take 7 (struct_layout s) = struct_layout Message_struct ∧ disjoint_members s = true)
    message_structs ∧
  struct_size <$> message_structs = [72; 168; 88; 104; 88; 56; 72; 88; 80].
Proof.
  split; [|vm_compute; reflexivity].
  repeat (apply Forall_cons; split; [split; vm_compute; reflexivity|]). by apply Forall_nil.
Qed.

(** ** TopologyMsg grows *)

(** A [TopologyMsg] is changed by being sent: every [writeAt] adds the size of
    the bucket ids to the [msg_size] of the object, so the n-th copy that is sent
    takes [n * 4 * bucket_count] bytes more in the queue than the message has. *)
Theorem topology_grows p w b o q a tag sz root sample dsz ids d n :
  let m k := Msg tag (sz + Z.of_nat k * (4 * Z.of_nat (length ids))) (BTopo root sample dsz ids) in
  msg_ok (m 0%nat) → m_size (m n) < 2147483648 → obj_at w p b o (m 0%nat) d → b ≠ q →
  arr_sep d (ints ids) q → arr_sep d (ints ids) b →
  valid w q a (Z.to_nat (m_size (m n))) →
  wp (for_up n 0 (λ _, call_writeAt (Addr p b o) (Addr p q a);;; ret tt)) p w
    (λ _ w', obj_at w' p b o (m n) d).
Proof.
  intros m Hm Hn Ho Hb Hd Hd' Hv.
  apply (wp_for_up (λ i w', obj_at w' p b o (m (Z.to_nat i)) d ∧ valid w' q a (Z.to_nat (m_size (m n))))).
  - done.
  - intros i w' Hi [Hoi Hvi]. apply wp_bind.
    assert (sizeof_TopologyMsg + 4 * Z.of_nat (length ids) <= sz) as Hsz.
    { destruct Hm as (_ & _ & Hm). unfold m in Hm. cbn [m_size m_body sizeof_of payload] in Hm.
      rewrite length_ints in Hm. lia. }
    unfold sizeof_TopologyMsg in Hsz.
    assert (msg_ok (m (Z.to_nat i))) as Hmi.
    { destruct Hm as (Ht & Hbd & Hs). split; [done|]. split; [done|].
      unfold m in Hs, Hn |- *. cbn [m_size m_body sizeof_of payload] in Hs, Hn |- *. rewrite length_ints in Hs |- *.
      unfold sizeof_TopologyMsg in *. nia. }
    eapply wp_mono; [eapply writeAt_wp; [exact Hmi|exact Hoi|exact Hb|exact Hd|exact Hd'|]|].
    + eapply valid_le; [exact Hvi|lia|].
      assert (m_size (m (Z.to_nat i)) <= m_size (m n)) by (cbn; nia). lia.
    + cbv beta. intros r w'' (_ & Ho' & He). apply wp_ret. split; [|by eapply valid_extF].
      replace (m (Z.to_nat (i + 1))) with (bump (m (Z.to_nat i))); [done|].
      unfold bump, m. cbn [m_body m_tag m_size]. cbn in Hn. f_equal.
      rewrite s32_small by (unfold is_s32; nia). nia.
  - intros w' [Ho' _]. by rewrite Z.add_0_l, Nat2Z.id in Ho'.
Qed.

(** Three buckets: the third copy is sent with 24 bytes too many. *)
Definition demo_topo_setup : M unit :=
  Q <- CreateQueue "/TS_T1";;
  topo <- TopologyMsg_create 2;;
  ids <- malloc 12;; st_ints ids [2; 3; 4];;;
  TopologyMsg_setBucketIds topo 3 ids;;; TopologyMsg_setRootId topo 1;;;
  set_int topo TopologyMsg_sample_size 10;;; set_int topo TopologyMsg_data_size 30.

Definition demo_topo : world := Eval vm_compute in state_of demo_topo_setup 1 (world_init 0 [] []).

Lemma topology_grows_witness :
  wp (for_up 3 0 (λ _, call_writeAt (Addr 1 2 0) (Addr 1 1 56);;; ret tt)) 1 demo_topo
    (λ _ w', obj_at w' 1 2 0 (Msg 2 152 (BTopo 1 10 30 [2; 3; 4])) (Addr 1 4 0)).
Proof.
  apply (topology_grows 1 demo_topo 2 0 1 56 2 116 1 10 30 [2; 3; 4] (Addr 1 4 0) 3);
    first [done | apply (bool_decide_unpack _); vm_compute; reflexivity].
Defined.
