(* ===== verification/System.v ===== *)
(** * System

    [src/System/System.c] and [include/TaskSystem/System.h]: the communication
    system.  [struct SystemData] is shared by all processes; every process has
    its own [struct System] with the addresses of the queues it has used. *)

From S2P Require Import Prelude CMem Messages CircularMsgQ.
From stdpp Require Import base numbers list strings gmap pretty.
#[local] Open Scope Z_scope.
#[local] Open Scope ts_scope.

Definition SYSTEM_SHARED_MEM_NAME : string := "/TS_System".
Definition MAX_TASK : Z := 100.
Definition MAX_NAME_SIZE : Z := 30.

(** The names are declared [char task_name[MAX_NAME_SIZE][MAX_TASK]]: 30 rows
    of 100 characters. *)
Definition SystemData_struct : struct_decl :=
  [("nextTaskID", CUInt); ("TaskIDLock", COpaque 40 8);
   ("shutdown_signal", CInt); ("threadRef", CLong);
   ("sleepers_lock", COpaque 40 8); ("sleepers", CArr (COpaque 48 8) MAX_TASK);
   ("task_name", CArr (CArr CChar MAX_TASK) MAX_NAME_SIZE);
   ("task_has_name", CArr CInt MAX_TASK); ("repository_mutex", COpaque 40 8)]%string.

Definition sizeof_SystemData := Eval vm_compute in struct_size SystemData_struct.
Definition SystemData_nextTaskID := Eval vm_compute in member SystemData_struct "nextTaskID".
Definition SystemData_TaskIDLock := Eval vm_compute in member SystemData_struct "TaskIDLock".
Definition SystemData_shutdown_signal :=
  Eval vm_compute in member SystemData_struct "shutdown_signal".
Definition SystemData_sleepers_lock := Eval vm_compute in member SystemData_struct "sleepers_lock".
Definition SystemData_sleepers := Eval vm_compute in member SystemData_struct "sleepers".
Definition SystemData_task_name := Eval vm_compute in member SystemData_struct "task_name".
Definition SystemData_task_has_name := Eval vm_compute in member SystemData_struct "task_has_name".
Definition SystemData_repository_mutex :=
  Eval vm_compute in member SystemData_struct "repository_mutex".

Definition System_struct : struct_decl :=
  [("data", CPtr); ("TaskTable", CArr CPtr MAX_TASK);
   ("send", CPtr); ("receive", CPtr); ("dropMsg", CPtr); ("getMsgTag", CPtr);
   ("getNextTaskID", CPtr); ("createMsgQ", CPtr); ("destroy", CPtr);
   ("message_notify", CPtr); ("message_wait", CPtr); ("message_immediate", CPtr);
   ("repository_set_name", CPtr); ("repository_get_id", CPtr)]%string.

Definition sizeof_System := Eval vm_compute in struct_size System_struct.
Definition System_data := Eval vm_compute in member System_struct "data".
Definition System_TaskTable := Eval vm_compute in member System_struct "TaskTable".
Definition System_methods : list (string * string) :=
  [("send", "System.send"); ("receive", "System.receive"); ("dropMsg", "System.dropMsg");
   ("getMsgTag", "System.getMsgTag"); ("getNextTaskID", "System.getNextTaskID");
   ("createMsgQ", "System.createMsgQ"); ("destroy", "System.destroy");
   ("message_immediate", "System.message_immediate");
   ("message_notify", "System.message_notify"); ("message_wait", "System.message_wait");
   ("repository_set_name", "System.repository_set_name");
   ("repository_get_id", "System.repository_get_id")]%string.

(** [&this->TaskTable[taskID]], [&data->task_name[i]], ... *)
Definition TaskTable_at (this : ptr) (taskID : Z) : ptr :=
  padd (addr_of this System_TaskTable) (8 * taskID).
Definition task_name_at (data : ptr) (i : Z) : ptr :=
  padd (addr_of data SystemData_task_name) (MAX_TASK * i).
Definition task_has_name_at (data : ptr) (i : Z) : ptr :=
  padd (addr_of data SystemData_task_has_name) (4 * i).
Definition sleeper_at (data : ptr) (i : Z) : ptr :=
  padd (addr_of data SystemData_sleepers) (48 * i).

(** [char buf[15]; sprintf(buf, "/TS_T%d", taskID);] *)
Definition queue_name (taskID : Z) : string := "/TS_T" +:+ pretty taskID.

Definition sprintf_name (taskID : Z) : M string :=
  if Nat.ltb (String.length (queue_name taskID)) 15 then ret (queue_name taskID) else fault.

Definition check_Q_and_acquire (this : ptr) (taskID : Z) : M unit :=
  Q <- ld_ptr (TaskTable_at this taskID);;
  if decide (Q = Null) then (
    buf <- sprintf_name taskID;;
    Q' <- AcquireQueue buf;;
    st_ptr (TaskTable_at this taskID) Q')
  else ret tt.

Definition send (this msg_data : ptr) (targetTaskID : Z) : M Z :=
  check_Q_and_acquire this targetTaskID;;;
  Q <- ld_ptr (TaskTable_at this targetTaskID);;
  Enqueue Q msg_data.

(** The report reads [msg->tid] when [msg] is NULL. *)
Definition receive (this : ptr) (targetTaskID : Z) : M ptr :=
  Q <- ld_ptr (TaskTable_at this targetTaskID);;
  msg <- Dequeue Q;;
  if decide (msg = Null) then (
    tid <- get_int msg Message_tid;;
    tag <- get_int msg Message_tag;;
    printf "SYSTEM ERROR : Dequeue failed" [AInt tid; AInt tag];;;
    exit (-1))
  else call_clone msg.

Definition dropMsg (this : ptr) (targetTaskID : Z) : M unit :=
  check_Q_and_acquire this targetTaskID;;;
  Q <- ld_ptr (TaskTable_at this targetTaskID);;
  Dequeue Q;;;
  ret tt.

Definition getMsgTag (this : ptr) (targetTaskID : Z) : M Z :=
  check_Q_and_acquire this targetTaskID;;;
  Q <- ld_ptr (TaskTable_at this targetTaskID);;
  msg <- Peek Q;;
  if decide (msg = Null) then ret (-1) else get_int msg Message_tag.

Definition getNextTaskID (this : ptr) : M Z :=
  data <- get_ptr this System_data;;
  mutex_lock (addr_of data SystemData_TaskIDLock);;;
  nextID <- get_uint data SystemData_nextTaskID;;
  set_int data SystemData_nextTaskID (nextID + 1);;;
  mutex_unlock (addr_of data SystemData_TaskIDLock);;;
  ret nextID.

Definition createMsgQ (this : ptr) (taskID : Z) : M unit :=
  buf <- sprintf_name taskID;;
  Q <- CreateQueue buf;;
  st_ptr (TaskTable_at this taskID) Q.

(** [pthread_join] waits for the signal loop, which ends after it has seen the
    shutdown signal. *)
Definition destroy (this : ptr) : M unit :=
  data <- get_ptr this System_data;;
  set_int data SystemData_shutdown_signal 1;;;
  nextTaskID <- get_uint data SystemData_nextTaskID;;
  for_range 1 nextTaskID (λ i, buf <- sprintf_name i;; DeleteQueue buf);;;
  shm_unlink SYSTEM_SHARED_MEM_NAME.

Definition message_immediate (this : ptr) (taskID : Z) : M Z :=
  check_Q_and_acquire this taskID;;;
  Q <- ld_ptr (TaskTable_at this taskID);;
  IsEmpty Q.

Definition message_notify (this : ptr) (taskID : Z) : M unit :=
  empty <- message_immediate this taskID;;
  if negb (empty =? 0) then (
    data <- get_ptr this System_data;;
    mutex_lock (addr_of data SystemData_sleepers_lock);;;
    cond_wait (sleeper_at data taskID) (addr_of data SystemData_sleepers_lock);;;
    mutex_unlock (addr_of data SystemData_sleepers_lock))
  else ret tt.

(** [sched_yield]. *)
Definition message_wait (this : ptr) (taskID : Z) : M unit := ret tt.

Definition repository_set_name (this name : ptr) (taskID : Z) : M unit :=
  data <- get_ptr this System_data;;
  mutex_lock (addr_of data SystemData_sleepers_lock);;;
  strncpy (task_name_at data taskID) name (Z.to_nat MAX_NAME_SIZE);;;
  st_i32 (task_has_name_at data taskID) 1;;;
  mutex_unlock (addr_of data SystemData_sleepers_lock).

Definition repository_get_id (this task_name : ptr) : M Z :=
  data <- get_ptr this System_data;;
  mutex_lock (addr_of data SystemData_sleepers_lock);;;
  found <- for_find (Z.to_nat MAX_TASK) 0 (λ i,
    has_name <- ld_i32 (task_has_name_at data i);;
    if has_name =? 1 then (
      comp <- strcmp task_name (task_name_at data i);;
      ret (if comp =? 0 then Some i else None))
    else ret None);;
  mutex_unlock (addr_of data SystemData_sleepers_lock);;;
  ret (default (-1) found).

Definition System_initialize (sys : ptr) : M unit :=
  fold_right (λ m k, set_fun sys (member System_struct m.1) m.2;;; k) (ret tt) System_methods;;;
  for_range 0 MAX_TASK (λ i, st_ptr (TaskTable_at sys i) Null).

Definition System_create : M ptr :=
  addr <- shm_create SYSTEM_SHARED_MEM_NAME sizeof_SystemData;;
  let shared_data := addr in
  newRec <- malloc sizeof_System;;
  if decide (newRec = Null) then FatalError else (
  set_ptr newRec System_data shared_data;;;
  System_initialize newRec;;;
  set_int shared_data SystemData_nextTaskID 1;;;
  mutex_init (addr_of shared_data SystemData_TaskIDLock);;;
  set_int shared_data SystemData_shutdown_signal 0;;;
  mutex_init (addr_of shared_data SystemData_sleepers_lock);;;
  mutex_lock (addr_of shared_data SystemData_sleepers_lock);;;
  for_range 0 MAX_TASK (λ i, cond_init (sleeper_at shared_data i));;;
  mutex_unlock (addr_of shared_data SystemData_sleepers_lock);;;
  for_range 0 MAX_TASK (λ i,
    st_i32 (task_has_name_at shared_data i) 0;;;
    empty <- str_lit "";;
    strncpy (task_name_at shared_data i) empty (Z.to_nat MAX_NAME_SIZE));;;
  mutex_init (addr_of shared_data SystemData_repository_mutex);;;
  result <- pthread_create "System.run" newRec;;
  if negb (result =? 0) then exit (-1) else ret newRec).

Definition System_acquire : M ptr :=
  addr <- shm_acquire SYSTEM_SHARED_MEM_NAME;;
  if decide (addr = Null) then exit (-1) else (
  let shared_data := addr in
  newRec <- malloc sizeof_System;;
  set_ptr newRec System_data shared_data;;;
  System_initialize newRec;;;
  ret newRec).

(** One turn of the signal loop: wake every task whose queue is not empty. *)
Definition signal_pass (this : ptr) : M unit :=
  data <- get_ptr this System_data;;
  mutex_lock (addr_of data SystemData_TaskIDLock);;;
  current_max_id <- get_int data SystemData_nextTaskID;;
  mutex_unlock (addr_of data SystemData_TaskIDLock);;;
  for_range 0 current_max_id (λ i,
    Q <- ld_ptr (TaskTable_at this i);;
    empty <- IsEmpty Q;;
    if empty =? 0 then cond_signal (sleeper_at data i) else ret tt).

(** [fuel] turns at most; the loop ends when the shutdown signal is set. *)
Fixpoint signal_loop (fuel : nat) (this : ptr) : M unit :=
  data <- get_ptr this System_data;;
  shutdown_signal <- get_int data SystemData_shutdown_signal;;
  if shutdown_signal <=? 0 then
    match fuel with
    | O => spin
    | S fuel' => signal_pass this;;; signal_loop fuel' this
    end
  else ret tt.

Definition loop_wait_signal (fuel : nat) (this : ptr) : M unit :=
  printf "System loop for wait and signal is started" [];;;
  signal_loop fuel this;;;
  printf "System loop for wait and signal has shutdown" [].

Definition run (fuel : nat) (SystemRef : ptr) : M unit :=
  let this := SystemRef in
  loop_wait_signal fuel this.

#[export] Hint Unfold SystemData_nextTaskID SystemData_TaskIDLock
  SystemData_shutdown_signal SystemData_sleepers_lock SystemData_sleepers
  SystemData_task_name SystemData_task_has_name SystemData_repository_mutex
  sizeof_SystemData sizeof_System System_data System_TaskTable MAX_TASK MAX_NAME_SIZE : fields.
