(* ===== verification/SystemSpec.v ===== *)
(** * The communication system: what its operations do

    [slot w p s t v]: entry [t] of the task table of the system object at block
    [s].  The lemmas give the effect of every operation on the table, on the
    queues and on the shared data. *)

From S2P Require Import Prelude CMem CLogic Messages MessageSpec Ring CircularMsgQ CircularSpec Demo.
From S2P Require Import QueueProps System.
From stdpp Require Import base numbers list strings gmap pretty.
From Stdlib Require Import Lia.
#[local] Open Scope Z_scope.
#[local] Open Scope ts_scope.

(** ** More rules *)

Lemma wp_for_find {A} (I : Z → world → Prop) n lo (body : Z → M (option A)) p w
    (Q : option A → world → Prop) :
  I lo w →
  (∀ i w', lo <= i < lo + Z.of_nat n → I i w' →
     wp (body i) p w' (λ r w'', match r with Some a => Q (Some a) w'' | None => I (i + 1) w'' end)) →
  (∀ w', I (lo + Z.of_nat n) w' → Q None w') →
  wp (for_find n lo body) p w Q.
Proof.
  revert lo w. induction n as [|n IH]; intros lo w HI Hb HQ.
  - apply wp_ret, HQ. by rewrite Z.add_0_r.
  - cbn [for_find]. apply wp_bind. eapply wp_mono; [apply Hb; [lia|done]|].
    intros [a|] w' Hr; [by apply wp_ret|]. apply IH; [done| |].
    + intros i w'' Hi. apply Hb. lia.
    + intros w''. replace (lo + 1 + Z.of_nat n) with (lo + Z.of_nat (S n)) by lia. apply HQ.
Qed.

Lemma wp_modify f p w (Q : unit → world → Prop) : Q tt (f w) → wp (modify f) p w Q.
Proof. done. Qed.

Lemma wp_st_ptr p w b o v (Q : unit → world → Prop) :
  valid w b o 8 → Q tt (upd w b o (enc_ptr v)) → wp (st_ptr (Addr p b o) v) p w Q.
Proof. intros H HQ. apply wp_store; [|done]. by autorewrite with len. Qed.

(** ** The task table *)

Definition slot_off (t : Z) : Z := 8 + 8 * t.

Definition slot (w : world) (s t : Z) (v : ptr) : Prop := mb w s (slot_off t) (enc_ptr v).

Lemma TaskTable_at_eq p s t : TaskTable_at (Addr p s 0) t = Addr p s (slot_off t).
Proof. unfold TaskTable_at, addr_of, padd, slot_off, System_TaskTable. cbn [f_off]. f_equal. Qed.

Lemma wp_slot p w s t v (Q : ptr → world → Prop) :
  slot w s t v → Q v w → wp (ld_ptr (TaskTable_at (Addr p s 0) t)) p w Q.
Proof. rewrite TaskTable_at_eq. apply wp_ld_ptr. Qed.

Lemma sprintf_name_ok t p w (Q : string → world → Prop) :
  (String.length (queue_name t) < 15)%nat → Q (queue_name t) w → wp (sprintf_name t) p w Q.
Proof. intros Hl HQ. unfold sprintf_name. destruct (Nat.ltb_spec (String.length (queue_name t)) 15); [done|lia]. Qed.

Definition acquire_report : string * list parg := ("ERROR; Error acquire Q for task %d "%string, []).

(** The table entry after [check_Q_and_acquire], and the state. *)
Definition acquired (p : Z) (w : world) (t : Z) (v : ptr) : ptr :=
  match v with
  | Null => match w_shm w !! queue_name t with Some q => Addr p q 0 | None => Null end
  | _ => v
  end.

Lemma check_Q_wp p w s t v :
  slot w s t v → (String.length (queue_name t) < 15)%nat →
  wp (check_Q_and_acquire (Addr p s 0) t) p w (λ _ w',
    slot w' s t (acquired p w t v) ∧
    ((v = Null → w_shm w !! queue_name t ≠ None) → ext (range s (slot_off t) 8) w w') ∧
    (v = Null → w_shm w !! queue_name t = None →
       w' = upd (add_out acquire_report w) s (slot_off t) (enc_ptr Null))).
Proof.
  intros Hs Hl. unfold check_Q_and_acquire. apply wp_bind. eapply wp_slot; [exact Hs|].
  destruct (decide (v = Null)) as [->|Hv].
  2:{ apply wp_ret. split; [by destruct v|]. split; [intros; apply ext_refl|done]. }
  apply wp_bind. apply sprintf_name_ok; [done|]. apply wp_bind. unfold AcquireQueue.
  apply wp_bind. unfold wp at 1, shm_acquire, acquired. rewrite TaskTable_at_eq.
  pose proof (mb_valid _ _ _ _ Hs) as Hval. autorewrite with len in Hval.
  destruct (w_shm w !! queue_name t) as [q|] eqn:Eq; cbn beta iota.
  - rewrite decide_False by done. apply wp_ret. apply wp_st_ptr; [done|].
    split; [by apply mb_upd_same; autorewrite with len|]. split; [|done].
    intros _. eapply ext_upd; [|apply ext_refl]. autorewrite with len. by intros k i _ Hi.
  - rewrite decide_True by done. apply wp_bind. unfold printf. apply wp_modify. apply wp_ret.
    apply wp_st_ptr; [by apply (valid_same_blocks w)|].
    split; [apply mb_upd_same; autorewrite with len; by apply (valid_same_blocks w)|]. split; [|done].
    intros H. by destruct (H eq_refl).
Qed.

(** ** Sending *)

Lemma q_inv_upd_slot w w' s t q r :
  ext (range s (slot_off t) 8) w w' → s ≠ q → q_inv w q r → q_inv w' q r.
Proof. intros He Hs. apply (q_inv_extF _ _ _ _ _ He). by intros i [? _]. Qed.

Lemma ld_slot p w s t v : slot w s t v → ld_ptr (TaskTable_at (Addr p s 0) t) p w = Ok v w.
Proof.
  intros Hs. destruct (wp_run _ _ _ _ (wp_slot p _ _ _ _ (λ v' w', v' = v ∧ w' = w) Hs (conj eq_refl eq_refl)))
    as (v' & w' & E & -> & ->). exact E.
Qed.

Lemma send_wp p w s t v q b o m d r :
  slot w s t v → (String.length (queue_name t) < 15)%nat → acquired p w t v = Addr p q 0 →
  q_inv w q r → unlocked w q → obj_at w p b o m d → msg_ok m → b ≠ q →
  arr_sep d (payload (m_body m)) q → arr_sep d (payload (m_body m)) b →
  m_size m + Q_SIZE < 2147483648 → s ≠ q → s ≠ b → arr_sep d (payload (m_body m)) s →
  wp (send (Addr p s 0) (Addr p b o) t) p w (λ a w',
    slot w' s t (Addr p q 0) ∧ unlocked w' q ∧
    match mring_enq r m with
    | Some r' => a = 1 ∧ q_inv w' q r' ∧ obj_at w' p b o (bump m) d ∧
                 ext (λ b' i, enq_foot q b o m b' i ∨ range s (slot_off t) 8 b' i) w w'
    | None => a = 0 ∧ q_inv w' q r
    end).
Proof.
  intros Hs Hl Hacq Hq Hu Ho Hm Hb Hd Hd' Hsz Hsq Hsb Hds. unfold send.
  apply wp_bind. eapply wp_mono; [by eapply check_Q_wp|]. cbv beta. intros _ w1 (Hs1 & He & _).
  rewrite Hacq in Hs1. specialize (He ltac:(intros -> Hn; unfold acquired in Hacq; by rewrite Hn in Hacq)).
  apply wp_bind. eapply wp_slot; [exact Hs1|].
  assert (q_inv w1 q r) as Hq1 by (by eapply q_inv_upd_slot).
  assert (unlocked w1 q) as Hu1 by (by eapply unlocked_ext).
  assert (obj_at w1 p b o m d) as Ho1.
  { eapply obj_extF; [apply Hm|exact He|by intros i [? _]| |exact Ho].
    destruct Hds as [?|Hds]; [by left|right]. intros b' i Hb' [-> _]. congruence. }
  eapply wp_mono; [by eapply Enqueue_wp|]. cbv beta. intros a w2 HQ.
  destruct (mring_enq r m) as [r'|].
  - destruct HQ as (-> & Hq2 & Ho2 & He2). split_and!; try done.
    + eapply mb_extF; [exact He2| |exact Hs1]. intros i _ [?|[_ [? _]]]; congruence.
    + by eapply unlocked_ext.
    + eapply ext_trans; [eapply ext_weaken; [|exact He]|eapply ext_weaken; [|exact He2]]; tauto.
  - destruct HQ as (-> & ->). split_and!; try done. by apply (q_inv_blocks w1).
Qed.

(** ** Receiving *)

(** On a queue that is not empty [receive] is [Dequeue] and [clone]. *)
Lemma receive_take p w s t q r x segs Q :
  slot w s t (Addr p q 0) → q_inv w q r → unlocked w q → r_segs r = x :: segs →
  wp (take_clone (Addr p q 0)) p w Q → wp (receive (Addr p s 0) t) p w Q.
Proof.
  intros Hs Hq Hu Hsegs. unfold receive, take_clone. intros Hwp. apply wp_bind.
  eapply wp_slot; [exact Hs|]. cbv beta. apply wp_bind.
  destruct (wp_run _ _ _ _ (Dequeue_wp p _ _ _ Hq Hu)) as (a & w1 & E & HQ).
  apply wp_bind_inv in Hwp. unfold wp at 1 in Hwp. unfold wp at 1. rewrite E in Hwp |- *.
  unfold ring_deq in HQ. rewrite Hsegs in HQ. destruct x. destruct HQ as (-> & _). exact Hwp.
Qed.

(** C3. When the queue of task [t] is empty and has room, the message that process
    [p] sends to [t] is what the owner of the task, process [p'], receives next: a fresh object with the same members and the
    same array, bound to the functions of [p'].  [p] may use the queue for the
    first time: the table entry is filled from the name of the queue. *)
Theorem system_send_receive p p' w s s' t v q b o m d r :
  wok w → slot w s t v → (String.length (queue_name t) < 15)%nat → acquired p w t v = Addr p q 0 →
  slot w s' t (Addr p' q 0) → s' ≠ s → s' ≠ q → s' ≠ b →
  q_inv w q r → r_segs r = [] → unlocked w q → obj_at w p b o m d → msg_ok m → b ≠ q →
  arr_sep d (payload (m_body m)) q → arr_sep d (payload (m_body m)) b →
  m_size m + Q_SIZE < 2147483648 → s ≠ q → s ≠ b → arr_sep d (payload (m_body m)) s →
  room r (m_size m) →
  ∃ w1 w2 b' d', send (Addr p s 0) (Addr p b o) t p w = Ok 1 w1 ∧
    receive (Addr p' s' 0) t p' w1 = Ok (Addr p' b' 0) w2 ∧
    obj_at w2 p' b' 0 m d' ∧ w_next w <= b' ∧
    slot w1 s t (Addr p q 0) ∧ ∃ r', q_inv w2 q r' ∧ r_segs r' = [].
Proof.
  intros Hok Hs Hl Hacq Hs' Hss Hsq' Hsb' Hq Hr Hu Ho Hm Hb Hd Hd' Hsz Hsq Hsb Hds Hroom.
  destruct (wp_run _ _ _ _ (send_wp _ _ _ _ _ _ _ _ _ _ _ Hs Hl Hacq Hq Hu Ho Hm Hb Hd Hd' Hsz Hsq Hsb Hds))
    as (a & w1 & E1 & Hs1 & Hu1 & HQ).
  destruct (mring_enq r m) as [r1|] eqn:Er; [|by apply enq_no_room in Er].
  destruct HQ as (-> & Hq1 & _ & He1). apply enq_after in Er as (pos & ro & _ & ->).
  rewrite Hr in Hq1.
  assert (slot w1 s' t (Addr p' q 0)) as Hs1'.
  { eapply mb_extF; [exact He1| |exact Hs']. unfold enq_foot, range. intros i _ ?. naive_solver. }
  destruct (wp_run _ _ _ _ (receive_take _ _ _ _ _ _ (pos, m) [] _ Hs1' Hq1 Hu1 eq_refl
    (take_clone_wp _ _ _ _ pos m [] (ext_wok _ _ _ He1 Hok) Hq1 Hu1 eq_refl)))
    as (a & w2 & E2 & Hu2 & He2 & Hr2 & b' & d' & -> & Hb' & Ho2 & _).
  exists w1, w2, b', d'. pose proof (ext_next _ _ _ He1). split_and!; try done. lia.
Qed.

(** A message sent to a task that no process has made a queue for is not an
    error of the program: [send] answers 0, prints its report, and only the table
    entry (which stays NULL) is written. *)
Theorem send_no_queue p w s t item :
  slot w s t Null → (String.length (queue_name t) < 15)%nat → w_shm w !! queue_name t = None →
  send (Addr p s 0) item t p w =
    Ok 0 (upd (add_out acquire_report w) s (slot_off t) (enc_ptr Null)).
Proof.
  intros Hs Hl Hn.
  destruct (wp_run _ _ _ _ (check_Q_wp p _ _ _ _ Hs Hl)) as (u & w' & E & Hs' & _ & Hw).
  specialize (Hw eq_refl Hn). unfold send, bind at 1. rewrite E. unfold bind.
  unfold acquired in Hs'. rewrite Hn in Hs'.
  pose proof (ld_slot p _ _ _ _ Hs') as E2.
  rewrite E2. by subst.
Qed.

Lemma check_Q_some p w s t q :
  slot w s t (Addr p q 0) → check_Q_and_acquire (Addr p s 0) t p w = Ok tt w.
Proof.
  intros Hs.
  pose proof (ld_slot p _ _ _ _ Hs) as E.
  unfold check_Q_and_acquire, bind at 1. by rewrite E.
Qed.

(** [receive] and [getMsgTag] where the code means to report an error or an
    empty queue: receiving from an empty queue reads a member of the NULL message
    for its report, receiving before the table entry is filled and looking at a
    task that has no queue lock a NULL queue; all three fault. *)
Theorem receive_faults p w s t q r :
  (slot w s t (Addr p q 0) → q_inv w q r → unlocked w q → r_segs r = [] →
     receive (Addr p s 0) t p w = Fault ∧ getMsgTag (Addr p s 0) t p w = Ok (-1) w) ∧
  (slot w s t Null → receive (Addr p s 0) t p w = Fault) ∧
  (slot w s t Null → (String.length (queue_name t) < 15)%nat → w_shm w !! queue_name t = None →
     getMsgTag (Addr p s 0) t p w = Fault).
Proof.
  split_and!.
  - intros Hs Hq Hu Hr.
    pose proof (ld_slot p _ _ _ _ Hs) as E.
    destruct (wp_run _ _ _ _ (Dequeue_wp p _ _ _ Hq Hu)) as (a & w1 & E1 & HQ).
    unfold ring_deq in HQ. rewrite Hr in HQ. destruct HQ as (-> & ->).
    destruct (wp_run _ _ _ _ (Peek_wp p _ _ _ Hq Hu)) as (a & w2 & E2 & -> & Ha). rewrite Hr in Ha. subst a.
    split.
    + unfold receive, bind at 1. rewrite E. unfold bind at 1. by rewrite E1.
    + unfold getMsgTag, bind at 1. rewrite (check_Q_some _ _ _ _ _ Hs). unfold bind at 1.
      rewrite E. unfold bind at 1. by rewrite E2.
  - intros Hs.
    pose proof (ld_slot p _ _ _ _ Hs) as E.
    unfold receive, bind at 1. rewrite E. done.
  - intros Hs Hl Hn.
    destruct (wp_run _ _ _ _ (check_Q_wp p _ _ _ _ Hs Hl)) as (u & w' & E & Hs' & _).
    unfold acquired in Hs'. rewrite Hn in Hs'.
    pose proof (ld_slot p _ _ _ _ Hs') as E2.
    unfold getMsgTag, bind at 1. rewrite E. unfold bind at 1. by rewrite E2.
Qed.

(** ** A system with two processes *)

(** Process 1 creates the system, task 1 and its queue; process 2 acquires the
    system and makes a message. *)
Definition demo_sys_1 : M ptr :=
  Comm <- System_create;;
  id <- getNextTaskID Comm;;
  createMsgQ Comm id;;;
  ret Comm.

Definition demo_sys_2 : M ptr :=
  Comm <- System_acquire;;
  bar <- BarMsg_create 1;; BarMsg_setValue bar 44;;;
  ret Comm.

Definition demo_sys : world :=
  state_of demo_sys_2 2 (state_of demo_sys_1 1 (world_init 7000 [] [])).

#[export] Instance slot_dec w s t v : Decision (slot w s t v).
Proof. unfold slot. apply _. Defined.

Lemma demo_sys_wok : wok demo_sys.
Proof. apply wokb_spec. vm_compute. reflexivity. Qed.
Lemma demo_sys_q_inv : q_inv demo_sys 103 (ring_empty sizeof_Queue).
Proof. apply q_inv_empty; apply (bool_decide_unpack _); vm_compute; reflexivity. Qed.

(** Decide the goal by evaluation. *)
Ltac by_eval := apply (bool_decide_unpack _); vm_compute; reflexivity.

Lemma system_send_receive_witness :
  ∃ w1 w2 b' d', send (Addr 2 104 0) (Addr 2 105 0) 1 2 demo_sys = Ok 1 w1 ∧
    receive (Addr 1 2 0) 1 1 w1 = Ok (Addr 1 b' 0) w2 ∧
    obj_at w2 1 b' 0 demo_bar d' ∧ w_next demo_sys <= b' ∧
    slot w1 104 1 (Addr 2 103 0) ∧ ∃ r', q_inv w2 103 r' ∧ r_segs r' = [].
Proof.
  apply (system_send_receive 2 1 demo_sys 104 2 1 Null 103 105 0 demo_bar Null
           (ring_empty sizeof_Queue));
    [exact demo_sys_wok | by_eval | by_eval | by_eval | by_eval | by_eval | by_eval | by_eval
    | exact demo_sys_q_inv | reflexivity | by_eval | by_eval | by_eval | by_eval | by_eval
    | by_eval | by_eval | by_eval | by_eval | by_eval
    | left; split; [reflexivity | left; vm_compute; discriminate]].
Defined.

Lemma send_no_queue_witness :
  send (Addr 2 104 0) (Addr 2 105 0) 9 2 demo_sys =
    Ok 0 (upd (add_out acquire_report demo_sys) 104 (slot_off 9) (enc_ptr Null)).
Proof. apply send_no_queue; by_eval. Defined.

Lemma receive_faults_witness :
  receive (Addr 1 2 0) 1 1 demo_sys = Fault ∧ getMsgTag (Addr 1 2 0) 1 1 demo_sys = Ok (-1) demo_sys ∧
  receive (Addr 2 104 0) 1 2 demo_sys = Fault ∧ getMsgTag (Addr 2 104 0) 9 2 demo_sys = Fault.
Proof.
  pose proof (receive_faults 1 demo_sys 2 1 103 (ring_empty sizeof_Queue)) as (H1 & _ & _).
  pose proof (receive_faults 2 demo_sys 104 1 103 (ring_empty sizeof_Queue)) as (_ & H2 & _).
  pose proof (receive_faults 2 demo_sys 104 9 103 (ring_empty sizeof_Queue)) as (_ & _ & H3).
  destruct H1 as [H1 H1']; [by_eval | exact demo_sys_q_inv | by_eval | reflexivity|].
  split; [exact H1|]. split; [exact H1'|]. split; [apply H2; by_eval | apply H3; by_eval].
Defined.

(** ** Task ids *)

(** The system object at block [s] of process [p] uses the shared data [D]. *)
Definition sys_at (w : world) (p s D : Z) : Prop := mb w s 0 (enc_ptr (Addr p D 0)).

#[export] Instance sys_at_dec w p s D : Decision (sys_at w p s D).
Proof. unfold sys_at. apply _. Defined.

Lemma wp_sys_data p w s D (Q : ptr → world → Prop) :
  sys_at w p s D → Q (Addr p D 0) w → wp (get_ptr (Addr p s 0) System_data) p w Q.
Proof. intros H HQ. by eapply wp_get_ptr. Qed.

Lemma ext_lock F D o w w' :
  (D, o) ∉ w_locks w → ext F (set_locks (λ l, {[(D, o)]} ∪ l) w) w' →
  ext F w (set_locks (λ l, l ∖ {[(D, o)]}) w').
Proof.
  intros Hu (Hf & He & Hn & Ho). split_and!; [done| |done|done].
  unfold env in *. cbn in He |- *. injection He as E1 E2 E3 E4 E5 E6 E7 E8.
  assert (w_locks w' ∖ {[(D, o)]} = w_locks w) as -> by (rewrite E1; set_solver). congruence.
Qed.

(** The task id lock of the shared data is free and the next id is [n]. *)
Definition next_id (w : world) (D n : Z) : Prop :=
  mb w D 0 (enc_i32 n) ∧ valid w D 8 1 ∧ (D, 8) ∉ w_locks w.

#[export] Instance next_id_dec w D n : Decision (next_id w D n).
Proof. unfold next_id. apply _. Defined.

Lemma getNextTaskID_wp p w s D n :
  sys_at w p s D → next_id w D n → 0 <= n < 4294967295 →
  wp (getNextTaskID (Addr p s 0)) p w (λ a w', a = n ∧ next_id w' D (n + 1) ∧
    ext (range D 0 4) w w').
Proof.
  intros Hs (Hn & Hv & Hl) Hb. unfold getNextTaskID.
  apply wp_bind. eapply wp_sys_data; [exact Hs|]. cbv beta.
  apply wp_bind. eapply wp_mutex_lock; [exact Hv|exact Hl|].
  set (wl := set_locks _ w). assert (mb wl D 0 (enc_i32 n)) as Hn' by (by apply (mb_same_blocks w)).
  assert (valid wl D 0 4) as Hv4 by (apply mb_valid in Hn'; by autorewrite with len in Hn').
  apply wp_bind. eapply wp_get_uint; [exact Hn'|]. rewrite u32_small by (unfold is_u32; lia).
  apply wp_bind. eapply wp_set_int; [exact Hv4|].
  change (0 + f_off SystemData_nextTaskID) with 0. set (w1 := upd wl D 0 _).
  assert (ext (range D 0 4) wl w1) as He.
  { eapply ext_upd; [|apply ext_refl]. autorewrite with len. by intros k i _ Hi. }
  apply wp_bind. eapply wp_mutex_unlock; [apply valid_upd; by apply (valid_same_blocks w)|]. apply wp_ret.
  assert (ext (range D 0 4) w (set_locks (λ l, l ∖ {[(D, 8)]}) w1)) as He' by (by apply ext_lock).
  split; [done|]. split; [|exact He']. split_and!.
  - apply (mb_same_blocks w1); [done|]. apply mb_upd_same. by autorewrite with len.
  - by eapply valid_extF.
  - cbn. set_solver.
Qed.

Lemma no_locks w : w_locks w = ∅ → ∀ q o, (q, o) ∉ w_locks w.
Proof. intros ->. set_solver. Qed.

(** ** Bounds of the tables *)

(** Nothing compares a task id with [MAX_TASK]: the queue of task 100 is
    stored over the [send] member of the system object, and from then on every
    send of the process faults. *)
Theorem createMsgQ_100 p w s :
  wok w → w_shm w !! queue_name 100 = None → 0 <= w_guard w → (∀ o, (w_next w, o) ∉ w_locks w) →
  valid w s 0 (Z.to_nat sizeof_System) →
  ∃ w' q, createMsgQ (Addr p s 0) 100 p w = Ok tt w' ∧
    mb w' s (f_off (member System_struct "send")) (enc_ptr (Addr p q 0)) ∧
    ∀ m t, call_through (Addr p s 0) (member System_struct "send")
             [("System.send"%string, send (Addr p s 0) m t)] p w' = Fault.
Proof.
  intros Hok Hn Hg Hl Hv.
  destruct (CreateQueue_new p w (queue_name 100) Hok Hn Hg Hl) as (w1 & E & _ & _ & _ & Hf).
  assert (valid w1 s 808 8) as Hv1.
  { destruct Hv as (k & Hk & Hb). destruct (Hf s k Hk) as (k' & Hk' & Hs & _). exists k'. split; [done|].
    unfold in_block, sizeof_System in *. lia. }
  set (w2 := upd w1 s 808 (enc_ptr (Addr p (w_next w) 0))).
  assert (mb w2 s 808 (enc_ptr (Addr p (w_next w) 0))) as Hm by (apply mb_upd_same; by autorewrite with len).
  exists w2, (w_next w). split; [|split; [exact Hm|]].
  - unfold createMsgQ, sprintf_name. replace (Nat.ltb _ 15) with true by reflexivity.
    unfold bind, ret. rewrite E. rewrite TaskTable_at_eq. change (slot_off 100) with 808.
    destruct (wp_run _ _ _ _ (wp_st_ptr p _ _ _ (Addr p (w_next w) 0) (λ _ w', w' = w2) Hv1 eq_refl))
      as ([] & w' & E2 & ->). exact E2.
  - intros m t. unfold call_through, bind at 1.
    destruct (wp_run _ _ _ _ (wp_get_ptr p w2 s 0 (member System_struct "send") _ (λ v w', v = Addr p (w_next w) 0 ∧ w' = w2) Hm (conj eq_refl eq_refl)))
      as (v & w' & E2 & -> & ->). by rewrite E2.
Qed.

Lemma createMsgQ_100_witness :
  ∃ w' q, createMsgQ (Addr 2 104 0) 100 2 demo_sys = Ok tt w' ∧
    mb w' 104 (f_off (member System_struct "send")) (enc_ptr (Addr 2 q 0)) ∧
    ∀ m t, call_through (Addr 2 104 0) (member System_struct "send")
             [("System.send"%string, send (Addr 2 104 0) m t)] 2 w' = Fault.
Proof.
  apply (createMsgQ_100 2 demo_sys 104); [exact demo_sys_wok | by_eval | by_eval | | by_eval].
  apply (no_locks demo_sys). vm_compute. reflexivity.
Defined.
