(* ===== verification/TaskIds.v ===== *)
(** * Processes that ask for task ids

    [getNextTaskID] of [src/TaskSystem/src/System/System.c], one statement at a time:
    the processes run at the same time, and their statements interleave in any way.
    The mutex in the shared data keeps their ids apart. *)

From S2P Require Import Prelude CMem CLogic Messages MessageSpec Ring CircularMsgQ CircularSpec Demo.
From S2P Require Import QueueProps System SystemSpec.
From stdpp Require Import base numbers list strings gmap.
From Stdlib Require Import Lia.
#[local] Open Scope Z_scope.
#[local] Open Scope ts_scope.

(** ** The statements *)

(** [this->data->nextTaskID++] is a load and a store. *)
Inductive id_pc := ILock | IRead | ILoad | IStore | IUnlock | IReturn.

#[export] Instance id_pc_dec : EqDecision id_pc.
Proof. solve_decision. Defined.

(** A call: the process, its system object, the next statement, [nextID] and what was
    loaded. *)
Record caller := Caller { c_p : Z; c_sys : Z; c_pc : id_pc; c_nextID : Z; c_loaded : Z }.

(** A statement goes on, waits for the mutex, or is undefined behaviour; or the call has
    returned. *)
Inductive id_outcome := IdGo (w : world) (c : caller) | IdWait | IdReturned | IdBad.

(** What is done with the shared data. *)
Definition with_data {A} (c : caller) (f : ptr → M A) (w : world) : res A :=
  (data <- get_ptr (Addr (c_p c) (c_sys c) 0) System_data;; f data) (c_p c) w.

Definition getNextTaskID_stmt (w : world) (c : caller) : id_outcome :=
  let next {A} (r : res A) (f : A → caller) :=
    match r with Ok a w => IdGo w (f a) | Spin => IdWait | _ => IdBad end in
  let at_pc pc := Caller (c_p c) (c_sys c) pc (c_nextID c) (c_loaded c) in
  match c_pc c with
  | ILock => next (with_data c (λ data, mutex_lock (addr_of data SystemData_TaskIDLock)) w) (λ _, at_pc IRead)
  | IRead => next (with_data c (λ data, get_uint data SystemData_nextTaskID) w)
               (λ n, Caller (c_p c) (c_sys c) ILoad n (c_loaded c))
  | ILoad => next (with_data c (λ data, get_uint data SystemData_nextTaskID) w)
               (λ n, Caller (c_p c) (c_sys c) IStore (c_nextID c) n)
  | IStore => next (with_data c (λ data, set_int data SystemData_nextTaskID (c_loaded c + 1)) w) (λ _, at_pc IUnlock)
  | IUnlock => next (with_data c (λ data, mutex_unlock (addr_of data SystemData_TaskIDLock)) w) (λ _, at_pc IReturn)
  | IReturn => IdReturned
  end.

(** One statement of one of the calls. *)
Inductive id_step : world * list caller → world * list caller → Prop :=
| id_step_go w cs k c w' c' : cs !! k = Some c → getNextTaskID_stmt w c = IdGo w' c' → id_step (w, cs) (w', <[k := c']> cs).

Inductive id_steps : nat → world * list caller → world * list caller → Prop :=
| id_steps_nil x : id_steps 0 x x
| id_steps_snoc n x y z : id_steps n x y → id_step y z → id_steps (S n) x z.

(** A process and its system object, for each call. *)
Definition id_calls (calls : list (Z * Z)) : list caller := map (λ c, Caller c.1 c.2 ILock 0 0) calls.

Definition id_stuck (x : world * list caller) : Prop := ∀ y, ¬ id_step x y.

(** The ids of the calls that satisfy [P]. *)
Definition ids_of (P : id_pc → bool) (cs : list caller) : list Z :=
  omap (λ c, if P (c_pc c) then Some (c_nextID c) else None) cs.

#[global] Arguments ids_of P cs : simpl never.

Definition returned (pc : id_pc) : bool := match pc with IReturn => true | _ => false end.
(** The counter was incremented. *)
Definition stored (pc : id_pc) : bool := match pc with IUnlock | IReturn => true | _ => false end.

(** ** The invariant *)

Definition inside (c : caller) : Z := match c_pc c with ILock | IReturn => 0 | _ => 1 end.

Definition caller_ok (count : Z) (c : caller) : Prop :=
  match c_pc c with
  | ILoad => c_nextID c = count
  | IStore => c_nextID c = count ∧ c_loaded c = count
  | _ => True
  end.

(** [count] is the counter, [n] what it was at the start. *)
Record id_inv (D n : Z) (x : world * list caller) (count : Z) : Prop := {
  ii_sys : Forall (λ c, sys_at x.1 (c_p c) (c_sys c) D ∧ c_sys c ≠ D) x.2;
  ii_count : mb x.1 D 0 (enc_i32 count);
  ii_valid : valid x.1 D 8 1;
  ii_lock : zsum inside x.2 = (if decide ((D, 8) ∈ w_locks x.1) then 1 else 0);
  ii_ok : Forall (caller_ok count) x.2;
  ii_ids : ids_of stored x.2 ≡ₚ seqZ n (count - n);
  ii_bounds : 0 <= n <= count ∧ n + Z.of_nat (length x.2) <= 4294967295
}.

Lemma ids_of_cons P c cs : ids_of P (c :: cs) = (if P (c_pc c) then [c_nextID c] else []) ++ ids_of P cs.
Proof. unfold ids_of. cbn. by destruct (P (c_pc c)). Qed.

Lemma ids_of_same P cs k c c' : cs !! k = Some c → P (c_pc c') = P (c_pc c) → c_nextID c' = c_nextID c ∨ P (c_pc c) = false →
  ids_of P (<[k := c']> cs) = ids_of P cs.
Proof.
  revert k. induction cs as [|x cs IH]; intros [|k] Hk Hp Hn; simplify_eq/=.
  - rewrite !ids_of_cons, Hp. destruct Hn as [-> | ->]; done.
  - rewrite !ids_of_cons. by rewrite (IH k).
Qed.

Lemma ids_of_more P cs k c c' : cs !! k = Some c → P (c_pc c) = false → P (c_pc c') = true →
  ids_of P (<[k := c']> cs) ≡ₚ c_nextID c' :: ids_of P cs.
Proof.
  revert k. induction cs as [|x cs IH]; intros [|k] Hk Hp Hp'; simplify_eq/=.
  - by rewrite !ids_of_cons, Hp, Hp'.
  - rewrite !ids_of_cons, (IH k) by done. rewrite Permutation_middle. done.
Qed.

Lemma ids_of_length P cs : Z.of_nat (length (ids_of P cs)) = zsum (λ c, if P (c_pc c) then 1 else 0) cs.
Proof.
  induction cs as [|c cs IH]; [done|]. rewrite ids_of_cons, zsum_cons, <-IH, length_app.
  destruct (P (c_pc c)); cbn [length]; lia.
Qed.

Lemma ids_of_sublist P Q cs : (∀ pc, P pc = true → Q pc = true) → ids_of P cs `sublist_of` ids_of Q cs.
Proof.
  intros H. induction cs as [|c cs IH]; [done|]. rewrite !ids_of_cons. apply sublist_app; [|done].
  destruct (P (c_pc c)) eqn:E; [by rewrite (H _ E)|apply sublist_nil_l].
Qed.

(** ** Its steps *)

Lemma with_data_at {A} c (f : ptr → M A) w D : sys_at w (c_p c) (c_sys c) D → with_data c f w = f (Addr (c_p c) D 0) (c_p c) w.
Proof.
  intros Hs. unfold with_data.
  destruct (wp_run (get_ptr (Addr (c_p c) (c_sys c) 0) System_data) (c_p c) w (λ a w', a = Addr (c_p c) D 0 ∧ w' = w)) as (a & w' & E & -> & ->).
  { by eapply wp_sys_data. }
  unfold bind. by rewrite E.
Qed.

Lemma inside_range c : 0 <= inside c <= 1.
Proof. unfold inside. destruct (c_pc c); lia. Qed.

(** A call that is inside is the only one. *)
Lemma caller_alone D n w cs count k c :
  id_inv D n (w, cs) count → cs !! k = Some c → inside c = 1 →
  (D, 8) ∈ w_locks w ∧ zsum inside cs = 1 ∧ ∀ count' c', caller_ok count' c' → Forall (caller_ok count') (<[k := c']> cs).
Proof.
  intros Hi Hk Hc. pose proof (ii_lock _ _ _ _ Hi) as Hl. cbn [fst snd] in Hl.
  assert (1 <= zsum inside cs) as H1.
  { rewrite <-Hc. apply (zsum_one inside cs k); [|done]. apply Forall_forall. intros x _. pose proof (inside_range x). lia. }
  destruct (decide ((D, 8) ∈ w_locks w)) as [Hin|]; [|lia]. split; [done|]. split; [done|]. intros count' c' Hok.
  apply Forall_lookup. intros j x Hj. destruct (decide (j = k)) as [->|Hne].
  { rewrite list_lookup_insert_eq in Hj by by eapply lookup_lt_Some. by injection Hj as <-. }
  rewrite list_lookup_insert_ne in Hj by done.
  assert (inside x = 0) as Hx.
  { pose proof (zsum_insert inside cs k c (Caller 0 0 ILock 0 0) Hk) as E. cbn [inside c_pc] in E.
    pose proof (zsum_one inside (<[k := Caller 0 0 ILock 0 0]> cs) j x) as Ho.
    rewrite list_lookup_insert_ne in Ho by done. specialize (Ho ltac:(apply Forall_forall; intros y _; pose proof (inside_range y); lia) Hj).
    pose proof (inside_range x). lia. }
  unfold caller_ok. unfold inside in Hx. by destruct (c_pc x).
Qed.

(** A statement that changes only what is below. *)
Lemma id_inv_go D n w cs count k c w' c' count' :
  id_inv D n (w, cs) count → cs !! k = Some c → c_p c' = c_p c → c_sys c' = c_sys c →
  ext (range D 0 4) w w' ∨ w_blocks w' = w_blocks w → mb w' D 0 (enc_i32 count') → count <= count' →
  zsum inside cs - inside c + inside c' = (if decide ((D, 8) ∈ w_locks w') then 1 else 0) →
  Forall (caller_ok count') (<[k := c']> cs) → ids_of stored (<[k := c']> cs) ≡ₚ seqZ n (count' - n) →
  id_inv D n (w', <[k := c']> cs) count'.
Proof.
  intros [Hs Hc Hv Hl Hok Hids Hb] Hk Hp Hsys He Hm Hle Hz Hok' Hids'. cbn [fst snd] in *.
  assert (∀ p s, sys_at w p s D → s ≠ D → sys_at w' p s D) as Hsame.
  { intros p s Hps Hne. destruct He as [He|He]; [|by eapply mb_same_blocks].
    eapply mb_extF; [exact He| |exact Hps]. by intros i _ [? _]. }
  split; cbn [fst snd].
  - apply Forall_lookup. intros j x Hj. rewrite Forall_lookup in Hs. destruct (decide (j = k)) as [->|Hne].
    + rewrite list_lookup_insert_eq in Hj by by eapply lookup_lt_Some. injection Hj as <-.
      destruct (Hs k c Hk). rewrite Hp, Hsys. auto.
    + rewrite list_lookup_insert_ne in Hj by done. destruct (Hs j x Hj). auto.
  - done.
  - destruct He as [He|He]; [by eapply valid_extF|by eapply valid_same_blocks].
  - by rewrite (zsum_insert _ _ _ _ _ Hk).
  - done.
  - done.
  - rewrite length_insert. lia.
Qed.

Lemma read_count p w D count : mb w D 0 (enc_i32 count) → 0 <= count < 4294967296 →
  get_uint (Addr p D 0) SystemData_nextTaskID p w = Ok count w.
Proof.
  intros Hm Hb. destruct (wp_run (get_uint (Addr p D 0) SystemData_nextTaskID) p w (λ a w', a = count ∧ w' = w)) as (a & w' & E & -> & ->); [|done].
  eapply wp_get_uint; [exact Hm|]. by rewrite u32_small.
Qed.

Lemma store_count p w D v : valid w D 0 4 →
  set_int (Addr p D 0) SystemData_nextTaskID v p w = Ok tt (upd w D 0 (enc_i32 v)).
Proof.
  intros Hv. destruct (wp_run (set_int (Addr p D 0) SystemData_nextTaskID v) p w (λ _ w', w' = upd w D 0 (enc_i32 v))) as ([] & w' & E & ->); [|done].
  by eapply wp_set_int.
Qed.

(** Every statement is defined, keeps the invariant, or waits for a call that is inside. *)
Lemma id_stmt_inv D n w cs count k c :
  id_inv D n (w, cs) count → cs !! k = Some c →
  match getNextTaskID_stmt w c with
  | IdGo w' c' => ∃ count', id_inv D n (w', <[k := c']> cs) count'
  | IdWait => (D, 8) ∈ w_locks w ∧ c_pc c = ILock
  | IdReturned => c_pc c = IReturn
  | IdBad => False
  end.
Proof.
  intros Hi Hk. pose proof Hi as [Hs Hc Hv Hl Hok Hids Hb]. cbn [fst snd] in *.
  rewrite Forall_lookup in Hs. destruct (Hs k c Hk) as [Hsc Hne].
  pose proof (Forall_lookup_1 _ _ _ _ Hok Hk) as Hokc.
  assert (valid w D 0 4) as Hv4 by (pose proof (mb_valid _ _ _ _ Hc) as H4; by autorewrite with len in H4).
  assert (zsum (λ c, if stored (c_pc c) then 1 else 0) cs = count - n) as Hsum.
  { rewrite <-ids_of_length, Hids, length_seqZ. lia. }
  assert (zsum (λ c, if stored (c_pc c) then 1 else 0) cs <= Z.of_nat (length cs) * 1) as Hle.
  { apply zsum_bound, Forall_forall. intros x _. by destruct (stored (c_pc x)). }
  unfold getNextTaskID_stmt. destruct (c_pc c) eqn:Hpc; cbn [mret]; rewrite ?(with_data_at _ _ _ _ Hsc).
  - unfold mutex_lock, addr_of, padd. rewrite accessible_valid by done. change (mutex_id _) with (D, 8).
    destruct (decide ((D, 8) ∈ w_locks w)) as [Hin|Hin]; [done|]. exists count. eapply id_inv_go; [done..| | | | | |]; cbn.
    + by right.
    + by eapply mb_same_blocks.
    + done.
    + rewrite decide_True by set_solver. rewrite Hl. unfold inside. by rewrite Hpc.
    + by apply Forall_insert.
    + rewrite (ids_of_same stored cs k c); [done|done|by rewrite Hpc|by left].
  - (* IRead *)
    rewrite (read_count _ w D count) by (done || lia). cbn. exists count.
    destruct (caller_alone _ _ _ _ _ _ _ Hi Hk) as (Hin & H1 & Hall); [unfold inside; by rewrite Hpc|].
    eapply id_inv_go; [done..| | | | | |]; cbn.
    + by right.
    + done.
    + done.
    + rewrite decide_True by done. rewrite H1. unfold inside. by rewrite Hpc.
    + by apply Hall.
    + rewrite (ids_of_same stored cs k c); [done|done|by rewrite Hpc|right; by rewrite Hpc].
  - (* ILoad *)
    rewrite (read_count _ w D count) by (done || lia). cbn. exists count.
    destruct (caller_alone _ _ _ _ _ _ _ Hi Hk) as (Hin & H1 & Hall); [unfold inside; by rewrite Hpc|].
    unfold caller_ok in Hokc. rewrite Hpc in Hokc. eapply id_inv_go; [done..| | | | | |]; cbn.
    + by right.
    + done.
    + done.
    + rewrite decide_True by done. rewrite H1. unfold inside. by rewrite Hpc.
    + by apply Hall.
    + rewrite (ids_of_same stored cs k c); [done|done|by rewrite Hpc|right; by rewrite Hpc].
  - (* IStore *)
    unfold caller_ok in Hokc. rewrite Hpc in Hokc. destruct Hokc as [Hn Hld].
    rewrite store_count by done. cbn. exists (count + 1).
    destruct (caller_alone _ _ _ _ _ _ _ Hi Hk) as (Hin & H1 & Hall); [unfold inside; by rewrite Hpc|].
    rewrite Hld. eapply id_inv_go; [done..| | | | | |]; cbn.
    + left. eapply ext_upd; [|apply ext_refl]. autorewrite with len. by intros j i _ Hj.
    + apply mb_upd_same. by autorewrite with len.
    + lia.
    + rewrite upd_locks, decide_True by done. rewrite H1. unfold inside. by rewrite Hpc.
    + by apply Hall.
    + rewrite (ids_of_more stored cs k c); [|done|by rewrite Hpc|done]. cbn [c_nextID]. rewrite Hids, Hn.
      replace (count + 1 - n) with ((count - n) + 1) by lia. rewrite seqZ_app by lia.
      replace (n + (count - n)) with count by lia. cbn. by rewrite Permutation_app_comm.
  - (* IUnlock *)
    unfold mutex_unlock, addr_of, padd. rewrite accessible_valid by done. change (mutex_id _) with (D, 8). exists count.
    destruct (caller_alone _ _ _ _ _ _ _ Hi Hk) as (Hin & H1 & Hall); [unfold inside; by rewrite Hpc|].
    eapply id_inv_go; [done..| | | | | |]; cbn.
    + by right.
    + by eapply mb_same_blocks.
    + done.
    + rewrite decide_False by set_solver. rewrite H1. unfold inside. by rewrite Hpc.
    + by apply Hall.
    + rewrite (ids_of_same stored cs k c); [done|done|by rewrite Hpc|by left].
  - done.
Qed.

(** The statements that a call has run. *)
Definition stmts_run (c : caller) : Z :=
  match c_pc c with ILock => 0 | IRead => 1 | ILoad => 2 | IStore => 3 | IUnlock => 4 | IReturn => 5 end.

Lemma stmt_counts w c w' c' : getNextTaskID_stmt w c = IdGo w' c' → stmts_run c' = stmts_run c + 1.
Proof.
  unfold getNextTaskID_stmt, stmts_run. destruct c as [p s pc i l]. cbn [c_pc]. destruct pc; intros E;
    repeat case_match; simplify_eq; try done.
Qed.

Lemma id_steps_inv D n m x y count :
  id_inv D n x count → id_steps m x y →
  (∃ count', id_inv D n y count') ∧ zsum stmts_run y.2 = zsum stmts_run x.2 + Z.of_nat m ∧ length y.2 = length x.2.
Proof.
  intros Hx Hs. induction Hs as [x|m x y z Hs IH Hstep]; [split; [by exists count|lia]|].
  destruct (IH Hx) as ((count' & Hy) & Hr & Hlen). destruct Hstep as [w cs k c w' c' Hk E]. cbn [snd] in *.
  pose proof (id_stmt_inv _ _ _ _ _ _ _ Hy Hk) as H. rewrite E in H. split; [done|].
  rewrite (zsum_insert _ _ _ _ _ Hk), (stmt_counts _ _ _ _ E), length_insert. lia.
Qed.

Lemma id_inv_start w D n calls :
  Forall (λ c, sys_at w c.1 c.2 D ∧ c.2 ≠ D) calls → next_id w D n → 0 <= n →
  n + Z.of_nat (length calls) <= 4294967295 → id_inv D n (w, id_calls calls) n.
Proof.
  intros Hc (Hm & Hv & Hl) H0 Hlen. unfold id_calls. split; cbn [fst snd].
  - apply Forall_map. exact Hc.
  - done.
  - done.
  - rewrite decide_False by done. clear Hc Hlen. induction calls as [|c calls IH]; [done|]. cbn [map]. rewrite zsum_cons. cbn [inside c_pc]. lia.
  - apply Forall_map, Forall_forall. done.
  - rewrite Z.sub_diag. clear. induction calls as [|c calls IH]; [done|]. cbn [map]. by rewrite ids_of_cons.
  - rewrite length_map. lia.
Qed.

(** When no call can go on, all have returned. *)
Lemma id_stuck_returned D n w cs count : id_inv D n (w, cs) count → id_stuck (w, cs) → Forall (λ c, c_pc c = IReturn) cs.
Proof.
  intros Hi Hstuck.
  assert (∀ k c, cs !! k = Some c → c_pc c = IReturn ∨ c_pc c = ILock ∧ (D, 8) ∈ w_locks w) as Hall.
  { intros k c Hk. pose proof (id_stmt_inv _ _ _ _ _ _ _ Hi Hk) as H.
    destruct (getNextTaskID_stmt w c) as [w' c'| | |] eqn:E; [|right; tauto|by left|done].
    exfalso. eapply Hstuck. by econstructor. }
  apply Forall_lookup. intros k c Hk. destruct (Hall k c Hk) as [|[_ Hin]]; [done|].
  pose proof (ii_lock _ _ _ _ Hi) as Hl. cbn [fst snd] in Hl. rewrite decide_True in Hl by done.
  destruct (zsum_pos inside cs) as (j & x & Hj & Hx); [lia|]. unfold inside in Hx.
  destruct (Hall j x Hj) as [E|[E _]]; by rewrite E in Hx.
Qed.

Lemma ids_of_all cs : Forall (λ c, c_pc c = IReturn) cs → ids_of returned cs = map c_nextID cs.
Proof. induction 1 as [|c cs Hc _ IH]; [done|]. rewrite ids_of_cons, Hc, IH. done. Qed.

(** C9. Task ids are unique: when any processes ask for ids at the same time, up to the
    size of the counter, in any interleaving of the statements of their calls no
    statement is undefined behaviour, the calls that have returned have ids that are
    all different, and a run has at most five statements per call; when no call can
    go on, all have returned, with consecutive ids from the counter on, and the
    counter is behind them. *)
Theorem ids_unique w D n calls m w' cs :
  Forall (λ c, sys_at w c.1 c.2 D ∧ c.2 ≠ D) calls → next_id w D n → 0 <= n →
  n + Z.of_nat (length calls) <= 4294967295 →
  id_steps m (w, id_calls calls) (w', cs) →
  (∀ k c, cs !! k = Some c → getNextTaskID_stmt w' c ≠ IdBad) ∧
  NoDup (ids_of returned cs) ∧ (m <= 5 * length calls)%nat ∧
  (id_stuck (w', cs) →
     Forall (λ c, c_pc c = IReturn) cs ∧ map c_nextID cs ≡ₚ seqZ n (Z.of_nat (length calls)) ∧
     next_id w' D (n + Z.of_nat (length calls))).
Proof.
  intros Hc Hn H0 Hlen Hs.
  destruct (id_steps_inv _ _ _ _ _ _ (id_inv_start _ _ _ _ Hc Hn H0 Hlen) Hs) as ((count & Hi) & Hr & Hl). cbn [snd] in *.
  pose proof Hi as [_ Hm Hv Hlk _ Hids _]. cbn [fst snd] in *. unfold id_calls in Hl. rewrite length_map in Hl. split_and!.
  - intros k c Hk E. pose proof (id_stmt_inv _ _ _ _ _ _ _ Hi Hk) as H. by rewrite E in H.
  - eapply sublist_NoDup; [|apply (ids_of_sublist returned stored); by intros []]. rewrite Hids. apply NoDup_seqZ.
  - assert (zsum stmts_run (id_calls calls) = 0) as Hz.
    { clear. unfold id_calls. induction calls as [|c calls IH]; [done|]. cbn [map]. rewrite zsum_cons, IH. done. }
    assert (zsum stmts_run cs <= Z.of_nat (length cs) * 5) as Hb; [|lia].
    apply zsum_bound, Forall_forall. intros c _. unfold stmts_run. destruct (c_pc c); lia.
  - intros Hstuck. pose proof (id_stuck_returned _ _ _ _ _ Hi Hstuck) as Hd. split; [done|].
    assert (ids_of stored cs = map c_nextID cs) as Ei.
    { clear -Hd. induction Hd as [|c cs Hc _ IH]; [done|]. rewrite ids_of_cons, Hc, IH. done. }
    rewrite Ei in Hids. assert (count = n + Z.of_nat (length calls)) as ->.
    { apply Permutation_length in Hids as El. rewrite length_map, length_seqZ in El.
      pose proof (ii_bounds _ _ _ _ Hi). lia. }
    split; [rewrite Hids; by replace (n + Z.of_nat (length calls) - n) with (Z.of_nat (length calls)) by lia|].
    split_and!; [done..|]. intros Hin. rewrite decide_True in Hlk by done.
    rewrite (zsum_const _ 0) in Hlk; [lia|]. eapply Forall_impl; [exact Hd|]. intros c Ec. unfold inside. by rewrite Ec.
Qed.

(** A call that runs alone does what [getNextTaskID] does. *)
Lemma getNextTaskID_alone p s w D n :
  sys_at w p s D → s ≠ D → next_id w D n → 0 <= n < 4294967295 →
  ∃ w', getNextTaskID (Addr p s 0) p w = Ok n w' ∧ id_steps 5 (w, [Caller p s ILock 0 0]) (w', [Caller p s IReturn n n]).
Proof.
  intros Hs Hne (Hm & Hv & Hl) Hb.
  set (wl := set_locks (λ l, {[(D, 8)]} ∪ l) w). set (w1 := upd wl D 0 (enc_i32 (n + 1))).
  assert (sys_at wl p s D) as Hsl by (by apply (mb_same_blocks w)).
  assert (sys_at w1 p s D) as Hs1 by (by apply mb_upd_block).
  assert (mb wl D 0 (enc_i32 n)) as Hml by (by apply (mb_same_blocks w)).
  assert (valid wl D 0 4) as Hv4 by (apply mb_valid in Hml; by autorewrite with len in Hml).
  assert (valid w1 D 8 1) as Hv1 by (by apply valid_upd, (valid_same_blocks w)).
  assert (∀ v, sys_at v p s D → get_ptr (Addr p s 0) System_data p v = Ok (Addr p D 0) v) as Hdata.
  { intros v Hsv. destruct (wp_run (get_ptr (Addr p s 0) System_data) p v (λ a w', a = Addr p D 0 ∧ w' = v)) as (a & v' & E & -> & ->); [|done].
    by eapply wp_sys_data. }
  assert (mutex_lock (Addr p D 8) p w = Ok tt wl) as El.
  { unfold mutex_lock. rewrite accessible_valid by done. change (mutex_id _) with (D, 8). by rewrite decide_False. }
  assert (mutex_unlock (Addr p D 8) p w1 = Ok tt (set_locks (λ l, l ∖ {[(D, 8)]}) w1)) as Eu.
  { unfold mutex_unlock. by rewrite accessible_valid. }
  exists (set_locks (λ l, l ∖ {[(D, 8)]}) w1). split.
  - unfold getNextTaskID, bind at 1. rewrite (Hdata _ Hs). unfold bind at 1. change (addr_of (Addr p D 0) SystemData_TaskIDLock) with (Addr p D 8).
    rewrite El. unfold bind at 1. rewrite (read_count _ _ _ _ Hml) by lia. unfold bind at 1. rewrite (store_count _ _ _ _ Hv4).
    unfold bind. fold w1. by rewrite Eu.
  - assert (∀ k v v' c c' x, id_steps k x (v, [c]) → getNextTaskID_stmt v c = IdGo v' c' → id_steps (S k) x (v', [c'])) as Hgo.
    { intros k v v' c c' x Hx E. econstructor; [exact Hx|]. by apply (id_step_go v [c] 0 c v' c'). }
    apply (Hgo 4%nat w1 _ (Caller p s IUnlock n n)); [apply (Hgo 3%nat wl _ (Caller p s IStore n n)); [apply (Hgo 2%nat wl _ (Caller p s ILoad n 0));
      [apply (Hgo 1%nat wl _ (Caller p s IRead 0 0)); [apply (Hgo 0%nat w _ (Caller p s ILock 0 0)); [constructor|]|]|]|]|].
    + unfold getNextTaskID_stmt, with_data, bind. cbn [c_pc c_p c_sys]. rewrite (Hdata _ Hs).
      change (addr_of (Addr p D 0) SystemData_TaskIDLock) with (Addr p D 8). by rewrite El.
    + unfold getNextTaskID_stmt, with_data, bind. cbn [c_pc c_p c_sys]. rewrite (Hdata _ Hsl). by rewrite (read_count _ _ _ _ Hml) by lia.
    + unfold getNextTaskID_stmt, with_data, bind. cbn [c_pc c_p c_sys]. rewrite (Hdata _ Hsl). by rewrite (read_count _ _ _ _ Hml) by lia.
    + unfold getNextTaskID_stmt, with_data, bind. cbn [c_pc c_p c_sys c_loaded]. rewrite (Hdata _ Hsl). by rewrite (store_count _ _ _ _ Hv4).
    + unfold getNextTaskID_stmt, with_data, bind. cbn [c_pc c_p c_sys]. rewrite (Hdata _ Hs1).
      change (addr_of (Addr p D 0) SystemData_TaskIDLock) with (Addr p D 8). by rewrite Eu.
Qed.

(** ** An example *)

(** The step of call [k], and a run under a schedule (last step first). *)
Definition id_turn (k : nat) (x : world * list caller) : option (world * list caller) :=
  c ← x.2 !! k; match getNextTaskID_stmt x.1 c with IdGo w c' => Some (w, <[k := c']> x.2) | _ => None end.

Fixpoint id_schedule (ks : list nat) (x : world * list caller) : option (world * list caller) :=
  match ks with [] => Some x | k :: ks => y ← id_schedule ks x; id_turn k y end.

Lemma id_schedule_steps ks x y : id_schedule ks x = Some y → id_steps (length ks) x y.
Proof.
  revert y. induction ks as [|k ks IH]; intros y; cbn [id_schedule length].
  - intros [= <-]. constructor.
  - destruct (id_schedule ks x) as [[w cs]|] eqn:E; [|done]. cbn [mbind option_bind]. unfold id_turn. cbn [fst snd].
    destruct (cs !! k) as [c|] eqn:Ek; [|done]. cbn [mbind option_bind].
    destruct (getNextTaskID_stmt w c) as [w' c'| | |] eqn:Ec; [|done..]. intros [= <-].
    econstructor; [by apply IH|by econstructor].
Qed.

Lemma returned_stuck w cs : Forall (λ c, c_pc c = IReturn) cs → id_stuck (w, cs).
Proof.
  intros Hd y Hs. inversion Hs as [w0 cs0 k c w' c' Hk E]; subst.
  pose proof (Forall_lookup_1 _ _ _ _ Hd Hk) as Hc. cbn in Hc. unfold getNextTaskID_stmt in E. by rewrite Hc in E.
Qed.

(** Three calls of two processes: the second one is the first inside, and the others
    wait. *)
Definition demo_calls : list (Z * Z) := [(2, 104); (1, 2); (2, 104)].
Definition demo_order : list nat := [2; 2; 2; 2; 2; 0; 0; 0; 0; 0; 1; 1; 1; 1; 1]%nat.
Definition demo_ids : world * list caller := Eval vm_compute in
  default (demo_sys, []) (id_schedule demo_order (demo_sys, id_calls demo_calls)).

Lemma ids_unique_witness :
  id_schedule [0; 1]%nat (demo_sys, id_calls demo_calls) = None ∧ map c_nextID demo_ids.2 = [3; 2; 4] ∧
  map c_nextID demo_ids.2 ≡ₚ seqZ 2 3 ∧ next_id demo_ids.1 1 5.
Proof.
  split; [vm_compute; reflexivity|]. split; [reflexivity|].
  destruct (ids_unique demo_sys 1 2 demo_calls 15 demo_ids.1 demo_ids.2) as (_ & _ & _ & H).
  - repeat (apply Forall_cons; split; [split; [by_eval|done]|]). by apply Forall_nil.
  - by_eval.
  - lia.
  - cbn. lia.
  - apply (id_schedule_steps demo_order). vm_compute. reflexivity.
  - apply H. apply returned_stuck. vm_compute. by repeat constructor.
Defined.
