(* ===== verification/Repository.v ===== *)
(** * The name repository, creation and shutdown of the system

    [repo w D names]: the shared data at block [D] registers [names], a map from
    task ids to names.  The operations of the repository are those of such a map
    as long as ids stay below 30, the number of rows of [task_name]. *)

From S2P Require Import Prelude CMem CLogic Messages MessageSpec Ring CircularMsgQ CircularSpec Demo.
From S2P Require Import QueueProps System SystemSpec.
From stdpp Require Import base numbers list strings gmap pretty.
From Stdlib Require Import Lia.
#[local] Open Scope Z_scope.
#[local] Open Scope ts_scope.

(** ** Strings *)

Lemma scan_n_ok n k o l :
  Forall char_ok l → rd k o (length (l ++ [Byte 0])) = l ++ [Byte 0] →
  in_block k o (length (l ++ [Byte 0])) → (length l < n)%nat → scan_n n k o = Some l.
Proof.
  revert n o. induction l as [|v l IH]; intros n o Hc Hrd Hin Hn; (destruct n as [|n]; [cbn in Hn; lia|]);
    cbn [app length rd] in *; cbn [scan_n];
    (rewrite decide_True by (unfold in_block in *; lia)).
  - by injection Hrd as ->.
  - injection Hrd as Hv Hrd. rewrite Hv.
    apply Forall_cons in Hc as [Hv' Hc]. destruct v as [|z|]; try done. cbn in Hv'.
    rewrite (IH n) by (done || (unfold in_block in *; cbn [length] in *; lia) || lia).
    destruct z; done.
Qed.

(** The 30 bytes that [strncpy] writes. *)
Definition padded (l : list memval) : list memval := l ++ replicate (30 - length l) (Byte 0).

Lemma length_padded l : (length l < 30)%nat → length (padded l) = 30%nat.
Proof. intros H. unfold padded. rewrite length_app, length_replicate. lia. Qed.

Lemma padded_cons l : (length l < 30)%nat →
  padded l = (l ++ [Byte 0]) ++ replicate (29 - length l) (Byte 0).
Proof.
  intros H. unfold padded. replace (30 - length l)%nat with (S (29 - length l)) by lia.
  cbn [replicate]. by rewrite <- app_assoc.
Qed.

Lemma wp_strncpy_30 p w bd od bs os l (Q : unit → world → Prop) :
  mb w bs os (l ++ [Byte 0]) → Forall char_ok l → (length l < 30)%nat → valid w bd od 30 →
  Q tt (upd w bd od (padded l)) → wp (strncpy (Addr p bd od) (Addr p bs os) 30) p w Q.
Proof.
  intros (k & Hk & Hin & Hrd) Hc Hl Hv HQ. unfold strncpy. apply wp_bind.
  unfold wp at 1, load_str_n. rewrite decide_True by done.
  rewrite Hk, (scan_n_ok _ _ _ l) by done. apply wp_store; [|exact HQ].
  fold (padded l). by rewrite length_padded.
Qed.

Lemma wp_strcmp p w b1 o1 l1 b2 o2 l2 (Q : Z → world → Prop) :
  mb w b1 o1 (l1 ++ [Byte 0]) → Forall char_ok l1 → mb w b2 o2 (l2 ++ [Byte 0]) → Forall char_ok l2 →
  Q (if decide (l1 = l2) then 0 else 1) w → wp (strcmp (Addr p b1 o1) (Addr p b2 o2)) p w Q.
Proof.
  intros H1 Hc1 H2 Hc2 HQ. apply wp_bind. eapply wp_load_str; [done..|].
  apply wp_bind. eapply wp_load_str; [done..|]. by apply wp_ret.
Qed.

(** ** The repository *)

Definition row (i : Z) : Z := f_off SystemData_task_name + 100 * i.
Definition flag (i : Z) : Z := f_off SystemData_task_has_name + 4 * i.

Definition repo (w : world) (D : Z) (names : gmap Z (list memval)) : Prop :=
  ∀ i, 0 <= i < 100 →
    mb w D (flag i) (enc_i32 (if decide (is_Some (names !! i)) then 1 else 0)) ∧
    ∀ l, names !! i = Some l →
      i < 30 ∧ mb w D (row i) (l ++ [Byte 0]) ∧ Forall char_ok l ∧ (length l < 30)%nat.

(** Process [p] can use the repository: its system object is [s], and the
    mutex of the shared data is free. *)
Definition repo_free (w : world) (p s D : Z) : Prop :=
  sys_at w p s D ∧ s ≠ D ∧ valid w D 0 (Z.to_nat sizeof_SystemData) ∧
  (D, f_off SystemData_sleepers_lock) ∉ w_locks w.

#[export] Instance repo_free_dec w p s D : Decision (repo_free w p s D).
Proof. unfold repo_free. apply _. Defined.

(** [name] points to the characters [l], outside of the shared data. *)
Definition name_at (w : world) (D : Z) (name : Z * Z) (l : list memval) : Prop :=
  name.1 ≠ D ∧ mb w name.1 name.2 (l ++ [Byte 0]) ∧ Forall char_ok l ∧ (length l < 30)%nat.

#[export] Instance name_at_dec w D name l : Decision (name_at w D name l).
Proof. unfold name_at. apply _. Defined.

#[export] Hint Unfold row flag : fields.

Lemma repo_same_blocks w w' D names : w_blocks w' = w_blocks w → repo w D names → repo w' D names.
Proof.
  intros E H i Hi. destruct (H i Hi) as [Hf Hn]. split; [by apply (mb_same_blocks w)|].
  intros l Hl. destruct (Hn l Hl) as (? & ? & ? & ?). split_and!; try done. by apply (mb_same_blocks w).
Qed.

Lemma set_name_repo w D t l names :
  0 <= t < 30 → Forall char_ok l → (length l < 30)%nat → valid w D 0 (Z.to_nat sizeof_SystemData) →
  repo w D names →
  repo (upd (upd w D (row t) (padded l)) D (flag t) (enc_i32 1)) D (<[t:=l]> names).
Proof.
  intros Ht Hc Hl Hv Hr i Hi. destruct (Hr i Hi) as [Hf Hn].
  unfold sizeof_SystemData in Hv. pose proof (length_padded l Hl) as Hp.
  destruct (decide (i = t)) as [->|Hne].
  - rewrite lookup_insert_eq. rewrite decide_True by done. split.
    + apply mb_upd_same. apply valid_upd. eapply valid_le; [exact Hv|off|off].
    + intros l' [= <-]. split_and!; [lia| |done|done].
      apply mb_upd_disj; [off|].
      enough (mb (upd w D (row t) (padded l)) D (row t) (padded l)) as Hm.
      { rewrite padded_cons in Hm at 2 by done. by apply mb_app in Hm as [? _]. }
      apply mb_upd_same. eapply valid_le; [exact Hv|off|]. rewrite Hp. off.
  - rewrite lookup_insert_ne by done. split.
    + apply mb_upd_disj; [off|]. apply mb_upd_disj; [rewrite Hp; off|done].
    + intros l' Hl'. destruct (Hn l' Hl') as (Hi' & Hm & Hc' & Hlen). split_and!; try done.
      apply mb_upd_disj; [off|]. apply mb_upd_disj; [rewrite Hp; off|done].
Qed.

Lemma repository_set_name_wp p w s D names nb no t l :
  repo_free w p s D → repo w D names → name_at w D (nb, no) l → 0 <= t < 30 →
  wp (repository_set_name (Addr p s 0) (Addr p nb no) t) p w (λ _ w',
    repo w' D (<[t:=l]> names) ∧ ext (λ b _, b = D) w w').
Proof.
  intros (Hs & Hne & Hv & Hlk) Hr (Hnb & Hnm & Hc & Hl) Ht. cbn [fst snd] in *.
  unfold repository_set_name.
  apply wp_bind. eapply wp_sys_data; [exact Hs|]. cbv beta.
  assert (valid w D (0 + f_off SystemData_sleepers_lock) 1) as Hvl.
  { unfold sizeof_SystemData in Hv. eapply valid_le; [exact Hv|off|off]. }
  apply wp_bind. eapply wp_mutex_lock; [exact Hvl|exact Hlk|].
  set (wl := set_locks _ w). assert (valid wl D 0 (Z.to_nat sizeof_SystemData)) as Hv' by (by apply (valid_same_blocks w)).
  apply wp_bind. change (task_name_at (Addr p D 0) t) with (Addr p D (0 + f_off SystemData_task_name + MAX_TASK * t)).
  eapply wp_strncpy_30; [by apply (mb_same_blocks w)|done|done| |].
  { unfold sizeof_SystemData in Hv'. eapply valid_le; [exact Hv'|off|off]. }
  change (0 + f_off SystemData_task_name + MAX_TASK * t) with (row t).
  apply wp_bind. change (task_has_name_at (Addr p D 0) t) with (Addr p D (flag t)).
  unfold st_i32. apply wp_store.
  { apply valid_upd. unfold sizeof_SystemData in Hv'. eapply valid_le; [exact Hv'|off|off]. }
  eapply wp_mutex_unlock.
  { apply valid_upd, valid_upd. by apply (valid_same_blocks w). }
  split.
  - eapply repo_same_blocks; [|apply set_name_repo; try done; by apply (repo_same_blocks w)]. done.
  - apply ext_lock; [exact Hlk|]. eapply ext_upd; [done|]. eapply ext_upd; [done|]. apply ext_refl.
Qed.

(** The first id with that name. *)
Definition first_with (names : gmap Z (list memval)) (l : list memval) (r : Z) : Prop :=
  (0 <= r < 100 ∧ names !! r = Some l ∧ ∀ j, 0 <= j < r → names !! j ≠ Some l) ∨
  (r = -1 ∧ ∀ j, 0 <= j < 100 → names !! j ≠ Some l).

Lemma repository_get_id_wp p w s D names nb no l :
  repo_free w p s D → repo w D names → name_at w D (nb, no) l →
  wp (repository_get_id (Addr p s 0) (Addr p nb no)) p w (λ r w',
    first_with names l r ∧ ext nowhere w w').
Proof.
  intros (Hs & Hne & Hv & Hlk) Hr (Hnb & Hnm & Hc & Hl). cbn [fst snd] in *.
  unfold repository_get_id.
  apply wp_bind. eapply wp_sys_data; [exact Hs|]. cbv beta.
  assert (valid w D (0 + f_off SystemData_sleepers_lock) 1) as Hvl.
  { unfold sizeof_SystemData in Hv. eapply valid_le; [exact Hv|off|off]. }
  apply wp_bind. eapply wp_mutex_lock; [exact Hvl|exact Hlk|].
  set (wl := set_locks _ w). assert (repo wl D names) as Hr' by (by apply (repo_same_blocks w)).
  apply wp_bind.
  apply (wp_for_find (λ i w', w' = wl ∧ ∀ j, 0 <= j < i → names !! j ≠ Some l)).
  - split; [done|]. lia.
  - intros i w' Hi [-> Hj]. change (0 + Z.of_nat (Z.to_nat MAX_TASK)) with 100 in Hi.
    destruct (Hr' i Hi) as [Hf Hn].
    apply wp_bind. change (task_has_name_at (Addr p D 0) i) with (Addr p D (flag i)).
    eapply wp_ld_i32; [exact Hf|]. destruct (names !! i) as [l'|] eqn:El.
    + rewrite decide_True by done. change (s32 1 =? 1) with true. cbv iota.
      destruct (Hn l' eq_refl) as (Hi30 & Hm & Hc' & Hl').
      apply wp_bind. change (task_name_at (Addr p D 0) i) with (Addr p D (row i)).
      eapply wp_strcmp; [by apply (mb_same_blocks w)|exact Hc|exact Hm|exact Hc'|].
      destruct (decide (l = l')) as [<-|Hd]; apply wp_ret; cbn [Z.eqb].
      * apply wp_bind. eapply wp_mutex_unlock; [by apply (valid_same_blocks w)|]. apply wp_ret.
        split; [left; by cbn|]. apply ext_lock; [exact Hlk|apply ext_refl].
      * split; [done|]. intros j Hji. destruct (decide (j = i)) as [->|]; [congruence|apply Hj; lia].
    + rewrite decide_False by (intros [? ?]; done). change (s32 0 =? 1) with false. cbv iota.
      apply wp_ret. split; [done|]. intros j Hji. destruct (decide (j = i)) as [->|]; [congruence|apply Hj; lia].
  - intros w' [-> Hj]. apply wp_bind. eapply wp_mutex_unlock; [by apply (valid_same_blocks w)|]. apply wp_ret.
    split; [right; by cbn|]. apply ext_lock; [exact Hlk|apply ext_refl].
Qed.

(** C12. The repository finds what was registered, for ids below 30 (from there on
    the name is written past the names, [repository_row_30]) and names of less than 30
    characters: after process [p] has set the name [l] of task [t], a process [p'] that asks for a name gets the first id
    with that name in the updated table, or -1 when there is none; in particular
    it gets [t] for [l] unless a smaller id has the same name. *)
Theorem repository_roundtrip p s p' s' w D names name t l name' l' :
  repo w D names → repo_free w p s D → repo_free w p' s' D →
  name_at w D name l → name_at w D name' l' → 0 <= t < 30 →
  ∃ w1 w2 r, repository_set_name (Addr p s 0) (Addr p name.1 name.2) t p w = Ok tt w1 ∧
    repository_get_id (Addr p' s' 0) (Addr p' name'.1 name'.2) p' w1 = Ok r w2 ∧
    repo w2 D (<[t := l]> names) ∧ first_with (<[t := l]> names) l' r ∧
    (l' = l → (∀ j, 0 <= j < t → names !! j ≠ Some l) → r = t).
Proof.
  intros Hr Hf Hf' Hn Hn' Ht. destruct name as [nb no], name' as [nb' no']. cbn [fst snd].
  destruct (wp_run _ _ _ _ (repository_set_name_wp _ _ _ _ _ _ _ _ _ Hf Hr Hn Ht)) as ([] & w1 & E1 & Hr1 & He1).
  assert (repo_free w1 p' s' D) as Hf1.
  { destruct Hf' as (Hs & Hne & Hv & Hl). split_and!; [|done|by eapply valid_extF|].
    - eapply mb_extF; [exact He1|done|exact Hs].
    - apply ext_env in He1. unfold env in He1. by injection He1 as -> _ _ _ _ _ _ _. }
  assert (name_at w1 D (nb', no') l') as Hn1.
  { destruct Hn' as (Hb & Hm & Hc & Hl). split_and!; try done. eapply mb_extF; [exact He1|by cbn|exact Hm]. }
  destruct (wp_run _ _ _ _ (repository_get_id_wp _ _ _ _ _ _ _ _ Hf1 Hr1 Hn1)) as (r & w2 & E2 & Hfw & He2).
  exists w1, w2, r. split_and!; try done.
  - intros i Hi. destruct (Hr1 i Hi) as [Ha Hb]. split; [eapply mb_extF; [exact He2|by intros ? _ []|exact Ha]|].
    intros l0 Hl0. destruct (Hb l0 Hl0) as (? & Hm & ? & ?). split_and!; try done.
    eapply mb_extF; [exact He2|by intros ? _ []|exact Hm].
  - intros -> Hlow. destruct Hfw as [(Hr' & Hl & Hmin)|(-> & Hall)].
    + destruct (Z.lt_trichotomy r t) as [?|[?|?]]; [|done|].
      * rewrite lookup_insert_ne in Hl by lia. by destruct (Hlow r ltac:(lia)).
      * destruct (Hmin t); [lia|]. by rewrite lookup_insert_eq.
    + destruct (Hall t); [lia|]. by rewrite lookup_insert_eq.
Qed.

(** There are 30 rows, not 100: the name of task 30 is written over the flags
    that say which of the tasks 0 to 6 have a name, whatever they registered. *)
Theorem repository_row_30 p s w D name l :
  repo_free w p s D → name_at w D name l →
  ∃ w', repository_set_name (Addr p s 0) (Addr p name.1 name.2) 30 p w = Ok tt w' ∧
    mb w' D (flag 0) (padded l) ∧ row 30 = flag 0.
Proof.
  intros (Hs & Hne & Hv & Hlk) (Hnb & Hnm & Hc & Hl). destruct name as [nb no]. cbn [fst snd] in *.
  enough (wp (repository_set_name (Addr p s 0) (Addr p nb no) 30) p w (λ _ w', mb w' D (flag 0) (padded l)))
    as ([] & w' & E & Hm)%wp_run by (by exists w').
  unfold repository_set_name.
  apply wp_bind. eapply wp_sys_data; [exact Hs|]. cbv beta.
  assert (valid w D (0 + f_off SystemData_sleepers_lock) 1) as Hvl.
  { unfold sizeof_SystemData in Hv. eapply valid_le; [exact Hv|off|off]. }
  apply wp_bind. eapply wp_mutex_lock; [exact Hvl|exact Hlk|].
  set (wl := set_locks _ w). assert (valid wl D 0 (Z.to_nat sizeof_SystemData)) as Hv' by (by apply (valid_same_blocks w)).
  unfold sizeof_SystemData in Hv'. pose proof (length_padded l Hl) as Hp.
  apply wp_bind. change (task_name_at (Addr p D 0) 30) with (Addr p D (flag 0)).
  eapply wp_strncpy_30; [by apply (mb_same_blocks w)|done|done| |].
  { eapply valid_le; [exact Hv'|off|off]. }
  apply wp_bind. change (task_has_name_at (Addr p D 0) 30) with (Addr p D (flag 30)).
  unfold st_i32. apply wp_store.
  { apply valid_upd. eapply valid_le; [exact Hv'|off|off]. }
  eapply wp_mutex_unlock; [apply valid_upd, valid_upd; by apply (valid_same_blocks w)|].
  apply (mb_same_blocks (upd (upd wl D (flag 0) (padded l)) D (flag 30) (enc_i32 1))); [done|].
  apply mb_upd_disj; [rewrite Hp; off|]. apply mb_upd_same. rewrite Hp.
  eapply valid_le; [exact Hv'|off|off].
Qed.

(** ** A concrete repository *)

(** After [demo_sys], process 2 has the string "database" in memory. *)
Definition demo_repo : world := state_of (str_lit "database") 2 demo_sys.

(** The names are read off the flags. *)
Lemma demo_repo_empty : repo demo_repo 1 ∅.
Proof.
  intros i Hi. rewrite lookup_empty. split; [|done].
  rewrite decide_False by (intros [? ?]; done).
  assert (Forall (λ j, mb demo_repo 1 (flag j) (enc_i32 0)) (seqZ 0 100)) as H.
  { by_eval. }
  rewrite Forall_forall in H. apply H, elem_of_seqZ. lia.
Qed.

Lemma repository_roundtrip_witness :
  ∃ w1 w2 r, repository_set_name (Addr 2 104 0) (Addr 2 106 0) 7 2 demo_repo = Ok tt w1 ∧
    repository_get_id (Addr 1 2 0) (Addr 1 106 0) 1 w1 = Ok r w2 ∧
    repo w2 1 (<[7 := chars "database"]> ∅) ∧ first_with (<[7 := chars "database"]> ∅) (chars "database") r ∧
    (chars "database" = chars "database" →
      (∀ j, 0 <= j < 7 → (∅ : gmap Z (list memval)) !! j ≠ Some (chars "database")) → r = 7).
Proof.
  apply (repository_roundtrip 2 104 1 2 demo_repo 1 ∅ (106, 0) 7 (chars "database") (106, 0) (chars "database"));
    [exact demo_repo_empty | by_eval | by_eval | by_eval | by_eval | lia].
Defined.

Lemma repository_row_30_witness :
  ∃ w', repository_set_name (Addr 2 104 0) (Addr 2 106 0) 30 2 demo_repo = Ok tt w' ∧
    mb w' 1 (flag 0) (padded (chars "database")) ∧ row 30 = flag 0.
Proof.
  apply (repository_row_30 2 104 demo_repo 1 (106, 0) (chars "database")); by_eval.
Defined.

(** ** Creating the system

    [stays c]: when [c] returns, every block that was there is there with the
    size it had. *)

Definition stays {A} (c : M A) : Prop := ∀ p w a w',
  wok w → c p w = Ok a w' →
  wok w' ∧ ∀ b k, w_blocks w !! b = Some k → ∃ k', w_blocks w' !! b = Some k' ∧ bsize k' = bsize k.

Create HintDb stays.

Lemma stays_same {A} (c : M A) :
  (∀ p w a w', c p w = Ok a w' → w_blocks w' = w_blocks w ∧ w_next w' = w_next w) → stays c.
Proof.
  intros H p w a w' Hok E. destruct (H _ _ _ _ E) as [Eb En]. unfold wok. rewrite Eb, En. eauto.
Qed.

Lemma stays_ret {A} (a : A) : stays (ret a).
Proof. apply stays_same. by intros p w a' w' [= <- <-]. Qed.

Lemma stays_bind {A B} (c : M A) (k : A → M B) : stays c → (∀ a, stays (k a)) → stays (bind c k).
Proof.
  intros Hc Hk p w b w' Hok E. unfold bind in E. destruct (c p w) as [a w1| | |] eqn:E1; try done.
  destruct (Hc _ _ _ _ Hok E1) as [Hok1 H1]. destruct (Hk _ _ _ _ _ Hok1 E) as [Hok2 H2].
  split; [done|]. intros b' k' Hb. destruct (H1 _ _ Hb) as (k1 & Hb1 & <-). eauto.
Qed.

Lemma stays_store q l : stays (store q l).
Proof.
  intros p w [] w' Hok E. unfold store in E. repeat case_match; simplify_eq.
  assert (ext (λ _ _, True) w (upd w b o l)) as He by (eapply ext_upd; [done|apply ext_refl]).
  split; [by eapply ext_wok|]. intros b' k' Hb. destruct He as (Hf & _).
  destruct (Hf _ _ Hb) as (k'' & ? & ? & _). eauto.
Qed.

Lemma stays_malloc n : stays (malloc n).
Proof.
  intros p w a w' Hok E. unfold malloc in E. case_decide; simplify_eq; [|eauto].
  assert (ext (λ _ _, True) w (add_block (Blk n Undef ∅) w)) as He by (apply ext_add_block, ext_refl; done).
  split; [by eapply ext_wok|]. intros b' k' Hb. destruct He as (Hf & _).
  destruct (Hf _ _ Hb) as (k'' & ? & ? & _). eauto.
Qed.

Lemma stays_for_range lo hi body : (∀ i, stays (body i)) → stays (for_range lo hi body).
Proof.
  intros H. unfold for_range. generalize (Z.to_nat (hi - lo)) as n. intros n. revert lo.
  induction n as [|n IH]; intros lo; cbn [for_up].
  - apply stays_ret.
  - apply stays_bind; [apply H|]. intros _. apply IH.
Qed.

Ltac same_blocks := apply stays_same; intros ? ? ? ? E; revert E; repeat case_match; intros; by simplify_eq.

Lemma stays_self : stays self.
Proof. unfold self. same_blocks. Qed.
Lemma stays_mutex_lock m : stays (mutex_lock m).
Proof. unfold mutex_lock. same_blocks. Qed.
Lemma stays_mutex_unlock m : stays (mutex_unlock m).
Proof. unfold mutex_unlock. same_blocks. Qed.
Lemma stays_cond_init m : stays (cond_init m).
Proof. unfold cond_init. same_blocks. Qed.
Lemma stays_load_str_n q n : stays (load_str_n q n).
Proof. unfold load_str_n. same_blocks. Qed.

#[export] Hint Resolve stays_ret stays_bind stays_store stays_malloc stays_for_range stays_self
  stays_mutex_lock stays_mutex_unlock stays_cond_init stays_load_str_n : stays.
#[export] Hint Unfold st_i32 st_ptr set_int set_ptr set_fun str_lit strncpy mutex_init : stays.

Ltac stays_tac :=
  repeat (repeat autounfold with stays;
    lazymatch goal with
    | |- stays (bind _ _) => apply stays_bind; [|intros ?]
    | |- stays (for_range _ _ _) => apply stays_for_range; intros ?
    | |- stays _ => solve [auto with stays nocore]
    end).

Lemma stays_initialize sys : stays (System_initialize sys).
Proof. unfold System_initialize, System_methods. cbn [fold_right]. stays_tac. Qed.
#[export] Hint Resolve stays_initialize : stays.

(** If a loop returns, each turn was reached in a state with the blocks of the
    start, and returned. *)
Lemma loop_turn lo hi body i p w u w' :
  (∀ j, stays (body j)) → wok w → for_range lo hi body p w = Ok u w' → lo <= i < hi →
  ∃ w1 u1 w2, wok w1 ∧ body i p w1 = Ok u1 w2 ∧
    ∀ b k, w_blocks w !! b = Some k → ∃ k', w_blocks w1 !! b = Some k' ∧ bsize k' = bsize k.
Proof.
  intros Hb. unfold for_range. assert (Z.of_nat (Z.to_nat (hi - lo)) = hi - lo ∨ hi <= lo) as Hn by lia.
  revert Hn. generalize (Z.to_nat (hi - lo)) as n. intros n Hn Hok E Hi.
  destruct Hn as [Hn|]; [|lia]. assert (lo <= i < lo + Z.of_nat n) as Hi' by lia. clear Hn Hi.
  revert lo w Hok E Hi'. induction n as [|n IH]; intros lo w Hok E Hi; [lia|].
  cbn [for_up] in E. unfold bind at 1 in E. destruct (body lo p w) as [u1 w1| | |] eqn:E1; try done.
  destruct (decide (i = lo)) as [->|].
  - exists w, u1, w1. split_and!; try done. eauto.
  - destruct (Hb _ _ _ _ _ Hok E1) as [Hok1 H1].
    destruct (IH (lo + 1) w1) as (w2 & u2 & w3 & Hok2 & E2 & H2); [done|done|lia|].
    exists w2, u2, w3. split_and!; try done. intros b k Hk.
    destruct (H1 _ _ Hk) as (k1 & Hk1 & <-). eauto.
Qed.

Lemma store_in_block pr b o l p w u w' k :
  store (Addr pr b o) l p w = Ok u w' → w_blocks w !! b = Some k →
  0 <= o ∧ o + Z.of_nat (length l) <= bsize k.
Proof. unfold store. intros E Hk. rewrite Hk in E. repeat case_match; simplify_eq; done. Qed.

Lemma bind_Ok {A B} (c : M A) (k : A → M B) p w b w' :
  bind c k p w = Ok b w' → ∃ a w1, c p w = Ok a w1 ∧ k a p w1 = Ok b w'.
Proof. unfold bind. destruct (c p w) eqn:E; try done. eauto. Qed.

(** The last byte that [System_create] clears is the last of the 30 bytes of the
    name of task 99, in row 99 of 100 characters. *)
Definition last_cleared : Z := f_off SystemData_task_name + 99 * MAX_TASK + MAX_NAME_SIZE.

Lemma clear_99 D p w u w' k :
  (st_i32 (task_has_name_at (Addr p D 0) 99) 0;;; empty <- str_lit "";;
   strncpy (task_name_at (Addr p D 0) 99) empty (Z.to_nat MAX_NAME_SIZE)) p w = Ok u w' →
  wok w → w_blocks w !! D = Some k → last_cleared <= bsize k.
Proof.
  intros E Hok Hk. apply bind_Ok in E as ([] & w1 & E1 & E). 
  assert (stays (st_i32 (task_has_name_at (Addr p D 0) 99) 0)) as Hst by stays_tac.
  destruct (Hst _ _ _ _ Hok E1) as [Hok1 H1]. destruct (H1 _ _ Hk) as (k1 & Hk1 & Hs1).
  apply bind_Ok in E as (e & w2 & E2 & E). assert (stays (str_lit "")) as Hst2 by stays_tac.
  destruct (Hst2 _ _ _ _ Hok1 E2) as [Hok2 H2]. destruct (H2 _ _ Hk1) as (k2 & Hk2 & Hs2).
  unfold strncpy in E. apply bind_Ok in E as (l & w3 & E3 & E).
  assert (stays (load_str_n e (Z.to_nat MAX_NAME_SIZE))) as Hst3 by stays_tac.
  destruct (Hst3 _ _ _ _ Hok2 E3) as [Hok3 H3]. destruct (H3 _ _ Hk2) as (k3 & Hk3 & Hs3).
  change (task_name_at (Addr p D 0) 99) with (Addr p D (f_off SystemData_task_name + 99 * MAX_TASK)) in E.
  apply (store_in_block _ _ _ _ _ _ _ _ k3) in E; [|done].
  rewrite length_app, length_replicate in E. unfold last_cleared, MAX_NAME_SIZE in *. lia.
Qed.

(** The step of a computation that returned: block [D] still has size [n]. *)
Lemma stays_step {A B} (c : M A) (k : A → M B) p v b v' D n :
  bind c k p v = Ok b v' → wok v → stays c → (∃ kk, w_blocks v !! D = Some kk ∧ bsize kk = n) →
  ∃ a v1, k a p v1 = Ok b v' ∧ wok v1 ∧ ∃ kk, w_blocks v1 !! D = Some kk ∧ bsize kk = n.
Proof.
  intros Hb Hv Hc (kk & Hkk & Hsz). apply bind_Ok in Hb as (a & v1 & Hb1 & Hb2).
  destruct (Hc _ _ _ _ Hv Hb1) as [Hv1 Hs]. destruct (Hs _ _ Hkk) as (kk1 & ? & ?).
  exists a, v1. split_and!; try done. exists kk1. split; [done|congruence].
Qed.

(** The two dimensions of [task_name] are swapped, but the loop that clears
    the names runs over 100 rows: unless at least 6490 bytes happen to be writable
    after the mapping of the shared data, [System_create] never returns a system. *)
Theorem System_create_out_of_bounds p w :
  wok w → w_shm w !! SYSTEM_SHARED_MEM_NAME = None → 0 <= w_guard w < 6490 →
  ¬ ∃ Comm w', System_create p w = Ok Comm w'.
Proof.
  intros Hok Hn Hg (Comm & w' & E). unfold System_create in E.
  apply bind_Ok in E as (a & w1 & E1 & E). unfold shm_create in E1. rewrite Hn in E1.
  injection E1 as <- <-. cbv zeta in E.
  set (w1 := set_shm _ _) in E.
  assert (wok w1) as Hok1.
  { intros b Hb. apply (ext_wok (λ _ _, True) w (add_block (Blk (sizeof_SystemData + w_guard w) (Byte 0) ∅) w));
      [apply ext_add_block, ext_refl; done|done|done]. }
  assert (w_blocks w1 !! w_next w = Some (Blk (sizeof_SystemData + w_guard w) (Byte 0) ∅)) as Hk1
    by (apply lookup_insert_eq).
  set (D := w_next w) in *. clearbody w1 D.
  apply bind_Ok in E as (nr & w2 & E2 & E).
  destruct (stays_malloc _ _ _ _ _ Hok1 E2) as [Hok2 H2]. destruct (H2 _ _ Hk1) as (k2 & Hk2 & Hs2).
  case_decide; [done|].
  set (body := λ i, st_i32 (task_has_name_at (Addr p D 0) i) 0;;; (empty <- str_lit "";;
    strncpy (task_name_at (Addr p D 0) i) empty (Z.to_nat MAX_NAME_SIZE))) in E.
  assert (∀ i, stays (body i)) as Hbody by (intros i; unfold body; stays_tac).
  assert (∃ kk, w_blocks w2 !! D = Some kk ∧ bsize kk = sizeof_SystemData + w_guard w) as Hkk by eauto.
  clear E2 H2 Hk2 Hs2 k2 Hk1 Hok1.
  do 9 (apply (stays_step _ _ _ _ _ _ D (sizeof_SystemData + w_guard w)) in E as (? & ? & E & ? & ?); [|done|stays_tac|done]).
  apply bind_Ok in E as ([] & w9 & E & _).
  lazymatch type of E with for_range 0 MAX_TASK body p ?v = _ =>
  lazymatch goal with H : ∃ kk, w_blocks v !! D = Some kk ∧ bsize kk = _, Hv : wok v |- _ =>
    destruct H as (kk & Hkk' & Hsz);
    apply (loop_turn _ _ _ 99 _ _ _ _ Hbody Hv) in E as (v1 & [] & v2 & Hv1 & E9 & Hs) end end.
  2:{ unfold MAX_TASK. lia. }
  destruct (Hs _ _ Hkk') as (k9 & Hk9 & Hs9). apply (clear_99 _ _ _ _ _ k9) in E9; [|done|done].
  unfold last_cleared, sizeof_SystemData in *. revert E9. off.
Qed.

Lemma System_create_out_of_bounds_witness :
  ¬ ∃ Comm w', System_create 1 (world_init 3944 [] []) = Ok Comm w'.
Proof.
  apply (System_create_out_of_bounds 1 (world_init 3944 [] [])); [|reflexivity|cbn; lia].
  intros b _. apply lookup_empty.
Defined.

(** With the bytes there it returns: see [demo_sys]. *)
Example System_create_enough :
  (if System_create 1 (world_init 6490 [] []) is Ok _ _ then true else false) = true.
Proof. vm_compute. reflexivity. Qed.
