(* ===== verification/SystemProps.v ===== *)
(** * Shutdown of the system and the signal loop *)

From S2P Require Import Prelude CMem CLogic Messages MessageSpec Ring CircularMsgQ CircularSpec Demo.
From S2P Require Import QueueProps System SystemSpec.
From stdpp Require Import base numbers list strings gmap pretty.
From Stdlib Require Import Lia.
#[local] Open Scope Z_scope.
#[local] Open Scope ts_scope.

Lemma queue_name_short i : 0 <= i < 101 → (String.length (queue_name i) < 15)%nat.
Proof.
  intros Hi. assert (Forall (λ i, String.length (queue_name i) < 15)%nat (seqZ 0 101)) as H by by_eval.
  rewrite Forall_forall in H. apply H, elem_of_seqZ. lia.
Qed.

(** ** destroy *)

(** The names of the tasks [1 .. n-1] and of the system. *)
Definition system_name (n : Z) (name : string) : Prop :=
  name = SYSTEM_SHARED_MEM_NAME ∨ ∃ i, 1 <= i < n ∧ name = queue_name i.

(** [destroy] tells the signal loop to stop and removes the names of the
    queues of all the tasks that got an id and of the shared data, and no other
    name; what is mapped stays mapped. *)
Theorem destroy_unlinks p w s D n :
  sys_at w p s D → s ≠ D → valid w D 0 (Z.to_nat sizeof_SystemData) → mb w D 0 (enc_i32 n) →
  1 <= n <= MAX_TASK →
  ∃ w', destroy (Addr p s 0) p w = Ok tt w' ∧
    mb w' D (f_off SystemData_shutdown_signal) (enc_i32 1) ∧
    (∀ name, system_name n name → w_shm w' !! name = None) ∧
    (∀ name, ¬ system_name n name → w_shm w' !! name = w_shm w !! name) ∧
    frame (range D (f_off SystemData_shutdown_signal) 4) w w'.
Proof.
  intros Hs Hne Hv Hn Hb. unfold MAX_TASK in Hb. unfold sizeof_SystemData in Hv.
  set (w1 := upd w D (f_off SystemData_shutdown_signal) (enc_i32 1)).
  enough (wp (destroy (Addr p s 0)) p w (λ _ w', w_blocks w' = w_blocks w1 ∧
    (∀ name, system_name n name → w_shm w' !! name = None) ∧
    (∀ name, ¬ system_name n name → w_shm w' !! name = w_shm w !! name))) as ([] & w' & E & Eb & H1 & H2)%wp_run.
  { assert (valid w D (f_off SystemData_shutdown_signal) 4) as Hv4 by (eapply valid_le; [exact Hv|off|off]).
    exists w'. split_and!; try done.
    - apply (mb_same_blocks w1); [done|]. apply mb_upd_same. by autorewrite with len.
    - assert (ext (range D (f_off SystemData_shutdown_signal) 4) w w1) as (Hf & _).
      { eapply ext_upd; [|apply ext_refl]. autorewrite with len. by intros k i _ Hi. }
      intros b k Hk. rewrite Eb. by apply Hf. }
  unfold destroy. apply wp_bind. eapply wp_sys_data; [exact Hs|]. cbv beta.
  apply wp_bind. eapply wp_set_int; [eapply valid_le; [exact Hv|off|off]|]. fold w1.
  assert (mb w1 D 0 (enc_i32 n)) as Hn1 by (apply mb_upd_disj; [off|exact Hn]).
  apply wp_bind. eapply wp_get_uint; [exact Hn1|]. rewrite u32_small by (unfold is_u32; lia).
  apply wp_bind. apply (wp_for_range (λ i w', w_blocks w' = w_blocks w1 ∧
    (∀ j, 1 <= j < i → w_shm w' !! queue_name j = None) ∧
    (∀ name, (∀ j, 1 <= j < i → name ≠ queue_name j) → w_shm w' !! name = w_shm w !! name))).
  - lia.
  - split_and!; [done|lia|]. intros name _. unfold w1, upd. by case_match.
  - intros i w' Hi (Eb & H1 & H2). apply wp_bind. apply sprintf_name_ok; [apply queue_name_short; lia|].
    unfold DeleteQueue, shm_unlink. apply wp_modify. split_and!; [done| |].
    + intros j Hj. cbn. destruct (decide (j = i)) as [->|]; [apply lookup_delete_eq|].
      rewrite lookup_delete. case_match; [done|]. apply H1. lia.
    + intros name Hname. cbn. rewrite lookup_delete_ne; [|apply not_eq_sym, Hname; lia].
      apply H2. intros j Hj. apply Hname. lia.
  - intros w' (Eb & H1 & H2). unfold shm_unlink. apply wp_modify. split_and!; [done| |].
    + intros name [->|(i & Hi & ->)]; cbn; [apply lookup_delete_eq|].
      rewrite lookup_delete. case_match; [done|]. by apply H1.
    + intros name Hname. cbn. rewrite lookup_delete_ne by (intros <-; apply Hname; by left).
      apply H2. intros j Hj ->. apply Hname. right. eauto.
Qed.

Lemma destroy_unlinks_witness :
  ∃ w', destroy (Addr 2 104 0) 2 demo_sys = Ok tt w' ∧
    mb w' 1 (f_off SystemData_shutdown_signal) (enc_i32 1) ∧
    (∀ name, system_name 2 name → w_shm w' !! name = None) ∧
    (∀ name, ¬ system_name 2 name → w_shm w' !! name = w_shm demo_sys !! name) ∧
    frame (range 1 (f_off SystemData_shutdown_signal) 4) demo_sys w'.
Proof.
  apply (destroy_unlinks 2 demo_sys 104 1 2); [by_eval | lia | by_eval | by_eval | unfold MAX_TASK; lia].
Defined.

(** ** The signal loop *)

(** Entry [i] of the task table, for [i < n]: NULL, or a queue of this process. *)
Definition table_ok (w : world) (p s n : Z) (qs : Z → option (Z * mring)) : Prop :=
  ∀ i, 0 <= i < n →
    match qs i with
    | None => slot w s i Null
    | Some (q, r) => slot w s i (Addr p q 0) ∧ q_inv w q r ∧ unlocked w q
    end.

(** The tasks a turn of the loop wakes: those with a message, and those whose
    entry is NULL. *)
Definition woken (qs : Z → option (Z * mring)) (i : Z) : bool :=
  match qs i with
  | None => true
  | Some (_, r) => match r_segs r with [] => false | _ => true end
  end.

Definition sleeper_id (D i : Z) : Z * Z := (D, f_off SystemData_sleepers + 48 * i).

Definition add_signals (l : list (Z * Z)) (w : world) : world :=
  World (w_blocks w) (w_next w) (w_locks w) (w_shm w) (w_guard w)
    (w_out w) (w_threads w) (w_signals w ++ l) (w_clock w) (w_rand w).

Lemma add_signals_snoc l e w : add_signal e (add_signals l w) = add_signals (l ++ [e]) w.
Proof. unfold add_signal, add_signals. cbn. by rewrite app_assoc. Qed.

Lemma table_ok_signals l w p s n qs : table_ok w p s n qs → table_ok (add_signals l w) p s n qs.
Proof.
  intros H i Hi. specialize (H i Hi). destruct (qs i) as [[q r]|]; [|by apply (mb_same_blocks w)].
  destruct H as (? & ? & ?). split_and!; [by apply (mb_same_blocks w)|by apply (q_inv_blocks w)|done].
Qed.

(** One turn for task [i]. *)
Lemma signal_one p w s D n qs i :
  table_ok w p s n qs → 0 <= i < n → n <= 100 → valid w D 0 (Z.to_nat sizeof_SystemData) →
  wp (Q <- ld_ptr (TaskTable_at (Addr p s 0) i);; empty <- IsEmpty Q;;
      if empty =? 0 then cond_signal (sleeper_at (Addr p D 0) i) else ret tt) p w
    (λ _ w', w' = if woken qs i then add_signal (sleeper_id D i) w else w).
Proof.
  intros Ht Hi Hn Hv. specialize (Ht i Hi). unfold sizeof_SystemData in Hv.
  assert (wp (cond_signal (sleeper_at (Addr p D 0) i)) p w (λ _ w', w' = add_signal (sleeper_id D i) w)) as Hcs.
  { change (sleeper_at (Addr p D 0) i) with (Addr p D (f_off SystemData_sleepers + 48 * i)).
    unfold wp, cond_signal. rewrite accessible_valid; [done|].
    eapply valid_le; [exact Hv|off|off]. }
  unfold woken. destruct (qs i) as [[q r]|].
  - destruct Ht as (Hs & Hq & Hu). apply wp_bind. eapply wp_slot; [exact Hs|]. cbv beta.
    apply wp_bind. eapply wp_mono; [by apply IsEmpty_wp|]. cbv beta. intros a w' (-> & ->).
    destruct (r_segs r); cbn [Z.eqb]; [by apply wp_ret|exact Hcs].
  - apply wp_bind. eapply wp_slot; [exact Ht|]. cbv beta. apply wp_bind. apply wp_ret. exact Hcs.
Qed.

(** A turn of the signal loop wakes exactly the tasks that have a message in
    their queue, in order of their ids, and besides them every id whose entry in
    the table of this process is NULL (id 0, and the tasks of other processes),
    because an absent queue counts as not empty; nothing else changes. *)
Theorem signal_pass_wakes p w s D n qs :
  sys_at w p s D → valid w D 0 (Z.to_nat sizeof_SystemData) → mb w D 0 (enc_i32 n) → 0 <= n <= MAX_TASK →
  (D, f_off SystemData_TaskIDLock) ∉ w_locks w → table_ok w p s n qs →
  signal_pass (Addr p s 0) p w =
    Ok tt (add_signals (sleeper_id D <$> filter (λ i, woken qs i = true) (seqZ 0 n)) w).
Proof.
  intros Hs Hv Hn Hb Hl Ht. unfold MAX_TASK in Hb.
  enough (wp (signal_pass (Addr p s 0)) p w (λ _ w',
    w' = add_signals (sleeper_id D <$> filter (λ i, woken qs i = true) (seqZ 0 n)) w)) as ([] & w' & E & ->)%wp_run
    by done.
  unfold signal_pass. apply wp_bind. eapply wp_sys_data; [exact Hs|]. cbv beta.
  assert (valid w D (0 + f_off SystemData_TaskIDLock) 1) as Hvl.
  { unfold sizeof_SystemData in Hv. eapply valid_le; [exact Hv|off|off]. }
  apply wp_bind. eapply wp_mutex_lock; [exact Hvl|exact Hl|].
  set (wl := set_locks _ w). assert (mb wl D 0 (enc_i32 n)) as Hn' by (by apply (mb_same_blocks w)).
  apply wp_bind. eapply wp_get_int; [exact Hn'|]. rewrite s32_small by (unfold is_s32; lia).
  apply wp_bind. eapply wp_mutex_unlock; [by apply (valid_same_blocks w)|].
  assert (set_locks (λ l, l ∖ {[(D, 0 + f_off SystemData_TaskIDLock)]}) wl = w) as ->.
  { unfold wl, set_locks. destruct w. cbn in *. f_equal. set_solver. }
  apply (wp_for_range (λ i w', w' =
    add_signals (sleeper_id D <$> filter (λ i, woken qs i = true) (seqZ 0 i)) w)).
  - lia.
  - unfold add_signals. cbn. rewrite app_nil_r. by destruct w.
  - intros i w' Hi ->. eapply wp_mono.
    { apply (signal_one _ _ _ D n qs); [by apply table_ok_signals|done|lia|by apply (valid_same_blocks w)]. }
    cbv beta. intros u w' ->. assert (seqZ 0 (i + 1) = seqZ 0 i ++ [i]) as ->.
    { rewrite <- (Z2Nat.id i) at 1 2 3 by lia. replace (Z.of_nat (Z.to_nat i) + 1) with (Z.of_nat (S (Z.to_nat i))) by lia.
      by rewrite seqZ_S. }
    rewrite filter_app, fmap_app, filter_cons. cbn [filter list_filter].
    destruct (woken qs i) eqn:Ew.
    + rewrite decide_True by done. rewrite add_signals_snoc. done.
    + rewrite decide_False by done. by rewrite app_nil_r.
  - by intros w' ->.
Qed.

Definition demo_table (i : Z) : option (Z * mring) :=
  if i =? 1 then Some (103, ring_empty sizeof_Queue) else None.

Lemma signal_pass_wakes_witness :
  signal_pass (Addr 1 2 0) 1 demo_sys =
    Ok tt (add_signals (sleeper_id 1 <$> filter (λ i, woken demo_table i = true) (seqZ 0 2)) demo_sys).
Proof.
  apply (signal_pass_wakes 1 demo_sys 2 1 2 demo_table);
    [by_eval | by_eval | by_eval | unfold MAX_TASK; lia | by apply (no_locks demo_sys); vm_compute |].
  intros i Hi. assert (i = 0 ∨ i = 1) as [-> | ->] by lia; cbn [demo_table Z.eqb Pos.eqb].
  - by_eval.
  - split; [by_eval|]. split; [exact demo_sys_q_inv|by_eval].
Defined.
