(* ===== verification/TimeHelper.v ===== *)
(** * TimeHelper

    [src/TimeHelper.c]: differences and sums of [struct timespec], used by the
    tasks for their statistics.  [exploration/c_quicksort] has a copy. *)

From S2P Require Import Prelude CMem.
From stdpp Require Import base numbers list strings gmap.
From Stdlib Require Import Lia.
#[local] Open Scope Z_scope.
#[local] Open Scope ts_scope.

(** [struct timespec]: seconds and nanoseconds. *)
Record timespec := TS { tv_sec : Z; tv_nsec : Z }.

#[export] Instance timespec_eq_dec : EqDecision timespec.
Proof. solve_decision. Defined.

Definition timespec_struct : struct_decl := [("tv_sec", CLong); ("tv_nsec", CLong)]%string.
Definition sizeof_timespec := Eval vm_compute in struct_size timespec_struct.
Definition timespec_tv_sec := Eval vm_compute in member timespec_struct "tv_sec".
Definition timespec_tv_nsec := Eval vm_compute in member timespec_struct "tv_nsec".

(** A [struct timespec] in memory. *)
Definition ld_timespec (p : ptr) : M timespec :=
  s <- get_long p timespec_tv_sec;; n <- get_long p timespec_tv_nsec;; ret (TS s n).
Definition st_timespec (p : ptr) (t : timespec) : M unit :=
  set_long p timespec_tv_sec (tv_sec t);;; set_long p timespec_tv_nsec (tv_nsec t).

Definition now : M timespec := t <- clock_gettime;; ret (TS t.1 t.2).

Definition diff (start end' : timespec) : timespec :=
  if tv_nsec end' - tv_nsec start <? 0 then
    TS (tv_sec end' - tv_sec start - 1) (1000000000 + tv_nsec end' - tv_nsec start)
  else TS (tv_sec end' - tv_sec start) (tv_nsec end' - tv_nsec start).

Definition tsAdd (time1 time2 : timespec) : timespec :=
  let sec := tv_sec time1 + tv_sec time2 in
  let nsec := tv_nsec time1 + tv_nsec time2 in
  if nsec >=? 1000000000 then TS (sec + 1) (nsec - 1000000000) else TS sec nsec.

(** A reading of the clock. *)
Definition normal (t : timespec) : Prop := 0 <= tv_nsec t < 1000000000.

(** The time as one number. *)
Definition nanos (t : timespec) : Z := tv_sec t * 1000000000 + tv_nsec t.

(** ** Facts *)

Lemma diff_spec s e : normal s → normal e →
  normal (diff s e) ∧ nanos (diff s e) = nanos e - nanos s.
Proof. unfold normal, nanos, diff. intros ? ?. zbool; cbn; lia. Qed.

Lemma tsAdd_spec s e : normal s → normal e →
  normal (tsAdd s e) ∧ nanos (tsAdd s e) = nanos s + nanos e.
Proof.
  unfold normal, nanos, tsAdd. intros ? ?. rewrite Z.geb_leb. zbool; cbn; lia.
Qed.

Lemma nanos_inj s t : normal s → normal t → nanos s = nanos t → s = t.
Proof. unfold normal, nanos. destruct s, t; cbn. intros. f_equal; lia. Qed.

(** Times measured with [diff] add up: the sum of the starting time and the
    difference is the end time, and the difference of two readings in order is
    a normal time that is not negative. *)
Theorem diff_tsAdd s e :
  normal s → normal e →
  tsAdd s (diff s e) = e ∧ normal (diff s e) ∧ nanos (diff s e) = nanos e - nanos s ∧
  (nanos s <= nanos e → 0 <= tv_sec (diff s e)).
Proof.
  intros Hs He. destruct (diff_spec s e Hs He) as [Hd Hn].
  destruct (tsAdd_spec s (diff s e) Hs Hd) as [Ha Hna].
  split_and!; [apply nanos_inj; [done|done|lia]|done|done|].
  unfold normal, nanos in *. lia.
Qed.

Lemma diff_tsAdd_witness :
  tsAdd (TS 3 900000000) (diff (TS 3 900000000) (TS 5 100000000)) = TS 5 100000000 ∧
  normal (diff (TS 3 900000000) (TS 5 100000000)) ∧
  nanos (diff (TS 3 900000000) (TS 5 100000000)) = nanos (TS 5 100000000) - nanos (TS 3 900000000) ∧
  (nanos (TS 3 900000000) <= nanos (TS 5 100000000) →
    0 <= tv_sec (diff (TS 3 900000000) (TS 5 100000000))).
Proof. apply diff_tsAdd; split; cbn; lia. Defined.
