(* ===== verification/Tasks.v ===== *)
(** * What every task has

    [include/TaskSystem/Tasks/*/generated.h]: the struct of a task starts with
    its thread and its task id, its constructor takes an id and a queue from
    the communication system [Comm] and starts a thread, and its operations
    forward to [Comm] through the function pointers of [struct System].  The
    code repeats this for every task; here it is written once and instantiated
    by the task files. *)

From S2P Require Import Prelude CMem Messages CircularMsgQ System TimeHelper.
From stdpp Require Import base numbers list strings gmap.
#[local] Open Scope Z_scope.
#[local] Open Scope ts_scope.

(** ** Calls through [Comm] *)

Definition System_method (name : string) : field := member System_struct name.

Definition Comm_send (Comm msg_data : ptr) (targetTaskID : Z) : M Z :=
  call_through Comm (System_method "send") [("System.send", send Comm msg_data targetTaskID)]%string.
Definition Comm_receive (Comm : ptr) (taskID : Z) : M ptr :=
  call_through Comm (System_method "receive") [("System.receive", receive Comm taskID)]%string.
Definition Comm_dropMsg (Comm : ptr) (taskID : Z) : M unit :=
  call_through Comm (System_method "dropMsg") [("System.dropMsg", dropMsg Comm taskID)]%string.
Definition Comm_getMsgTag (Comm : ptr) (taskID : Z) : M Z :=
  call_through Comm (System_method "getMsgTag") [("System.getMsgTag", getMsgTag Comm taskID)]%string.
Definition Comm_getNextTaskID (Comm : ptr) : M Z :=
  call_through Comm (System_method "getNextTaskID")
    [("System.getNextTaskID", getNextTaskID Comm)]%string.
Definition Comm_createMsgQ (Comm : ptr) (taskID : Z) : M unit :=
  call_through Comm (System_method "createMsgQ")
    [("System.createMsgQ", createMsgQ Comm taskID)]%string.
Definition Comm_message_notify (Comm : ptr) (taskID : Z) : M unit :=
  call_through Comm (System_method "message_notify")
    [("System.message_notify", message_notify Comm taskID)]%string.
Definition Comm_message_wait (Comm : ptr) (taskID : Z) : M unit :=
  call_through Comm (System_method "message_wait")
    [("System.message_wait", message_wait Comm taskID)]%string.
Definition Comm_message_immediate (Comm : ptr) (taskID : Z) : M Z :=
  call_through Comm (System_method "message_immediate")
    [("System.message_immediate", message_immediate Comm taskID)]%string.
Definition Comm_repository_set_name (Comm name : ptr) (taskID : Z) : M unit :=
  call_through Comm (System_method "repository_set_name")
    [("System.repository_set_name", repository_set_name Comm name taskID)]%string.
Definition Comm_repository_get_id (Comm name : ptr) : M Z :=
  call_through Comm (System_method "repository_get_id")
    [("System.repository_get_id", repository_get_id Comm name)]%string.
Definition Comm_destroy (Comm : ptr) : M unit :=
  call_through Comm (System_method "destroy") [("System.destroy", destroy Comm)]%string.

(** ** The members and operations of all tasks *)

(** [pthread_t threadRef; int taskID;]. *)
Definition task_members : struct_decl := [("threadRef", CLong); ("taskID", CInt)]%string.

Definition Task_threadRef := Eval vm_compute in member task_members "threadRef".
Definition Task_taskID := Eval vm_compute in member task_members "taskID".

(** The constructor: [size] is the size of the struct, [init] what the
    constructor of the task adds before it starts the thread, [run] the start
    routine.  The [int] it returns is converted to [unsigned int]. *)
Definition Task_create (Comm : ptr) (size : Z) (init : ptr → M unit) (run : string) : M Z :=
  newRec <- malloc size;;
  if decide (newRec = Null) then FatalError else (
  taskID <- Comm_getNextTaskID Comm;;
  set_int newRec Task_taskID taskID;;;
  id <- get_int newRec Task_taskID;;
  Comm_createMsgQ Comm (u32 id);;;
  init newRec;;;
  result <- pthread_create run newRec;;
  if negb (result =? 0) then
    (printf "ERROR; return code from pthread_create() is %d" [AInt result];;; exit (-1))
  else (id <- get_int newRec Task_taskID;; ret (u32 id))).

Definition no_init (newRec : ptr) : M unit := ret tt.

(** The start routine of the thread. *)
Definition Task_run {A} (start : ptr → M A) (TaskRef : ptr) : M A :=
  let this := TaskRef in start this.

Definition Task_send (Comm this data : ptr) (target : Z) : M Z := Comm_send Comm data target.

Definition Task_message_notify (Comm this : ptr) : M unit :=
  taskID <- get_int this Task_taskID;; Comm_message_notify Comm (u32 taskID).
Definition Task_message_wait (Comm this : ptr) : M unit :=
  taskID <- get_int this Task_taskID;; Comm_message_wait Comm (u32 taskID).
Definition Task_message_immediate (Comm this : ptr) : M Z :=
  taskID <- get_int this Task_taskID;; Comm_message_immediate Comm (u32 taskID).
Definition Task_repository_set_name (Comm this name : ptr) : M unit :=
  taskID <- get_int this Task_taskID;; Comm_repository_set_name Comm name (u32 taskID).
Definition Task_repository_get_id (Comm this task_name : ptr) : M Z :=
  Comm_repository_get_id Comm task_name.

(** ** What the [receive] functions of the tasks share *)

(** [int tag = Comm->getMsgTag(Comm, this->taskID);
     while (tag < 0) tag = Comm->getMsgTag(Comm, this->taskID);] *)
Definition wait_tag (fuel : nat) (Comm this : ptr) : M Z :=
  taskID <- get_int this Task_taskID;;
  tag <- Comm_getMsgTag Comm taskID;;
  while_fuel fuel tag (λ tag, tag <? 0) (λ _, Comm_getMsgTag Comm taskID).

Definition receive_mine (Comm this : ptr) : M ptr :=
  taskID <- get_int this Task_taskID;; Comm_receive Comm taskID.

(** The default case of the [switch]. *)
Definition no_handler (Comm this : ptr) (tag : Z) : M unit :=
  taskID <- get_int this Task_taskID;;
  printf "Task %d No Handler for tag = %d, dropping message! " [AInt taskID; AInt tag];;;
  Comm_dropMsg Comm taskID.

(** ** Calls through the function pointers of the message classes *)

Definition call_TextMsg_setMsg (m s : ptr) : M unit :=
  call_through m TextMsg_setMsg_f [("TextMsg.setMsg", TextMsg_setMsg m s)]%string.
Definition call_TextMsg_getMsg (m : ptr) : M ptr :=
  call_through m TextMsg_getMsg_f [("TextMsg.getMsg", TextMsg_getMsg m)]%string.
Definition call_BarMsg_setValue (m : ptr) (v : Z) : M unit :=
  call_through m BarMsg_setValue_f [("BarMsg.setValue", BarMsg_setValue m v)]%string.
Definition call_BarMsg_getValue (m : ptr) : M Z :=
  call_through m BarMsg_getValue_f [("BarMsg.getValue", BarMsg_getValue m)]%string.
Definition call_RefIntArrayMsg_setValues (m : ptr) (n : Z) (v : ptr) : M unit :=
  call_through m RefIntArrayMsg_setValues_f
    [("RefIntArrayMsg.setValues", RefIntArrayMsg_setValues m n v)]%string.
Definition call_RefIntArrayMsg_getSize (m : ptr) : M Z :=
  call_through m RefIntArrayMsg_getSize_f
    [("RefIntArrayMsg.getSize", RefIntArrayMsg_getSize m)]%string.
Definition call_IntArrayMsg_setValues (m : ptr) (n : Z) (v : ptr) : M unit :=
  call_through m IntArrayMsg_setValues_f
    [("IntArrayMsg.setValues", IntArrayMsg_setValues m n v)]%string.
Definition call_IntArrayMsg_getSize (m : ptr) : M Z :=
  call_through m IntArrayMsg_getSize_f [("IntArrayMsg.getSize", IntArrayMsg_getSize m)]%string.
Definition call_IntArrayMsg_getValue (m : ptr) (i : Z) : M Z :=
  call_through m IntArrayMsg_getValue_f [("IntArrayMsg.getValue", IntArrayMsg_getValue m i)]%string.
Definition call_TopologyMsg_setRootId (m : ptr) (id : Z) : M unit :=
  call_through m TopologyMsg_setRootId_f [("TopologyMsg.setRootId", TopologyMsg_setRootId m id)]%string.
Definition call_TopologyMsg_setBucketIds (m : ptr) (n : Z) (ids : ptr) : M unit :=
  call_through m TopologyMsg_setBucketIds_f
    [("TopologyMsg.setBucketIds", TopologyMsg_setBucketIds m n ids)]%string.
Definition call_RequestMsg_setData (m data : ptr) (n : Z) : M unit :=
  call_through m RequestMsg_setData_f [("RequestMsg.setData", RequestMsg_setData m data n)]%string.
Definition call_RequestMsg_getData (m : ptr) : M ptr :=
  call_through m RequestMsg_getData_f [("RequestMsg.getData", RequestMsg_getData m)]%string.
Definition call_ResponseMsg_setData (m data : ptr) (n : Z) : M unit :=
  call_through m ResponseMsg_setData_f [("ResponseMsg.setData", ResponseMsg_setData m data n)]%string.

#[export] Hint Unfold Task_threadRef Task_taskID : fields.
