(* ===== verification/Transport.v ===== *)
(** * The communication system as the tasks see it

    [Transport] is the interface between the communication system and the tasks:
    what the calls through [Comm] promise to a process, in terms of the messages
    that wait for every task ([mail]).  The tasks are verified against it.
    [System_transport] shows that [System] over the circular queues provides it. *)

From S2P Require Import Prelude CMem CLogic Messages MessageSpec Ring CircularMsgQ CircularSpec Demo.
From S2P Require Import QueueProps System SystemSpec SystemProps TimeHelper Tasks.
From stdpp Require Import base numbers list strings gmap pretty.
From Stdlib Require Import Lia.
#[local] Open Scope Z_scope.
#[local] Open Scope ts_scope.

(** ** The interface *)

Class Transport (p : Z) (Comm : ptr) := {
  (** the memory objects of the communication system *)
  tr_own : Z → Prop;
  (** the messages that wait for every task *)
  mail : world → gmap Z (list msg) → Prop;
  (** a message of that size can be sent to the task *)
  has_room : world → Z → Z → Prop;
  (** the process has used the queue of the task *)
  opened : world → Z → Prop;

  mail_old w M b : wok w → mail w M → tr_own b → b < w_next w;
  mail_ext F w w' M : ext F w w' → (∀ b i, tr_own b → ¬ F b i) → mail w M → mail w' M;
  room_ext F w w' t n : ext F w w' → (∀ b i, tr_own b → ¬ F b i) → has_room w t n → has_room w' t n;
  room_le w t n n' : n' <= n → has_room w t n → has_room w t n';
  room_empty w M t n : mail w M → M !! t = Some [] → n <= 400000 → has_room w t n;
  mail_free w M nb : ¬ tr_own nb → mail w M → mail (set_blocks (delete nb) w) M;
  room_free w t n nb : ¬ tr_own nb → has_room w t n → has_room (set_blocks (delete nb) w) t n;
  mail_out e w M : mail w M → mail (add_out e w) M;
  room_out e w t n : has_room w t n → has_room (add_out e w) t n;

  getMsgTag_spec w M t m ms :
    mail w M → M !! t = Some (m :: ms) →
    wp (Comm_getMsgTag Comm t) p w (λ a w', a = m_tag m ∧ mail w' M ∧ opened w' t ∧
      ext (λ b _, tr_own b) w w' ∧ ∀ t' n, has_room w t' n → has_room w' t' n);
  receive_spec w M t m ms :
    wok w → mail w M → opened w t → M !! t = Some (m :: ms) →
    wp (Comm_receive Comm t) p w (λ a w', mail w' (<[t := ms]> M) ∧
      ext (λ b _, tr_own b) w w' ∧ (∀ t' n, t' ≠ t → has_room w t' n → has_room w' t' n) ∧
      msg_ok m ∧ ∃ b d, a = Addr p b 0 ∧ w_next w <= b ∧ obj_at w' p b 0 m d ∧
        (data_field (m_body m) = None ∨ ptr_block d = Some (b + 1)));
  send_spec w M t ms b m d :
    mail w M → M !! t = Some ms → has_room w t (m_size m) →
    obj_at w p b 0 m d → msg_ok m → ¬ is_topo (m_body m) → ¬ tr_own b →
    (∀ b', tr_own b' → arr_sep d (payload (m_body m)) b') → arr_sep d (payload (m_body m)) b →
    wp (Comm_send Comm (Addr p b 0) t) p w (λ a w', a = 1 ∧ mail w' (<[t := ms ++ [m]]> M) ∧
      obj_at w' p b 0 m d ∧ ext (λ b _, tr_own b) w w' ∧
      ∀ t' n, t' ≠ t → has_room w t' n → has_room w' t' n);
  immediate_spec w M t ms :
    mail w M → M !! t = Some ms →
    wp (Comm_message_immediate Comm t) p w (λ a w', a = (if decide (ms = []) then 1 else 0) ∧ mail w' M ∧
      ext (λ b _, tr_own b) w w' ∧ ∀ t' n, has_room w t' n → has_room w' t' n);
  wait_spec w M t : mail w M → wp (Comm_message_wait Comm t) p w (λ _ w', w' = w)
}.

(** ** What the receive functions of the tasks do *)

Section tasks.
Context (p : Z) (Comm : ptr) `{!Transport p Comm}.

(** Task [t], with its struct at block [b], of process [p]. *)
Definition task_at (w : world) (b t : Z) : Prop :=
  wok w ∧ mb w b (0 + f_off Task_taskID) (enc_i32 t) ∧ ¬ tr_own b ∧ is_s32 t.

Lemma task_comm w w' b t : ext (λ b' _, tr_own b') w w' → task_at w b t → task_at w' b t.
Proof.
  intros He (Hok & Hid & Hb & Ht). split_and!; [by eapply ext_wok| |done|done].
  eapply mb_extF; [exact He|done|exact Hid].
Qed.

(** A message waits: its tag, without a turn of the wait loop. *)
Lemma wait_tag_wp fuel w b t M m ms :
  task_at w b t → mail w M → M !! t = Some (m :: ms) → 0 <= m_tag m →
  wp (wait_tag fuel Comm (Addr p b 0)) p w (λ a w', a = m_tag m ∧ mail w' M ∧ opened w' t ∧ task_at w' b t ∧
    ext (λ b' _, tr_own b') w w' ∧ ∀ t' n, has_room w t' n → has_room w' t' n).
Proof.
  intros Htk HM HMt Htag. pose proof Htk as (Hok & Hid & Hb & Ht). unfold wait_tag.
  apply wp_bind. eapply wp_get_int; [exact Hid|]. rewrite s32_small by done.
  apply wp_bind. eapply wp_mono; [by eapply getMsgTag_spec|]. cbv beta. intros a w1 (-> & HM1 & Hop & He1 & Hroom1).
  assert ((m_tag m <? 0) = false) as E by lia.
  replace (while_fuel fuel (m_tag m) _ _) with (@ret Z (m_tag m)) by (by destruct fuel; cbn [while_fuel]; rewrite E).
  apply wp_ret. split_and!; try done. by eapply task_comm.
Qed.

Lemma receive_mine_wp w b t M m ms :
  task_at w b t → mail w M → opened w t → M !! t = Some (m :: ms) →
  wp (receive_mine Comm (Addr p b 0)) p w (λ a w', mail w' (<[t := ms]> M) ∧ task_at w' b t ∧
    ext (λ b' _, tr_own b') w w' ∧ (∀ t' n, t' ≠ t → has_room w t' n → has_room w' t' n) ∧
    msg_ok m ∧ ∃ rb d, a = Addr p rb 0 ∧ w_next w <= rb ∧ obj_at w' p rb 0 m d ∧
      (data_field (m_body m) = None ∨ ptr_block d = Some (rb + 1))).
Proof.
  intros Htk HM Hop HMt. pose proof Htk as (Hok & Hid & Hb & Ht). unfold receive_mine. apply wp_bind.
  eapply wp_get_int; [exact Hid|]. rewrite s32_small by done.
  eapply wp_mono; [by eapply receive_spec|]. cbv beta. intros a w' (HM' & He & Hrest).
  split; [done|]. split; [by eapply task_comm|by split].
Qed.

End tasks.

(** ** The implementation *)

(** The method members of the system object are bound. *)
Definition comm_calls : list (field * string) :=
  (λ x, (member System_struct x.1, x.2)) <$> System_methods.

Definition calls (w : world) (p s : Z) : Prop := bound w p s 0 comm_calls.

Lemma calls_call w p s f fn : (f, fn) ∈ comm_calls → calls w p s → mb w s (0 + f_off f) (enc_ptr (Fun p fn)).
Proof.
  unfold calls. induction comm_calls as [|x l IH]; [by intros ?%elem_of_nil|].
  cbn [bound]. intros [<-|Hx]%elem_of_cons [? ?]; [done|by apply IH].
Qed.

Lemma calls_at w p s f fn :
  (f, fn) ∈ System_methods → calls w p s → mb w s (0 + f_off (System_method f)) (enc_ptr (Fun p fn)).
Proof. intros Hin. apply calls_call, list_elem_of_fmap. by exists (f, fn). Qed.

Lemma wp_call {A} w p s f fn (c : M A) Q :
  calls w p s → (f, fn) ∈ System_methods → wp c p w Q →
  wp (call_through (Addr p s 0) (System_method f) [(fn, c)]) p w Q.
Proof.
  intros Hc Hin HQ. eapply wp_call_through; [by eapply calls_at| |exact HQ].
  cbn. by rewrite String.eqb_refl.
Qed.

Lemma calls_ext F w w' p s : ext F w w' → (∀ i, 808 <= i → ¬ F s i) → calls w p s → calls w' p s.
Proof.
  intros He HF. unfold calls.
  assert (Forall (λ x : field * string, 808 <= f_off x.1) comm_calls) as Hl by by_eval.
  induction Hl as [|x l Hx _ IH]; [done|]. cbn [bound]. intros [H1 H2]. split; [|by apply IH].
  eapply mb_extF; [exact He| |exact H1]. intros i Hi. apply HF. autorewrite with len in Hi. lia.
Qed.

Lemma acquired_env p w w' t v : env w' = env w → acquired p w' t v = acquired p w t v.
Proof. intros E. unfold acquired. by injection E as _ -> _ _ _ _ _ _. Qed.

(** ** One queue *)

Section queue.
Context (p s : Z).

(** The messages [ms] wait in queue [q], the queue of task [t], which process [p]
    has acquired or can acquire. *)
Definition waiting (w : world) (t q : Z) (ms : list msg) : Prop :=
  unlocked w q ∧ (∃ v, slot w s t v ∧ acquired p w t v = Addr p q 0) ∧
  ∃ r, q_inv w q r ∧ (r_segs r).*2 = ms.

Definition queue_room (w : world) (q n : Z) : Prop := ∃ r, q_inv w q r ∧ room r n.

Lemma slot_ext F w w' t v :
  ext F w w' → (∀ i, slot_off t <= i < slot_off t + 8 → ¬ F s i) → slot w s t v → slot w' s t v.
Proof. intros He HF. apply mb_extF with (1 := He). autorewrite with len. done. Qed.

Lemma waiting_ext F w w' t q ms :
  ext F w w' → (∀ i, ¬ F q i) → (∀ i, slot_off t <= i < slot_off t + 8 → ¬ F s i) →
  waiting w t q ms → waiting w' t q ms.
Proof.
  intros He HF Hs (Hu & (v & Hv & Ha) & r & Hq & Hr). split_and!.
  - by eapply unlocked_ext.
  - exists v. split; [by eapply slot_ext|]. by rewrite (acquired_env _ _ _ _ _ (ext_env _ _ _ He)).
  - exists r. split; [by eapply q_inv_extF|done].
Qed.

Lemma q_inv_free w q r nb : nb ≠ q → q_inv w q r → q_inv (set_blocks (delete nb) w) q r.
Proof.
  intros Hq (Hval & (H1 & H2 & H3 & H4) & Hok & Hm & Hser).
  split_and!; [by apply valid_free| |done|done|].
  - unfold q_header. split_and!; by apply mb_free.
  - eapply Forall_impl; [exact Hser|]. intros [a m] (Hh & Hsc & Hp).
    split_and!; [by apply flds_free|by apply flds_free|by apply mb_free].
Qed.

Lemma waiting_free w t q ms nb :
  nb ≠ q → nb ≠ s → waiting w t q ms → waiting (set_blocks (delete nb) w) t q ms.
Proof.
  intros Hq Hs (Hu & (v & Hv & Ha) & r & Hqi & Hr).
  split; [done|]. split; [exists v; split; [by apply mb_free|done]|]. exists r. split; [by apply q_inv_free|done].
Qed.

Lemma room_unique w q r r' n : q_inv w q r → q_inv w q r' → room r n → room r' n.
Proof.
  intros Hq Hq'. pose proof (q_header_bounds _ _ _ Hq) as (B1 & B2 & B3 & _).
  pose proof (q_header_bounds _ _ _ Hq') as (B1' & B2' & B3' & _). unfold Q_SIZE in *.
  assert (∀ o a b, mb w q o (enc_i32 a) → mb w q o (enc_i32 b) → -1 <= a <= 1000000 → -1 <= b <= 1000000 → a = b) as Hinj.
  { intros o a b Ha Hb ? ?. pose proof (mb_inj _ _ _ _ _ Ha Hb ltac:(by autorewrite with len)) as E.
    apply (f_equal dec_n) in E. unfold enc_i32 in E. rewrite !dec_enc_n in E. injection E as E.
    change (256 ^ Z.of_nat 4) with 4294967296 in E.
    rewrite <- (s32_small a), <- (s32_small b) by (unfold is_s32; lia). unfold s32, u32. by rewrite E. }
  destruct Hq as (_ & (Hh & Ht & _ & Hro) & _), Hq' as (_ & (Hh' & Ht' & _ & Hro') & _).
  assert (r_head r = r_head r') as E1 by (apply (Hinj _ _ _ Hh Hh'); lia).
  assert (r_tail r = r_tail r') as E2 by (apply (Hinj _ _ _ Ht Ht'); lia).
  assert (r_ro r = r_ro r') as E3 by (apply (Hinj _ _ _ Hro Hro'); lia).
  unfold room. by rewrite E1, E2, E3.
Qed.

Lemma room_small w q r n : q_inv w q r → room r n → n <= Q_SIZE.
Proof. intros Hq. pose proof (q_header_bounds _ _ _ Hq). unfold room, sizeof_Queue. lia. Qed.

End queue.

(** ** All queues *)

(** [Qs] gives the queue of every task that [p] sends to or receives from. *)
Definition table_ok (s : Z) (Qs : gmap Z Z) : Prop :=
  (∀ t q, Qs !! t = Some q → 0 <= t < 100 ∧ q ≠ s) ∧
  ∀ t t' q, Qs !! t = Some q → Qs !! t' = Some q → t = t'.

Section table.
Context (p s : Z) (Qs : gmap Z Z) (HQs : table_ok s Qs).

Definition own (b : Z) : Prop := b = s ∨ ∃ t, Qs !! t = Some b.

Definition all_mail (w : world) (M : gmap Z (list msg)) : Prop :=
  calls w p s ∧ (∀ t, is_Some (Qs !! t) ↔ is_Some (M !! t)) ∧
  ∀ t q ms, Qs !! t = Some q → M !! t = Some ms → waiting p s w t q ms.

Definition task_room (w : world) (t n : Z) : Prop := ∃ q, Qs !! t = Some q ∧ queue_room w q n.

Definition filled (w : world) (t : Z) : Prop := ∃ q, Qs !! t = Some q ∧ slot w s t (Addr p q 0).

Lemma own_s : own s.
Proof. by left. Qed.
Lemma own_q t q : Qs !! t = Some q → own q.
Proof. right. by exists t. Qed.
#[local] Hint Resolve own_s own_q : core.

Lemma mail_task w M t ms : all_mail w M → M !! t = Some ms → ∃ q, Qs !! t = Some q ∧ waiting p s w t q ms.
Proof.
  intros (_ & Hdom & Hw) Ht. destruct (proj2 (Hdom t) ltac:(by eexists)) as [q Hq]. eauto.
Qed.

Lemma all_mail_old w M b : wok w → all_mail w M → own b → b < w_next w.
Proof.
  intros Hok (Hc & Hdom & Hw) [->|[t Ht]].
  - assert ((("send", "System.send") : string * string) ∈ System_methods)%string as Hin by by_eval.
    eapply mb_fresh; [done|exact (calls_at _ _ _ _ _ Hin Hc)].
  - destruct (proj1 (Hdom t) ltac:(by eexists)) as [ms Hms].
    destruct (Hw _ _ _ Ht Hms) as (_ & _ & r & (Hv & _) & _). by eapply valid_fresh.
Qed.

Lemma all_mail_ext F w w' M :
  ext F w w' → (∀ b i, own b → ¬ F b i) → all_mail w M → all_mail w' M.
Proof.
  intros He HF (Hc & Hdom & Hw). split_and!; [eapply calls_ext; [exact He|auto|exact Hc]|done|].
  intros t q ms Ht Hms. eapply waiting_ext; [exact He|eauto|auto|by apply Hw].
Qed.

Lemma task_room_ext F w w' t n :
  ext F w w' → (∀ b i, own b → ¬ F b i) → task_room w t n → task_room w' t n.
Proof.
  intros He HF (q & Ht & r & Hq & Hr). exists q. split; [done|]. exists r. split; [|done].
  eapply q_inv_extF; [exact He|eauto|exact Hq].
Qed.

Lemma task_room_le w t n n' : n' <= n → task_room w t n → task_room w t n'.
Proof. intros Hn (q & Ht & r & Hq & Hr). exists q. split; [done|]. exists r. split; [done|]. unfold room in *. lia. Qed.

Lemma task_room_empty w M t n : all_mail w M → M !! t = Some [] → n <= 400000 → task_room w t n.
Proof.
  intros HM Ht Hn. destruct (mail_task _ _ _ _ HM Ht) as (q & Hq & _ & _ & r & Hqi & Hr). exists q. split; [done|].
  exists r. split; [done|]. apply room_half; [apply Hqi|by destruct (r_segs r)|]. unfold Q_SIZE, sizeof_Queue. lia.
Qed.

Lemma all_mail_free w M nb : ¬ own nb → all_mail w M → all_mail (set_blocks (delete nb) w) M.
Proof.
  intros Hnb (Hc & Hdom & Hw). assert (s ≠ nb) by (intros E; apply Hnb; rewrite <- E; auto). split_and!; [|done|].
  - by apply bound_free.
  - intros t q ms Ht Hms. apply waiting_free; [intros ->; eauto|done|by apply Hw].
Qed.

Lemma task_room_free w t n nb : ¬ own nb → task_room w t n → task_room (set_blocks (delete nb) w) t n.
Proof.
  intros Hnb (q & Ht & r & Hq & Hr). exists q. split; [done|]. exists r. split; [|done].
  apply q_inv_free; [intros ->; eauto|done].
Qed.

Lemma all_mail_out e w M : all_mail w M → all_mail (add_out e w) M.
Proof.
  intros (Hc & Hdom & Hw). split; [|split; [done|]].
  - revert Hc. unfold calls. induction comm_calls as [|x l IH]; [done|]. cbn [bound]. intros [? ?]. by split; [|apply IH].
  - intros t q ms Ht Hms. destruct (Hw _ _ _ Ht Hms) as (Hu & Hs & r & Hq & Hr). split; [done|]. split; [exact Hs|].
    exists r. split; [by apply (q_inv_blocks w)|done].
Qed.

Lemma task_room_out e w t n : task_room w t n → task_room (add_out e w) t n.
Proof. intros (q & Hq & r & Hqi & Hr). exists q. split; [done|]. exists r. split; [by apply (q_inv_blocks w)|done]. Qed.

(** The slots of different tasks do not overlap; neither do the methods. *)
Lemma slot_apart t t' i : t ≠ t' → slot_off t <= i < slot_off t + 8 → ¬ (slot_off t' <= i < slot_off t' + 8).
Proof. unfold slot_off. lia. Qed.

(** A change of the queue and of the slot of task [t] leaves the others. *)
Definition foot (t q : Z) : Z → Z → Prop := λ b i, b = q ∨ range s (slot_off t) 8 b i.

Lemma foot_own t q : Qs !! t = Some q → ∀ b i, foot t q b i → own b.
Proof. intros Ht b i [->|[-> _]]; eauto. Qed.

Lemma other_waiting w w' t q t' q' ms :
  Qs !! t = Some q → Qs !! t' = Some q' → t' ≠ t → ext (foot t q) w w' →
  waiting p s w t' q' ms → waiting p s w' t' q' ms.
Proof.
  intros Ht Ht' Hne He. destruct HQs as [Hok Hinj]. pose proof (Hok _ _ Ht'). pose proof (Hok _ _ Ht).
  apply waiting_ext with (1 := He).
  - intros i [->|[-> _]]; [|tauto]. by apply Hne, (Hinj _ _ q).
  - intros i Hi [->|[_ Hr]]; [tauto|]. by eapply slot_apart in Hr.
Qed.

Lemma other_room w w' t q t' n :
  Qs !! t = Some q → t' ≠ t → ext (foot t q) w w' → task_room w t' n → task_room w' t' n.
Proof.
  intros Ht Hne He (q' & Ht' & r & Hq & Hr). destruct HQs as [Hok Hinj]. exists q'. split; [done|].
  exists r. split; [|done]. eapply q_inv_extF; [exact He| |exact Hq].
  intros i [->|[-> _]]; [by apply Hne, (Hinj _ _ q)|]. by destruct (Hok _ _ Ht').
Qed.

Lemma mail_update w w' M t q ms :
  all_mail w M → Qs !! t = Some q → ext (foot t q) w w' → waiting p s w' t q ms → all_mail w' (<[t := ms]> M).
Proof.
  intros (Hc & Hdom & Hw) Ht He Hq. destruct HQs as [Hok Hinj]. pose proof (Hok _ _ Ht) as [? ?]. split_and!.
  - eapply calls_ext; [exact He| |exact Hc]. intros i Hi [->|[_ Hr]]; [done|]. unfold slot_off in Hr. lia.
  - intros t'. destruct (decide (t' = t)) as [->|Hne]; [|by rewrite lookup_insert_ne].
    rewrite lookup_insert_eq. split; by eexists.
  - intros t' q' ms' Ht' Hms'. destruct (decide (t' = t)) as [->|Hne].
    + rewrite lookup_insert_eq in Hms'. by simplify_eq.
    + rewrite lookup_insert_ne in Hms' by done. eapply (other_waiting w _ t q); eauto.
Qed.


(** ** The operations *)

(** Taking the queue: only the slot of the task is written. *)
Lemma check_mail w M t ms :
  all_mail w M → M !! t = Some ms →
  wp (check_Q_and_acquire (Addr p s 0) t) p w (λ _ w', ∃ q, Qs !! t = Some q ∧ slot w' s t (Addr p q 0) ∧
    all_mail w' M ∧ waiting p s w' t q ms ∧ ext (foot t q) w w' ∧ ∀ t' n, task_room w t' n → task_room w' t' n).
Proof.
  intros HM Ht. destruct (mail_task _ _ _ _ HM Ht) as (q & Hq & Hw).
  pose proof Hw as (Hu & (v & Hv & Ha) & r & Hqi & Hr). destruct HQs as [Hok _]. destruct (Hok _ _ Hq) as [Ht0 Hsq].
  eapply wp_mono; [eapply check_Q_wp; [exact Hv|by apply queue_name_short; lia]|]. cbv beta.
  intros _ w' (Hs & He & _). rewrite Ha in Hs.
  specialize (He ltac:(intros ->; intros E; unfold acquired in Ha; by rewrite E in Ha)).
  assert (ext (foot t q) w w') as He' by (eapply ext_weaken; [|exact He]; by right).
  assert (waiting p s w' t q ms) as Hw'.
  { split; [by eapply unlocked_ext|]. split; [by exists (Addr p q 0)|]. exists r. split; [|done].
    eapply q_inv_upd_slot; [exact He|done|exact Hqi]. }
  exists q. split_and!; try done; [rewrite <- (insert_id M t ms Ht); by eapply mail_update|].
  intros t' n (q' & Hq' & r' & Hqi' & Hroom). exists q'. split; [done|]. exists r'. split; [|done].
  eapply q_inv_upd_slot; [exact He| |exact Hqi']. by destruct (Hok _ _ Hq').
Qed.

Lemma slot_call {A} w t q (k : ptr → M A) Q :
  slot w s t (Addr p q 0) → wp (k (Addr p q 0)) p w Q →
  wp (Q <- ld_ptr (TaskTable_at (Addr p s 0) t);; k Q) p w Q.
Proof. intros Hs HQ. apply wp_bind. by eapply wp_slot. Qed.

Lemma getMsgTag_mail w M t m ms :
  all_mail w M → M !! t = Some (m :: ms) →
  wp (Comm_getMsgTag (Addr p s 0) t) p w (λ a w', a = m_tag m ∧ all_mail w' M ∧ filled w' t ∧
    ext (λ b _, own b) w w' ∧ ∀ t' n, task_room w t' n → task_room w' t' n).
Proof.
  intros HM Ht. apply wp_call; [apply HM|by_eval|]. unfold getMsgTag.
  apply wp_bind. eapply wp_mono; [by eapply check_mail|]. cbv beta.
  intros _ w1 (q & Hq & Hs & HM1 & Hw & He & Hroom). eapply slot_call; [exact Hs|].
  destruct Hw as (Hu & _ & r & Hqi & Hr). apply wp_bind. eapply wp_mono; [by apply Peek_wp|]. cbv beta.
  intros a w2 (-> & ->). destruct (r_segs r) as [|[pos m'] segs] eqn:Es; [done|].
  cbn [fmap list_fmap snd] in Hr. injection Hr as -> _. rewrite decide_False by done.
  pose proof Hqi as (_ & _ & _ & Hms & Hser). rewrite Es in Hms, Hser.
  apply Forall_cons in Hms as [(Htag & _) _]. apply Forall_cons in Hser as [((Hmt & _) & _) _].
  eapply wp_get_int; [exact Hmt|]. cbn [snd]. split_and!; [by apply s32_small|done|by exists q| |exact Hroom].
  eapply ext_weaken; [|exact He]. intros b k i _. by apply foot_own.
Qed.

Lemma immediate_mail w M t ms :
  all_mail w M → M !! t = Some ms →
  wp (Comm_message_immediate (Addr p s 0) t) p w (λ a w', a = (if decide (ms = []) then 1 else 0) ∧ all_mail w' M ∧
    ext (λ b _, own b) w w' ∧ ∀ t' n, task_room w t' n → task_room w' t' n).
Proof.
  intros HM Ht. apply wp_call; [apply HM|by_eval|]. unfold message_immediate.
  apply wp_bind. eapply wp_mono; [by eapply check_mail|]. cbv beta.
  intros _ w1 (q & Hq & Hs & HM1 & Hw & He & Hroom). eapply slot_call; [exact Hs|].
  destruct Hw as (Hu & _ & r & Hqi & <-). eapply wp_mono; [by apply IsEmpty_wp|]. cbv beta.
  intros a w2 (-> & ->). split_and!; [by destruct (r_segs r)|done| |exact Hroom].
  eapply ext_weaken; [|exact He]. intros b k i _. by apply foot_own.
Qed.

Lemma receive_mail w M t m ms :
  wok w → all_mail w M → filled w t → M !! t = Some (m :: ms) →
  wp (Comm_receive (Addr p s 0) t) p w (λ a w', all_mail w' (<[t := ms]> M) ∧
    ext (λ b _, own b) w w' ∧ (∀ t' n, t' ≠ t → task_room w t' n → task_room w' t' n) ∧
    msg_ok m ∧ ∃ b d, a = Addr p b 0 ∧ w_next w <= b ∧ obj_at w' p b 0 m d ∧
      (data_field (m_body m) = None ∨ ptr_block d = Some (b + 1))).
Proof.
  intros Hok HM (q & Hq & Hs) Ht. apply wp_call; [apply HM|by_eval|].
  destruct (mail_task _ _ _ _ HM Ht) as (q' & Hq' & Hw). simplify_eq.
  destruct Hw as (Hu & _ & r & Hqi & Hr). destruct (r_segs r) as [|[pos m'] segs] eqn:Es; [done|].
  cbn [fmap list_fmap snd] in Hr. injection Hr as -> <-.
  assert (msg_ok m) as Hm by (eapply (q_segs _ _ _ pos m Hqi); rewrite Es; by left).
  eapply receive_take; [exact Hs|exact Hqi|exact Hu|exact Es|].
  eapply wp_mono; [by eapply take_clone_wp|]. cbv beta. intros a w' (Hu' & He & (r' & Hqi' & Hr') & b & d & -> & Hb & Ho & Hd).
  assert (ext (foot t q) w w') as He' by (eapply ext_weaken; [|exact He]; by left).
  destruct HQs as [Hok' _]. destruct (Hok' _ _ Hq) as [_ Hsq]. split_and!.
  - eapply mail_update; [exact HM|exact Hq|exact He'|]. split; [done|]. split.
    + exists (Addr p q 0). split; [|done]. eapply slot_ext; [exact He|by intros i _ E|exact Hs].
    + exists r'. by rewrite Hr'.
  - eapply ext_weaken; [|exact He']. intros b' k i _. by apply foot_own.
  - intros t' n Hne. by apply (other_room _ _ t q).
  - done.
  - by exists b, d.
Qed.

Lemma send_mail w M t ms b m d :
  all_mail w M → M !! t = Some ms → task_room w t (m_size m) →
  obj_at w p b 0 m d → msg_ok m → ¬ is_topo (m_body m) → ¬ own b →
  (∀ b', own b' → arr_sep d (payload (m_body m)) b') → arr_sep d (payload (m_body m)) b →
  wp (Comm_send (Addr p s 0) (Addr p b 0) t) p w (λ a w', a = 1 ∧ all_mail w' (<[t := ms ++ [m]]> M) ∧
    obj_at w' p b 0 m d ∧ ext (λ b _, own b) w w' ∧
    ∀ t' n, t' ≠ t → task_room w t' n → task_room w' t' n).
Proof.
  intros HM Ht (q & Hq & r0 & Hqi0 & Hroom) Ho Hm Htopo Hb Hd Hdb. apply wp_call; [apply HM|by_eval|].
  destruct (mail_task _ _ _ _ HM Ht) as (q' & Hq' & Hu & (v & Hv & Ha) & r & Hqi & Hr). simplify_eq.
  pose proof (room_unique _ _ _ _ _ Hqi0 Hqi Hroom) as Hrr. pose proof (room_small _ _ _ _ Hqi Hrr) as Hsz.
  destruct HQs as [Hok' _]. destruct (Hok' _ _ Hq) as [Ht0 Hsq].
  eapply wp_mono; [eapply (send_wp _ _ _ _ _ q b 0 m d r); try done|].
  { apply queue_name_short. lia. }
  { intros ->. eauto. }
  { eauto. }
  { unfold Q_SIZE in *. lia. }
  { intros E. apply Hb. rewrite <- E. auto. }
  { auto. }
  cbv beta. intros a w' (Hs & Hu' & HQ). destruct (mring_enq r m) as [r'|] eqn:Er; [|by apply enq_no_room in Er].
  destruct HQ as (-> & Hqi' & Ho' & He). assert (bump m = m) as Hbump by (unfold bump; by destruct (m_body m)).
  rewrite Hbump in Ho'.
  assert (ext (foot t q) w w') as He'.
  { eapply ext_weaken; [|exact He]. intros b' k i _ [[->|[? _]]|?]; [by left|done|by right]. }
  split_and!; [done| |done| |].
  - eapply mail_update; [exact HM|exact Hq|exact He'|]. split; [done|]. split; [by exists (Addr p q 0)|].
    exists r'. split; [done|]. apply enq_after in Er as (pos & ro & _ & ->). cbn [r_segs]. by rewrite fmap_app.
  - eapply ext_weaken; [|exact He']. intros b' k i _. by apply foot_own.
  - intros t' n Hne. by apply (other_room _ _ t q).
Qed.

Lemma wait_mail w M t : all_mail w M → wp (Comm_message_wait (Addr p s 0) t) p w (λ _ w', w' = w).
Proof. intros HM. apply wp_call; [apply HM|by_eval|done]. Qed.

#[export] Instance System_transport : Transport p (Addr p s 0) := {
  tr_own := own; mail := all_mail; has_room := task_room; opened := filled;
  mail_old := all_mail_old; mail_ext := all_mail_ext; room_ext := task_room_ext; room_le := task_room_le;
  room_empty := task_room_empty;
  mail_free := all_mail_free; room_free := task_room_free; mail_out := all_mail_out; room_out := task_room_out;
  getMsgTag_spec := getMsgTag_mail; receive_spec := receive_mail; send_spec := send_mail;
  immediate_spec := immediate_mail; wait_spec := wait_mail
}.

End table.
