(* ===== verification/SimpleTasks.v ===== *)
(** * The example tasks: PapaTask, FooTask, BazTask

    [src/Tasks/PapaTask], [FooTask] and [BazTask] with their [generated.h].
    [PapaTask] starts two [FooTask]s and a [BazTask] and sends each one a text
    and a bar message; the others receive two messages each. *)

From S2P Require Import Prelude CMem Messages CircularMsgQ System TimeHelper Tasks.
From stdpp Require Import base numbers list strings gmap.
#[local] Open Scope Z_scope.
#[local] Open Scope ts_scope.

(** [enum {TEXT_MSG, BAR_MSG};], the same in the three files. *)
Definition TEXT_MSG : Z := 0.
Definition BAR_MSG : Z := 1.

(** ** FooTask *)

Definition FooTask_struct : struct_decl := task_members.

Definition sizeof_FooTask := Eval vm_compute in struct_size FooTask_struct.

Definition FooTask_create (Comm : ptr) : M Z :=
  Task_create Comm sizeof_FooTask no_init "FooTask.run".

Definition FooTask_send (Comm this data : ptr) (target : Z) : M Z :=
  Task_send Comm this data target.

Definition FooTask_message_notify (Comm this : ptr) : M unit := Task_message_notify Comm this.

Definition FooTask_message_wait (Comm this : ptr) : M unit := Task_message_wait Comm this.

Definition FooTask_message_immediate (Comm this : ptr) : M Z :=
  Task_message_immediate Comm this.

Definition FooTask_repository_set_name (Comm this name : ptr) : M unit :=
  Task_repository_set_name Comm this name.

Definition FooTask_repository_get_id (Comm this task_name : ptr) : M Z :=
  Task_repository_get_id Comm this task_name.

Definition FooTask_handle_TextMsg (this textMsg : ptr) : M unit :=
  taskID <- get_int this Task_taskID;;
  m <- call_TextMsg_getMsg textMsg;;
  s <- load_str m;;
  printf "Task %d Text message handler: %s" [AInt taskID; AStr s].

Definition FooTask_handle_BarMsg (this barMsg : ptr) : M unit :=
  taskID <- get_int this Task_taskID;;
  value <- call_BarMsg_getValue barMsg;;
  printf "Task %d Bar message handler, value: %d" [AInt taskID; AInt value].

Definition FooTask_receive (Comm this : ptr) : M unit :=
  taskID <- get_int this Task_taskID;;
  tag <- Comm_getMsgTag Comm taskID;;
  if tag =? -1 then ret tt
  else if tag =? TEXT_MSG then
    (textMsg <- receive_mine Comm this;; FooTask_handle_TextMsg this textMsg)
  else if tag =? BAR_MSG then
    (barMsg <- receive_mine Comm this;; FooTask_handle_BarMsg this barMsg)
  else no_handler Comm this tag.

Definition FooTask_start (Comm this : ptr) : M unit :=
  FooTask_receive Comm this;;;
  FooTask_receive Comm this.

Definition FooTask_run (Comm FooTaskRef : ptr) : M unit := Task_run (FooTask_start Comm) FooTaskRef.

(** ** BazTask *)

Definition BazTask_struct : struct_decl := task_members.

Definition sizeof_BazTask := Eval vm_compute in struct_size BazTask_struct.

Definition BazTask_create (Comm : ptr) : M Z :=
  Task_create Comm sizeof_BazTask no_init "BazTask.run".

Definition BazTask_send (Comm this data : ptr) (target : Z) : M Z :=
  Task_send Comm this data target.

Definition BazTask_message_notify (Comm this : ptr) : M unit := Task_message_notify Comm this.

Definition BazTask_message_wait (Comm this : ptr) : M unit := Task_message_wait Comm this.

Definition BazTask_message_immediate (Comm this : ptr) : M Z :=
  Task_message_immediate Comm this.

Definition BazTask_repository_set_name (Comm this name : ptr) : M unit :=
  Task_repository_set_name Comm this name.

Definition BazTask_repository_get_id (Comm this task_name : ptr) : M Z :=
  Task_repository_get_id Comm this task_name.

Definition BazTask_handle_TextMsg (this textMsg : ptr) : M unit :=
  taskID <- get_int this Task_taskID;;
  m <- call_TextMsg_getMsg textMsg;;
  s <- load_str m;;
  printf "Task %d Text message handler: %s" [AInt taskID; AStr s].

Definition BazTask_handle_BarMsg (this barMsg : ptr) : M unit :=
  taskID <- get_int this Task_taskID;;
  value <- call_BarMsg_getValue barMsg;;
  printf "Task %d Bar message handler, value: %d" [AInt taskID; AInt value].

Definition BazTask_receive (Comm this : ptr) : M unit :=
  taskID <- get_int this Task_taskID;;
  tag <- Comm_getMsgTag Comm taskID;;
  if tag =? -1 then ret tt
  else if tag =? TEXT_MSG then
    (textMsg <- receive_mine Comm this;; BazTask_handle_TextMsg this textMsg)
  else no_handler Comm this tag.

Definition BazTask_start (Comm this : ptr) : M unit :=
  BazTask_receive Comm this;;;
  BazTask_receive Comm this.

Definition BazTask_run (Comm BazTaskRef : ptr) : M unit := Task_run (BazTask_start Comm) BazTaskRef.

(** ** PapaTask *)

Definition PapaTask_struct : struct_decl := task_members.

Definition sizeof_PapaTask := Eval vm_compute in struct_size PapaTask_struct.

Definition PapaTask_create (Comm : ptr) : M Z :=
  Task_create Comm sizeof_PapaTask no_init "PapaTask.run".

Definition PapaTask_send (Comm this data : ptr) (target : Z) : M Z :=
  Task_send Comm this data target.

Definition PapaTask_message_notify (Comm this : ptr) : M unit := Task_message_notify Comm this.

Definition PapaTask_message_wait (Comm this : ptr) : M unit := Task_message_wait Comm this.

Definition PapaTask_message_immediate (Comm this : ptr) : M Z :=
  Task_message_immediate Comm this.

Definition PapaTask_repository_set_name (Comm this name : ptr) : M unit :=
  Task_repository_set_name Comm this name.

Definition PapaTask_repository_get_id (Comm this task_name : ptr) : M Z :=
  Task_repository_get_id Comm this task_name.

(** One text message: create it, set it, say so, send it. *)
Definition PapaTask_send_text (Comm this : ptr) (s : string) (child : Z) : M ptr :=
  textMsg <- TextMsg_create TEXT_MSG;;
  lit <- str_lit s;;
  call_TextMsg_setMsg textMsg lit;;;
  m <- call_TextMsg_getMsg textMsg;;
  text <- load_str m;;
  taskID <- get_int this Task_taskID;;
  printf "sending a Text message [%s] from Task %d to Task %d..."
    [AStr text; AInt taskID; AInt child];;;
  PapaTask_send Comm this textMsg child;;;
  ret textMsg.

Definition PapaTask_send_bar (Comm this : ptr) (value child : Z) : M ptr :=
  barMsg <- BarMsg_create BAR_MSG;;
  call_BarMsg_setValue barMsg value;;;
  v <- call_BarMsg_getValue barMsg;;
  taskID <- get_int this Task_taskID;;
  printf "sending a Bar message [%d] from Task %d to Task %d..."
    [AInt v; AInt taskID; AInt child];;;
  PapaTask_send Comm this barMsg child;;;
  ret barMsg.

Definition PapaTask_start (Comm this : ptr) : M unit :=
  child1 <- FooTask_create Comm;;
  child2 <- FooTask_create Comm;;
  child3 <- BazTask_create Comm;;
  textMsg1 <- PapaTask_send_text Comm this "Hello World" (s32 child1);;
  barMsg1 <- PapaTask_send_bar Comm this 44 (s32 child2);;
  barMsg2 <- PapaTask_send_bar Comm this 99 (s32 child1);;
  textMsg2 <- PapaTask_send_text Comm this "Goodbye World" (s32 child2);;
  barMsg3 <- PapaTask_send_bar Comm this 11 (s32 child3);;
  textMsg3 <- PapaTask_send_text Comm this "me too" (s32 child3);;
  call_destroy textMsg1;;; call_destroy textMsg2;;; call_destroy textMsg3;;;
  call_destroy barMsg1;;; call_destroy barMsg2;;; call_destroy barMsg3.

Definition PapaTask_run (Comm PapaTaskRef : ptr) : M unit :=
  Task_run (PapaTask_start Comm) PapaTaskRef.

(** Its [receive] is empty. *)
Definition PapaTask_receive (this : ptr) (target : Z) : M unit := ret tt.

(** ** Running the threads

    The main program of [test/simple_task_test.c] creates the system and a
    [PapaTask].  [run_thread] runs one of the started threads to its end. *)

Definition run_thread (Comm : ptr) (t : string) (arg : ptr) : M unit :=
  if String.eqb t "PapaTask.run" then PapaTask_run Comm arg
  else if String.eqb t "FooTask.run" then FooTask_run Comm arg
  else if String.eqb t "BazTask.run" then BazTask_run Comm arg
  else ret tt.

(** Run the started thread number [n]. *)
Definition run_nth (Comm : ptr) (n : nat) : M unit :=
  w <- get_world;;
  match w_threads w !! n with
  | Some (_, t, arg) => run_thread Comm t arg
  | None => ret tt
  end.

Fixpoint run_schedule (Comm : ptr) (s : list nat) : M unit :=
  match s with
  | [] => ret tt
  | n :: s' => run_nth Comm n;;; run_schedule Comm s'
  end.

(** [main], then the threads in the order of [s] (thread 0 is the signal loop). *)
Definition simple_task_test (s : list nat) : M Z :=
  Comm <- System_create;;
  printf "Hello task system" [];;;
  taskX <- PapaTask_create Comm;;
  run_schedule Comm s;;;
  ret taskX.
