(* ===== verification/Arrays.v ===== *)
(** * Arrays in memory

    Arrays of [int] and of pointers, element by element. *)

From S2P Require Import Prelude CMem CLogic Messages MessageSpec.
From stdpp Require Import base numbers list strings gmap.
From Stdlib Require Import Lia.
#[local] Open Scope Z_scope.
#[local] Open Scope ts_scope.

Section arrays.
Context {A : Type} (enc : A → list memval) (k : nat) (Hk : ∀ a, length (enc a) = k).

(** The bytes of an array. *)
Definition arr (l : list A) : list memval := concat (enc <$> l).

Lemma length_arr l : length (arr l) = (k * length l)%nat.
Proof using Hk.
  induction l as [|a l IH]; [by cbn; lia|]. change (arr (a :: l)) with (enc a ++ arr l).
  rewrite length_app, Hk, IH. cbn [length]. lia.
Qed.

Lemma arr_app l1 l2 : arr (l1 ++ l2) = arr l1 ++ arr l2.
Proof. unfold arr. by rewrite fmap_app, concat_app. Qed.

Lemma arr_cons a l : arr (a :: l) = enc a ++ arr l.
Proof. done. Qed.

Lemma mb_arr_lookup w b o l n a :
  mb w b o (arr l) → l !! n = Some a → mb w b (o + Z.of_nat (k * n)) (enc a).
Proof using Hk.
  intros Hm Hn. rewrite <- (take_drop_middle l n a Hn), arr_app, arr_cons in Hm.
  rewrite !mb_app in Hm. destruct Hm as (_ & Hm & _).
  apply lookup_lt_Some in Hn. rewrite length_arr, length_take_le in Hm by lia. done.
Qed.

Lemma mb_arr_insert w b o l n a :
  mb w b o (arr l) → (n < length l)%nat →
  mb (upd w b (o + Z.of_nat (k * n)) (enc a)) b o (arr (<[n:=a]> l)).
Proof using Hk.
  intros Hm Hn. destruct (lookup_lt_is_Some_2 l n Hn) as [x Hx].
  rewrite insert_take_drop, arr_app, arr_cons by done.
  rewrite <- (take_drop_middle l n x Hx), arr_app, arr_cons in Hm.
  rewrite !mb_app, length_arr, length_take_le, !Hk in * by lia. destruct Hm as (H1 & H2 & H3).
  split_and!.
  - apply mb_upd_disj; [|done]. rewrite length_arr, length_take_le, Hk by lia. lia.
  - apply mb_upd_same. apply mb_valid in H2. by rewrite Hk in *.
  - apply mb_upd_disj; [|done]. rewrite Hk. lia.
Qed.

Lemma valid_arr w b o l n :
  mb w b o (arr l) → (n < length l)%nat → valid w b (o + Z.of_nat (k * n)) k.
Proof using Hk.
  intros Hm Hn. apply mb_valid in Hm. rewrite length_arr in Hm. eapply valid_le; [exact Hm|lia|nia].
Qed.
End arrays.

(** ** Arrays of [int] *)

Lemma ints_arr l : ints l = arr enc_i32 l.
Proof. done. Qed.

Lemma ints_snoc l v : ints (l ++ [v]) = ints l ++ enc_i32 v.
Proof. rewrite !ints_arr, arr_app. unfold arr at 2. cbn [fmap list_fmap concat]. by rewrite app_nil_r. Qed.

Lemma ld_int_wp p w b o l i v (Q : Z → world → Prop) :
  mb w b o (ints l) → 0 <= i → l !! Z.to_nat i = Some v → is_s32 v → Q v w →
  wp (ld_i32 (idx_i32 (Addr p b o) i)) p w Q.
Proof.
  intros Hm Hi Hl Hv HQ. cbn [idx_i32 padd].
  eapply (mb_arr_lookup enc_i32 4 length_enc_i32) in Hm; [|exact Hl].
  replace (o + 4 * i) with (o + Z.of_nat (4 * Z.to_nat i)) by lia.
  eapply wp_ld_i32; [exact Hm|]. by rewrite s32_small.
Qed.

Lemma st_int_wp p w b o l i v (Q : unit → world → Prop) :
  mb w b o (ints l) → 0 <= i < Z.of_nat (length l) →
  (∀ w', mb w' b o (ints (<[Z.to_nat i := v]> l)) → w' = upd w b (o + 4 * i) (enc_i32 v) → Q tt w') →
  wp (st_i32 (idx_i32 (Addr p b o) i) v) p w Q.
Proof.
  intros Hm Hi HQ. cbn [idx_i32 padd].
  pose proof (valid_arr enc_i32 4 length_enc_i32 w b o l (Z.to_nat i) Hm ltac:(lia)) as Hv.
  pose proof (mb_arr_insert enc_i32 4 length_enc_i32 w b o l (Z.to_nat i) v Hm ltac:(lia)) as Hm'.
  replace (o + Z.of_nat (4 * Z.to_nat i)) with (o + 4 * i) in * by lia.
  apply wp_store; [by autorewrite with len|]. by apply HQ.
Qed.

(** ** Arrays of pointers *)

Definition ptrs (l : list ptr) : list memval := arr enc_ptr l.

Lemma ld_ptr_wp p w b o l i v (Q : ptr → world → Prop) :
  mb w b o (ptrs l) → 0 <= i → l !! Z.to_nat i = Some v → Q v w →
  wp (ld_ptr (idx_ptr (Addr p b o) i)) p w Q.
Proof.
  intros Hm Hi Hl HQ. cbn [idx_ptr padd].
  eapply (mb_arr_lookup enc_ptr 8 length_enc_ptr) in Hm; [|exact Hl].
  replace (o + 8 * i) with (o + Z.of_nat (8 * Z.to_nat i)) by lia.
  by eapply wp_ld_ptr.
Qed.

Lemma ptrs_snoc l v : ptrs (l ++ [v]) = ptrs l ++ enc_ptr v.
Proof. unfold ptrs. rewrite arr_app. unfold arr at 2. cbn [fmap list_fmap concat]. by rewrite app_nil_r. Qed.

Lemma length_ptrs l : length (ptrs l) = (8 * length l)%nat.
Proof. apply length_arr, length_enc_ptr. Qed.

(** One more element after an array. *)
Lemma mb_ints_snoc w b l v :
  mb w b 0 (ints l) → valid w b (4 * Z.of_nat (length l)) 4 →
  mb (upd w b (4 * Z.of_nat (length l)) (enc_i32 v)) b 0 (ints (l ++ [v])).
Proof.
  intros Hm Hv. rewrite ints_snoc, mb_app, length_ints.
  replace (0 + Z.of_nat (4 * length l)) with (4 * Z.of_nat (length l)) by lia. split.
  - apply mb_upd_disj; [rewrite length_ints; autorewrite with len; lia|done].
  - apply mb_upd_same. by autorewrite with len.
Qed.

Lemma mb_ptrs_snoc w b l v :
  mb w b 0 (ptrs l) → valid w b (8 * Z.of_nat (length l)) 8 →
  mb (upd w b (8 * Z.of_nat (length l)) (enc_ptr v)) b 0 (ptrs (l ++ [v])).
Proof.
  intros Hm Hv. rewrite ptrs_snoc, mb_app, length_ptrs.
  replace (0 + Z.of_nat (8 * length l)) with (8 * Z.of_nat (length l)) by lia. split.
  - apply mb_upd_disj; [rewrite length_ptrs; autorewrite with len; lia|done].
  - apply mb_upd_same. by autorewrite with len.
Qed.

(** ** Whole arrays *)

Lemma ld_ints_wp p w b o l (Q : list Z → world → Prop) :
  mb w b o (ints l) → Forall is_s32 l → Q l w → wp (ld_ints (Addr p b o) (length l)) p w Q.
Proof.
  revert o Q. induction l as [|v l IH]; intros o Q Hm Hl HQ; [by apply wp_ret|].
  apply Forall_cons in Hl as [Hv Hl]. cbn [ld_ints length].
  rewrite ints_arr, arr_cons, mb_app, length_enc_i32 in Hm. destruct Hm as [H1 H2].
  apply wp_bind. eapply wp_ld_i32; [exact H1|]. rewrite s32_small by done.
  apply wp_bind. apply IH; [exact H2|done|]. by apply wp_ret.
Qed.

Lemma st_ints_wp p w b o l (Q : unit → world → Prop) :
  valid w b o (4 * length l) → Q tt (upd w b o (ints l)) → wp (st_ints (Addr p b o) l) p w Q.
Proof.
  revert o w. induction l as [|v l IH]; intros o w Hv HQ.
  { apply wp_ret. by rewrite upd_nil in HQ. }
  cbn [st_ints]. apply wp_bind. cbn [length] in Hv. apply wp_store.
  { autorewrite with len. eapply valid_le; [exact Hv|lia|lia]. }
  apply IH. { apply valid_upd. eapply valid_le; [exact Hv|lia|lia]. }
  rewrite ints_arr, arr_cons in HQ. rewrite upd_app, length_enc_i32 in HQ. exact HQ.
Qed.
