(* ===== verification/Database.v ===== *)
(** * The student database: DatabaseTask and ClientTask

    [src/Tasks/DatabaseTask] keeps up to 1000 students in its struct and
    answers select, insert, delete and ping requests; [src/Tasks/ClientTask]
    sends requests of one kind and waits for each response.  They run in
    different processes.  The globals [max_request], [nb_request] and [req_type]
    that the test programs set are parameters, and [done] is the address of the
    global of that name. *)

From S2P Require Import Prelude CMem Messages CircularMsgQ System TimeHelper Tasks.
From stdpp Require Import base numbers list strings gmap.
#[local] Open Scope Z_scope.
#[local] Open Scope ts_scope.

(** [enum {REQUEST_MSG, RESPONSE_MSG};] *)
Definition REQUEST_MSG : Z := 0.
Definition RESPONSE_MSG : Z := 1.

(** [enum {SELECT_REQUEST, INSERT_REQUEST, DELETE_REQUEST, PING_REQUEST};] *)
Definition SELECT_REQUEST : Z := 0.
Definition INSERT_REQUEST : Z := 1.
Definition DELETE_REQUEST : Z := 2.
Definition PING_REQUEST : Z := 3.

(** [enum {RESPONSE_ERROR, RESPONSE_OK};] *)
Definition RESPONSE_ERROR : Z := 0.
Definition RESPONSE_OK : Z := 1.

Definition SelectInfo_struct : struct_decl := [("id", CLong)]%string.
Definition sizeof_SelectInfo := Eval vm_compute in struct_size SelectInfo_struct.
Definition SelectInfo_id := Eval vm_compute in member SelectInfo_struct "id".

Definition StudentInfo_struct : struct_decl :=
  [("id", CLong); ("name", CArr CChar 30); ("gpa", CFloat)]%string.
Definition sizeof_StudentInfo := Eval vm_compute in struct_size StudentInfo_struct.
Definition StudentInfo_id := Eval vm_compute in member StudentInfo_struct "id".
Definition StudentInfo_name := Eval vm_compute in member StudentInfo_struct "name".
Definition StudentInfo_gpa := Eval vm_compute in member StudentInfo_struct "gpa".

(** A [float] is kept as the 32 bits of its representation. *)
Definition float_0_0 : Z := 0.
Definition float_4_3 : Z := 1082759578.

(** ** DatabaseTask *)

Definition MAX_STUDENT : Z := 1000.

Definition DatabaseTask_struct : struct_decl :=
  task_members ++
  [("current_requester_task_id", CInt); ("response_code", CInt);
   ("response_data", CPtr); ("response_size", CInt); ("student_count", CInt);
   ("students", CArr (COpaque sizeof_StudentInfo 8) MAX_STUDENT)]%string.

Definition sizeof_DatabaseTask := Eval vm_compute in struct_size DatabaseTask_struct.
Definition DatabaseTask_current_requester_task_id :=
  Eval vm_compute in member DatabaseTask_struct "current_requester_task_id".
Definition DatabaseTask_response_code :=
  Eval vm_compute in member DatabaseTask_struct "response_code".
Definition DatabaseTask_response_data :=
  Eval vm_compute in member DatabaseTask_struct "response_data".
Definition DatabaseTask_response_size :=
  Eval vm_compute in member DatabaseTask_struct "response_size".
Definition DatabaseTask_student_count :=
  Eval vm_compute in member DatabaseTask_struct "student_count".
Definition DatabaseTask_students := Eval vm_compute in member DatabaseTask_struct "students".

(** [&this->students[i]]. *)
Definition student_at (this : ptr) (i : Z) : ptr :=
  padd (addr_of this DatabaseTask_students) (sizeof_StudentInfo * i).

Definition DatabaseTask_init (newRec : ptr) : M unit :=
  set_int newRec DatabaseTask_response_code RESPONSE_ERROR;;;
  set_ptr newRec DatabaseTask_response_data Null;;;
  set_int newRec DatabaseTask_response_size 0;;;
  set_int newRec DatabaseTask_student_count 0.

Definition DatabaseTask_create (Comm : ptr) : M Z :=
  Task_create Comm sizeof_DatabaseTask DatabaseTask_init "DatabaseTask.run".

Definition DatabaseTask_send (Comm this data : ptr) (target : Z) : M Z :=
  Task_send Comm this data target.

Definition DatabaseTask_message_notify (Comm this : ptr) : M unit := Task_message_notify Comm this.

Definition DatabaseTask_message_wait (Comm this : ptr) : M unit := Task_message_wait Comm this.

Definition DatabaseTask_message_immediate (Comm this : ptr) : M Z :=
  Task_message_immediate Comm this.

Definition DatabaseTask_repository_set_name (Comm this name : ptr) : M unit :=
  Task_repository_set_name Comm this name.

Definition DatabaseTask_repository_get_id (Comm this task_name : ptr) : M Z :=
  Task_repository_get_id Comm this task_name.

Definition setResponse (this : ptr) (code : Z) (data : ptr) (data_size : Z) : M unit :=
  set_int this DatabaseTask_response_code code;;;
  set_ptr this DatabaseTask_response_data data;;;
  set_int this DatabaseTask_response_size data_size.

(** The first student with that id. *)
Definition find_student (this : ptr) (id : Z) : M (option Z) :=
  student_count <- get_int this DatabaseTask_student_count;;
  for_find (Z.to_nat student_count) 0 (λ i,
    sid <- get_long (student_at this i) StudentInfo_id;;
    ret (if sid =? id then Some i else None)).

Definition handle_select (this requestMsg sel_info : ptr) : M unit :=
  data <- call_RequestMsg_getData requestMsg;;
  memcpy sel_info data sizeof_SelectInfo;;;
  id <- get_long sel_info SelectInfo_id;;
  found <- find_student this id;;
  match found with
  | Some i => setResponse this RESPONSE_OK (student_at this i) sizeof_StudentInfo
  | None => setResponse this RESPONSE_ERROR Null 0
  end.

Definition handle_insert (this requestMsg insert_info : ptr) : M unit :=
  data <- call_RequestMsg_getData requestMsg;;
  memcpy insert_info data sizeof_StudentInfo;;;
  student_count <- get_int this DatabaseTask_student_count;;
  if student_count <? MAX_STUDENT then (
    let s := student_at this student_count in
    copy_field s StudentInfo_id insert_info StudentInfo_id;;;
    strncpy (addr_of s StudentInfo_name) (addr_of insert_info StudentInfo_name) 30;;;
    copy_field s StudentInfo_gpa insert_info StudentInfo_gpa;;;
    set_int this DatabaseTask_student_count (student_count + 1);;;
    setResponse this RESPONSE_OK Null 0)
  else setResponse this RESPONSE_ERROR Null 0.

(** Copies the size of a [StudentInfo] into a [SelectInfo]. *)
Definition handle_delete (this requestMsg del_info : ptr) : M unit :=
  data <- call_RequestMsg_getData requestMsg;;
  memcpy del_info data sizeof_StudentInfo;;;
  id <- get_long del_info SelectInfo_id;;
  found <- find_student this id;;
  match found with
  | Some i =>
      let s := student_at this i in
      set_long s StudentInfo_id (-1);;;
      (empty <- str_lit "";; strncpy (addr_of s StudentInfo_name) empty 30);;;
      set_int s StudentInfo_gpa float_0_0;;;
      setResponse this RESPONSE_OK Null 0
  | None => setResponse this RESPONSE_ERROR Null 0
  end.

Definition DatabaseTask_handle_RequestMsg (this requestMsg : ptr) : M unit :=
  copy_field this DatabaseTask_current_requester_task_id
    requestMsg RequestMsg_sender_task_id;;;
  with_local sizeof_SelectInfo (λ sel_info,
  with_local sizeof_StudentInfo (λ insert_info,
  with_local sizeof_SelectInfo (λ del_info,
    request_type <- get_int requestMsg RequestMsg_request_type;;
    if request_type =? SELECT_REQUEST then handle_select this requestMsg sel_info
    else if request_type =? INSERT_REQUEST then handle_insert this requestMsg insert_info
    else if request_type =? DELETE_REQUEST then handle_delete this requestMsg del_info
    else if request_type =? PING_REQUEST then setResponse this RESPONSE_OK Null 0
    else printf "Database error, invalid request type %d" [AInt request_type]))).

(** A message with the tag [RESPONSE_MSG] is left in the queue. *)
Definition DatabaseTask_receive (fuel : nat) (Comm this : ptr) : M unit :=
  tag <- wait_tag fuel Comm this;;
  if tag =? REQUEST_MSG then
    (msg <- receive_mine Comm this;; DatabaseTask_handle_RequestMsg this msg)
  else if tag =? RESPONSE_MSG then ret tt
  else no_handler Comm this tag.

(** One turn of the loop of [start]. *)
Definition DatabaseTask_serve (fuel : nat) (Comm this : ptr) : M unit :=
  DatabaseTask_receive fuel Comm this;;;
  res <- ResponseMsg_create RESPONSE_MSG;;
  copy_field res ResponseMsg_code this DatabaseTask_response_code;;;
  response_size <- get_int this DatabaseTask_response_size;;
  (if 0 <? response_size then
     (response_data <- get_ptr this DatabaseTask_response_data;;
      call_ResponseMsg_setData res response_data response_size)
   else ret tt);;;
  requester <- get_int this DatabaseTask_current_requester_task_id;;
  DatabaseTask_send Comm this res requester;;;
  call_destroy res.

(** [fuel] bounds the turns of the loop as well as each wait for a message. *)
Definition DatabaseTask_start (fuel : nat) (max_request : Z) (done : ptr) (Comm this : ptr)
    : M unit :=
  printf "Database task has been started" [];;;
  name <- str_lit "database";;
  DatabaseTask_repository_set_name Comm this name;;;
  while_fuel fuel 0 (λ count, (count <? max_request) || (max_request =? -1)) (λ count,
    DatabaseTask_serve fuel Comm this;;; ret (count + 1));;;
  st_i32 done 1.

Definition DatabaseTask_run (fuel : nat) (max_request : Z) (done : ptr)
    (Comm DatabaseTaskRef : ptr) : M unit :=
  Task_run (DatabaseTask_start fuel max_request done Comm) DatabaseTaskRef.

(** ** ClientTask *)

Definition ClientTask_struct : struct_decl := task_members.

Definition sizeof_ClientTask := Eval vm_compute in struct_size ClientTask_struct.

Definition ClientTask_create (Comm : ptr) : M Z :=
  Task_create Comm sizeof_ClientTask no_init "ClientTask.run".

Definition ClientTask_send (Comm this data : ptr) (target : Z) : M Z :=
  Task_send Comm this data target.

Definition ClientTask_message_notify (Comm this : ptr) : M unit := Task_message_notify Comm this.

Definition ClientTask_message_wait (Comm this : ptr) : M unit := Task_message_wait Comm this.

Definition ClientTask_message_immediate (Comm this : ptr) : M Z :=
  Task_message_immediate Comm this.

Definition ClientTask_repository_set_name (Comm this name : ptr) : M unit :=
  Task_repository_set_name Comm this name.

Definition ClientTask_repository_get_id (Comm this task_name : ptr) : M Z :=
  Task_repository_get_id Comm this task_name.

(** Without [VERBOSE] the response is not looked at. *)
Definition ClientTask_handle_ResponseMsg (this responseMsg : ptr) : M unit := ret tt.

Definition ClientTask_receive (fuel : nat) (Comm this : ptr) : M unit :=
  tag <- wait_tag fuel Comm this;;
  if tag =? REQUEST_MSG then printf "SHOULD NOT RECEIVE REQUEST" []
  else if tag =? RESPONSE_MSG then
    (msg <- receive_mine Comm this;; ClientTask_handle_ResponseMsg this msg)
  else no_handler Comm this tag.

(** The [switch (req_type)]: fill the request, answer its data and size. *)
Definition ClientTask_request (req_type i : Z) (req sel_data student_data : ptr) : M (ptr * Z) :=
  if (req_type =? 1) || (req_type =? 3) then (
    set_long sel_data SelectInfo_id i;;;
    buffer <- malloc sizeof_SelectInfo;;
    set_int req RequestMsg_request_type
      (if req_type =? 1 then SELECT_REQUEST else DELETE_REQUEST);;;
    memcpy buffer sel_data sizeof_SelectInfo;;;
    ret (buffer, sizeof_SelectInfo))
  else if req_type =? 2 then (
    set_long student_data StudentInfo_id i;;;
    (lit <- str_lit "Francois Gingras";;
     strncpy (addr_of student_data StudentInfo_name) lit 30);;;
    set_int student_data StudentInfo_gpa float_4_3;;;
    buffer <- malloc sizeof_StudentInfo;;
    set_int req RequestMsg_request_type INSERT_REQUEST;;;
    memcpy buffer student_data sizeof_StudentInfo;;;
    ret (buffer, sizeof_StudentInfo))
  else if req_type =? 4 then (
    set_int req RequestMsg_request_type PING_REQUEST;;; ret (Null, 0))
  else (printf "Error in request type %d" [AInt req_type];;; exit (-1)).

(** One turn of the loop, up to the wait for the response. *)
Definition ClientTask_ask (req_type : Z) (Comm this : ptr) (database_id i : Z)
    : M unit :=
  req <- RequestMsg_create REQUEST_MSG;;
  copy_field req RequestMsg_sender_task_id this Task_taskID;;;
  b <- with_local sizeof_SelectInfo (λ sel_data,
       with_local sizeof_StudentInfo (λ student_data,
         ClientTask_request req_type i req sel_data student_data));;
  (if decide (b.1 = Null) then ret tt else call_RequestMsg_setData req b.1 b.2);;;
  ClientTask_send Comm this req database_id;;;
  (if decide (b.1 = Null) then ret tt else free b.1);;;
  call_destroy req;;;
  ClientTask_message_wait Comm this.

Definition ClientTask_start (fuel : nat) (nb_request req_type : Z) (done : ptr)
    (Comm this : ptr) : M unit :=
  printf "Client task has been started" [];;;
  name <- str_lit "database";;
  database_id <- ClientTask_repository_get_id Comm this name;;
  printf "Client acquired database id = %d" [AInt database_id];;;
  total_start <- now;;
  for_range 0 nb_request (λ i,
    ClientTask_ask req_type Comm this database_id i;;;
    ClientTask_receive fuel Comm this);;;
  total_end <- now;;
  let send_diff := diff total_start total_end in
  printf "CLIENT-SEND-TIME %lds,%ldms - Send time"
    [AInt (tv_sec send_diff); AInt (Z.quot (tv_nsec send_diff) 1000000)];;;
  st_i32 done 1.

Definition ClientTask_run (fuel : nat) (nb_request req_type : Z) (done : ptr)
    (Comm ClientTaskRef : ptr) : M unit :=
  Task_run (ClientTask_start fuel nb_request req_type done Comm) ClientTaskRef.

#[export] Hint Unfold SelectInfo_id StudentInfo_id StudentInfo_name StudentInfo_gpa
  DatabaseTask_current_requester_task_id DatabaseTask_response_code
  DatabaseTask_response_data DatabaseTask_response_size DatabaseTask_student_count
  DatabaseTask_students sizeof_SelectInfo sizeof_StudentInfo sizeof_DatabaseTask : fields.
