(* ===== verification/DatabaseSpec.v ===== *)
(** * The student database implements a bounded table with lookup

    [db_at w b sts]: the [DatabaseTask] at block [b] holds the students [sts], in
    the order they were inserted. *)

From S2P Require Import Prelude CMem CLogic Messages MessageSpec Ring CircularMsgQ CircularSpec Demo.
From S2P Require Import QueueProps System SystemSpec Repository TimeHelper Tasks Database.
From stdpp Require Import base numbers list strings gmap.
From Stdlib Require Import Lia.
#[local] Open Scope Z_scope.
#[local] Open Scope ts_scope.

(** ** More rules *)

Lemma wp_set_long p w b o f z (Q : unit → world → Prop) :
  valid w b (o + f_off f) 8 → Q tt (upd w b (o + f_off f) (enc_i64 z)) →
  wp (set_long (Addr p b o) f z) p w Q.
Proof. intros H HQ. apply wp_store; [|done]. by autorewrite with len. Qed.

Lemma wp_get_long p w b o f z (Q : Z → world → Prop) :
  mb w b (o + f_off f) (enc_i64 z) → is_s64 z → Q z w → wp (get_long (Addr p b o) f) p w Q.
Proof. apply wp_ld_i64. Qed.

(** A local variable: a new block, gone afterwards. *)
Lemma wp_with_local {A} n (k : ptr → M A) p w (Q : A → world → Prop) :
  0 <= n < 140737488355328 →
  wp (k (Addr p (w_next w) 0)) p (add_block (Blk n Undef ∅) w) (λ a w',
    (∃ kb, w_blocks w' !! w_next w = Some kb) ∧ Q a (set_blocks (delete (w_next w)) w')) →
  wp (with_local n k) p w Q.
Proof.
  intros Hn Hk. unfold with_local. apply wp_bind, wp_malloc; [done|]. apply wp_bind.
  eapply wp_mono; [exact Hk|]. cbv beta. intros a w' [[kb Hkb] HQ]. apply wp_bind.
  unfold wp at 1, free. rewrite decide_True by done. by rewrite Hkb.
Qed.

(** ** Students *)

Record student := Stu { st_id : Z; st_name : list memval; st_gpa : list memval }.

Definition student_ok (x : student) : Prop :=
  is_s64 (st_id x) ∧ Forall char_ok (st_name x) ∧ (length (st_name x) < 30)%nat ∧
  length (st_gpa x) = 4%nat.

#[export] Instance student_ok_dec x : Decision (student_ok x).
Proof. unfold student_ok. apply _. Defined.

Definition student_off (i : Z) : Z := f_off DatabaseTask_students + sizeof_StudentInfo * i.

Definition student_mem (w : world) (b o : Z) (x : student) : Prop :=
  mb w b (o + f_off StudentInfo_id) (enc_i64 (st_id x)) ∧
  mb w b (o + f_off StudentInfo_name) (padded (st_name x)) ∧
  mb w b (o + f_off StudentInfo_gpa) (st_gpa x).

Definition db_at (w : world) (b : Z) (sts : list student) : Prop :=
  valid w b 0 (Z.to_nat sizeof_DatabaseTask) ∧ Z.of_nat (length sts) <= MAX_STUDENT ∧
  mb w b (f_off DatabaseTask_student_count) (enc_i32 (Z.of_nat (length sts))) ∧
  Forall student_ok sts ∧
  ∀ i x, sts !! i = Some x → student_mem w b (student_off (Z.of_nat i)) x.

(** The response that is going to be sent. *)
Definition response_at (w : world) (b code : Z) (data : ptr) (size : Z) : Prop :=
  mb w b (f_off DatabaseTask_response_code) (enc_i32 code) ∧
  mb w b (f_off DatabaseTask_response_data) (enc_ptr data) ∧
  mb w b (f_off DatabaseTask_response_size) (enc_i32 size).

(** The bytes of a request for an insertion: a [struct StudentInfo] whose name is
    terminated; [junk] is what follows the terminator, and the padding. *)
Definition student_bytes (x : student) (junk pad : list memval) : list memval :=
  enc_i64 (st_id x) ++ (st_name x ++ [Byte 0]) ++ junk ++ st_gpa x ++ pad.

Definition bytes_ok (x : student) (junk pad : list memval) : Prop :=
  student_ok x ∧ (length (st_name x) + 1 + length junk = 32)%nat ∧ length pad = 4%nat.

Lemma length_student_bytes x junk pad : bytes_ok x junk pad → length (student_bytes x junk pad) = 48%nat.
Proof.
  intros ((_ & _ & Hn & Hg) & Hj & Hp). unfold student_bytes. autorewrite with len.
  rewrite Hg, Hp. cbn [length]. lia.
Qed.

(** Its parts. *)
Lemma student_bytes_mem w b o x junk pad :
  bytes_ok x junk pad → mb w b o (student_bytes x junk pad) →
  mb w b (o + f_off StudentInfo_id) (enc_i64 (st_id x)) ∧
  mb w b (o + f_off StudentInfo_name) (st_name x ++ [Byte 0]) ∧
  mb w b (o + f_off StudentInfo_gpa) (st_gpa x).
Proof.
  intros ((_ & _ & Hn & Hg) & Hj & Hp) Hm. unfold student_bytes in Hm.
  rewrite mb_app in Hm. destruct Hm as [H1 Hm]. rewrite mb_app in Hm. destruct Hm as [H2 Hm].
  rewrite mb_app in Hm. destruct Hm as [_ Hm]. rewrite mb_app in Hm. destruct Hm as [H3 _].
  autorewrite with len in H2, H3. cbn [length] in H3. unfold StudentInfo_id, StudentInfo_name, StudentInfo_gpa.
  cbn [f_off]. split_and!.
  - by rewrite Z.add_0_r.
  - exact H2.
  - replace (o + 40) with (o + Z.of_nat 8 + Z.of_nat (length (st_name x) + 1) + Z.of_nat (length junk)) by lia.
    exact H3.
Qed.

#[export] Hint Unfold student_off MAX_STUDENT : fields.

Lemma setResponse_wp p w b code data size (Q : unit → world → Prop) :
  valid w b 0 (Z.to_nat sizeof_DatabaseTask) →
  (∀ w', response_at w' b code data size →
     ext (λ b' i, b' = b ∧ 16 <= i < 36) w w' → Q tt w') →
  wp (setResponse (Addr p b 0) code data size) p w Q.
Proof.
  unfold sizeof_DatabaseTask. intros Hv HQ. unfold setResponse.
  apply wp_bind. eapply wp_set_int; [find_valid|].
  apply wp_bind. eapply wp_set_ptr; [find_valid|].
  eapply wp_set_int; [find_valid|]. apply HQ.
  - unfold response_at. split_and!; final_mb.
  - repeat (eapply ext_upd; [intros k i _ Hi; revert Hi; autounfold with fields; cbn [f_off]; autorewrite with len; split; [done|lia]|]). apply ext_refl.
Qed.

(** Outside of the response members the database is as before. *)
Lemma db_ext F w w' b sts :
  ext F w w' → (∀ i, F b i → i < 36) → db_at w b sts → db_at w' b sts.
Proof.
  intros He HF (Hv & Hl & Hc & Hok & Hs). split_and!; [by eapply valid_extF|done| |done|].
  - eapply mb_extF; [exact He| |exact Hc]. intros i Hi Hf. apply HF in Hf. revert Hi. off.
  - intros i x Hx. destruct (Hs i x Hx) as (H1 & H2 & H3). rewrite Forall_forall in Hok.
    destruct (Hok x) as (_ & _ & Hn & Hg); [by eapply list_elem_of_lookup_2|].
    unfold student_off in *. unfold student_mem. 
    split_and!; (eapply mb_extF; [exact He| |eassumption]; intros j Hj Hf; apply HF in Hf; revert Hj;
      unfold DatabaseTask_students, StudentInfo_id, StudentInfo_name, StudentInfo_gpa, sizeof_StudentInfo;
      cbn [f_off]; lia).
Qed.

(** ** Lookup *)

Lemma find_student_wp p w b sts id :
  db_at w b sts →
  wp (find_student (Addr p b 0) id) p w (λ r w', w' = w ∧
    match r with
    | Some i => ∃ x, 0 <= i ∧ sts !! Z.to_nat i = Some x ∧ st_id x = id ∧
                     ∀ j y, (j < Z.to_nat i)%nat → sts !! j = Some y → st_id y ≠ id
    | None => ∀ j y, sts !! j = Some y → st_id y ≠ id
    end).
Proof.
  intros (Hv & Hl & Hc & Hok & Hs). unfold MAX_STUDENT in Hl. unfold find_student.
  apply wp_bind. eapply wp_get_int; [exact Hc|]. rewrite s32_small by (unfold is_s32; lia).
  rewrite Nat2Z.id.
  apply (wp_for_find (λ i w', w' = w ∧ ∀ j y, (j < Z.to_nat i)%nat → sts !! j = Some y → st_id y ≠ id)).
  - split; [done|]. intros j y Hj. cbn in Hj. lia.
  - intros i w' Hi [-> Hj]. assert (is_Some (sts !! Z.to_nat i)) as [x Hx] by (apply lookup_lt_is_Some; lia).
    destruct (Hs _ _ Hx) as (H1 & _ & _). rewrite Z2Nat.id in H1 by lia.
    rewrite Forall_forall in Hok. destruct (Hok x) as (Hid & _); [by eapply list_elem_of_lookup_2|].
    apply wp_bind. change (student_at (Addr p b 0) i) with (Addr p b (student_off i)).
    eapply wp_get_long; [exact H1|exact Hid|]. apply wp_ret.
    destruct (Z.eqb_spec (st_id x) id) as [E|E].
    + split; [done|]. exists x. split_and!; try done; lia.
    + split; [done|]. intros j y Hji Hy. destruct (decide (j = Z.to_nat i)) as [->|]; [congruence|].
      apply (Hj j y); [lia|done].
  - intros w' [-> Hj]. split; [done|]. intros j y Hy. apply (Hj j y); [|done].
    apply lookup_lt_Some in Hy. lia.
Qed.

(** ** The requests *)

(** A request of kind [rtype] with the bytes [data] is at block [rb], offset [ro]. *)
Definition request_at (w : world) (p rb ro sender rtype : Z) (data : list memval) (d : ptr) : Prop :=
  ∃ tag sz, obj_at w p rb ro (Msg tag sz (BReq sender rtype data)) d.

Lemma getData_wp p w rb ro sender rtype data d (Q : ptr → world → Prop) :
  request_at w p rb ro sender rtype data d → Q d w →
  wp (call_RequestMsg_getData (Addr p rb ro)) p w Q.
Proof.
  intros (tag & sz & Ho) HQ. open_obj Ho. eapply wp_call_through; [eassumption|reflexivity|].
  by eapply wp_get_ptr.
Qed.

Lemma request_array w p rb ro sender rtype data d :
  request_at w p rb ro sender rtype data d → array_at w p d data.
Proof. intros (tag & sz & Ho). by open_obj Ho. Qed.

(** The new student is written after the others. *)
Lemma insert_mem w b sts x :
  db_at w b sts → student_ok x → Z.of_nat (length sts) < MAX_STUDENT →
  let s := student_off (Z.of_nat (length sts)) in
  db_at (upd (upd (upd (upd w b (s + f_off StudentInfo_id) (enc_i64 (st_id x)))
           b (s + f_off StudentInfo_name) (padded (st_name x)))
           b (s + f_off StudentInfo_gpa) (st_gpa x))
         b (f_off DatabaseTask_student_count) (enc_i32 (Z.of_nat (length sts) + 1))) b (sts ++ [x]).
Proof.
  intros (Hv & Hl & Hc & Hok & Hs) Hx Hlt s. pose proof Hx as (Hid & Hch & Hn & Hg).
  unfold MAX_STUDENT in Hlt. pose proof (length_padded _ Hn) as Hp. unfold sizeof_DatabaseTask in Hv.
  unfold s, student_off. 
  assert (valid w b (student_off (Z.of_nat (length sts))) 48) as Hvs by (eapply valid_le; [exact Hv|off|off]).
  unfold student_off in Hvs.
  split; [do 4 apply valid_upd; exact Hv|]. split; [rewrite length_app; cbn; unfold MAX_STUDENT; lia|].
  split; [rewrite length_app; cbn [length]; rewrite Nat2Z.inj_add; apply mb_upd_same; do 3 apply valid_upd;
    eapply valid_le; [exact Hv|off|off]|].
  split; [by apply Forall_app; split; [|constructor]|].
  intros i y Hy. unfold student_mem, student_off. apply lookup_app_Some in Hy as [Hy|[Hi Hy]].
  - apply lookup_lt_Some in Hy as Hlen. destruct (Hs i y Hy) as (H1 & H2 & H3).
    rewrite Forall_forall in Hok. destruct (Hok y) as (_ & _ & Hn' & Hg'); [by eapply list_elem_of_lookup_2|].
    pose proof (length_padded _ Hn') as Hp'. unfold student_off in H1, H2, H3.
    clear Hv Hvs Hc Hs Hok Hx Hid Hch Hn Hn' Hy s Hl.
    autounfold with fields in *; cbn [f_off] in *.
    split_and!; (apply mb_upd_disj; [rewrite ?Hp', ?Hg'; autorewrite with len; lia|]);
      (apply mb_upd_disj; [rewrite ?Hp', ?Hg', ?Hg; autorewrite with len; lia|]);
      (apply mb_upd_disj; [rewrite ?Hp', ?Hg', ?Hp; autorewrite with len; lia|]);
      (apply mb_upd_disj; [rewrite ?Hp', ?Hg'; autorewrite with len; lia|done]).
  - apply list_lookup_singleton_Some in Hy as [Hi0 <-]. assert (i = length sts) as -> by lia.
    split_and!.
    + do 3 (apply mb_upd_disj; [rewrite ?Hp, ?Hg; off|]). apply mb_upd_same.
      eapply valid_le; [exact Hvs|off|off].
    + do 2 (apply mb_upd_disj; [rewrite ?Hp, ?Hg; off|]). apply mb_upd_same.
      apply valid_upd. rewrite Hp. eapply valid_le; [exact Hvs|off|off].
    + apply mb_upd_disj; [rewrite ?Hp, ?Hg; off|]. apply mb_upd_same.
      do 2 apply valid_upd. rewrite Hg. eapply valid_le; [exact Hvs|off|off].
Qed.

(** What a request may change: the response and the table, and the local variables. *)
Definition db_foot (b : Z) (locals : Z → Prop) : Z → Z → Prop := λ b' i, (b' = b ∧ 16 <= i) ∨ locals b'.

(** The database has a pending response. *)
Definition db_answer (w : world) (b : Z) (sts : list student) (code : Z) (data : ptr) (size : Z) : Prop :=
  db_at w b sts ∧ response_at w b code data size.

Lemma answer_wp p w b sts code data size (Q : unit → world → Prop) :
  db_at w b sts →
  (∀ w', db_answer w' b sts code data size → ext (λ b' i, b' = b ∧ 16 <= i < 36) w w' → Q tt w') →
  wp (setResponse (Addr p b 0) code data size) p w Q.
Proof.
  intros Hdb HQ. apply setResponse_wp; [apply Hdb|]. intros w' Hr He. apply HQ; [|done].
  split; [|done]. eapply db_ext; [exact He| |exact Hdb]. intros i [_ ?]. lia.
Qed.

Lemma handle_insert_wp p w b sts rb ro sender x junk pad d li :
  db_at w b sts → bytes_ok x junk pad →
  request_at w p rb ro sender INSERT_REQUEST (student_bytes x junk pad) d →
  valid w li 0 48 → li ≠ b → arr_sep d (student_bytes x junk pad) li →
  wp (handle_insert (Addr p b 0) (Addr p rb ro) (Addr p li 0)) p w (λ _ w',
    ext (db_foot b (λ b', b' = li)) w w' ∧
    if decide (Z.of_nat (length sts) < MAX_STUDENT)
    then db_answer w' b (sts ++ [x]) RESPONSE_OK Null 0
    else db_answer w' b sts RESPONSE_ERROR Null 0).
Proof.
  intros Hdb Hx Hr Hvl Hne Hsep. pose proof (length_student_bytes _ _ _ Hx) as Hlen.
  unfold handle_insert. apply wp_bind. eapply getData_wp; [exact Hr|]. cbv beta.
  apply wp_bind. eapply wp_memcpy_array;
    [by eapply request_array | by rewrite Hlen | by rewrite Hlen | done|].
  set (w1 := upd w li 0 (student_bytes x junk pad)).
  assert (ext (db_foot b (λ b', b' = li)) w w1) as He1 by (eapply ext_upd; [|apply ext_refl]; by right).
  assert (db_at w1 b sts) as Hdb1.
  { eapply db_ext; [eapply (ext_upd (λ b' _, b' = li)); [|apply ext_refl]; done| |exact Hdb]. by intros i ->. }
  assert (mb w1 li 0 (student_bytes x junk pad)) as Hm1 by (apply mb_upd_same; by rewrite Hlen).
  clearbody w1. destruct (student_bytes_mem _ _ _ _ _ _ Hx Hm1) as (Hid & Hnm & Hgpa).
  pose proof Hx as (Hok & _). pose proof Hok as (_ & Hch & Hnl & Hg).
  pose proof Hdb1 as (Hv & Hl & Hc & _). unfold MAX_STUDENT in Hl.
  apply wp_bind. eapply wp_get_int; [exact Hc|]. rewrite s32_small by (unfold is_s32; lia).
  destruct (decide (Z.of_nat (length sts) < MAX_STUDENT)) as [Hlt|Hge].
  2:{ destruct (Z.ltb_spec (Z.of_nat (length sts)) MAX_STUDENT); [done|].
      apply (answer_wp _ _ _ sts); [done|]. intros w' Ha He. split; [|done].
      eapply ext_trans; [exact He1|]. eapply ext_weaken; [|exact He]. intros ? ? ? _ [-> ?]. left. lia. }
  destruct (Z.ltb_spec (Z.of_nat (length sts)) MAX_STUDENT); [|lia]. cbv zeta.
  change (student_at (Addr p b 0) (Z.of_nat (length sts))) with (Addr p b (student_off (Z.of_nat (length sts)))).
  assert (valid w1 b (student_off (Z.of_nat (length sts))) 48) as Hvs.
  { unfold MAX_STUDENT in Hlt. unfold sizeof_DatabaseTask in Hv. eapply valid_le; [exact Hv|off|off]. }
  set (s := student_off (Z.of_nat (length sts))) in *.
  apply wp_bind. eapply wp_copy_field; [exact Hid|by autorewrite with len| |].
  { eapply valid_le; [exact Hvs|off|off]. }
  apply wp_bind. eapply wp_strncpy_30; [apply mb_upd_block; [done|exact Hnm]|done|done| |].
  { apply valid_upd. eapply valid_le; [exact Hvs|off|off]. }
  apply wp_bind. eapply wp_copy_field;
    [apply mb_upd_block; [done|]; apply mb_upd_block; [done|exact Hgpa] | by rewrite Hg | |].
  { do 2 apply valid_upd. eapply valid_le; [exact Hvs|off|rewrite Hg; off]. }
  apply wp_bind. eapply wp_set_int.
  { do 3 apply valid_upd. unfold sizeof_DatabaseTask in Hv. eapply valid_le; [exact Hv|off|off]. }
  rewrite Z.add_0_l. eapply (answer_wp _ _ _ (sts ++ [x])); [by apply insert_mem|].
  intros w' Ha He. split; [|done]. eapply ext_trans; [exact He1|].
  eapply ext_trans; [|eapply ext_weaken; [|exact He]; intros ? ? ? _ [-> ?]; left; lia].
  repeat (eapply ext_upd; [intros ? ? _ Hi; left; split; [done|]; revert Hi; unfold s; off|]). apply ext_refl.
Qed.

(** The bytes of a selection: the id looked for, then what the sender added. *)
Lemma handle_select_wp p w b sts rb ro sender id rest d li :
  db_at w b sts → is_s64 id → Z.of_nat (length (enc_i64 id ++ rest)) < 2147483648 →
  request_at w p rb ro sender SELECT_REQUEST (enc_i64 id ++ rest) d →
  valid w li 0 8 → li ≠ b → ptr_block d ≠ Some li →
  wp (handle_select (Addr p b 0) (Addr p rb ro) (Addr p li 0)) p w (λ _ w',
    ext (db_foot b (λ b', b' = li)) w w' ∧
    ((∃ i x, sts !! i = Some x ∧ st_id x = id ∧ (∀ j y, (j < i)%nat → sts !! j = Some y → st_id y ≠ id) ∧
        db_answer w' b sts RESPONSE_OK (Addr p b (student_off (Z.of_nat i))) sizeof_StudentInfo) ∨
     (∀ j y, sts !! j = Some y → st_id y ≠ id) ∧ db_answer w' b sts RESPONSE_ERROR Null 0)).
Proof.
  intros Hdb Hid _ Hr Hvl Hne Hsep.
  unfold handle_select. apply wp_bind. eapply getData_wp; [exact Hr|]. cbv beta.
  destruct (request_array _ _ _ _ _ _ _ _ Hr) as [E|(bd & od & -> & Hm)].
  { apply (f_equal length) in E. revert E. autorewrite with len. cbn [length]. lia. }
  apply mb_app in Hm as [Hm _].
  apply wp_bind. eapply wp_memcpy; [exact Hm|done|by autorewrite with len|by intros ->|].
  set (w1 := upd w li 0 (enc_i64 id)).
  assert (ext (db_foot b (λ b', b' = li)) w w1) as He1 by (eapply ext_upd; [|apply ext_refl]; by right).
  assert (db_at w1 b sts) as Hdb1.
  { eapply db_ext; [eapply (ext_upd (λ b' _, b' = li)); [|apply ext_refl]; done| |exact Hdb]. by intros i ->. }
  apply wp_bind. eapply wp_get_long; [apply mb_upd_same; by autorewrite with len|exact Hid|]. fold w1.
  assert (∀ w', ext (λ b' i, b' = b ∧ 16 <= i < 36) w1 w' → ext (db_foot b (λ b', b' = li)) w w') as Hext.
  { intros w' He. eapply ext_trans; [exact He1|]. eapply ext_weaken; [|exact He]. intros ? ? ? _ [-> ?]. left. lia. }
  apply wp_bind. eapply wp_mono; [by apply find_student_wp|]. cbv beta. intros [i|] w2 (-> & Hf).
  - destruct Hf as (x & H0 & Hx & Hxid & Hmin).
    change (student_at (Addr p b 0) i) with (Addr p b (student_off i)).
    apply (answer_wp _ _ _ sts); [done|]. intros w' Ha He. split; [by apply Hext|]. left.
    exists (Z.to_nat i), x. rewrite Z2Nat.id by done. done.
  - apply (answer_wp _ _ _ sts); [done|]. intros w' Ha He. split; [by apply Hext|]. by right.
Qed.

(** ** A whole request *)

Lemma request_ext F w w' p rb ro sender rtype data d :
  Z.of_nat (length data) < 2147483648 → ext F w w' → (∀ i, ¬ F rb i) →
  (data = [] ∨ ∀ b' i, ptr_block d = Some b' → ¬ F b' i) →
  request_at w p rb ro sender rtype data d → request_at w' p rb ro sender rtype data d.
Proof.
  intros Hl He Hrb Hd (tag & sz & Ho). exists tag, sz. eapply obj_extF; [exact Hl|exact He|exact Hrb| |exact Ho].
  exact Hd.
Qed.

Lemma request_fresh w p rb ro sender rtype data d :
  wok w → request_at w p rb ro sender rtype data d →
  rb < w_next w ∧ (data = [] ∨ ∀ b', ptr_block d = Some b' → b' < w_next w).
Proof.
  intros Hok Hr. pose proof (request_array _ _ _ _ _ _ _ _ Hr) as Ha. destruct Hr as (tag & sz & Hv & _).
  split; [by eapply valid_fresh|]. destruct Ha as [->|(bd & od & -> & Hm)]; [by left|right].
  intros b' [= <-]. by eapply mb_fresh.
Qed.

(** The [switch] on the kind of the request, with the local variables. *)
Definition dispatch (this requestMsg sel_info insert_info del_info : ptr) : M unit :=
  request_type <- get_int requestMsg RequestMsg_request_type;;
  if request_type =? SELECT_REQUEST then handle_select this requestMsg sel_info
  else if request_type =? INSERT_REQUEST then handle_insert this requestMsg insert_info
  else if request_type =? DELETE_REQUEST then handle_delete this requestMsg del_info
  else if request_type =? PING_REQUEST then setResponse this RESPONSE_OK Null 0
  else printf "Database error, invalid request type %d" [AInt request_type].

Definition locals_of (b l1 l2 l3 : Z) : Z → Z → Prop :=
  λ b' i, (b' = b ∧ 16 <= i) ∨ b' = l1 ∨ b' = l2 ∨ b' = l3.

(** The task that the response goes to. *)
Definition requester_at (w : world) (b sender : Z) : Prop :=
  mb w b (f_off DatabaseTask_current_requester_task_id) (enc_i32 sender).

(** All of the struct but the members that every task has. *)
Definition db_range (b : Z) : Z → Z → Prop := λ b' i, b' = b ∧ 12 <= i.

(** Three local variables: new blocks [l], [l + 1], [l + 2], gone afterwards. *)
Lemma wp_three_locals {A} n1 n2 n3 (k : ptr → ptr → ptr → M A) p w (F : Z → Z → Prop) (P : world → Prop) :
  0 <= n1 < 140737488355328 → 0 <= n2 < 140737488355328 → 0 <= n3 < 140737488355328 → wok w →
  (∀ w' nb, w_next w <= nb → P w' → P (set_blocks (delete nb) w')) →
  (∀ wd l, ext nowhere w wd → w_next w <= l →
     valid wd l 0 (Z.to_nat n1) → valid wd (l + 1) 0 (Z.to_nat n2) → valid wd (l + 2) 0 (Z.to_nat n3) →
     wp (k (Addr p l 0) (Addr p (l + 1) 0) (Addr p (l + 2) 0)) p wd (λ _ w',
       ext (λ b i, F b i ∨ w_next w <= b) wd w' ∧ P w')) →
  wp (with_local n1 (λ a, with_local n2 (λ b, with_local n3 (λ c, k a b c)))) p w
    (λ _ w', P w' ∧ ext F w w').
Proof.
  intros H1 H2 H3 Hok HP Hk.
  apply wp_with_local; [done|]. apply wp_with_local; [done|]. apply wp_with_local; [done|].
  rewrite !add_block_next. set (l := w_next w). set (wd := add_block _ (add_block _ (add_block _ w))).
  replace (l + 1 + 1) with (l + 2) by lia.
  assert (ext nowhere w wd) as Hed by (unfold wd; repeat (apply ext_add_block; [done|]); apply ext_refl).
  assert (valid wd l 0 (Z.to_nat n1)) as Hv1.
  { unfold wd. do 2 (apply valid_add_block; [nxt; lia|]). apply add_block_valid_eq; [done|split; cbn; lia]. }
  assert (valid wd (l + 1) 0 (Z.to_nat n2)) as Hv2.
  { unfold wd. apply valid_add_block; [nxt; lia|]. apply add_block_valid_eq; [done|split; cbn; lia]. }
  assert (valid wd (l + 2) 0 (Z.to_nat n3)) as Hv3.
  { unfold wd. apply add_block_valid_eq; [nxt; lia|split; cbn; lia]. }
  eapply wp_mono; [apply (Hk wd l); try done; lia|]. cbv beta. intros a w' [He HP'].
  destruct (valid_block _ _ _ _ (valid_extF _ _ _ _ _ _ He Hv1)) as [k1 Hk1].
  destruct (valid_block _ _ _ _ (valid_extF _ _ _ _ _ _ He Hv2)) as [k2 Hk2].
  destruct (valid_block _ _ _ _ (valid_extF _ _ _ _ _ _ He Hv3)) as [k3 Hk3].
  split; [by eexists|]. split; [exists k2; cbn; rewrite lookup_delete_ne by lia; done|].
  split; [exists k1; cbn; rewrite !lookup_delete_ne by lia; done|]. split.
  - repeat (apply HP; [lia|]). done.
  - repeat (apply ext_free; [lia|done|]).
    eapply ext_trans_old; [|eapply ext_weaken; [|exact Hed]; by intros ? ? ? _ []|exact He].
    intros b kb i Hkb [?|Hb]; [done|]. by rewrite Hok in Hkb.
Qed.

(** What the dispatch does in a state with the three local variables is what the
    request does. *)
Lemma handle_request_wp p w b sts rb ro sender rtype data d (P : world → Prop) :
  wok w → db_at w b sts → request_at w p rb ro sender rtype data d → rb ≠ b → arr_sep d data b →
  Z.of_nat (length data) < 2147483648 →
  (∀ w' nb, nb ≠ b → P w' → P (set_blocks (delete nb) w')) →
  (∀ w1 l1 l2 l3, db_at w1 b sts → request_at w1 p rb ro sender rtype data d →
     valid w1 l1 0 8 → valid w1 l2 0 48 → valid w1 l3 0 8 →
     l1 ≠ b → l2 ≠ b → arr_sep d data l1 → arr_sep d data l2 →
     wp (dispatch (Addr p b 0) (Addr p rb ro) (Addr p l1 0) (Addr p l2 0) (Addr p l3 0)) p w1
       (λ _ w', ext (locals_of b l1 l2 l3) w1 w' ∧ P w')) →
  wp (DatabaseTask_handle_RequestMsg (Addr p b 0) (Addr p rb ro)) p w
    (λ _ w', P w' ∧ requester_at w' b sender ∧ ext (db_range b) w w').
Proof.
  intros Hok Hdb Hr Hne Hsep Hlen HP Hbody. unfold DatabaseTask_handle_RequestMsg.
  destruct (request_fresh _ _ _ _ _ _ _ _ Hok Hr) as [Hrb Hdf].
  assert (b < w_next w) as Hbf by (eapply valid_fresh; [exact Hok|apply Hdb]).
  assert (valid w b (0 + f_off DatabaseTask_current_requester_task_id) 4) as Hv4.
  { destruct Hdb as (Hv & _). unfold sizeof_DatabaseTask in Hv. eapply valid_le; [exact Hv|off|off]. }
  pose proof Hr as (tag & sz & Ho). open_obj Ho.
  apply wp_bind. eapply wp_copy_field; [eassumption|by autorewrite with len|by autorewrite with len|].
  set (wa := upd w b _ _). assert (ext (λ b' i, b' = b ∧ 12 <= i < 16) w wa) as Hea.
  { eapply ext_upd; [|apply ext_refl]. intros k i _ Hi. autorewrite with len in Hi. revert Hi. off. }
  assert (requester_at wa b sender) as Hreq by (apply mb_upd_same; by autorewrite with len).
  pose proof (ext_next _ _ _ Hea) as Hna. pose proof (ext_wok _ _ _ Hea Hok) as Hoka. clearbody wa.
  eapply wp_mono; [apply (wp_three_locals _ _ _ (dispatch (Addr p b 0) (Addr p rb ro)) _ _ (λ b' i, b' = b ∧ 16 <= i) P)|];
    try (unfold sizeof_SelectInfo, sizeof_StudentInfo; lia); [done|intros w' nb Hnb; apply HP; lia| |].
  2:{ cbv beta. intros u w' [HP' He]. split; [done|]. split.
      - eapply mb_extF; [exact He| |exact Hreq]. intros i Hi [_ ?]. autorewrite with len in Hi. revert Hi. off.
      - eapply ext_trans; (eapply ext_weaken; [|eassumption]); intros ? ? ? _ [-> ?]; split; lia. }
  intros wd l Hed Hl Hv1 Hv2 Hv3.
  assert (ext (λ b' i, b' = b ∧ 12 <= i < 16) w wd) as Hwd.
  { eapply ext_trans; [exact Hea|]. by eapply ext_weaken; [|exact Hed]. }
  assert (∀ l', l <= l' → arr_sep d data l') as Hfar.
  { intros l' Hl'. destruct Hdf as [?|Hdf]; [by left|right]. intros E. apply Hdf in E. lia. }
  eapply wp_mono; [apply (Hbody wd l (l + 1) (l + 2));
    [| |exact Hv1|exact Hv2|exact Hv3|lia|lia|apply Hfar; lia|apply Hfar; lia]|].
  - eapply db_ext; [exact Hwd| |exact Hdb]. intros i [_ ?]. lia.
  - eapply request_ext; [exact Hlen|exact Hwd|by intros i [? _]| |exact Hr].
    destruct Hsep as [?|Hsep]; [by left|right]. intros b' i Hb' [-> _]. congruence.
  - cbv beta. intros u w' [He HP']. split; [|done]. eapply ext_weaken; [|exact He].
    unfold locals_of. intros ? ? ? _ [?|[->|[->| ->]]]; [by left|right; lia..].
Qed.
