(* ===== verification/DatabaseProps.v ===== *)
(** * Properties of the student database *)

From S2P Require Import Prelude CMem CLogic Messages MessageSpec Ring CircularMsgQ CircularSpec Demo.
From S2P Require Import QueueProps System SystemSpec Repository TimeHelper Tasks Database DatabaseSpec.
From stdpp Require Import base numbers list strings gmap.
From Stdlib Require Import Lia.
#[local] Open Scope Z_scope.
#[local] Open Scope ts_scope.

Lemma db_answer_free w nb b sts code data size :
  nb ≠ b → db_answer w b sts code data size → db_answer (set_blocks (delete nb) w) b sts code data size.
Proof.
  intros Hne ((Hv & Hl & Hc & Hok & Hs) & H1 & H2 & H3).
  assert (b ≠ nb) as Hne' by done. split.
  - split_and!; [by apply valid_free|done|by apply mb_free|done|].
    intros i x Hx. destruct (Hs i x Hx) as (? & ? & ?). unfold student_mem. split_and!; by apply mb_free.
  - unfold response_at. split_and!; by apply mb_free.
Qed.

Lemma dispatch_wp p w b rb ro sender rtype data d sel ins del (Q : unit → world → Prop) :
  request_at w p rb ro sender rtype data d → is_s32 rtype →
  wp (if rtype =? SELECT_REQUEST then handle_select (Addr p b 0) (Addr p rb ro) sel
      else if rtype =? INSERT_REQUEST then handle_insert (Addr p b 0) (Addr p rb ro) ins
      else if rtype =? DELETE_REQUEST then handle_delete (Addr p b 0) (Addr p rb ro) del
      else if rtype =? PING_REQUEST then setResponse (Addr p b 0) RESPONSE_OK Null 0
      else printf "Database error, invalid request type %d" [AInt rtype]) p w Q →
  wp (dispatch (Addr p b 0) (Addr p rb ro) sel ins del) p w Q.
Proof.
  intros (tag & sz & Ho) Hs HQ. open_obj Ho. unfold dispatch. apply wp_bind.
  eapply wp_get_int; [eassumption|]. by rewrite s32_small.
Qed.

(** An insertion: the student is last, or the table was full. *)
Lemma insert_wp p w b sts rb ro sender x junk pad d :
  wok w → db_at w b sts → bytes_ok x junk pad →
  request_at w p rb ro sender INSERT_REQUEST (student_bytes x junk pad) d →
  rb ≠ b → ptr_block d ≠ Some b →
  wp (DatabaseTask_handle_RequestMsg (Addr p b 0) (Addr p rb ro)) p w (λ _ w',
    (if decide (Z.of_nat (length sts) < MAX_STUDENT)
     then db_answer w' b (sts ++ [x]) RESPONSE_OK Null 0
     else db_answer w' b sts RESPONSE_ERROR Null 0) ∧ requester_at w' b sender ∧ ext (db_range b) w w').
Proof.
  intros Hok Hdb Hx Hr Hne Hd. pose proof (length_student_bytes _ _ _ Hx) as Hlen.
  apply (handle_request_wp _ _ _ sts _ _ sender INSERT_REQUEST (student_bytes x junk pad) d);
    [done|done|done|done|by right|by rewrite Hlen| |].
  - intros w' nb Hnb. case_decide; by apply db_answer_free.
  - intros w1 l1 l2 l3 Hdb1 Hr1 _ Hv2 _ _ Hl2 _ Hsep. apply (dispatch_wp _ _ _ _ _ _ _ _ _ _ _ _ _ Hr1); [done|].
    cbn [Z.eqb INSERT_REQUEST SELECT_REQUEST Pos.eqb].
    eapply wp_mono; [by eapply handle_insert_wp|]. cbv beta. intros u w' [He Ha]. split; [|done].
    eapply ext_weaken; [|exact He]. unfold db_foot, locals_of. tauto.
Qed.

Lemma select_wp p w b sts rb ro sender id rest d :
  wok w → db_at w b sts → is_s64 id → Z.of_nat (length (enc_i64 id ++ rest)) < 2147483648 →
  request_at w p rb ro sender SELECT_REQUEST (enc_i64 id ++ rest) d →
  rb ≠ b → ptr_block d ≠ Some b →
  wp (DatabaseTask_handle_RequestMsg (Addr p b 0) (Addr p rb ro)) p w (λ _ w',
    ((∃ i x, sts !! i = Some x ∧ st_id x = id ∧ (∀ j y, (j < i)%nat → sts !! j = Some y → st_id y ≠ id) ∧
        db_answer w' b sts RESPONSE_OK (Addr p b (student_off (Z.of_nat i))) sizeof_StudentInfo) ∨
     (∀ j y, sts !! j = Some y → st_id y ≠ id) ∧ db_answer w' b sts RESPONSE_ERROR Null 0) ∧
    requester_at w' b sender ∧ ext (db_range b) w w').
Proof.
  intros Hok Hdb Hid Hlen Hr Hne Hd.
  apply (handle_request_wp _ _ _ sts _ _ sender SELECT_REQUEST (enc_i64 id ++ rest) d);
    [done|done|done|done|by right|done| |].
  - intros w' nb Hnb [(i & x & ? & ? & ? & Ha)|[? Ha]]; apply (db_answer_free _ nb) in Ha; eauto 10; lia.
  - intros w1 l1 l2 l3 Hdb1 Hr1 Hv1 _ _ Hl1 _ Hsep _. apply (dispatch_wp _ _ _ _ _ _ _ _ _ _ _ _ _ Hr1); [done|].
    cbn [Z.eqb SELECT_REQUEST].
    assert (ptr_block d ≠ Some l1) as Hd1.
    { destruct Hsep as [E|]; [|done]. apply (f_equal length) in E. revert E. autorewrite with len. cbn. lia. }
    eapply wp_mono; [by eapply handle_select_wp|]. cbv beta. intros u w' [He Ha]. split; [|done].
    eapply ext_weaken; [|exact He]. unfold db_foot, locals_of. tauto.
Qed.

(** C39. What is inserted is found: after an insertion request that finds room, for
    an id that is not in the table, a selection of that id (from any sender)
    answers [RESPONSE_OK] with the address of a record that holds the id, the
    name and the grade of the request, and the other students are as before. *)
Theorem insert_select p w b sts rb ro sender x junk pad d rb' ro' sender' rest d' :
  wok w → db_at w b sts → Z.of_nat (length sts) < MAX_STUDENT →
  (∀ y, y ∈ sts → st_id y ≠ st_id x) → bytes_ok x junk pad →
  request_at w p rb ro sender INSERT_REQUEST (student_bytes x junk pad) d →
  rb ≠ b → ptr_block d ≠ Some b →
  Z.of_nat (length (enc_i64 (st_id x) ++ rest)) < 2147483648 →
  request_at w p rb' ro' sender' SELECT_REQUEST (enc_i64 (st_id x) ++ rest) d' →
  rb' ≠ b → ptr_block d' ≠ Some b →
  ∃ w', (DatabaseTask_handle_RequestMsg (Addr p b 0) (Addr p rb ro);;;
         DatabaseTask_handle_RequestMsg (Addr p b 0) (Addr p rb' ro')) p w = Ok tt w' ∧
    let o := student_off (Z.of_nat (length sts)) in
    db_at w' b (sts ++ [x]) ∧ response_at w' b RESPONSE_OK (Addr p b o) sizeof_StudentInfo ∧
    student_mem w' b o x.
Proof.
  intros Hok Hdb Hlt Hnew Hx Hr Hne Hd Hlen Hr' Hne' Hd'.
  enough (wp (DatabaseTask_handle_RequestMsg (Addr p b 0) (Addr p rb ro);;;
    DatabaseTask_handle_RequestMsg (Addr p b 0) (Addr p rb' ro')) p w (λ _ w',
    db_answer w' b (sts ++ [x]) RESPONSE_OK (Addr p b (student_off (Z.of_nat (length sts)))) sizeof_StudentInfo))
    as ([] & w' & E & Hdb' & Hrs)%wp_run.
  { exists w'. split; [done|]. split_and!; [done|done|]. destruct Hdb' as (_ & _ & _ & _ & Hs).
    apply Hs. by rewrite lookup_app_r, Nat.sub_diag by done. }
  apply wp_bind. eapply wp_mono; [by eapply insert_wp|]. cbv beta. intros _ w1 (Ha & _ & He).
  rewrite decide_True in Ha by done. destruct Ha as [Hdb1 _].
  assert (request_at w1 p rb' ro' sender' SELECT_REQUEST (enc_i64 (st_id x) ++ rest) d') as Hr1.
  { eapply request_ext; [done|exact He|by intros i [? _]| |exact Hr']. right. intros b' i Hb' [-> _]. congruence. }
  assert (is_s64 (st_id x)) as Hid by apply Hx.
  eapply wp_mono; [eapply select_wp; [by eapply ext_wok|exact Hdb1|exact Hid|exact Hlen|exact Hr1|done|done]|].
  cbv beta. intros _ w2 [[(i & y & Hy & Hyx & Hmin & Ha)|[Hno _]] _].
  - assert (i = length sts) as ->; [|done].
    apply lookup_app_Some in Hy as [Hy|[Hi Hy]].
    + destruct (Hnew y); [by eapply list_elem_of_lookup_2|done].
    + apply list_lookup_singleton_Some in Hy as [? _]. lia.
  - destruct (Hno (length sts) x); [|done]. by rewrite lookup_app_r, Nat.sub_diag by done.
Qed.

(** The table is bounded: with 1000 students an insertion answers
    [RESPONSE_ERROR] and the students are as before. *)
Theorem insert_full p w b sts rb ro sender x junk pad d :
  wok w → db_at w b sts → Z.of_nat (length sts) = MAX_STUDENT → bytes_ok x junk pad →
  request_at w p rb ro sender INSERT_REQUEST (student_bytes x junk pad) d →
  rb ≠ b → ptr_block d ≠ Some b →
  ∃ w', DatabaseTask_handle_RequestMsg (Addr p b 0) (Addr p rb ro) p w = Ok tt w' ∧
    db_at w' b sts ∧ response_at w' b RESPONSE_ERROR Null 0.
Proof.
  intros Hok Hdb Hl Hx Hr Hne Hd.
  destruct (wp_run _ _ _ _ (insert_wp _ _ _ _ _ _ _ _ _ _ _ Hok Hdb Hx Hr Hne Hd)) as ([] & w' & E & Ha & _).
  rewrite decide_False in Ha by lia. destruct Ha. by exists w'.
Qed.

(** ** Deletions *)

(** A computation that ends in undefined behaviour. *)
Lemma bind_fault {A B} (c : M A) (k : A → M B) p w : c p w = Fault → (x <- c;; k x) p w = Fault.
Proof. unfold bind. by intros ->. Qed.

Lemma bind_then_fault {A B} (c : M A) (k : A → M B) p w :
  wp c p w (λ a w', k a p w' = Fault) → (x <- c;; k x) p w = Fault.
Proof. unfold wp, bind. by destruct (c p w). Qed.

Lemma store_too_big p w b l k :
  w_blocks w !! b = Some k → bsize k < Z.of_nat (length l) → store (Addr p b 0) l p w = Fault.
Proof.
  intros Hb Hn. unfold store. rewrite decide_True, Hb by done.
  rewrite decide_False; [done|]. unfold in_block. lia.
Qed.

Lemma load_cases q n p w : load q n p w = Fault ∨ ∃ l, load q n p w = Ok l w ∧ length l = n.
Proof.
  unfold load. repeat case_match; try (by left). right. eexists. split; [done|]. apply length_rd.
Qed.

Lemma memcpy_too_big p w b src n k :
  0 < n → w_blocks w !! b = Some k → bsize k < n → memcpy (Addr p b 0) src n p w = Fault.
Proof.
  intros H0 Hb Hn. unfold memcpy. rewrite (proj2 (Z.eqb_neq _ _)) by lia.
  rewrite (proj2 (Z.ltb_ge _ _)) by lia. destruct (overlap _ _ _); [done|].
  destruct (load_cases src (Z.to_nat n) p w) as [E|(l & E & Hl)]; [by apply bind_fault|].
  unfold bind at 1. rewrite E. apply bind_fault. eapply store_too_big; [exact Hb|]. rewrite Hl. lia.
Qed.

Lemma with_local_fault {A} n (k : ptr → M A) p w :
  0 <= n < 140737488355328 → k (Addr p (w_next w) 0) p (add_block (Blk n Undef ∅) w) = Fault →
  with_local n k p w = Fault.
Proof.
  intros Hn Hk. unfold with_local. apply bind_then_fault, wp_malloc; [done|]. by apply bind_fault.
Qed.

(** A deletion never gets as far as looking for the student: whatever the
    table holds, [memcpy] copies the size of a [StudentInfo] into the local
    variable [del_info], which is a [SelectInfo]. *)
Theorem delete_overflows p w b sts rb ro sender data d :
  wok w → db_at w b sts → request_at w p rb ro sender DELETE_REQUEST data d →
  Z.of_nat (length data) < 2147483648 → rb ≠ b → arr_sep d data b →
  DatabaseTask_handle_RequestMsg (Addr p b 0) (Addr p rb ro) p w = Fault.
Proof.
  intros Hok (Hv & _) Hr Hlen Hne Hsep. unfold DatabaseTask_handle_RequestMsg. unfold sizeof_DatabaseTask in Hv.
  pose proof Hr as (tag & sz & Ho). open_obj Ho.
  apply bind_then_fault. eapply wp_copy_field; [eassumption|by autorewrite with len| |].
  { autorewrite with len. eapply valid_le; [exact Hv|off|off]. }
  set (wa := upd w b _ _). assert (ext (λ b' _, b' = b) w wa) as Hea.
  { eapply ext_upd; [|apply ext_refl]. done. }
  clearbody wa. pose proof (ext_wok _ _ _ Hea Hok) as Hoka.
  do 3 (apply with_local_fault; [unfold sizeof_SelectInfo, sizeof_StudentInfo; lia|]).
  rewrite !add_block_next. set (wd := add_block _ (add_block _ (add_block _ wa))).
  assert (ext (λ b' _, b' = b) wa wd) as Hed by (unfold wd; repeat (apply ext_add_block; [done|]); apply ext_refl).
  assert (request_at wd p rb ro sender DELETE_REQUEST data d) as Hrd.
  { eapply request_ext; [exact Hlen|eapply ext_trans; [exact Hea|exact Hed]|by intros i| |exact Hr].
    destruct Hsep as [?|Hsep]; [by left|right]. intros b' i Hb' ->. congruence. }
  assert (w_blocks wd !! (w_next wa + 1 + 1) = Some (Blk sizeof_SelectInfo Undef ∅)) as Hk.
  { unfold wd, add_block at 1. cbn [w_blocks]. by rewrite !add_block_next, lookup_insert_eq. }
  clearbody wd. pose proof Hrd as (tag' & sz' & Ho'). open_obj Ho'.
  apply bind_then_fault. eapply wp_get_int; [eassumption|]. rewrite s32_small by (unfold is_s32, DELETE_REQUEST; lia).
  cbn [Z.eqb DELETE_REQUEST SELECT_REQUEST INSERT_REQUEST Pos.eqb]. unfold handle_delete.
  apply bind_then_fault. eapply getData_wp; [exact Hrd|]. cbv beta.
  apply bind_fault. eapply memcpy_too_big; [done|exact Hk|]. done.
Qed.

(** ** Concrete states *)

Definition demo_student : student := Stu 7 (chars "Ann") (enc_i32 float_4_3).
Definition demo_student_bytes : list memval :=
  student_bytes demo_student (replicate 28 (Byte 0)) (replicate 4 (Byte 0)).

(** A request of task 5 as its message object. *)
Definition demo_request (rtype : Z) (bytes : list memval) : M ptr :=
  req <- RequestMsg_create REQUEST_MSG;;
  set_int req RequestMsg_sender_task_id 5;;;
  set_int req RequestMsg_request_type rtype;;;
  buffer <- malloc (Z.of_nat (length bytes));;
  store buffer bytes;;;
  call_RequestMsg_setData req buffer (Z.of_nat (length bytes));;;
  ret req.

Definition demo_requests : M unit :=
  demo_request INSERT_REQUEST demo_student_bytes;;;
  demo_request SELECT_REQUEST (enc_i64 7);;;
  demo_request DELETE_REQUEST (enc_i64 7);;;
  ret tt.

(** An empty table in block 1 and three requests in blocks 2, 5 and 8. *)
Definition demo_db : world := Eval vm_compute in
  state_of (t <- malloc sizeof_DatabaseTask;; DatabaseTask_init t;;; demo_requests) 1
    (world_init 0 [] []).

Lemma demo_db_wok : wok demo_db.
Proof. apply wokb_spec. vm_compute. reflexivity. Qed.

Lemma demo_db_at : db_at demo_db 1 [].
Proof. split; [by_eval|]. split; [by_eval|]. split; [by_eval|]. by split; [constructor|]. Qed.

Lemma demo_bytes_ok : bytes_ok demo_student (replicate 28 (Byte 0)) (replicate 4 (Byte 0)).
Proof. unfold bytes_ok. by_eval. Qed.

Lemma demo_request_at b d rtype bytes :
  obj_at demo_db 1 b 0 (Msg REQUEST_MSG (sizeof_RequestMsg + Z.of_nat (length bytes)) (BReq 5 rtype bytes)) d →
  request_at demo_db 1 b 0 5 rtype bytes d.
Proof. intros H. by exists REQUEST_MSG, (sizeof_RequestMsg + Z.of_nat (length bytes)). Qed.

Lemma insert_select_witness :
  ∃ w', (DatabaseTask_handle_RequestMsg (Addr 1 1 0) (Addr 1 2 0);;;
         DatabaseTask_handle_RequestMsg (Addr 1 1 0) (Addr 1 5 0)) 1 demo_db = Ok tt w' ∧
    db_at w' 1 [demo_student] ∧ response_at w' 1 RESPONSE_OK (Addr 1 1 40) sizeof_StudentInfo ∧
    student_mem w' 1 40 demo_student.
Proof.
  apply (insert_select 1 demo_db 1 [] 2 0 5 demo_student (replicate 28 (Byte 0)) (replicate 4 (Byte 0)) (Addr 1 4 0)
           5 0 5 [] (Addr 1 7 0)).
  - exact demo_db_wok.
  - exact demo_db_at.
  - done.
  - intros y Hy. by apply elem_of_nil in Hy.
  - exact demo_bytes_ok.
  - apply demo_request_at. by_eval.
  - done.
  - done.
  - done.
  - apply demo_request_at. by_eval.
  - done.
  - done.
Defined.

Lemma delete_overflows_witness :
  DatabaseTask_handle_RequestMsg (Addr 1 1 0) (Addr 1 8 0) 1 demo_db = Fault.
Proof.
  apply (delete_overflows 1 demo_db 1 [] 8 0 5 (enc_i64 7) (Addr 1 10 0)).
  - exact demo_db_wok.
  - exact demo_db_at.
  - apply demo_request_at. by_eval.
  - done.
  - done.
  - right. done.
Defined.

(** A full table, in memory that holds zeros: 1000 students of id 0 and no name. *)
Definition demo_full : world := Eval vm_compute in
  state_of (modify (add_block (Blk sizeof_DatabaseTask (Byte 0) ∅));;;
            set_int (Addr 1 1 0) DatabaseTask_student_count MAX_STUDENT;;; demo_requests) 1
    (world_init 0 [] []).

Definition nobody : student := Stu 0 [] (replicate 4 (Byte 0)).

Lemma rd_zeros k o n :
  bfill k = Byte 0 → (∀ i, o <= i → bdata k !! i = None) → rd k o n = replicate n (Byte 0).
Proof.
  intros Hf. revert o. induction n as [|n IH]; intros o Hn; [done|].
  cbn. rewrite Hn, Hf by lia. f_equal. apply IH. intros i Hi. apply Hn. lia.
Qed.

Lemma mb_zeros w b o n k :
  w_blocks w !! b = Some k → bfill k = Byte 0 → (∀ i, o <= i → bdata k !! i = None) →
  in_block k o n → mb w b o (replicate n (Byte 0)).
Proof. intros Hk Hf Hn Hin. exists k. rewrite length_replicate. split_and!; [done|done|by apply rd_zeros]. Qed.

Lemma demo_full_at : db_at demo_full 1 (replicate 1000 nobody).
Proof.
  split; [by_eval|]. split; [by_eval|]. split; [by_eval|].
  split; [apply Forall_replicate; by_eval|].
  intros i x [-> Hi]%lookup_replicate.
  destruct (w_blocks demo_full !! 1) as [k|] eqn:Hk; [|by vm_compute in Hk].
  assert (bfill k = Byte 0 ∧ bsize k = sizeof_DatabaseTask ∧ bool_decide (map_Forall (λ j _, j < 40) (bdata k)) = true)
    as (Hf & Hs & Hd) by (revert Hk; vm_compute; intros [= <-]; done).
  apply bool_decide_eq_true in Hd. unfold sizeof_DatabaseTask in Hs.
  assert (∀ o n, 40 <= o → o + Z.of_nat n <= 48040 → mb demo_full 1 o (replicate n (Byte 0))) as Hz.
  { intros o n Ho Hn. eapply mb_zeros; [exact Hk|done| |unfold in_block; lia].
    intros j Hj. destruct (bdata k !! j) eqn:E; [|done]. apply Hd in E. lia. }
  unfold student_mem, student_off, DatabaseTask_students, sizeof_StudentInfo, StudentInfo_id, StudentInfo_name, StudentInfo_gpa.
  cbn [f_off]. split_and!; [apply (Hz _ 8%nat)|apply (Hz _ 30%nat)|apply (Hz _ 4%nat)]; lia.
Qed.

Lemma insert_full_witness :
  ∃ w', DatabaseTask_handle_RequestMsg (Addr 1 1 0) (Addr 1 2 0) 1 demo_full = Ok tt w' ∧
    db_at w' 1 (replicate 1000 nobody) ∧ response_at w' 1 RESPONSE_ERROR Null 0.
Proof.
  apply (insert_full 1 demo_full 1 (replicate 1000 nobody) 2 0 5 demo_student
           (replicate 28 (Byte 0)) (replicate 4 (Byte 0)) (Addr 1 4 0)).
  - apply wokb_spec. vm_compute. reflexivity.
  - exact demo_full_at.
  - by rewrite length_replicate.
  - exact demo_bytes_ok.
  - exists REQUEST_MSG, (sizeof_RequestMsg + 48). by_eval.
  - done.
  - done.
Defined.
