(* ===== verification/DatabaseServer.v ===== *)
(** * The database task serves requests

    [answer] is what a request does to the table and what the response says.
    One turn of the loop of [DatabaseTask] takes the next request of its queue,
    and puts the response it stands for in the queue of the sender; the proof
    uses the communication system through its interface [Transport]. *)

From S2P Require Import Prelude CMem CLogic Messages MessageSpec Ring CircularMsgQ CircularSpec Demo.
From S2P Require Import QueueProps System SystemSpec Repository TimeHelper Tasks Transport Database DatabaseSpec DatabaseProps.
From stdpp Require Import base numbers list strings gmap.
From Stdlib Require Import Lia.
#[local] Open Scope Z_scope.
#[local] Open Scope ts_scope.

(** ** The abstract server *)

(** The requests that are defined ([delete_overflows]), with the bytes that carry
    them: what follows the id of a selection, and what surrounds the members of
    an inserted student. *)
Inductive request :=
| RSelect (id : Z) (rest : list memval)
| RInsert (x : student) (junk pad : list memval)
| RPing (data : list memval).

Definition rtype_of (r : request) : Z :=
  match r with RSelect _ _ => SELECT_REQUEST | RInsert _ _ _ => INSERT_REQUEST | RPing _ => PING_REQUEST end.

Definition data_of (r : request) : list memval :=
  match r with
  | RSelect id rest => enc_i64 id ++ rest
  | RInsert x junk pad => student_bytes x junk pad
  | RPing data => data
  end.

Definition request_ok (r : request) : Prop :=
  match r with
  | RSelect id rest => is_s64 id
  | RInsert x junk pad => bytes_ok x junk pad
  | RPing _ => True
  end.

Definition request_msg (sender size : Z) (r : request) : msg :=
  Msg REQUEST_MSG size (BReq sender (rtype_of r) (data_of r)).

(** The first student with the id. *)
Fixpoint lookup_id (sts : list student) (id : Z) : option student :=
  match sts with
  | [] => None
  | x :: sts => if st_id x =? id then Some x else lookup_id sts id
  end.

(** The table afterwards, the code of the response, the student it carries. *)
Definition answer (sts : list student) (r : request) : list student * Z * option student :=
  match r with
  | RSelect id _ =>
      match lookup_id sts id with
      | Some x => (sts, RESPONSE_OK, Some x)
      | None => (sts, RESPONSE_ERROR, None)
      end
  | RInsert x _ _ =>
      if decide (Z.of_nat (length sts) < MAX_STUDENT) then (sts ++ [x], RESPONSE_OK, None)
      else (sts, RESPONSE_ERROR, None)
  | RPing _ => (sts, RESPONSE_OK, None)
  end.

(** The bytes of a [struct StudentInfo] that holds [x]. *)
Definition record_of (x : student) (data : list memval) : Prop :=
  ∃ pad1 pad2, length pad1 = 2%nat ∧ length pad2 = 4%nat ∧
    data = enc_i64 (st_id x) ++ padded (st_name x) ++ pad1 ++ st_gpa x ++ pad2.

Definition carries (found : option student) (data : list memval) : Prop :=
  match found with Some x => record_of x data | None => data = [] end.

Definition response_msg (code : Z) (data : list memval) : msg :=
  Msg RESPONSE_MSG (sizeof_ResponseMsg + Z.of_nat (length data)) (BRes code data).

(** ** Lemmas *)

Lemma lookup_id_first sts id i x :
  sts !! i = Some x → st_id x = id → (∀ j y, (j < i)%nat → sts !! j = Some y → st_id y ≠ id) →
  lookup_id sts id = Some x.
Proof.
  revert i. induction sts as [|y sts IH]; intros i Hi Hx Hmin; [done|]. cbn [lookup_id].
  destruct i as [|i]; cbn in Hi.
  - injection Hi as ->. by rewrite (proj2 (Z.eqb_eq _ _)).
  - rewrite (proj2 (Z.eqb_neq _ _)) by (apply (Hmin 0%nat); [lia|done]).
    apply (IH i); [done|done|]. intros j z Hj Hz. apply (Hmin (S j)); [lia|done].
Qed.

Lemma lookup_id_none sts id : (∀ j y, sts !! j = Some y → st_id y ≠ id) → lookup_id sts id = None.
Proof.
  induction sts as [|y sts IH]; intros Hno; [done|]. cbn [lookup_id].
  rewrite (proj2 (Z.eqb_neq _ _)) by by apply (Hno 0%nat). apply IH. intros j z Hj. by apply (Hno (S j)).
Qed.

Lemma valid_bytes w b o n : valid w b o n → ∃ l, length l = n ∧ mb w b o l.
Proof.
  intros (k & Hk & Hin). exists (rd k o n). split; [apply length_rd|]. exists k.
  rewrite length_rd. by split_and!.
Qed.

Lemma split_bytes {A} (l : list A) n : (n <= length l)%nat → ∃ l1 l2, l = l1 ++ l2 ∧ length l1 = n.
Proof. intros Hn. exists (take n l), (drop n l). by rewrite take_drop, length_take, Nat.min_l. Qed.

(** The record of a student of the table. *)
Lemma student_record w b sts i x :
  db_at w b sts → sts !! i = Some x →
  ∃ data, mb w b (student_off (Z.of_nat i)) data ∧ record_of x data ∧ length data = 48%nat.
Proof.
  intros (Hv & Hl & _ & Hok & Hs) Hi. pose proof (Hs _ _ Hi) as (H1 & H2 & H3).
  pose proof (Forall_lookup_1 _ _ _ _ Hok Hi) as (_ & _ & Hn & Hg). pose proof (lookup_lt_Some _ _ _ Hi) as Hlt.
  unfold MAX_STUDENT in Hl. unfold sizeof_DatabaseTask in Hv.
  assert (valid w b (student_off (Z.of_nat i)) 48) as Hvs by (unfold student_off; eapply valid_le; [exact Hv|off|off]).
  set (o := student_off (Z.of_nat i)) in *. clearbody o.
  destruct (valid_bytes _ _ _ _ Hvs) as (l & Hlen & Hm). exists l. split; [done|]. split; [|done].
  destruct (split_bytes l 8) as (l1 & r1 & -> & E1); [lia|]. rewrite length_app in Hlen.
  destruct (split_bytes r1 30) as (l2 & r2 & -> & E2); [lia|]. rewrite length_app in Hlen.
  destruct (split_bytes r2 2) as (l3 & r3 & -> & E3); [lia|]. rewrite length_app in Hlen.
  destruct (split_bytes r3 4) as (l4 & l5 & -> & E4); [lia|]. rewrite length_app in Hlen.
  rewrite !mb_app, E1, E2, E3 in Hm. destruct Hm as (M1 & M2 & _ & M3 & _).
  revert H1 H2 H3. off. intros H1 H2 H3.
  exists l3, l5. split_and!; [done|lia|]. f_equal; [|f_equal; [|f_equal; f_equal]].
  - eapply mb_inj; [exact M1|by rewrite Z.add_0_r in H1|by autorewrite with len].
  - eapply mb_inj; [exact M2|exact H2|by rewrite length_padded].
  - eapply mb_inj; [exact M3| |by rewrite Hg].
    by replace (o + Z.of_nat 8 + Z.of_nat 30 + Z.of_nat 2) with (o + 40) by lia.
Qed.

(** ** Making the response *)

(** The response of the database as a message object: [l] is the data it carries. *)
Lemma make_response_wp p w b code data l (k : ptr → M unit) (Q : unit → world → Prop) :
  wok w → response_at w b code data (Z.of_nat (length l)) → is_s32 code →
  array_at w p data l → Z.of_nat (length l) <= 1000 →
  (∀ w' nb d, obj_at w' p nb 0 (response_msg code l) d → ext nowhere w w' → w_next w <= nb →
     (l = [] ∧ d = Null ∨ ∃ db, l ≠ [] ∧ d = Addr p db 0 ∧ w_next w <= db ∧ db ≠ nb) → wp (k (Addr p nb 0)) p w' Q) →
  wp (res <- ResponseMsg_create RESPONSE_MSG;;
      copy_field res ResponseMsg_code (Addr p b 0) DatabaseTask_response_code;;;
      response_size <- get_int (Addr p b 0) DatabaseTask_response_size;;
      (if 0 <? response_size then
         (response_data <- get_ptr (Addr p b 0) DatabaseTask_response_data;;
          call_ResponseMsg_setData res response_data response_size)
       else ret tt);;; k res) p w Q.
Proof.
  intros Hok (H1 & H2 & H3) Hcode Ha Hlen Hk. pose proof (mb_fresh _ _ _ _ Hok H1) as Hb.
  unfold ResponseMsg_create. repeat wp1. destruct (Z.ltb_spec 0 (Z.of_nat (length l))) as [Hpos|Hzero].
  - unfold call_ResponseMsg_setData. repeat wp1.
    eapply wp_call_through; [find_mb|reflexivity|]. unfold ResponseMsg_setData. repeat wp1.
    eapply (Hk _ (w_next w) (Addr p (w_next w + 1) 0)); [|final_ext|lia|right; exists (w_next w + 1); split_and!; [by intros ->|done|lia|lia]].
    unfold response_msg. close_obj. right. do 2 eexists. split; [done|]. final_mb.
  - assert (l = []) as -> by (destruct l; [done|cbn in *; lia]). repeat wp1.
    eapply (Hk _ (w_next w) Null); [|final_ext|lia|by left].
    unfold response_msg. close_obj. by left.
Qed.

(** [destroy] frees the data and the object. *)
Lemma destroy_response_wp p w nb code l d (Q : unit → world → Prop) :
  obj_at w p nb 0 (response_msg code l) d →
  (l = [] ∧ d = Null ∧ Q tt (set_blocks (delete nb) w) ∨
   ∃ db, l ≠ [] ∧ d = Addr p db 0 ∧ db ≠ nb ∧ Q tt (set_blocks (delete nb) (set_blocks (delete db) w))) →
  wp (call_destroy (Addr p nb 0)) p w Q.
Proof.
  intros Ho Hd. unfold response_msg in Ho. open_obj Ho. eapply wp_call_through; [eassumption|reflexivity|]. unfold ResponseMsg_destroy. repeat wp1.
  match goal with H : valid w nb _ _ |- _ => destruct (valid_block _ _ _ _ H) as [kn Hkn] end.
  destruct Hd as [(-> & -> & HQ)|(db & Hl & -> & Hne & HQ)].
  - change (wp (free (Addr p nb 0)) p w Q). by eapply wp_free.
  - match goal with H : array_at w p _ l |- _ => destruct H as [?|(b' & o' & [= <- <-] & Hm)]; [done|] end.
    destruct (mb_block _ _ _ _ Hm) as [kd Hkd]. eapply wp_free; [exact Hkd|].
    eapply wp_free; [cbn; rewrite lookup_delete_ne by done; exact Hkn|exact HQ].
Qed.

(** ** What a request does *)

Lemma ping_wp p w b sts rb ro sender data d :
  wok w → db_at w b sts → request_at w p rb ro sender PING_REQUEST data d → rb ≠ b → ptr_block d ≠ Some b →
  Z.of_nat (length data) < 2147483648 →
  wp (DatabaseTask_handle_RequestMsg (Addr p b 0) (Addr p rb ro)) p w (λ _ w',
    db_answer w' b sts RESPONSE_OK Null 0 ∧ requester_at w' b sender ∧ ext (db_range b) w w').
Proof.
  intros Hok Hdb Hr Hne Hd Hlen.
  apply (handle_request_wp _ _ _ sts _ _ sender PING_REQUEST data d); [done|done|done|done|by right|done| |].
  - intros w' nb Hnb. by apply db_answer_free.
  - intros w1 l1 l2 l3 Hdb1 Hr1 _ _ _ _ _ _ _. apply (dispatch_wp _ _ _ _ _ _ _ _ _ _ _ _ _ Hr1); [done|].
    cbn [Z.eqb PING_REQUEST DELETE_REQUEST INSERT_REQUEST SELECT_REQUEST Pos.eqb].
    apply (answer_wp _ _ _ sts); [done|]. intros w' Ha He. split; [|done].
    eapply ext_weaken; [|exact He]. unfold locals_of. intros b' k i _ [-> ?]. left. lia.
Qed.

(** The response that waits in the task after a request. *)
Definition pending (w : world) (p b code : Z) (found : option student) : Prop :=
  ∃ data l, response_at w b code data (Z.of_nat (length l)) ∧ carries found l ∧ array_at w p data l ∧
    Z.of_nat (length l) <= 48.

Lemma pending_empty w p b code : response_at w b code Null 0 → pending w p b code None.
Proof. intros H. exists Null, []. split_and!; [done|done|by left|done]. Qed.

Lemma handle_answer_wp p w b sts rb ro sender r d :
  wok w → db_at w b sts → request_ok r → request_at w p rb ro sender (rtype_of r) (data_of r) d →
  rb ≠ b → ptr_block d ≠ Some b → Z.of_nat (length (data_of r)) < 2147483648 →
  wp (DatabaseTask_handle_RequestMsg (Addr p b 0) (Addr p rb ro)) p w (λ _ w',
    db_at w' b (answer sts r).1.1 ∧ pending w' p b (answer sts r).1.2 (answer sts r).2 ∧
    requester_at w' b sender ∧ ext (db_range b) w w').
Proof.
  intros Hok Hdb Hr Hq Hne Hd Hlen. destruct r as [id rest|x junk pad|data]; cbn [rtype_of data_of request_ok answer] in *.
  - eapply wp_mono; [by eapply select_wp|]. cbv beta. intros _ w' [[(i & x & Hx & Hid & Hmin & Hdb' & Hrs)|[Hno [Hdb' Hrs]]] Hrest].
    + rewrite (lookup_id_first _ _ _ _ Hx Hid Hmin). split; [done|]. split; [|done].
      destruct (student_record _ _ _ _ _ Hdb' Hx) as (data & Hm & Hrec & Hl). exists (Addr p b (student_off (Z.of_nat i))), data.
      rewrite Hl. split_and!; [done|done| |done]. right. by do 2 eexists.
    + rewrite (lookup_id_none _ _ Hno). split; [done|]. split; [by apply pending_empty|done].
  - eapply wp_mono; [by eapply insert_wp|]. cbv beta. intros _ w' [Ha Hrest].
    case_decide; destruct Ha as [? ?]; (split; [done|]; split; [by apply pending_empty|done]).
  - eapply wp_mono; [by eapply ping_wp|]. cbv beta. intros _ w' [[? ?] Hrest].
    split; [done|]. split; [by apply pending_empty|done].
Qed.

(** ** One turn of the loop *)

Section serve.
Context (p : Z) (Comm : ptr) `{!Transport p Comm}.

(** The database task [t], with its struct at block [b], holds the students [sts]. *)
Definition server (w : world) (b t : Z) (sts : list student) : Prop :=
  wok w ∧ db_at w b sts ∧ mb w b (0 + f_off Task_taskID) (enc_i32 t) ∧ ¬ tr_own b.

(** New blocks are not the system's. *)
Lemma mail_fresh w M b : wok w → mail w M → w_next w <= b → ¬ tr_own b.
Proof. intros Hok HM Hb Hown. pose proof (mail_old _ _ _ Hok HM Hown). lia. Qed.

Lemma server_old w b t sts : server w b t sts → b < w_next w.
Proof. intros (Hok & (Hv & _) & _). by eapply valid_fresh. Qed.

(** What the communication system does leaves the task alone. *)
Lemma server_comm w w' b t sts : ext (λ b' _, tr_own b') w w' → server w b t sts → server w' b t sts.
Proof.
  intros He (Hok & Hdb & Hid & Hb). split_and!; [by eapply ext_wok| | |done].
  - eapply db_ext; [exact He| |exact Hdb]. done.
  - eapply mb_extF; [exact He|done|exact Hid].
Qed.

Lemma server_free w b t sts nb : nb ≠ b → server w b t sts → server (set_blocks (delete nb) w) b t sts.
Proof.
  intros Hne (Hok & (Hv & Hl & Hc & Hsok & Hs) & Hid & Hb).
  assert (b ≠ nb) by done. split_and!; [|split_and!|by apply mb_free|done].
  - intros b' Hb'. cbn in *. rewrite lookup_delete. case_match; [done|by apply Hok].
  - by apply valid_free.
  - done.
  - by apply mb_free.
  - done.
  - intros i x Hx. destruct (Hs i x Hx) as (? & ? & ?). unfold student_mem. split_and!; by apply mb_free.
Qed.

(** What a turn of the loop writes. *)
Definition serve_foot (b b' i : Z) : Prop := tr_own b' ∨ db_range b b' i.

Lemma receive_request_wp fuel w b t sts M sender size r ms :
  server w b t sts → is_s32 t → request_ok r → mail w M → M !! t = Some (request_msg sender size r :: ms) →
  wp (DatabaseTask_receive fuel Comm (Addr p b 0)) p w (λ _ w',
    server w' b t (answer sts r).1.1 ∧ pending w' p b (answer sts r).1.2 (answer sts r).2 ∧
    requester_at w' b sender ∧ mail w' (<[t := ms]> M) ∧ ext (serve_foot b) w w' ∧
    ∀ t' n, t' ≠ t → has_room w t' n → has_room w' t' n).
Proof.
  intros Hsv Ht Hr HM HMt. assert (task_at p Comm w b t) as Htk by (destruct Hsv as (? & ? & ? & ?); by split_and!).
  unfold DatabaseTask_receive. apply wp_bind.
  eapply wp_mono; [by eapply wait_tag_wp|]. cbv beta. intros a w1 (-> & HM1 & Hop & Htk1 & He1 & Hroom1).
  pose proof (server_comm _ _ _ _ _ He1 Hsv) as Hsv1. pose proof Hsv1 as (Hok1 & _ & Hid1 & Hb).
  cbn [m_tag request_msg Z.eqb REQUEST_MSG]. apply wp_bind.
  eapply wp_mono; [by eapply receive_mine_wp|]. cbv beta.
  intros a w2 (HM2 & _ & He2 & Hroom2 & (_ & Hlen & _) & rb & d & -> & Hrb & Ho & Hd).
  pose proof (server_comm _ _ _ _ _ He2 Hsv1) as Hsv2. pose proof Hsv2 as (Hok2 & Hdb2 & Hid2 & _).
  pose proof (server_old _ _ _ _ Hsv1). destruct Hd as [Hd|Hd]; [done|].
  eapply wp_mono; [eapply (handle_answer_wp p w2 b sts rb 0 sender r d); try done|].
  { by do 2 eexists. }
  { lia. }
  { rewrite Hd. intros [= E]. lia. }
  cbv beta. intros _ w3 (Hdb3 & Hp & Hreq & He3).
  assert (∀ b' i, tr_own b' → ¬ db_range b b' i) as Hsep by (intros b' i Hown [-> _]; done).
  split_and!; [split_and!| | | | |]; try done.
  - by eapply ext_wok.
  - eapply mb_extF; [exact He3| |exact Hid2]. intros i Hi [_ ?]. autorewrite with len in Hi. revert Hi. off.
  - by eapply mail_ext.
  - eapply (ext_trans _ _ w2); [eapply ext_weaken; [|eapply ext_trans; [exact He1|exact He2]]; by left|].
    eapply ext_weaken; [|exact He3]. by right.
  - intros t' n Hne Hn. eapply room_ext; [exact He3|exact Hsep|]. by apply Hroom2, Hroom1.
Qed.

Lemma answer_code sts r : is_s32 (answer sts r).1.2.
Proof. destruct r; cbn; repeat case_match; done. Qed.

Lemma response_ok code l : Z.of_nat (length l) <= 48 → msg_ok (response_msg code l).
Proof.
  intros Hl. unfold response_msg, msg_ok. cbn [m_tag m_body m_size body_ok payload sizeof_of].
  unfold is_s32, RESPONSE_MSG, sizeof_ResponseMsg. lia.
Qed.

(** Sending the response and freeing it. *)
Lemma reply_wp w0 w b t sts M ms sender nb code l d :
  wok w0 → ext (serve_foot b) w0 w → w_next w0 <= nb → (∀ b', ptr_block d = Some b' → w_next w0 <= b') →
  server w b t sts → requester_at w b sender → is_s32 sender → mail w M → M !! sender = Some ms →
  has_room w sender (sizeof_ResponseMsg + 48) → Z.of_nat (length l) <= 48 →
  obj_at w p nb 0 (response_msg code l) d → ¬ tr_own nb → nb ≠ b →
  (l = [] ∧ d = Null ∨ ∃ db, l ≠ [] ∧ d = Addr p db 0 ∧ ¬ tr_own db ∧ db ≠ nb ∧ db ≠ b) →
  wp (requester <- get_int (Addr p b 0) DatabaseTask_current_requester_task_id;;
      DatabaseTask_send Comm (Addr p b 0) (Addr p nb 0) requester;;; call_destroy (Addr p nb 0)) p w (λ _ w',
    server w' b t sts ∧ mail w' (<[sender := ms ++ [response_msg code l]]> M) ∧ ext (serve_foot b) w0 w').
Proof.
  intros Hok0 He0 Hnb0 Hd0 Hsv Hreq Hs HM Hms Hroom Hl Ho Hown Hnb Hd. apply wp_bind. eapply wp_get_int; [exact Hreq|].
  rewrite s32_small by done. apply wp_bind. unfold DatabaseTask_send, Task_send.
  assert (∀ b', (tr_own b' ∨ b' = nb) → arr_sep d l b') as Hsep.
  { intros b' Hb'. destruct Hd as [[-> _]|(db & _ & -> & ? & ? & ?)]; [by left|right]. cbn. intros [= ->]. by destruct Hb'. }
  eapply wp_mono; [apply (send_spec w M sender ms nb (response_msg code l) d); try done|].
  { eapply room_le; [|exact Hroom]. cbn. lia. }
  { by apply response_ok. }
  { intros []. }
  { intros b' Hb'. apply Hsep. by left. }
  { apply Hsep. by right. }
  cbv beta. intros a w1 (_ & HM1 & Ho1 & He1 & _). pose proof (server_comm _ _ _ _ _ He1 Hsv) as Hsv1.
  assert (ext (serve_foot b) w0 w1) as He01.
  { eapply ext_trans; [exact He0|]. eapply ext_weaken; [|exact He1]. by left. }
  eapply destroy_response_wp; [exact Ho1|]. destruct Hd as [[-> ->]|(db & Hl0 & -> & Hdb & Hdn & Hdb')]; [left|right].
  - split_and!; [done|done|by apply server_free|by apply mail_free|by apply ext_free].
  - specialize (Hd0 db eq_refl). exists db. split_and!; [done|done|done|do 2 (apply server_free; [done|]); done|
      do 2 (apply mail_free; [done|]); done|do 2 (apply ext_free; [done|done|]); done].
Qed.

Lemma serve_wp fuel w b t sts M sender size r ms ms' :
  server w b t sts → is_s32 t → is_s32 sender → sender ≠ t → request_ok r →
  mail w M → M !! t = Some (request_msg sender size r :: ms) → M !! sender = Some ms' →
  has_room w sender (sizeof_ResponseMsg + 48) →
  wp (DatabaseTask_serve fuel Comm (Addr p b 0)) p w (λ _ w', ∃ l, server w' b t (answer sts r).1.1 ∧
    carries (answer sts r).2 l ∧
    mail w' (<[sender := ms' ++ [response_msg (answer sts r).1.2 l]]> (<[t := ms]> M)) ∧ ext (serve_foot b) w w').
Proof.
  intros Hsv Ht Hs Hne Hr HM HMt HMs Hroom. pose proof Hsv as (Hok & _).
  unfold DatabaseTask_serve. apply wp_bind. eapply wp_mono; [by eapply receive_request_wp|]. cbv beta.
  intros _ w1 (Hsv1 & (data & l & Hresp & Hcar & Ha & Hl) & Hreq & HM1 & He1 & Hroom1).
  assert (has_room w1 sender (sizeof_ResponseMsg + 48)) as Hroom1' by by apply Hroom1.
  pose proof (server_old _ _ _ _ Hsv1) as Hb. pose proof Hsv1 as (Hok1 & _). pose proof (ext_next _ _ _ He1) as Hn1.
  apply (make_response_wp p w1 b (answer sts r).1.2 data l (λ res,
    requester <- get_int (Addr p b 0) DatabaseTask_current_requester_task_id;;
    DatabaseTask_send Comm (Addr p b 0) res requester;;; call_destroy res));
    [done|done|apply answer_code|done|lia|].
  intros w2 nb d Ho He Hnb Hd.
  assert (∀ b', w_next w1 <= b' → ¬ tr_own b') as Hfresh by (intros b' Hb'; by eapply mail_fresh).
  eapply wp_mono; [eapply (reply_wp w w2 b t (answer sts r).1.1 (<[t:=ms]> M) ms' sender nb (answer sts r).1.2 l d)|].
  - done.
  - eapply ext_trans; [exact He1|]. by eapply ext_weaken; [|exact He].
  - lia.
  - intros b'. destruct Hd as [[_ ->]|(db & _ & -> & Hdb & _)]; [done|]. cbn. intros [= <-]. lia.
  - eapply server_comm; [|exact Hsv1]. by eapply ext_weaken; [|exact He].
  - eapply mb_extF; [exact He|intros i _ []|exact Hreq].
  - done.
  - eapply mail_ext; [exact He|intros ? ? _ []|exact HM1].
  - by rewrite lookup_insert_ne by done.
  - eapply room_ext; [exact He|intros ? ? _ []|exact Hroom1'].
  - done.
  - exact Ho.
  - by apply Hfresh.
  - lia.
  - destruct Hd as [?|(db & ? & -> & Hdb & Hdn)]; [by left|right]. exists db. split_and!; [done|done|by apply Hfresh|done|lia].
  - cbv beta. intros _ w3 (H1 & H2 & H3). by exists l.
Qed.


End serve.

(** ** A server and a client *)

(** Process 1: the system object, the queue of task 1 and an empty database. *)
Definition demo_srv_1 : M unit :=
  Comm <- malloc sizeof_System;; System_initialize Comm;;; createMsgQ Comm 1;;;
  t <- malloc sizeof_DatabaseTask;; set_int t Task_taskID 1;;; DatabaseTask_init t.

(** Process 2: client task 2 with its queue asks for an insertion. *)
Definition demo_srv_2 : M unit :=
  Comm <- malloc sizeof_System;; System_initialize Comm;;; createMsgQ Comm 2;;;
  c <- malloc sizeof_ClientTask;; set_int c Task_taskID 2;;; ClientTask_ask 2 Comm c 1 7.

Definition demo_srv : world := Eval vm_compute in
  state_of demo_srv_2 2 (state_of demo_srv_1 1 (world_init 0 [] [])).

Definition demo_insert : request :=
  RInsert (Stu 7 (chars "Francois Gingras") (enc_i32 float_4_3)) (replicate 13 (Byte 0) ++ replicate 2 Undef)
    (replicate 4 Undef).
Definition demo_request_msg : msg := request_msg 2 (sizeof_RequestMsg + 48) demo_insert.
Definition demo_queues : gmap Z Z := {[1 := 2; 2 := 5]}.
Definition demo_mail : gmap Z (list msg) := {[1 := [demo_request_msg]; 2 := []]}.
Definition demo_ring : mring := Ring 56 (56 + m_size demo_request_msg) (-1) [(56, demo_request_msg)].

Lemma demo_queue t q : demo_queues !! t = Some q → t = 1 ∧ q = 2 ∨ t = 2 ∧ q = 5.
Proof.
  unfold demo_queues. intros [[<- <-]|[_ [<- <-]%lookup_singleton_Some]]%lookup_insert_Some; [by left|by right].
Qed.

Lemma demo_table : table_ok 1 demo_queues.
Proof.
  split; [intros t q Ht%demo_queue; lia|]. intros t t' q Ht%demo_queue Ht'%demo_queue. lia.
Qed.

Lemma demo_ring_ok : mring_ok demo_ring.
Proof. split; [by vm_compute|]. left. split; [done|]. split; [by vm_compute|by vm_compute]. Qed.

Lemma demo_srv_q_inv : q_inv demo_srv 2 demo_ring.
Proof.
  split; [by_eval|]. split; [by_eval|]. split; [exact demo_ring_ok|].
  split; (constructor; [|constructor]); by_eval.
Qed.

Lemma demo_srv_q_inv_2 : q_inv demo_srv 5 (ring_empty sizeof_Queue).
Proof. apply q_inv_empty; by_eval. Qed.

Lemma demo_srv_mail : all_mail 1 1 demo_queues demo_srv demo_mail.
Proof.
  split; [unfold calls; by_eval|]. unfold demo_mail. split.
  - intros t. unfold demo_queues. destruct (decide (t = 1)) as [->|]; [by rewrite !lookup_insert_eq|rewrite !lookup_insert_ne by done].
    destruct (decide (t = 2)) as [->|]; [by rewrite !lookup_singleton_eq|by rewrite !lookup_singleton_ne by done].
  - intros t q ms [[-> ->]|[-> ->]]%demo_queue Hm.
    + rewrite lookup_insert_eq in Hm. injection Hm as <-. split; [by_eval|]. split; [exists (Addr 1 2 0); by_eval|].
      exists demo_ring. split; [exact demo_srv_q_inv|done].
    + rewrite lookup_insert_ne, lookup_singleton_eq in Hm by done. injection Hm as <-. split; [by_eval|].
      split; [exists Null; by_eval|]. exists (ring_empty sizeof_Queue). split; [exact demo_srv_q_inv_2|done].
Qed.

Lemma demo_server : server 1 (Addr 1 1 0) (Transport0 := System_transport 1 1 demo_queues demo_table) demo_srv 3 1 [].
Proof.
  split; [apply wokb_spec; vm_compute; reflexivity|]. split.
  - split; [by_eval|]. split; [by_eval|]. split; [by_eval|]. by split; [constructor|].
  - split; [by_eval|]. intros [?|[t Ht%demo_queue]]; [done|lia].
Qed.

