(* ===== verification/DatabaseClient.v ===== *)
(** * The client of the database

    What one turn of the loop of [ClientTask] sends and takes, against the
    interface [Transport]: the request it makes, the objects it frees, and the
    response it receives.  [Exchange] puts it together with the database. *)

From S2P Require Import Prelude CMem CLogic Messages MessageSpec Ring CircularMsgQ CircularSpec Demo.
From S2P Require Import QueueProps System SystemSpec Repository TimeHelper Tasks Transport.
From S2P Require Import Database DatabaseSpec DatabaseProps DatabaseServer.
From stdpp Require Import base numbers list strings gmap.
From Stdlib Require Import Lia.
#[local] Open Scope Z_scope.
#[local] Open Scope ts_scope.

(** The request that the client makes in turn [i]; type 3, a deletion, is not
    among them ([delete_overflows]). *)
Definition client_name : list memval := chars "Francois Gingras".

Definition client_request (req_type i : Z) : option request :=
  if req_type =? 1 then Some (RSelect i [])
  else if req_type =? 2 then
    Some (RInsert (Stu i client_name (enc_i32 float_4_3)) (replicate 13 (Byte 0) ++ replicate 2 Undef) (replicate 4 Undef))
  else if req_type =? 4 then Some (RPing [])
  else None.

Lemma client_request_ok req_type i r : client_request req_type i = Some r → is_s64 i → request_ok r.
Proof.
  unfold client_request. intros E Hi. repeat case_match; simplify_eq; cbn [request_ok]; [done| |done].
  split; [|by vm_compute]. split; [done|]. cbn [st_name st_gpa]. by_eval.
Qed.

(** ** Filling the request *)

(** The type of the request object [rb] is set, and the buffer holds the data. *)
Definition filled_request (w w' : world) (p rb : Z) (r : request) (b : ptr * Z) : Prop :=
  ext (range rb (f_off RequestMsg_request_type) 4) w w' ∧
  mb w' rb (f_off RequestMsg_request_type) (enc_i32 (rtype_of r)) ∧
  (data_of r = [] ∧ b = (Null, 0) ∨
   ∃ nb, b = (Addr p nb 0, Z.of_nat (length (data_of r))) ∧ w_next w <= nb ∧ data_of r ≠ [] ∧ mb w' nb 0 (data_of r)).

#[local] Hint Rewrite @length_replicate : len.

(** Only the type of the request, the local variable and new blocks were written. *)
Ltac foot_ext :=
  let Hi := fresh in
  repeat first
    [ apply ext_upd;
      [first [new_block | intros ? ? _ Hi; autorewrite with len in Hi; first [by right | left; split; [done|revert Hi; off]]]|]
    | apply ext_add_block; [done|] | apply ext_refl ].

(** A selection: the id is copied from the local variable to the buffer. *)
Lemma request_select_wp p w i rb sel stu :
  wok w → valid w rb 0 (Z.to_nat sizeof_RequestMsg) → valid w sel 0 8 → sel ≠ rb →
  wp (ClientTask_request 1 i (Addr p rb 0) (Addr p sel 0) stu) p w (λ b w', 
    ext (λ b' j, range rb (f_off RequestMsg_request_type) 4 b' j ∨ b' = sel) w w' ∧
    mb w' rb (f_off RequestMsg_request_type) (enc_i32 SELECT_REQUEST) ∧
    ∃ nb, b = (Addr p nb 0, 8) ∧ w_next w <= nb ∧ mb w' nb 0 (enc_i64 i)).
Proof.
  unfold sizeof_RequestMsg. intros Hok Hv Hs Hne. pose proof (valid_fresh _ _ _ _ Hok Hv). pose proof (valid_fresh _ _ _ _ Hok Hs).
  unfold ClientTask_request. cbn [Z.eqb orb Pos.eqb].
  apply wp_bind. apply wp_set_long; [find_valid|]. repeat wp1.
  change (0 + f_off SelectInfo_id) with 0. eapply wp_memcpy; [find_mb|by autorewrite with len| |lia|].
  { autorewrite with len. find_valid. }
  apply wp_ret. split_and!.
  - foot_ext.
  - final_mb.
  - exists (w_next w). split; [done|]. split; [lia|]. final_mb.
Qed.

(** An insertion: the local variable is filled member by member, and copied with
    the padding between the members. *)
Lemma request_insert_wp p w i rb sel stu :
  wok w → valid w rb 0 (Z.to_nat sizeof_RequestMsg) →
  mb w stu 0 (replicate 48 Undef) → stu ≠ rb →
  wp (ClientTask_request 2 i (Addr p rb 0) sel (Addr p stu 0)) p w (λ b w',
    ext (λ b' j, range rb (f_off RequestMsg_request_type) 4 b' j ∨ b' = stu) w w' ∧
    mb w' rb (f_off RequestMsg_request_type) (enc_i32 INSERT_REQUEST) ∧
    ∃ nb, b = (Addr p nb 0, 48) ∧ w_next w <= nb ∧
      mb w' nb 0 (enc_i64 i ++ padded client_name ++ replicate 2 Undef ++ enc_i32 float_4_3 ++ replicate 4 Undef)).
Proof.
  unfold sizeof_RequestMsg. intros Hok Hv Hs Hne.
  pose proof (valid_fresh _ _ _ _ Hok Hv). pose proof (mb_fresh _ _ _ _ Hok Hs).
  assert (valid w stu 0 48) as Hvs by by apply mb_valid in Hs.
  assert (length (padded client_name) = 30%nat) as Hpn by done.
  unfold ClientTask_request. cbn [Z.eqb orb Pos.eqb].
  apply wp_bind. apply wp_set_long; [find_valid|]. rewrite Z.add_0_l. set (w1 := upd w stu _ _).
  assert (ext (λ b' _, b' = stu) w w1) as He1 by (eapply ext_upd; [|apply ext_refl]; done).
  pose proof (ext_next _ _ _ He1) as Hn1. do 2 apply wp_bind.
  eapply str_lit_wp; [by eapply ext_wok|by vm_compute|]. intros w2 He2 Hlit Hn2.
  assert (ext (λ b' _, b' = stu) w w2) as He by (eapply ext_trans; [exact He1|by eapply ext_weaken; [|exact He2]]).
  assert (mb w2 stu 0 (enc_i64 i) ∧ mb w2 stu 38 (replicate 2 Undef) ∧ mb w2 stu 44 (replicate 4 Undef)) as (Hid & Hp1 & Hp2).
  { change (replicate 48 (@Undef)) with (replicate 8 Undef ++ replicate 30 Undef ++ replicate 2 Undef ++ replicate 4 Undef ++ replicate 4 Undef) in Hs.
    rewrite !mb_app in Hs. autorewrite with len in Hs. destruct Hs as (_ & _ & Hs2 & _ & Hs3).
    split_and!; (eapply mb_extF; [exact He2|intros ? _ []|]).
    - apply mb_upd_same. autorewrite with len. find_valid.
    - apply mb_upd_disj; [off|exact Hs2].
    - apply mb_upd_disj; [off|exact Hs3]. }
  pose proof (valid_extF _ _ _ _ _ _ He Hvs) as Hvs2. pose proof (valid_extF _ _ _ _ _ _ He Hv) as Hvr2.
  pose proof (ext_next _ _ _ He). pose proof (ext_wok _ _ _ He Hok) as Hok2.
  eapply (wp_strncpy_30 _ _ _ (0 + f_off StudentInfo_name) (w_next w1) 0 client_name); [exact Hlit|by_eval|by_eval| |].
  { eapply valid_le; [exact Hvs2|off|off]. }
  apply wp_bind. apply wp_set_int; [find_valid|]. repeat wp1.
  change (0 + f_off StudentInfo_name) with 8. change (0 + f_off StudentInfo_gpa) with 40.
  change (0 + f_off RequestMsg_request_type) with (f_off RequestMsg_request_type).
  eapply (wp_memcpy _ _ _ _ _ 0 _ (enc_i64 i ++ padded client_name ++ replicate 2 Undef ++ enc_i32 float_4_3 ++ replicate 4 Undef));
    [|by autorewrite with len; rewrite Hpn| |lia|].
  { repeat (rewrite mb_app; split); rewrite ?length_replicate, ?Hpn; autorewrite with len;
    repeat (change (0 + Z.of_nat 8) with 8 || change (8 + Z.of_nat 30) with 38 || change (38 + Z.of_nat 2) with 40 ||
      change (40 + Z.of_nat 4) with 44); find_mb. }
  { autorewrite with len. rewrite Hpn. find_valid. }
  apply wp_ret. split_and!.
  - eapply ext_trans; [eapply ext_weaken; [|exact He]; by right|]. foot_ext.
  - final_mb.
  - exists (w_next w2). split; [done|]. split; [lia|]. final_mb.
Qed.

(** Two local variables: new blocks [l] and [l + 1], gone afterwards. *)
Lemma wp_two_locals {A} n1 n2 (k : ptr → ptr → M A) p w (F : Z → Z → Prop) (P : A → world → Prop) :
  0 <= n1 < 140737488355328 → 0 <= n2 < 140737488355328 → wok w →
  (∀ a w' nb, w_next w <= nb < w_next w + 2 → P a w' → P a (set_blocks (delete nb) w')) →
  (∀ wd, ext nowhere w wd → w_next wd = w_next w + 2 →
     mb wd (w_next w) 0 (replicate (Z.to_nat n1) Undef) → mb wd (w_next w + 1) 0 (replicate (Z.to_nat n2) Undef) →
     wp (k (Addr p (w_next w) 0) (Addr p (w_next w + 1) 0)) p wd (λ a w',
       ext (λ b i, F b i ∨ w_next w <= b) wd w' ∧ P a w')) →
  wp (with_local n1 (λ a, with_local n2 (λ b, k a b))) p w (λ a w', P a w' ∧ ext F w w').
Proof.
  intros H1 H2 Hok HP Hk. apply wp_with_local; [done|]. apply wp_with_local; [done|].
  rewrite !add_block_next. set (l := w_next w) in *. set (wd := add_block _ (add_block _ w)).
  assert (ext nowhere w wd) as Hed by (unfold wd; repeat (apply ext_add_block; [done|]); apply ext_refl).
  assert (mb wd l 0 (replicate (Z.to_nat n1) Undef)) as Hm1.
  { apply mb_add_block; [nxt; lia|]. apply mb_undef; lia. }
  assert (mb wd (l + 1) 0 (replicate (Z.to_nat n2) Undef)) as Hm2.
  { change (l + 1) with (w_next (add_block (Blk n1 Undef ∅) w)). apply mb_undef; lia. }
  eapply wp_mono; [apply (Hk wd); try done; unfold wd; nxt; lia|]. cbv beta. intros a w' [He HP'].
  destruct (valid_block _ _ _ _ (valid_extF _ _ _ _ _ _ He (mb_valid _ _ _ _ Hm1))) as [k1 Hk1].
  destruct (valid_block _ _ _ _ (valid_extF _ _ _ _ _ _ He (mb_valid _ _ _ _ Hm2))) as [k2 Hk2].
  split; [by eexists|]. split; [exists k1; cbn; rewrite lookup_delete_ne by lia; done|]. split.
  - do 2 (apply HP; [lia|]). done.
  - do 2 (apply ext_free; [lia|done|]).
    eapply ext_trans_old; [|eapply ext_weaken; [|exact Hed]; by intros ? ? ? _ []|exact He].
    intros b kb i Hkb [?|Hb]; [done|]. by rewrite Hok in Hkb.
Qed.

(** The request object after the [switch]. *)
Lemma fill_request_wp p w req_type i rb r :
  wok w → valid w rb 0 (Z.to_nat sizeof_RequestMsg) → client_request req_type i = Some r →
  wp (with_local sizeof_SelectInfo (λ sel_data, with_local sizeof_StudentInfo (λ student_data,
        ClientTask_request req_type i (Addr p rb 0) sel_data student_data))) p w
    (λ b w', filled_request w w' p rb r b).
Proof.
  intros Hok Hv Hr. pose proof (valid_fresh _ _ _ _ Hok Hv) as Hrb.
  eapply wp_mono; [apply (wp_two_locals _ _ _ _ _ (range rb (f_off RequestMsg_request_type) 4) (λ b w',
    mb w' rb (f_off RequestMsg_request_type) (enc_i32 (rtype_of r)) ∧
    (data_of r = [] ∧ b = (Null, 0) ∨
     ∃ nb, b = (Addr p nb 0, Z.of_nat (length (data_of r))) ∧ w_next w + 2 <= nb ∧ data_of r ≠ [] ∧ mb w' nb 0 (data_of r))))|];
    try (unfold sizeof_SelectInfo, sizeof_StudentInfo; lia); [done| | |].
  - intros b w' nb Hnb [Hm Hb]. split; [apply mb_free; [lia|done]|].
    destruct Hb as [?|(nb' & -> & ? & ? & ?)]; [by left|right]. exists nb'. split_and!; try done. apply mb_free; [lia|done].
  - intros wd Hed Hnd Hm1 Hm2. pose proof (ext_wok _ _ _ Hed Hok) as Hokd. pose proof (valid_extF _ _ _ _ _ _ Hed Hv) as Hvd.
    unfold client_request in Hr. repeat case_match; simplify_eq;
      match goal with H : (_ =? _) = true |- _ => apply Z.eqb_eq in H; subst req_type end.
    + eapply wp_mono; [apply request_select_wp; [done|done|by apply mb_valid in Hm1|lia]|]. cbv beta.
      intros b w' (He & Hm & nb & -> & Hnb & Hd). split_and!; [|done|].
      * eapply ext_weaken; [|exact He]. intros b' k j _ [?| ->]; [by left|right; lia].
      * right. exists nb. cbn [data_of]. rewrite app_nil_r. autorewrite with len. split_and!; [done|lia|done|done].
    + eapply wp_mono; [apply request_insert_wp; [done|done|exact Hm2|lia]|]. cbv beta.
      intros b w' (He & Hm & nb & -> & Hnb & Hd). split_and!; [|done|].
      * eapply ext_weaken; [|exact He]. intros b' k j _ [?| ->]; [by left|right; lia].
      * right. exists nb. split; [done|]. split; [lia|]. split; [done|]. exact Hd.
    + unfold ClientTask_request. cbn [Z.eqb orb Pos.eqb]. unfold sizeof_RequestMsg in Hvd.
      repeat wp1. split_and!; [|final_mb|by left]. apply ext_upd; [|apply ext_refl].
      intros k j _ Hj. left. autorewrite with len in Hj. split; [done|]. revert Hj. off.
  - cbv beta. intros b w' [[Hm Hb] He]. split; [exact He|]. split; [exact Hm|].
    destruct Hb as [?|(nb & ? & ? & ? & ?)]; [by left|right]. exists nb. split_and!; try done. lia.
Qed.

(** ** The request object *)

Lemma RequestMsg_create_wp tag p w (Q : ptr → world → Prop) :
  wok w →
  (∀ w', obj_at w' p (w_next w) 0 (Msg tag sizeof_RequestMsg (BReq (-1) (-1) [])) Null →
     ext nowhere w w' → w_next w < w_next w' → Q (Addr p (w_next w) 0) w') →
  wp (RequestMsg_create tag) p w Q.
Proof.
  intros Hok HQ. unfold RequestMsg_create. repeat wp1. apply HQ.
  - close_obj. by left.
  - final_ext.
  - nxt. lia.
Qed.

(** The members of a request without data, after a write elsewhere in it. *)
Ltac keep_request He :=
  unfold obj_at, data_at in *;
  cbn [m_body m_tag m_size header methods_of cls_methods scalars data_field flds bound
       fst snd app sizeof_of payload tid_of] in *;
  destruct_and?; split_and!; try done; try (by left); try (by eapply valid_extF);
  try (eapply mb_extF; [exact He| |eassumption]; let Hi := fresh in let Hj := fresh in intros ? Hi [_ Hj]; autorewrite with len in Hi; revert Hi Hj; off).

Lemma request_sender w w' p rb tag sz s s' rt :
  obj_at w p rb 0 (Msg tag sz (BReq s rt [])) Null → ext (range rb (f_off RequestMsg_sender_task_id) 4) w w' →
  mb w' rb (f_off RequestMsg_sender_task_id) (enc_i32 s') → obj_at w' p rb 0 (Msg tag sz (BReq s' rt [])) Null.
Proof. intros Ho He Hm. keep_request He. Qed.

Lemma request_type w w' p rb tag sz s rt rt' :
  obj_at w p rb 0 (Msg tag sz (BReq s rt [])) Null → ext (range rb (f_off RequestMsg_request_type) 4) w w' →
  mb w' rb (f_off RequestMsg_request_type) (enc_i32 rt') → obj_at w' p rb 0 (Msg tag sz (BReq s rt' [])) Null.
Proof. intros Ho He Hm. keep_request He. Qed.

Lemma RequestMsg_setData_wp p w rb tag sz s rt nb data (Q : unit → world → Prop) :
  wok w → obj_at w p rb 0 (Msg tag sz (BReq s rt [])) Null → mb w nb 0 data → nb ≠ rb →
  0 <= sz <= 1000 → Z.of_nat (length data) <= 1000 →
  (∀ w', obj_at w' p rb 0 (Msg tag (sz + Z.of_nat (length data)) (BReq s rt data)) (Addr p (w_next w) 0) →
     ext (range rb 0 sizeof_RequestMsg) w w' → Q tt w') →
  wp (call_RequestMsg_setData (Addr p rb 0) (Addr p nb 0) (Z.of_nat (length data))) p w Q.
Proof.
  intros Hok Ho Hm Hne Hsz Hl HQ. pose proof (mb_fresh _ _ _ _ Hok Hm). pose proof (valid_fresh _ _ _ _ Hok (proj1 Ho)).
  assert (array_at w p (Addr p nb 0) data) as Ha by (right; by do 2 eexists).
  open_obj Ho. unfold call_RequestMsg_setData. eapply wp_call_through; [eassumption|reflexivity|].
  unfold RequestMsg_setData. repeat wp1. apply HQ; [|unfold sizeof_RequestMsg; final_ext].
  close_obj. right. do 2 eexists. split; [done|]. final_mb.
Qed.

(** [destroy] frees the data and the object. *)
Lemma destroy_request_wp p w rb m d data (Q : unit → world → Prop) :
  obj_at w p rb 0 m d → (∃ s rt, m_body m = BReq s rt data) →
  (data = [] ∧ d = Null ∧ Q tt (set_blocks (delete rb) w) ∨
   ∃ db, data ≠ [] ∧ d = Addr p db 0 ∧ db ≠ rb ∧ Q tt (set_blocks (delete rb) (set_blocks (delete db) w))) →
  wp (call_destroy (Addr p rb 0)) p w Q.
Proof.
  destruct m as [tag sz bd]. intros Ho (s & rt & E) Hd. cbn in E. subst bd. open_obj Ho.
  eapply wp_call_through; [eassumption|reflexivity|]. unfold RequestMsg_destroy. repeat wp1.
  match goal with H : valid w rb _ _ |- _ => destruct (valid_block _ _ _ _ H) as [kn Hkn] end.
  destruct Hd as [(-> & -> & HQ)|(db & Hl & -> & Hne & HQ)].
  - change (wp (free (Addr p rb 0)) p w Q). by eapply wp_free.
  - match goal with H : array_at w p _ data |- _ => destruct H as [?|(b' & o' & [= <- <-] & Hm)]; [done|] end.
    destruct (mb_block _ _ _ _ Hm) as [kd Hkd]. eapply wp_free; [exact Hkd|].
    eapply wp_free; [cbn; rewrite lookup_delete_ne by done; exact Hkn|exact HQ].
Qed.

(** What a client of the database asks for in turn [i], as a message object, with
    the buffer it was filled from. *)
Lemma make_request_wp p w b t req_type i r (k : ptr → ptr * Z → M unit) (Q : unit → world → Prop) :
  wok w → mb w b (0 + f_off Task_taskID) (enc_i32 t) → client_request req_type i = Some r →
  (∀ w' rb buf d, obj_at w' p rb 0 (request_msg t (sizeof_RequestMsg + Z.of_nat (length (data_of r))) r) d →
     ext nowhere w w' → w_next w <= rb →
     (data_of r = [] ∧ d = Null ∧ buf = (Null, 0) ∨
      ∃ db nb, data_of r ≠ [] ∧ d = Addr p db 0 ∧ w_next w <= db ∧ db ≠ rb ∧
        buf = (Addr p nb 0, Z.of_nat (length (data_of r))) ∧ w_next w <= nb ∧ nb ≠ rb ∧ nb ≠ db ∧
        valid w' nb 0 1) →
     wp (k (Addr p rb 0) buf) p w' Q) →
  wp (req <- RequestMsg_create REQUEST_MSG;;
      copy_field req RequestMsg_sender_task_id (Addr p b 0) Task_taskID;;;
      b <- with_local sizeof_SelectInfo (λ sel_data,
           with_local sizeof_StudentInfo (λ student_data,
             ClientTask_request req_type i req sel_data student_data));;
      (if decide (b.1 = Null) then ret tt else call_RequestMsg_setData req b.1 b.2);;;
      k req b) p w Q.
Proof.
  intros Hok Hid Hr Hk. pose proof (mb_fresh _ _ _ _ Hok Hid) as Hb. apply wp_bind. apply RequestMsg_create_wp; [done|].
  intros w1 Ho1 He1 Hn1. set (rb := w_next w) in *. pose proof (ext_wok _ _ _ He1 Hok) as Hok1.
  assert (valid w1 rb 0 88) as Hv1 by exact (proj1 Ho1).
  apply wp_bind. eapply wp_copy_field; [eapply mb_extF; [exact He1|intros ? _ []|exact Hid]|by autorewrite with len| |].
  { autorewrite with len. eapply valid_le; [exact Hv1|off|off]. }
  set (w2 := upd w1 rb _ _).
  assert (obj_at w2 p rb 0 (Msg REQUEST_MSG sizeof_RequestMsg (BReq t (-1) [])) Null) as Ho2.
  { eapply request_sender; [exact Ho1| |apply mb_upd_same].
    - eapply ext_upd; [|apply ext_refl]. intros ? ? _ Hi. autorewrite with len in Hi. done.
    - autorewrite with len. eapply valid_le; [exact Hv1|off|off]. }
  assert (wok w2) as Hok2.
  { eapply (ext_wok (λ _ _, True)); [|exact Hok1]. eapply ext_upd; [done|apply ext_refl]. }
  assert (ext nowhere w w2) as He2 by (eapply ext_upd; [new_block|exact He1]).
  assert (w_next w2 = w_next w1) as Hn2 by apply upd_next. clearbody w2.
  apply wp_bind. eapply wp_mono; [apply (fill_request_wp p w2 req_type i rb r Hok2 (proj1 Ho2) Hr)|].
  cbv beta. intros buf w3 (He3 & Hrt & Hbuf). pose proof (ext_wok _ _ _ He3 Hok2) as Hok3.
  pose proof (request_type _ _ _ _ _ _ _ _ _ Ho2 He3 Hrt) as Ho3.
  assert (ext nowhere w w3) as Hw3.
  { eapply ext_trans_old; [|exact He2|exact He3]. intros b' k' j Hk' [-> _]. by rewrite Hok in Hk' by lia. }
  pose proof (ext_next _ _ _ He3) as Hn3.
  destruct Hbuf as [[Hd ->]|(nb & -> & Hnb & Hd & Hm)]; cbn [fst snd]; apply wp_bind.
  - rewrite decide_True by done. apply wp_ret. apply (Hk w3 rb (Null, 0) Null); [|done|lia|by left].
    unfold request_msg. rewrite Hd. exact Ho3.
  - rewrite decide_False by done.
    assert (Z.of_nat (length (data_of r)) <= 48) as Hl.
    { revert Hr. unfold client_request. intros ?. repeat case_match; simplify_eq; by vm_compute. }
    eapply RequestMsg_setData_wp; [done|exact Ho3|exact Hm|lia|unfold sizeof_RequestMsg; lia|lia|].
    intros w4 Ho4 He4. pose proof (mb_fresh _ _ _ _ Hok3 Hm).
    eapply (Hk w4 rb _ (Addr p (w_next w3) 0)); [exact Ho4| |lia|].
    + eapply ext_trans_old; [|exact Hw3|exact He4]. intros b' k' j Hk' [-> _]. by rewrite Hok in Hk' by lia.
    + right. exists (w_next w3), nb. split_and!; try done; try lia.
      apply mb_valid in Hm. eapply valid_extF; [exact He4|]. eapply valid_le; [exact Hm|lia|].
      destruct (data_of r); [done|cbn; lia].
Qed.

(** ** One turn of the client *)

Section client.
Context (p : Z) (Comm : ptr) `{!Transport p Comm}.

Lemma request_msg_ok t req_type i r :
  client_request req_type i = Some r →
  msg_ok (request_msg t (sizeof_RequestMsg + Z.of_nat (length (data_of r))) r) ∧ Z.of_nat (length (data_of r)) <= 48.
Proof.
  intros Hr. assert (Z.of_nat (length (data_of r)) <= 48) as Hl.
  { revert Hr. unfold client_request. intros ?. repeat case_match; simplify_eq; by vm_compute. }
  split; [|done]. unfold request_msg, msg_ok. cbn [m_tag m_body m_size body_ok payload sizeof_of].
  unfold is_s32, REQUEST_MSG, sizeof_RequestMsg. lia.
Qed.

(** The client has what it needs: itself, the mail, and the old rooms. *)
Definition asked (w0 w : world) (b t : Z) (M : gmap Z (list msg)) (db_id : Z) : Prop :=
  ext (λ b' _, tr_own b') w0 w ∧ mail w M ∧ task_at p Comm w b t ∧
  ∀ t' n, t' ≠ db_id → has_room w0 t' n → has_room w t' n.

Lemma asked_free w0 w b t M db_id nb :
  wok w0 → (∀ b', w_next w0 <= b' → ¬ tr_own b') → b < w_next w0 → w_next w0 <= nb →
  asked w0 w b t M db_id → asked w0 (set_blocks (delete nb) w) b t M db_id.
Proof.
  intros Hok Hfresh Hb Hnb (Hx1 & Hx2 & (Hx3 & Hx4 & Hx56) & Hx7). split; [|split; [|split]].
  - by apply ext_free.
  - apply mail_free; [by apply Hfresh|done].
  - split; [|split; [apply mb_free; [lia|done]|done]].
    intros b' Hb'. cbn in *. rewrite lookup_delete. case_match; [done|by apply Hx3].
  - intros t' n Hne Hn. apply room_free; [by apply Hfresh|by apply Hx7].
Qed.

Lemma asked_wait w0 w b t M db_id :
  asked w0 w b t M db_id →
  wp (ClientTask_message_wait Comm (Addr p b 0)) p w (λ _ w', asked w0 w' b t M db_id).
Proof.
  intros Ha. pose proof Ha as (_ & HM & (_ & Hid & _ & Ht) & _).
  unfold ClientTask_message_wait, Task_message_wait. apply wp_bind.
  eapply wp_get_int; [exact Hid|]. eapply wp_mono; [by eapply wait_spec|]. by intros _ w' ->.
Qed.

(** What the client still holds once the request was made. *)
Definition made (w0 w : world) (rb : Z) (r : request) (buf : ptr * Z) (d : ptr) : Prop :=
  w_next w0 <= rb ∧
  (data_of r = [] ∧ d = Null ∧ buf = (Null, 0) ∨
   ∃ db nb, data_of r ≠ [] ∧ d = Addr p db 0 ∧ w_next w0 <= db ∧ db ≠ rb ∧
     buf = (Addr p nb 0, Z.of_nat (length (data_of r))) ∧ w_next w0 <= nb ∧ nb ≠ rb ∧ nb ≠ db ∧ valid w nb 0 1).

(** Sending the request, freeing the buffer and the request. *)
Lemma post_request_wp w0 w b t M db_id ms req_type i r rb buf d :
  task_at p Comm w0 b t → ext nowhere w0 w → mail w0 M → M !! db_id = Some ms → has_room w0 db_id (sizeof_RequestMsg + 48) →
  client_request req_type i = Some r →
  obj_at w p rb 0 (request_msg t (sizeof_RequestMsg + Z.of_nat (length (data_of r))) r) d → made w0 w rb r buf d →
  wp (ClientTask_send Comm (Addr p b 0) (Addr p rb 0) db_id;;;
      (if decide (buf.1 = Null) then ret tt else free buf.1);;;
      call_destroy (Addr p rb 0);;; ClientTask_message_wait Comm (Addr p b 0)) p w (λ _ w',
    asked w0 w' b t
      (<[db_id := ms ++ [request_msg t (sizeof_RequestMsg + Z.of_nat (length (data_of r))) r]]> M) db_id).
Proof.
  intros Htk He0 HM0 Hms Hroom0 Hr Ho [Hrb Hbuf]. destruct (request_msg_ok t _ _ _ Hr) as [Hmok Hl].
  pose proof Htk as (Hok0 & Hid0 & _). pose proof (mb_fresh _ _ _ _ Hok0 Hid0) as Hb.
  assert (∀ b', w_next w0 <= b' → ¬ tr_own b') as Hfresh by (intros b' Hb'; by eapply (mail_fresh p Comm)).
  assert (∀ b', tr_own b' ∨ b' = rb → arr_sep d (data_of r) b') as Hsep.
  { intros b' Hb'. destruct Hbuf as [(-> & _)|(db & nb & _ & -> & Hdb & ? & _)]; [by left|right]. cbn. intros [= <-].
    destruct Hb' as [Hb'|?]; [by eapply Hfresh|done]. }
  set (m := request_msg t _ r) in *.
  apply wp_bind. unfold ClientTask_send, Task_send.
  eapply wp_mono; [apply (send_spec w M db_id ms rb m d)|].
  - eapply mail_ext; [exact He0|intros ? ? _ []|exact HM0].
  - exact Hms.
  - eapply room_ext; [exact He0|intros ? ? _ []|]. eapply room_le; [|exact Hroom0]. cbn. lia.
  - exact Ho.
  - exact Hmok.
  - by intros [].
  - by apply Hfresh.
  - intros b' Hb'. apply Hsep. by left.
  - apply Hsep. by right.
  - cbv beta. intros a w1 (_ & HM1 & Ho1 & He1 & Hroom1). set (M1 := <[db_id:=_]> M) in *.
    assert (asked w0 w1 b t M1 db_id) as HP1.
    { assert (ext (λ b' _, tr_own b') w0 w1) as He01.
      { eapply ext_trans; [|exact He1]. by eapply ext_weaken; [|exact He0]. }
      split_and!; [done|done|by eapply task_comm|]. intros t' n Hne Hn. apply Hroom1; [done|].
      eapply room_ext; [exact He0|intros ? ? _ []|done]. }
    assert (∀ w' nb', w_next w0 <= nb' → asked w0 w' b t M1 db_id → asked w0 (set_blocks (delete nb') w') b t M1 db_id) as Hfree.
    { intros w' nb' ?. by apply asked_free. }
    apply wp_bind. destruct Hbuf as [(Hnil & -> & ->)|(db & nb & Hne & -> & Hdb & Hdr & -> & Hnb & Hnr & Hnd & Hv)]; cbn [fst snd].
    + rewrite decide_True by done. apply wp_ret, wp_bind. apply (destroy_request_wp _ _ _ m Null (data_of r)); [exact Ho1|by do 2 eexists|].
      left. split_and!; [done|done|]. apply asked_wait. by apply Hfree.
    + rewrite decide_False by done.
      destruct (valid_block _ _ _ _ (valid_extF _ _ _ _ _ _ He1 Hv)) as [kn Hkn]. eapply wp_free; [exact Hkn|].
      apply wp_bind. apply (destroy_request_wp _ _ _ m (Addr p db 0) (data_of r)); [|by do 2 eexists|].
      { apply obj_free; [done| |exact Ho1]. right. by intros [= ->]. }
      right. exists db. split_and!; [done|done|done|]. apply asked_wait. do 2 (apply Hfree; [done|]). by apply Hfree.
Qed.

Lemma ask_wp w b t M db_id ms req_type i r :
  task_at p Comm w b t → mail w M → M !! db_id = Some ms → has_room w db_id (sizeof_RequestMsg + 48) →
  client_request req_type i = Some r →
  wp (ClientTask_ask req_type Comm (Addr p b 0) db_id i) p w (λ _ w',
    asked w w' b t
      (<[db_id := ms ++ [request_msg t (sizeof_RequestMsg + Z.of_nat (length (data_of r))) r]]> M) db_id).
Proof.
  intros Htk HM Hms Hroom Hr. pose proof Htk as (Hok & Hid & _). unfold ClientTask_ask.
  eapply (make_request_wp _ _ _ _ _ _ _ (λ req b', ClientTask_send Comm (Addr p b 0) req db_id;;;
    (if decide (b'.1 = Null) then ret tt else free b'.1);;; call_destroy req;;; ClientTask_message_wait Comm (Addr p b 0)));
    [done|exact Hid|exact Hr|].
  intros w' rb buf d Ho He Hrb Hbuf. by eapply post_request_wp.
Qed.

(** The client takes the response out of its queue. *)
Lemma client_receive_wp fuel w b t M ms code l :
  task_at p Comm w b t → mail w M → M !! t = Some (response_msg code l :: ms) →
  wp (ClientTask_receive fuel Comm (Addr p b 0)) p w (λ _ w',
    ext (λ b' _, tr_own b') w w' ∧ mail w' (<[t := ms]> M) ∧ task_at p Comm w' b t).
Proof.
  intros Htk HM HMt. unfold ClientTask_receive. apply wp_bind.
  eapply wp_mono; [by eapply wait_tag_wp|]. cbv beta. intros a w1 (-> & HM1 & Hop & Htk1 & He1 & _).
  cbn [m_tag response_msg Z.eqb RESPONSE_MSG REQUEST_MSG Pos.eqb]. apply wp_bind.
  eapply wp_mono; [by eapply receive_mine_wp|]. cbv beta.
  intros a w2 (HM2 & Htk2 & He2 & _). apply wp_ret. split_and!; [by eapply ext_trans|done|done].
Qed.

End client.
