(* ===== verification/Exchange.v ===== *)
(** * Exchanges between a client and the database

    The client of [DatabaseClient] runs in one process, the database of
    [DatabaseServer] in another one, each with its own system object, over the
    same queues.  An exchange is a turn of the loop of the client with the turn of
    the loop of the database that serves it: [exchanges_refine] shows that any
    number of exchanges goes through and leaves the table that [answer] says. *)

From S2P Require Import Prelude CMem CLogic Messages MessageSpec Ring CircularMsgQ CircularSpec Demo.
From S2P Require Import QueueProps System SystemSpec Repository TimeHelper Tasks Transport.
From S2P Require Import Database DatabaseSpec DatabaseProps DatabaseServer DatabaseClient.
From stdpp Require Import base numbers list strings gmap.
From Stdlib Require Import Lia.
#[local] Open Scope Z_scope.
#[local] Open Scope ts_scope.

(** ** The schedule *)

(** Process [p] runs [c] to its end. *)
Definition step_as {A} (p : Z) (c : M A) (w : world) : option world :=
  match c p w with Ok _ w' => Some w' | _ => None end.

Lemma wp_step {A} (c : M A) p w Q : wp c p w Q → ∃ a w', step_as p c w = Some w' ∧ Q a w'.
Proof. intros (a & w' & E & H)%wp_run. exists a, w'. unfold step_as. by rewrite E. Qed.

(** A process with its system object, and the task it runs: the block of its
    struct and its id. *)
Record peer := Peer { pe_proc : Z; pe_sys : Z; pe_block : Z; pe_id : Z }.

Definition pe_comm (x : peer) : ptr := Addr (pe_proc x) (pe_sys x) 0.
Definition pe_this (x : peer) : ptr := Addr (pe_proc x) (pe_block x) 0.

Definition exchange (fuel : nat) (cl db : peer) (req_type i : Z) (w : world) : option world :=
  w1 ← step_as (pe_proc cl) (ClientTask_ask req_type (pe_comm cl) (pe_this cl) (pe_id db) i) w;
  w2 ← step_as (pe_proc db) (DatabaseTask_serve fuel (pe_comm db) (pe_this db)) w1;
  step_as (pe_proc cl) (ClientTask_receive fuel (pe_comm cl) (pe_this cl)) w2.

(** The turns [i], [i + 1], ... of the client. *)
Fixpoint exchanges (fuel : nat) (cl db : peer) (req_type : Z) (n : nat) (i : Z) (w : world) : option world :=
  match n with
  | O => Some w
  | S n => w' ← exchange fuel cl db req_type i w; exchanges fuel cl db req_type n (i + 1) w'
  end.

(** ** The specification *)

Fixpoint table_after (req_type : Z) (n : nat) (i : Z) (sts : list student) : list student :=
  match n, client_request req_type i with
  | S n, Some r => table_after req_type n (i + 1) (answer sts r).1.1
  | _, _ => sts
  end.

(** ** One process after the other *)

(** What one process did to the queues, seen by another process: its own slots did
    not change. *)
Lemma mail_other F p1 s1 p2 s2 Qs w w' M M' :
  ext F w w' → (∀ i, ¬ F s2 i) → all_mail p2 s2 Qs w M → all_mail p1 s1 Qs w' M' → all_mail p2 s2 Qs w' M'.
Proof.
  intros He HF (Hc & Hdom & Hw) (_ & Hdom' & Hw'). split_and!; [by eapply calls_ext|done|].
  intros t q ms' Ht Hms'. destruct (proj1 (Hdom t) ltac:(by eexists)) as [ms Hms].
  destruct (Hw _ _ _ Ht Hms) as (_ & (v & Hv & Ha) & _). destruct (Hw' _ _ _ Ht Hms') as (Hu & _ & Hr).
  split; [done|]. split; [|done]. exists v. split; [by eapply slot_ext|].
  by rewrite (acquired_env _ _ _ _ _ (ext_env _ _ _ He)).
Qed.

Section session.
Context (Qs : gmap Z Z) (cl db : peer).
Context (Hcl : table_ok (pe_sys cl) Qs) (Hdb : table_ok (pe_sys db) Qs).

(** The objects are different ones. *)
Definition peers_ok : Prop :=
  pe_sys cl ≠ pe_sys db ∧ pe_sys cl ≠ pe_block db ∧ pe_block cl ≠ pe_sys db ∧ pe_block cl ≠ pe_block db ∧
  pe_sys cl ≠ pe_block cl ∧ pe_sys db ≠ pe_block db ∧
  (∀ t q, Qs !! t = Some q → q ≠ pe_block cl ∧ q ≠ pe_block db) ∧
  pe_id cl ≠ pe_id db ∧ is_s32 (pe_id cl) ∧ is_s32 (pe_id db).

Instance cl_transport : Transport (pe_proc cl) (pe_comm cl) := System_transport (pe_proc cl) (pe_sys cl) Qs Hcl.
Instance db_transport : Transport (pe_proc db) (pe_comm db) := System_transport (pe_proc db) (pe_sys db) Qs Hdb.

(** Both processes see the messages [M], and the table holds [sts]. *)
Definition joint (w : world) (sts : list student) (M : gmap Z (list msg)) : Prop :=
  peers_ok ∧ wok w ∧ mb w (pe_block cl) (0 + f_off Task_taskID) (enc_i32 (pe_id cl)) ∧
  mb w (pe_block db) (0 + f_off Task_taskID) (enc_i32 (pe_id db)) ∧ db_at w (pe_block db) sts ∧
  all_mail (pe_proc cl) (pe_sys cl) Qs w M ∧ all_mail (pe_proc db) (pe_sys db) Qs w M.

(** Between two exchanges no message waits for the client or for the database. *)
Definition session (w : world) (sts : list student) : Prop :=
  ∃ M, joint w sts M ∧ M !! pe_id cl = Some [] ∧ M !! pe_id db = Some [].

(** What the communication system of one peer writes is not the other peer's. *)
Lemma own_cl b : peers_ok → own (pe_sys cl) Qs b → b ≠ pe_sys db ∧ b ≠ pe_block db ∧ b ≠ pe_block cl.
Proof.
  intros (H1 & H2 & H3 & H4 & H5 & H6 & Hq & _) [->|[t Ht]]; [done|].
  split_and!; [|by apply (Hq t)|by apply (Hq t)]. by apply (proj1 Hdb t).
Qed.

Lemma own_db b : peers_ok → own (pe_sys db) Qs b → b ≠ pe_sys cl ∧ b ≠ pe_block db ∧ b ≠ pe_block cl.
Proof.
  intros (H1 & H2 & H3 & H4 & H5 & H6 & Hq & _) [->|[t Ht]]; [done|].
  split_and!; [|by apply (Hq t)|by apply (Hq t)]. by apply (proj1 Hcl t).
Qed.

(** The task of the client and of the database, under their own transports. *)
Lemma joint_task w sts M : joint w sts M → task_at (pe_proc cl) (pe_comm cl) w (pe_block cl) (pe_id cl).
Proof.
  intros (Hp & Hok & Hid & _). pose proof Hp as (_ & _ & _ & _ & _ & _ & _ & _ & Hc & _).
  split_and!; [done|done| |done]. intros Hown. by apply own_cl in Hown as (_ & _ & ?).
Qed.

Lemma joint_server w sts M :
  joint w sts M → server (pe_proc db) (pe_comm db) w (pe_block db) (pe_id db) sts.
Proof.
  intros (Hp & Hok & _ & Hid & Hdb' & _). split_and!; [done|done|done|].
  intros Hown. by apply own_db in Hown as (_ & ? & _).
Qed.

(** The client used its communication system. *)
Lemma joint_cl w w' sts M M' :
  joint w sts M → ext (λ b _, own (pe_sys cl) Qs b) w w' → all_mail (pe_proc cl) (pe_sys cl) Qs w' M' → joint w' sts M'.
Proof.
  intros (Hp & Hok & Hc & Hd & Ht & _ & HMd) He HM'.
  assert (∀ b, own (pe_sys cl) Qs b → b ≠ pe_sys db ∧ b ≠ pe_block db ∧ b ≠ pe_block cl) as Hcd by (intros b; by apply own_cl).
  split; [done|]. split; [by eapply ext_wok|]. split; [|split; [|split; [|split; [done|]]]].
  - eapply mb_extF; [exact He| |exact Hc]. intros j _ Hj. by apply Hcd in Hj as (_ & _ & ?).
  - eapply mb_extF; [exact He| |exact Hd]. intros j _ Hj. by apply Hcd in Hj as (_ & ? & _).
  - eapply db_ext; [exact He| |exact Ht]. intros j Hj. by apply Hcd in Hj as (_ & ? & _).
  - eapply mail_other; [exact He| |exact HMd|exact HM']. intros j Hj. by apply Hcd in Hj as [? _].
Qed.

Lemma ask_step w sts M req_type i r :
  joint w sts M → M !! pe_id db = Some [] → client_request req_type i = Some r →
  ∃ w', step_as (pe_proc cl) (ClientTask_ask req_type (pe_comm cl) (pe_this cl) (pe_id db) i) w = Some w' ∧
    joint w' sts (<[pe_id db := [request_msg (pe_id cl) (sizeof_RequestMsg + Z.of_nat (length (data_of r))) r]]> M).
Proof.
  intros HJ He Hr. pose proof HJ as (_ & _ & _ & _ & _ & HM & _).
  destruct (wp_step _ _ _ _ (ask_wp (pe_proc cl) (pe_comm cl) w _ _ M (pe_id db) [] req_type i r (joint_task _ _ _ HJ) HM He
    (task_room_empty _ _ _ w M _ (sizeof_RequestMsg + 48) HM He ltac:(done)) Hr)) as ([] & w1 & E & He1 & HM1 & _).
  exists w1. split; [exact E|]. by eapply joint_cl.
Qed.

Lemma serve_step fuel w sts M size r :
  joint w sts M → M !! pe_id db = Some [request_msg (pe_id cl) size r] → M !! pe_id cl = Some [] → request_ok r →
  ∃ w' l, step_as (pe_proc db) (DatabaseTask_serve fuel (pe_comm db) (pe_this db)) w = Some w' ∧
    carries (answer sts r).2 l ∧
    joint w' (answer sts r).1.1 (<[pe_id cl := [response_msg (answer sts r).1.2 l]]> (<[pe_id db := []]> M)).
Proof.
  intros HJ Hd Hc Hr. pose proof HJ as (Hp & _ & Hidc & _ & _ & HMc & HMd).
  pose proof Hp as (_ & Hsb & _ & Hbb & _ & _ & _ & Hne & Hic & Hid).
  destruct (wp_step _ _ _ _ (serve_wp (pe_proc db) (pe_comm db) fuel w _ _ sts M (pe_id cl) _ r [] []
    (joint_server _ _ _ HJ) Hid Hic Hne Hr HMd Hd Hc
    (task_room_empty _ _ _ w M _ (sizeof_ResponseMsg + 48) HMd Hc ltac:(done))))
    as ([] & w2 & E & l & (Hok2 & Ht2 & Hid2 & _) & Hl & HM2 & He2).
  exists w2, l. split; [exact E|]. split; [exact Hl|].
  assert (∀ b i, serve_foot (pe_proc db) (pe_comm db) (pe_block db) b i → b ≠ pe_sys cl ∧ b ≠ pe_block cl) as Hsf.
  { intros b j [Hj|[-> _]]; [by apply own_db in Hj as (? & _ & ?)|done]. }
  split; [done|]. split; [done|]. split; [|split; [done|split; [done|split; [|done]]]].
  - eapply mb_extF; [exact He2| |exact Hidc]. intros j _ Hj. by apply Hsf in Hj as [_ ?].
  - eapply mail_other; [exact He2| |exact HMc|exact HM2]. intros j Hj. by apply Hsf in Hj as [? _].
Qed.

Lemma receive_step fuel w sts M code l :
  joint w sts M → M !! pe_id cl = Some [response_msg code l] →
  ∃ w', step_as (pe_proc cl) (ClientTask_receive fuel (pe_comm cl) (pe_this cl)) w = Some w' ∧
    joint w' sts (<[pe_id cl := []]> M).
Proof.
  intros HJ Hc. pose proof HJ as (_ & _ & _ & _ & _ & HM & _).
  destruct (wp_step _ _ _ _ (client_receive_wp (pe_proc cl) (pe_comm cl) fuel w _ _ M [] _ _ (joint_task _ _ _ HJ) HM Hc))
    as ([] & w' & E & He & HM' & _).
  exists w'. split; [exact E|]. by eapply joint_cl.
Qed.

Lemma exchange_step fuel w sts req_type i r :
  session w sts → client_request req_type i = Some r → is_s64 i →
  ∃ w', exchange fuel cl db req_type i w = Some w' ∧ session w' (answer sts r).1.1.
Proof.
  intros (M & HJ & Hc & Hd) Hr Hi. pose proof (client_request_ok _ _ _ Hr Hi) as Hrok.
  pose proof HJ as ((_ & _ & _ & _ & _ & _ & _ & Hne & _) & _). unfold exchange.
  destruct (ask_step _ _ _ _ _ _ HJ Hd Hr) as (w1 & -> & HJ1). cbn [mbind option_bind].
  destruct (serve_step fuel _ _ _ _ _ HJ1 (lookup_insert_eq _ _ _) ltac:(by rewrite lookup_insert_ne) Hrok)
    as (w2 & l & -> & _ & HJ2). cbn [mbind option_bind].
  destruct (receive_step fuel _ _ _ _ _ HJ2 (lookup_insert_eq _ _ _)) as (w3 & -> & HJ3).
  exists w3. split; [done|]. eexists. split; [exact HJ3|]. split; [apply lookup_insert_eq|].
  by rewrite !lookup_insert_ne, lookup_insert_eq by done.
Qed.

End session.

(** The student that the client inserts in turn [i]. *)
Definition inserted (i : Z) : student := Stu i client_name (enc_i32 float_4_3).

Lemma seqZ_S i n : seqZ i (Z.of_nat (S n)) = i :: seqZ (i + 1) (Z.of_nat n).
Proof. rewrite seqZ_cons by lia. f_equal. f_equal; lia. Qed.

(** Insertions fill the table up to its capacity; the others are refused. *)
Lemma table_after_insertions n i sts :
  Z.of_nat (length sts) <= MAX_STUDENT →
  table_after 2 n i sts = take (Z.to_nat MAX_STUDENT) (sts ++ (inserted <$> seqZ i (Z.of_nat n))).
Proof.
  revert i sts. induction n as [|n IH]; intros i sts Hl.
  - cbn [table_after seqZ fmap]. rewrite app_nil_r. symmetry. apply take_ge. lia.
  - rewrite seqZ_S, fmap_cons, cons_middle, app_assoc. cbn [table_after client_request Z.eqb Pos.eqb answer].
    case_decide as Hd; cbn [fst snd].
    + apply IH. rewrite length_app. cbn [length]. lia.
    + rewrite IH by done. rewrite <- app_assoc, !take_app_le by lia. done.
Qed.

(** C2. Turns of a client that asks for one kind of request, a selection, an
    insertion or a ping (types 1, 2 and 4 of [ClientTask.c]; a deletion faults,
    [delete_overflows]), when no message waits for either task: any number of
    them, up to the range of the [int] that counts them, each followed by the
    turn of the database that serves it, go through; no step fails, no message
    is lost or left over, and the table is what [answer] makes of the requests
    in order. *)
Theorem exchanges_refine Qs cl db fuel req_type n i w sts :
  table_ok (pe_sys cl) Qs → table_ok (pe_sys db) Qs → session Qs cl db w sts →
  req_type ∈ [1; 2; 4] → 0 <= i → i + Z.of_nat n <= 2147483648 →
  ∃ w', exchanges fuel cl db req_type n i w = Some w' ∧ session Qs cl db w' (table_after req_type n i sts).
Proof.
  intros Hcl Hdb Hs Hrt. revert i w sts Hs. induction n as [|n IH]; intros i w sts Hs Hi Hn; [by exists w|].
  cbn [exchanges table_after].
  assert (is_Some (client_request req_type i)) as [r Hr].
  { unfold client_request. rewrite !elem_of_cons, elem_of_nil in Hrt. destruct Hrt as [->|[->|[->|[]]]]; by eexists. }
  destruct (exchange_step Qs cl db Hcl Hdb fuel w sts req_type i r Hs Hr ltac:(unfold is_s64; lia)) as (w' & -> & Hs').
  cbn [mbind option_bind]. rewrite Hr. apply IH; [done|lia|lia].
Qed.

(** ** A client and a database *)

(** Process 1: the system object, the queue of task 1 and an empty database;
    process 2: client task 2 with its queue. *)
Definition demo_client_init : M unit :=
  Comm <- malloc sizeof_System;; System_initialize Comm;;; createMsgQ Comm 2;;;
  c <- malloc sizeof_ClientTask;; set_int c Task_taskID 2.

Definition demo_pair : world := Eval vm_compute in
  state_of demo_client_init 2 (state_of demo_srv_1 1 (world_init 0 [] [])).

Definition demo_db : peer := Peer 1 1 3 1.
Definition demo_cl : peer := Peer 2 4 6 2.
Definition demo_empty_mail : gmap Z (list msg) := {[1 := []; 2 := []]}.

(** Two processes with the queues 2 and 5, and no message. *)
Lemma demo_two_mail w p s :
  calls w p s → (∀ q, q = 2 ∨ q = 5 → q_inv w q (ring_empty sizeof_Queue)) →
  (∀ t q, demo_queues !! t = Some q → unlocked w q ∧ ∃ v, slot w s t v ∧ acquired p w t v = Addr p q 0) →
  all_mail p s demo_queues w demo_empty_mail.
Proof.
  intros Hc Hqs Hs. split; [done|]. split.
  - intros t. unfold demo_queues, demo_empty_mail. rewrite !lookup_insert_is_Some, !lookup_singleton_is_Some. done.
  - intros t q ms Ht Hm. destruct (Hs _ _ Ht) as [Hu Hv]. split; [done|]. split; [done|]. exists (ring_empty sizeof_Queue).
    apply demo_queue in Ht as [[-> ->]|[-> ->]]; (split; [apply Hqs; auto|]);
      unfold demo_empty_mail in Hm; [rewrite lookup_insert_eq in Hm|rewrite lookup_insert_ne, lookup_singleton_eq in Hm by done];
      by injection Hm as <-.
Qed.

Lemma demo_pair_queue q : q = 2 ∨ q = 5 → q_inv demo_pair q (ring_empty sizeof_Queue).
Proof. intros [->| ->]; apply q_inv_empty; by_eval. Qed.

Lemma demo_cl_table : table_ok (pe_sys demo_cl) demo_queues.
Proof.
  split; [intros t q Ht%demo_queue; cbn; lia|]. intros t t' q Ht%demo_queue Ht'%demo_queue. lia.
Qed.

Lemma demo_session : session demo_queues demo_cl demo_db demo_pair [].
Proof.
  exists demo_empty_mail. split; [|by split]. split.
  { split_and!; try by_eval. all: intros t q Ht%demo_queue; cbn; lia. }
  split; [apply wokb_spec; vm_compute; reflexivity|]. split; [by_eval|]. split; [by_eval|]. split.
  { split; [by_eval|]. split; [by_eval|]. split; [by_eval|]. by split; [constructor|]. }
  split; (apply demo_two_mail; [unfold calls; by_eval|apply demo_pair_queue|]);
    intros t q [[-> ->]|[-> ->]]%demo_queue; (split; [by_eval|]).
  - exists Null. by_eval.
  - exists (Addr 2 5 0). by_eval.
  - exists (Addr 1 2 0). by_eval.
  - exists Null. by_eval.
Qed.

Lemma exchanges_refine_witness :
  ∃ w', exchanges 3 demo_cl demo_db 2 3 0 demo_pair = Some w' ∧
    session demo_queues demo_cl demo_db w'
      [Stu 0 client_name (enc_i32 float_4_3); Stu 1 client_name (enc_i32 float_4_3); Stu 2 client_name (enc_i32 float_4_3)].
Proof.
  destruct (exchanges_refine demo_queues demo_cl demo_db 3 2 3 0 demo_pair [] demo_cl_table demo_table demo_session
    ltac:(right; left) ltac:(done) ltac:(done)) as (w' & E & Hs).
  exists w'. split; [exact E|exact Hs].
Defined.
