(* ===== verification/Weather.v ===== *)
(** * The weather broadcast: WeatherStationTask and WeatherClientTask

    [src/Tasks/WeatherStationTask] takes its name from a message, registers it
    in the repository, keeps up to 50 subscribers and sends each one the weather
    every so many turns of its loop; [src/Tasks/WeatherClientTask] subscribes
    and prints what it is sent. *)

From S2P Require Import Prelude CMem Messages CircularMsgQ System TimeHelper Tasks.
From stdpp Require Import base numbers list strings gmap.
#[local] Open Scope Z_scope.
#[local] Open Scope ts_scope.

(** [enum {WEATHER_STATION_NAME_MSG, SUB_MSG, POST_WEATHER_MSG};] *)
Definition WEATHER_STATION_NAME_MSG : Z := 0.
Definition SUB_MSG : Z := 1.
Definition POST_WEATHER_MSG : Z := 2.

(** ** WeatherStationTask *)

Definition WeatherStationTask_struct : struct_decl :=
  task_members ++
  [("close_order", CInt); ("station_name", CArr CChar MAX_NAME_SIZE);
   ("sub_count", CInt); ("subs", CArr CInt 50)]%string.

Definition sizeof_WeatherStationTask := Eval vm_compute in struct_size WeatherStationTask_struct.
Definition WeatherStationTask_close_order :=
  Eval vm_compute in member WeatherStationTask_struct "close_order".
Definition WeatherStationTask_station_name :=
  Eval vm_compute in member WeatherStationTask_struct "station_name".
Definition WeatherStationTask_sub_count :=
  Eval vm_compute in member WeatherStationTask_struct "sub_count".
Definition WeatherStationTask_subs := Eval vm_compute in member WeatherStationTask_struct "subs".

(** [&this->subs[i]]. *)
Definition sub_at (this : ptr) (i : Z) : ptr :=
  idx_i32 (addr_of this WeatherStationTask_subs) i.

Definition WeatherStationTask_init (newRec : ptr) : M unit :=
  set_int newRec WeatherStationTask_close_order 0;;;
  set_int newRec WeatherStationTask_sub_count 0.

Definition WeatherStationTask_create (Comm : ptr) : M Z :=
  Task_create Comm sizeof_WeatherStationTask WeatherStationTask_init "WeatherStationTask.run".

Definition WeatherStationTask_send (Comm this data : ptr) (target : Z) : M Z :=
  Task_send Comm this data target.

Definition WeatherStationTask_message_notify (Comm this : ptr) : M unit := Task_message_notify Comm this.

Definition WeatherStationTask_message_wait (Comm this : ptr) : M unit := Task_message_wait Comm this.

Definition WeatherStationTask_message_immediate (Comm this : ptr) : M Z :=
  Task_message_immediate Comm this.

Definition WeatherStationTask_repository_set_name (Comm this name : ptr) : M unit :=
  Task_repository_set_name Comm this name.

Definition WeatherStationTask_repository_get_id (Comm this task_name : ptr) : M Z :=
  Task_repository_get_id Comm this task_name.

(** [strcpy] into the 30 characters of [station_name]: a longer name goes on
    into the members that follow. *)
Definition handle_WeatherStationNameMsg (this textMsg : ptr) : M unit :=
  m <- call_TextMsg_getMsg textMsg;;
  s <- load_str m;;
  printf "Weather station received name : %s" [AStr s];;;
  m' <- call_TextMsg_getMsg textMsg;;
  strcpy (addr_of this WeatherStationTask_station_name) m'.

Definition handle_SubMsg (this barMsg : ptr) : M unit :=
  new_sub_id <- call_BarMsg_getValue barMsg;;
  printf "Weather station new subcriber id : %d" [AInt new_sub_id];;;
  sub_count <- get_int this WeatherStationTask_sub_count;;
  if sub_count <? 50 then (
    st_i32 (sub_at this sub_count) new_sub_id;;;
    set_int this WeatherStationTask_sub_count (sub_count + 1))
  else printf "Weather station is at max sub count." [].

Definition WeatherStationTask_receive (fuel : nat) (Comm this : ptr) : M unit :=
  tag <- wait_tag fuel Comm this;;
  if tag =? WEATHER_STATION_NAME_MSG then
    (msg <- receive_mine Comm this;; handle_WeatherStationNameMsg this msg)
  else if tag =? SUB_MSG then
    (msg <- receive_mine Comm this;; handle_SubMsg this msg)
  else if tag =? POST_WEATHER_MSG then ret tt
  else no_handler Comm this tag.

(** Send the weather to every subscriber. *)
Definition WeatherStationTask_broadcast (Comm this : ptr) : M unit :=
  temp_msg <- IntArrayMsg_create POST_WEATHER_MSG;;
  taskID <- get_int this Task_taskID;;
  with_local 8 (λ vals,
    st_ints vals [taskID; 31];;; call_IntArrayMsg_setValues temp_msg 2 vals);;;
  sub_count <- get_int this WeatherStationTask_sub_count;;
  for_range 0 sub_count (λ i,
    sub <- ld_i32 (sub_at this i);;
    WeatherStationTask_send Comm this temp_msg sub;;; ret tt);;;
  call_destroy temp_msg.

(** One turn of the loop: [loop_count] before and after. *)
Definition WeatherStationTask_turn (fuel : nat) (Comm this : ptr) (loop_count : Z) : M Z :=
  immediate <- WeatherStationTask_message_immediate Comm this;;
  (if immediate =? 0 then WeatherStationTask_receive fuel Comm this else ret tt);;;
  let loop_count := loop_count + 1 in
  if Z.rem loop_count 10000000 =? 0 then
    (WeatherStationTask_broadcast Comm this;;; ret 0)
  else ret loop_count.

Fixpoint WeatherStationTask_loop (fuel turns : nat) (Comm this : ptr) (loop_count : Z)
    : M unit :=
  close_order <- get_int this WeatherStationTask_close_order;;
  if close_order =? 0 then
    match turns with
    | O => spin
    | S turns' =>
        loop_count' <- WeatherStationTask_turn fuel Comm this loop_count;;
        WeatherStationTask_loop fuel turns' Comm this loop_count'
    end
  else ret tt.

Definition WeatherStationTask_start (fuel turns : nat) (done : ptr) (Comm this : ptr) : M unit :=
  printf "Weather station task has been started" [];;;
  WeatherStationTask_receive fuel Comm this;;;
  WeatherStationTask_repository_set_name Comm this
    (addr_of this WeatherStationTask_station_name);;;
  WeatherStationTask_loop fuel turns Comm this 0;;;
  st_i32 done 1.

Definition WeatherStationTask_run (fuel turns : nat) (done : ptr)
    (Comm WeatherStationTaskRef : ptr) : M unit :=
  Task_run (WeatherStationTask_start fuel turns done Comm) WeatherStationTaskRef.

(** ** WeatherClientTask *)

Definition WeatherClientTask_struct : struct_decl :=
  task_members ++
  [("close_order", CInt); ("station_name", CArr CChar MAX_NAME_SIZE)]%string.

Definition sizeof_WeatherClientTask := Eval vm_compute in struct_size WeatherClientTask_struct.
Definition WeatherClientTask_close_order :=
  Eval vm_compute in member WeatherClientTask_struct "close_order".
Definition WeatherClientTask_station_name :=
  Eval vm_compute in member WeatherClientTask_struct "station_name".

Definition WeatherClientTask_init (newRec : ptr) : M unit :=
  set_int newRec WeatherClientTask_close_order 0.

Definition WeatherClientTask_create (Comm : ptr) : M Z :=
  Task_create Comm sizeof_WeatherClientTask WeatherClientTask_init "WeatherClientTask.run".

Definition WeatherClientTask_send (Comm this data : ptr) (target : Z) : M Z :=
  Task_send Comm this data target.

Definition WeatherClientTask_message_notify (Comm this : ptr) : M unit := Task_message_notify Comm this.

Definition WeatherClientTask_message_wait (Comm this : ptr) : M unit := Task_message_wait Comm this.

Definition WeatherClientTask_message_immediate (Comm this : ptr) : M Z :=
  Task_message_immediate Comm this.

Definition WeatherClientTask_repository_set_name (Comm this name : ptr) : M unit :=
  Task_repository_set_name Comm this name.

Definition WeatherClientTask_repository_get_id (Comm this task_name : ptr) : M Z :=
  Task_repository_get_id Comm this task_name.

Definition client_handle_WeatherStationNameMsg (this textMsg : ptr) : M unit :=
  m <- call_TextMsg_getMsg textMsg;;
  s <- load_str m;;
  printf "Weather client received station name : %s" [AStr s];;;
  m' <- call_TextMsg_getMsg textMsg;;
  strcpy (addr_of this WeatherClientTask_station_name) m'.

Definition handle_PostWeatherMsg (this intArrayMsg : ptr) : M unit :=
  id <- call_IntArrayMsg_getValue intArrayMsg 0;;
  deg <- call_IntArrayMsg_getValue intArrayMsg 1;;
  printf "Station id %d Weather %d C" [AInt id; AInt deg].

Definition WeatherClientTask_receive (fuel : nat) (Comm this : ptr) : M unit :=
  tag <- wait_tag fuel Comm this;;
  if tag =? WEATHER_STATION_NAME_MSG then
    (msg <- receive_mine Comm this;; client_handle_WeatherStationNameMsg this msg)
  else if tag =? SUB_MSG then ret tt
  else if tag =? POST_WEATHER_MSG then
    (msg <- receive_mine Comm this;; handle_PostWeatherMsg this msg)
  else no_handler Comm this tag.

(** The subscription with the station [station_id]. *)
Definition WeatherClientTask_subscribe_to (Comm this : ptr) (station_id : Z) : M unit :=
  sub_msg <- BarMsg_create SUB_MSG;;
  taskID <- get_int this Task_taskID;;
  call_BarMsg_setValue sub_msg taskID;;;
  WeatherClientTask_send Comm this sub_msg station_id;;;
  call_destroy sub_msg.

(** Up to the subscription. *)
Definition WeatherClientTask_subscribe (fuel : nat) (Comm this : ptr) : M unit :=
  printf "Weather client task has been started" [];;;
  WeatherClientTask_receive fuel Comm this;;;
  station_id <- WeatherClientTask_repository_get_id Comm this
    (addr_of this WeatherClientTask_station_name);;
  printf "Weather client got station id %d" [AInt station_id];;;
  WeatherClientTask_subscribe_to Comm this station_id.

(** [while (1) receive(this);]: [turns] of them, then out of fuel. *)
Fixpoint WeatherClientTask_loop (fuel turns : nat) (Comm this : ptr) : M unit :=
  match turns with
  | O => spin
  | S turns' =>
      WeatherClientTask_receive fuel Comm this;;;
      WeatherClientTask_loop fuel turns' Comm this
  end.

Definition WeatherClientTask_start (fuel turns : nat) (Comm this : ptr) : M unit :=
  WeatherClientTask_subscribe fuel Comm this;;;
  WeatherClientTask_loop fuel turns Comm this.

Definition WeatherClientTask_run (fuel turns : nat) (Comm WeatherClientTaskRef : ptr) : M unit :=
  Task_run (WeatherClientTask_start fuel turns Comm) WeatherClientTaskRef.

#[export] Hint Unfold WeatherStationTask_close_order WeatherStationTask_station_name
  WeatherStationTask_sub_count WeatherStationTask_subs WeatherClientTask_close_order
  WeatherClientTask_station_name sizeof_WeatherStationTask sizeof_WeatherClientTask : fields.
