(* ===== verification/WeatherProps.v ===== *)
(** * Properties of the weather station

    The subscribers and the name of a [WeatherStationTask]. *)

From S2P Require Import Prelude CMem CLogic Messages MessageSpec Ring CircularMsgQ CircularSpec Demo.
From S2P Require Import QueueProps System SystemSpec Repository TimeHelper Tasks Arrays Weather DatabaseSpec.
From stdpp Require Import base numbers list strings gmap.
From Stdlib Require Import Lia.
#[local] Open Scope Z_scope.
#[local] Open Scope ts_scope.

Definition MAX_SUBS : nat := 50.

(** The station at block [b] has the subscribers [subs]. *)
Definition station_at (w : world) (b : Z) (subs : list Z) : Prop :=
  valid w b 0 (Z.to_nat sizeof_WeatherStationTask) ∧ (length subs <= MAX_SUBS)%nat ∧
  mb w b (f_off WeatherStationTask_sub_count) (enc_i32 (Z.of_nat (length subs))) ∧
  mb w b (f_off WeatherStationTask_subs) (ints subs).

#[export] Instance station_at_dec w b subs : Decision (station_at w b subs).
Proof. unfold station_at. apply _. Defined.

Definition sub_msg_at (w : world) (p mb' mo v : Z) : Prop :=
  ∃ tag sz, obj_at w p mb' mo (Msg tag sz (BBar v)) Null.

(** What a step on block [b] that may print leaves: other memory as it was. *)
Definition touches (b : Z) (w w' : world) : Prop :=
  ∃ w1, ext (λ b' _, b' = b) w w1 ∧ w_blocks w' = w_blocks w1.

Lemma sub_msg_touches b w w' p m o v :
  touches b w w' → m ≠ b → sub_msg_at w p m o v → sub_msg_at w' p m o v.
Proof.
  intros (w1 & He & Hb) Hne (tag & sz & Ho). exists tag, sz. eapply frame_obj; [exact Hb|].
  eapply obj_extF; [done|exact He|by intros i|by left|exact Ho].
Qed.

Lemma touches_out b w e : touches b w (add_out e w).
Proof. exists w. split; [apply ext_refl|done]. Qed.

Lemma upd_blocks_cong w w' b o l : w_blocks w = w_blocks w' → w_blocks (upd w b o l) = w_blocks (upd w' b o l).
Proof. intros E. unfold upd. rewrite E. by destruct (w_blocks w' !! b); cbn; rewrite ?E. Qed.

(** The count of the subscribers and the members after it, of block [b]. *)
Definition subs_range (b : Z) : Z → Z → Prop := λ b' i, b' = b ∧ f_off WeatherStationTask_sub_count <= i.

Definition sub_line (v : Z) : string * list parg := ("Weather station new subcriber id : %d"%string, [AInt v]).

Lemma handle_SubMsg_wp p w b subs m o v :
  station_at w b subs → sub_msg_at w p m o v → is_s32 v →
  wp (handle_SubMsg (Addr p b 0) (Addr p m o)) p w (λ _ w',
    station_at w' b (if decide (length subs < MAX_SUBS)%nat then subs ++ [v] else subs) ∧ touches b w w' ∧
    ((length subs < MAX_SUBS)%nat → ext (subs_range b) (add_out (sub_line v) w) w')).
Proof.
  intros (Hv & Hl & Hc & Hs) (tag & sz & Ho) Hsv. unfold MAX_SUBS in *. unfold sizeof_WeatherStationTask in Hv.
  open_obj Ho. unfold handle_SubMsg.
  apply wp_bind. eapply wp_call_through; [eassumption|reflexivity|]. eapply wp_get_int; [eassumption|].
  rewrite s32_small by done. apply wp_bind, wp_modify.
  apply wp_bind. eapply wp_get_int; [by eapply mb_same_blocks|].
  rewrite s32_small by (unfold is_s32; lia).
  set (w0 := add_out _ w). assert (valid w0 b 0 256) as Hv0 by (by eapply (valid_same_blocks w)).
  assert (mb w0 b (f_off WeatherStationTask_subs) (ints subs)) as Hs0 by (by apply (mb_same_blocks w)).
  destruct (Z.ltb_spec (Z.of_nat (length subs)) 50).
  - rewrite decide_True by lia. apply wp_bind.
    assert (valid w0 b (f_off WeatherStationTask_subs + 4 * Z.of_nat (length subs)) 4) as Hvs
      by (eapply valid_le; [exact Hv0|off|off]).
    apply wp_store; [by autorewrite with len|]. cbn [Z.add].
    eapply wp_set_int; [apply valid_upd; eapply valid_le; [exact Hv0|off|off]|].
    split.
    + split_and!.
      * by do 2 apply valid_upd.
      * rewrite length_app. cbn. unfold MAX_SUBS. lia.
      * rewrite length_app. cbn [length]. rewrite Nat2Z.inj_add. apply mb_upd_same. apply valid_upd.
        eapply valid_le; [exact Hv0|off|off].
      * rewrite ints_snoc. apply mb_upd_disj; [autorewrite with len; off|]. apply mb_app. split.
        { apply mb_upd_disj; [autorewrite with len; off|done]. }
        autorewrite with len. rewrite Nat2Z.inj_mul. apply mb_upd_same. by autorewrite with len.
    + split; [|intros _; do 2 (eapply ext_upd; [intros k i _ Hi; split; [done|revert Hi; autorewrite with len; off]|]); apply ext_refl].
      exists (upd (upd w b (f_off WeatherStationTask_subs + 4 * Z.of_nat (length subs)) (enc_i32 v))
                b (0 + f_off WeatherStationTask_sub_count) (enc_i32 (Z.of_nat (length subs) + 1))).
      split; [do 2 (eapply ext_upd; [done|]); apply ext_refl|].
      by do 2 apply upd_blocks_cong.
  - rewrite decide_False by lia. apply wp_modify. split; [|split; [exists w; split; [apply ext_refl|done]|lia]].
    split_and!; [by eapply (valid_same_blocks w)|done|by eapply (mb_same_blocks w)|by eapply (mb_same_blocks w)].
Qed.

(** The messages of the list, one after the other. *)
Fixpoint handle_SubMsgs (this : ptr) (msgs : list ptr) : M unit :=
  match msgs with
  | [] => ret tt
  | m :: ms => handle_SubMsg this m;;; handle_SubMsgs this ms
  end.

(** C40. The subscribers are the first 50 that asked, in order: whatever the number
    of subscriptions, the members after the array are never written. *)
Theorem subscriptions_bounded p w b subs (msgs : list (Z * Z * Z)) :
  station_at w b subs →
  Forall (λ x, sub_msg_at w p x.1.1 x.1.2 x.2 ∧ x.1.1 ≠ b ∧ is_s32 x.2) msgs →
  ∃ w', handle_SubMsgs (Addr p b 0) ((λ x, Addr p x.1.1 x.1.2) <$> msgs) p w = Ok tt w' ∧
    station_at w' b (take MAX_SUBS (subs ++ (snd <$> msgs))).
Proof.
  revert w subs. induction msgs as [|[[m o] v] msgs IH]; intros w subs Hst Hms.
  { exists w. split; [done|]. cbn. rewrite app_nil_r, take_ge; [done|]. apply Hst. }
  apply Forall_cons in Hms as ((Hm & Hne & Hv) & Hms). cbn [fst snd] in *.
  destruct (wp_run _ _ _ _ (handle_SubMsg_wp _ _ _ _ _ _ _ Hst Hm Hv)) as ([] & w1 & E & Hst1 & Ht & _).
  apply IH in Hst1 as (w' & E' & Hst').
  2:{ eapply Forall_impl; [exact Hms|]. intros x (Hx & ? & ?). split; [|done]. by eapply sub_msg_touches. }
  exists w'. split; [cbn; unfold bind; by rewrite E|]. cbn [fmap list_fmap snd] in *.
  destruct (decide (length subs < MAX_SUBS)%nat).
  - by rewrite <- app_assoc in Hst'.
  - destruct Hst as (_ & Hl & _). assert (length subs = MAX_SUBS) as Hlen by lia.
    rewrite take_app_le, take_ge in Hst' by lia. by rewrite take_app_le, take_ge by lia.
Qed.

(** ** The name *)

Definition name_msg_at (w : world) (p m o : Z) (l : list memval) : Prop :=
  ∃ tag sz, obj_at w p m o (Msg tag sz (BText l)) Null ∧ body_ok (BText l).

Lemma handle_name_wp p w b m o l :
  valid w b 0 (Z.to_nat sizeof_WeatherStationTask) → name_msg_at w p m o l → m ≠ b →
  wp (handle_WeatherStationNameMsg (Addr p b 0) (Addr p m o)) p w (λ _ w',
    ∃ w0, w_blocks w0 = w_blocks w ∧ w' = upd w0 b (f_off WeatherStationTask_station_name) (l ++ [Byte 0])).
Proof.
  intros Hv (tag & sz & Ho & Hc & Hl) Hne. unfold sizeof_WeatherStationTask in Hv.
  open_obj Ho. unfold handle_WeatherStationNameMsg.
  assert (∀ w0 (Q : ptr → world → Prop), w_blocks w0 = w_blocks w → Q (Addr p m (o + f_off TextMsg_msg)) w0 →
    wp (call_TextMsg_getMsg (Addr p m o)) p w0 Q) as Hget.
  { intros w0 Q E HQ. eapply wp_call_through; [by eapply mb_same_blocks|reflexivity|]. by apply wp_ret. }
  apply wp_bind, Hget; [done|]. apply wp_bind. eapply wp_load_str; [eassumption|done|].
  apply wp_bind, wp_modify. apply wp_bind, Hget; [done|].
  cbn [addr_of padd]. eapply wp_strcpy; [by eapply (mb_same_blocks w)|done| |].
  { apply (valid_same_blocks w); [done|]. eapply valid_le; [exact Hv|off|autorewrite with len; off]. }
  eexists. split; [|reflexivity]. done.
Qed.

(** The name goes into 30 characters without a check.  A name of up to 29
    characters is stored and the subscribers stay; of a longer one (a [TextMsg]
    holds 99 characters) the characters 32 to 35 are the new number of
    subscribers, and the later ones the ids of the first of them. *)
Theorem station_name p w b subs m o l :
  station_at w b subs → name_msg_at w p m o l → m ≠ b →
  ∃ w', handle_WeatherStationNameMsg (Addr p b 0) (Addr p m o) p w = Ok tt w' ∧
    mb w' b (f_off WeatherStationTask_station_name) (l ++ [Byte 0]) ∧
    ((length l < 30)%nat → station_at w' b subs) ∧
    ((36 <= length l)%nat → mb w' b (f_off WeatherStationTask_sub_count) (take 4 (drop 32 l)) ∧
                            mb w' b (f_off WeatherStationTask_subs) (drop 36 l)).
Proof.
  intros (Hv & Hl & Hc & Hs) Hm Hne.
  destruct (wp_run _ _ _ _ (handle_name_wp _ _ _ _ _ _ Hv Hm Hne)) as ([] & w' & E & w0 & Eb & ->).
  exists (upd w0 b (f_off WeatherStationTask_station_name) (l ++ [Byte 0])). split; [done|].
  unfold sizeof_WeatherStationTask in Hv.
  assert (valid w0 b 0 256) as Hv0 by (by apply (valid_same_blocks w)).
  assert (body_ok (BText l)) as (_ & Hlen) by (by destruct Hm as (? & ? & _ & ?)).
  assert (mb (upd w0 b (f_off WeatherStationTask_station_name) (l ++ [Byte 0])) b
            (f_off WeatherStationTask_station_name) (l ++ [Byte 0])) as Hn.
  { apply mb_upd_same. eapply valid_le; [exact Hv0|off|off]. }
  split; [exact Hn|]. split.
  - intros Hsh. split_and!; [by apply valid_upd|done| |].
    + apply mb_upd_disj; [off|by apply (mb_same_blocks w)].
    + apply mb_upd_disj; [off|by apply (mb_same_blocks w)].
  - intros Hlong. rewrite <- (take_drop 32 l) in Hn at 2. rewrite <- (take_drop 4 (drop 32 l)) in Hn at 1.
    rewrite drop_drop in Hn. cbn [Nat.add] in Hn. rewrite <- !app_assoc in Hn.
    apply mb_app in Hn as [_ Hn]. apply mb_app in Hn as [H1 Hn]. apply mb_app in Hn as [H2 _].
    rewrite length_take in H1. rewrite !length_take, length_drop in H2.
    replace (Z.of_nat (32 `min` length l)) with 32 in * by lia.
    replace (Z.of_nat (4 `min` (length l - 32))) with 4 in H2 by lia.
    split; [exact H1|exact H2].
Qed.

(** ** A concrete station *)

(** A new station in block 1, subscriptions of the tasks 5 and 6 in blocks 2
    and 3, and a name message in block 4. *)
Definition demo_weather (name : string) : world :=
  state_of (st <- malloc sizeof_WeatherStationTask;; WeatherStationTask_init st;;;
    m1 <- BarMsg_create SUB_MSG;; BarMsg_setValue m1 5;;;
    m2 <- BarMsg_create SUB_MSG;; BarMsg_setValue m2 6;;;
    t <- TextMsg_create WEATHER_STATION_NAME_MSG;; s <- str_lit name;;
    TextMsg_setMsg t s) 1 (world_init 0 [] []).

Lemma subscriptions_bounded_witness :
  ∃ w', handle_SubMsgs (Addr 1 1 0) [Addr 1 2 0; Addr 1 3 0] 1 (demo_weather "A") = Ok tt w' ∧
    station_at w' 1 [5; 6].
Proof.
  apply (subscriptions_bounded 1 (demo_weather "A") 1 [] [(2, 0, 5); (3, 0, 6)]).
  - by_eval.
  - apply Forall_cons; split; [|apply Forall_cons; split; [|constructor]].
    + split; [exists SUB_MSG, sizeof_BarMsg; by_eval|]. by_eval.
    + split; [exists SUB_MSG, sizeof_BarMsg; by_eval|]. by_eval.
Defined.

Lemma station_name_witness :
  let name := "Montreal, Quebec, 45.5017 N, 73.5673 W"%string in
  ∃ w', handle_WeatherStationNameMsg (Addr 1 1 0) (Addr 1 4 0) 1 (demo_weather name) = Ok tt w' ∧
    mb w' 1 (f_off WeatherStationTask_station_name) (chars name ++ [Byte 0]) ∧
    ((length (chars name) < 30)%nat → station_at w' 1 []) ∧
    ((36 <= length (chars name))%nat →
      mb w' 1 (f_off WeatherStationTask_sub_count) (chars "5673"%string) ∧
      mb w' 1 (f_off WeatherStationTask_subs) (chars " W"%string)).
Proof.
  cbv zeta. set (name := "Montreal, Quebec, 45.5017 N, 73.5673 W"%string). apply (station_name 1 (demo_weather name) 1 [] 4 0 (chars name)).
  - by_eval.
  - exists WEATHER_STATION_NAME_MSG, sizeof_TextMsg. subst name. split; [by_eval|split; [by_eval|]; cbn; lia].
  - done.
Defined.
