(* ===== verification/Broadcast.v ===== *)
(** * The weather station sends the weather to its subscribers

    The part of the loop of [WeatherStationTask] that broadcasts, against the
    interface [Transport]: every subscriber gets one message more, and no other
    queue changes. *)

From S2P Require Import Prelude CMem CLogic Messages MessageSpec Ring CircularMsgQ CircularSpec Demo.
From S2P Require Import QueueProps System SystemSpec Repository TimeHelper Tasks Transport Arrays.
From S2P Require Import DatabaseSpec Weather WeatherProps.
From stdpp Require Import base numbers list strings gmap.
From Stdlib Require Import Lia.
#[local] Open Scope Z_scope.
#[local] Open Scope ts_scope.

(** The weather that station [t] sends. *)
Definition weather_msg (t : Z) : msg := Msg POST_WEATHER_MSG (sizeof_IntArrayMsg + 8) (BInts [t; 31]).

(** ** The message *)

(** An [IntArrayMsg] that has no values yet. *)
Definition bare_ints (w : world) (p rb tag : Z) : Prop :=
  valid w rb 0 (Z.to_nat sizeof_IntArrayMsg) ∧ flds w rb 0 (header (Msg tag sizeof_IntArrayMsg (BInts []))) ∧
  bound w p rb 0 (methods_of (BInts [])).

Lemma IntArrayMsg_create_wp tag p w (Q : ptr → world → Prop) :
  wok w →
  (∀ w', bare_ints w' p (w_next w) tag → ext nowhere w w' → w_next w' = w_next w + 1 → Q (Addr p (w_next w) 0) w') →
  wp (IntArrayMsg_create tag) p w Q.
Proof.
  intros Hok HQ. unfold IntArrayMsg_create. repeat wp1. apply HQ.
  - unfold bare_ints. cbn [m_body m_tag m_size header methods_of cls_methods flds bound fst snd app tid_of].
    split_and!; try done; [find_valid|final_mb ..].
  - final_ext.
  - nxt. lia.
Qed.

Lemma IntArrayMsg_setValues_wp p w rb tag vb l (Q : unit → world → Prop) :
  wok w → bare_ints w p rb tag → mb w vb 0 (ints l) → vb ≠ rb → Z.of_nat (length l) <= 1000 →
  (∀ w', obj_at w' p rb 0 (Msg tag (sizeof_IntArrayMsg + Z.of_nat (length l) * 4) (BInts l)) (Addr p (w_next w) 0) →
     ext (range rb 0 sizeof_IntArrayMsg) w w' → Q tt w') →
  wp (call_IntArrayMsg_setValues (Addr p rb 0) (Z.of_nat (length l)) (Addr p vb 0)) p w Q.
Proof.
  intros Hok (Hv & Hh & Hb) Hm Hne Hl HQ. pose proof (mb_fresh _ _ _ _ Hok Hm). pose proof (valid_fresh _ _ _ _ Hok Hv).
  assert (array_at w p (Addr p vb 0) (ints l)) as Ha by (right; by do 2 eexists).
  unfold sizeof_IntArrayMsg in Hv.
  cbn [m_body m_tag m_size header methods_of cls_methods flds bound fst snd app tid_of] in Hh, Hb. destruct_and?.
  unfold call_IntArrayMsg_setValues. eapply wp_call_through; [eassumption|reflexivity|].
  unfold IntArrayMsg_setValues. repeat wp1.
  apply HQ; [|unfold sizeof_IntArrayMsg; final_ext]. close_obj. right. do 2 eexists. split; [done|]. final_mb.
Qed.

(** [destroy] frees the values and the object. *)
Lemma IntArrayMsg_destroy_wp p w rb tag sz l db (Q : unit → world → Prop) :
  obj_at w p rb 0 (Msg tag sz (BInts l)) (Addr p db 0) → l ≠ [] → db ≠ rb →
  Q tt (set_blocks (delete rb) (set_blocks (delete db) w)) → wp (call_destroy (Addr p rb 0)) p w Q.
Proof.
  intros Ho Hl Hne HQ. open_obj Ho. eapply wp_call_through; [eassumption|reflexivity|]. unfold IntArrayMsg_destroy. repeat wp1.
  match goal with H : array_at w p _ _ |- _ => destruct H as [E|(b' & o' & [= <- <-] & Hm)]; [by destruct l|] end.
  match goal with H : valid w rb _ _ |- _ => destruct (valid_block _ _ _ _ H) as [kn Hkn] end.
  destruct (valid_block _ _ _ _ (mb_valid _ _ _ _ Hm)) as [kd Hkd]. eapply wp_free; [exact Hkd|].
  eapply wp_free; [cbn; rewrite lookup_delete_ne by done; exact Hkn|exact HQ].
Qed.

Lemma weather_msg_wp p w b t (k : ptr → M unit) (Q : unit → world → Prop) :
  wok w → mb w b (0 + f_off Task_taskID) (enc_i32 t) → is_s32 t →
  (∀ w' rb db, obj_at w' p rb 0 (weather_msg t) (Addr p db 0) → ext nowhere w w' → w_next w <= rb → w_next w <= db →
     rb ≠ db → wp (k (Addr p rb 0)) p w' Q) →
  wp (temp_msg <- IntArrayMsg_create POST_WEATHER_MSG;;
      taskID <- get_int (Addr p b 0) Task_taskID;;
      with_local 8 (λ vals, st_ints vals [taskID; 31];;; call_IntArrayMsg_setValues temp_msg 2 vals);;;
      k temp_msg) p w Q.
Proof.
  intros Hok Hid Ht Hk. apply wp_bind. apply IntArrayMsg_create_wp; [done|]. intros w1 Hbare He1 Hn1.
  pose proof (ext_wok _ _ _ He1 Hok) as Hok1. set (rb := w_next w) in *.
  apply wp_bind. eapply wp_get_int; [eapply mb_extF; [exact He1|by intros i _ []|exact Hid]|]. rewrite s32_small by done.
  apply wp_bind. assert (0 <= 8 < 140737488355328) as H8 by done. apply (wp_with_local _ _ _ _ _ H8).
  set (w2 := add_block _ w1). assert (valid w2 (w_next w1) 0 8) as Hvl.
  { apply add_block_valid_eq; [done|]. split; cbn; lia. }
  apply wp_bind, st_ints_wp; [exact Hvl|]. set (w3 := upd w2 _ _ _).
  assert (ext nowhere w1 w3) as He3 by (apply ext_upd; [new_block|]; apply ext_add_block; [done|apply ext_refl]).
  assert (bare_ints w3 p rb POST_WEATHER_MSG) as Hbare3.
  { destruct Hbare as (Hv & Hh & Hb). split; [by eapply valid_extF|].
    split; [eapply flds_extF; [exact He3|by intros i _ []|apply header_bounded|done]|].
    eapply bound_extF; [exact He3|by intros i _ []|apply methods_bounded|done]. }
  apply (IntArrayMsg_setValues_wp p w3 rb POST_WEATHER_MSG (w_next w1) [t; 31]);
    [by eapply ext_wok|exact Hbare3|by apply mb_upd_same|lia|done|].
  intros w4 Ho He4. assert (w_next w3 = w_next w1 + 1) as Hn3 by (unfold w3, w2; nxt; done). split.
  { eapply valid_block, valid_extF; [exact He4|]. by apply valid_upd. }
  pose proof (ext_next _ _ _ He3). rewrite Hn3 in Ho.
  apply (Hk _ rb (w_next w1 + 1)); [| |lia|lia|lia].
  - apply obj_free; [lia|right; cbn; intros [= ?]; lia|exact Ho].
  - apply ext_free; [lia|done|]. eapply ext_trans_old; [|eapply ext_trans; [exact He1|exact He3]|exact He4].
    intros b' kb i Hkb [-> _]. unfold rb in Hkb. by rewrite Hok in Hkb by lia.
Qed.

(** ** The broadcast *)

(** One message more for each of the tasks of [l]. *)
Definition deliver (M : gmap Z (list msg)) (l : list Z) (m : msg) : gmap Z (list msg) :=
  map_imap (λ t ms, Some (if decide (t ∈ l) then ms ++ [m] else ms)) M.

Lemma deliver_nil M m : deliver M [] m = M.
Proof.
  apply map_eq. intros t. unfold deliver. rewrite map_lookup_imap. destruct (M !! t); cbn; [|done].
  by rewrite decide_False by apply not_elem_of_nil.
Qed.

Lemma deliver_other M l m t : t ∉ l → deliver M l m !! t = M !! t.
Proof.
  intros Ht. unfold deliver. rewrite map_lookup_imap. destruct (M !! t); cbn; [|done]. by rewrite decide_False.
Qed.

Lemma deliver_snoc M l m t ms :
  M !! t = Some ms → t ∉ l → <[t := ms ++ [m]]> (deliver M l m) = deliver M (l ++ [t]) m.
Proof.
  intros Ht Hn. apply map_eq. intros t'. destruct (decide (t' = t)) as [->|Hne].
  - rewrite lookup_insert_eq. unfold deliver. rewrite map_lookup_imap, Ht. cbn.
    rewrite decide_True; [done|]. apply elem_of_app. right. by apply list_elem_of_singleton.
  - rewrite lookup_insert_ne by done. unfold deliver. rewrite !map_lookup_imap. destruct (M !! t'); cbn; [|done].
    f_equal. apply decide_ext. rewrite elem_of_app, list_elem_of_singleton. tauto.
Qed.

Section broadcast.
Context (p : Z) (Comm : ptr) `{!Transport p Comm}.

(** The station [t], with its struct at block [b], has the subscribers [subs]. *)
Definition station (w : world) (b t : Z) (subs : list Z) : Prop :=
  wok w ∧ station_at w b subs ∧ mb w b (0 + f_off Task_taskID) (enc_i32 t) ∧ ¬ tr_own b ∧ is_s32 t ∧ Forall is_s32 subs.

Lemma station_at_extF F w w' b subs : ext F w w' → (∀ i, ¬ F b i) → station_at w b subs → station_at w' b subs.
Proof.
  intros He HF (Hv & Hl & Hc & Hs). split_and!; [by eapply valid_extF|done| |].
  - eapply mb_extF; [exact He|by intros i _|exact Hc].
  - eapply mb_extF; [exact He|by intros i _|exact Hs].
Qed.

Lemma station_ext F w w' b t subs : ext F w w' → (∀ i, ¬ F b i) → station w b t subs → station w' b t subs.
Proof.
  intros He HF (Hok & Hst & Hid & Hrest). split; [by eapply ext_wok|]. split; [by eapply station_at_extF|].
  split; [|done]. eapply mb_extF; [exact He|by intros i _|exact Hid].
Qed.

Lemma station_free w b t subs nb : b ≠ nb → station w b t subs → station (set_blocks (delete nb) w) b t subs.
Proof.
  intros Hne (Hok & (Hv & Hl & Hc & Hs) & Hid & Hrest). split.
  { intros b' Hb'. cbn in *. rewrite lookup_delete. case_match; [done|by apply Hok]. }
  split; [|split; [by apply mb_free|done]].
  split; [by apply valid_free|]. split; [done|]. split; by apply mb_free.
Qed.

(** Everything that the loop over the subscribers keeps: the messages delivered
    so far, the room of the subscribers to come, and the memory of the others. *)
Definition sending (w0 : world) (b t : Z) (subs : list Z) (rb db : Z) (M : gmap Z (list msg)) (n : nat) (w : world) : Prop :=
  ext (λ b' _, tr_own b') w0 w ∧ station w b t subs ∧ obj_at w p rb 0 (weather_msg t) (Addr p db 0) ∧
  mail w (deliver M (take n subs) (weather_msg t)) ∧
  ∀ s, s ∈ drop n subs → has_room w s (m_size (weather_msg t)).

Lemma weather_msg_ok t : is_s32 t → msg_ok (weather_msg t).
Proof.
  intros Ht. unfold weather_msg, msg_ok. cbn [m_tag m_body m_size body_ok payload sizeof_of].
  rewrite length_ints. unfold is_s32, POST_WEATHER_MSG, sizeof_IntArrayMsg. cbn [length]. lia.
Qed.

Lemma broadcast_step w0 b t subs rb db M n w :
  ¬ tr_own rb → ¬ tr_own db → rb ≠ db → NoDup subs → (∀ s, s ∈ subs → is_Some (M !! s)) → (n < length subs)%nat →
  sending w0 b t subs rb db M n w →
  wp (sub <- ld_i32 (sub_at (Addr p b 0) (Z.of_nat n));;
      WeatherStationTask_send Comm (Addr p b 0) (Addr p rb 0) sub;;; ret tt) p w (λ _ w',
    sending w0 b t subs rb db M (S n) w').
Proof.
  intros Hrb Hdb Hne Hnd HMs Hn (Hext & Hst & Ho & HM & Hroom).
  destruct (lookup_lt_is_Some_2 subs n Hn) as [s Hs]. pose proof Hst as (_ & (_ & _ & _ & Hsubs) & _ & Hb & Ht & Hsok).
  assert (s ∈ subs) as Hin by by eapply list_elem_of_lookup_2.
  destruct (HMs s Hin) as [ms Hms]. pose proof (take_S_r _ _ _ Hs) as Htake.
  assert (s ∉ take n subs) as Hnin.
  { intros (j & Hj)%list_elem_of_lookup. apply lookup_take_Some in Hj as [Hj Hlt].
    pose proof (NoDup_lookup _ _ _ _ Hnd Hj Hs). lia. }
  apply wp_bind. unfold sub_at. eapply ld_int_wp; [exact Hsubs|lia|rewrite Nat2Z.id; exact Hs|by eapply Forall_lookup_1|].
  apply wp_bind. unfold WeatherStationTask_send, Task_send.
  eapply wp_mono; [apply (send_spec w (deliver M (take n subs) (weather_msg t)) s ms rb (weather_msg t) (Addr p db 0))|].
  - exact HM.
  - by rewrite deliver_other.
  - apply Hroom. rewrite (drop_S _ _ _ Hs). by left.
  - exact Ho.
  - by apply weather_msg_ok.
  - by intros [].
  - done.
  - intros b' Hb'. right. cbn. intros [= ->]. done.
  - right. cbn. by intros [= ->].
  - cbv beta. intros a w' (_ & HM' & Ho' & He & Hroom'). apply wp_ret. split; [by eapply ext_trans|]. split; [|split; [done|split]].
    + eapply station_ext; [exact He|by intros i|exact Hst].
    + rewrite Htake. by rewrite <- (deliver_snoc M (take n subs) (weather_msg t) s ms).
    + intros s' Hs'. rewrite (drop_S _ _ _ Hs) in Hroom. apply Hroom'; [|apply Hroom; by right].
      intros ->. apply list_elem_of_lookup in Hs' as [j Hj]. rewrite lookup_drop in Hj.
      pose proof (NoDup_lookup _ _ _ _ Hnd Hj Hs). lia.
Qed.

Lemma broadcast_wp w b t subs M :
  station w b t subs → mail w M → NoDup subs →
  (∀ s, s ∈ subs → is_Some (M !! s) ∧ has_room w s (m_size (weather_msg t))) →
  wp (WeatherStationTask_broadcast Comm (Addr p b 0)) p w (λ _ w',
    station w' b t subs ∧ mail w' (deliver M subs (weather_msg t)) ∧ ext (λ b' _, tr_own b') w w').
Proof.
  intros Hst HM Hnd Hsubs. pose proof Hst as (Hok & (Hv & Hlen & Hc & _) & Hid & Hb & Ht & _).
  pose proof (valid_fresh _ _ _ _ Hok Hv) as Hbn. unfold MAX_SUBS in Hlen.
  unfold WeatherStationTask_broadcast.
  apply (weather_msg_wp p w b t (λ temp_msg, sub_count <- get_int (Addr p b 0) WeatherStationTask_sub_count;;
    for_range 0 sub_count (λ i, sub <- ld_i32 (sub_at (Addr p b 0) i);;
      WeatherStationTask_send Comm (Addr p b 0) temp_msg sub;;; ret tt);;; call_destroy temp_msg)); [done|done|done|].
  intros w1 rb db Ho He Hrb Hdb Hne.
  assert (∀ b', w_next w <= b' → ¬ tr_own b') as Hfresh.
  { intros b' Hb' Hown. pose proof (mail_old _ _ _ Hok HM Hown). lia. }
  assert (sending w b t subs rb db M 0 w1) as Hstart.
  { split; [by eapply ext_weaken; [|exact He]|]. split; [eapply station_ext; [exact He|by intros i []|exact Hst]|]. split; [done|]. split.
    - rewrite deliver_nil. eapply mail_ext; [exact He|by intros ? ? _ []|done].
    - intros s Hs. eapply room_ext; [exact He|by intros ? ? _ []|by apply Hsubs]. }
  pose proof Hstart as (_ & (_ & (_ & _ & Hc1 & _) & _) & _).
  apply wp_bind. eapply wp_get_int; [exact Hc1|]. rewrite s32_small by (unfold is_s32; lia).
  apply wp_bind. apply (wp_for_range (λ i w', sending w b t subs rb db M (Z.to_nat i) w')); [lia|done| |].
  - intros i w' Hi Hw'. replace i with (Z.of_nat (Z.to_nat i)) at 1 by lia.
    replace (Z.to_nat (i + 1)) with (S (Z.to_nat i)) by lia.
    apply broadcast_step; [by apply Hfresh|by apply Hfresh|done|done|by intros s Hs; apply Hsubs|lia|done].
  - intros w' (He' & Hst' & Ho' & HM' & _). rewrite Nat2Z.id, take_ge in HM' by done.
    eapply IntArrayMsg_destroy_wp; [exact Ho'|done|by apply not_eq_sym|]. split_and!.
    + do 2 (apply station_free; [lia|]). done.
    + do 2 (apply mail_free; [by apply Hfresh|]). done.
    + apply ext_free; [lia|done|]. by apply ext_free.
Qed.

(** C11. The broadcast of a weather station to subscribers that are all different,
    each with room in its queue: every subscriber finds one message more in its queue, the weather of this station, the other queues are as before, and
    so is the station. *)
Theorem broadcast_reaches w b t subs M :
  station w b t subs → mail w M → NoDup subs →
  (∀ s, s ∈ subs → is_Some (M !! s) ∧ has_room w s (m_size (weather_msg t))) →
  ∃ w', WeatherStationTask_broadcast Comm (Addr p b 0) p w = Ok tt w' ∧
    station w' b t subs ∧ mail w' (deliver M subs (weather_msg t)).
Proof.
  intros Hst HM Hnd Hsubs.
  destruct (wp_run _ _ _ _ (broadcast_wp w b t subs M Hst HM Hnd Hsubs)) as ([] & w' & E & Hst' & HM' & _). by exists w'.
Qed.

End broadcast.

(** ** A station with two subscribers *)

(** The subscriptions of tasks 2 and 3 are handled. *)
Definition demo_cast_init : M unit :=
  Comm <- malloc sizeof_System;; System_initialize Comm;;; createMsgQ Comm 2;;; createMsgQ Comm 3;;;
  t <- malloc sizeof_WeatherStationTask;; set_int t Task_taskID 1;;; WeatherStationTask_init t;;;
  m <- BarMsg_create SUB_MSG;; call_BarMsg_setValue m 2;;; handle_SubMsg t m;;;
  call_BarMsg_setValue m 3;;; handle_SubMsg t m;;; call_destroy m.

Definition demo_cast : world := Eval vm_compute in state_of demo_cast_init 1 (world_init 0 [] []).
Definition demo_cast_queues : gmap Z Z := {[2 := 2; 3 := 3]}.
Definition demo_cast_mail : gmap Z (list msg) := {[2 := []; 3 := []]}.

Lemma demo_cast_queue t q : demo_cast_queues !! t = Some q → t = 2 ∧ q = 2 ∨ t = 3 ∧ q = 3.
Proof.
  unfold demo_cast_queues. intros [[<- <-]|[_ [<- <-]%lookup_singleton_Some]]%lookup_insert_Some; [by left|by right].
Qed.

Lemma demo_cast_table : table_ok 1 demo_cast_queues.
Proof.
  split; [intros t q Ht%demo_cast_queue; lia|]. intros t t' q Ht%demo_cast_queue Ht'%demo_cast_queue. lia.
Qed.

Lemma demo_cast_q_inv q : q = 2 ∨ q = 3 → q_inv demo_cast q (ring_empty sizeof_Queue).
Proof. intros [->| ->]; apply q_inv_empty; by_eval. Qed.

Lemma demo_cast_waiting t q :
  demo_cast_queues !! t = Some q → unlocked demo_cast q ∧
    ∃ v, slot demo_cast 1 t v ∧ acquired 1 demo_cast t v = Addr 1 q 0.
Proof.
  intros [[-> ->]|[-> ->]]%demo_cast_queue; (split; [by_eval|]).
  - exists (Addr 1 2 0). by_eval.
  - exists (Addr 1 3 0). by_eval.
Qed.

Lemma demo_cast_none t ms : demo_cast_mail !! t = Some ms → ms = [].
Proof. unfold demo_cast_mail. intros [[_ <-]|[_ [_ <-]%lookup_singleton_Some]]%lookup_insert_Some; done. Qed.

Lemma demo_cast_all_mail : all_mail 1 1 demo_cast_queues demo_cast demo_cast_mail.
Proof.
  split; [unfold calls; by_eval|]. split.
  - intros t. unfold demo_cast_queues, demo_cast_mail. rewrite !lookup_insert_is_Some, !lookup_singleton_is_Some. done.
  - intros t q ms Ht ->%demo_cast_none. destruct (demo_cast_waiting _ _ Ht) as [Hu Hv]. split; [done|]. split; [done|].
    exists (ring_empty sizeof_Queue). split; [|done]. apply demo_cast_q_inv. apply demo_cast_queue in Ht. lia.
Qed.

Lemma demo_cast_station :
  station 1 (Addr 1 1 0) (Transport0 := System_transport 1 1 demo_cast_queues demo_cast_table) demo_cast 4 1 [2; 3].
Proof.
  split; [apply wokb_spec; vm_compute; reflexivity|]. split; [by_eval|]. split; [by_eval|]. split; [|split; [done|by_eval]].
  intros [?|[t Ht%demo_cast_queue]]; [done|lia].
Qed.

Lemma broadcast_reaches_witness :
  ∃ w', WeatherStationTask_broadcast (Addr 1 1 0) (Addr 1 4 0) 1 demo_cast = Ok tt w' ∧
    all_mail 1 1 demo_cast_queues w' (deliver demo_cast_mail [2; 3] (weather_msg 1)).
Proof.
  destruct (broadcast_reaches 1 (Addr 1 1 0) (Transport0 := System_transport 1 1 demo_cast_queues demo_cast_table)
    demo_cast 4 1 [2; 3] demo_cast_mail demo_cast_station demo_cast_all_mail) as (w' & E & _ & Hm).
  - repeat constructor; by_eval.
  - intros s Hs. assert (demo_cast_mail !! s = Some []) as Hm.
    { rewrite !elem_of_cons, elem_of_nil in Hs. unfold demo_cast_mail. destruct Hs as [->|[->|[]]]; [by rewrite lookup_insert_eq|].
      by rewrite lookup_insert_ne, lookup_singleton_eq by done. }
    split; [by eexists|]. by apply (task_room_empty 1 1 demo_cast_queues demo_cast demo_cast_mail s _ demo_cast_all_mail Hm).
  - exists w'. split; [exact E|exact Hm].
Defined.
