(* ===== verification/Subscription.v ===== *)
(** * A client subscribes to a weather station and gets its weather

    The client task of [Weather] in one process and the station in another one, each
    with its own system object over the same queues.  The subscription, a turn of the
    loop of the station with or without a message, and what the client receives are
    verified against the interface [Transport]; [loop_turns] shows that
    [station_turns] are the turns of the loop; [weather_arrives] composes the two
    processes. *)

From S2P Require Import Prelude CMem CLogic Messages MessageSpec Ring CircularMsgQ CircularSpec Demo.
From S2P Require Import QueueProps System SystemSpec Repository TimeHelper Tasks Transport Arrays.
From S2P Require Import DatabaseSpec DatabaseServer DatabaseClient Exchange Weather WeatherProps Broadcast.
From stdpp Require Import base numbers list strings gmap.
From Stdlib Require Import Lia.
#[local] Open Scope Z_scope.
#[local] Open Scope ts_scope.

(** The subscription of task [t]. *)
Definition sub_msg (t : Z) : msg := Msg SUB_MSG sizeof_BarMsg (BBar t).

Lemma sub_msg_ok t : is_s32 t → msg_ok (sub_msg t).
Proof.
  intros Ht. unfold sub_msg, msg_ok. cbn [m_tag m_body m_size body_ok payload sizeof_of].
  unfold is_s32, SUB_MSG, sizeof_BarMsg in *. cbn [length]. lia.
Qed.

(** Printing does not touch the memory. *)
Lemma ext_out F e w w' : ext F w w' → ext F (add_out e w) (add_out e w').
Proof.
  intros (Hf & He & Hn & Hok). split; [exact Hf|]. split; [|split; [exact Hn|exact Hok]].
  unfold env in *. cbn in *. congruence.
Qed.

Section steps.
Context (p : Z) (Comm : ptr) `{!Transport p Comm}.

(** ** The client *)

Lemma make_sub_wp w t (k : ptr → M unit) (Q : unit → world → Prop) b :
  wok w → mb w b (0 + f_off Task_taskID) (enc_i32 t) → is_s32 t →
  (∀ w' rb, obj_at w' p rb 0 (sub_msg t) Null → ext nowhere w w' → w_next w <= rb → wp (k (Addr p rb 0)) p w' Q) →
  wp (sub_msg <- BarMsg_create SUB_MSG;;
      taskID <- get_int (Addr p b 0) Task_taskID;;
      call_BarMsg_setValue sub_msg taskID;;; k sub_msg) p w Q.
Proof.
  intros Hok Hid Ht Hk. pose proof (mb_fresh _ _ _ _ Hok Hid). unfold BarMsg_create. repeat wp1.
  unfold call_BarMsg_setValue.
  eapply wp_call_through; [find_mb|reflexivity|]. unfold BarMsg_setValue. repeat wp1.
  apply Hk; [|final_ext|lia]. unfold sub_msg. close_obj.
Qed.

Lemma destroy_sub_wp w rb t (Q : unit → world → Prop) :
  obj_at w p rb 0 (sub_msg t) Null → Q tt (set_blocks (delete rb) w) → wp (call_destroy (Addr p rb 0)) p w Q.
Proof.
  intros Ho HQ. unfold sub_msg in Ho. open_obj Ho. eapply wp_call_through; [eassumption|reflexivity|]. unfold BarMsg_destroy. repeat wp1.
  match goal with H : valid w rb _ _ |- _ => destruct (valid_block _ _ _ _ H) as [kn Hkn] end. by eapply wp_free.
Qed.

(** The subscription is in the queue of the station. *)
Lemma subscribe_to_wp w b t s M ms :
  task_at p Comm w b t → mail w M → M !! s = Some ms → has_room w s sizeof_BarMsg →
  wp (WeatherClientTask_subscribe_to Comm (Addr p b 0) s) p w (λ _ w',
    mail w' (<[s := ms ++ [sub_msg t]]> M) ∧ ext (λ b' _, tr_own b') w w' ∧
    ∀ t' n, t' ≠ s → has_room w t' n → has_room w' t' n).
Proof.
  intros (Hok & Hid & Hb & Ht) HM HMs Hroom. unfold WeatherClientTask_subscribe_to.
  apply (make_sub_wp w t (λ sub_msg, WeatherClientTask_send Comm (Addr p b 0) sub_msg s;;; call_destroy sub_msg)); [done|done|done|].
  intros w1 rb Ho He Hrb.
  assert (¬ tr_own rb) as Hfresh by (intros Hown; pose proof (mail_old _ _ _ Hok HM Hown); lia).
  apply wp_bind. unfold WeatherClientTask_send, Task_send.
  eapply wp_mono; [apply (send_spec w1 M s ms rb (sub_msg t) Null)|].
  - eapply mail_ext; [exact He|by intros ? ? _ []|done].
  - done.
  - eapply room_ext; [exact He|by intros ? ? _ []|done].
  - done.
  - by apply sub_msg_ok.
  - by intros [].
  - done.
  - by left.
  - by left.
  - cbv beta. intros a w2 (_ & HM2 & Ho2 & He2 & Hroom2). eapply destroy_sub_wp; [exact Ho2|]. split; [by apply mail_free|]. split.
    + apply ext_free; [lia|done|]. eapply ext_trans; [|exact He2]. eapply ext_weaken; [|exact He]. done.
    + intros t' n Hne Hn. apply room_free; [done|]. apply Hroom2; [done|]. eapply room_ext; [exact He|by intros ? ? _ []|done].
Qed.

(** The weather is taken out of the queue and printed. *)
Definition weather_line (t : Z) : string * list parg := ("Station id %d Weather %d C"%string, [AInt t; AInt 31]).

Lemma weather_receive_wp fuel w b t M s ms :
  task_at p Comm w b t → mail w M → M !! t = Some (weather_msg s :: ms) → is_s32 s →
  wp (WeatherClientTask_receive fuel Comm (Addr p b 0)) p w (λ _ w', ∃ w1,
    w' = add_out (weather_line s) w1 ∧ mail w1 (<[t := ms]> M) ∧ ext (λ b' _, tr_own b') w w1 ∧
    ∀ t' n, t' ≠ t → has_room w t' n → has_room w1 t' n).
Proof.
  intros Htk HM HMt Hs. unfold WeatherClientTask_receive. apply wp_bind.
  eapply wp_mono; [by eapply wait_tag_wp|]. cbv beta. intros a w1 (-> & HM1 & Hop & Htk1 & He1 & Hroom1).
  cbn [m_tag weather_msg POST_WEATHER_MSG WEATHER_STATION_NAME_MSG SUB_MSG Z.eqb Pos.eqb].
  apply wp_bind. eapply wp_mono; [by eapply receive_mine_wp|]. cbv beta.
  intros a w2 (HM2 & Htk2 & He2 & Hroom2 & _ & rb & d & -> & Hrb & Ho & Hd). destruct Hd as [Hd|Hd]; [done|].
  unfold weather_msg in Ho. open_obj Ho.
  match goal with H : array_at w2 p d _ |- _ => destruct H as [?|(db & o & -> & Hm)]; [done|] end.
  assert (∀ i v Q, [s; 31] !! Z.to_nat i = Some v → 0 <= i → is_s32 v → Q v w2 →
    wp (call_IntArrayMsg_getValue (Addr p rb 0) i) p w2 Q) as Hget.
  { intros i v Q Hi Hi0 Hv HQ. unfold call_IntArrayMsg_getValue. eapply wp_call_through; [eassumption|reflexivity|].
    unfold IntArrayMsg_getValue. apply wp_bind. eapply wp_get_ptr; [eassumption|]. by eapply ld_int_wp. }
  unfold handle_PostWeatherMsg. apply wp_bind, (Hget 0 s); [done|done|done|]. apply wp_bind, (Hget 1 31); [done|done|done|].
  apply wp_printf. exists w2. split_and!; [done|done|by eapply ext_trans|].
  intros t' n Hne Hn. by apply Hroom2, Hroom1.
Qed.

(** ** The station *)

Lemma station_task w b t subs : station p Comm w b t subs → task_at p Comm w b t.
Proof. intros (Hok & _ & Hid & Hb & Ht & _). by split_and!. Qed.

(** A subscription is taken out of the queue, and its sender is a subscriber. *)
Lemma station_receive_wp fuel w b t subs M v ms :
  station p Comm w b t subs → mail w M → M !! t = Some (sub_msg v :: ms) → is_s32 v → (length subs < MAX_SUBS)%nat →
  wp (WeatherStationTask_receive fuel Comm (Addr p b 0)) p w (λ _ w',
    station p Comm w' b t (subs ++ [v]) ∧ mail w' (<[t := ms]> M) ∧
    ext (λ b' i, tr_own b' ∨ subs_range b b' i) (add_out (sub_line v) w) w' ∧
    ∀ t' n, t' ≠ t → has_room w t' n → has_room w' t' n).
Proof.
  intros Hst HM HMt Hv Hlen. unfold WeatherStationTask_receive. apply wp_bind.
  eapply wp_mono; [eapply wait_tag_wp; [by eapply station_task|done|done|done]|].
  cbv beta. intros a w1 (-> & HM1 & Hop & Htk1 & He1 & Hroom1).
  cbn [m_tag sub_msg SUB_MSG WEATHER_STATION_NAME_MSG Z.eqb Pos.eqb].
  apply wp_bind. eapply wp_mono; [by eapply receive_mine_wp|]. cbv beta.
  intros a w2 (HM2 & Htk2 & He2 & Hroom2 & _ & rb & d & -> & Hrb & Ho & _).
  assert (ext (λ b' _, tr_own b') w w2) as He by by eapply ext_trans.
  assert (station p Comm w2 b t subs) as (Hok2 & Hst2 & Hid2 & Hb & Ht & Hsubs).
  { pose proof Hst as (_ & _ & _ & Hb & _). eapply station_ext; [exact He|by intros i|exact Hst]. }
  eapply wp_mono; [apply (handle_SubMsg_wp p w2 b subs rb 0 v); [done|by exists SUB_MSG, sizeof_BarMsg|done]|].
  cbv beta. intros _ w3 (Hst3 & _ & He3). rewrite decide_True in Hst3 by done. specialize (He3 Hlen).
  assert (∀ b' i, tr_own b' → ¬ subs_range b b' i) as Hsep by (intros b' i Hown [-> _]; done).
  split_and!.
  - split; [by eapply ext_wok|]. split; [exact Hst3|]. split; [|split; [done|split; [done|]]].
    + eapply mb_extF; [exact He3| |exact Hid2]. intros i Hi [_ Hge]. autorewrite with len in Hi. revert Hi Hge. off.
    + by apply Forall_app; split; [|constructor].
  - eapply mail_ext; [exact He3|done|by apply mail_out].
  - eapply ext_trans; [eapply ext_weaken; [|by apply ext_out]; by left|]. eapply ext_weaken; [|exact He3].
    by right.
  - intros t' n Hne Hn. eapply room_ext; [exact He3|done|]. by apply room_out, Hroom2, Hroom1.
Qed.

(** ** Turns of the loop of the station *)

(** The station at work. *)
Definition working (w : world) (b t : Z) (subs : list Z) : Prop :=
  station p Comm w b t subs ∧ 0 <= t ∧ mb w b (0 + f_off WeatherStationTask_close_order) (enc_i32 0).

Lemma working_comm w w' b t subs : ext (λ b' _, tr_own b') w w' → working w b t subs → working w' b t subs.
Proof.
  intros He (Hst & Ht & Hc). pose proof Hst as (_ & _ & _ & Hb & _). split; [|split; [done|]].
  - eapply station_ext; [exact He|by intros i|exact Hst].
  - eapply mb_extF; [exact He|by intros i _|exact Hc].
Qed.

(** The look for a message. *)
Lemma immediate_wp w b t subs M ms :
  working w b t subs → mail w M → M !! t = Some ms →
  wp (WeatherStationTask_message_immediate Comm (Addr p b 0)) p w (λ a w', a = (if decide (ms = []) then 1 else 0) ∧
    working w' b t subs ∧ mail w' M ∧ ext (λ b' _, tr_own b') w w' ∧ ∀ t' n, has_room w t' n → has_room w' t' n).
Proof.
  intros Hw HM HMt. pose proof Hw as ((_ & _ & Hid & _ & Ht & _) & H0 & _).
  unfold WeatherStationTask_message_immediate, Task_message_immediate. apply wp_bind. eapply wp_get_int; [exact Hid|].
  rewrite s32_small by done. rewrite u32_small by (unfold is_u32, is_s32 in *; lia).
  eapply wp_mono; [by eapply immediate_spec|]. cbv beta. intros a w' (-> & HM' & He & Hroom).
  split_and!; try done. by eapply working_comm.
Qed.

(** A turn without a message and without a broadcast. *)
Lemma idle_turn_wp fuel w b t subs M c :
  working w b t subs → mail w M → M !! t = Some [] → Z.rem (c + 1) 10000000 ≠ 0 →
  wp (WeatherStationTask_turn fuel Comm (Addr p b 0) c) p w (λ c' w', c' = c + 1 ∧
    working w' b t subs ∧ mail w' M ∧ ext (λ b' _, tr_own b') w w' ∧ ∀ t' n, has_room w t' n → has_room w' t' n).
Proof.
  intros Hw HM HMt Hc. unfold WeatherStationTask_turn. apply wp_bind.
  eapply wp_mono; [by eapply immediate_wp|]. cbv beta. intros a w1 (-> & H). rewrite decide_True by done. cbn [Z.eqb].
  apply wp_bind, wp_ret. cbv zeta. apply Z.eqb_neq in Hc as ->. by apply wp_ret.
Qed.

(** The turn with the broadcast. *)
Lemma cast_turn_wp fuel w b t subs M c :
  working w b t subs → mail w M → M !! t = Some [] → NoDup subs →
  (∀ s, s ∈ subs → is_Some (M !! s) ∧ has_room w s (m_size (weather_msg t))) → Z.rem (c + 1) 10000000 = 0 →
  wp (WeatherStationTask_turn fuel Comm (Addr p b 0) c) p w (λ c' w', c' = 0 ∧
    working w' b t subs ∧ mail w' (deliver M subs (weather_msg t)) ∧ ext (λ b' _, tr_own b') w w').
Proof.
  intros Hw HM HMt Hnd Hsubs Hc. unfold WeatherStationTask_turn. apply wp_bind.
  eapply wp_mono; [by eapply immediate_wp|]. cbv beta. intros a w1 (-> & Hw1 & HM1 & He1 & Hroom).
  rewrite decide_True by done. cbn [Z.eqb]. apply wp_bind, wp_ret. cbv zeta. apply Z.eqb_eq in Hc as ->. apply wp_bind.
  eapply wp_mono; [apply (broadcast_wp p Comm w1 b t subs M); [apply Hw1|done|done|]|].
  - intros s Hs. split; [by apply Hsubs|]. by apply Hroom, Hsubs.
  - cbv beta. intros _ w2 (_ & HM2 & He2). apply wp_ret. split_and!; [done|by eapply working_comm|done|by eapply ext_trans].
Qed.

(** The turn that takes a subscription. *)
Lemma sub_turn_wp fuel w b t subs M v c :
  working w b t subs → mail w M → M !! t = Some [sub_msg v] → is_s32 v → (length subs < MAX_SUBS)%nat →
  Z.rem (c + 1) 10000000 ≠ 0 →
  wp (WeatherStationTask_turn fuel Comm (Addr p b 0) c) p w (λ c' w', c' = c + 1 ∧
    working w' b t (subs ++ [v]) ∧ mail w' (<[t := []]> M) ∧
    ext (λ b' i, tr_own b' ∨ subs_range b b' i) (add_out (sub_line v) w) w' ∧
    ∀ t' n, t' ≠ t → has_room w t' n → has_room w' t' n).
Proof.
  intros Hw HM HMt Hv Hlen Hc. unfold WeatherStationTask_turn. apply wp_bind.
  eapply wp_mono; [by eapply immediate_wp|]. cbv beta. intros a w1 (-> & Hw1 & HM1 & He1 & Hroom1).
  rewrite decide_False by done. cbn [Z.eqb]. apply wp_bind.
  eapply wp_mono; [eapply station_receive_wp; [apply Hw1|done|done|done|done]|]. cbv beta.
  intros _ w2 (Hst2 & HM2 & He2 & Hroom2). cbv zeta. apply Z.eqb_neq in Hc as ->. apply wp_ret. split_and!; [done| |done| |].
  - destruct Hw1 as ((_ & _ & _ & Hb & _) & Ht & Hclose). split; [done|]. split; [done|].
    eapply mb_extF; [exact He2| |exact Hclose]. intros i Hi [Hown|[_ Hge]]; [done|].
    autorewrite with len in Hi. revert Hi Hge. off.
  - eapply ext_trans; [eapply ext_weaken; [|by apply ext_out]; by left|done].
  - intros t' n Hne Hn. by apply Hroom2, Hroom1.
Qed.

End steps.

(** [n] turns, or up to the end of the station. *)
Fixpoint station_turns (fuel n : nat) (Comm this : ptr) (loop_count : Z) : M Z :=
  match n with
  | O => ret loop_count
  | S n' =>
      close_order <- get_int this WeatherStationTask_close_order;;
      if close_order =? 0 then
        (loop_count' <- WeatherStationTask_turn fuel Comm this loop_count;;
         station_turns fuel n' Comm this loop_count')
      else ret loop_count
  end.

Lemma get_int_same b f p w v w' : get_int b f p w = Ok v w' → w' = w.
Proof.
  unfold get_int, ld_i32, ld_u32, bind. destruct (load _ _ p w) as [l w1| | |] eqn:E; [|done..].
  assert (w1 = w) as -> by (revert E; unfold load, fault; repeat case_match; intros; simplify_eq; done).
  unfold lift, ret. repeat case_match; intros; by simplify_eq.
Qed.

(** These are the turns of the loop. *)
Lemma loop_turns fuel n m Comm this c p w :
  WeatherStationTask_loop fuel (n + m) Comm this c p w =
  (c' <- station_turns fuel n Comm this c;; WeatherStationTask_loop fuel m Comm this c') p w.
Proof.
  revert c w. induction n as [|n IH]; intros c w; [done|]. cbn [Nat.add WeatherStationTask_loop station_turns].
  unfold bind at 1 3 4. destruct (get_int this WeatherStationTask_close_order p w) as [v w1| | |] eqn:E; [|done..].
  apply get_int_same in E as E1. subst w1. destruct (v =? 0) eqn:Ev.
  - unfold bind at 1 2. destruct (WeatherStationTask_turn fuel Comm this c p w); [apply IH|done..].
  - unfold ret at 2. destruct m; cbn [WeatherStationTask_loop]; unfold bind; by rewrite E, Ev.
Qed.

Section period.
Context (p : Z) (Comm : ptr) `{!Transport p Comm}.

Lemma turn_again fuel n w b t subs c (Q : Z → world → Prop) :
  working p Comm w b t subs →
  wp (WeatherStationTask_turn fuel Comm (Addr p b 0) c) p w (λ c' w', wp (station_turns fuel n Comm (Addr p b 0) c') p w' Q) →
  wp (station_turns fuel (S n) Comm (Addr p b 0) c) p w Q.
Proof.
  intros (_ & _ & Hc) HQ. cbn [station_turns]. apply wp_bind. eapply wp_get_int; [exact Hc|].
  rewrite s32_small by done. cbn [Z.eqb]. by apply wp_bind.
Qed.

(** The turns up to the next broadcast. *)
Lemma period_wp fuel n w b t subs M c :
  working p Comm w b t subs → mail w M → M !! t = Some [] → NoDup subs →
  (∀ s, s ∈ subs → is_Some (M !! s) ∧ has_room w s (m_size (weather_msg t))) →
  0 <= c → c + Z.of_nat (S n) = 10000000 →
  wp (station_turns fuel (S n) Comm (Addr p b 0) c) p w (λ c' w', c' = 0 ∧
    working p Comm w' b t subs ∧ mail w' (deliver M subs (weather_msg t)) ∧ ext (λ b' _, tr_own b') w w').
Proof.
  revert w c. induction n as [|n IH]; intros w c Hw HM HMt Hnd Hsubs Hc Hn; (eapply turn_again; [exact Hw|]).
  - eapply wp_mono; [by eapply cast_turn_wp; try done; replace (c + 1) with 10000000 by lia|]. cbv beta.
    intros c' w' H. by apply wp_ret.
  - eapply wp_mono; [eapply idle_turn_wp; try done; rewrite Z.rem_small; lia|]. cbv beta.
    intros c' w' (-> & Hw' & HM' & He' & Hroom). eapply wp_mono; [apply IH; try done; [|lia|lia]|].
    + intros s Hs. split; [by apply Hsubs|]. by apply Hroom, Hsubs.
    + cbv beta. intros c'' w'' (-> & Hw'' & HM'' & He''). split_and!; try done. by eapply ext_trans.
Qed.

(** The turns up to the next broadcast, a subscription first. *)
Lemma sub_period_wp fuel n w b t subs M v :
  working p Comm w b t subs → mail w M → M !! t = Some [sub_msg v] → is_s32 v → (length subs < MAX_SUBS)%nat →
  t ∉ subs ++ [v] → NoDup (subs ++ [v]) →
  (∀ s, s ∈ subs ++ [v] → is_Some (M !! s) ∧ has_room w s (m_size (weather_msg t))) →
  Z.of_nat (S (S n)) = 10000000 →
  wp (station_turns fuel (S (S n)) Comm (Addr p b 0) 0) p w (λ c' w', c' = 0 ∧
    working p Comm w' b t (subs ++ [v]) ∧ mail w' (deliver (<[t := []]> M) (subs ++ [v]) (weather_msg t)) ∧
    ext (λ b' i, tr_own b' ∨ subs_range b b' i) (add_out (sub_line v) w) w').
Proof.
  intros Hw HM HMt Hv Hlen Hnin Hnd Hsubs Hn. eapply turn_again; [exact Hw|].
  eapply wp_mono; [eapply sub_turn_wp; try done|]. cbv beta.
  intros c' w1 (-> & Hw1 & HM1 & He1 & Hroom). eapply wp_mono; [apply (period_wp fuel n w1 b t (subs ++ [v]) (<[t := []]> M)); try done|].
  - by rewrite lookup_insert_eq.
  - intros s Hs. assert (s ≠ t) by (intros ->; done). rewrite lookup_insert_ne by done.
    split; [by apply Hsubs|]. apply Hroom; [done|by apply Hsubs].
  - lia.
  - cbv beta. intros c' w2 (-> & Hw2 & HM2 & He2). split_and!; try done.
    eapply ext_trans; [exact He1|]. eapply ext_weaken; [|exact He2]. by left.
Qed.

End period.

(** ** A client and a station *)

Definition period : nat := Z.to_nat 10000000.

(** [step_as] with the result. *)
Definition run_as {A} (p : Z) (c : M A) (w : world) : option (A * world) :=
  match c p w with Ok a w' => Some (a, w') | _ => None end.

Lemma wp_run_as {A} (c : M A) p w Q : wp c p w Q → ∃ a w', run_as p c w = Some (a, w') ∧ Q a w'.
Proof. intros (a & w' & E & H)%wp_run. exists a, w'. unfold run_as. by rewrite E. Qed.

(** [period] turns of the station, from its [loop_count] on, with the client after
    them: it receives. *)
Definition weather_round (fuel : nat) (cl st : peer) (loop_count : Z) (w : world) : option (Z * world) :=
  '(loop_count', w1) ← run_as (pe_proc st) (station_turns fuel period (pe_comm st) (pe_this st) loop_count) w;
  w2 ← step_as (pe_proc cl) (WeatherClientTask_receive fuel (pe_comm cl) (pe_this cl)) w1;
  Some (loop_count', w2).

Fixpoint weather_rounds (fuel n : nat) (cl st : peer) (loop_count : Z) (w : world) : option (Z * world) :=
  match n with
  | O => Some (loop_count, w)
  | S n =>
      '(loop_count', w') ← weather_round fuel cl st loop_count w;
      weather_rounds fuel n cl st loop_count' w'
  end.

Definition weather_session (fuel n : nat) (cl st : peer) (w : world) : option (Z * world) :=
  w1 ← step_as (pe_proc cl) (WeatherClientTask_subscribe_to (pe_comm cl) (pe_this cl) (pe_id st)) w;
  weather_rounds fuel n cl st 0 w1.

Lemma ext_output F w w' : ext F w w' → w_out w' = w_out w.
Proof. intros He. pose proof (ext_env _ _ _ He) as E. unfold env in E. congruence. Qed.

Section air.
Context (Qs : gmap Z Z) (cl st : peer).
Context (Hcl : table_ok (pe_sys cl) Qs) (Hst : table_ok (pe_sys st) Qs).

Instance cl_radio : Transport (pe_proc cl) (pe_comm cl) := System_transport (pe_proc cl) (pe_sys cl) Qs Hcl.
Instance st_radio : Transport (pe_proc st) (pe_comm st) := System_transport (pe_proc st) (pe_sys st) Qs Hst.

(** Both processes see the messages [M], and the station has the subscribers [subs]. *)
Definition on_air (w : world) (subs : list Z) (M : gmap Z (list msg)) : Prop :=
  peers_ok Qs cl st ∧ mb w (pe_block cl) (0 + f_off Task_taskID) (enc_i32 (pe_id cl)) ∧
  working (pe_proc st) (pe_comm st) w (pe_block st) (pe_id st) subs ∧
  all_mail (pe_proc cl) (pe_sys cl) Qs w M ∧ all_mail (pe_proc st) (pe_sys st) Qs w M.

(** Nothing waits for the client or for the station. *)
Definition quiet (w : world) (subs : list Z) : Prop :=
  ∃ M, on_air w subs M ∧ M !! pe_id cl = Some [] ∧ M !! pe_id st = Some [].

Lemma air_client w subs M : on_air w subs M → task_at (pe_proc cl) (pe_comm cl) w (pe_block cl) (pe_id cl).
Proof.
  intros (Hp & Hid & ((Hok & _) & _) & _). pose proof Hp as (_ & _ & _ & _ & _ & _ & _ & _ & Hc & _).
  split_and!; [done|done| |done]. intros Hown. by apply (own_cl Qs cl st Hst) in Hown as (_ & _ & ?).
Qed.

(** The client used its communication system. *)
Lemma air_cl w w' subs M M' :
  on_air w subs M → ext (λ b _, own (pe_sys cl) Qs b) w w' → all_mail (pe_proc cl) (pe_sys cl) Qs w' M' → on_air w' subs M'.
Proof.
  intros (Hp & Hid & (Hstn & Ht & Hc) & _ & HMs) He HM'.
  assert (∀ b, own (pe_sys cl) Qs b → b ≠ pe_sys st ∧ b ≠ pe_block st ∧ b ≠ pe_block cl) as Hcd
    by (intros b; by apply (own_cl Qs cl st Hst)).
  split; [done|]. split; [|split; [split; [|split; [done|]]|split; [done|]]].
  - eapply mb_extF; [exact He| |exact Hid]. intros j _ Hj. by apply Hcd in Hj as (_ & _ & ?).
  - eapply station_ext; [exact He| |exact Hstn]. intros j Hj. by apply Hcd in Hj as (_ & ? & _).
  - eapply mb_extF; [exact He| |exact Hc]. intros j _ Hj. by apply Hcd in Hj as (_ & ? & _).
  - eapply mail_other; [exact He| |exact HMs|exact HM']. intros j Hj. by apply Hcd in Hj as [? _].
Qed.

(** The station used its communication system and changed its subscribers. *)
Lemma air_st w w' subs subs' M M' :
  on_air w subs M → ext (λ b i, own (pe_sys st) Qs b ∨ subs_range (pe_block st) b i) w w' →
  working (pe_proc st) (pe_comm st) w' (pe_block st) (pe_id st) subs' →
  all_mail (pe_proc st) (pe_sys st) Qs w' M' → on_air w' subs' M'.
Proof.
  intros (Hp & Hid & _ & HMc & _) He Hw' HM'. pose proof Hp as (_ & Hsb & _ & Hbb & _).
  assert (∀ b i, own (pe_sys st) Qs b ∨ subs_range (pe_block st) b i → b ≠ pe_sys cl ∧ b ≠ pe_block cl) as Hsf.
  { intros b j [Hj|[-> _]]; [by apply (own_db Qs cl st Hcl) in Hj as (? & _ & ?)|done]. }
  split; [done|]. split; [|split; [done|split; [|done]]].
  - eapply mb_extF; [exact He| |exact Hid]. intros j _ Hj. by apply Hsf in Hj as [_ ?].
  - eapply mail_other; [exact He| |exact HMc|exact HM']. intros j Hj. by apply Hsf in Hj as [? _].
Qed.

Lemma air_out e w subs M : on_air w subs M → on_air (add_out e w) subs M.
Proof.
  intros (Hp & Hid & Hw & HMc & HMs). split; [done|]. split; [exact Hid|]. split; [exact Hw|].
  split; by apply all_mail_out.
Qed.

Lemma subscribe_step w M :
  on_air w [] M → M !! pe_id st = Some [] →
  ∃ w', step_as (pe_proc cl) (WeatherClientTask_subscribe_to (pe_comm cl) (pe_this cl) (pe_id st)) w = Some w' ∧
    on_air w' [] (<[pe_id st := [sub_msg (pe_id cl)]]> M) ∧ w_out w' = w_out w.
Proof.
  intros Ha HMs. pose proof Ha as (_ & _ & _ & HM & _).
  destruct (wp_step _ _ _ _ (subscribe_to_wp (pe_proc cl) (pe_comm cl) w _ _ (pe_id st) M [] (air_client _ _ _ Ha) HM HMs
    (task_room_empty _ _ _ w M _ sizeof_BarMsg HM HMs ltac:(done)))) as ([] & w1 & E & HM1 & He1 & _).
  exists w1. split; [exact E|]. split; [by eapply air_cl|by eapply ext_output].
Qed.

Lemma client_hears fuel w subs M s :
  on_air w subs M → M !! pe_id cl = Some [weather_msg s] → is_s32 s →
  ∃ w', step_as (pe_proc cl) (WeatherClientTask_receive fuel (pe_comm cl) (pe_this cl)) w = Some w' ∧
    on_air w' subs (<[pe_id cl := []]> M) ∧ w_out w' = w_out w ++ [weather_line s].
Proof.
  intros Ha HMc Hs. pose proof Ha as (_ & _ & _ & HM & _).
  destruct (wp_step _ _ _ _ (weather_receive_wp (pe_proc cl) (pe_comm cl) fuel w _ _ M s [] (air_client _ _ _ Ha) HM HMc Hs))
    as ([] & w' & E & w1 & -> & HM1 & He1 & _).
  eexists. split; [exact E|]. split; [by eapply air_out, air_cl|]. cbn. by rewrite (ext_output _ _ _ He1).
Qed.

(** Who subscribed has nothing in its queue: there is room for the weather. *)
Lemma only_client M w :
  all_mail (pe_proc st) (pe_sys st) Qs w M → M !! pe_id cl = Some [] →
  ∀ s, s ∈ [pe_id cl] → is_Some (M !! s) ∧ task_room Qs w s (m_size (weather_msg (pe_id st))).
Proof.
  intros HM HMc s ->%list_elem_of_singleton. split; [by eexists|]. by eapply task_room_empty.
Qed.

Lemma deliver_one M t m : M !! t = Some [] → deliver M [t] m !! t = Some [m].
Proof. intros Ht. unfold deliver. rewrite map_lookup_imap, Ht. cbn. by rewrite decide_True by (by left). Qed.

(** The weather is in the queue of the client: it prints it. *)
Lemma round_ends fuel w w1 M c :
  run_as (pe_proc st) (station_turns fuel period (pe_comm st) (pe_this st) 0) w = Some (c, w1) →
  on_air w1 [pe_id cl] (deliver M [pe_id cl] (weather_msg (pe_id st))) →
  M !! pe_id cl = Some [] → M !! pe_id st = Some [] → c = 0 →
  ∃ w', weather_round fuel cl st 0 w = Some (0, w') ∧ quiet w' [pe_id cl] ∧ w_out w' = w_out w1 ++ [weather_line (pe_id st)].
Proof.
  intros E Ha HMc HMs ->. pose proof Ha as ((_ & _ & _ & _ & _ & _ & _ & Hne & Hic & His) & _).
  destruct (client_hears fuel _ _ _ _ Ha (deliver_one _ _ _ HMc) His) as (w' & E' & Ha' & Hout).
  exists w'. unfold weather_round. rewrite E. cbn [mbind option_bind]. rewrite E'. split; [done|]. split; [|done].
  eexists. split; [exact Ha'|]. split; [by rewrite lookup_insert_eq|].
  rewrite lookup_insert_ne by done. rewrite deliver_other; [done|]. by intros E1%list_elem_of_singleton.
Qed.

Lemma first_round fuel w M :
  on_air w [] M → M !! pe_id cl = Some [] → M !! pe_id st = Some [sub_msg (pe_id cl)] →
  ∃ w', weather_round fuel cl st 0 w = Some (0, w') ∧ quiet w' [pe_id cl] ∧
    w_out w' = w_out w ++ [sub_line (pe_id cl); weather_line (pe_id st)].
Proof.
  intros Ha HMc HMs. pose proof Ha as ((_ & _ & _ & _ & _ & _ & _ & Hne & Hic & His) & _ & Hw & _ & HM).
  destruct (wp_run_as _ _ _ _ (sub_period_wp (pe_proc st) (pe_comm st) fuel (Z.to_nat 9999998) w _ _ [] M (pe_id cl) Hw HM HMs Hic
    ltac:(cbn; unfold MAX_SUBS; lia) ltac:(by intros ?%list_elem_of_singleton) (NoDup_singleton _) (only_client _ _ HM HMc) ltac:(lia)))
    as (c & w1 & E & -> & Hw1 & HM1 & He1).
  replace (S (S (Z.to_nat 9999998))) with period in E by (unfold period; lia).
  assert (on_air w1 [pe_id cl] (deliver (<[pe_id st := []]> M) [pe_id cl] (weather_msg (pe_id st)))) as Ha1
    by (eapply air_st; [apply air_out, Ha|done..]).
  destruct (round_ends fuel _ _ _ _ E Ha1) as (w' & Er & Hq & Hout); [by rewrite lookup_insert_ne|by rewrite lookup_insert_eq|done|].
  exists w'. split; [done|]. split; [done|]. rewrite Hout, (ext_output _ _ _ He1). cbn. by rewrite <- app_assoc.
Qed.

Lemma next_round fuel w :
  quiet w [pe_id cl] → ∃ w', weather_round fuel cl st 0 w = Some (0, w') ∧ quiet w' [pe_id cl] ∧
    w_out w' = w_out w ++ [weather_line (pe_id st)].
Proof.
  intros (M & Ha & HMc & HMs). pose proof Ha as (_ & _ & Hw & _ & HM).
  destruct (wp_run_as _ _ _ _ (period_wp (pe_proc st) (pe_comm st) fuel (Z.to_nat 9999999) w _ _ [pe_id cl] M 0 Hw HM HMs
    (NoDup_singleton _) (only_client _ _ HM HMc) ltac:(lia) ltac:(lia))) as (c & w1 & E & -> & Hw1 & HM1 & He1).
  replace (S (Z.to_nat 9999999)) with period in E by (unfold period; lia).
  assert (on_air w1 [pe_id cl] (deliver M [pe_id cl] (weather_msg (pe_id st)))) as Ha1
    by (eapply air_st; [exact Ha|eapply ext_weaken; [|exact He1]; by left|done|done]).
  destruct (round_ends fuel _ _ _ _ E Ha1 HMc HMs) as (w' & Er & Hq & Hout); [done|].
  exists w'. split; [done|]. split; [done|]. by rewrite Hout, (ext_output _ _ _ He1).
Qed.

Lemma rounds_print fuel n w :
  quiet w [pe_id cl] → ∃ w', weather_rounds fuel n cl st 0 w = Some (0, w') ∧ quiet w' [pe_id cl] ∧
    w_out w' = w_out w ++ replicate n (weather_line (pe_id st)).
Proof.
  revert w. induction n as [|n IH]; intros w Hq; [exists w; by rewrite app_nil_r|]. cbn [weather_rounds].
  destruct (next_round fuel w Hq) as (w1 & -> & Hq1 & Hout1). destruct (IH w1 Hq1) as (w2 & E2 & Hq2 & Hout2).
  exists w2. split; [exact E2|]. split; [done|]. rewrite Hout2, Hout1, <- app_assoc. done.
Qed.

End air.

(** C6. A client subscribes to a weather station in another process: no step fails,
    the station takes the subscription in its next turn, and with each broadcast,
    every 10,000,000 turns, the client prints the weather of this station exactly
    once. *)
Theorem weather_arrives Qs cl st (Hcl : table_ok (pe_sys cl) Qs) (Hst : table_ok (pe_sys st) Qs) fuel n w :
  quiet Qs cl st Hst w [] →
  ∃ w', weather_session fuel (S n) cl st w = Some (0, w') ∧ quiet Qs cl st Hst w' [pe_id cl] ∧
    w_out w' = w_out w ++ sub_line (pe_id cl) :: replicate (S n) (weather_line (pe_id st)).
Proof.
  intros (M & Ha & HMc & HMs). pose proof Ha as ((_ & _ & _ & _ & _ & _ & _ & Hne & _) & _).
  destruct (subscribe_step Qs cl st Hcl Hst w M Ha HMs) as (w1 & E1 & Ha1 & Hout1).
  destruct (first_round Qs cl st Hcl Hst fuel w1 _ Ha1) as (w2 & E2 & Hq2 & Hout2); [by rewrite lookup_insert_ne|by rewrite lookup_insert_eq|].
  destruct (rounds_print Qs cl st Hcl Hst fuel n w2 Hq2) as (w3 & E3 & Hq3 & Hout3).
  exists w3. unfold weather_session. rewrite E1. cbn [mbind option_bind weather_rounds]. rewrite E2. cbn [mbind option_bind].
  split; [exact E3|]. split; [done|]. rewrite Hout3, Hout2, Hout1, <- app_assoc. done.
Qed.

(** ** A client in process 2 and a station in process 1 *)

Definition demo_station_init : M unit :=
  Comm <- malloc sizeof_System;; System_initialize Comm;;; createMsgQ Comm 1;;;
  t <- malloc sizeof_WeatherStationTask;; set_int t Task_taskID 1;;; WeatherStationTask_init t.

Definition demo_listener_init : M unit :=
  Comm <- malloc sizeof_System;; System_initialize Comm;;; createMsgQ Comm 2;;;
  c <- malloc sizeof_WeatherClientTask;; set_int c Task_taskID 2;;; WeatherClientTask_init c.

Definition demo_air : world := Eval vm_compute in
  state_of demo_listener_init 2 (state_of demo_station_init 1 (world_init 0 [] [])).

Lemma demo_air_queue q : q = 2 ∨ q = 5 → q_inv demo_air q (ring_empty sizeof_Queue).
Proof. intros [->| ->]; apply q_inv_empty; by_eval. Qed.

Lemma demo_air_quiet : quiet demo_queues demo_cl demo_db demo_table demo_air [].
Proof.
  exists demo_empty_mail. split; [|by split]. split.
  { split_and!; try by_eval. all: intros t q Ht%demo_queue; cbn; lia. }
  split; [by_eval|]. split.
  { split; [|split; [by_eval|by_eval]]. split; [apply wokb_spec; vm_compute; reflexivity|].
    split; [by_eval|]. split; [by_eval|]. split; [|split; [done|constructor]].
    intros [?|[t Ht%demo_queue]]; [done|cbn in *; lia]. }
  split; (apply demo_two_mail; [unfold calls; by_eval|apply demo_air_queue|]);
    intros t q [[-> ->]|[-> ->]]%demo_queue; (split; [by_eval|]).
  - exists Null. by_eval.
  - exists (Addr 2 5 0). by_eval.
  - exists (Addr 1 2 0). by_eval.
  - exists Null. by_eval.
Qed.

Lemma weather_arrives_witness :
  ∃ w', weather_session 3 4 demo_cl demo_db demo_air = Some (0, w') ∧
    w_out w' = w_out demo_air ++ sub_line 2 :: replicate 4 (weather_line 1).
Proof.
  destruct (weather_arrives demo_queues demo_cl demo_db demo_cl_table demo_table 3 3 demo_air demo_air_quiet)
    as (w' & E & _ & Hout).
  exists w'. split; [exact E|exact Hout].
Defined.
