(* ===== verification/SampleSort.v ===== *)
(** * The parallel sort: SampleSortTask and BucketTask

    [src/Tasks/SampleSortTask] samples the data, picks splitters, starts one
    [BucketTask] per bucket and gives each one a part of the data; each bucket
    splits its part by the splitters; the root gives each bucket the addresses
    of its values in all the parts, and each bucket copies and sorts them.  The
    tasks share one address space and send each other addresses.

    The [start] functions are cut where they wait for a message, so that the
    pieces of different tasks can be put in the order they run in. *)

From S2P Require Import Prelude CMem Messages CircularMsgQ System TimeHelper Tasks.
From stdpp Require Import base numbers list strings gmap.
#[local] Open Scope Z_scope.
#[local] Open Scope ts_scope.

(** The message tags, the same [enum] in both files. *)
Definition BAR_MSG : Z := 0.
Definition REF_INTARRAY_MSG : Z := 1.
Definition TOPOLOGY_MSG : Z := 2.
Definition DATA_REF_MSG : Z := 3.
Definition SPLITTER_MSG : Z := 4.
Definition GET_SUB_ARRAY_MSG : Z := 5.
Definition SUB_ARRAT_MSG : Z := 6.
Definition SET_SUB_ARRAY_MSG : Z := 7.
Definition DONE_MSG : Z := 8.

(** [%lds,%ldms] of a difference. *)
Definition ms_args (d : timespec) : list parg :=
  [AInt (tv_sec d); AInt (Z.quot (tv_nsec d) 1000000)].

(** ** BucketTask *)

Definition BucketTask_struct : struct_decl :=
  task_members ++
  [("bucket_count", CInt); ("bucket_ids", CPtr); ("root_id", CUInt);
   ("data_ref", CPtr); ("data_size", CInt); ("splitters", CPtr); ("splitter_size", CInt);
   ("final_data_values", CPtr); ("final_data_size", CInt);
   ("send_time_acc", COpaque sizeof_timespec 8); ("receive_wait_acc", COpaque sizeof_timespec 8);
   ("rebuild_start", COpaque sizeof_timespec 8); ("rebuild_end", COpaque sizeof_timespec 8)]%string.

Definition sizeof_BucketTask := Eval vm_compute in struct_size BucketTask_struct.
Definition BucketTask_bucket_count := Eval vm_compute in member BucketTask_struct "bucket_count".
Definition BucketTask_bucket_ids := Eval vm_compute in member BucketTask_struct "bucket_ids".
Definition BucketTask_root_id := Eval vm_compute in member BucketTask_struct "root_id".
Definition BucketTask_data_ref := Eval vm_compute in member BucketTask_struct "data_ref".
Definition BucketTask_data_size := Eval vm_compute in member BucketTask_struct "data_size".
Definition BucketTask_splitters := Eval vm_compute in member BucketTask_struct "splitters".
Definition BucketTask_splitter_size := Eval vm_compute in member BucketTask_struct "splitter_size".
Definition BucketTask_final_data_values := Eval vm_compute in member BucketTask_struct "final_data_values".
Definition BucketTask_final_data_size := Eval vm_compute in member BucketTask_struct "final_data_size".
Definition BucketTask_send_time_acc := Eval vm_compute in member BucketTask_struct "send_time_acc".
Definition BucketTask_receive_wait_acc := Eval vm_compute in member BucketTask_struct "receive_wait_acc".
Definition BucketTask_rebuild_start := Eval vm_compute in member BucketTask_struct "rebuild_start".
Definition BucketTask_rebuild_end := Eval vm_compute in member BucketTask_struct "rebuild_end".

Definition BucketTask_create (Comm : ptr) : M Z :=
  Task_create Comm sizeof_BucketTask no_init "BucketTask.run".

Definition BucketTask_message_notify (Comm this : ptr) : M unit := Task_message_notify Comm this.

Definition BucketTask_message_wait (Comm this : ptr) : M unit := Task_message_wait Comm this.

Definition BucketTask_message_immediate (Comm this : ptr) : M Z :=
  Task_message_immediate Comm this.

Definition BucketTask_repository_set_name (Comm this name : ptr) : M unit :=
  Task_repository_set_name Comm this name.

Definition BucketTask_repository_get_id (Comm this task_name : ptr) : M Z :=
  Task_repository_get_id Comm this task_name.

(** [acc = tsAdd(acc, diff(start, end));] *)
Definition accumulate (p : ptr) (start end' : timespec) : M unit :=
  acc <- ld_timespec p;; st_timespec p (tsAdd acc (diff start end')).

Definition BucketTask_send (Comm this data : ptr) (target : Z) : M Z :=
  send_start <- now;;
  res <- Comm_send Comm data target;;
  send_end <- now;;
  accumulate (addr_of this BucketTask_send_time_acc) send_start send_end;;;
  ret res.

(** The comparison subtracts, and wraps. *)
Definition buckettask_cmpfunc (a b : Z) : Z := s32 (a - b).

Definition BucketTask_handle_TopologyMsg (this topologyMsg : ptr) : M unit :=
  taskID <- get_int this Task_taskID;;
  printf "Bucket %d received topology" [AInt taskID];;;
  copy_field this BucketTask_bucket_count topologyMsg TopologyMsg_bucket_count;;;
  bucket_count <- get_int topologyMsg TopologyMsg_bucket_count;;
  arr <- malloc (bucket_count * 4);;
  set_ptr this BucketTask_bucket_ids arr;;;
  ids <- get_ptr topologyMsg TopologyMsg_bucket_ids;;
  copy_array 4 arr ids bucket_count;;;
  copy_field this BucketTask_root_id topologyMsg TopologyMsg_root_id.

Definition BucketTask_handle_DataRefMsg (this refintarrayMsg : ptr) : M unit :=
  taskID <- get_int this Task_taskID;;
  printf "Bucket %d received reference to data" [AInt taskID];;;
  size <- call_RefIntArrayMsg_getSize refintarrayMsg;;
  set_int this BucketTask_data_size size;;;
  copy_field this BucketTask_data_ref refintarrayMsg RefIntArrayMsg_values.

Definition BucketTask_handle_SplitterMsg (this intarrayMsg : ptr) : M unit :=
  taskID <- get_int this Task_taskID;;
  printf "Bucket %d received splitters" [AInt taskID];;;
  size <- call_IntArrayMsg_getSize intarrayMsg;;
  set_int this BucketTask_splitter_size size;;;
  size' <- call_IntArrayMsg_getSize intarrayMsg;;
  splitters <- malloc (size' * 4);;
  set_ptr this BucketTask_splitters splitters;;;
  for_range 0 size' (λ i,
    v <- call_IntArrayMsg_getValue intarrayMsg i;; st_i32 (idx_i32 splitters i) v).

Definition BucketTask_handle_GetSubArrayMsg (this doneMsg : ptr) : M unit :=
  taskID <- get_int this Task_taskID;;
  printf "Bucket %d received GetSubArrayMsg request" [AInt taskID].

(** [final_data_size += counts[i]], over all [i]. *)
Definition rebuild_size (this reftwodimMsg : ptr) (size : Z) : M unit :=
  set_int this BucketTask_final_data_size 0;;;
  for_range 0 size (λ i,
    counts <- get_ptr reftwodimMsg RefTwoDimIntArrayMsg_counts;;
    c <- ld_i32 (idx_i32 counts i);;
    s <- get_int this BucketTask_final_data_size;;
    set_int this BucketTask_final_data_size (s + c)).

(** The copy loops; the state is [index]. *)
Definition rebuild_copy (this reftwodimMsg : ptr) (size : Z) : M unit :=
  for_fold (Z.to_nat size) 0 0 (λ i index,
    counts <- get_ptr reftwodimMsg RefTwoDimIntArrayMsg_counts;;
    c <- ld_i32 (idx_i32 counts i);;
    for_fold (Z.to_nat c) 0 index (λ j index,
      values <- get_ptr reftwodimMsg RefTwoDimIntArrayMsg_values;;
      row <- ld_ptr (idx_ptr values i);;
      v <- ld_i32 (idx_i32 row j);;
      final_data_values <- get_ptr this BucketTask_final_data_values;;
      st_i32 (idx_i32 final_data_values index) v;;;
      ret (index + 1)));;;
  ret tt.

Definition BucketTask_handle_SetSubArrayMsg (this reftwodimMsg : ptr) : M unit :=
  taskID <- get_int this Task_taskID;;
  printf "Bucket %d received SetSubArrayMsg" [AInt taskID];;;
  t <- now;; st_timespec (addr_of this BucketTask_rebuild_start) t;;;
  size <- get_int reftwodimMsg RefTwoDimIntArrayMsg_size;;
  rebuild_size this reftwodimMsg size;;;
  final_data_size <- get_int this BucketTask_final_data_size;;
  arr <- malloc (final_data_size * 4);;
  set_ptr this BucketTask_final_data_values arr;;;
  rebuild_copy this reftwodimMsg size;;;
  t' <- now;; st_timespec (addr_of this BucketTask_rebuild_end) t'.

Definition BucketTask_receive (fuel : nat) (Comm this : ptr) : M unit :=
  taskID <- get_int this Task_taskID;;
  tag0 <- Comm_getMsgTag Comm taskID;;
  tag <- (if tag0 <? 0 then (
            recv_start <- now;;
            tag <- while_fuel fuel tag0 (λ tag, tag <? 0) (λ _, Comm_getMsgTag Comm taskID);;
            recv_end <- now;;
            accumulate (addr_of this BucketTask_receive_wait_acc) recv_start recv_end;;;
            ret tag)
          else ret tag0);;
  if (tag =? BAR_MSG) || (tag =? REF_INTARRAY_MSG) then ret tt
  else if tag =? TOPOLOGY_MSG then
    (msg <- receive_mine Comm this;; BucketTask_handle_TopologyMsg this msg)
  else if tag =? DATA_REF_MSG then
    (msg <- receive_mine Comm this;; BucketTask_handle_DataRefMsg this msg)
  else if tag =? SPLITTER_MSG then
    (msg <- receive_mine Comm this;; BucketTask_handle_SplitterMsg this msg)
  else if tag =? GET_SUB_ARRAY_MSG then
    (msg <- receive_mine Comm this;; BucketTask_handle_GetSubArrayMsg this msg)
  else if tag =? SUB_ARRAT_MSG then ret tt
  else if tag =? SET_SUB_ARRAY_MSG then
    (msg <- receive_mine Comm this;; BucketTask_handle_SetSubArrayMsg this msg)
  else if tag =? DONE_MSG then ret tt
  else no_handler Comm this tag.

(** The loop over the splitters: [act] on the first bucket whose splitter is at
    least [val], on the last one when there is none. *)
Definition each_splitter (this : ptr) (val : Z) (act : Z → M unit) : M unit :=
  splitter_size <- get_int this BucketTask_splitter_size;;
  for_find (Z.to_nat splitter_size) 0 (λ si,
    splitters <- get_ptr this BucketTask_splitters;;
    s <- ld_i32 (idx_i32 splitters si);;
    if val <=? s then (act si;;; ret (Some tt))
    else if si =? splitter_size - 1 then (act si;;; ret (Some tt))
    else ret None);;;
  ret tt.

(** [p[i]++;] *)
Definition incr_i32 (p : ptr) (i : Z) : M unit :=
  c <- ld_i32 (idx_i32 p i);; st_i32 (idx_i32 p i) (c + 1).

(** [for (i = 0; i < this->data_size; i++) { int val = this->data_ref[i]; ... }] *)
Definition each_value (this : ptr) (body : Z → M unit) : M unit :=
  data_size <- get_int this BucketTask_data_size;;
  for_range 0 data_size (λ i,
    data_ref <- get_ptr this BucketTask_data_ref;;
    val <- ld_i32 (idx_i32 data_ref i);;
    body val).

(** "1) get count". *)
Definition get_counts (this : ptr) (bucket_count : Z) : M ptr :=
  counts <- malloc (bucket_count * 4);;
  for_range 0 bucket_count (λ i, st_i32 (idx_i32 counts i) 0);;;
  each_value this (λ val, each_splitter this val (λ si, incr_i32 counts si));;;
  ret counts.

(** "2) fill array", into the local arrays [values_to_propagate] and [current]. *)
Definition fill_arrays (this counts values_to_propagate current : ptr) (bucket_count : Z)
    : M unit :=
  for_range 0 bucket_count (λ i,
    c <- ld_i32 (idx_i32 counts i);;
    row <- malloc (4 * c);;
    st_ptr (idx_ptr values_to_propagate i) row;;;
    st_i32 (idx_i32 current i) 0);;;
  each_value this (λ val, each_splitter this val (λ si,
    row <- ld_ptr (idx_ptr values_to_propagate si);;
    c <- ld_i32 (idx_i32 current si);;
    st_i32 (idx_i32 row c) val;;;
    incr_i32 current si)).

(** The local variables of [start] that outlive a piece of it. *)
Record bucket_locals := BL {
  bl_values_to_propagate : ptr; bl_current : ptr;
  bl_get_sample : timespec; bl_get_splitter : timespec; bl_propagate : timespec
}.

(** Rounds 1 and 2: up to the wait for the sub-arrays. *)
Definition BucketTask_start_1 (fuel : nat) (Comm this : ptr) : M bucket_locals :=
  taskID <- get_int this Task_taskID;;
  printf "Bucket %d starting" [AInt taskID];;;
  memset0 (addr_of this BucketTask_send_time_acc) sizeof_timespec;;;
  memset0 (addr_of this BucketTask_receive_wait_acc) sizeof_timespec;;;
  BucketTask_message_notify Comm this;;; BucketTask_receive fuel Comm this;;;
  get_sample_start <- now;;
  BucketTask_message_notify Comm this;;; BucketTask_receive fuel Comm this;;;
  get_sample_end <- now;;
  get_splitter_start <- now;;
  BucketTask_message_notify Comm this;;; BucketTask_receive fuel Comm this;;;
  get_splitter_end <- now;;
  BucketTask_message_notify Comm this;;; BucketTask_receive fuel Comm this;;;
  propagate_start <- now;;
  bucket_count <- get_int this BucketTask_bucket_count;;
  counts <- get_counts this bucket_count;;
  values_to_propagate <- malloc (8 * bucket_count);;
  current <- malloc (4 * bucket_count);;
  fill_arrays this counts values_to_propagate current bucket_count;;;
  ref_to_root <- RefTwoDimIntArrayMsg_create SUB_ARRAT_MSG;;
  set_int ref_to_root RefTwoDimIntArrayMsg_size bucket_count;;;
  set_ptr ref_to_root RefTwoDimIntArrayMsg_counts counts;;;
  set_ptr ref_to_root RefTwoDimIntArrayMsg_values values_to_propagate;;;
  root_id <- get_int this BucketTask_root_id;;
  BucketTask_send Comm this ref_to_root root_id;;;
  call_destroy ref_to_root;;;
  propagate_end <- now;;
  BucketTask_message_wait Comm this;;;
  ret (BL values_to_propagate current (diff get_sample_start get_sample_end)
         (diff get_splitter_start get_splitter_end) (diff propagate_start propagate_end)).

Definition bucket_timing (taskID : Z) (what : string) (d : timespec) : M unit :=
  printf ("TIMING-BUCKET %d %lds,%ldms - " +:+ what) (AInt taskID :: ms_args d).

(** Round 3: the local arrays go when [start] returns. *)
Definition BucketTask_start_2 (fuel : nat) (Comm this : ptr) (l : bucket_locals) : M unit :=
  BucketTask_message_notify Comm this;;; BucketTask_receive fuel Comm this;;;
  finalize_start <- now;;
  final_data_values <- get_ptr this BucketTask_final_data_values;;
  final_data_size <- get_int this BucketTask_final_data_size;;
  qsort final_data_values final_data_size buckettask_cmpfunc;;;
  finalize_end <- now;;
  taskID <- get_int this Task_taskID;;
  bucket_timing taskID "Get sample time" (bl_get_sample l);;;
  bucket_timing taskID "Waiting on splitter time" (bl_get_splitter l);;;
  bucket_timing taskID "Propagation time" (bl_propagate l);;;
  rebuild_start <- ld_timespec (addr_of this BucketTask_rebuild_start);;
  rebuild_end <- ld_timespec (addr_of this BucketTask_rebuild_end);;
  bucket_timing taskID "Rebuild array time" (diff rebuild_start rebuild_end);;;
  bucket_timing taskID "Final sorting time" (diff finalize_start finalize_end);;;
  send_time_acc <- ld_timespec (addr_of this BucketTask_send_time_acc);;
  bucket_timing taskID "Send time accumulator" send_time_acc;;;
  receive_wait_acc <- ld_timespec (addr_of this BucketTask_receive_wait_acc);;
  bucket_timing taskID "Receive waiting accumulator" receive_wait_acc;;;
  printf "TIMING-BUCKET %d %d - Reveived values" [AInt taskID; AInt final_data_size];;;
  output_done_msg <- DoneMsg_create DONE_MSG;;
  set_int output_done_msg DoneMsg_success 1;;;
  root_id <- get_int this BucketTask_root_id;;
  BucketTask_send Comm this output_done_msg root_id;;;
  call_destroy output_done_msg;;;
  printf "Bucket %d is done" [AInt taskID];;;
  free (bl_current l);;; free (bl_values_to_propagate l).

Definition BucketTask_start (fuel : nat) (Comm this : ptr) : M unit :=
  l <- BucketTask_start_1 fuel Comm this;; BucketTask_start_2 fuel Comm this l.

Definition BucketTask_run (fuel : nat) (Comm BucketTaskRef : ptr) : M unit :=
  Task_run (BucketTask_start fuel Comm) BucketTaskRef.

(** ** SampleSortTask *)

Definition SampleSortTask_struct : struct_decl :=
  task_members ++
  [("data", CPtr); ("size", CInt); ("K", CInt); ("buckets_values_arr", CPtr);
   ("buckets_values_arr_count", CInt)]%string.

Definition sizeof_SampleSortTask := Eval vm_compute in struct_size SampleSortTask_struct.
Definition SampleSortTask_data := Eval vm_compute in member SampleSortTask_struct "data".
Definition SampleSortTask_size := Eval vm_compute in member SampleSortTask_struct "size".
Definition SampleSortTask_K := Eval vm_compute in member SampleSortTask_struct "K".
Definition SampleSortTask_buckets_values_arr := Eval vm_compute in member SampleSortTask_struct "buckets_values_arr".
Definition SampleSortTask_buckets_values_arr_count := Eval vm_compute in member SampleSortTask_struct "buckets_values_arr_count".

Definition SampleSortTask_create (Comm : ptr) : M Z :=
  Task_create Comm sizeof_SampleSortTask no_init "SampleSortTask.run".

Definition SampleSortTask_send (Comm this data : ptr) (target : Z) : M Z :=
  Task_send Comm this data target.

Definition SampleSortTask_message_notify (Comm this : ptr) : M unit := Task_message_notify Comm this.

Definition SampleSortTask_message_wait (Comm this : ptr) : M unit := Task_message_wait Comm this.

Definition SampleSortTask_message_immediate (Comm this : ptr) : M Z :=
  Task_message_immediate Comm this.

Definition SampleSortTask_repository_set_name (Comm this name : ptr) : M unit :=
  Task_repository_set_name Comm this name.

Definition SampleSortTask_repository_get_id (Comm this task_name : ptr) : M Z :=
  Task_repository_get_id Comm this task_name.

Definition samplesorttask_cmpfunc (a b : Z) : Z := s32 (a - b).

Definition RAND_MAX : Z := 2147483647.

(** [(unsigned long) z]. *)
Definition u64 (z : Z) : Z := z mod 18446744073709551616.

(** [do x = random(); while (num_rand - defect <= (unsigned long)x);] *)
Fixpoint draw (fuel : nat) (limit : Z) : M Z :=
  match fuel with
  | O => spin
  | S fuel' => x <- random;; if limit <=? u64 x then draw fuel' limit else ret x
  end.

Definition random_at_most (fuel : nat) (max : Z) : M Z :=
  let num_bins := u64 (u64 max + 1) in
  let num_rand := RAND_MAX + 1 in
  if num_bins =? 0 then fault else (
  let bin_size := num_rand / num_bins in
  let defect := num_rand mod num_bins in
  x <- draw fuel (u64 (num_rand - defect));;
  if bin_size =? 0 then fault else ret (u64 x / bin_size)).

Definition SampleSortTask_handle_BarMsg (this barMsg : ptr) : M unit :=
  taskID <- get_int this Task_taskID;;
  printf "Samplesort task id %d received K" [AInt taskID];;;
  value <- call_BarMsg_getValue barMsg;;
  set_int this SampleSortTask_K value.

Definition SampleSortTask_handle_RefIntArrayMsg (this refIntArrayMsg : ptr) : M unit :=
  taskID <- get_int this Task_taskID;;
  printf "Samplesort task id %d received initial data" [AInt taskID];;;
  size <- call_RefIntArrayMsg_getSize refIntArrayMsg;;
  set_int this SampleSortTask_size size;;;
  copy_field this SampleSortTask_data refIntArrayMsg RefIntArrayMsg_values.

Definition SampleSortTask_handle_SubArrayMsg (this reftwodimMsg : ptr) : M unit :=
  taskID <- get_int this Task_taskID;;
  printf "Samplesort task id %d received sub array data" [AInt taskID];;;
  arr <- get_ptr this SampleSortTask_buckets_values_arr;;
  count <- get_int this SampleSortTask_buckets_values_arr_count;;
  st_ptr (idx_ptr arr count) reftwodimMsg;;;
  set_int this SampleSortTask_buckets_values_arr_count (count + 1).

Definition SampleSortTask_handle_DoneMsg (this doneMsg : ptr) : M unit :=
  taskID <- get_int this Task_taskID;;
  printf "Samplesort task id %d received done message" [AInt taskID].

Definition SampleSortTask_receive (fuel : nat) (Comm this : ptr) : M unit :=
  tag <- wait_tag fuel Comm this;;
  if tag =? BAR_MSG then
    (msg <- receive_mine Comm this;; SampleSortTask_handle_BarMsg this msg)
  else if tag =? REF_INTARRAY_MSG then
    (msg <- receive_mine Comm this;; SampleSortTask_handle_RefIntArrayMsg this msg)
  else if (tag =? TOPOLOGY_MSG) || (tag =? DATA_REF_MSG) || (tag =? SPLITTER_MSG)
       || (tag =? GET_SUB_ARRAY_MSG) then ret tt
  else if tag =? SUB_ARRAT_MSG then
    (msg <- receive_mine Comm this;; SampleSortTask_handle_SubArrayMsg this msg)
  else if tag =? SET_SUB_ARRAY_MSG then ret tt
  else if tag =? DONE_MSG then
    (msg <- receive_mine Comm this;; SampleSortTask_handle_DoneMsg this msg)
  else no_handler Comm this tag.

Definition SAMPLE_SIZE : Z := 1500.

(** "1)" and "2)": the sample, sorted. *)
Definition take_sample (fuel : nat) (this samples : ptr) (n : Z) : M unit :=
  for_range 0 n (λ i,
    size <- get_int this SampleSortTask_size;;
    val <- random_at_most fuel (size - 1);;
    data <- get_ptr this SampleSortTask_data;;
    x <- ld_i32 (idx_i32 data val);;
    st_i32 (idx_i32 samples i) x);;;
  qsort samples n samplesorttask_cmpfunc.

(** "3)": the last splitter is not important. *)
Definition pick_splitters (samples splitters : ptr) (n K : Z) : M unit :=
  step <- int_div n K;;
  printf "Splitter : " [];;;
  for_range 0 (K - 1) (λ i,
    v <- ld_i32 (idx_i32 samples ((i + 1) * step));;
    st_i32 (idx_i32 splitters i) v;;;
    printf "(i=%d,v=%d) " [AInt i; AInt v]);;;
  st_i32 (idx_i32 splitters (K - 1)) 1000000;;;
  printf "" [].

Definition send_topology (Comm this buckets : ptr) (K size_per_task : Z) : M unit :=
  topo_msg <- TopologyMsg_create TOPOLOGY_MSG;;
  taskID <- get_int this Task_taskID;;
  call_TopologyMsg_setRootId topo_msg taskID;;;
  call_TopologyMsg_setBucketIds topo_msg K buckets;;;
  set_int topo_msg TopologyMsg_sample_size size_per_task;;;
  copy_field topo_msg TopologyMsg_data_size this SampleSortTask_size;;;
  for_range 0 K (λ i,
    b <- ld_i32 (idx_i32 buckets i);; SampleSortTask_send Comm this topo_msg b;;; ret tt);;;
  call_destroy topo_msg;;;
  printf "Topology send" [].

(** The last bucket has the rest; [current] is [ki * size_per_task]. *)
Definition send_data_refs (Comm this buckets : ptr) (K size_per_task : Z) : M unit :=
  for_fold (Z.to_nat K) 0 0 (λ ki current,
    data_msg <- RefIntArrayMsg_create DATA_REF_MSG;;
    data <- get_ptr this SampleSortTask_data;;
    (if ki <? K - 1 then
       call_RefIntArrayMsg_setValues data_msg size_per_task (idx_i32 data current)
     else (size <- get_int this SampleSortTask_size;;
           call_RefIntArrayMsg_setValues data_msg (size - current) (idx_i32 data current)));;;
    b <- ld_i32 (idx_i32 buckets ki);;
    SampleSortTask_send Comm this data_msg b;;;
    call_destroy data_msg;;;
    ret (current + size_per_task));;;
  ret tt.

Definition send_splitters (Comm this buckets splitters : ptr) (K : Z) : M unit :=
  splitters_msg <- IntArrayMsg_create SPLITTER_MSG;;
  call_IntArrayMsg_setValues splitters_msg K splitters;;;
  for_range 0 K (λ ki,
    b <- ld_i32 (idx_i32 buckets ki);; SampleSortTask_send Comm this splitters_msg b;;; ret tt);;;
  call_destroy splitters_msg.

Definition send_get_sub_array (Comm this buckets : ptr) (K : Z) : M unit :=
  getSubArraySignal <- DoneMsg_create GET_SUB_ARRAY_MSG;;
  set_int getSubArraySignal DoneMsg_success 1;;;
  for_range 0 K (λ ki,
    b <- ld_i32 (idx_i32 buckets ki);;
    SampleSortTask_send Comm this getSubArraySignal b;;; ret tt);;;
  call_destroy getSubArraySignal.

(** The local variables of [start] that outlive a piece of it. *)
Record root_locals := RL {
  rl_samples : ptr; rl_splitters : ptr; rl_buckets : ptr;
  rl_initialization : timespec; rl_random : timespec; rl_bucket_spawn : timespec;
  rl_wait_bucket_start : timespec
}.

(** From the start to the wait for the sub-arrays.  [sample_size] is
    [SAMPLE_SIZE] in the code. *)
Definition SampleSortTask_start_1 (fuel : nat) (sample_size : Z) (Comm this : ptr) : M root_locals :=
  initialization_start <- now;;
  SampleSortTask_receive fuel Comm this;;;
  SampleSortTask_receive fuel Comm this;;;
  size <- get_int this SampleSortTask_size;;
  K <- get_int this SampleSortTask_K;;
  size_per_task <- int_div size K;;
  initialization_end <- now;;
  printf "Size per task = %d (N=%d, K=%d) " [AInt size_per_task; AInt size; AInt K];;;
  random_start <- now;;
  samples <- malloc (4 * sample_size);;
  take_sample fuel this samples sample_size;;;
  splitters <- malloc (4 * K);;
  pick_splitters samples splitters sample_size K;;;
  random_end <- now;;
  bucket_spawn_start <- now;;
  buckets <- malloc (4 * K);;
  for_range 0 K (λ i, b <- BucketTask_create Comm;; st_i32 (idx_i32 buckets i) b);;;
  printf "Bucket tasks created" [];;;
  send_topology Comm this buckets K size_per_task;;;
  send_data_refs Comm this buckets K size_per_task;;;
  send_splitters Comm this buckets splitters K;;;
  bucket_spawn_end <- now;;
  printf "Phase 1 is done" [];;;
  wait_bucket_start <- now;;
  arr <- malloc (K * 8);;
  set_ptr this SampleSortTask_buckets_values_arr arr;;;
  set_int this SampleSortTask_buckets_values_arr_count 0;;;
  send_get_sub_array Comm this buckets K;;;
  SampleSortTask_message_wait Comm this;;;
  ret (RL samples splitters buckets (diff initialization_start initialization_end)
         (diff random_start random_end) (diff bucket_spawn_start bucket_spawn_end)
         wait_bucket_start).

(** One turn of the waits of phases 2 and 3. *)
Definition SampleSortTask_collect (fuel : nat) (Comm this : ptr) : M unit :=
  SampleSortTask_message_notify Comm this;;; SampleSortTask_receive fuel Comm this.

(** One turn of the loop of round 3: what bucket [ki] needs from all the others. *)
Definition SampleSortTask_distribute (Comm this : ptr) (l : root_locals) (ki : Z) : M unit :=
  ref_to_bucket <- RefTwoDimIntArrayMsg_create SET_SUB_ARRAY_MSG;;
  K <- get_int this SampleSortTask_K;;
  counts <- malloc (K * 4);;
  values <- malloc (K * 8);;
  for_range 0 K (λ kj,
    arr <- get_ptr this SampleSortTask_buckets_values_arr;;
    m <- ld_ptr (idx_ptr arr kj);;
    mcounts <- get_ptr m RefTwoDimIntArrayMsg_counts;;
    c <- ld_i32 (idx_i32 mcounts ki);;
    st_i32 (idx_i32 counts kj) c;;;
    mvalues <- get_ptr m RefTwoDimIntArrayMsg_values;;
    v <- ld_ptr (idx_ptr mvalues ki);;
    st_ptr (idx_ptr values kj) v);;;
  set_int ref_to_bucket RefTwoDimIntArrayMsg_size K;;;
  set_ptr ref_to_bucket RefTwoDimIntArrayMsg_counts counts;;;
  set_ptr ref_to_bucket RefTwoDimIntArrayMsg_values values;;;
  b <- ld_i32 (idx_i32 (rl_buckets l) ki);;
  SampleSortTask_send Comm this ref_to_bucket b;;;
  call_destroy ref_to_bucket.

Definition root_timing (what : string) (d : timespec) : M unit :=
  printf ("TIMING-SAMPLESORT %lds,%ldms - " +:+ what) (ms_args d).

(** The end of [start]; [errno] is the value of that variable. *)
Definition SampleSortTask_finish (errno : Z) (MainSleepCond : ptr) (l : root_locals) : M unit :=
  wait_bucket_end <- now;;
  printf "Phase 3 is done" [];;;
  printf "Samplesort completed" [];;;
  root_timing "Initialization time " (rl_initialization l);;;
  root_timing "Sample random sampling time " (rl_random l);;;
  root_timing "Sample bucket spawn with data/splitter time " (rl_bucket_spawn l);;;
  root_timing "Final waiting on bucket time " (diff (rl_wait_bucket_start l) wait_bucket_end);;;
  (if 0 <? errno then printf "Error number=%d" [AInt errno] else ret tt);;;
  cond_signal MainSleepCond;;;
  free (rl_buckets l);;; free (rl_splitters l);;; free (rl_samples l).

Definition SampleSortTask_start (fuel : nat) (errno : Z) (MainSleepCond Comm this : ptr) : M unit :=
  l <- SampleSortTask_start_1 fuel SAMPLE_SIZE Comm this;;
  K <- get_int this SampleSortTask_K;;
  for_range 0 K (λ _, SampleSortTask_collect fuel Comm this);;;
  printf "Phase 2 is done" [];;;
  for_range 0 K (λ ki, SampleSortTask_distribute Comm this l ki);;;
  for_range 0 K (λ _, SampleSortTask_collect fuel Comm this);;;
  SampleSortTask_finish errno MainSleepCond l.

Definition SampleSortTask_run (fuel : nat) (errno : Z) (MainSleepCond Comm SampleSortTaskRef : ptr)
    : M unit :=
  Task_run (SampleSortTask_start fuel errno MainSleepCond Comm) SampleSortTaskRef.

#[export] Hint Unfold BucketTask_bucket_count BucketTask_bucket_ids BucketTask_root_id BucketTask_data_ref BucketTask_data_size BucketTask_splitters BucketTask_splitter_size BucketTask_final_data_values BucketTask_final_data_size BucketTask_send_time_acc BucketTask_receive_wait_acc BucketTask_rebuild_start BucketTask_rebuild_end
  SampleSortTask_data SampleSortTask_size SampleSortTask_K SampleSortTask_buckets_values_arr SampleSortTask_buckets_values_arr_count
  sizeof_BucketTask sizeof_SampleSortTask : fields.
