(* ===== verification/SortPure.v ===== *)
(** * Sample sort as a function on lists

    The bucket of a value, the part of the data that goes to a bucket, and why
    the concatenation of the sorted buckets is the data, sorted. *)

From S2P Require Import Prelude CMem Tasks SampleSort.
From stdpp Require Import base numbers list sorting sets.
From Stdlib Require Import Lia.
#[local] Open Scope Z_scope.

(** The first splitter that is at least the value, the last one when there is
    none. *)
Fixpoint bucket_of (splitters : list Z) (val : Z) : nat :=
  match splitters with
  | [] | [_] => 0
  | s :: rest => if val <=? s then 0 else S (bucket_of rest val)
  end.

(** The values of bucket [i], in the order they come. *)
Definition part (splitters : list Z) (i : nat) (data : list Z) : list Z :=
  filter (λ v, bucket_of splitters v = i) data.

Lemma bucket_of_cons x y sl v :
  bucket_of (x :: y :: sl) v = if v <=? x then O else S (bucket_of (y :: sl) v).
Proof. done. Qed.

#[local] Arguments bucket_of : simpl never.

Lemma bucket_of_lt sl v : sl ≠ [] → (bucket_of sl v < length sl)%nat.
Proof.
  induction sl as [|s sl IH]; [done|]. intros _. destruct sl as [|s' sl]; [unfold bucket_of; cbn; lia|].
  rewrite bucket_of_cons. destruct (v <=? s); [cbn; lia|]. specialize (IH ltac:(done)). cbn [length] in *. lia.
Qed.

(** What the index says about the splitters. *)
Lemma bucket_of_le sl v i s :
  bucket_of sl v = i → (i < length sl - 1)%nat → sl !! i = Some s → v <= s.
Proof.
  revert i. induction sl as [|x sl IH]; intros i Hb Hi Hs; [done|]. destruct sl as [|y sl]; [cbn in Hi; lia|].
  rewrite bucket_of_cons in Hb. destruct (Z.leb_spec v x).
  - subst i. cbn in Hs. by injection Hs as <-.
  - subst i. cbn [lookup list_lookup] in Hs. eapply IH; [done| |exact Hs]. cbn [length] in *. lia.
Qed.

Lemma bucket_of_gt sl v j s :
  (j < bucket_of sl v)%nat → sl !! j = Some s → s < v.
Proof.
  revert j. induction sl as [|x sl IH]; intros j Hj Hs; [done|]. destruct sl as [|y sl]; [unfold bucket_of in Hj; lia|].
  rewrite bucket_of_cons in Hj. destruct (Z.leb_spec v x); [lia|].
  destruct j as [|j]; [cbn in Hs; injection Hs as <-; lia|].
  apply (IH j); [lia|done].
Qed.

(** Every bucket before another one has smaller values: the splitters need not
    even be sorted. *)
Lemma bucket_of_mono sl u v : (bucket_of sl u < bucket_of sl v)%nat → u < v.
Proof.
  intros H. assert (sl ≠ []) as Hne by (intros ->; revert H; unfold bucket_of; lia).
  pose proof (bucket_of_lt sl v Hne) as Hlt.
  destruct (lookup_lt_is_Some_2 sl (bucket_of sl u)) as [s Hs]; [lia|].
  assert (u <= s) by (apply (bucket_of_le sl u (bucket_of sl u)); [done|lia|done]).
  assert (s < v) by (eapply bucket_of_gt; [exact H|done]). lia.
Qed.

(** ** The parts make up the data *)

Lemma part_cons sl i v data :
  part sl i (v :: data) = if decide (bucket_of sl v = i) then v :: part sl i data else part sl i data.
Proof. unfold part. by rewrite filter_cons. Qed.

Lemma part_app sl i d1 d2 : part sl i (d1 ++ d2) = part sl i d1 ++ part sl i d2.
Proof. apply filter_app. Qed.

Lemma part_bucket sl i data v : v ∈ part sl i data → bucket_of sl v = i.
Proof. unfold part. rewrite list_elem_of_filter. by intros [-> _]. Qed.

Lemma parts_permutation sl data n :
  (∀ v, v ∈ data → (bucket_of sl v < n)%nat) →
  concat ((λ i, part sl i data) <$> seq 0 n) ≡ₚ data.
Proof.
  induction data as [|v data IH]; intros Hd.
  { clear Hd. induction (seq 0 n); cbn; done. }
  assert (bucket_of sl v < n)%nat as Hv by (apply Hd; left).
  etrans; [|apply perm_skip, IH; intros u Hu; apply Hd; by right]. clear IH Hd.
  set (i := bucket_of sl v) in *.
  replace n with (i + S (n - S i))%nat by lia. rewrite seq_app. cbn [seq Nat.add].
  rewrite !fmap_app, !fmap_cons, !concat_app. cbn [concat]. rewrite !part_cons.
  assert (∀ l : list nat, i ∉ l → (λ j, part sl j (v :: data)) <$> l = (λ j, part sl j data) <$> l) as Hout.
  { intros l Hl. apply list_fmap_ext. intros k j Hj. rewrite part_cons, decide_False; [done|].
    intros E. apply Hl. fold i in E. rewrite E. by eapply list_elem_of_lookup_2. }
  rewrite !Hout; [|rewrite elem_of_seq; lia..]. rewrite decide_True by done. cbn [app].
  symmetry. apply Permutation_middle.
Qed.

(** ** [qsort] *)

(** A comparison function that orders the values of [l] like numbers. *)
Definition orders (cmp : Z → Z → Z) (l : list Z) : Prop :=
  ∀ a b, a ∈ l → b ∈ l → (cmp a b <= 0 ↔ a <= b).

Lemma insert_by_perm cmp x l : insert_by cmp x l ≡ₚ x :: l.
Proof.
  induction l as [|y l IH]; [done|]. cbn. destruct (_ <=? _); [done|]. rewrite IH. apply perm_swap.
Qed.

Lemma sort_by_perm cmp l : sort_by cmp l ≡ₚ l.
Proof. induction l as [|x l IH]; [done|]. cbn. by rewrite insert_by_perm, IH. Qed.

Lemma insert_by_sorted cmp x l :
  orders cmp (x :: l) → StronglySorted Z.le l → StronglySorted Z.le (insert_by cmp x l).
Proof.
  intros Ho Hl. induction Hl as [|y l Hl IH Hy]; [by repeat constructor|]. cbn.
  destruct (Z.leb_spec (cmp x y) 0) as [Hc|Hc].
  - assert (x <= y) as Hxy by (apply Ho; rewrite ?elem_of_cons; tauto). constructor; [by constructor|]. constructor; [done|].
    eapply Forall_impl; [exact Hy|]. intros z Hz. cbn in *. lia.
  - assert (y < x) as Hyx.
    { destruct (Z.le_gt_cases x y) as [H|H]; [|done]. assert (cmp x y <= 0) by (apply Ho; rewrite ?elem_of_cons; tauto). lia. }
    constructor. { apply IH. intros a b Ha Hb. apply Ho; rewrite ?elem_of_cons in *; tauto. }
    rewrite insert_by_perm. constructor; [lia|done].
Qed.

Lemma sort_by_sorted cmp l : orders cmp l → StronglySorted Z.le (sort_by cmp l).
Proof.
  intros Ho. induction l as [|x l IH]; [constructor|]. cbn. apply insert_by_sorted.
  - intros a b Ha Hb. assert (∀ c, c ∈ x :: sort_by cmp l → c ∈ x :: l) as Hin.
    { intros c. rewrite !elem_of_cons, sort_by_perm. done. }
    apply Ho; auto.
  - apply IH. intros a b Ha Hb. apply Ho; by right.
Qed.

(** The comparison by subtraction is an order on values whose differences fit. *)
Lemma cmpfunc_orders l :
  (∀ a b, a ∈ l → b ∈ l → is_s32 (a - b)) → orders buckettask_cmpfunc l.
Proof. intros H a b Ha Hb. unfold buckettask_cmpfunc. rewrite s32_small by auto. lia. Qed.

(** ** The whole sort *)

(** What bucket [i] ends with: its part of every task's data, sorted. *)
Definition bucket_result (sl : list Z) (datas : list (list Z)) (i : nat) : list Z :=
  sort_by buckettask_cmpfunc (concat (part sl i <$> datas)).

Lemma concat_part sl i datas : concat (part sl i <$> datas) = part sl i (concat datas).
Proof. induction datas as [|d datas IH]; [done|]. cbn [fmap list_fmap concat]. rewrite part_app. f_equal. exact IH. Qed.

Lemma sorted_concat (f : nat → list Z) lo n :
  (∀ i, StronglySorted Z.le (f i)) → (∀ i j u v, (i < j)%nat → u ∈ f i → v ∈ f j → u <= v) →
  StronglySorted Z.le (concat (f <$> seq lo n)).
Proof.
  intros Hs Ho. revert lo. induction n as [|n IH]; intros lo; [constructor|]. cbn.
  assert (∀ l1 l2, StronglySorted Z.le l1 → StronglySorted Z.le l2 →
    (∀ u v, u ∈ l1 → v ∈ l2 → u <= v) → StronglySorted Z.le (l1 ++ l2)) as Happ.
  { intros l1 l2 H1 H2. induction H1 as [|x l1 H1 IH1 Hx]; intros H; [done|]. cbn. constructor.
    - apply IH1. intros u v Hu. apply H. by right.
    - apply Forall_app. split; [done|]. apply Forall_forall. intros v. apply H. by left. }
  apply Happ; [done|apply IH|]. intros u v Hu Hv.
  apply list_elem_of_In, in_concat in Hv as (l & Hl%list_elem_of_In & Hv%list_elem_of_In). apply list_elem_of_fmap in Hl as (j & -> & Hj).
  apply elem_of_seq in Hj. by apply (Ho lo j); [lia| |].
Qed.

Lemma buckets_sorted sl datas :
  sl ≠ [] → orders buckettask_cmpfunc (concat datas) →
  StronglySorted Z.le (concat (bucket_result sl datas <$> seq 0 (length sl))) ∧
  concat (bucket_result sl datas <$> seq 0 (length sl)) ≡ₚ concat datas.
Proof.
  intros Hsl Ho.
  assert (∀ i v, v ∈ bucket_result sl datas i → bucket_of sl v = i) as Hb.
  { intros i v. unfold bucket_result. rewrite sort_by_perm, concat_part. apply part_bucket. }
  split.
  - apply sorted_concat.
    + intros i. apply sort_by_sorted. intros a b. rewrite concat_part. intros Ha Hb'.
      apply Ho; by eapply list_elem_of_filter.
    + intros i j u v Hij Hu Hv. apply Hb in Hu. apply Hb in Hv. subst. apply Z.lt_le_incl. by eapply bucket_of_mono.
  - etrans; [|apply (parts_permutation sl (concat datas) (length sl)); intros v _; by apply bucket_of_lt].
    induction (seq 0 (length sl)) as [|i l IH]; [done|]. cbn. rewrite IH. f_equiv.
    unfold bucket_result. by rewrite sort_by_perm, concat_part.
Qed.
