(* ===== verification/SortSpec.v ===== *)
(** * The bucket tasks implement the partition

    [get_counts] and [fill_arrays] against [part] and [bucket_of]; the rebuild
    of a bucket from the parts of all tasks. *)

From S2P Require Import Prelude CMem CLogic Messages MessageSpec Ring CircularMsgQ CircularSpec Demo.
From S2P Require Import QueueProps System SystemSpec TimeHelper Tasks Arrays SampleSort SortPure.
From stdpp Require Import base numbers list strings gmap sorting.
From Stdlib Require Import Lia.
#[local] Open Scope Z_scope.
#[local] Open Scope ts_scope.

(** What the splitting reads: the bucket task at [b], its splitters [sl] in block
    [sb], and its part of the data, [data] at offset [o] of block [db]. *)
Record inputs := Inp { in_task : Z; in_sl_at : Z; in_sl : list Z; in_data_at : Z * Z; in_data : list Z }.

Definition inputs_at (w : world) (p : Z) (x : inputs) : Prop :=
  let b := in_task x in
  mb w b (f_off BucketTask_splitters) (enc_ptr (Addr p (in_sl_at x) 0)) ∧
  mb w b (f_off BucketTask_splitter_size) (enc_i32 (Z.of_nat (length (in_sl x)))) ∧
  mb w b (f_off BucketTask_data_ref) (enc_ptr (Addr p (in_data_at x).1 (in_data_at x).2)) ∧
  mb w b (f_off BucketTask_data_size) (enc_i32 (Z.of_nat (length (in_data x)))) ∧
  mb w (in_sl_at x) 0 (ints (in_sl x)) ∧ mb w (in_data_at x).1 (in_data_at x).2 (ints (in_data x)).

Definition inputs_ok (x : inputs) : Prop :=
  in_sl x ≠ [] ∧ Forall is_s32 (in_sl x) ∧ Forall is_s32 (in_data x) ∧
  is_s32 (Z.of_nat (length (in_sl x))) ∧ is_s32 (Z.of_nat (length (in_data x))).

#[export] Instance inputs_at_dec w p x : Decision (inputs_at w p x).
Proof. unfold inputs_at. apply _. Defined.
#[export] Instance inputs_ok_dec x : Decision (inputs_ok x).
Proof. unfold inputs_ok. apply _. Defined.

(** Writes elsewhere leave the inputs. *)
Definition apart (x : inputs) (F : Z → Z → Prop) : Prop :=
  ∀ i, ¬ F (in_task x) i ∧ ¬ F (in_sl_at x) i ∧ ¬ F (in_data_at x).1 i.

Lemma inputs_ext F w w' p x : ext F w w' → apart x F → inputs_at w p x → inputs_at w' p x.
Proof.
  intros He Ha (H1 & H2 & H3 & H4 & H5 & H6).
  split_and!; (eapply mb_extF; [exact He| |eassumption]); intros i _; apply Ha.
Qed.

(** ** The loops over the values and the splitters *)

Lemma each_splitter_wp p w x val act (Q : unit → world → Prop) :
  inputs_at w p x → inputs_ok x →
  wp (act (Z.of_nat (bucket_of (in_sl x) val))) p w Q →
  wp (each_splitter (Addr p (in_task x) 0) val act) p w (λ _ w', Q tt w').
Proof.
  intros (H1 & H2 & _ & _ & H5 & _) (Hne & Hs & _ & Hl & _) HQ. unfold each_splitter.
  set (sl := in_sl x) in *. pose proof (bucket_of_lt sl val Hne) as Hlt. set (k := bucket_of sl val) in *.
  apply wp_bind. eapply wp_get_int; [exact H2|]. rewrite s32_small, Nat2Z.id by done.
  apply wp_bind. apply (wp_for_find (λ i w', w' = w ∧ i <= Z.of_nat k)).
  - split; [done|lia].
  - intros i w' Hi [-> Hik]. apply wp_bind. eapply wp_get_ptr; [exact H1|].
    destruct (lookup_lt_is_Some_2 sl (Z.to_nat i)) as [s Hsi]; [lia|].
    assert (is_s32 s) as Hs32 by (by apply (Forall_lookup_1 _ _ _ _ Hs Hsi)).
    apply wp_bind. eapply ld_int_wp; [exact H5|lia|exact Hsi|done|].
    assert (Z.to_nat i = k → i = Z.of_nat k) as Hk by lia.
    assert (∀ w1, Q tt w1 → wp (ret tt) p w1 (λ _ w', Q tt w')) as Hret by (intros; by apply wp_ret).
    destruct (Z.leb_spec val s) as [Hle|Hgt].
    { assert (i = Z.of_nat k) as ->.
      { destruct (decide (Z.to_nat i < k)%nat) as [Hk'|]; [|lia].
        apply (bucket_of_gt sl val _ s) in Hk'; [lia|done]. }
      apply wp_bind. eapply wp_mono; [exact HQ|]. intros [] w1 H. by do 2 apply wp_ret. }
    destruct (Z.eqb_spec i (Z.of_nat (length sl) - 1)) as [->|Hn].
    { assert (Z.of_nat (length sl) - 1 = Z.of_nat k) as -> by lia.
      apply wp_bind. eapply wp_mono; [exact HQ|]. intros [] w1 H. by do 2 apply wp_ret. }
    apply wp_ret. split; [done|].
    assert (i ≠ Z.of_nat k); [|lia]. intros ->. rewrite Nat2Z.id in Hsi.
    apply (bucket_of_le sl val k) in Hsi; [lia|done|lia].
  - intros w' [_ Hi]. lia.
Qed.

(** A loop that keeps [I], a statement on the values seen so far. *)
Lemma each_value_wp p w x body (I : list Z → world → Prop) (Q : unit → world → Prop) :
  (∀ done w', I done w' → inputs_at w' p x) → inputs_ok x → I [] w →
  (∀ done v rest w', in_data x = done ++ v :: rest → I done w' →
     wp (body v) p w' (λ _ w'', I (done ++ [v]) w'')) →
  (∀ w', I (in_data x) w' → Q tt w') →
  wp (each_value (Addr p (in_task x) 0) body) p w Q.
Proof.
  intros HI (_ & _ & Hd & _ & Hl) H0 Hb HQ. pose proof (HI _ _ H0) as (_ & _ & _ & H4 & _). unfold each_value.
  apply wp_bind. eapply wp_get_int; [exact H4|]. rewrite s32_small by done.
  apply (wp_for_range (λ i w', I (take (Z.to_nat i) (in_data x)) w')); [lia|done| |].
  - intros i w' Hi Hw. pose proof (HI _ _ Hw) as (_ & _ & H3 & _ & _ & H6).
    apply wp_bind. eapply wp_get_ptr; [exact H3|].
    destruct (lookup_lt_is_Some_2 (in_data x) (Z.to_nat i)) as [v Hv]; [lia|].
    apply wp_bind. eapply ld_int_wp; [exact H6|lia|exact Hv|by apply (Forall_lookup_1 _ _ _ _ Hd Hv)|].
    replace (Z.to_nat (i + 1)) with (S (Z.to_nat i)) by lia. rewrite (take_S_r _ _ v) by done.
    eapply Hb; [|done]. symmetry. by apply take_drop_middle.
  - intros w'. rewrite Nat2Z.id, take_ge by lia. apply HQ.
Qed.

(** ** Counting *)

Definition counts_of (sl : list Z) (K : nat) (data : list Z) : list Z :=
  (λ j, Z.of_nat (length (part sl j data))) <$> seq 0 K.

Lemma lookup_counts_of sl K data j :
  (j < K)%nat → counts_of sl K data !! j = Some (Z.of_nat (length (part sl j data))).
Proof. intros Hj. unfold counts_of. by rewrite list_lookup_fmap, lookup_seq_lt. Qed.

Lemma length_counts_of sl K data : length (counts_of sl K data) = K.
Proof. unfold counts_of. by rewrite length_fmap, length_seq. Qed.

Lemma counts_of_nil sl K : counts_of sl K [] = replicate K 0.
Proof.
  apply list_eq. intros j. destruct (decide (j < K)%nat).
  - by rewrite lookup_counts_of, lookup_replicate_2.
  - rewrite !lookup_ge_None_2; [done| |]; rewrite ?length_replicate, ?length_counts_of; lia.
Qed.

Lemma length_part_le sl j data : (length (part sl j data) <= length data)%nat.
Proof. apply length_filter. Qed.

Lemma part_snoc sl j data v :
  part sl j (data ++ [v]) = if decide (bucket_of sl v = j) then part sl j data ++ [v] else part sl j data.
Proof. rewrite part_app, part_cons. cbn. case_decide; [done|by rewrite app_nil_r]. Qed.

(** One more value of bucket [bucket_of sl v]. *)
Lemma counts_of_snoc sl K data v :
  (bucket_of sl v < K)%nat →
  counts_of sl K (data ++ [v]) =
    <[bucket_of sl v := Z.of_nat (length (part sl (bucket_of sl v) data)) + 1]> (counts_of sl K data).
Proof.
  intros Hlt. apply list_eq. intros j. destruct (decide (j < K)%nat) as [Hj|Hj].
  - rewrite lookup_counts_of, part_snoc by done. destruct (decide (bucket_of sl v = j)) as [<-|Hne].
    + rewrite list_lookup_insert_eq by (by rewrite length_counts_of). rewrite length_app. cbn. f_equal. lia.
    + by rewrite list_lookup_insert_ne, lookup_counts_of by done.
  - rewrite !lookup_ge_None_2; [done| |]; rewrite ?length_insert, length_counts_of; lia.
Qed.

Lemma incr_wp p w c l j z (Q : unit → world → Prop) :
  mb w c 0 (ints l) → l !! j = Some z → is_s32 z →
  (∀ w', mb w' c 0 (ints (<[j := z + 1]> l)) → w' = upd w c (4 * Z.of_nat j) (enc_i32 (z + 1)) → Q tt w') →
  wp (incr_i32 (Addr p c 0) (Z.of_nat j)) p w Q.
Proof.
  intros Hm Hj Hz HQ. unfold incr_i32. apply wp_bind.
  eapply ld_int_wp; [exact Hm|lia|by rewrite Nat2Z.id|done|].
  apply lookup_lt_Some in Hj as Hlt.
  eapply st_int_wp; [exact Hm|lia|]. intros w'. rewrite Nat2Z.id. apply HQ.
Qed.

(** A write to a block that was not there leaves what was there. *)
Lemma ext_upd_new w w' b o l :
  w_blocks w !! b = None → ext nowhere w w' → ext nowhere w (upd w' b o l).
Proof. intros Hb He. eapply ext_upd; [|done]. intros k i Hk. congruence. Qed.

Lemma ext_malloc F w w' n : wok w → ext F w w' → ext F w (add_block (Blk n Undef ∅) w').
Proof. apply ext_add_block. Qed.

Lemma ext_nowhere_F F w w' : ext nowhere w w' → ext F w w'.
Proof. apply ext_weaken. by intros ? ? ? _ []. Qed.

Lemma inputs_nowhere w w' p x : ext nowhere w w' → inputs_at w p x → inputs_at w' p x.
Proof. intros He. eapply inputs_ext; [exact He|]. intros i. split_and!; by intros []. Qed.

(** [for (i = 0; i < n; i++) a[i] = 0;] on a new array. *)
Lemma zero_array_wp p w b n (Q : unit → world → Prop) :
  0 <= n → valid w b 0 (4 * Z.to_nat n) →
  (∀ w', mb w' b 0 (ints (replicate (Z.to_nat n) 0)) → ext (λ b' _, b' = b) w w' → Q tt w') →
  wp (for_range 0 n (λ i, st_i32 (idx_i32 (Addr p b 0) i) 0)) p w Q.
Proof.
  intros Hn Hv HQ.
  apply (wp_for_range (λ i w', mb w' b 0 (ints (replicate (Z.to_nat i) 0)) ∧ valid w' b 0 (4 * Z.to_nat n) ∧
    ext (λ b' _, b' = b) w w')); [done| | |].
  - split_and!; [apply mb_nil; eapply valid_le; [exact Hv|lia|lia]|done|apply ext_refl].
  - intros i w' Hi (Hm & Hv' & He). cbn [idx_i32 padd].
    apply wp_store; [autorewrite with len; eapply valid_le; [exact Hv'|lia|lia]|]. split_and!.
    + replace (Z.to_nat (i + 1)) with (S (Z.to_nat i)) by lia. rewrite replicate_S_end, Z.add_0_l.
      replace (4 * i) with (4 * Z.of_nat (length (replicate (Z.to_nat i) 0))) by (rewrite length_replicate; lia).
      apply mb_ints_snoc; [done|]. rewrite length_replicate. eapply valid_le; [exact Hv'|lia|lia].
    + by apply valid_upd.
    + eapply ext_upd; [done|done].
  - intros w' (Hm & _ & He). by apply HQ.
Qed.

(** The array of the counts is a new block. *)
Lemma get_counts_wp p w x K :
  wok w → inputs_at w p x → inputs_ok x → (length (in_sl x) <= Z.to_nat K)%nat → is_s32 K →
  wp (get_counts (Addr p (in_task x) 0) K) p w (λ r w', ∃ c,
    r = Addr p c 0 ∧ w_blocks w !! c = None ∧
    mb w' c 0 (ints (counts_of (in_sl x) (Z.to_nat K) (in_data x))) ∧ ext nowhere w w').
Proof.
  intros Hok Hx Hxok HK HKs. pose proof Hxok as (Hsl & _ & _ & _ & Hdl).
  assert (0 < K) as HK0 by (destruct (in_sl x); cbn in *; [done|lia]).
  unfold is_s32 in HKs. set (c := w_next w). assert (w_blocks w !! c = None) as Hc by (apply Hok; unfold c; lia).
  unfold get_counts. apply wp_bind, wp_malloc; [lia|]. fold c.
  apply wp_bind. apply zero_array_wp; [lia| |].
  { apply add_block_valid_eq; [done|]. unfold in_block. cbn. lia. }
  intros w2 Hm2 He2. assert (ext nowhere w w2) as He.
  { eapply ext_trans_old; [|apply ext_malloc; [done|apply ext_refl]|exact He2]. intros b k i Hk ->. by rewrite Hc in Hk. }
  apply wp_bind. apply (each_value_wp _ _ x _ (λ seen w',
    mb w' c 0 (ints (counts_of (in_sl x) (Z.to_nat K) seen)) ∧ ext nowhere w w')); [|done| | |].
  - intros seen w' [_ He']. by eapply inputs_nowhere.
  - split; [|done]. by rewrite counts_of_nil.
  - intros seen v rest w' Hdata [Hm He']. eapply wp_mono; [apply (each_splitter_wp _ _ x _ _
      (λ _ w'', mb w'' c 0 (ints (counts_of (in_sl x) (Z.to_nat K) (seen ++ [v]))) ∧ ext nowhere w w''))|auto].
    + by eapply inputs_nowhere.
    + done.
    + pose proof (bucket_of_lt (in_sl x) v Hsl) as Hlt.
      eapply incr_wp; [exact Hm|apply lookup_counts_of; lia| |].
      * pose proof (length_part_le (in_sl x) (bucket_of (in_sl x) v) seen) as Hle.
        apply (f_equal length) in Hdata. rewrite length_app in Hdata. unfold is_s32 in *. lia.
      * intros w'' Hm' ->. rewrite counts_of_snoc by lia. split; [done|]. by apply ext_upd_new.
  - intros w' [Hm He']. apply wp_ret. eauto.
Qed.

(** ** Filling the arrays *)

Definition addrs (p : Z) (blocks : list Z) : list ptr := (λ b, Addr p b 0) <$> blocks.

(** Row [j], in block [rows !! j], has room for the values of bucket [j] and holds
    those seen so far. *)
Definition rows_at (w : world) (sl data seen : list Z) (rows : list Z) : Prop :=
  ∀ j r, rows !! j = Some r →
    valid w r 0 (4 * length (part sl j data)) ∧ mb w r 0 (ints (part sl j seen)).

Lemma rows_ext F w w' sl data seen rows :
  ext F w w' → (∀ r i, r ∈ rows → ¬ F r i) → rows_at w sl data seen rows → rows_at w' sl data seen rows.
Proof.
  intros He HF Hr j r Hj. destruct (Hr j r Hj) as [Hv Hm].
  split; [by eapply valid_extF|]. eapply mb_extF; [exact He| |exact Hm].
  intros i _. apply HF. by eapply list_elem_of_lookup_2.
Qed.

(** One more value in its row. *)
Lemma rows_snoc w sl data seen v rest rows r :
  data = seen ++ v :: rest → NoDup rows → rows !! bucket_of sl v = Some r → rows_at w sl data seen rows →
  valid w r (4 * Z.of_nat (length (part sl (bucket_of sl v) seen))) 4 ∧
  rows_at (upd w r (4 * Z.of_nat (length (part sl (bucket_of sl v) seen))) (enc_i32 v)) sl data (seen ++ [v]) rows.
Proof.
  intros Hd Hnd Hr Hrows. destruct (Hrows _ _ Hr) as [Hv Hm].
  assert (length (part sl (bucket_of sl v) seen) + 1 <= length (part sl (bucket_of sl v) data))%nat as Hlen.
  { rewrite Hd, part_app, part_cons, decide_True by done. rewrite length_app. cbn. lia. }
  assert (valid w r (4 * Z.of_nat (length (part sl (bucket_of sl v) seen))) 4) as Hv4
    by (eapply valid_le; [exact Hv|lia|lia]).
  split; [done|]. intros j r' Hj. destruct (Hrows j r' Hj) as [Hv' Hm']. split; [by apply valid_upd|].
  rewrite part_snoc. destruct (decide (bucket_of sl v = j)) as [<-|Hne].
  - assert (r' = r) as -> by congruence. by apply mb_ints_snoc.
  - apply mb_upd_block; [|done]. intros ->. apply Hne. by eapply NoDup_lookup.
Qed.

(** The arrays that [fill_arrays] gets: [vb] of pointers, [cb] of [int]. *)
Definition fill_foot (vb cb : Z) : Z → Z → Prop := λ b _, b = vb ∨ b = cb.

(** What the first loop sets up, after [i] turns. *)
Definition filled (w w' : world) (p vb cb : Z) (sl data : list Z) (rows : list Z) : Prop :=
  ext (fill_foot vb cb) w w' ∧ mb w' vb 0 (ptrs (addrs p rows)) ∧ NoDup rows ∧
  (∀ r, r ∈ rows → w_blocks w !! r = None ∧ r < w_next w') ∧ rows_at w' sl data [] rows.

Lemma length_addrs p rows : length (addrs p rows) = length rows.
Proof. apply length_fmap. Qed.

Lemma addrs_snoc p rows r : addrs p (rows ++ [r]) = addrs p rows ++ [Addr p r 0].
Proof. unfold addrs. by rewrite fmap_app. Qed.

(** One turn of the first loop. *)
Lemma fill_init_step p w w' vb cb cn K x rows :
  let cs := counts_of (in_sl x) K (in_data x) in
  wok w → inputs_ok x → mb w cn 0 (ints cs) → cn ≠ vb → cn ≠ cb → vb ≠ cb →
  (length rows < K)%nat → valid w vb 0 (8 * K) → valid w cb 0 (4 * K) →
  filled w w' p vb cb (in_sl x) (in_data x) rows → mb w' cb 0 (ints (replicate (length rows) 0)) →
  wp (c <- ld_i32 (idx_i32 (Addr p cn 0) (Z.of_nat (length rows)));;
      row <- malloc (4 * c);;
      st_ptr (idx_ptr (Addr p vb 0) (Z.of_nat (length rows))) row;;;
      st_i32 (idx_i32 (Addr p cb 0) (Z.of_nat (length rows))) 0) p w' (λ _ w'',
    ∃ r, filled w w'' p vb cb (in_sl x) (in_data x) (rows ++ [r]) ∧
         mb w'' cb 0 (ints (replicate (S (length rows)) 0))).
Proof.
  intros cs Hok (_ & _ & _ & _ & Hdl) Hcn Hn1 Hn2 Hn3 Hlt Hvb Hcb (He & Hvm & Hnd & Hnew & Hrows) Hz.
  pose proof (length_part_le (in_sl x) (length rows) (in_data x)) as Hle. unfold is_s32 in Hdl.
  set (n := length (part (in_sl x) (length rows) (in_data x))) in *.
  assert (mb w' cn 0 (ints cs)) as Hcn'.
  { eapply mb_extF; [exact He| |exact Hcn]. intros i _ [?|?]; congruence. }
  pose proof (ext_wok _ _ _ He Hok) as Hok'. pose proof (ext_next _ _ _ He) as Hnx.
  apply wp_bind. eapply ld_int_wp; [exact Hcn'|lia|rewrite Nat2Z.id; by apply lookup_counts_of|unfold is_s32; lia|].
  apply wp_bind, wp_malloc; [lia|]. set (r := w_next w'). set (w1 := add_block _ w').
  assert (∀ b o k, valid w b o k → valid w' b o k) as HV by (intros b o k; by eapply valid_extF).
  assert (vb < r) as Hvr by (unfold r; eapply valid_fresh; [exact Hok'|apply HV, Hvb]).
  assert (cb < r) as Hcr by (unfold r; eapply valid_fresh; [exact Hok'|apply HV, Hcb]).
  assert (valid w1 vb (8 * Z.of_nat (length rows)) 8) as Hv1.
  { apply valid_add_block; [unfold r in *; lia|]. apply HV. eapply valid_le; [exact Hvb|lia|lia]. }
  assert (valid w1 cb (4 * Z.of_nat (length rows)) 4) as Hv2.
  { apply valid_add_block; [unfold r in *; lia|]. apply HV. eapply valid_le; [exact Hcb|lia|lia]. }
  cbn [idx_ptr idx_i32 padd Z.add]. apply wp_bind, wp_store; [by autorewrite with len|].
  apply wp_store; [apply valid_upd; by autorewrite with len|].
  rewrite ?Z.add_0_l. exists r. unfold filled. split_and!.
  - repeat (eapply ext_upd; [intros k i _ Hi; unfold fill_foot; tauto|]). by apply ext_add_block.
  - apply mb_upd_block; [done|]. rewrite addrs_snoc.
    rewrite <- (length_addrs p rows). apply mb_ptrs_snoc; [|by rewrite length_addrs].
    by apply mb_add_block; [unfold r in *; lia|].
  - apply NoDup_app. split_and!; [done| |apply NoDup_singleton]. intros y Hy ->%list_elem_of_singleton.
    apply Hnew in Hy as [_ ?]. unfold r in *. lia.
  - intros y Hy. rewrite !upd_next. rewrite elem_of_app, list_elem_of_singleton in Hy. destruct Hy as [Hy| ->].
    + apply Hnew in Hy as [? ?]. split; [done|]. unfold w1. rewrite add_block_next. lia.
    + split; [apply Hok; unfold r; lia|]. unfold w1. rewrite add_block_next. unfold r. lia.
  - intros j y Hj. assert (valid w1 y 0 (4 * length (part (in_sl x) j (in_data x))) ∧ y ≠ vb ∧ y ≠ cb) as (Hvy & ? & ?).
    { apply lookup_app_Some in Hj as [Hj|[Hlj Hj]].
      - destruct (Hrows j y Hj) as [Hv _]. split.
        { apply valid_add_block; [|done]. apply list_elem_of_lookup_2, Hnew in Hj as [_ ?]. lia. }
        apply list_elem_of_lookup_2, Hnew in Hj as [Hnone _].
        split; intros ->; [destruct Hvb as (? & ? & _)|destruct Hcb as (? & ? & _)]; congruence.
      - apply list_lookup_singleton_Some in Hj as [Hj0 <-]. assert (j = length rows) as -> by lia.
        split; [|lia]. apply add_block_valid_eq; [done|]. unfold in_block. cbn. lia. }
    split; [by do 2 apply valid_upd|]. change (ints (part (in_sl x) j [])) with (@nil memval).
    apply mb_nil. do 2 apply valid_upd. eapply valid_le; [exact Hvy|lia|lia].
  - rewrite replicate_S_end. rewrite <- (length_replicate (length rows) 0) at 2.
    apply mb_ints_snoc; [|rewrite length_replicate; by apply valid_upd].
    apply mb_upd_block; [done|]. by apply mb_add_block; [unfold r in *; lia|].
Qed.

(** What [fill_arrays] needs: the inputs, their counts in block [cn], and the two
    local arrays, in different blocks. *)
Definition fill_pre (w : world) (p : Z) (x : inputs) (K : nat) (cn vb cb : Z) : Prop :=
  inputs_at w p x ∧ mb w cn 0 (ints (counts_of (in_sl x) K (in_data x))) ∧
  valid w vb 0 (8 * K) ∧ valid w cb 0 (4 * K) ∧ apart x (fill_foot vb cb) ∧
  cn ≠ vb ∧ cn ≠ cb ∧ vb ≠ cb ∧ (length (in_sl x) <= K)%nat.

(** The first loop. *)
Lemma fill_init_wp p w x K cn vb cb (Q : unit → world → Prop) :
  wok w → inputs_ok x → fill_pre w p x K cn vb cb →
  (∀ w' rows, length rows = K → filled w w' p vb cb (in_sl x) (in_data x) rows →
     mb w' cb 0 (ints (replicate K 0)) → Q tt w') →
  wp (for_range 0 (Z.of_nat K) (λ i,
        c <- ld_i32 (idx_i32 (Addr p cn 0) i);;
        row <- malloc (4 * c);;
        st_ptr (idx_ptr (Addr p vb 0) i) row;;;
        st_i32 (idx_i32 (Addr p cb 0) i) 0)) p w Q.
Proof.
  intros Hok Hx (Hin & Hcn & Hvb & Hcb & Hap & Hn1 & Hn2 & Hn3 & HK) HQ.
  apply (wp_for_range (λ i w', ∃ rows, length rows = Z.to_nat i ∧
    filled w w' p vb cb (in_sl x) (in_data x) rows ∧ mb w' cb 0 (ints (replicate (Z.to_nat i) 0)))); [lia| | |].
  - exists []. split_and!; [done| |].
    + unfold filled. split_and!; [apply ext_refl| |constructor|by intros r Hr%elem_of_nil|done].
      apply mb_nil. eapply valid_le; [exact Hvb|lia|lia].
    + apply mb_nil. eapply valid_le; [exact Hcb|lia|lia].
  - intros i w' Hi (rows & Hl & Hf & Hz). rewrite <- Hl in Hz.
    assert (i = Z.of_nat (length rows)) as -> by lia.
    eapply wp_mono; [apply (fill_init_step p w w' vb cb cn K x rows); [done..|lia|done|done|done|done]|].
    cbv beta. intros u w'' (r & Hf' & Hz'). exists (rows ++ [r]). rewrite length_app. cbn [length].
    replace (Z.to_nat (Z.of_nat (length rows) + 1)) with (S (length rows)) by lia. split_and!; [lia|done|done].
  - intros w' (rows & Hl & Hf & Hz). rewrite Nat2Z.id in *. by eapply HQ.
Qed.

(** One value of the second loop. *)
Lemma fill_value_wp p w x K vb cb rows seen v rest :
  inputs_ok x → in_data x = seen ++ v :: rest → (length (in_sl x) <= K)%nat →
  NoDup rows → length rows = K → vb ∉ rows → cb ∉ rows → vb ≠ cb →
  mb w vb 0 (ptrs (addrs p rows)) → mb w cb 0 (ints (counts_of (in_sl x) K seen)) →
  rows_at w (in_sl x) (in_data x) seen rows →
  wp (row <- ld_ptr (idx_ptr (Addr p vb 0) (Z.of_nat (bucket_of (in_sl x) v)));;
      c <- ld_i32 (idx_i32 (Addr p cb 0) (Z.of_nat (bucket_of (in_sl x) v)));;
      st_i32 (idx_i32 row c) v;;;
      incr_i32 (Addr p cb 0) (Z.of_nat (bucket_of (in_sl x) v))) p w (λ _ w',
    mb w' vb 0 (ptrs (addrs p rows)) ∧ mb w' cb 0 (ints (counts_of (in_sl x) K (seen ++ [v]))) ∧
    rows_at w' (in_sl x) (in_data x) (seen ++ [v]) rows ∧ ext (λ b _, b = cb ∨ b ∈ rows) w w').
Proof.
  intros (Hsl & _ & _ & _ & Hdl) Hd HK Hnd Hl Hv Hc Hne Hvm Hcm Hr.
  pose proof (bucket_of_lt (in_sl x) v Hsl) as Hlt. set (j := bucket_of (in_sl x) v) in *.
  destruct (lookup_lt_is_Some_2 rows j) as [r Hj]; [lia|].
  pose proof (length_part_le (in_sl x) j seen) as Hle.
  assert (is_s32 (Z.of_nat (length (part (in_sl x) j seen)))) as Hs32.
  { apply (f_equal length) in Hd. rewrite length_app in Hd. unfold is_s32 in *. lia. }
  apply list_elem_of_lookup_2 in Hj as Hin.
  assert (r ≠ vb ∧ r ≠ cb) as [Hrv Hrc] by (split; intros ->; done).
  assert (counts_of (in_sl x) K seen !! j = Some (Z.of_nat (length (part (in_sl x) j seen)))) as Hcj
    by (apply lookup_counts_of; lia).
  apply wp_bind. eapply ld_ptr_wp; [exact Hvm|lia| |].
  { rewrite Nat2Z.id. unfold addrs. by rewrite list_lookup_fmap, Hj. }
  apply wp_bind. eapply ld_int_wp; [exact Hcm|lia|rewrite Nat2Z.id; exact Hcj|done|].
  destruct (rows_snoc w (in_sl x) (in_data x) seen v rest rows r Hd Hnd Hj Hr) as [Hv4 Hr'].
  cbn [idx_i32 padd]. rewrite Z.add_0_l. apply wp_bind, wp_store; [by autorewrite with len|].
  eapply incr_wp; [apply mb_upd_block; [|exact Hcm]; done|exact Hcj|done|].
  intros w' Hm' ->. split_and!.
  - apply mb_upd_block; [done|]. by apply mb_upd_block.
  - rewrite counts_of_snoc by lia. exact Hm'.
  - eapply rows_ext; [eapply (ext_upd (λ b _, b = cb)); [|apply ext_refl]; done| |exact Hr'].
    intros y i Hy ->. done.
  - eapply ext_upd; [by left|]. eapply ext_upd; [|apply ext_refl]. by right.
Qed.

(** Every row holds the values of its bucket, in order. *)
Definition partitioned (w w' : world) (p : Z) (x : inputs) (K : nat) (vb cb : Z) (rows : list Z) : Prop :=
  length rows = K ∧ NoDup rows ∧ mb w' vb 0 (ptrs (addrs p rows)) ∧
  (∀ j r, rows !! j = Some r → w_blocks w !! r = None ∧ mb w' r 0 (ints (part (in_sl x) j (in_data x)))) ∧
  ext (fill_foot vb cb) w w'.

Lemma fill_arrays_wp p w x K cn vb cb :
  wok w → inputs_ok x → fill_pre w p x K cn vb cb →
  wp (fill_arrays (Addr p (in_task x) 0) (Addr p cn 0) (Addr p vb 0) (Addr p cb 0) (Z.of_nat K)) p w
    (λ _ w', ∃ rows, partitioned w w' p x K vb cb rows).
Proof.
  intros Hok Hx Hpre. pose proof Hpre as (Hin & Hcn & Hvb & Hcb & Hap & Hn1 & Hn2 & Hn3 & HK).
  unfold fill_arrays. apply wp_bind. eapply fill_init_wp; [done..|].
  intros w1 rows Hl (He1 & Hv1 & Hnd & Hnew & Hr1) Hz.
  assert ((vb ∉ rows) ∧ (cb ∉ rows)) as [Hvr Hcr].
  { split; intros [Hnone _]%Hnew; [destruct Hvb as (? & ? & _)|destruct Hcb as (? & ? & _)]; congruence. }
  assert (∀ F w', ext F w1 w' → (∀ b i, F b i → b = cb ∨ b ∈ rows) → ext (fill_foot vb cb) w w') as Htr.
  { intros F w' He HF. eapply ext_trans_old; [|exact He1|exact He]. intros b k i Hk Hb.
    destruct (HF _ _ Hb) as [->|Hbr]; [by right|]. apply Hnew in Hbr as [? _]. congruence. }
  apply (each_value_wp _ _ x _ (λ seen w',
    mb w' vb 0 (ptrs (addrs p rows)) ∧ mb w' cb 0 (ints (counts_of (in_sl x) K seen)) ∧
    rows_at w' (in_sl x) (in_data x) seen rows ∧ ext (λ b _, b = cb ∨ b ∈ rows) w1 w')).
  - intros seen w' (_ & _ & _ & He). eapply inputs_ext; [|exact Hap|exact Hin]. by eapply Htr.
  - done.
  - split_and!; [done|by rewrite counts_of_nil|done|apply ext_refl].
  - intros seen v rest w' Hd (Hv & Hc & Hr & He).
    assert (inputs_at w' p x) as Hin' by (eapply inputs_ext; [by eapply Htr|exact Hap|exact Hin]).
    eapply wp_mono; [apply (each_splitter_wp _ _ x _ _ (λ _ w'',
      mb w'' vb 0 (ptrs (addrs p rows)) ∧ mb w'' cb 0 (ints (counts_of (in_sl x) K (seen ++ [v]))) ∧
      rows_at w'' (in_sl x) (in_data x) (seen ++ [v]) rows ∧ ext (λ b _, b = cb ∨ b ∈ rows) w1 w''))|auto];
      [done|done|].
    eapply wp_mono; [by eapply fill_value_wp|]. cbv beta. intros u w'' (Hv' & Hc' & Hr' & He').
    split_and!; [done..|]. by eapply ext_trans.
  - intros w' (Hv & _ & Hr & He). exists rows. split_and!; [done|done|done| |by eapply Htr].
    intros j r Hj. destruct (Hr j r Hj) as [_ Hm]. split; [|done]. by apply list_elem_of_lookup_2, Hnew in Hj as [? _].
Qed.

(** The two steps as [start] puts them together. *)
Definition bucket_split (this : ptr) (bucket_count : Z) : M (ptr * ptr) :=
  counts <- get_counts this bucket_count;;
  values_to_propagate <- malloc (8 * bucket_count);;
  current <- malloc (4 * bucket_count);;
  fill_arrays this counts values_to_propagate current bucket_count;;;
  ret (counts, values_to_propagate).

(** C33. A bucket task splits its part of the data: [get_counts] and [fill_arrays],
    one after the other as in [start], leave an array of counts and an array of
    rows; row [i] holds exactly the values whose first splitter at least as
    large is number [i] (the last one takes the rest), in the order of the
    data, and count [i] is their number; all accesses are inside the arrays. *)
Theorem bucket_partition p w x :
  wok w → inputs_at w p x → inputs_ok x →
  let K := length (in_sl x) in
  ∃ w' cn vb rows,
    bucket_split (Addr p (in_task x) 0) (Z.of_nat K) p w = Ok (Addr p cn 0, Addr p vb 0) w' ∧
    mb w' cn 0 (ints (counts_of (in_sl x) K (in_data x))) ∧
    mb w' vb 0 (ptrs (addrs p rows)) ∧ length rows = K ∧ NoDup rows ∧
    (∀ j r, rows !! j = Some r → mb w' r 0 (ints (part (in_sl x) j (in_data x)))) ∧
    inputs_at w' p x.
Proof.
  intros Hok Hx Hxok K. pose proof Hxok as (Hsl & _ & _ & Hsl32 & _).
  enough (wp (bucket_split (Addr p (in_task x) 0) (Z.of_nat K)) p w (λ r w', ∃ cn vb rows,
    r = (Addr p cn 0, Addr p vb 0) ∧ mb w' cn 0 (ints (counts_of (in_sl x) K (in_data x))) ∧
    mb w' vb 0 (ptrs (addrs p rows)) ∧ length rows = K ∧ NoDup rows ∧
    (∀ j r, rows !! j = Some r → mb w' r 0 (ints (part (in_sl x) j (in_data x)))) ∧ inputs_at w' p x))
    as (r & w' & E & cn & vb & rows & -> & ?)%wp_run.
  { exists w', cn, vb, rows. tauto. }
  unfold is_s32 in Hsl32. fold K in Hsl32. unfold bucket_split.
  apply wp_bind. eapply wp_mono; [apply (get_counts_wp p w x (Z.of_nat K)); [done..|rewrite Nat2Z.id; lia|done]|].
  cbv beta. intros r w1 (cn & -> & Hcn0 & Hcn & He1). rewrite Nat2Z.id in Hcn.
  pose proof (ext_wok _ _ _ He1 Hok) as Hok1. pose proof (mb_fresh _ _ _ _ Hok1 Hcn) as Hcl.
  apply wp_bind, wp_malloc; [lia|]. apply wp_bind, wp_malloc; [lia|]. rewrite add_block_next.
  set (vb := w_next w1). set (w3 := add_block _ (add_block _ w1)).
  assert (ext nowhere w1 w3) as He3.
  { unfold w3. apply ext_add_block; [done|]. apply ext_add_block; [done|apply ext_refl]. }
  assert (inputs_at w3 p x) as Hx3 by (eapply inputs_nowhere; [exact He3|]; by eapply inputs_nowhere).
  assert (∀ b o n, valid w1 b o n → b < vb) as Hlt by (intros b o n; by apply valid_fresh).
  apply wp_bind. eapply wp_mono; [apply (fill_arrays_wp p w3 x K cn vb (vb + 1))|].
  - eapply ext_wok; [exact He3|done].
  - done.
  - assert (inputs_at w1 p x) as (Hb1 & _ & _ & _ & Hb2 & Hb3) by (by eapply inputs_nowhere).
    apply mb_valid, Hlt in Hb1. apply mb_valid, Hlt in Hb2. apply mb_valid, Hlt in Hb3.
    unfold fill_pre, apart, fill_foot. split_and!; try lia; [done| | |].
    + eapply mb_extF; [exact He3|by intros i _ []|exact Hcn].
    + apply valid_add_block; [rewrite add_block_next; unfold vb; lia|].
      apply add_block_valid. unfold in_block. cbn. lia.
    + apply add_block_valid_eq; [by rewrite add_block_next|]. unfold in_block. cbn. lia.
  - cbv beta. intros u w' (rows & Hl & Hnd & Hv & Hr & He). apply wp_ret. exists cn, vb, rows. split_and!; try done.
    + eapply mb_extF; [exact He| |]; [|eapply mb_extF; [exact He3|by intros i _ []|exact Hcn]].
      intros i _ [?|?]; lia.
    + intros j r Hj. by apply Hr in Hj as [_ ?].
    + eapply inputs_ext; [exact He| |exact Hx3].
      assert (inputs_at w1 p x) as (Hb1 & _ & _ & _ & Hb2 & Hb3) by (by eapply inputs_nowhere).
      apply mb_valid, Hlt in Hb1. apply mb_valid, Hlt in Hb2. apply mb_valid, Hlt in Hb3.
      intros i. unfold fill_foot. split_and!; lia.
Qed.

(** ** Rebuilding a bucket *)

Lemma wp_for_fold {S} (I : Z → S → world → Prop) n lo s (body : Z → S → M S) p w (Q : S → world → Prop) :
  I lo s w →
  (∀ i s' w', lo <= i < lo + Z.of_nat n → I i s' w' → wp (body i s') p w' (λ s'' w'', I (i + 1) s'' w'')) →
  (∀ s' w', I (lo + Z.of_nat n) s' w' → Q s' w') →
  wp (for_fold n lo s body) p w Q.
Proof.
  revert lo s w. induction n as [|n IH]; intros lo s w HI Hb HQ.
  - apply wp_ret, HQ. by rewrite Z.add_0_r.
  - apply wp_bind. eapply wp_mono; [apply Hb; [lia|done]|]. intros s' w' HI'.
    apply IH; [done| |].
    + intros i s'' w'' Hi. apply Hb. lia.
    + intros s'' w''. replace (lo + 1 + Z.of_nat n) with (lo + Z.of_nat (Datatypes.S n)) by lia. apply HQ.
Qed.

(** What the handler reads: the message at block [rb_msg] with the counts and
    rows of all tasks; row [i] is at [rb_rows !! i] and holds [rb_vals !! i]. *)
Record rebuild := Reb {
  rb_msg : Z; rb_counts : Z; rb_values : Z; rb_rows : list (Z * Z); rb_vals : list (list Z)
}.

Definition lengths (ls : list (list Z)) : list Z := (λ l, Z.of_nat (length l)) <$> ls.

Definition rebuild_at (w : world) (p : Z) (x : rebuild) : Prop :=
  mb w (rb_msg x) (f_off RefTwoDimIntArrayMsg_size) (enc_i32 (Z.of_nat (length (rb_vals x)))) ∧
  mb w (rb_msg x) (f_off RefTwoDimIntArrayMsg_counts) (enc_ptr (Addr p (rb_counts x) 0)) ∧
  mb w (rb_msg x) (f_off RefTwoDimIntArrayMsg_values) (enc_ptr (Addr p (rb_values x) 0)) ∧
  mb w (rb_counts x) 0 (ints (lengths (rb_vals x))) ∧
  mb w (rb_values x) 0 (ptrs ((λ r, Addr p r.1 r.2) <$> rb_rows x)) ∧
  Forall2 (λ r l, mb w r.1 r.2 (ints l)) (rb_rows x) (rb_vals x).

Definition rebuild_ok (x : rebuild) : Prop :=
  Forall (Forall is_s32) (rb_vals x) ∧ is_s32 (Z.of_nat (length (rb_vals x))) ∧
  Z.of_nat (length (concat (rb_vals x))) < 536870912.

(** Writes elsewhere leave what the handler reads. *)
Definition rebuild_apart (x : rebuild) (F : Z → Z → Prop) : Prop :=
  ∀ i, ¬ F (rb_msg x) i ∧ ¬ F (rb_counts x) i ∧ ¬ F (rb_values x) i ∧ Forall (λ r, ¬ F r.1 i) (rb_rows x).

Lemma rebuild_ext F w w' p x : ext F w w' → rebuild_apart x F → rebuild_at w p x → rebuild_at w' p x.
Proof.
  intros He Ha (H1 & H2 & H3 & H4 & H5 & H6).
  split_and!; try (eapply mb_extF; [exact He| |eassumption]; intros i _; apply Ha).
  assert (∀ i, Forall (λ r, ¬ F r.1 i) (rb_rows x)) as Hr by apply Ha. clear -He Hr H6.
  induction H6 as [|r l rs ls Hm _ IH]; constructor.
  - eapply mb_extF; [exact He| |exact Hm]. intros i _. specialize (Hr i). by apply Forall_cons in Hr as [? _].
  - apply IH. intros i. specialize (Hr i). by apply Forall_cons in Hr as [_ ?].
Qed.

Lemma concat_take_S (ls : list (list Z)) n l :
  ls !! n = Some l → concat (take (S n) ls) = concat (take n ls) ++ l.
Proof. intros Hn. rewrite (take_S_r _ _ l) by done. rewrite concat_app. cbn. by rewrite app_nil_r. Qed.

Lemma length_concat_take (ls : list (list Z)) n : (length (concat (take n ls)) <= length (concat ls))%nat.
Proof.
  rewrite <- (take_drop n ls) at 2. rewrite concat_app, length_app. lia.
Qed.

Lemma lookup_lengths ls n l : ls !! n = Some l → lengths ls !! n = Some (Z.of_nat (length l)).
Proof. intros Hn. unfold lengths. by rewrite list_lookup_fmap, Hn. Qed.

(** The size is the number of all values. *)
Lemma rebuild_size_wp p w b x (Q : unit → world → Prop) :
  rebuild_at w p x → rebuild_ok x → valid w b 0 (Z.to_nat sizeof_BucketTask) →
  rebuild_apart x (λ b' _, b' = b) →
  (∀ w', mb w' b (f_off BucketTask_final_data_size) (enc_i32 (Z.of_nat (length (concat (rb_vals x))))) →
     ext (range b (f_off BucketTask_final_data_size) 4) w w' → Q tt w') →
  wp (rebuild_size (Addr p b 0) (Addr p (rb_msg x) 0) (Z.of_nat (length (rb_vals x)))) p w Q.
Proof.
  intros Hx (_ & Hlen & Htot) Hv Hap HQ. unfold sizeof_BucketTask in Hv.
  assert (valid w b (f_off BucketTask_final_data_size) 4) as Hvf by (eapply valid_le; [exact Hv|off|off]).
  unfold rebuild_size. apply wp_bind, wp_set_int; [done|]. rewrite Z.add_0_l.
  assert (∀ w1 z, ext (range b (f_off BucketTask_final_data_size) 4) w w1 →
    ext (range b (f_off BucketTask_final_data_size) 4) w (upd w1 b (f_off BucketTask_final_data_size) (enc_i32 z))) as Hext.
  { intros w1 z He. eapply ext_upd; [|exact He]. intros k i _ Hi. autorewrite with len in Hi. by split. }
  apply (wp_for_range (λ i w', mb w' b (f_off BucketTask_final_data_size)
      (enc_i32 (Z.of_nat (length (concat (take (Z.to_nat i) (rb_vals x)))))) ∧
    ext (range b (f_off BucketTask_final_data_size) 4) w w')); [lia| | |].
  - split; [by apply mb_upd_same|]. apply Hext, ext_refl.
  - intros i w' Hi [Hm He].
    assert (rebuild_at w' p x) as (_ & H2 & _ & H4 & _).
    { apply (rebuild_ext (λ b' _, b' = b) w); [eapply ext_weaken; [|exact He]; by intros ? ? ? _ [-> _]|done|done]. }
    destruct (lookup_lt_is_Some_2 (rb_vals x) (Z.to_nat i)) as [l Hl]; [lia|].
    pose proof (length_concat_take (rb_vals x) (S (Z.to_nat i))) as Hle.
    rewrite (concat_take_S _ _ _ Hl), length_app in Hle.
    apply wp_bind. eapply wp_get_ptr; [exact H2|].
    apply wp_bind. eapply ld_int_wp; [exact H4|lia|by apply lookup_lengths|unfold is_s32; lia|].
    apply wp_bind. eapply wp_get_int; [exact Hm|]. rewrite s32_small by (unfold is_s32; lia).
    apply wp_set_int; [by eapply valid_extF|]. rewrite Z.add_0_l.
    replace (Z.to_nat (i + 1)) with (S (Z.to_nat i)) by lia.
    rewrite (concat_take_S _ _ _ Hl), length_app, Nat2Z.inj_add. split; [|by apply Hext].
    apply mb_upd_same. autorewrite with len. by eapply valid_extF.
  - intros w'. rewrite Nat2Z.id, take_ge by done. intros [Hm He]. by apply HQ.
Qed.

(** The values go one after the other into the new array, [fb]. *)
Definition copied (w w' : world) (b fb : Z) (x : rebuild) (vals : list Z) : Prop :=
  mb w' fb 0 (ints vals) ∧ ext (λ b' _, b' = fb) w w'.

Lemma rebuild_copy_row p w w' b fb x i row l :
  rebuild_at w p x → rebuild_ok x → rebuild_apart x (λ b' _, b' = fb) → b ≠ fb →
  mb w b (f_off BucketTask_final_data_values) (enc_ptr (Addr p fb 0)) →
  valid w fb 0 (4 * length (concat (rb_vals x))) →
  rb_rows x !! Z.to_nat i = Some row → rb_vals x !! Z.to_nat i = Some l → 0 <= i →
  copied w w' b fb x (concat (take (Z.to_nat i) (rb_vals x))) →
  wp (for_fold (length l) 0 (Z.of_nat (length (concat (take (Z.to_nat i) (rb_vals x))))) (λ j index,
      values <- get_ptr (Addr p (rb_msg x) 0) RefTwoDimIntArrayMsg_values;;
      row <- ld_ptr (idx_ptr values i);;
      v <- ld_i32 (idx_i32 row j);;
      final_data_values <- get_ptr (Addr p b 0) BucketTask_final_data_values;;
      st_i32 (idx_i32 final_data_values index) v;;;
      ret (index + 1))) p w' (λ index w'',
    index = Z.of_nat (length (concat (take (Z.to_nat (i + 1)) (rb_vals x)))) ∧
    copied w w'' b fb x (concat (take (Z.to_nat (i + 1)) (rb_vals x)))).
Proof.
  intros Hx (Hvals & _ & Htot) Hap Hne Hfp Hfb Hrow Hl Hi0 Hc.
  replace (Z.to_nat (i + 1)) with (S (Z.to_nat i)) by lia. rewrite (concat_take_S _ _ _ Hl).
  set (pre := concat (take (Z.to_nat i) (rb_vals x))) in *.
  assert (length pre + length l <= length (concat (rb_vals x)))%nat as Hle.
  { unfold pre. pose proof (length_concat_take (rb_vals x) (S (Z.to_nat i))) as H.
    by rewrite (concat_take_S _ _ _ Hl), length_app in H. }
  apply (wp_for_fold (λ j index w'', index = Z.of_nat (length (pre ++ take (Z.to_nat j) l)) ∧
    copied w w'' b fb x (pre ++ take (Z.to_nat j) l))).
  - cbn [Z.to_nat take]. by rewrite app_nil_r.
  - intros j index w'' Hj [-> [Hm He]].
    assert (rebuild_at w'' p x) as (_ & _ & H3 & _ & H5 & H6) by (by eapply rebuild_ext).
    destruct (Forall2_lookup_l _ _ _ _ _ H6 Hrow) as (l' & Hl' & Hrm). assert (l' = l) as -> by congruence.
    destruct (lookup_lt_is_Some_2 l (Z.to_nat j)) as [v Hv]; [lia|].
    assert (is_s32 v) as Hv32.
    { pose proof (Forall_lookup_1 _ _ _ _ Hvals Hl) as Hls. by apply (Forall_lookup_1 _ _ _ _ Hls Hv). }
    apply wp_bind. eapply wp_get_ptr; [exact H3|].
    apply wp_bind. eapply ld_ptr_wp; [exact H5|done|by rewrite list_lookup_fmap, Hrow|].
    apply wp_bind. eapply ld_int_wp; [exact Hrm|lia|exact Hv|done|].
    apply wp_bind. eapply wp_get_ptr; [eapply mb_extF; [exact He| |exact Hfp]; by intros k _ ->|].
    cbn [idx_i32 padd]. rewrite Z.add_0_l.
    assert (valid w'' fb (4 * Z.of_nat (length (pre ++ take (Z.to_nat j) l))) 4) as Hv4.
    { eapply valid_extF; [exact He|]. rewrite length_app, length_take. eapply valid_le; [exact Hfb|lia|lia]. }
    apply wp_bind, wp_store; [by rewrite length_enc_i32|]. apply wp_ret.
    replace (Z.to_nat (j + 1)) with (S (Z.to_nat j)) by lia.
    rewrite (take_S_r _ _ _ Hv), app_assoc. split; [rewrite (length_app _ [v]); cbn [length]; lia|]. split.
    + by apply mb_ints_snoc.
    + eapply ext_upd; [done|done].
  - intros index w''. rewrite Z.add_0_l, Nat2Z.id, take_ge by done. done.
Qed.

Lemma rebuild_copy_wp p w b fb x :
  rebuild_at w p x → rebuild_ok x → rebuild_apart x (λ b' _, b' = fb) → b ≠ fb →
  mb w b (f_off BucketTask_final_data_values) (enc_ptr (Addr p fb 0)) →
  valid w fb 0 (4 * length (concat (rb_vals x))) →
  wp (rebuild_copy (Addr p b 0) (Addr p (rb_msg x) 0) (Z.of_nat (length (rb_vals x)))) p w
    (λ _ w', copied w w' b fb x (concat (rb_vals x))).
Proof.
  intros Hx Hxok Hap Hne Hfp Hfb. pose proof Hxok as (_ & _ & Htot). unfold rebuild_copy. apply wp_bind. rewrite Nat2Z.id.
  apply (wp_for_fold (λ i index w', index = Z.of_nat (length (concat (take (Z.to_nat i) (rb_vals x)))) ∧
    copied w w' b fb x (concat (take (Z.to_nat i) (rb_vals x))))).
  - split; [done|]. split; [|apply ext_refl]. apply mb_nil. eapply valid_le; [exact Hfb|lia|lia].
  - intros i index w' Hi [-> Hc]. destruct Hc as [Hm He].
    assert (rebuild_at w' p x) as (_ & H2 & _ & H4 & _ & H6) by (by eapply rebuild_ext).
    destruct (lookup_lt_is_Some_2 (rb_vals x) (Z.to_nat i)) as [l Hl]; [lia|].
    destruct (Forall2_lookup_r _ _ _ _ _ H6 Hl) as (row & Hrow & _).
    pose proof (length_concat_take (rb_vals x) (S (Z.to_nat i))) as Hle.
    rewrite (concat_take_S _ _ _ Hl), length_app in Hle.
    apply wp_bind. eapply wp_get_ptr; [exact H2|].
    apply wp_bind. eapply ld_int_wp; [exact H4|lia|by apply lookup_lengths|unfold is_s32; lia|].
    rewrite Nat2Z.id. eapply rebuild_copy_row; try done. lia.
  - intros index w'. rewrite Z.add_0_l, Nat2Z.id, take_ge by done. intros [_ Hc]. by apply wp_ret.
Qed.

(** ** The whole of round 3 *)

Lemma wp_now p w (Q : timespec → world → Prop) :
  (∀ t w', w_blocks w' = w_blocks w → w_next w' = w_next w → Q t w') → wp now p w Q.
Proof.
  intros HQ. unfold now. apply wp_bind. unfold wp, clock_gettime. destruct (w_clock w) as [|t c]; apply wp_ret, HQ; done.
Qed.

Lemma wp_st_timespec p w b o t (Q : unit → world → Prop) :
  valid w b o 16 → (∀ w', ext (range b o 16) w w' → Q tt w') → wp (st_timespec (Addr p b o) t) p w Q.
Proof.
  intros Hv HQ. unfold st_timespec, set_long, st_i64, addr_of, timespec_tv_sec, timespec_tv_nsec. cbn [padd f_off].
  apply wp_bind, wp_store; [rewrite length_enc_i64; eapply valid_le; [exact Hv|lia|lia]|].
  apply wp_store; [rewrite length_enc_i64; apply valid_upd; eapply valid_le; [exact Hv|lia|lia]|].
  apply HQ. do 2 (eapply ext_upd; [intros k i _ Hi; rewrite length_enc_i64 in Hi; split; [done|lia]|]). apply ext_refl.
Qed.

Lemma rebuild_same w w' p x : w_blocks w' = w_blocks w → rebuild_at w p x → rebuild_at w' p x.
Proof.
  intros E (H1 & H2 & H3 & H4 & H5 & H6). split_and!; try (by eapply mb_same_blocks).
  eapply Forall2_impl; [exact H6|]. intros r l. by apply mb_same_blocks.
Qed.

(** A new block is none of those the handler reads. *)
Lemma rebuild_apart_new w p x b : wok w → rebuild_at w p x → w_next w <= b → rebuild_apart x (λ b' _, b' = b).
Proof.
  intros Hok (H1 & _ & _ & H4 & H5 & H6) Hb i.
  apply (mb_fresh _ _ _ _ Hok) in H1, H4, H5. split_and!; [lia..|].
  induction H6 as [|r l rs ls Hm _ IH]; constructor; [|done]. apply (mb_fresh _ _ _ _ Hok) in Hm. lia.
Qed.

Lemma qsort_wp p w b l cmp (Q : unit → world → Prop) :
  mb w b 0 (ints l) → Forall is_s32 l →
  (∀ w', mb w' b 0 (ints (sort_by cmp l)) → ext (λ b' _, b' = b) w w' → Q tt w') →
  wp (qsort (Addr p b 0) (Z.of_nat (length l)) cmp) p w Q.
Proof.
  intros Hm Hl HQ. unfold qsort. rewrite Nat2Z.id. apply wp_bind. eapply ld_ints_wp; [exact Hm|done|].
  assert (length (sort_by cmp l) = length l) as Hlen by (by rewrite sort_by_perm).
  apply mb_valid in Hm as Hv. rewrite length_ints in Hv.
  apply st_ints_wp; [by rewrite Hlen|]. apply HQ.
  - apply mb_upd_same. by rewrite length_ints, Hlen.
  - eapply ext_upd; [done|apply ext_refl].
Qed.

(** What [start] does with the message of round 3. *)
Definition bucket_rebuild (this msg : ptr) : M unit :=
  BucketTask_handle_SetSubArrayMsg this msg;;;
  final_data_values <- get_ptr this BucketTask_final_data_values;;
  final_data_size <- get_int this BucketTask_final_data_size;;
  qsort final_data_values final_data_size buckettask_cmpfunc.

(** The bucket task at [b] has its values [l] in block [fb]. *)
Definition final_data_at (w : world) (p b fb : Z) (l : list Z) : Prop :=
  mb w b (f_off BucketTask_final_data_values) (enc_ptr (Addr p fb 0)) ∧
  mb w b (f_off BucketTask_final_data_size) (enc_i32 (Z.of_nat (length l))) ∧ mb w fb 0 (ints l).

(** The handler, from the moment the sizes are added up. *)
Lemma rebuild_alloc_wp p w b x (k : M unit) (Q : unit → world → Prop) :
  wok w → rebuild_at w p x → rebuild_ok x → valid w b 0 (Z.to_nat sizeof_BucketTask) →
  rebuild_apart x (λ b' _, b' = b) →
  (∀ w' fb, final_data_at w' p b fb (concat (rb_vals x)) → fb ≠ b →
     valid w' b 0 (Z.to_nat sizeof_BucketTask) → wp k p w' Q) →
  wp (rebuild_size (Addr p b 0) (Addr p (rb_msg x) 0) (Z.of_nat (length (rb_vals x)));;;
      final_data_size <- get_int (Addr p b 0) BucketTask_final_data_size;;
      a <- malloc (final_data_size * 4);;
      set_ptr (Addr p b 0) BucketTask_final_data_values a;;;
      rebuild_copy (Addr p b 0) (Addr p (rb_msg x) 0) (Z.of_nat (length (rb_vals x)));;;
      k) p w Q.
Proof.
  intros Hok Hx Hxok Hv Hap HQ. pose proof Hxok as (_ & _ & Htot).
  apply wp_bind, (rebuild_size_wp _ _ _ x); [done..|]. intros w1 Hs1 He1.
  pose proof (ext_wok _ _ _ He1 Hok) as Hok1. pose proof (valid_extF _ _ _ _ _ _ He1 Hv) as Hv1.
  assert (rebuild_at w1 p x) as Hx1.
  { apply (rebuild_ext (λ b' _, b' = b) w); [eapply ext_weaken; [|exact He1]; by intros ? ? ? _ [-> _]|done|done]. }
  apply wp_bind. eapply wp_get_int; [exact Hs1|]. rewrite s32_small by (unfold is_s32; lia).
  apply wp_bind, wp_malloc; [lia|]. set (fb := w_next w1). set (w2 := add_block _ w1).
  assert (b < fb) as Hbf by (unfold fb; eapply valid_fresh; [exact Hok1|exact Hv1]).
  assert (ext (λ b' _, b' = b) w1 (upd w2 b (f_off BucketTask_final_data_values) (enc_ptr (Addr p fb 0)))) as He2.
  { eapply ext_upd; [done|]. apply ext_add_block; [done|apply ext_refl]. }
  assert (valid w2 b 0 (Z.to_nat sizeof_BucketTask)) as Hv2 by (apply valid_add_block; [lia|done]).
  unfold sizeof_BucketTask in Hv2.
  assert (valid w2 b (f_off BucketTask_final_data_values) 8) as Hvf by (eapply valid_le; [exact Hv2|off|off]).
  apply wp_bind, wp_set_ptr; [done|]. rewrite Z.add_0_l. set (w3 := upd w2 _ _ _) in *.
  assert (valid w3 fb 0 (4 * length (concat (rb_vals x)))) as Hvfb.
  { apply valid_upd. apply add_block_valid_eq; [done|]. unfold in_block. cbn [bsize]. lia. }
  assert (mb w3 b (f_off BucketTask_final_data_size) (enc_i32 (Z.of_nat (length (concat (rb_vals x)))))) as Hs3.
  { apply mb_upd_disj; [autorewrite with len; off|]. apply mb_add_block; [lia|done]. }
  assert (mb w3 b (f_off BucketTask_final_data_values) (enc_ptr (Addr p fb 0))) as Hp3.
  { apply mb_upd_same. by autorewrite with len. }
  apply wp_bind. eapply wp_mono; [apply (rebuild_copy_wp p w3 b fb x)|]; try done.
  - by eapply rebuild_ext.
  - eapply rebuild_apart_new; [exact Hok1|exact Hx1|unfold fb; lia].
  - lia.
  - intros [] w' [Hm He]. apply (HQ w' fb); [|lia|].
    + split_and!; [| |exact Hm]; (eapply mb_extF; [exact He| |eassumption]; intros i _ ->; lia).
    + eapply valid_extF; [exact He|]. by apply valid_upd.
Qed.

Lemma bucket_rebuild_wp p w b x id :
  wok w → rebuild_at w p x → rebuild_ok x → valid w b 0 (Z.to_nat sizeof_BucketTask) →
  rebuild_apart x (λ b' _, b' = b) → mb w b (f_off Task_taskID) (enc_i32 id) →
  wp (bucket_rebuild (Addr p b 0) (Addr p (rb_msg x) 0)) p w (λ _ w', ∃ fb,
    final_data_at w' p b fb (sort_by buckettask_cmpfunc (concat (rb_vals x)))).
Proof.
  intros Hok Hx Hxok Hv Hap Hid. pose proof Hxok as (Hvals & Hlen & Htot).
  unfold bucket_rebuild, BucketTask_handle_SetSubArrayMsg.
  apply wp_bind. apply wp_bind. eapply wp_get_int; [exact Hid|]. apply wp_bind, wp_modify.
  apply wp_bind, wp_now. intros t w1 E1 En1. cbn in E1, En1.
  pose proof Hv as Hv0. unfold sizeof_BucketTask in Hv0.
  apply wp_bind. cbn [addr_of padd]. rewrite Z.add_0_l. apply wp_st_timespec.
  { apply (valid_same_blocks w); [done|]. eapply valid_le; [exact Hv0|off|off]. }
  intros w2 He2. assert (wok w1) as Hok1 by (intros y Hy; rewrite E1; apply Hok; lia).
  assert (ext (λ b' _, b' = b) w1 w2) as He2' by (eapply ext_weaken; [|exact He2]; by intros ? ? ? _ [-> _]).
  assert (rebuild_at w2 p x) as Hx2 by (eapply rebuild_ext; [exact He2'|done|]; by eapply rebuild_same).
  pose proof (ext_wok _ _ _ He2 Hok1) as Hok2.
  assert (valid w2 b 0 (Z.to_nat sizeof_BucketTask)) as Hv2.
  { eapply valid_extF; [exact He2|]. by apply (valid_same_blocks w). }
  apply wp_bind. eapply wp_get_int; [apply Hx2|]. rewrite s32_small by done.
  apply (rebuild_alloc_wp _ _ _ x); [done..|]. intros w3 fb (Hf1 & Hf2 & Hf3) Hne Hv3. unfold sizeof_BucketTask in Hv3.
  apply wp_bind, wp_now. intros t' w4 E4 _. rewrite Z.add_0_l. apply wp_st_timespec.
  { apply (valid_same_blocks w3); [done|]. eapply valid_le; [exact Hv3|off|off]. }
  intros w5 He5. assert (final_data_at w5 p b fb (concat (rb_vals x))) as (Hg1 & Hg2 & Hg3).
  { split_and!; (eapply mb_extF; [exact He5| |by eapply mb_same_blocks]); unfold range; off.
    all: intros i Hi [? Hi']; revert Hi Hi'; off. }
  apply wp_bind. eapply wp_get_ptr; [exact Hg1|]. apply wp_bind. eapply wp_get_int; [exact Hg2|].
  rewrite s32_small by (unfold is_s32; lia).
  assert (Forall is_s32 (concat (rb_vals x))) as Hall by (by apply Forall_concat).
  eapply qsort_wp; [exact Hg3|done|]. intros w6 Hm6 He6. exists fb. split_and!; [| |exact Hm6].
  - eapply mb_extF; [exact He6| |exact Hg1]. by intros i _ ->.
  - rewrite sort_by_perm. eapply mb_extF; [exact He6| |exact Hg2]. by intros i _ ->.
Qed.

(** The bucket task at [b] with a message [x] from the root. *)
Definition bucket_ready (w : world) (p b : Z) (x : rebuild) : Prop :=
  wok w ∧ rebuild_at w p x ∧ rebuild_ok x ∧ valid w b 0 (Z.to_nat sizeof_BucketTask) ∧
  rebuild_apart x (λ b' _, b' = b) ∧ ∃ id, mb w b (f_off Task_taskID) (enc_i32 id).

(** No difference of two values overflows an [int]. *)
Definition fits (l : list Z) : Prop := ∀ a b, a ∈ l → b ∈ l → is_s32 (a - b).

Lemma bucket_ready_run p w b x :
  bucket_ready w p b x →
  ∃ w' fb, bucket_rebuild (Addr p b 0) (Addr p (rb_msg x) 0) p w = Ok tt w' ∧
    final_data_at w' p b fb (sort_by buckettask_cmpfunc (concat (rb_vals x))).
Proof.
  intros (Hok & Hx & Hxok & Hv & Hap & id & Hid).
  destruct (wp_run _ _ _ _ (bucket_rebuild_wp _ _ _ _ _ Hok Hx Hxok Hv Hap Hid)) as ([] & w' & E & fb & Hf).
  by exists w', fb.
Qed.

(** Round 3 sorts: the handler of the message with the addresses of the rows
    and the [qsort] after it leave the bucket task with a new array that holds
    the values of all rows; when no difference of two values overflows an
    [int], they are sorted. *)
Theorem bucket_rebuild_sorts p w b x :
  bucket_ready w p b x →
  ∃ w' fb l, bucket_rebuild (Addr p b 0) (Addr p (rb_msg x) 0) p w = Ok tt w' ∧
    final_data_at w' p b fb l ∧ l ≡ₚ concat (rb_vals x) ∧ (fits l → StronglySorted Z.le l).
Proof.
  intros (w' & fb & E & Hf)%bucket_ready_run.
  exists w', fb, (sort_by buckettask_cmpfunc (concat (rb_vals x))). split_and!; [done|done|apply sort_by_perm|].
  intros Hd. apply sort_by_sorted, cmpfunc_orders. intros a c Ha Hc. apply Hd; by rewrite sort_by_perm.
Qed.

(** C8. The parallel sort sorts: when every task's data was split by the same
    splitters and bucket [i] gets the rows number [i] of all tasks, the arrays
    that the buckets end with, one after the other, are the data, sorted (when
    no difference of two values overflows an [int]).  The splitters may be any
    values: they only decide how much each bucket gets. *)
Theorem sample_sort_correct p sl datas (ws : nat → world) (bs : nat → Z) (xs : nat → rebuild) :
  sl ≠ [] → fits (concat datas) →
  (∀ i, (i < length sl)%nat →
     bucket_ready (ws i) p (bs i) (xs i) ∧ rb_vals (xs i) = part sl i <$> datas) →
  ∃ outs, length outs = length sl ∧
    (∀ i l, outs !! i = Some l → ∃ w' fb,
       bucket_rebuild (Addr p (bs i) 0) (Addr p (rb_msg (xs i)) 0) p (ws i) = Ok tt w' ∧
       final_data_at w' p (bs i) fb l) ∧
    StronglySorted Z.le (concat outs) ∧ concat outs ≡ₚ concat datas.
Proof.
  intros Hsl Hfit Hready. exists (bucket_result sl datas <$> seq 0 (length sl)).
  split; [by rewrite length_fmap, length_seq|]. split.
  - intros i l Hl. rewrite list_lookup_fmap in Hl. apply fmap_Some in Hl as (j & Hj & ->).
    apply lookup_seq in Hj as [-> Hi]. destruct (Hready i Hi) as [(w' & fb & E & Hf)%bucket_ready_run Hv].
    exists w', fb. rewrite Hv in Hf. done.
  - by apply buckets_sorted, cmpfunc_orders.
Qed.

(** ** Concrete states *)

#[export] Instance rebuild_at_dec w p x : Decision (rebuild_at w p x).
Proof. unfold rebuild_at. apply _. Defined.

(** A bucket task in block 1, its two splitters in block 2 and five values in
    block 3. *)
Definition demo_split : world :=
  state_of (t <- malloc sizeof_BucketTask;; s <- malloc 8;; d <- malloc 20;;
    st_ints s [10; 0];;; st_ints d [30; 7; 10; -4; 11];;;
    set_ptr t BucketTask_splitters s;;; set_int t BucketTask_splitter_size 2;;;
    set_ptr t BucketTask_data_ref d;;; set_int t BucketTask_data_size 5) 1 (world_init 0 [] []).

Lemma bucket_partition_witness :
  ∃ w' cn vb rows, bucket_split (Addr 1 1 0) 2 1 demo_split = Ok (Addr 1 cn 0, Addr 1 vb 0) w' ∧
    mb w' cn 0 (ints [3; 2]) ∧ mb w' vb 0 (ptrs (addrs 1 rows)) ∧ length rows = 2%nat ∧ NoDup rows ∧
    (∀ j r, rows !! j = Some r → mb w' r 0 (ints (part [10; 0] j [30; 7; 10; -4; 11]))) ∧
    inputs_at w' 1 (Inp 1 2 [10; 0] (3, 0) [30; 7; 10; -4; 11]).
Proof.
  apply (bucket_partition 1 demo_split (Inp 1 2 [10; 0] (3, 0) [30; 7; 10; -4; 11])).
  - apply wokb_spec. vm_compute. reflexivity.
  - by_eval.
  - split; [done|]. by_eval.
Defined.

(** A bucket task in block 1 and its message of round 3 in block 2, for two rows. *)
Definition demo_round3 (l1 l2 : list Z) : world :=
  state_of (t <- malloc sizeof_BucketTask;; set_int t Task_taskID 2;;;
    m <- RefTwoDimIntArrayMsg_create SET_SUB_ARRAY_MSG;;
    counts <- malloc 8;; values <- malloc 16;;
    r1 <- malloc (4 * Z.of_nat (length l1));; r2 <- malloc (4 * Z.of_nat (length l2));;
    st_ints r1 l1;;; st_ints r2 l2;;; st_ints counts (lengths [l1; l2]);;;
    st_ptr (idx_ptr values 0) r1;;; st_ptr (idx_ptr values 1) r2;;;
    set_int m RefTwoDimIntArrayMsg_size 2;;;
    set_ptr m RefTwoDimIntArrayMsg_counts counts;;;
    set_ptr m RefTwoDimIntArrayMsg_values values) 1 (world_init 0 [] []).

Definition demo_rebuild (l1 l2 : list Z) : rebuild := Reb 2 3 4 [(5, 0); (6, 0)] [l1; l2].

Lemma demo_apart l1 l2 : rebuild_apart (demo_rebuild l1 l2) (λ b' _, b' = 1).
Proof. intros i. split_and!; [done..|]. by repeat constructor. Qed.

Lemma bucket_rebuild_sorts_witness :
  ∃ w' fb l, bucket_rebuild (Addr 1 1 0) (Addr 1 2 0) 1 (demo_round3 [7; -4] [9; 0; 2]) = Ok tt w' ∧
    final_data_at w' 1 1 fb l ∧ l ≡ₚ [7; -4; 9; 0; 2] ∧ (fits l → StronglySorted Z.le l).
Proof.
  apply (bucket_rebuild_sorts 1 (demo_round3 [7; -4] [9; 0; 2]) 1 (demo_rebuild [7; -4] [9; 0; 2])).
  split; [apply wokb_spec; vm_compute; reflexivity|]. split; [by_eval|]. split; [unfold rebuild_ok; by_eval|].
  split; [by_eval|]. split; [apply demo_apart|]. exists 2. by_eval.
Defined.

Lemma demo_ready l1 l2 :
  wokb (demo_round3 l1 l2) = true →
  bool_decide (rebuild_at (demo_round3 l1 l2) 1 (demo_rebuild l1 l2) ∧
    valid (demo_round3 l1 l2) 1 0 (Z.to_nat sizeof_BucketTask) ∧
    mb (demo_round3 l1 l2) 1 (f_off Task_taskID) (enc_i32 2)) = true →
  Forall is_s32 l1 → Forall is_s32 l2 → Z.of_nat (length (l1 ++ l2)) < 536870912 →
  bucket_ready (demo_round3 l1 l2) 1 1 (demo_rebuild l1 l2).
Proof.
  intros Hok (Hr & Hv & Hi)%bool_decide_eq_true H1 H2 Hl.
  split; [by apply wokb_spec|]. split; [done|]. split.
  { split; [by repeat constructor|]. split; [done|]. cbn. by rewrite app_nil_r. }
  split; [done|]. split; [apply demo_apart|]. by exists 2.
Qed.

Lemma sample_sort_correct_witness :
  let ws i := demo_round3 (part [10; 0] i [30; 7]) (part [10; 0] i [10; -4; 11]) in
  let xs i := demo_rebuild (part [10; 0] i [30; 7]) (part [10; 0] i [10; -4; 11]) in
  ∃ outs, length outs = 2%nat ∧
    (∀ i l, outs !! i = Some l → ∃ w' fb,
       bucket_rebuild (Addr 1 1 0) (Addr 1 2 0) 1 (ws i) = Ok tt w' ∧ final_data_at w' 1 1 fb l) ∧
    StronglySorted Z.le (concat outs) ∧ concat outs ≡ₚ [30; 7; 10; -4; 11].
Proof.
  intros ws xs. apply (sample_sort_correct 1 [10; 0] [[30; 7]; [10; -4; 11]] ws (λ _, 1) xs).
  - done.
  - assert (∀ a, a ∈ concat [[30; 7]; [10; -4; 11]] → -4 <= a <= 30) as H.
    { apply Forall_forall. apply (bool_decide_unpack _). vm_compute. reflexivity. }
    intros a b Ha%H Hb%H. unfold is_s32. lia.
  - intros i Hi. split; [|done]. unfold ws, xs.
    destruct i as [|[|i]]; [| |cbn in Hi; lia]; (apply demo_ready; [vm_compute; reflexivity|vm_compute; reflexivity|by_eval|by_eval|vm_compute; reflexivity]).
Defined.
