(* ===== verification/SortProps.v ===== *)
(** * Properties of the helpers of the sample sort

    The random numbers the sample is drawn with, and the comparison function. *)

From S2P Require Import Prelude CMem CLogic Messages MessageSpec CircularSpec Demo System SystemSpec.
From S2P Require Import Tasks SampleSort SortPure.
From stdpp Require Import base numbers list strings gmap sorting.
From Stdlib Require Import Lia.
#[local] Open Scope Z_scope.
#[local] Open Scope ts_scope.

Lemma u64_small z : 0 <= z < 18446744073709551616 → u64 z = z.
Proof. intros H. unfold u64. by rewrite Z.mod_small. Qed.

Lemma draw_spec fuel limit p w skipped x rest :
  w_rand w = skipped ++ x :: rest → Forall (λ y, limit <= u64 y) skipped → u64 x < limit →
  (length skipped < fuel)%nat → draw fuel limit p w = Ok x (set_rand rest w).
Proof.
  revert fuel w. induction skipped as [|y skipped IH]; intros fuel w Hw Hs Hx Hf; (destruct fuel as [|fuel]; [cbn in Hf; lia|]).
  - cbn [draw]. unfold bind, random. cbn in Hw. rewrite Hw. destruct (Z.leb_spec limit (u64 x)); [lia|done].
  - apply Forall_cons in Hs as [Hy Hs]. cbn [draw]. unfold bind, random. cbn in Hw. rewrite Hw.
    destruct (Z.leb_spec limit (u64 y)); [|lia].
    rewrite (IH fuel (set_rand (skipped ++ x :: rest) w)); [done|done|done|done|cbn in Hf; lia].
Qed.

(** [random_at_most] answers a number from 0 to [max]: it skips the random
    numbers past the last whole bin and answers the bin of the first other one;
    all bins have the same width, so that every answer is equally likely. *)
Theorem random_at_most_range fuel max p w skipped x rest :
  0 <= max < RAND_MAX →
  let bin := (RAND_MAX + 1) / (max + 1) in
  w_rand w = skipped ++ x :: rest →
  Forall (λ y, bin * (max + 1) <= y <= RAND_MAX) skipped → 0 <= x < bin * (max + 1) →
  (length skipped < fuel)%nat →
  random_at_most fuel max p w = Ok (x / bin) (set_rand rest w) ∧ 0 <= x / bin <= max ∧
  ∀ y, y / bin = x / bin ↔ bin * (x / bin) <= y < bin * (x / bin) + bin.
Proof.
  intros Hm bin Hw Hs Hx Hf. unfold RAND_MAX in *.
  assert (1 <= bin) as Hb by (unfold bin; apply Z.div_le_lower_bound; lia).
  assert (bin * (max + 1) <= 2147483648) as Hle by (unfold bin; rewrite Z.mul_comm; apply Z.mul_div_le; lia).
  assert (0 <= x / bin <= max) as Hr.
  { split; [apply Z.div_pos; lia|]. assert (x / bin < max + 1); [|lia]. apply Z.div_lt_upper_bound; lia. }
  split; [|split; [exact Hr|]].
  - unfold random_at_most, RAND_MAX. rewrite (u64_small max), (u64_small (max + 1)) by lia.
    destruct (Z.eqb_spec (max + 1) 0) as [?|_]; [lia|].
    assert (2147483647 + 1 - (2147483647 + 1) mod (max + 1) = bin * (max + 1)) as ->.
    { unfold bin. pose proof (Z.div_mod (2147483647 + 1) (max + 1) ltac:(lia)). lia. }
    rewrite (u64_small (bin * (max + 1))) by lia. unfold bind at 1. rewrite (draw_spec _ _ _ _ skipped x rest); [|done| | |done].
    + fold bin. destruct (Z.eqb_spec bin 0); [lia|]. by rewrite u64_small by lia.
    + eapply Forall_impl; [exact Hs|]. intros y Hy. cbn in Hy. rewrite u64_small; lia.
    + rewrite u64_small; lia.
  - intros y. pose proof (Z.div_mod y bin ltac:(lia)). pose proof (Z.mod_pos_bound y bin ltac:(lia)). split; [nia|].
    intros Hy. symmetry. apply (Z.div_unique_pos _ _ _ (y - bin * (x / bin))); lia.
Qed.

Lemma random_at_most_range_witness :
  random_at_most 2 9 1 (world_init 0 [] [2147483647; 1500000000; 4]) = Ok 6 (world_init 0 [] [4]) ∧
  0 <= 6 <= 9 ∧ ∀ y, y / 214748364 = 6 ↔ 214748364 * 6 <= y < 214748364 * 6 + 214748364.
Proof.
  apply (random_at_most_range 2 9 1 (world_init 0 [] [2147483647; 1500000000; 4]) [2147483647] 1500000000 [4]).
  - unfold RAND_MAX. lia.
  - reflexivity.
  - repeat constructor; vm_compute; discriminate.
  - vm_compute. split; [discriminate|reflexivity].
  - cbn. lia.
Defined.

(** Without data the root divides by zero: with size 0 the sample asks for a
    random number up to -1, whose number of bins is 0. *)
Theorem no_data_faults fuel p w b samples n :
  mb w b (f_off SampleSortTask_size) (enc_i32 0) → 0 < n →
  take_sample fuel (Addr p b 0) samples n p w = Fault.
Proof.
  intros Hm Hn. unfold take_sample, for_range. destruct (Z.to_nat (n - 0)) as [|k] eqn:E; [lia|].
  cbn [for_up]. unfold bind at 1 2 3.
  destruct (proj1 (wp_Ok _ _ _ _) (wp_get_int p w b 0 SampleSortTask_size 0 (λ z w', z = 0 ∧ w' = w) Hm (conj eq_refl eq_refl)))
    as (z & w' & -> & -> & ->).
  done.
Qed.

Lemma no_data_faults_witness :
  take_sample 5 (Addr 1 1 0) Null SAMPLE_SIZE 1
    (state_of (t <- malloc sizeof_SampleSortTask;; set_int t SampleSortTask_size 0) 1 (world_init 0 [] [1; 2])) = Fault.
Proof. apply no_data_faults; [by_eval|reflexivity]. Defined.

(** The comparison functions subtract: two values further apart than an [int]
    can hold compare the wrong way round, and [qsort] leaves them unsorted. *)
Theorem comparison_overflow a b :
  is_s32 a → is_s32 b → 2147483648 < a - b →
  buckettask_cmpfunc a b < 0 ∧ 0 < buckettask_cmpfunc b a ∧
  samplesorttask_cmpfunc a b = buckettask_cmpfunc a b ∧ ¬ StronglySorted Z.le (sort_by buckettask_cmpfunc [a; b]).
Proof.
  unfold is_s32. intros Ha Hb Hd.
  assert (buckettask_cmpfunc a b = a - b - 4294967296) as H1.
  { unfold buckettask_cmpfunc, s32, u32. rewrite Z.mod_small by lia. zbool; lia. }
  assert (buckettask_cmpfunc b a = b - a + 4294967296) as H2.
  { unfold buckettask_cmpfunc, s32, u32. rewrite <- (Z.mod_unique_pos (b - a) 4294967296 (-1) (b - a + 4294967296)) by lia.
    zbool; lia. }
  rewrite H1, H2. split_and!; [lia|lia|exact H1|].
  cbn. rewrite H1. destruct (Z.leb_spec (a - b - 4294967296) 0); [|lia].
  intros Hs. apply StronglySorted_inv in Hs as [_ Hs]. apply Forall_cons in Hs as [Hs _]. lia.
Qed.

Lemma comparison_overflow_witness :
  buckettask_cmpfunc 2000000000 (-2000000000) < 0 ∧ 0 < buckettask_cmpfunc (-2000000000) 2000000000 ∧
  samplesorttask_cmpfunc 2000000000 (-2000000000) = buckettask_cmpfunc 2000000000 (-2000000000) ∧
  ¬ StronglySorted Z.le (sort_by buckettask_cmpfunc [2000000000; -2000000000]).
Proof. apply comparison_overflow; unfold is_s32; lia. Defined.
