(* ===== verification/Scenarios.v ===== *)
(** * Whole programs, under schedules

    The main programs of [test/simple_task_test.c] (in [SimpleTasks]) and of
    [test/samplesort_test.c], run with the threads they start in a given order:
    what is printed or sorted, and an order of the threads of the sample sort
    in which the root reads an array of a bucket task that has returned. *)

From S2P Require Import Prelude CMem CLogic Messages MessageSpec Demo CircularMsgQ System SystemSpec TimeHelper.
From S2P Require Import Tasks SimpleTasks SampleSort.
From stdpp Require Import base numbers list strings gmap sorting.
From Stdlib Require Import Lia.
#[local] Open Scope Z_scope.
#[local] Open Scope ts_scope.

(** ** simple_task_test *)

(** What task [t] printed. *)
Definition printed_by (t : Z) (w : world) : list (string * list parg) :=
  filter (λ e, Is_true ((match e.2 with AInt z :: _ => z =? t | _ => false end) && String.prefix "Task " e.1)) (w_out w).

#[export] Instance parg_eq_dec : EqDecision parg.
Proof. solve_decision. Defined.

Definition txt (s : string) : parg := AStr (chars s).

(** What each child of the [PapaTask] prints. *)
Definition child_prints (t : Z) : list (string * list parg) :=
  if t =? 2 then
    [("Task %d Text message handler: %s", [AInt 2; txt "Hello World"]);
     ("Task %d Bar message handler, value: %d", [AInt 2; AInt 99])]%string
  else if t =? 3 then
    [("Task %d Bar message handler, value: %d", [AInt 3; AInt 44]);
     ("Task %d Text message handler: %s", [AInt 3; txt "Goodbye World"])]%string
  else
    [("Task %d No Handler for tag = %d, dropping message! ", [AInt 4; AInt 1]);
     ("Task %d Text message handler: %s", [AInt 4; txt "me too"])]%string.

(** The three children received their messages. *)
Definition children_done (r : res Z) : bool :=
  match r with
  | Ok t w => bool_decide (t = 1 ∧ Forall (λ c, printed_by c w = child_prints c) [2; 3; 4])
  | _ => false
  end.

Definition simple_world : world := world_init 7000 [] [].

Lemma in_permutations (s l : list nat) : s ≡ₚ l → In s (permutations l).
Proof. intros H. apply list_elem_of_In. by apply permutations_Permutation. Qed.

(** After the [PapaTask] the children may run in any order: each one gets the
    messages that were sent to it, in the order they were sent, and the
    [BazTask] drops the bar message, which it has no handler for. *)
Theorem simple_test_any_order s :
  s ≡ₚ [2; 3; 4]%nat →
  ∃ w, simple_task_test (1%nat :: s) 1 simple_world = Ok 1 w ∧
    ∀ c, c ∈ [2; 3; 4] → printed_by c w = child_prints c.
Proof.
  intros Hs%in_permutations.
  assert (forallb (λ s, children_done (simple_task_test (1%nat :: s) 1 simple_world))
            (permutations [2; 3; 4]%nat) = true) as H by (vm_compute; reflexivity).
  rewrite forallb_forall in H. specialize (H s Hs). unfold children_done in H.
  destruct (simple_task_test _ _ _) as [t w| | |]; try done. apply bool_decide_eq_true in H as [-> H].
  exists w. split; [done|]. by rewrite Forall_forall in H.
Qed.

Lemma simple_test_any_order_witness :
  ∃ w, simple_task_test [1; 4; 2; 3]%nat 1 simple_world = Ok 1 w ∧
    ∀ c, c ∈ [2; 3; 4] → printed_by c w = child_prints c.
Proof.
  apply (simple_test_any_order [4; 2; 3]%nat). apply (bool_decide_unpack _). vm_compute. reflexivity.
Defined.

(** ** samplesort_test *)

(** [main], up to the wait for the end of the sort: the values are read into
    [test_data], and the root task is sent [K] and the data. *)
Definition samplesort_test (k : Z) (values : list Z) : M ptr :=
  let n := Z.of_nat (length values) in
  printf "Starting samplesort for K=%d and N=%d" [AInt k; AInt n];;;
  test_data <- malloc (n * 4);;
  st_ints test_data values;;;
  Comm <- System_create;;
  samplesort <- SampleSortTask_create Comm;;
  k_msg <- BarMsg_create SampleSort.BAR_MSG;;
  call_BarMsg_setValue k_msg k;;;
  Comm_send Comm k_msg samplesort;;;
  call_destroy k_msg;;;
  data_msg <- RefIntArrayMsg_create REF_INTARRAY_MSG;;
  call_RefIntArrayMsg_setValues data_msg n test_data;;;
  Comm_send Comm data_msg samplesort;;;
  call_destroy data_msg;;;
  ret Comm.

(** What the threads do between two waits: the root starts, bucket [i] splits its
    data, the root receives a message, the root sends bucket [i] the rows, bucket
    [i] rebuilds and sorts and returns, the root ends. *)
Inductive piece :=
| RootStart | Split (i : nat) | Collect | Distribute (i : nat) | Finish (i : nat) | RootEnd.

(** The local variables of the threads that wait. *)
Record locals := Locals { lc_root : option root_locals; lc_buckets : gmap nat bucket_locals }.

(** The struct of started thread [n]: 1 is the root, 2 the first bucket. *)
Definition thread_arg (n : nat) : M ptr :=
  w <- get_world;; match w_threads w !! n with Some (_, _, a) => ret a | None => spin end.

Section run.
Context (fuel : nat) (sample_size : Z) (Comm MainSleepCond : ptr).

Definition run_piece (s : locals) (x : piece) : M locals :=
  root <- thread_arg 1;;
  match x with
  | RootStart =>
      l <- SampleSortTask_start_1 fuel sample_size Comm root;; ret (Locals (Some l) (lc_buckets s))
  | Split i =>
      b <- thread_arg (2 + i);;
      l <- BucketTask_start_1 fuel Comm b;; ret (Locals (lc_root s) (<[i := l]> (lc_buckets s)))
  | Collect => SampleSortTask_collect fuel Comm root;;; ret s
  | Distribute i =>
      match lc_root s with
      | Some l => SampleSortTask_distribute Comm root l (Z.of_nat i);;; ret s
      | None => spin
      end
  | Finish i =>
      match lc_buckets s !! i with
      | Some l => b <- thread_arg (2 + i);; BucketTask_start_2 fuel Comm b l;;; ret s
      | None => spin
      end
  | RootEnd =>
      match lc_root s with
      | Some l => SampleSortTask_finish 0 MainSleepCond l;;; ret s
      | None => spin
      end
  end.

Fixpoint run_pieces (s : locals) (xs : list piece) : M locals :=
  match xs with
  | [] => ret s
  | x :: xs => s' <- run_piece s x;; run_pieces s' xs
  end.
End run.

(** The array that bucket [i] ends with. *)
Definition final_values (i : nat) : M (list Z) :=
  b <- thread_arg (2 + i);;
  a <- get_ptr b BucketTask_final_data_values;;
  n <- get_int b BucketTask_final_data_size;;
  ld_ints a (Z.to_nat n).

Fixpoint all_values (i k : nat) : M (list (list Z)) :=
  match k with
  | O => ret []
  | S k' => l <- final_values i;; ls <- all_values (S i) k';; ret (l :: ls)
  end.

(** The program under a schedule: the final arrays of the buckets, in order. *)
Definition run_samplesort (fuel : nat) (sample_size : Z) (k : nat) (values : list Z) (xs : list piece)
    : M (list (list Z)) :=
  cond <- malloc 48;;
  Comm <- samplesort_test (Z.of_nat k) values;;
  run_pieces fuel sample_size Comm cond (Locals None ∅) xs;;;
  all_values 0 k.

(** Every round ends before the next one, as the comments of the code describe it;
    in rounds 2 and 3 the buckets run in the orders [ss] and [fs]. *)
Definition rounds (k : nat) (ss fs : list nat) : list piece :=
  [RootStart] ++ (Split <$> ss) ++ replicate k Collect ++
  (Distribute <$> seq 0 k) ++ (Finish <$> fs) ++ replicate k Collect ++ [RootEnd].

Definition sort_world : world := world_init 7000 [] [5; 1000000000; 2000000000; 7; 1500000000; 300000000].
Definition sort_values : list Z := [30; 7; 10; -4; 11; 8; 2; 25; 19; 3].

Definition ends_with {A} `{EqDecision A} (r : res A) (a : A) : bool :=
  match r with Ok b _ => bool_decide (b = a) | _ => false end.

Lemma ends_with_Ok {A} `{EqDecision A} (r : res A) (a : A) : ends_with r a = true → ∃ w, r = Ok a w.
Proof. destruct r as [b w| | |]; try done. intros ->%bool_decide_eq_true. by exists w. Qed.

(** The program sorts: two bucket tasks, ten values; whatever the order in
    which the buckets split their parts and in which they sort theirs, the
    arrays they end with are the values, sorted. *)
Theorem samplesort_any_order ss fs :
  ss ≡ₚ [0; 1]%nat → fs ≡ₚ [0; 1]%nat →
  ∃ w outs, run_samplesort 3 6 2 sort_values (rounds 2 ss fs) 1 sort_world = Ok outs w ∧
    concat outs = [-4; 2; 3; 7; 8; 10; 11; 19; 25; 30].
Proof.
  intros Hs%in_permutations Hf%in_permutations.
  assert (forallb (λ ss, forallb (λ fs,
    ends_with (run_samplesort 3 6 2 sort_values (rounds 2 ss fs) 1 sort_world)
      [[-4; 2; 3; 7; 8; 10; 11]; [19; 25; 30]]) (permutations [0; 1]%nat))
    (permutations [0; 1]%nat) = true) as H by (vm_compute; reflexivity).
  rewrite forallb_forall in H. specialize (H ss Hs). rewrite forallb_forall in H. specialize (H fs Hf).
  apply ends_with_Ok in H as [w H]. exists w, [[-4; 2; 3; 7; 8; 10; 11]; [19; 25; 30]].
  split; [exact H|reflexivity].
Qed.

Lemma samplesort_any_order_witness :
  ∃ w outs, run_samplesort 3 6 2 sort_values (rounds 2 [1; 0]%nat [1; 0]%nat) 1 sort_world = Ok outs w ∧
    concat outs = [-4; 2; 3; 7; 8; 10; 11; 19; 25; 30].
Proof. apply samplesort_any_order; apply (bool_decide_unpack _); vm_compute; reflexivity. Defined.

(** Nothing makes a bucket wait until the root has sent the other buckets
    theirs: when bucket 0 is done before the root goes on with bucket 1, the
    root reads the local array [values_to_propagate] of a function that has
    returned. *)
Theorem samplesort_race :
  run_samplesort 3 6 2 sort_values
    [RootStart; Split 0; Split 1; Collect; Collect; Distribute 0; Finish 0; Distribute 1; Finish 1;
     Collect; Collect; RootEnd] 1 sort_world = Fault ∧
  ∃ w, run_samplesort 3 6 2 sort_values
    [RootStart; Split 0; Split 1; Collect; Collect; Distribute 0; Distribute 1; Finish 0; Finish 1;
     Collect; Collect; RootEnd] 1 sort_world = Ok [[-4; 2; 3; 7; 8; 10; 11]; [19; 25; 30]] w.
Proof.
  split; [vm_compute; reflexivity|].
  apply ends_with_Ok with (a := [[-4; 2; 3; 7; 8; 10; 11]; [19; 25; 30]]). vm_compute. reflexivity.
Qed.
