(* ===== verification/TestPrograms.v ===== *)
(** * The test programs

    The [main] functions of [test/] that are not in [SimpleTasks] or [Scenarios]:
    the test of the circular queue, of the shared data of two messages, of the
    system, and the programs that start the database and weather tasks, up to and
    after their wait for the global [done]; what the threads do in between is an
    argument.  Then [exploration/c_quicksort/quicksort.c]. *)

From S2P Require Import Prelude CMem Messages CircularMsgQ System TimeHelper Tasks Database Weather.
From stdpp Require Import base numbers list strings gmap.
From Stdlib Require Import Ascii.
#[local] Open Scope Z_scope.
#[local] Open Scope ts_scope.

(** A test that fails prints a message and returns -1. *)
Definition fails (msg : string) : M Z := printf msg [];;; ret (-1).

(** ** circular_msgq_test.c *)

Definition print_int (fmt : string) (c : M Z) : M unit := v <- c;; printf fmt [AInt v].

Definition print_head_tail (q : ptr) : M unit :=
  head <- get_int q Queue_head;; tail <- get_int q Queue_tail;;
  printf "Head = %d Tail = %d" [AInt head; AInt tail].

(** [if (q->head != head) ...; if (q->tail != tail) ...] *)
Definition check_head_tail (q : ptr) (head tail : Z) (k : M Z) : M Z :=
  print_head_tail q;;;
  h <- get_uint q Queue_head;;
  if negb (h =? head) then fails "Error: wrong head position" else (
  t <- get_uint q Queue_tail;;
  if negb (t =? tail) then fails "Error: wrong tail position" else k).

(** Lines 31 to 67: an empty queue, one message in, a look at it, out again. *)
Definition one_message_test (q : ptr) (k : ptr → M Z) : M Z :=
  print_int "IsEmpty=%d" (IsEmpty q);;;
  print_int "IsRollover=%d" (get_int q Queue_rollover_position);;;
  head <- get_int q Queue_head;; tail <- get_int q Queue_tail;; size <- get_int q Queue_size;;
  printf "Head=%d Tail=%d Size=%d" [AInt head; AInt tail; AInt size];;;
  msg <- BarMsg_create 5;;
  call_BarMsg_setValue msg 10;;;
  res <- Enqueue q msg;;
  call_destroy msg;;;
  printf "Enqueue done with res=%d" [AInt res];;;
  peeked <- Peek q;;
  tag <- get_int peeked Message_tag;; value <- get_int peeked BarMsg_value;;
  printf "Peeked msg with tag=%d and value=%d" [AInt tag; AInt value];;;
  if negb (value =? 10) then fails "Error: wrong peeked value" else (
  poped <- Dequeue q;;
  tag' <- get_int poped Message_tag;; value' <- get_int poped BarMsg_value;;
  printf "Dequeued msg with tag=%d and value=%d" [AInt tag'; AInt value'];;;
  print_int "IsEmpty=%d" (IsEmpty q);;;
  none <- Dequeue q;;
  if negb (bool_decide (none = Null)) then fails "Error: dequeue should return null" else (
  printf "Dequeued returned null" [];;;
  print_head_tail q;;;
  h <- get_uint q Queue_head;;
  if negb (h =? 128) then fails "Error: wrong head position" else k msg)).

(** Lines 71 to 74 and 88 to 91: [msg] is still the message of line 36, which was
    destroyed, and not the [m] that the line before creates. *)
Definition refill (q msg : ptr) (i : Z) : M unit :=
  m <- BarMsg_create 3;;
  call_BarMsg_setValue msg i;;;
  res <- Enqueue q msg;;
  call_destroy msg.

(** Lines 69 to 135. *)
Definition full_queue_test (q msg : ptr) (k : M Z) : M Z :=
  for_range 0 13887 (refill q msg);;;
  check_head_tail q 128 999992 (
  refill q msg 100;;;
  check_head_tail q 128 128 (
  msg <- BarMsg_create 10;;
  call_BarMsg_setValue msg 555;;;
  res <- Enqueue q msg;;
  if res =? 1 then fails "Error: Array should be full" else (
  call_destroy msg;;;
  printf "Enqueue done with res=%d" [AInt res];;;
  for_range 0 13887 (λ i, deq <- Dequeue q;; ret tt);;;
  check_head_tail q 999992 128 (
  deq <- Dequeue q;;
  if decide (deq = Null) then fails "Error : Should not be null" else (
  print_head_tail q;;;
  print_int "IsEmpty=%d" (IsEmpty q);;;
  print_int "IsRollover=%d" (get_int q Queue_rollover_position);;;
  k))))).

(** The body of the loop of lines 147 to 187: [Some] is the value that [main] returns. *)
Definition overflow_turn (q2 msg : ptr) : M (option Z) :=
  let failed text := r <- fails text;; ret (Some r) in
  res <- Enqueue q2 msg;;
  if res =? 0 then failed "Error: Enqueue failed on overflow test" else (
  peeked_overflow <- Peek q2;;
  if decide (peeked_overflow = Null) then failed "Error : Peek failed on overflow test" else (
  tid <- get_int peeked_overflow Message_tid;;
  if negb (tid =? 8) then failed "Error : Peek failed on overflow test" else (
  tag <- get_int peeked_overflow Message_tag;;
  if negb (tag =? 1) then failed "Error : Peek failed on overflow test" else (
  deq_response <- Dequeue q2;;
  if decide (deq_response = Null) then failed "Error : Dequeue failed on overflow test" else (
  request_type <- get_int deq_response RequestMsg_request_type;;
  if negb (request_type =? 3) then failed "Error : Dequeue failed on overflow test" else (
  tid' <- get_int deq_response Message_tid;;
  if negb (tid' =? 8) then failed "Error : Dequeue failed on overflow test" else (
  tag' <- get_int deq_response Message_tag;;
  if negb (tag' =? 1) then failed "Error : Dequeue failed on overflow test" else ret None))))))).

(** Lines 140 to 191, with the number of turns, 50000 in the source. *)
Definition overflow_test (turns : nat) (k : M Z) : M Z :=
  q2 <- CreateQueue "/TEST_Q_OVERFLOW";;
  overflow_res_msg <- RequestMsg_create 1;;
  set_int overflow_res_msg RequestMsg_request_type 3;;;
  r <- for_find turns 0 (λ _, overflow_turn q2 overflow_res_msg);;
  match r with
  | Some v => ret v
  | None => call_destroy overflow_res_msg;;; DeleteQueue "/TEST_Q_OVERFLOW";;; k
  end.

Definition circular_msgq_test : M Z :=
  q <- CreateQueue "/TEST_CIRCULAR_MSG_Q";;
  one_message_test q (λ msg,
  full_queue_test q msg (
  DeleteQueue "/TEST_CIRCULAR_MSG_Q";;;
  overflow_test (Z.to_nat 50000) (
  printf "Success" [];;; ret 0))).

(** ** ref_intarray_test.c *)

Definition fill_array (arr : ptr) : M unit := for_range 0 20 (λ i, st_i32 (idx_i32 arr i) i).

(** The test calls [RefIntArrayMsg_create] without its argument, which the header
    allows: the tags are whatever was in the register. *)
Definition ref_intarray_test (tag1 tag2 : Z) : M Z :=
  arr <- malloc (20 * 4);;
  fill_array arr;;;
  msg1 <- RefIntArrayMsg_create tag1;;
  call_RefIntArrayMsg_setValues msg1 20 arr;;;
  msg2 <- RefIntArrayMsg_create tag2;;
  call_RefIntArrayMsg_setValues msg2 20 arr;;;
  (values <- get_ptr msg1 RefIntArrayMsg_values;; st_i32 (idx_i32 values 0) 1000);;;
  values <- get_ptr msg2 RefIntArrayMsg_values;;
  v <- ld_i32 (idx_i32 values 0);;
  if negb (v =? 1000) then fails "Value at 0 != 1000" else (
  printf "Success" [];;;
  ret 0).

(** ** system_test.c *)

Definition system_test : M Z :=
  Comm <- System_create;;
  if decide (Comm = Null) then fails "Comm==null" else (
  next_id <- Comm_getNextTaskID Comm;;
  if negb (next_id =? 1) then fails "Wrong next_id" else (
  printf "Success" [];;;
  Comm_destroy Comm;;;
  ret 0)).

(** ** The programs of the database and of the weather station *)

(** [atoi]: blanks, a sign, digits; a value that is no [int] is undefined behaviour. *)
Definition is_blank (c : Ascii.ascii) : bool :=
  let n := Ascii.nat_of_ascii c in (9 <=? n)%nat && (n <=? 13)%nat || (n =? 32)%nat.

Fixpoint digits (s : string) (v : Z) : Z :=
  match s with
  | String c s' =>
      let n := Z.of_nat (Ascii.nat_of_ascii c) in
      if (48 <=? n) && (n <=? 57) then digits s' (10 * v + (n - 48)) else v
  | EmptyString => v
  end.

Definition signed_digits (s : string) : Z :=
  match s with
  | String "-"%char s' => - digits s' 0
  | String "+"%char s' => digits s' 0
  | _ => digits s 0
  end.

Fixpoint atoi_value (s : string) : Z :=
  match s with
  | String c s' => if is_blank c then atoi_value s' else signed_digits s
  | EmptyString => 0
  end.

Definition atoi (s : string) : M Z :=
  if decide (is_s32 (atoi_value s)) then ret (atoi_value s) else fault.

(** [while(done == 0);]: other threads have to set [done]. *)
Definition wait_done (done : ptr) : M unit := v <- ld_i32 done;; if v =? 0 then spin else ret tt.

(** The addresses that the programs print are left out. *)
Definition print_system (Comm : ptr) : M unit :=
  printf "System addr %p" [];;;
  data <- get_ptr Comm System_data;;
  printf "System shared data addr %p" [].

Section mains.
(** What the other threads do while [main] waits, with the parameters that [main]
    leaves in its global variables. *)
Context (others : ptr → list Z → M unit) (done : ptr) (argv : list string).

(** [argv] is without the name of the program. *)
Definition db_server_main : M Z :=
  st_i32 done 0;;;
  max_request <- match argv with a :: _ => atoi a | [] => ret (-1) end;;
  printf "Server started with max_request=%d" [AInt max_request];;;
  Comm <- System_create;;
  print_system Comm;;;
  server_task <- DatabaseTask_create Comm;;
  printf "Database server task id = %d" [AInt (s32 server_task)];;;
  others Comm [max_request];;;
  wait_done done;;;
  Comm_destroy Comm;;;
  ret 0.

Definition db_client_main : M Z :=
  st_i32 done 0;;;
  match argv with
  | [a1; a2] =>
      nb_request <- atoi a1;;
      req_type <- atoi a2;;
      printf "Client started with nb_request=%d" [AInt nb_request];;;
      Comm <- System_acquire;;
      print_system Comm;;;
      client_task <- ClientTask_create Comm;;
      printf "Client server task id = %d" [AInt (s32 client_task)];;;
      others Comm [nb_request; req_type];;;
      wait_done done;;;
      ret 0
  | _ => printf "Usage : db_client_test N REQ_TYPE" [];;; ret (-1)
  end.

(** Send the name of the station to the task. *)
Definition send_station_name (Comm : ptr) (station_name : string) (task : Z) : M unit :=
  station_name_msg <- TextMsg_create WEATHER_STATION_NAME_MSG;;
  (arg <- str_lit station_name;; call_TextMsg_setMsg station_name_msg arg);;;
  Comm_send Comm station_name_msg task;;;
  call_destroy station_name_msg.

Definition wt_start_main : M Z :=
  st_i32 done 0;;;
  match argv with
  | [station_name; a2] =>
      acquire_system <- atoi a2;;
      Comm <- (if acquire_system =? 0 then System_create else System_acquire);;
      print_system Comm;;;
      weather_station_task <- WeatherStationTask_create Comm;;
      printf "Weather station task id = %d" [AInt (s32 weather_station_task)];;;
      send_station_name Comm station_name weather_station_task;;;
      others Comm [];;;
      wait_done done;;;
      (if acquire_system =? 0 then Comm_destroy Comm else ret tt);;;
      ret 0
  | _ => printf "Usage : wt_start_test station_name [0/1] " [];;; exit (-1)
  end.

Definition wt_client_main : M Z :=
  st_i32 done 0;;;
  match argv with
  | [station_name] =>
      Comm <- System_acquire;;
      print_system Comm;;;
      weather_station_task <- WeatherClientTask_create Comm;;
      printf "Weather client task id = %d" [AInt (s32 weather_station_task)];;;
      send_station_name Comm station_name weather_station_task;;;
      others Comm [];;;
      wait_done done;;;
      ret 0
  | _ => printf "Usage : wt_client_test station_name" [];;; exit (-1)
  end.

End mains.

(** ** quicksort.c *)

(** [scanf("%d", &temp)]: the next number of the input; without one [temp] keeps
    what it has, [None] when it was never assigned. *)
Definition scanf_int (temp : option Z) (input : list Z) : option Z * list Z :=
  match input with z :: rest => (Some z, rest) | [] => (temp, []) end.

Definition read_input (array : ptr) (n : Z) (input : list Z) : M (option Z * list Z) :=
  for_fold (Z.to_nat n) 0 (None, input) (λ i s,
    let s' := scanf_int s.1 s.2 in
    match s'.1 with Some temp => st_i32 (idx_i32 array i) temp;;; ret s' | None => fault end).

Definition print_time (fmt : string) (t : timespec) : M unit :=
  printf fmt [AInt (tv_sec t); AInt (Z.quot (tv_nsec t) 1000000)].

Definition cmpfunc (a b : Z) : Z := s32 (a - b).

(** [display] is whether [DISPLAY_DEBUG] is defined. *)
Definition quicksort_main (display : bool) (argv : list string) (input : list Z) : M Z :=
  printf "Quicksort start" [];;;
  read_start <- now;;
  n <- match argv with a :: _ => atoi a | [] => fault end;;
  printf "Start reading data" [];;;
  array_to_sort <- malloc (n * 4);;
  read_input array_to_sort n input;;;
  printf "Done reading data" [];;;
  read_end <- now;;
  sort_start <- now;;
  printf "Start sorting data" [];;;
  qsort array_to_sort n cmpfunc;;;
  printf "Done sorting data" [];;;
  sort_end <- now;;
  (if display then
     (for_range 0 n (λ i, v <- ld_i32 (idx_i32 array_to_sort i);; printf "%d " [AInt v]);;;
      printf "" [])
   else ret tt);;;
  free array_to_sort;;;
  printf "Quicksort done" [];;;
  print_time "QS-READ %lds,%ldms - Get sample time" (diff read_start read_end);;;
  print_time "QS-SORT %lds,%ldms - Waiting on splitter time" (diff sort_start sort_end);;;
  ret 0.
