(* ===== verification/TestProps.v ===== *)
(** * What the test programs show

    [overflow_turns_pass]: the loop of [circular_msgq_test.c] that sends messages
    through a queue never fails, however often the queue rolls over.
    [circular_msgq_test_faults]: the program uses a message after it destroyed it. *)

From S2P Require Import Prelude CMem CLogic Messages MessageSpec Ring CircularMsgQ CircularSpec Demo QueueProps.
From S2P Require Import System SystemSpec TimeHelper Tasks Arrays SampleSort SortPure SortSpec TestPrograms.
From stdpp Require Import base numbers list strings gmap sorting.
From Stdlib Require Import Lia.
#[local] Open Scope Z_scope.
#[local] Open Scope ts_scope.

(** ** The queue test *)

(** The request that the test sends, with the type 3. *)
Definition overflow_msg (sender : Z) : msg := Msg 1 sizeof_RequestMsg (BReq sender 3 []).

(** The queue is empty, and the message can be sent. *)
Definition overflow_state (p q b sender : Z) (w : world) : Prop :=
  unlocked w q ∧ obj_at w p b 0 (overflow_msg sender) Null ∧ ∃ r, q_inv w q r ∧ r_segs r = [].

Lemma overflow_turn_wp p w q b s :
  b ≠ q → overflow_state p q b s w →
  wp (overflow_turn (Addr p q 0) (Addr p b 0)) p w (λ a w', a = None ∧ overflow_state p q b s w').
Proof.
  intros Hne (Hu & Ho & r & Hq & Hs). pose proof Hq as (_ & _ & Hr & _).
  unfold overflow_turn. apply wp_bind.
  eapply wp_mono; [eapply (Enqueue_wp p w q b 0 (overflow_msg s) Null r); try done; try by left|].
  cbv beta. intros a w1 H1. destruct (mring_enq r (overflow_msg s)) as [r1|] eqn:E1; cycle 1.
  { apply enq_no_room in E1. destruct E1. apply room_half; [done|done|by vm_compute]. }
  destruct H1 as (-> & Hq1 & Ho1 & He1). cbn [Z.eqb]. pose proof (unlocked_ext _ _ _ _ He1 Hu) as Hu1.
  pose proof (enq_after _ _ _ E1) as (pos & ro & _ & Hr1).
  assert (r_segs r1 = [(pos, overflow_msg s)]) as Hs1 by (rewrite Hr1; cbn [r_segs]; by rewrite Hs).
  apply wp_bind. eapply wp_mono; [apply (Peek_wp p w1 q r1); [exact Hq1|exact Hu1]|]. cbv beta. rewrite Hs1. intros a w2 [-> ->].
  pose proof Hq1 as (_ & _ & _ & _ & Hser). rewrite Hs1 in Hser.
  apply Forall_cons in Hser as [((Htag & Htid & _) & _) _]. rewrite decide_False by done.
  apply wp_bind. eapply wp_get_int; [exact Htid|]. change (s32 (tid_of _)) with 8. cbn [negb Z.eqb Pos.eqb].
  apply wp_bind. eapply wp_get_int; [exact Htag|]. change (s32 (m_tag _)) with 1. cbn [negb Z.eqb Pos.eqb].
  apply wp_bind. eapply wp_mono; [apply (Dequeue_wp p w1 q r1); [exact Hq1|exact Hu1]|]. cbv beta.
  unfold ring_deq. rewrite Hs1. intros a w2 (-> & Hq2 & Ho2 & He2). rewrite decide_False by done.
  pose proof Ho2 as (_ & (Htag2 & Htid2 & _) & _ & (_ & Htype2 & _) & _).
  apply wp_bind. eapply wp_get_int; [exact Htype2|]. change (s32 3) with 3. cbn [negb Z.eqb Pos.eqb].
  apply wp_bind. eapply wp_get_int; [exact Htid2|]. change (s32 (tid_of _)) with 8. cbn [negb Z.eqb Pos.eqb].
  apply wp_bind. eapply wp_get_int; [exact Htag2|]. change (s32 (m_tag _)) with 1. cbn [negb Z.eqb Pos.eqb].
  apply wp_ret. split; [done|]. split; [by eapply unlocked_ext|]. split.
  - eapply (obj_extF _ w1); [|exact He2| | |exact Ho1]; [by vm_compute|by intros i ->|by left].
  - eexists. split; [exact Hq2|done].
Qed.

(** The second half of [circular_msgq_test.c]: a message put in an empty queue,
    looked at and taken out again, any number of times (50000 in the test).  Every
    check of the test passes in every turn, although the queue rolls over again
    and again, and the queue is empty at the end. *)
Theorem overflow_turns_pass n p w q b s :
  b ≠ q → overflow_state p q b s w →
  ∃ w', for_find n 0 (λ _, overflow_turn (Addr p q 0) (Addr p b 0)) p w = Ok None w' ∧ overflow_state p q b s w'.
Proof.
  intros Hne Hst.
  enough (wp (for_find n 0 (λ _, overflow_turn (Addr p q 0) (Addr p b 0))) p w (λ a w', a = None ∧ overflow_state p q b s w'))
    as (a & w' & E & -> & H)%wp_run by by exists w'.
  apply (wp_for_find (λ _ w', overflow_state p q b s w')); [done| |done].
  intros i w' _ Hw'. eapply wp_mono; [by apply (overflow_turn_wp p w' q b s)|]. by intros a w'' [-> ?].
Qed.

(** The queue and the message of the test. *)
Definition overflow_setup : M unit :=
  q2 <- CreateQueue "/TEST_Q_OVERFLOW";;
  overflow_res_msg <- RequestMsg_create 1;;
  set_int overflow_res_msg RequestMsg_request_type 3.

Definition demo_overflow : world := Eval vm_compute in state_of overflow_setup 1 (world_init 0 [] []).

Lemma demo_overflow_state : overflow_state 1 1 2 (-1) demo_overflow.
Proof.
  split; [by_eval|]. split; [by_eval|]. exists (ring_empty sizeof_Queue).
  split; [|done]. apply q_inv_empty; by_eval.
Qed.

Lemma overflow_turns_pass_witness :
  ∃ w', for_find (Z.to_nat 50000) 0 (λ _, overflow_turn (Addr 1 1 0) (Addr 1 2 0)) 1 demo_overflow = Ok None w' ∧
    overflow_state 1 1 2 (-1) w'.
Proof. apply (overflow_turns_pass (Z.to_nat 50000) 1 demo_overflow 1 2 (-1)); [done|exact demo_overflow_state]. Defined.

(** The test program as it is written uses [msg] after it destroyed it (the loop
    of line 70 creates [m] and goes on with [msg]): whatever the clock and the
    random numbers are, it does not get past the first turn of that loop. *)
Theorem circular_msgq_test_faults clock rnd :
  circular_msgq_test 1 (world_init 0 clock rnd) = Fault.
Proof. vm_compute. reflexivity. Qed.

(** ** The sorting program *)

Lemma read_input_wp p w b l (Q : option Z * list Z → world → Prop) :
  valid w b 0 (4 * length l) →
  (∀ s w', mb w' b 0 (ints l) → Q s w') →
  wp (read_input (Addr p b 0) (Z.of_nat (length l)) l) p w Q.
Proof.
  intros Hv HQ. unfold read_input. rewrite Nat2Z.id.
  apply (wp_for_fold (λ i s w', s.2 = drop (Z.to_nat i) l ∧ mb w' b 0 (ints (take (Z.to_nat i) l)) ∧
    valid w' b 0 (4 * length l))).
  - split_and!; [done| |done]. apply mb_nil. eapply valid_le; [exact Hv|lia|lia].
  - intros i [temp rest] w' Hi (Hr & Hm & Hv'). cbn [fst snd] in *.
    destruct (lookup_lt_is_Some_2 l (Z.to_nat i)) as [v Hl]; [lia|].
    rewrite (drop_S _ _ _ Hl) in Hr. subst rest. cbn [scanf_int fst snd idx_i32 padd].
    assert (length (take (Z.to_nat i) l) = Z.to_nat i) as Hlen by (rewrite length_take; lia).
    apply wp_bind, wp_store; [autorewrite with len; eapply valid_le; [exact Hv'|lia|lia]|]. apply wp_ret.
    replace (Z.to_nat (i + 1)) with (S (Z.to_nat i)) by lia. split_and!; [done| |by apply valid_upd].
    rewrite (take_S_r _ _ _ Hl), Z.add_0_l. replace (4 * i) with (4 * Z.of_nat (length (take (Z.to_nat i) l))) by lia.
    apply mb_ints_snoc; [done|]. eapply valid_le; [exact Hv'|lia|lia].
  - intros s w' (_ & Hm & _). apply HQ. rewrite Z.add_0_l, Nat2Z.id, take_ge in Hm by done. done.
Qed.

(** One number per line of output. *)
Definition printed (l : list Z) : list (string * list parg) := (λ v, ("%d "%string, [AInt v])) <$> l.

Lemma print_loop_wp p w b l (Q : unit → world → Prop) :
  mb w b 0 (ints l) → Forall is_s32 l →
  (∀ w', w_blocks w' = w_blocks w → w_out w' = w_out w ++ printed l → Q tt w') →
  wp (for_range 0 (Z.of_nat (length l)) (λ i, v <- ld_i32 (idx_i32 (Addr p b 0) i);; printf "%d " [AInt v])) p w Q.
Proof.
  intros Hm Hl HQ.
  apply (wp_for_range (λ i w', w_blocks w' = w_blocks w ∧ w_out w' = w_out w ++ printed (take (Z.to_nat i) l)));
    [lia| | |].
  - split; [done|]. by rewrite app_nil_r.
  - intros i w' Hi [Hb Ho]. destruct (lookup_lt_is_Some_2 l (Z.to_nat i)) as [v Hv]; [lia|].
    apply wp_bind. eapply ld_int_wp; [by eapply mb_same_blocks|lia|exact Hv|by eapply Forall_lookup_1|].
    split; [done|]. cbn [add_out w_out]. rewrite Ho. replace (Z.to_nat (i + 1)) with (S (Z.to_nat i)) by lia.
    unfold printed. by rewrite (take_S_r _ _ _ Hv), fmap_app, app_assoc.
  - intros w' [Hb Ho]. apply HQ; [done|]. by rewrite Ho, Nat2Z.id, take_ge by done.
Qed.

Lemma printf_then {A} fmt args (k : M A) p w Q :
  wp k p (add_out (fmt, args) w) Q → wp (printf fmt args;;; k) p w Q.
Proof. intros H. by apply wp_bind. Qed.

Lemma now_then {A} (k : timespec → M A) p w Q :
  (∀ t w', w_blocks w' = w_blocks w → w_next w' = w_next w → w_out w' = w_out w → wp (k t) p w' Q) →
  wp (t <- now;; k t) p w Q.
Proof.
  intros H. apply wp_bind. unfold now. apply wp_bind. unfold wp at 1, clock_gettime.
  destruct (w_clock w) as [|t c]; by apply wp_ret, H.
Qed.

Lemma atoi_wp a n p w (Q : Z → world → Prop) : atoi_value a = n → is_s32 n → Q n w → wp (atoi a) p w Q.
Proof. intros Ha Hn HQ. unfold atoi. rewrite Ha, decide_True by done. by apply wp_ret. Qed.

(** [quicksort.c] with the printing of the result on: when the input has the
    numbers that the argument announces, and no two of them are too far apart for
    the subtraction of [cmpfunc], the program ends and prints them sorted. *)
Theorem quicksort_prints_sorted p w a l :
  wok w → atoi_value a = Z.of_nat (length l) → Z.of_nat (length l) < 2147483648 → Forall is_s32 l →
  (∀ x y, x ∈ l → y ∈ l → is_s32 (x - y)) →
  ∃ w' before after sorted, quicksort_main true [a] l p w = Ok 0 w' ∧
    w_out w' = before ++ printed sorted ++ after ∧ StronglySorted Z.le sorted ∧ sorted ≡ₚ l.
Proof.
  intros Hok Ha Hn Hl Hd. set (sorted := sort_by buckettask_cmpfunc l).
  enough (wp (quicksort_main true [a] l) p w (λ r w', r = 0 ∧ ∃ before after, w_out w' = before ++ printed sorted ++ after))
    as (r & w' & E & -> & before & after & Ho)%wp_run.
  { exists w', before, after, sorted. split_and!; [done|done|by apply sort_by_sorted, cmpfunc_orders|apply sort_by_perm]. }
  assert (Forall is_s32 sorted) as Hs.
  { apply Forall_forall. intros x. unfold sorted. rewrite sort_by_perm. by apply Forall_forall. }
  assert (length sorted = length l) as Hlen by (unfold sorted; by rewrite sort_by_perm).
  unfold quicksort_main. apply printf_then, now_then. intros rs w1 Hb1 Hn1 _.
  apply wp_bind. eapply atoi_wp; [exact Ha|unfold is_s32; lia|]. apply printf_then, wp_bind, wp_malloc; [lia|].
  set (w2 := add_out _ w1). set (b := w_next w2).
  assert (valid (add_block (Blk (Z.of_nat (length l) * 4) Undef ∅) w2) b 0 (4 * length l)) as Hv.
  { apply add_block_valid_eq; [done|split; cbn; lia]. }
  apply wp_bind, read_input_wp; [exact Hv|]. intros s w3 Hm3.
  apply printf_then, now_then. intros re w4 Hb4 _ _. apply now_then. intros ss w5 Hb5 _ _. apply printf_then.
  apply wp_bind. apply (qsort_wp p _ b l buckettask_cmpfunc); [|exact Hl|].
  { eapply mb_same_blocks; [|exact Hm3]. cbn [add_out w_blocks]. by rewrite Hb5, Hb4. }
  intros w6 Hm6 He6. fold sorted in Hm6. apply printf_then, now_then. intros se w7 Hb7 _ _. cbn [add_out w_blocks] in Hb7.
  apply wp_bind. apply wp_bind. rewrite <- Hlen. apply print_loop_wp; [by eapply mb_same_blocks|exact Hs|].
  intros w8 Hb8 Ho8. apply wp_bind.
  destruct (valid_block _ _ _ _ (mb_valid _ _ _ _ (mb_same_blocks w6 w8 _ _ _ ltac:(by rewrite Hb8, Hb7) Hm6))) as [kb Hkb].
  eapply wp_free; [exact Hkb|]. apply printf_then, printf_then, printf_then, wp_ret. split; [done|].
  cbn [set_blocks add_out w_out]. rewrite Ho8. exists (w_out w7). eexists. by rewrite <- !app_assoc.
Qed.

Lemma quicksort_prints_sorted_witness :
  ∃ w' before after sorted, quicksort_main true ["3"%string] [30; -10; 20] 1 (world_init 0 [] []) = Ok 0 w' ∧
    w_out w' = before ++ printed sorted ++ after ∧ StronglySorted Z.le sorted ∧ sorted ≡ₚ [30; -10; 20].
Proof.
  apply (quicksort_prints_sorted 1 (world_init 0 [] []) "3" [30; -10; 20]);
    [by intros b _|done|done|by_eval|].
  intros x y. rewrite !elem_of_cons, !elem_of_nil. unfold is_s32. lia.
Defined.

(** [ref_intarray_test.c]: both messages have the one array, whatever their tags
    are. *)
Theorem ref_intarray_test_passes tag1 tag2 clock rnd :
  match ref_intarray_test tag1 tag2 1 (world_init 0 clock rnd) with
  | Ok r w => r = 0 ∧ w_out w = [("Success"%string, [])]
  | _ => False
  end.
Proof. by vm_compute. Qed.
