(* ===== verification/WeissList.v ===== *)
(** * The linked list of the benchmarks

    [src/nano_benchmarking/common/list.c] ([exploration/clist/list.c] is the same
    file): a singly linked list of [int] with a header node, with its nodes in
    memory from [malloc].  Loops take [fuel], a bound on the nodes they walk. *)

From S2P Require Import Prelude CMem CLogic MessageSpec CircularSpec Demo QueueProps System SystemSpec DatabaseSpec.
From stdpp Require Import base numbers list strings gmap.
From Stdlib Require Import Lia.
#[local] Open Scope Z_scope.
#[local] Open Scope ts_scope.

Module WeissList.

(** [struct Node]. *)
Definition Node_struct : struct_decl := [("Element", CInt); ("Next", CPtr)]%string.
Definition sizeof_Node := Eval vm_compute in struct_size Node_struct.
Definition Node_Element := Eval vm_compute in member Node_struct "Element".
Definition Node_Next := Eval vm_compute in member Node_struct "Next".

(** [while (P != NULL) { Tmp = P->Next; free(P); P = Tmp; }] *)
Fixpoint free_nodes (fuel : nat) (P : ptr) : M unit :=
  if decide (P = Null) then ret tt else
  match fuel with
  | O => spin
  | S fuel' => Tmp <- get_ptr P Node_Next;; free P;;; free_nodes fuel' Tmp
  end.

Definition DeleteList (fuel : nat) (L : ptr) : M unit :=
  P <- get_ptr L Node_Next;;
  set_ptr L Node_Next Null;;;
  free_nodes fuel P.

Definition MakeEmpty (fuel : nat) (L : ptr) : M ptr :=
  (if decide (L ≠ Null) then DeleteList fuel L else ret tt);;;
  L <- malloc sizeof_Node;;
  if decide (L = Null) then FatalError else (
  set_ptr L Node_Next Null;;;
  ret L).

Definition IsEmpty (L : ptr) : M bool := n <- get_ptr L Node_Next;; ret (bool_decide (n = Null)).

Definition IsLast (P L : ptr) : M bool := n <- get_ptr P Node_Next;; ret (bool_decide (n = Null)).

(** [while (P != NULL && P->Element != X) P = P->Next;] *)
Fixpoint find_from (fuel : nat) (X : Z) (P : ptr) : M ptr :=
  if decide (P = Null) then ret P else
  e <- get_int P Node_Element;;
  if e =? X then ret P else
  match fuel with
  | O => spin
  | S fuel' => n <- get_ptr P Node_Next;; find_from fuel' X n
  end.

Definition Find (fuel : nat) (X : Z) (L : ptr) : M ptr :=
  P <- get_ptr L Node_Next;; find_from fuel X P.

(** [while (P->Next != NULL && P->Next->Element != X) P = P->Next;] *)
Fixpoint FindPrevious (fuel : nat) (X : Z) (P : ptr) : M ptr :=
  n <- get_ptr P Node_Next;;
  if decide (n = Null) then ret P else
  e <- get_int n Node_Element;;
  if e =? X then ret P else
  match fuel with
  | O => spin
  | S fuel' => FindPrevious fuel' X n
  end.

Definition Delete (fuel : nat) (X : Z) (L : ptr) : M unit :=
  P <- FindPrevious fuel X L;;
  last <- IsLast P L;;
  if last : bool then ret tt else (
    TmpCell <- get_ptr P Node_Next;;
    copy_field P Node_Next TmpCell Node_Next;;;
    free TmpCell).

Definition Insert (X : Z) (L P : ptr) : M unit :=
  TmpCell <- malloc sizeof_Node;;
  if decide (TmpCell = Null) then FatalError else (
  set_int TmpCell Node_Element X;;;
  copy_field TmpCell Node_Next P Node_Next;;;
  set_ptr P Node_Next TmpCell).

Definition Header (L : ptr) : M ptr := ret L.
Definition First (L : ptr) : M ptr := get_ptr L Node_Next.
Definition Advance (P : ptr) : M ptr := get_ptr P Node_Next.
Definition Retrieve (P : ptr) : M Z := get_int P Node_Element.

#[export] Hint Unfold sizeof_Node Node_Element Node_Next : fields.

(** ** The list in memory *)

(** The cells [l], as blocks with their elements, linked from the [Next] of block
    [h] on. *)
Fixpoint linked (w : world) (p h : Z) (l : list (Z * Z)) : Prop :=
  match l with
  | [] => mb w h (f_off Node_Next) (enc_ptr Null)
  | (b, x) :: l' =>
      mb w h (f_off Node_Next) (enc_ptr (Addr p b 0)) ∧
      valid w b 0 16 ∧ is_s32 x ∧ mb w b (f_off Node_Element) (enc_i32 x) ∧ linked w p b l'
  end.

(** The list with header block [h], all nodes in different blocks. *)
Definition list_at (w : world) (p h : Z) (l : list (Z * Z)) : Prop :=
  NoDup (h :: l.*1) ∧ valid w h 0 16 ∧ linked w p h l.

(** The last node of a non-empty front part, the header of an empty one. *)
Definition last_of (h : Z) (l : list (Z * Z)) : Z := default h (last l.*1).

Lemma last_of_cons h b x l : last_of h ((b, x) :: l) = last_of b l.
Proof. unfold last_of. cbn [fmap list_fmap fst]. rewrite last_cons. by destruct (last _). Qed.

Lemma linked_valid w p h l b : linked w p h l → b ∈ l.*1 → valid w b 0 16.
Proof.
  revert h. induction l as [|[b' x] l IH]; intros h; cbn [fmap list_fmap fst]; [by intros _ ?%elem_of_nil|].
  intros (_ & Hv & _ & _ & Hl) [->|Hb]%elem_of_cons; [done|by eapply IH].
Qed.

Lemma linked_ext F w w' p h l :
  ext F w w' → (∀ b i, b ∈ h :: l.*1 → ¬ F b i) → linked w p h l → linked w' p h l.
Proof.
  intros He. revert h. induction l as [|[b x] l IH]; intros h HF; cbn [linked].
  - intros Hm. eapply mb_extF; [exact He| |exact Hm]. intros i _. apply HF. by left.
  - intros (H1 & H2 & H3 & H4 & H5). split_and!.
    + eapply mb_extF; [exact He| |exact H1]. intros i _. apply HF. by left.
    + by eapply valid_extF.
    + done.
    + eapply mb_extF; [exact He| |exact H4]. intros i _. apply HF. right. by left.
    + apply IH; [|done]. intros b' i Hb'. apply HF. by right.
Qed.

(** What [Next] of the node before the cells [l] holds. *)
Definition first_ptr (p : Z) (l : list (Z * Z)) : ptr :=
  match l with [] => Null | (b, _) :: _ => Addr p b 0 end.

Lemma linked_next w p h l : linked w p h l → mb w h (f_off Node_Next) (enc_ptr (first_ptr p l)).
Proof. destruct l as [|[b x] l]; cbn [linked]; [done|by intros [? _]]. Qed.

(** A new link after the front part [l1], to a cell that goes on to [l2]. *)
Lemma linked_insert w w' p h l1 l2 c x :
  NoDup (h :: (l1 ++ l2).*1) → c ∉ h :: (l1 ++ l2).*1 → linked w p h (l1 ++ l2) →
  ext (range (last_of h l1) (f_off Node_Next) 8) w w' →
  mb w' (last_of h l1) (f_off Node_Next) (enc_ptr (Addr p c 0)) →
  valid w' c 0 16 → is_s32 x → mb w' c (f_off Node_Element) (enc_i32 x) →
  mb w' c (f_off Node_Next) (enc_ptr (first_ptr p l2)) →
  linked w' p h (l1 ++ (c, x) :: l2).
Proof.
  intros Hnd Hc Hl He Hlast Hv Hx Hel Hnx. revert h Hnd Hc Hl He Hlast.
  induction l1 as [|[b y] l1 IH]; intros h Hnd Hc Hl He Hlast; cbn [app linked].
  - unfold last_of in *. cbn in Hlast, He. split_and!; [done..|]. destruct l2 as [|[b y] l2]; [done|].
    cbn [app linked fmap list_fmap fst] in *. destruct Hl as (_ & H2 & H3 & H4 & H5).
    apply NoDup_cons in Hnd as [Hh Hnd]. split_and!; [done|by eapply valid_extF|done| |].
    + eapply mb_extF; [exact He| |exact H4]. intros i _ [-> _]. apply Hh. by left.
    + eapply linked_ext; [exact He| |exact H5]. intros b' i Hb' [-> _]. by apply Hh.
  - rewrite last_of_cons in *. cbn [app linked fmap list_fmap fst] in *. destruct Hl as (H1 & H2 & H3 & H4 & H5).
    apply NoDup_cons in Hnd as [Hh Hnd]. apply not_elem_of_cons in Hc as [_ Hc].
    split_and!; [|by eapply valid_extF|done| |by apply IH].
    + eapply mb_extF; [exact He| |exact H1]. intros i _ [-> _]. apply Hh. unfold last_of.
      rewrite fmap_app. destruct (last l1.*1) as [z|] eqn:E; [|by left]. right. apply elem_of_app. left.
      by apply last_Some_elem_of in E.
    + eapply mb_extF; [exact He| |exact H4]. unfold Node_Element, Node_Next, range. cbn [f_off].
      rewrite length_enc_i32. intros i Hi [_ ?]. lia.
Qed.

(** ** The operations *)

Lemma last_of_in h l : last_of h l ∈ h :: l.*1.
Proof.
  unfold last_of. destruct (last l.*1) as [z|] eqn:E; [|by left]. right. by apply last_Some_elem_of in E.
Qed.

Lemma list_at_valid w p h l b : list_at w p h l → b ∈ h :: l.*1 → valid w b 0 16.
Proof. intros (_ & Hv & Hl) [->|Hb]%elem_of_cons; [done|by eapply linked_valid]. Qed.

Lemma linked_link w p h l1 l2 :
  linked w p h (l1 ++ l2) →
  linked w p (last_of h l1) l2.
Proof.
  revert h. induction l1 as [|[b x] l1 IH]; intros h; [done|]. rewrite last_of_cons. cbn [app linked].
  intros (_ & _ & _ & _ & Hl). by apply IH.
Qed.

Lemma Insert_wp p w h l1 l2 x (Q : unit → world → Prop) :
  wok w → list_at w p h (l1 ++ l2) → is_s32 x →
  (∀ w', list_at w' p h (l1 ++ (w_next w, x) :: l2) →
     ext (range (last_of h l1) (f_off Node_Next) 8) w w' → Q tt w') →
  wp (Insert x (Addr p h 0) (Addr p (last_of h l1) 0)) p w Q.
Proof.
  intros Hok Hl Hx HQ. pose proof Hl as (Hnd & Hvh & Hlk). set (c := w_next w) in *. set (t := last_of h l1) in *.
  assert (t ∈ h :: (l1 ++ l2).*1) as Ht.
  { unfold t. pose proof (last_of_in h l1) as H. rewrite fmap_app. apply elem_of_cons in H as [H|H]; [by rewrite H; left|].
    right. apply elem_of_app. by left. }
  assert (∀ b, b ∈ h :: (l1 ++ l2).*1 → b < c) as Hlt.
  { intros b Hb. eapply valid_fresh; [exact Hok|by eapply list_at_valid]. }
  assert (c ∉ h :: (l1 ++ l2).*1) as Hc by (intros H; apply Hlt in H; lia).
  pose proof (Hlt t Ht) as Htc. pose proof (list_at_valid _ _ _ _ _ Hl Ht) as Hvt.
  unfold Insert. apply wp_bind, wp_malloc; [off|]. rewrite decide_False by done. fold c.
  set (w1 := add_block _ w). assert (valid w1 c 0 16) as Hvc by (apply add_block_valid; unfold in_block, sizeof_Node; cbn; lia).
  pose proof (linked_next _ _ _ _ (linked_link _ _ _ _ _ Hlk)) as Hnx. fold t in Hnx.
  set (nx := first_ptr p l2) in *.
  apply wp_bind, wp_set_int; [eapply valid_le; [exact Hvc|off|off]|]. rewrite Z.add_0_l.
  apply wp_bind. eapply wp_copy_field.
  { rewrite Z.add_0_l. apply mb_upd_block; [lia|]. apply mb_add_block; [lia|exact Hnx]. }
  { by rewrite length_enc_ptr. }
  { apply valid_upd. rewrite length_enc_ptr. eapply valid_le; [exact Hvc|off|off]. }
  apply wp_set_ptr; [do 2 apply valid_upd; apply valid_add_block; [lia|eapply valid_le; [exact Hvt|off|off]]|].
  rewrite !Z.add_0_l.
  match goal with |- Q tt ?x => set (w' := x) end.
  assert (ext (range t (f_off Node_Next) 8) w w') as He.
  { eapply ext_upd; [intros k i _ Hi; rewrite length_enc_ptr in Hi; by split|].
    do 2 (eapply ext_upd; [intros k i Hk; rewrite Hok in Hk by (unfold c; lia); done|]).
    apply ext_add_block; [done|apply ext_refl]. }
  apply HQ; [|exact He]. split; [|split].
  - rewrite fmap_app. cbn [fmap list_fmap fst]. rewrite fmap_app in *.
    rewrite <- (Permutation_middle (l1.*1) (l2.*1) c).
    rewrite (Permutation_swap c h). constructor; [done|exact Hnd].
  - by eapply valid_extF.
  - apply (linked_insert w w'); [done|done|done|exact He| | |done| |].
    + apply mb_upd_same. do 2 apply valid_upd. apply valid_add_block; [lia|]. rewrite length_enc_ptr.
      eapply valid_le; [exact Hvt|off|off].
    + by do 3 apply valid_upd.
    + apply mb_upd_block; [lia|]. apply mb_upd_disj; [off|]. apply mb_upd_same.
      rewrite length_enc_i32. eapply valid_le; [exact Hvc|off|off].
    + apply mb_upd_block; [lia|]. apply mb_upd_same. apply valid_upd. rewrite length_enc_ptr.
      eapply valid_le; [exact Hvc|off|off].
Qed.

(** Where the first [X] is: after the cells [l1], in block [b]. *)
Definition first_at (X : Z) (l l1 : list (Z * Z)) (b : Z) (l2 : list (Z * Z)) : Prop :=
  l = l1 ++ (b, X) :: l2 ∧ X ∉ l1.*2.

Lemma first_at_cons X l l1 b l2 c y :
  y ≠ X → first_at X l l1 b l2 → first_at X ((c, y) :: l) ((c, y) :: l1) b l2.
Proof. intros Hy [-> Hl]. split; [done|]. cbn. rewrite not_elem_of_cons. done. Qed.

Lemma first_at_inj X l l1 b l2 m1 c m2 :
  first_at X l l1 b l2 → first_at X l m1 c m2 → l1 = m1 ∧ b = c ∧ l2 = m2.
Proof.
  intros [-> H1] [E H2]. revert m1 E H2. induction l1 as [|[d y] l1 IH]; intros [|[e z] m1] E H2; cbn in *.
  - by injection E as -> ->.
  - injection E as -> -> _. exfalso. apply H2. by left.
  - injection E as -> -> _. exfalso. apply H1. by left.
  - injection E as -> -> E. apply not_elem_of_cons in H1 as [_ H1], H2 as [_ H2].
    by destruct (IH H1 m1 E H2) as (-> & -> & ->).
Qed.

Lemma find_from_wp fuel X p w h l (Q : ptr → world → Prop) :
  linked w p h l → (length l <= fuel)%nat →
  (∀ l1 b l2, first_at X l l1 b l2 → Q (Addr p b 0) w) → (X ∉ l.*2 → Q Null w) →
  wp (find_from fuel X (first_ptr p l)) p w Q.
Proof.
  revert fuel h Q. induction l as [|[b x] l IH]; intros fuel h Q Hl Hf H1 H2.
  - destruct fuel; apply wp_ret, H2, not_elem_of_nil.
  - cbn [linked length first_ptr] in *. destruct Hl as (_ & _ & Hx & Hel & Hl).
    destruct fuel as [|fuel]; [lia|]. cbn [find_from]. rewrite decide_False by done.
    apply wp_bind. eapply wp_get_int; [exact Hel|]. rewrite s32_small by done.
    destruct (Z.eqb_spec x X) as [->|Hne].
    + apply wp_ret, (H1 [] b l). split; [done|apply not_elem_of_nil].
    + apply wp_bind. eapply wp_get_ptr; [by apply linked_next|]. apply (IH fuel b); [done|lia| |].
      * intros l1 c l2 Hc. by eapply H1, first_at_cons.
      * intros Hn. apply H2. cbn. rewrite not_elem_of_cons. done.
Qed.

Lemma FindPrevious_wp fuel X p w h l (Q : ptr → world → Prop) :
  linked w p h l → (length l <= fuel)%nat →
  (∀ l1 b l2, first_at X l l1 b l2 → Q (Addr p (last_of h l1) 0) w) →
  (X ∉ l.*2 → Q (Addr p (last_of h l) 0) w) →
  wp (FindPrevious fuel X (Addr p h 0)) p w Q.
Proof.
  revert fuel h Q. induction l as [|[b x] l IH]; intros fuel h Q Hl Hf H1 H2.
  - assert (wp (ret (Addr p h 0)) p w Q) as Hr by (apply wp_ret, H2, not_elem_of_nil).
    destruct fuel; cbn [FindPrevious]; (apply wp_bind; eapply wp_get_ptr; [exact Hl|]; by rewrite decide_True).
  - pose proof (linked_next _ _ _ _ Hl) as Hnx.
    cbn [linked length first_ptr] in *. destruct Hl as (_ & _ & Hx & Hel & Hl).
    destruct fuel as [|fuel]; [lia|]. cbn [FindPrevious]. apply wp_bind. eapply wp_get_ptr; [exact Hnx|].
    rewrite decide_False by done. apply wp_bind. eapply wp_get_int; [exact Hel|]. rewrite s32_small by done.
    destruct (Z.eqb_spec x X) as [->|Hne].
    + apply wp_ret, (H1 [] b l). split; [done|apply not_elem_of_nil].
    + apply (IH fuel b); [done|lia| |].
      * intros l1 c l2 Hc. rewrite <- (last_of_cons h b x l1). by eapply H1, first_at_cons.
      * intros Hn. rewrite <- (last_of_cons h b x l). apply H2. cbn. rewrite not_elem_of_cons. done.
Qed.

(** The link past cell [c]. *)
Lemma linked_delete w w' p h l1 l2 c x :
  NoDup (h :: (l1 ++ (c, x) :: l2).*1) → linked w p h (l1 ++ (c, x) :: l2) →
  ext (range (last_of h l1) (f_off Node_Next) 8) w w' →
  mb w' (last_of h l1) (f_off Node_Next) (enc_ptr (first_ptr p l2)) →
  linked w' p h (l1 ++ l2).
Proof.
  revert h. induction l1 as [|[b y] l1 IH]; intros h Hnd Hl He Hlast; cbn [app linked fmap list_fmap fst] in *.
  - unfold last_of in *. cbn in Hlast, He. destruct Hl as (_ & _ & _ & _ & Hl).
    apply NoDup_cons in Hnd as [Hh Hnd]. apply NoDup_cons in Hnd as [Hc Hnd]. apply not_elem_of_cons in Hh as [_ Hh].
    destruct l2 as [|[b y] l2]; [done|]. cbn [linked fmap list_fmap fst first_ptr] in *.
    destruct Hl as (_ & H2 & H3 & H4 & H5). split_and!; [done|by eapply valid_extF|done| |].
    + eapply mb_extF; [exact He| |exact H4]. intros i _ [-> _]. apply Hh. by left.
    + eapply linked_ext; [exact He| |exact H5]. intros b' i Hb' [-> _]. by apply Hh.
  - rewrite last_of_cons in *. destruct Hl as (H1 & H2 & H3 & H4 & H5).
    apply NoDup_cons in Hnd as [Hh Hnd]. split_and!; [|by eapply valid_extF|done| |by apply IH].
    + eapply mb_extF; [exact He| |exact H1]. intros i _ [-> _]. apply Hh. unfold last_of.
      rewrite fmap_app. destruct (last l1.*1) as [z|] eqn:E; [|by left]. right. apply elem_of_app. left.
      by apply last_Some_elem_of in E.
    + eapply mb_extF; [exact He| |exact H4]. unfold Node_Element, Node_Next, range. cbn [f_off].
      rewrite length_enc_i32. intros i Hi [_ ?]. lia.
Qed.

Lemma linked_free w p h l b : b ∉ h :: l.*1 → linked w p h l → linked (set_blocks (delete b) w) p h l.
Proof.
  revert h. induction l as [|[c x] l IH]; intros h Hb; cbn [linked fmap list_fmap fst] in *.
  - apply not_elem_of_cons in Hb as [? _]. by apply mb_free.
  - apply not_elem_of_cons in Hb as [? Hb]. pose proof Hb as [? _]%not_elem_of_cons.
    intros (? & ? & ? & ? & ?). split_and!; [by apply mb_free|by apply valid_free|done|by apply mb_free|by apply IH].
Qed.

Lemma NoDup_nodes h (l1 l2 : list (Z * Z)) c x :
  NoDup (h :: (l1 ++ (c, x) :: l2).*1) → NoDup (h :: (l1 ++ l2).*1) ∧ c ∉ h :: (l1 ++ l2).*1.
Proof.
  rewrite !fmap_app. cbn [fmap list_fmap fst]. rewrite <- (Permutation_middle (l1.*1) (l2.*1) c).
  rewrite (Permutation_swap c h). rewrite NoDup_cons. tauto.
Qed.

Lemma Delete_wp fuel X p w h l (Q : unit → world → Prop) :
  list_at w p h l → (length l <= fuel)%nat →
  (∀ l1 b l2 w', first_at X l l1 b l2 → list_at w' p h (l1 ++ l2) → w_blocks w' !! b = None → Q tt w') →
  (X ∉ l.*2 → Q tt w) →
  wp (Delete fuel X (Addr p h 0)) p w Q.
Proof.
  intros Hl Hf H1 H2. pose proof Hl as (Hnd & Hvh & Hlk). unfold Delete. apply wp_bind.
  apply (FindPrevious_wp fuel X p w h l); [done..| |].
  - intros l1 b l2 [-> Hn1]. destruct (NoDup_nodes _ _ _ _ _ Hnd) as [Hnd' Hb].
    pose proof (linked_link _ _ _ _ _ Hlk) as Hlk2. pose proof (linked_next _ _ _ _ Hlk2) as Hnx.
    cbn [linked first_ptr] in Hlk2, Hnx. destruct Hlk2 as (_ & Hvb & _ & _ & Hlb).
    pose proof (linked_next _ _ _ _ Hlb) as Hnb. set (t := last_of h l1) in *.
    assert (t ∈ h :: (l1 ++ l2).*1) as Ht.
    { unfold t. pose proof (last_of_in h l1) as H. rewrite fmap_app. apply elem_of_cons in H as [H|H]; [by rewrite H; left|].
      right. apply elem_of_app. by left. }
    assert (valid w t 0 16) as Hvt.
    { eapply list_at_valid; [exact Hl|]. rewrite fmap_app in *. cbn. rewrite elem_of_cons, elem_of_app in Ht |- *.
      rewrite elem_of_cons. tauto. }
    assert (t ≠ b) as Htb by (intros ->; done).
    apply wp_bind. apply wp_bind. eapply wp_get_ptr; [exact Hnx|]. apply wp_ret. rewrite bool_decide_eq_false_2 by done.
    apply wp_bind. eapply wp_get_ptr; [exact Hnx|]. apply wp_bind.
    eapply wp_copy_field; [exact Hnb|by rewrite length_enc_ptr| |].
    { rewrite length_enc_ptr. eapply valid_le; [exact Hvt|off|off]. }
    rewrite Z.add_0_l. set (w1 := upd w t _ _).
    assert (ext (range t (f_off Node_Next) 8) w w1) as He.
    { eapply ext_upd; [intros k i _ Hi; rewrite length_enc_ptr in Hi; by split|apply ext_refl]. }
    destruct (valid_block _ _ _ _ (valid_extF _ _ _ _ _ _ He Hvb)) as [k Hk].
    eapply wp_free; [exact Hk|]. apply (H1 l1 b l2); [done| |cbn; by rewrite lookup_delete_eq].
    split; [exact Hnd'|]. split.
    + apply valid_free; [|by eapply valid_extF]. intros ->. apply Hb. by left.
    + apply linked_free; [exact Hb|]. eapply linked_delete; [exact Hnd|exact Hlk|exact He|].
      apply mb_upd_same. rewrite length_enc_ptr. eapply valid_le; [exact Hvt|off|off].
  - intros Hn. apply wp_bind. apply wp_bind.
    assert (linked w p h (l ++ [])) as Hlk' by (by rewrite app_nil_r).
    eapply wp_get_ptr; [exact (linked_next _ _ _ _ (linked_link _ _ _ _ _ Hlk'))|].
    cbn [first_ptr]. apply wp_ret. rewrite bool_decide_eq_true_2 by done. by apply wp_ret, H2.
Qed.

(** The cells alone, whatever points to the first one. *)
Definition cells_at (w : world) (p : Z) (l : list (Z * Z)) : Prop :=
  match l with [] => True | (b, _) :: l' => valid w b 0 16 ∧ linked w p b l' end.

Lemma linked_cells w p h l : linked w p h l → cells_at w p l.
Proof. destruct l as [|[b x] l]; [done|]. cbn [linked cells_at]. tauto. Qed.

Lemma cells_free w p l b : b ∉ l.*1 → cells_at w p l → cells_at (set_blocks (delete b) w) p l.
Proof.
  destruct l as [|[c x] l]; [done|]. cbn [cells_at fmap list_fmap fst]. intros Hb [Hv Hl].
  split; [apply valid_free; [|done]|by apply linked_free]. intros ->. apply Hb. by left.
Qed.

Lemma free_nodes_wp fuel p w l (Q : unit → world → Prop) :
  NoDup l.*1 → cells_at w p l → (length l <= fuel)%nat →
  (∀ w', (∀ b, b ∈ l.*1 → w_blocks w' !! b = None) → (∀ b, b ∉ l.*1 → w_blocks w' !! b = w_blocks w !! b) →
     w_next w' = w_next w → Q tt w') →
  wp (free_nodes fuel (first_ptr p l)) p w Q.
Proof.
  revert fuel w Q. induction l as [|[b x] l IH]; intros fuel w Q Hnd Hl Hf HQ.
  - destruct fuel; (apply wp_ret, HQ; [by intros b ?%elem_of_nil|done|done]).
  - cbn [cells_at length first_ptr fmap list_fmap fst] in *. destruct Hl as [Hv Hl].
    apply NoDup_cons in Hnd as [Hb Hnd].
    destruct fuel as [|fuel]; [lia|]. cbn [free_nodes]. rewrite decide_False by done.
    apply wp_bind. eapply wp_get_ptr; [by apply linked_next|].
    destruct (valid_block _ _ _ _ Hv) as [k Hk]. apply wp_bind. eapply wp_free; [exact Hk|].
    apply IH; [done|eapply cells_free; [done|by eapply linked_cells]|lia|].
    intros w' H1 H2 Hn. cbn in H2. apply HQ; [| |done].
    + intros d [->|Hd]%elem_of_cons; [|by apply H1]. rewrite H2 by done. apply lookup_delete_eq.
    + intros d [Hd1 Hd2]%not_elem_of_cons. rewrite H2 by done. by apply lookup_delete_ne.
Qed.

Lemma DeleteList_wp fuel p w h l (Q : unit → world → Prop) :
  list_at w p h l → (length l <= fuel)%nat →
  (∀ w', list_at w' p h [] → (∀ b, b ∈ l.*1 → w_blocks w' !! b = None) → w_next w' = w_next w →
     (∀ b k, w_blocks w' !! b = Some k → ∃ k0, w_blocks w !! b = Some k0) → Q tt w') →
  wp (DeleteList fuel (Addr p h 0)) p w Q.
Proof.
  intros (Hnd & Hvh & Hlk) Hf HQ. apply NoDup_cons in Hnd as [Hh Hnd]. unfold DeleteList.
  apply wp_bind. eapply wp_get_ptr; [by apply linked_next|].
  assert (valid w h (f_off Node_Next) 8) as Hvn by (eapply valid_le; [exact Hvh|off|off]).
  apply wp_bind, wp_set_ptr; [done|]. rewrite Z.add_0_l. set (w1 := upd w h _ _).
  assert (ext (λ b _, b = h) w w1) as He by (eapply ext_upd; [done|apply ext_refl]).
  apply free_nodes_wp; [done| |done|].
  { destruct l as [|[b x] l]; [done|]. cbn [linked cells_at fmap list_fmap fst] in *. destruct Hlk as (_ & Hv & _ & _ & Hl).
    split; [by apply valid_upd|]. eapply linked_ext; [exact He| |exact Hl]. intros b' i Hb' ->. done. }
  intros w' H1 H2 Hn. destruct (valid_upd w h (f_off Node_Next) (enc_ptr Null) h 0 16 Hvh) as (k & Hk & Hin).
  assert (mb w1 h (f_off Node_Next) (enc_ptr Null)) as Hm by (apply mb_upd_same; by rewrite length_enc_ptr).
  apply HQ; [| exact H1| by rewrite Hn; apply upd_next |].
  - split; [apply NoDup_singleton|]. split.
    + exists k. by rewrite H2.
    + eapply mb_ext; [|exact Hm]. intros k' Hk'. exists k'. by rewrite H2.
  - intros b k' Hb. destruct (decide (b ∈ l.*1)) as [Hin'|Hout]; [by rewrite H1 in Hb|].
    rewrite H2 in Hb by done. unfold w1 in Hb. rewrite upd_lookup in Hb. case_decide as Hbh; [|by eexists].
    subst b. destruct (w_blocks w !! h); [by eexists|done].
Qed.

(** [Insert] puts the new cell after the position it is given, wherever that is
    in the list: after the cells [l1], or after the header when there are none. *)
Theorem insert_after p w h l1 l2 x :
  wok w → list_at w p h (l1 ++ l2) → is_s32 x →
  ∃ w', Insert x (Addr p h 0) (Addr p (last_of h l1) 0) p w = Ok tt w' ∧
    list_at w' p h (l1 ++ (w_next w, x) :: l2) ∧ w_blocks w !! w_next w = None ∧
    Advance (Addr p (last_of h l1) 0) p w' = Ok (Addr p (w_next w) 0) w' ∧
    Retrieve (Addr p (w_next w) 0) p w' = Ok x w'.
Proof.
  intros Hok Hl Hx.
  enough (wp (Insert x (Addr p h 0) (Addr p (last_of h l1) 0)) p w (λ _ w',
    list_at w' p h (l1 ++ (w_next w, x) :: l2))) as ([] & w' & E & Hl')%wp_run.
  { exists w'. pose proof Hl' as (_ & _ & Hlk%linked_link). pose proof Hlk as (_ & _ & _ & Hel & _).
    split_and!; [done|done|by apply Hok| |].
    - assert (wp (Advance (Addr p (last_of h l1) 0)) p w' (λ r w1, r = Addr p (w_next w) 0 ∧ w1 = w')) as (r & w1 & E' & -> & ->)%wp_run; [|done].
      eapply wp_get_ptr; [exact (linked_next _ _ _ _ Hlk)|done].
    - assert (wp (Retrieve (Addr p (w_next w) 0)) p w' (λ r w1, r = x ∧ w1 = w')) as (r & w1 & E' & -> & ->)%wp_run; [|done].
      eapply wp_get_int; [exact Hel|]. by rewrite s32_small. }
  apply (Insert_wp p w h l1 l2); [done..|]. by intros w' H _.
Qed.

(** [Find] answers the first cell with the value, NULL when there is none, and
    [Delete] takes exactly that cell out and frees it; with as much fuel as the
    list has cells both return. *)
Theorem find_delete fuel p w h l x :
  list_at w p h l → (length l <= fuel)%nat →
  (∃ l1 b l2 w', first_at x l l1 b l2 ∧ Find fuel x (Addr p h 0) p w = Ok (Addr p b 0) w ∧
     Delete fuel x (Addr p h 0) p w = Ok tt w' ∧ list_at w' p h (l1 ++ l2) ∧ w_blocks w' !! b = None) ∨
  ((x ∉ l.*2) ∧ Find fuel x (Addr p h 0) p w = Ok Null w ∧ Delete fuel x (Addr p h 0) p w = Ok tt w).
Proof.
  intros Hl Hf. pose proof Hl as (_ & _ & Hlk).
  assert (wp (Find fuel x (Addr p h 0)) p w (λ r w', w' = w ∧
    ((∃ l1 b l2, first_at x l l1 b l2 ∧ r = Addr p b 0) ∨ (x ∉ l.*2) ∧ r = Null))) as (r & w1 & E1 & -> & Hr)%wp_run.
  { apply wp_bind. eapply wp_get_ptr; [by apply linked_next|].
    eapply find_from_wp; [exact Hlk|done| |]; [intros l1 b l2 H|intros H]; eauto 10. }
  assert (wp (Delete fuel x (Addr p h 0)) p w (λ _ w',
    (∃ l1 b l2, first_at x l l1 b l2 ∧ list_at w' p h (l1 ++ l2) ∧ w_blocks w' !! b = None) ∨
    (x ∉ l.*2) ∧ w' = w)) as ([] & w2 & E2 & Hd)%wp_run.
  { eapply Delete_wp; [exact Hl|done| |]; [intros l1 b l2 w' H1 H2 H3|intros H]; eauto 10. }
  assert (∀ l1 b l2, first_at x l l1 b l2 → x ∈ l.*2) as Hin.
  { intros l1 b l2 [-> _]. rewrite fmap_app. apply elem_of_app. right. by left. }
  destruct Hr as [(l1 & b & l2 & H1 & ->)|[Hn ->]], Hd as [(m1 & c & m2 & H2 & H3 & H4)|[Hn' ->]].
  - destruct (first_at_inj _ _ _ _ _ _ _ _ H1 H2) as (<- & <- & <-). left. by exists l1, b, l2, w2.
  - exfalso. eauto.
  - exfalso. eauto.
  - by right.
Qed.

(** ** A concrete list *)

(** A new list in block 1 with the elements 4, 9 and 4. *)
Definition demo_list : world :=
  state_of (L <- MakeEmpty 0 Null;;
    Insert 4 L L;;; p1 <- Advance L;; Insert 9 L p1;;; p2 <- Advance p1;; Insert 4 L p2) 1 (world_init 0 [] []).

Lemma demo_list_at : list_at demo_list 1 1 [(2, 4); (3, 9); (4, 4)].
Proof. split; [by_eval|]. split; [by_eval|]. cbn [linked]. unfold is_s32. by_eval. Qed.

Lemma insert_after_witness :
  ∃ w', Insert 7 (Addr 1 1 0) (Addr 1 2 0) 1 demo_list = Ok tt w' ∧
    list_at w' 1 1 [(2, 4); (5, 7); (3, 9); (4, 4)] ∧ w_blocks demo_list !! 5 = None ∧
    Advance (Addr 1 2 0) 1 w' = Ok (Addr 1 5 0) w' ∧ Retrieve (Addr 1 5 0) 1 w' = Ok 7 w'.
Proof.
  apply (insert_after 1 demo_list 1 [(2, 4)] [(3, 9); (4, 4)] 7).
  - apply wokb_spec. vm_compute. reflexivity.
  - exact demo_list_at.
  - unfold is_s32. lia.
Defined.

Lemma find_delete_witness :
  (∃ l1 b l2 w', first_at 9 [(2, 4); (3, 9); (4, 4)] l1 b l2 ∧ Find 3 9 (Addr 1 1 0) 1 demo_list = Ok (Addr 1 b 0) demo_list ∧
     Delete 3 9 (Addr 1 1 0) 1 demo_list = Ok tt w' ∧ list_at w' 1 1 (l1 ++ l2) ∧ w_blocks w' !! b = None) ∨
  ((9 ∉ [4; 9; 4]) ∧ Find 3 9 (Addr 1 1 0) 1 demo_list = Ok Null demo_list ∧
     Delete 3 9 (Addr 1 1 0) 1 demo_list = Ok tt demo_list).
Proof. apply (find_delete 3 1 demo_list 1 [(2, 4); (3, 9); (4, 4)] 9); [exact demo_list_at|cbn; lia]. Defined.

(** ** exploration/clist/list_test.c *)

Definition print_bool (fmt : string) (b : bool) : M unit := printf fmt [AInt (Z.b2z b)].

Definition list_test (fuel : nat) : M Z :=
  l <- MakeEmpty fuel Null;;
  p <- Header l;;
  empty <- IsEmpty l;;
  print_bool "IsEmpty:%d" empty;;;
  printf "Inserting 10 elemens" [];;;
  for_fold 10 0 p (λ i p, Insert i l p;;; Advance p);;;
  printf "Done inserting" [];;;
  empty <- IsEmpty l;;
  print_bool "IsEmpty:%d" empty;;;
  five_pos <- Find fuel 5 l;;
  element <- Retrieve five_pos;;
  printf "5 found at:%d" [AInt element];;;
  ret 0.

(** The program finds the 5, with fuel for the ten cells. *)
Lemma list_test_prints clock rnd :
  match list_test 10 1 (world_init 0 clock rnd) with
  | Ok r w => r = 0 ∧ w_out w =
      [("IsEmpty:%d", [AInt 1]); ("Inserting 10 elemens", []); ("Done inserting", []);
       ("IsEmpty:%d", [AInt 0]); ("5 found at:%d", [AInt 5])]%string
  | _ => False
  end.
Proof. by vm_compute. Qed.

End WeissList.
