(* ===== verification/PthreadInproc.v ===== *)
(** * Threads that insert into one list

    [src/nano_benchmarking/inproc/pthread_inproc/pthread_inproc.c]: threads of one
    process ([add_proc]) insert a number into the linked list of [WeissList], at
    the global position [pos], with a mutex around the insertion.  A step runs one
    statement of one thread, and the threads interleave in any way; the calls of
    [Insert] and [Advance] are one step each, which the proof that no two threads
    are between the lock and the unlock justifies. *)

From S2P Require Import Prelude CMem CLogic MessageSpec Demo SystemSpec TimeHelper WeissList.
From stdpp Require Import base numbers list strings gmap.
From Stdlib Require Import Lia.
#[local] Open Scope Z_scope.
#[local] Open Scope ts_scope.
Import WeissList.

Module PthreadInproc.

(** The statements of [add_proc]: [ALoop] is the test of the loop. *)
Inductive add_pc := ALoop | ALock | AInsert | AAdvance | AUnlock | ADone.

Record adder := Adder { a_pc : add_pc; a_i : Z }.

(** The memory and the global variables; [mutex] is whether it is locked. *)
Record globals := Globals { g_world : world; g_mutex : bool; g_list : ptr; g_pos : ptr }.

(** What a statement does: the thread goes on, waits for the mutex, has ended, or
    the behaviour is undefined. *)
Inductive outcome := Go (g : globals) (t : adder) | Wait | Ended | Bad.

Section program.
Context (p update_count update_size : Z).

Definition add_proc (g : globals) (t : adder) : outcome :=
  let i := a_i t in
  match a_pc t with
  | ALoop => Go g (Adder (if i <? update_count then ALock else ADone) i)
  | ALock =>
      if g_mutex g then Wait else Go (Globals (g_world g) true (g_list g) (g_pos g)) (Adder AInsert i)
  | AInsert =>
      match Insert update_size (g_list g) (g_pos g) p (g_world g) with
      | Ok _ w => Go (Globals w (g_mutex g) (g_list g) (g_pos g)) (Adder AAdvance i)
      | _ => Bad
      end
  | AAdvance =>
      match Advance (g_pos g) p (g_world g) with
      | Ok pos w => Go (Globals w (g_mutex g) (g_list g) pos) (Adder AUnlock i)
      | _ => Bad
      end
  | AUnlock => Go (Globals (g_world g) false (g_list g) (g_pos g)) (Adder ALoop (i + 1))
  | ADone => Ended
  end.

Inductive step : globals * list adder → globals * list adder → Prop :=
| step_add g ts k t g' t' : ts !! k = Some t → add_proc g t = Go g' t' → step (g, ts) (g', <[k := t']> ts).

(** [steps n x y]: [n] steps lead from [x] to [y]. *)
Inductive steps : nat → globals * list adder → globals * list adder → Prop :=
| steps_nil x : steps 0 x x
| steps_snoc n x y z : steps n x y → step y z → steps (S n) x z.

(** [main] before it starts the threads: an empty list, with [pos] at its header. *)
Definition prepare : M (ptr * ptr) := l <- MakeEmpty 0 Null;; pos <- Header l;; ret (l, pos).

(** All threads at their loops. *)
Definition start (thread_count : nat) (w : world) (l pos : ptr) : globals * list adder :=
  (Globals w false l pos, replicate thread_count (Adder ALoop 0)).

(** No thread can run: each of them has ended, or waits for the mutex. *)
Definition stuck (x : globals * list adder) : Prop := ∀ y, ¬ step x y.

End program.

(** ** Specification *)

Section spec.
Context (p update_count update_size h : Z).

(** Between the lock and the unlock. *)
Definition inside (t : adder) : Z := match a_pc t with AInsert | AAdvance | AUnlock => 1 | _ => 0 end.
(** The number is in the list, and [pos] is still before it. *)
Definition behind (t : adder) : Z := match a_pc t with AAdvance => 1 | _ => 0 end.
(** How many numbers the thread has inserted. *)
Definition added (t : adder) : Z := a_i t + match a_pc t with AAdvance | AUnlock => 1 | _ => 0 end.

Definition adder_ok (t : adder) : Prop :=
  match a_pc t with
  | ALoop => 0 <= a_i t <= Z.max 0 update_count
  | ADone => a_i t = Z.max 0 update_count
  | _ => 0 <= a_i t < update_count
  end.

Record inv (x : globals * list adder) : Prop := {
  iv_ok : Forall adder_ok x.2;
  iv_mutex : zsum inside x.2 = (if g_mutex x.1 then 1 else 0);
  iv_world : wok (g_world x.1);
  iv_globals : g_list x.1 = Addr p h 0;
  iv_list : ∃ l1 l2, list_at (g_world x.1) p h (l1 ++ l2) ∧ g_pos x.1 = Addr p (last_of h l1) 0 ∧
    Z.of_nat (length l2) = zsum behind x.2 ∧
    (l1 ++ l2).*2 = replicate (Z.to_nat (zsum added x.2)) update_size
}.

(** A thread that is inside is the only one, and holds the mutex. *)
Lemma inside_alone g ts k t :
  inv (g, ts) → ts !! k = Some t → inside t = 1 →
  g_mutex g = true ∧ zsum inside ts = 1 ∧ zsum behind ts = behind t.
Proof.
  intros [_ Hm _ _ _] Hk Ht. cbn [fst snd] in *.
  pose proof (zsum_le_other behind inside ts k t ltac:(intros u; unfold behind, inside; destruct (a_pc u); lia) Hk).
  pose proof (zsum_le_other (λ _, 0) inside ts k t ltac:(intros u; unfold inside; destruct (a_pc u); lia) Hk).
  destruct (g_mutex g); [|lia]. split; [done|]. lia.
Qed.

(** A step that does not touch the list: the mutex, or the loop. *)
Lemma adders_quiet g ts k t mutex t' :
  inv (g, ts) → ts !! k = Some t → adder_ok t' → behind t' = behind t → added t' = added t →
  zsum inside ts - inside t + inside t' = (if mutex : bool then 1 else 0) →
  inv (Globals (g_world g) mutex (g_list g) (g_pos g), <[k := t']> ts).
Proof.
  intros [Hok Hm Hw Hl Hx] Hk Ht' Hb Ha Hi. split; cbn [fst snd g_world g_mutex g_list g_pos] in *; try done.
  - by apply Forall_insert.
  - by rewrite (zsum_insert _ _ _ _ _ Hk).
  - rewrite !(zsum_insert _ _ _ _ _ Hk), Hb, Ha.
    replace (zsum behind ts - behind t + behind t) with (zsum behind ts) by lia.
    by replace (zsum added ts - added t + added t) with (zsum added ts) by lia.
Qed.

Lemma added_nonneg t : adder_ok t → 0 <= added t.
Proof. unfold adder_ok, added. destruct (a_pc t); lia. Qed.

Lemma adders_insert g ts k t :
  is_s32 update_size → inv (g, ts) → ts !! k = Some t → a_pc t = AInsert →
  ∃ g', add_proc p update_count update_size g t = Go g' (Adder AAdvance (a_i t)) ∧
    inv (g', <[k := Adder AAdvance (a_i t)]> ts).
Proof.
  intros Hsz Hinv Hk Ht. destruct (inside_alone _ _ _ _ Hinv Hk) as (Hmu & Hin & Hbh); [by unfold inside; rewrite Ht|].
  destruct Hinv as [Hok Hm Hw Hl (l1 & l2 & Hla & Hpos & Hl2 & Hval)]. cbn [fst snd] in *.
  assert (behind t = 0) as Hb0 by (by unfold behind; rewrite Ht). rewrite Hbh, Hb0 in Hl2.
  assert (l2 = []) as -> by (destruct l2; [done|cbn in Hl2; lia]). rewrite app_nil_r in *.
  pose proof (Forall_lookup_1 _ _ _ _ Hok Hk) as Htok. pose proof (added_nonneg _ Htok) as Hta.
  assert (added t <= zsum added ts) as Hsum.
  { apply (zsum_one added ts k); [|done]. eapply Forall_impl; [exact Hok|]. apply added_nonneg. }
  unfold add_proc. rewrite Ht, Hl, Hpos.
  assert (wp (Insert update_size (Addr p h 0) (Addr p (last_of h l1) 0)) p (g_world g) (λ _ w',
    list_at w' p h (l1 ++ [(w_next (g_world g), update_size)]) ∧ wok w')) as (u & w' & -> & Hla' & Hw')%wp_Ok.
  { apply (Insert_wp _ _ _ _ []); [done|by rewrite app_nil_r|done|].
    intros w' Hla' He. split; [exact Hla'|by eapply ext_wok]. }
  eexists. split; [done|]. split; cbn [fst snd g_world g_mutex g_list g_pos]; [|by rewrite (zsum_insert _ _ _ _ _ Hk), Hin, Hmu; unfold inside; rewrite Ht|done|done|].
  - apply Forall_insert; [done|]. unfold adder_ok in *. by rewrite Ht in Htok.
  - exists l1, [(w_next (g_world g), update_size)]. split; [done|]. split; [done|].
    rewrite !(zsum_insert _ _ _ _ _ Hk), Hbh. split.
    + unfold behind. rewrite Ht. cbn. lia.
    + rewrite fmap_app, Hval. cbn [fmap list_fmap snd]. rewrite <- replicate_S_end. f_equal.
      unfold added in *. rewrite Ht in *. cbn [a_pc a_i] in *. lia.
Qed.

Lemma adders_advance g ts k t :
  inv (g, ts) → ts !! k = Some t → a_pc t = AAdvance →
  ∃ g', add_proc p update_count update_size g t = Go g' (Adder AUnlock (a_i t)) ∧
    inv (g', <[k := Adder AUnlock (a_i t)]> ts).
Proof.
  intros Hinv Hk Ht. destruct (inside_alone _ _ _ _ Hinv Hk) as (Hmu & Hin & Hbh); [by unfold inside; rewrite Ht|].
  destruct Hinv as [Hok Hm Hw Hl (l1 & l2 & Hla & Hpos & Hl2 & Hval)]. cbn [fst snd] in *.
  assert (behind t = 1) as Hb1 by (by unfold behind; rewrite Ht). rewrite Hbh, Hb1 in Hl2.
  destruct l2 as [|[c x] [|]]; cbn [length] in Hl2; [lia| |lia].
  unfold add_proc. rewrite Ht, Hpos. pose proof Hla as (_ & _ & Hlk). pose proof (linked_next _ _ _ _ (linked_link _ _ _ _ _ Hlk)) as Hnx.
  assert (wp (Advance (Addr p (last_of h l1) 0)) p (g_world g) (λ a w', a = Addr p c 0 ∧ w' = g_world g)) as (a & w' & -> & -> & ->)%wp_Ok.
  { unfold Advance. eapply wp_get_ptr; [rewrite Z.add_0_l; exact Hnx|done]. }
  eexists. split; [done|]. split; cbn [fst snd g_world g_mutex g_list g_pos]; [|by rewrite (zsum_insert _ _ _ _ _ Hk), Hin, Hmu; unfold inside; rewrite Ht|done|done|].
  - apply Forall_insert; [done|]. pose proof (Forall_lookup_1 _ _ _ _ Hok Hk) as Htok. unfold adder_ok in *. by rewrite Ht in Htok.
  - exists (l1 ++ [(c, x)]), []. rewrite app_nil_r. split; [done|]. rewrite !(zsum_insert _ _ _ _ _ Hk), Hbh. split_and!.
    + unfold last_of. rewrite fmap_app. cbn [fmap list_fmap fst]. by rewrite last_snoc.
    + rewrite Hb1. done.
    + rewrite Hval. f_equal. unfold added. rewrite Ht. cbn [a_pc a_i]. lia.
Qed.

(** Every statement of every thread is defined, and keeps the invariant. *)
Lemma adders_step g ts k t :
  is_s32 update_size → inv (g, ts) → ts !! k = Some t →
  match add_proc p update_count update_size g t with
  | Go g' t' => inv (g', <[k := t']> ts)
  | Wait => g_mutex g = true
  | Ended => a_pc t = ADone
  | Bad => False
  end.
Proof.
  intros Hsz Hinv Hk. pose proof Hinv as [Hok Hm _ _ _]. cbn [fst snd] in *.
  pose proof (Forall_lookup_1 _ _ _ _ Hok Hk) as Htok. unfold adder_ok in Htok.
  destruct (a_pc t) eqn:Ht.
  - assert (inside t = 0 ∧ behind t = 0 ∧ added t = a_i t) as (Hi & Hb & Ha) by (unfold inside, behind, added; rewrite Ht; lia).
    unfold add_proc. rewrite Ht. assert (g = Globals (g_world g) (g_mutex g) (g_list g) (g_pos g)) as E by (by destruct g).
    rewrite E. destruct (Z.ltb_spec (a_i t) update_count);
      (eapply adders_quiet; [exact Hinv|exact Hk|unfold adder_ok; cbn [a_pc a_i]; lia|by rewrite Hb|rewrite Ha; unfold added; cbn [a_pc a_i]; lia|]);
      rewrite Hi, <- Hm; cbn [inside a_pc]; lia.
  - assert (inside t = 0 ∧ behind t = 0 ∧ added t = a_i t) as (Hi & Hb & Ha) by (unfold inside, behind, added; rewrite Ht; lia).
    unfold add_proc. rewrite Ht. destruct (g_mutex g) eqn:Hmu; [done|].
    eapply adders_quiet; [exact Hinv|exact Hk|unfold adder_ok; cbn [a_pc a_i]; lia|by rewrite Hb|rewrite Ha; unfold added; cbn [a_pc a_i]; lia|].
    rewrite Hi, Hm. done.
  - destruct (adders_insert _ _ _ _ Hsz Hinv Hk Ht) as (g' & -> & H). exact H.
  - destruct (adders_advance _ _ _ _ Hinv Hk Ht) as (g' & -> & H). exact H.
  - destruct (inside_alone _ _ _ _ Hinv Hk) as (Hmu & Hin & _); [by unfold inside; rewrite Ht|].
    unfold add_proc. rewrite Ht.
    assert (inside t = 1 ∧ behind t = 0 ∧ added t = a_i t + 1) as (Hi & Hb & Ha) by (unfold inside, behind, added; rewrite Ht; lia).
    eapply adders_quiet; [exact Hinv|exact Hk|unfold adder_ok; cbn [a_pc a_i]; lia|by rewrite Hb|rewrite Ha; unfold added; cbn [a_pc a_i]; lia|].
    rewrite Hi, Hin. done.
  - unfold add_proc. by rewrite Ht.
Qed.

Lemma adders_start n w : wok w → list_at w p h [] → inv (start n w (Addr p h 0) (Addr p h 0)).
Proof.
  intros Hw Hl. split; cbn [start fst snd g_world g_mutex g_list g_pos].
  - apply Forall_replicate. unfold adder_ok. cbn [a_pc a_i]. lia.
  - rewrite zsum_replicate. cbn [inside a_pc]. lia.
  - done.
  - done.
  - exists [], []. assert (zsum behind (replicate n (Adder ALoop 0)) = 0) as -> by (rewrite zsum_replicate; change (behind (Adder ALoop 0)) with 0; lia).
    assert (zsum added (replicate n (Adder ALoop 0)) = 0) as -> by (rewrite zsum_replicate; change (added (Adder ALoop 0)) with 0; lia). done.
Qed.

(** The statements that a thread has run. *)
Definition ran (t : adder) : Z :=
  5 * a_i t + match a_pc t with ALoop => 0 | ALock | ADone => 1 | AInsert => 2 | AAdvance => 3 | AUnlock => 4 end.

Lemma ran_step g t g' t' : add_proc p update_count update_size g t = Go g' t' → ran t' = ran t + 1.
Proof.
  unfold add_proc, ran. destruct t as [pc i]. cbn [a_pc a_i]. destruct pc; intros E; repeat case_match; simplify_eq;
    cbn [a_pc a_i]; try lia; by destruct (i <? update_count).
Qed.

Lemma ran_bound t : adder_ok t → ran t <= 5 * Z.max 0 update_count + 1.
Proof. unfold adder_ok, ran. destruct (a_pc t); lia. Qed.

Lemma steps_inv m x y :
  is_s32 update_size → inv x → steps p update_count update_size m x y →
  inv y ∧ zsum ran y.2 = zsum ran x.2 + Z.of_nat m ∧ length y.2 = length x.2.
Proof.
  intros Hsz Hx Hs. induction Hs as [x|m x y z Hs IH Hstep]; [split; [done|lia]|].
  destruct (IH Hx) as (Hy & Hr & Hlen). destruct Hstep as [g ts k t g' t' Hk E]. cbn [snd] in *.
  pose proof (adders_step _ _ _ _ Hsz Hy Hk) as H. rewrite E in H. split; [done|].
  rewrite (zsum_insert _ _ _ _ _ Hk), (ran_step _ _ _ _ E), length_insert. lia.
Qed.

(** When no thread can run, all have ended. *)
Lemma stuck_done g ts :
  is_s32 update_size → inv (g, ts) → stuck p update_count update_size (g, ts) → Forall (λ t, a_pc t = ADone) ts.
Proof.
  intros Hsz Hinv Hstuck.
  assert (∀ k t, ts !! k = Some t → inside t = 1 → False) as Hno.
  { intros k t Hk Ht. pose proof (adders_step _ _ _ _ Hsz Hinv Hk) as H.
    destruct (add_proc p update_count update_size g t) as [g' t'| | |] eqn:E; [|..|done].
    - eapply Hstuck. by econstructor.
    - unfold add_proc in E. unfold inside in Ht. by repeat case_match.
    - unfold inside in Ht. by rewrite H in Ht. }
  assert (g_mutex g = false) as Hmu.
  { destruct Hinv as [_ Hm _ _ _]. cbn [fst snd] in Hm. destruct (g_mutex g); [|done].
    destruct (zsum_pos inside ts) as (k & t & Hk & Ht); [lia|]. exfalso. apply (Hno k t Hk).
    unfold inside in *. by destruct (a_pc t). }
  apply Forall_lookup. intros k t Hk. pose proof (adders_step _ _ _ _ Hsz Hinv Hk) as H.
  destruct (add_proc p update_count update_size g t) as [g' t'| | |] eqn:E; [|congruence|done|done].
  exfalso. eapply Hstuck. by econstructor.
Qed.

End spec.

(** C16. The benchmark with threads, in any interleaving of the statements of the
    threads: at most one thread is between the lock and the unlock, no statement
    is undefined behaviour, and a run has at most [5 * update_count + 1] statements
    per thread; when no thread can run, all threads have ended and the list has the
    number [update_size] once for every insertion of every thread. *)
Theorem pthread_inproc_correct p update_count update_size h n w m g ts :
  wok w → list_at w p h [] → is_s32 update_size →
  steps p update_count update_size m (start n w (Addr p h 0) (Addr p h 0)) (g, ts) →
  zsum inside ts <= 1 ∧ (∀ k t, ts !! k = Some t → add_proc p update_count update_size g t ≠ Bad) ∧
  Z.of_nat m <= Z.of_nat n * (5 * Z.max 0 update_count + 1) ∧
  (stuck p update_count update_size (g, ts) →
     Forall (λ t, a_pc t = ADone) ts ∧
     ∃ l, list_at (g_world g) p h l ∧ l.*2 = replicate (n * Z.to_nat update_count) update_size).
Proof.
  intros Hw Hl Hsz Hs.
  destruct (steps_inv p update_count update_size h _ _ _ Hsz (adders_start p update_count update_size h n w Hw Hl) Hs)
    as (Hinv & Hran & Hlen). cbn [start snd] in *. rewrite length_replicate in Hlen. rewrite zsum_replicate in Hran.
  pose proof Hinv as [Hok Hm _ _ (l1 & l2 & Hla & _ & Hl2 & Hval)]. cbn [fst snd] in *. split_and!.
  - destruct (g_mutex g); lia.
  - intros k t Hk E. pose proof (adders_step _ _ _ h _ _ _ _ Hsz Hinv Hk) as H. by rewrite E in H.
  - assert (zsum ran ts <= Z.of_nat (length ts) * (5 * Z.max 0 update_count + 1)) as Hb; [|rewrite Hlen in Hb; change (ran (Adder ALoop 0)) with 0 in Hran; lia].
    apply zsum_bound. eapply Forall_impl; [exact Hok|]. apply ran_bound.
  - intros Hstuck. pose proof (stuck_done _ _ _ h _ _ Hsz Hinv Hstuck) as Hd. split; [done|].
    exists (l1 ++ l2). split; [done|]. rewrite Hval. f_equal.
    assert (Forall (λ t, added t = Z.max 0 update_count) ts) as Ha.
    { apply Forall_lookup. intros k t Hk. pose proof (Forall_lookup_1 _ _ _ _ Hd Hk) as Ht.
      pose proof (Forall_lookup_1 _ _ _ _ Hok Hk) as Htok. unfold adder_ok, added in *. rewrite Ht in *. lia. }
    rewrite (zsum_const _ _ _ Ha), Hlen. lia.
Qed.

(** The step of thread [k], if it can run, and a run under a schedule. *)
Section schedule.
Context (p update_count update_size : Z).

Definition turn (k : nat) (x : globals * list adder) : option (globals * list adder) :=
  t ← x.2 !! k;
  match add_proc p update_count update_size x.1 t with Go g t' => Some (g, <[k := t']> x.2) | _ => None end.

Fixpoint schedule (ks : list nat) (x : globals * list adder) : option (globals * list adder) :=
  match ks with [] => Some x | k :: ks => y ← schedule ks x; turn k y end.

Lemma schedule_steps ks x y :
  schedule ks x = Some y → steps p update_count update_size (length ks) x y.
Proof.
  revert y. induction ks as [|k ks IH]; intros y; cbn [schedule length].
  - intros [= <-]. constructor.
  - destruct (schedule ks x) as [[g ts]|] eqn:E; [|done]. cbn [mbind option_bind]. unfold turn. cbn [fst snd].
    destruct (ts !! k) as [t|] eqn:Ht; [|done]. cbn [mbind option_bind].
    destruct (add_proc p update_count update_size g t) as [g' t'| | |] eqn:Ea; [|done..]. intros [= <-].
    econstructor; [by apply IH|by econstructor].
Qed.

End schedule.

(** Two threads, each of which inserts 7 twice; the schedule (last step first) lets
    them meet at the mutex. *)
Definition demo_prepared : world := Eval vm_compute in
  match prepare 1 (world_init 0 [] []) with Ok _ w => w | _ => world_init 0 [] [] end.
Definition demo_order : list nat :=
  [0; 0; 0; 0; 0; 0; 1; 1; 1; 1; 1; 1; 0; 0; 0; 0; 1; 1; 1; 1; 0; 1]%nat.
Definition demo_end : globals * list adder := Eval vm_compute in
  default (start 2 demo_prepared Null Null)
    (schedule 1 2 7 demo_order (start 2 demo_prepared (Addr 1 1 0) (Addr 1 1 0))).

Lemma done_stuck p update_count update_size g ts :
  Forall (λ t, a_pc t = ADone) ts → stuck p update_count update_size (g, ts).
Proof.
  intros Hd y Hs. inversion Hs as [g0 ts0 k t g' t' Hk E]; subst.
  pose proof (Forall_lookup_1 _ _ _ _ Hd Hk) as Ht. cbn in Ht. unfold add_proc in E. by rewrite Ht in E.
Qed.

Lemma pthread_inproc_correct_witness :
  ∃ l, list_at (g_world demo_end.1) 1 1 l ∧ l.*2 = [7; 7; 7; 7].
Proof.
  assert (steps 1 2 7 22 (start 2 demo_prepared (Addr 1 1 0) (Addr 1 1 0)) demo_end) as Hs.
  { apply (schedule_steps 1 2 7 demo_order). vm_compute. reflexivity. }
  destruct (pthread_inproc_correct 1 2 7 1 2 demo_prepared 22 demo_end.1 demo_end.2) as (_ & _ & _ & H).
  - apply wokb_spec. vm_compute. reflexivity.
  - split; [by_eval|]. split; [by_eval|]. by_eval.
  - done.
  - exact Hs.
  - apply H. apply done_stuck. vm_compute. by repeat constructor.
Defined.

End PthreadInproc.
