(* ===== verification/SharedIpc.v ===== *)
(** * Producers and a consumer over shared memory

    [src/nano_benchmarking/ipc/shared_ipc/shared_ipc.c]: clients ([send_proc])
    put numbers into a circular buffer in System V shared memory, a server
    ([recv_proc]) takes them out; three semaphores count the free slots, the full
    slots, and guard the buffer.  [src/exploration/shared_memory] has the same
    two loops in [client.c] and [server.c].

    Every process is a program counter with its local variables; a step runs one
    statement of one process, and processes interleave in any way.  The state
    begins when the server has initialised the shared memory. *)

From S2P Require Import Prelude.
From stdpp Require Import base numbers list.
From Stdlib Require Import Lia.
#[local] Open Scope Z_scope.

Module SharedIpc.

Definition BUFFER_SIZE : Z := 10000.

(** [struct prod_cons_shared]; a semaphore is its value. *)
Record prod_cons_shared := Shared {
  sem_empty : Z; sem_full : Z; sem_mutex : Z;
  sh_in : Z; sh_out : Z; sh_count : Z; sh_buffer : list Z
}.

(** What the server sets up. *)
Definition init_shared : prod_cons_shared :=
  Shared BUFFER_SIZE 0 1 0 0 0 (replicate (Z.to_nat BUFFER_SIZE) 0).

(** What running one statement of a process does: it goes on, it waits for a
    semaphore, it has ended, or it accesses memory out of the buffer. *)
Inductive outcome (A : Type) := Go (x : A) | Wait | Ended | Bad.
Arguments Go {A}. Arguments Wait {A}. Arguments Ended {A}. Arguments Bad {A}.

(** The statements of [send_proc]; [SLoop] is the test of the loop. *)
Inductive send_pc :=
| SLoop | SWaitEmpty | SWaitMutex | SWrite | SIn | SCount | SPostMutex | SPostFull | SDone.

Record sender := Sender { s_pc : send_pc; s_i : Z }.

(** The statements of [recv_proc]; [RRemove] is the [shmctl] at the end. *)
Inductive recv_pc :=
| RLoop | RWaitFull | RWaitMutex | RRead | ROut | RCount | RPostMutex | RPostEmpty | RConsume
| RRemove | RDone.

(** [r_list]: what the server keeps: the elements of its linked list, to which
    [Insert] at [pos] and [Advance] append, or the numbers it printed. *)
Record receiver := Receiver { r_pc : recv_pc; r_i : Z; r_item : Z; r_list : list Z }.

(** [shared_stuff->buffer[i] = v], [shared_stuff->buffer[i]]. *)
Definition buffer_set (s : prod_cons_shared) (i v : Z) : option prod_cons_shared :=
  if decide (0 <= i < BUFFER_SIZE) then
    Some (Shared (sem_empty s) (sem_full s) (sem_mutex s) (sh_in s) (sh_out s) (sh_count s)
            (<[Z.to_nat i := v]> (sh_buffer s)))
  else None.
Definition buffer_get (s : prod_cons_shared) (i : Z) : option Z :=
  if decide (0 <= i) then sh_buffer s !! Z.to_nat i else None.

Definition set_empty (v : Z) (s : prod_cons_shared) : prod_cons_shared :=
  Shared v (sem_full s) (sem_mutex s) (sh_in s) (sh_out s) (sh_count s) (sh_buffer s).
Definition set_full (v : Z) (s : prod_cons_shared) : prod_cons_shared :=
  Shared (sem_empty s) v (sem_mutex s) (sh_in s) (sh_out s) (sh_count s) (sh_buffer s).
Definition set_mutex (v : Z) (s : prod_cons_shared) : prod_cons_shared :=
  Shared (sem_empty s) (sem_full s) v (sh_in s) (sh_out s) (sh_count s) (sh_buffer s).
Definition set_in (v : Z) (s : prod_cons_shared) : prod_cons_shared :=
  Shared (sem_empty s) (sem_full s) (sem_mutex s) v (sh_out s) (sh_count s) (sh_buffer s).
Definition set_out (v : Z) (s : prod_cons_shared) : prod_cons_shared :=
  Shared (sem_empty s) (sem_full s) (sem_mutex s) (sh_in s) v (sh_count s) (sh_buffer s).
Definition set_count (v : Z) (s : prod_cons_shared) : prod_cons_shared :=
  Shared (sem_empty s) (sem_full s) (sem_mutex s) (sh_in s) (sh_out s) v (sh_buffer s).

(** One statement of [send_proc], and the item it puts in the buffer. *)
Definition send_proc (update_count : Z) (s : prod_cons_shared) (t : sender)
    : outcome (prod_cons_shared * sender * option Z) :=
  let i := s_i t in
  match s_pc t with
  | SLoop => Go (s, Sender (if i <? update_count then SWaitEmpty else SDone) i, None)
  | SWaitEmpty =>
      if 0 <? sem_empty s then Go (set_empty (sem_empty s - 1) s, Sender SWaitMutex i, None) else Wait
  | SWaitMutex =>
      if 0 <? sem_mutex s then Go (set_mutex (sem_mutex s - 1) s, Sender SWrite i, None) else Wait
  | SWrite =>
      let item := i in
      match buffer_set s (sh_in s) item with
      | Some s' => Go (s', Sender SIn i, Some item)
      | None => Bad
      end
  | SIn => Go (set_in (Z.rem (sh_in s + 1) BUFFER_SIZE) s, Sender SCount i, None)
  | SCount => Go (set_count (sh_count s + 1) s, Sender SPostMutex i, None)
  | SPostMutex => Go (set_mutex (sem_mutex s + 1) s, Sender SPostFull i, None)
  | SPostFull => Go (set_full (sem_full s + 1) s, Sender SLoop (i + 1), None)
  | SDone => Ended
  end.

(** One statement of the loop of a consumer that takes [total] numbers, and the
    item it takes out of the buffer; it keeps [consume item]. *)
Definition recv_loop (total : Z) (consume : Z → Z) (s : prod_cons_shared) (t : receiver)
    : outcome (prod_cons_shared * receiver * option Z) :=
  let i := r_i t in
  let go pc s' := Go (s', Receiver pc i (r_item t) (r_list t), None) in
  match r_pc t with
  | RLoop => go (if i <? total then RWaitFull else RRemove) s
  | RWaitFull => if 0 <? sem_full s then go RWaitMutex (set_full (sem_full s - 1) s) else Wait
  | RWaitMutex => if 0 <? sem_mutex s then go RRead (set_mutex (sem_mutex s - 1) s) else Wait
  | RRead =>
      match buffer_get s (sh_out s) with
      | Some item => Go (s, Receiver ROut i item (r_list t), Some item)
      | None => Bad
      end
  | ROut => go RCount (set_out (Z.rem (sh_out s + 1) BUFFER_SIZE) s)
  | RCount => go RPostMutex (set_count (sh_count s - 1) s)
  | RPostMutex => go RPostEmpty (set_mutex (sem_mutex s + 1) s)
  | RPostEmpty => go RConsume (set_empty (sem_empty s + 1) s)
  | RConsume => Go (s, Receiver RLoop (i + 1) (r_item t) (r_list t ++ [consume (r_item t)]), None)
  | RRemove => go RDone s
  | RDone => Ended
  end.

(** The server of the benchmark takes [update_count * thread_count] numbers, and
    inserts [update_size], not the item, in its list. *)
Definition recv_proc (update_count thread_count update_size : Z) :=
  recv_loop (update_count * thread_count) (λ _, update_size).

(** [src/exploration/shared_memory]: the client puts 50000 numbers, the server
    takes 100000 and prints them. *)
Definition client_main := send_proc 50000.
Definition server_main := recv_loop 100000 (λ item, item).

(** All processes together. *)
Record system := Sys { y_shared : prod_cons_shared; y_senders : list sender; y_recv : receiver }.

(** Which client put which number, and what the server got. *)
Inductive event := Put (k : nat) (v : Z) | Got (v : Z).

Section program.
Context (sendp : prod_cons_shared → sender → outcome (prod_cons_shared * sender * option Z))
  (recvp : prod_cons_shared → receiver → outcome (prod_cons_shared * receiver * option Z)).

Inductive step : system → option event → system → Prop :=
| step_send s ts r k t s' t' e :
    ts !! k = Some t → sendp s t = Go (s', t', e) →
    step (Sys s ts r) (Put k <$> e) (Sys s' (<[k := t']> ts) r)
| step_recv s ts r s' r' e :
    recvp s r = Go (s', r', e) →
    step (Sys s ts r) (Got <$> e) (Sys s' ts r').

(** [runs n x tr y]: [n] steps lead from [x] to [y] with the events [tr]. *)
Inductive runs : nat → system → list event → system → Prop :=
| runs_nil x : runs 0 x [] x
| runs_snoc n x tr y e z :
    runs n x tr y → step y e z → runs (S n) x (tr ++ option_list e) z.

(** [n] clients and the server, all at their loops. *)
Definition start (n : nat) : system :=
  Sys init_shared (replicate n (Sender SLoop 0)) (Receiver RLoop 0 0 []).

(** No process can run. *)
Definition stuck (x : system) : Prop := ∀ e y, ¬ step x e y.

(** The step of one process, if it can run; the server is [None]. *)
Definition turn (c : option nat) (x : system) : option (option event * system) :=
  match c with
  | None => match recvp (y_shared x) (y_recv x) with
            | Go (s, r, e) => Some (Got <$> e, Sys s (y_senders x) r)
            | _ => None
            end
  | Some k => match y_senders x !! k with
              | Some t => match sendp (y_shared x) t with
                          | Go (s, t', e) => Some (Put k <$> e, Sys s (<[k := t']> (y_senders x)) (y_recv x))
                          | _ => None
                          end
              | None => None
              end
  end.

(** A schedule passes over a process that cannot run. *)
Definition schedule (cs : list (option nat)) (st : nat * list event * system) : nat * list event * system :=
  foldl (λ '(n, tr, x) c,
    match turn c x with Some (e, y) => (S n, tr ++ option_list e, y) | None => (n, tr, x) end) st cs.

End program.
End SharedIpc.
