(* ===== verification/SharedIpcSpec.v ===== *)
(** * The shared memory buffer: safety, order, termination

    The invariant of all reachable states of [SharedIpc], counted over the
    program counters of all processes, and what follows from it. *)

From S2P Require Import Prelude SharedIpc.
From stdpp Require Import base numbers list.
From Stdlib Require Import Lia.
#[local] Open Scope Z_scope.
Import SharedIpc.

Lemma BUFFER_SIZE_pos : 0 < BUFFER_SIZE.
Proof. done. Qed.
#[local] Opaque BUFFER_SIZE.

(** ** What the program counters stand for *)

(** A free slot is reserved, not yet filled. *)
Definition s_reserved (t : sender) : Z := match s_pc t with SWaitMutex | SWrite => 1 | _ => 0 end.
(** A slot is filled, and not yet counted by [sem_full]. *)
Definition s_filled (t : sender) : Z :=
  match s_pc t with SIn | SCount | SPostMutex | SPostFull => 1 | _ => 0 end.
(** Between [sem_wait] and [sem_post] of the mutex. *)
Definition s_inside (t : sender) : Z := match s_pc t with SWrite | SIn | SCount | SPostMutex => 1 | _ => 0 end.
(** [in], [count] are behind. *)
Definition s_in_behind (t : sender) : Z := match s_pc t with SIn => 1 | _ => 0 end.
Definition s_count_behind (t : sender) : Z := match s_pc t with SIn | SCount => 1 | _ => 0 end.
(** How many numbers the client has put. *)
Definition s_put (t : sender) : Z := s_i t + s_filled t.

Definition r_reserved (r : receiver) : Z := match r_pc r with RWaitMutex | RRead => 1 | _ => 0 end.
Definition r_taken (r : receiver) : Z := match r_pc r with ROut | RCount | RPostMutex | RPostEmpty => 1 | _ => 0 end.
Definition r_inside (r : receiver) : Z := match r_pc r with RRead | ROut | RCount | RPostMutex => 1 | _ => 0 end.
Definition r_out_behind (r : receiver) : Z := match r_pc r with ROut => 1 | _ => 0 end.
Definition r_count_behind (r : receiver) : Z := match r_pc r with ROut | RCount => 1 | _ => 0 end.
Definition r_got (r : receiver) : Z := r_i r + match r_pc r with RConsume => 1 | _ => r_taken r end.

(** The numbers put, and those got, in a trace. *)
Definition puts (tr : list event) : list Z := omap (λ e, match e with Put _ v => Some v | Got _ => None end) tr.
Definition gots (tr : list event) : list Z := omap (λ e, match e with Got v => Some v | Put _ _ => None end) tr.
Definition puts_of (k : nat) (tr : list event) : list Z :=
  omap (λ e, match e with Put j v => if decide (j = k) then Some v else None | Got _ => None end) tr.

Section spec.
Context (update_count total : Z) (consume : Z → Z).

(** The loop variables are in range, at the program counters inside the loops. *)
Definition sender_ok (t : sender) : Prop :=
  match s_pc t with
  | SLoop => 0 <= s_i t <= Z.max 0 update_count
  | SDone => s_i t = Z.max 0 update_count
  | _ => 0 <= s_i t < update_count
  end.
Definition receiver_ok (r : receiver) : Prop :=
  match r_pc r with
  | RLoop => 0 <= r_i r <= Z.max 0 total
  | RRemove | RDone => r_i r = Z.max 0 total
  | _ => 0 <= r_i r < total
  end.

(** The semaphores and counters, for [w] numbers put and [n] got. *)
Record counts_inv (s : prod_cons_shared) (ts : list sender) (r : receiver) (w n : Z) : Prop := {
  ci_mutex : 0 <= sem_mutex s ∧ sem_mutex s + zsum s_inside ts + r_inside r = 1;
  ci_full : 0 <= sem_full s ∧ sem_full s + zsum s_filled ts + r_reserved r = w - n;
  ci_empty : 0 <= sem_empty s ∧ sem_empty s + zsum s_reserved ts + r_taken r = BUFFER_SIZE - (w - n);
  ci_count : sh_count s = w - n - zsum s_count_behind ts + r_count_behind r;
  ci_put : w = zsum s_put ts;
  ci_got : n = r_got r
}.

(** The buffer holds what was put and not yet got. *)
Record buffer_inv (s : prod_cons_shared) (ts : list sender) (r : receiver) (ps : list Z) (n : Z) : Prop := {
  bi_in : sh_in s = (Z.of_nat (length ps) - zsum s_in_behind ts) mod BUFFER_SIZE;
  bi_out : sh_out s = (n - r_out_behind r) mod BUFFER_SIZE;
  bi_size : length (sh_buffer s) = Z.to_nat BUFFER_SIZE;
  bi_slots : ∀ j, n <= j < Z.of_nat (length ps) →
    sh_buffer s !! Z.to_nat (j mod BUFFER_SIZE) = ps !! Z.to_nat j
}.

(** The last number taken out, and those consumed before it. *)
Definition keeps (r : receiver) (gs : list Z) : Prop :=
  r_list r = consume <$> take (Z.to_nat (r_i r)) gs ∧
  match r_pc r with
  | ROut | RCount | RPostMutex | RPostEmpty | RConsume => gs !! Z.to_nat (r_i r) = Some (r_item r)
  | _ => True
  end.

Record inv (x : system) (tr : list event) : Prop := {
  i_counts : counts_inv (y_shared x) (y_senders x) (y_recv x) (Z.of_nat (length (puts tr))) (Z.of_nat (length (gots tr)));
  i_buffer : buffer_inv (y_shared x) (y_senders x) (y_recv x) (puts tr) (Z.of_nat (length (gots tr)));
  i_senders : Forall sender_ok (y_senders x);
  i_recv : receiver_ok (y_recv x);
  i_fifo : gots tr = take (length (gots tr)) (puts tr);
  i_order : ∀ k t, y_senders x !! k = Some t → puts_of k tr = seqZ 0 (s_put t);
  i_keeps : keeps (y_recv x) (gots tr)
}.

(** ** The invariant holds at the start *)

Lemma inv_start n : inv (start n) [].
Proof.
  pose proof BUFFER_SIZE_pos. split; cbn [start y_shared y_senders y_recv init_shared]; cbn.
  - split; cbn; rewrite ?zsum_replicate; unfold s_put, r_got; cbn; lia.
  - split; cbn; rewrite ?zsum_replicate; cbn [s_in_behind s_pc]; rewrite ?Z.mul_0_r; [done|done| |lia].
    by rewrite length_replicate.
  - apply Forall_replicate. cbn. lia.
  - cbn. lia.
  - done.
  - intros k t [-> _]%lookup_replicate. done.
  - done.
Qed.

(** ** Every step keeps it *)

(** At most one process is inside: the others are not. *)
Lemma alone s ts r w n k t f :
  counts_inv s ts r w n → ts !! k = Some t → s_inside t = 1 → (∀ t, 0 <= f t <= s_inside t) →
  zsum f ts = f t ∧ r_inside r = 0.
Proof.
  intros [[Hm Hin] _ _ _ _ _] Hk Ht Hf. pose proof (zsum_le_other f s_inside ts k t Hf Hk).
  assert (0 <= r_inside r) by (unfold r_inside; destruct (r_pc r); lia). lia.
Qed.

(** The numbers in the buffer; a process with a reserved slot has room. *)
Lemma buffered s ts r w n :
  counts_inv s ts r w n → 0 <= w - n <= BUFFER_SIZE ∧
  (r_reserved r = 1 → 1 <= w - n) ∧
  ∀ k t, ts !! k = Some t → s_reserved t = 1 → w - n < BUFFER_SIZE.
Proof.
  intros [_ [? Hf] [? He] _ _ _].
  assert (∀ t, 0 <= s_filled t ∧ 0 <= s_reserved t) as Hpos by (intros [[] ?]; cbn; lia).
  pose proof (zsum_nonneg s_filled ts (λ t, proj1 (Hpos t))). pose proof (zsum_nonneg s_reserved ts (λ t, proj2 (Hpos t))).
  assert (0 <= r_reserved r ∧ 0 <= r_taken r) as [? ?] by (unfold r_reserved, r_taken; destruct (r_pc r); lia).
  split_and!; [lia|lia|lia|]. intros k t Hk Ht.
  pose proof (zsum_le_other s_reserved s_reserved ts k t (λ t, conj (proj2 (Hpos t)) (Z.le_refl _)) Hk). lia.
Qed.

(** Slots of different numbers in the buffer are different. *)
Lemma slots_ne i j : i < j → j - i < BUFFER_SIZE → i mod BUFFER_SIZE ≠ j mod BUFFER_SIZE.
Proof.
  intros H1 H2 E. pose proof BUFFER_SIZE_pos as HB.
  pose proof (Z.div_mod i BUFFER_SIZE ltac:(lia)) as Hi. pose proof (Z.div_mod j BUFFER_SIZE ltac:(lia)) as Hj.
  set (q := i / BUFFER_SIZE) in *. set (q' := j / BUFFER_SIZE) in *. rewrite E in Hi.
  assert (q < q') by nia. assert (BUFFER_SIZE * (q + 1) <= BUFFER_SIZE * q') by nia. lia.
Qed.

Lemma s_put_eq t : s_put t = s_i t + s_filled t.
Proof. done. Qed.

(** Evaluate the counts at known program counters, but not inside [zsum]. *)
Ltac pcs :=
  rewrite ?s_put_eq; unfold r_got in *;
  repeat match goal with
  | |- context [?f (Sender ?pc ?i)] => let v := eval cbv [s_reserved s_filled s_inside s_in_behind s_count_behind s_pc s_i] in (f (Sender pc i)) in change (f (Sender pc i)) with v
  | H : context [?f (Receiver ?pc ?i ?x ?l)] |- _ => let v := eval cbv [r_reserved r_taken r_inside r_out_behind r_count_behind r_pc r_i] in (f (Receiver pc i x l)) in change (f (Receiver pc i x l)) with v in H
  | |- context [?f (Receiver ?pc ?i ?x ?l)] => let v := eval cbv [r_reserved r_taken r_inside r_out_behind r_count_behind r_pc r_i] in (f (Receiver pc i x l)) in change (f (Receiver pc i x l)) with v
  end;
  cbn [sem_empty sem_full sem_mutex sh_in sh_out sh_count sh_buffer
       set_empty set_full set_mutex set_in set_out set_count] in *.

(** What a step of client [k] does to the counts. *)
Lemma send_counts s ts r w n k t s' t' e :
  counts_inv s ts r w n → ts !! k = Some t → send_proc update_count s t = Go (s', t', e) →
  counts_inv s' (<[k := t']> ts) r (w + Z.of_nat (length (option_list e))) n.
Proof.
  intros [Hm Hf He Hc Hp Hg] Hk E. destruct t as [pc i]. unfold send_proc in E. cbn [s_pc s_i] in E.
  destruct pc; unfold buffer_set in E; repeat case_match; simplify_eq;
    (split; rewrite ?(zsum_insert _ _ _ _ _ Hk); pcs; cbn; lia).
Qed.

Lemma recv_counts s ts r w n s' r' e :
  counts_inv s ts r w n → recv_loop total consume s r = Go (s', r', e) →
  counts_inv s' ts r' w (n + Z.of_nat (length (option_list e))).
Proof.
  intros [Hm Hf He Hc Hp Hg] E. destruct r as [pc i item l]. unfold recv_loop in E. cbn [r_pc r_i r_item r_list] in E.
  destruct pc; repeat case_match; simplify_eq; (split; pcs; cbn; lia).
Qed.

Lemma mod_bounds z : 0 <= z mod BUFFER_SIZE < BUFFER_SIZE.
Proof. apply Z.mod_pos_bound, BUFFER_SIZE_pos. Qed.

Lemma next_slot z : Z.rem (z mod BUFFER_SIZE + 1) BUFFER_SIZE = (z + 1) mod BUFFER_SIZE.
Proof.
  pose proof BUFFER_SIZE_pos. pose proof (mod_bounds z).
  rewrite Z.rem_mod_nonneg by lia. by rewrite Zplus_mod_idemp_l.
Qed.

(** [ps] has what the new statement put at its end. *)
Lemma write_slots s ps n v :
  (∀ j, n <= j < Z.of_nat (length ps) → sh_buffer s !! Z.to_nat (j mod BUFFER_SIZE) = ps !! Z.to_nat j) →
  0 <= n <= Z.of_nat (length ps) → Z.of_nat (length ps) - n < BUFFER_SIZE →
  length (sh_buffer s) = Z.to_nat BUFFER_SIZE →
  ∀ j, n <= j < Z.of_nat (length (ps ++ [v])) →
    <[Z.to_nat (Z.of_nat (length ps) mod BUFFER_SIZE) := v]> (sh_buffer s) !! Z.to_nat (j mod BUFFER_SIZE) =
    (ps ++ [v]) !! Z.to_nat j.
Proof.
  intros Hs Hn Hroom Hlen j Hj. rewrite length_app in Hj. cbn [length] in Hj.
  pose proof (mod_bounds j). pose proof (mod_bounds (Z.of_nat (length ps))).
  destruct (decide (j = Z.of_nat (length ps))) as [->|Hne].
  - rewrite Nat2Z.id, list_lookup_insert_eq by lia. by rewrite lookup_app_r, Nat.sub_diag by lia.
  - rewrite list_lookup_insert_ne.
    + rewrite lookup_app_l by lia. apply Hs. lia.
    + pose proof (slots_ne j (Z.of_nat (length ps)) ltac:(lia) ltac:(lia)). lia.
Qed.

Lemma send_buffer s ts r ps n k t s' t' e :
  counts_inv s ts r (Z.of_nat (length ps)) n → 0 <= n → buffer_inv s ts r ps n →
  ts !! k = Some t → send_proc update_count s t = Go (s', t', e) →
  buffer_inv s' (<[k := t']> ts) r (ps ++ option_list e) n.
Proof.
  intros Hci Hn [Hi Ho Hl Hs] Hk E. pose proof (zsum_le_other s_in_behind s_inside ts k t) as Hother.
  destruct t as [pc i]. unfold send_proc in E. cbn [s_pc s_i] in E.
  destruct pc; unfold buffer_set in E; repeat case_match; simplify_eq;
    (split; rewrite ?(zsum_insert _ _ _ _ _ Hk); cbn [option_list option_rect]; rewrite ?app_nil_r);
    try (pcs; done || (rewrite Hi; f_equal; lia)).
  - destruct (alone _ _ _ _ _ _ _ s_in_behind Hci Hk eq_refl) as [Hz _]; [intros [[] ?]; cbn; lia|].
    rewrite length_app. pcs. rewrite Hi. f_equal. cbn [length]. lia.
  - cbn [sh_buffer]. by rewrite length_insert.
  - destruct (alone _ _ _ _ _ _ _ s_in_behind Hci Hk eq_refl) as [Hz _]; [intros [[] ?]; cbn; lia|].
    destruct (buffered _ _ _ _ _ Hci) as (? & _ & Hroom). specialize (Hroom k _ Hk eq_refl).
    cbn [sh_buffer]. rewrite Hi. change (s_in_behind {| s_pc := SWrite; s_i := i |}) with 0 in Hz. rewrite Hz, Z.sub_0_r. apply write_slots; [done|lia|lia|done].
  - destruct (alone _ _ _ _ _ _ _ s_in_behind Hci Hk eq_refl) as [Hz _]; [intros [[] ?]; cbn; lia|].
    pcs. rewrite Hi, next_slot. f_equal. cbn in Hz. lia.
Qed.

Lemma recv_buffer s ts r ps n s' r' e :
  counts_inv s ts r (Z.of_nat (length ps)) n → buffer_inv s ts r ps n → 0 <= n →
  recv_loop total consume s r = Go (s', r', e) →
  buffer_inv s' ts r' ps (n + Z.of_nat (length (option_list e))) ∧
  (∀ v, e = Some v → ps !! Z.to_nat n = Some v).
Proof.
  intros Hci [Hi Ho Hl Hs] Hn E. destruct (buffered _ _ _ _ _ Hci) as (_ & Hone & _).
  destruct r as [pc i item l]. unfold recv_loop in E. cbn [r_pc r_i r_item r_list] in E.
  destruct pc; unfold buffer_get in E; repeat case_match; simplify_eq;
    (split; [split; cbn [option_list option_rect length]|]); try done;
    try (pcs; cbn [Z.of_nat]; rewrite ?Z.add_0_r; done).
  - clear Hci. pcs. rewrite Ho. f_equal. lia.
  - intros j Hj. apply Hs. lia.
  - intros v [= <-]. change (r_reserved _) with 1 in Hone. specialize (Hone eq_refl). cbn [r_out_behind r_pc] in Ho.
    rewrite Z.sub_0_r in Ho. rewrite <- Hs by lia. by rewrite <- Ho.
  - clear Hci Hone. pcs. rewrite Ho, next_slot. f_equal. lia.
Qed.

Lemma send_ok s t s' t' e :
  sender_ok t → send_proc update_count s t = Go (s', t', e) → sender_ok t'.
Proof.
  destruct t as [pc i]. unfold send_proc, sender_ok. cbn [s_pc s_i].
  intros H E. destruct pc; repeat case_match; simplify_eq; cbn [s_pc s_i] in *; try congruence; lia.
Qed.

Lemma recv_ok s r s' r' e :
  receiver_ok r → recv_loop total consume s r = Go (s', r', e) → receiver_ok r'.
Proof.
  destruct r as [pc i item l]. unfold recv_loop, receiver_ok. cbn [r_pc r_i r_item r_list].
  intros H E. destruct pc; repeat case_match; simplify_eq; cbn [r_pc r_i] in *; try congruence; lia.
Qed.

(** What a client puts is the number of its turn. *)
Lemma send_put s t s' t' e :
  send_proc update_count s t = Go (s', t', e) →
  match e with
  | Some v => v = s_put t ∧ s_put t' = s_put t + 1
  | None => s_put t' = s_put t
  end.
Proof.
  destruct t as [pc i]. unfold send_proc. cbn [s_pc s_i].
  intros E. destruct pc; repeat case_match; simplify_eq; unfold s_put; cbn; lia.
Qed.

Lemma recv_keeps s r gs s' r' e :
  receiver_ok r → Z.of_nat (length gs) = r_got r → keeps r gs →
  recv_loop total consume s r = Go (s', r', e) → keeps r' (gs ++ option_list e).
Proof.
  destruct r as [pc i item l]. unfold recv_loop, receiver_ok, keeps, r_got, r_taken. cbn [r_pc r_i r_item r_list].
  intros H Hlen [Hl Hi] E. destruct pc; repeat case_match; simplify_eq; cbn [r_pc r_list r_i r_item option_list option_rect];
    rewrite ?app_nil_r; try done.
  - split; [rewrite take_app_le by lia; done|]. rewrite lookup_app_r by lia.
    by replace (Z.to_nat i - length gs)%nat with 0%nat by lia.
  - split; [|done]. replace (Z.to_nat (i + 1)) with (S (Z.to_nat i)) by lia.
    by rewrite (take_S_r _ _ _ Hi), fmap_app.
Qed.

(** How a step extends the trace. *)
Lemma puts_app tr tr' : puts (tr ++ tr') = puts tr ++ puts tr'.
Proof. apply omap_app. Qed.
Lemma gots_app tr tr' : gots (tr ++ tr') = gots tr ++ gots tr'.
Proof. apply omap_app. Qed.
Lemma puts_of_app k tr tr' : puts_of k (tr ++ tr') = puts_of k tr ++ puts_of k tr'.
Proof. apply omap_app. Qed.

Lemma puts_put k (e : option Z) : puts (option_list (Put k <$> e)) = option_list e.
Proof. by destruct e. Qed.
Lemma gots_put k (e : option Z) : gots (option_list (Put k <$> e)) = [].
Proof. by destruct e. Qed.
Lemma puts_got (e : option Z) : puts (option_list (Got <$> e)) = [].
Proof. by destruct e. Qed.
Lemma gots_got (e : option Z) : gots (option_list (Got <$> e)) = option_list e.
Proof. by destruct e. Qed.
Lemma puts_of_got k (e : option Z) : puts_of k (option_list (Got <$> e)) = [].
Proof. by destruct e. Qed.

(** The numbers of each client stay in order. *)
Lemma send_order (ts : list sender) tr k t t' s s' e :
  ts !! k = Some t → sender_ok t → send_proc update_count s t = Go (s', t', e) →
  (∀ j u, ts !! j = Some u → puts_of j tr = seqZ 0 (s_put u)) →
  ∀ j u, <[k := t']> ts !! j = Some u → puts_of j (tr ++ option_list (Put k <$> e)) = seqZ 0 (s_put u).
Proof.
  intros Hk Hok E Ho j u Hj. rewrite puts_of_app. apply send_put in E.
  assert (0 <= s_put t) as Hpos.
  { destruct t as [[] i]; unfold sender_ok, s_put in *; cbn in *; lia. }
  destruct (decide (j = k)) as [->|Hne].
  - rewrite list_lookup_insert_eq in Hj by (by eapply lookup_lt_Some). injection Hj as <-.
    rewrite (Ho k t Hk). destruct e as [v|]; cbn.
    + destruct E as [-> ->]. rewrite decide_True by done. rewrite seqZ_app by lia. done.
    + by rewrite app_nil_r, E.
  - rewrite list_lookup_insert_ne in Hj by done. rewrite (Ho j u Hj).
    destruct e as [v|]; cbn; [rewrite decide_False by done|]; by rewrite app_nil_r.
Qed.

Lemma inv_step x tr e y :
  inv x tr → step (send_proc update_count) (recv_loop total consume) x e y → inv y (tr ++ option_list e).
Proof.
  intros [Hc Hb Hs Hr Hf Ho Hl] Hstep.
  destruct (buffered _ _ _ _ _ Hc) as (Hw & _ & _).
  destruct Hstep as [s ts r k t s' t' e Hk E|s ts r s' r' e E]; cbn [y_shared y_senders y_recv] in *.
  - assert (sender_ok t) as Ht by (by eapply (Forall_lookup_1 _ _ _ _ Hs)).
    split; cbn [y_shared y_senders y_recv]; rewrite ?puts_app, ?gots_app, ?puts_put, ?gots_put, ?app_nil_r.
    + rewrite length_app, Nat2Z.inj_add. by eapply send_counts.
    + by eapply send_buffer; [..|lia| | |].
    + apply Forall_insert; [done|]. by eapply send_ok.
    + done.
    + rewrite take_app_le by lia. done.
    + by eapply send_order.
    + done.
  - destruct (recv_buffer _ _ _ _ _ _ _ _ Hc Hb ltac:(lia) E) as [Hb' Hgot].
    split; cbn [y_shared y_senders y_recv]; rewrite ?puts_app, ?gots_app, ?puts_got, ?gots_got, ?app_nil_r.
    + rewrite length_app, Nat2Z.inj_add. by eapply recv_counts.
    + by rewrite length_app, Nat2Z.inj_add.
    + done.
    + by eapply recv_ok.
    + destruct e as [v|]; cbn [option_list option_rect]; [|by rewrite app_nil_r].
      specialize (Hgot v eq_refl). rewrite Nat2Z.id in Hgot.
      rewrite length_app, Nat.add_1_r, (take_S_r _ _ _ Hgot). by f_equal.
    + intros k t Hk. rewrite puts_of_app, puts_of_got, app_nil_r. by apply Ho.
    + eapply recv_keeps; [done| |done|done]. apply Hc.
Qed.

Lemma inv_runs m k tr y :
  runs (send_proc update_count) (recv_loop total consume) m (start k) tr y → inv y tr.
Proof.
  intros Hruns. remember (start k) as x eqn:Hx. induction Hruns as [x|m x tr y e z Hruns IH Hstep].
  - subst x. apply inv_start.
  - eapply inv_step; [|done]. by apply IH.
Qed.


(** ** Progress *)

(** Where a client stands in its [8 * update_count + 1] statements, and the
    consumer in its [9 * total + 2]. *)
Definition s_steps (t : sender) : Z :=
  8 * s_i t + match s_pc t with
  | SLoop => 0 | SWaitEmpty => 1 | SWaitMutex => 2 | SWrite => 3 | SIn => 4 | SCount => 5
  | SPostMutex => 6 | SPostFull => 7 | SDone => 1
  end.
Definition r_steps (r : receiver) : Z :=
  9 * r_i r + match r_pc r with
  | RLoop => 0 | RWaitFull => 1 | RWaitMutex => 2 | RRead => 3 | ROut => 4 | RCount => 5
  | RPostMutex => 6 | RPostEmpty => 7 | RConsume => 8 | RRemove => 1 | RDone => 2
  end.

Definition progress (x : system) : Z := zsum s_steps (y_senders x) + r_steps (y_recv x).

Lemma progress_step x e y :
  step (send_proc update_count) (recv_loop total consume) x e y → progress y = progress x + 1.
Proof.
  destruct 1 as [s ts r k [pc i] s' t' e Hk E|s ts [pc i item l] s' r' e E]; unfold progress; cbn [y_senders y_recv].
  - rewrite (zsum_insert _ _ _ _ _ Hk). unfold send_proc in E. cbn [s_pc s_i] in E.
    destruct pc; repeat case_match; simplify_eq; unfold s_steps; cbn [s_pc s_i]; lia.
  - unfold recv_loop in E. cbn [r_pc r_i r_item r_list] in E.
    destruct pc; repeat case_match; simplify_eq; unfold r_steps; cbn [r_pc r_i]; lia.
Qed.

Lemma progress_runs m k tr y :
  runs (send_proc update_count) (recv_loop total consume) m (start k) tr y →
  progress y = Z.of_nat m ∧ length (y_senders y) = k.
Proof.
  intros Hruns. remember (start k) as x eqn:Hx. induction Hruns as [x|m x tr y e z Hruns IH Hstep].
  - subst x. unfold progress. cbn [start y_senders y_recv]. rewrite zsum_replicate, length_replicate. unfold s_steps, r_steps. cbn [s_pc s_i r_pc r_i]. lia.
  - destruct (IH Hx) as [Hp Hlen]. rewrite (progress_step _ _ _ Hstep), Hp. split; [lia|].
    destruct Hstep; cbn [y_senders] in *; by rewrite ?length_insert.
Qed.

Lemma s_put_bound ts :
  0 <= update_count → Forall sender_ok ts → Forall (λ t, s_put t <= update_count) ts.
Proof. intros Hu Hts. apply (Forall_impl _ _ _ Hts). intros [[] i]; unfold sender_ok, s_put, s_filled; cbn [s_pc s_i]; lia. Qed.

Lemma s_steps_bound ts :
  0 <= update_count → Forall sender_ok ts → Forall (λ t, s_steps t <= 8 * update_count + 1) ts.
Proof. intros Hu Hts. apply (Forall_impl _ _ _ Hts). intros [[] i]; unfold sender_ok, s_steps; cbn [s_pc s_i]; lia. Qed.

Lemma r_steps_bound r : 0 <= total → receiver_ok r → r_steps r <= 9 * total + 2.
Proof. intros Ht. destruct r as [[] i item l]; unfold receiver_ok, r_steps; cbn [r_pc r_i]; lia. Qed.

(** No access out of the buffer. *)
Lemma send_not_bad s ts r ps n t : buffer_inv s ts r ps n → send_proc update_count s t ≠ Bad.
Proof.
  intros [Hi _ _ _]. destruct t as [[] i]; unfold send_proc, buffer_set; cbn [s_pc s_i]; repeat case_match; try done.
  pose proof (mod_bounds (Z.of_nat (length ps) - zsum s_in_behind ts)). simplify_eq. lia.
Qed.

Lemma recv_not_bad s ts r ps n : buffer_inv s ts r ps n → recv_loop total consume s r ≠ Bad.
Proof.
  intros [_ Ho Hl _]. pose proof (mod_bounds (n - r_out_behind r)).
  destruct r as [[] i item l]; unfold recv_loop, buffer_get; cbn [r_pc r_i r_item r_list]; repeat case_match; simplify_eq; try done.
  - match goal with H : _ !! _ = None |- _ => apply lookup_ge_None_1 in H end. lia.
  - lia.
Qed.

(** The processes of a system where none can run. *)
Lemma stuck_send s ts r k t :
  stuck (send_proc update_count) (recv_loop total consume) (Sys s ts r) → ts !! k = Some t →
  send_proc update_count s t ≠ Bad →
  (s_pc t = SWaitEmpty ∧ sem_empty s <= 0) ∨ (s_pc t = SWaitMutex ∧ sem_mutex s <= 0) ∨ s_pc t = SDone.
Proof.
  intros Hst Hk Hb.
  assert (∀ s' t' e, send_proc update_count s t ≠ Go (s', t', e)) as Hno.
  { intros s' t' e E. eapply Hst. by eapply step_send. }
  destruct t as [[] i]; unfold send_proc in *; cbn [s_pc s_i] in *; repeat case_match; try done;
    try (by exfalso; eapply Hno); try (by right; right); [left|right; left]; (split; [done|]); lia.
Qed.

Lemma stuck_recv s ts r :
  stuck (send_proc update_count) (recv_loop total consume) (Sys s ts r) →
  recv_loop total consume s r ≠ Bad →
  (r_pc r = RWaitFull ∧ sem_full s <= 0) ∨ (r_pc r = RWaitMutex ∧ sem_mutex s <= 0) ∨ r_pc r = RDone.
Proof.
  intros Hst Hb.
  assert (∀ s' t' e, recv_loop total consume s r ≠ Go (s', t', e)) as Hno.
  { intros s' t' e E. eapply Hst. by eapply step_recv. }
  destruct r as [[] i item l]; unfold recv_loop in *; cbn [r_pc r_i r_item r_list] in *; repeat case_match; try done;
    try (by exfalso; eapply Hno); try (by right; right); [left|right; left]; (split; [done|]); lia.
Qed.

(** A system that cannot run has a free mutex. *)
Lemma stuck_free x tr :
  inv x tr → stuck (send_proc update_count) (recv_loop total consume) x → sem_mutex (y_shared x) = 1.
Proof.
  destruct x as [s ts r]. intros [Hc Hb _ _ _ _ _] Hst. cbn [y_shared y_senders y_recv] in *.
  destruct (ci_mutex _ _ _ _ _ Hc) as [Hm Hsum].
  assert (∀ t, 0 <= s_inside t <= 1) as Hin by (intros [[] ?]; cbn; lia).
  pose proof (zsum_nonneg s_inside ts (λ t, proj1 (Hin t))).
  assert (r_inside r = 0) as Hr.
  { destruct (stuck_recv _ _ _ Hst (recv_not_bad _ _ _ _ _ Hb)) as [[E _]|[[E _]|E]]; unfold r_inside; by rewrite E. }
  destruct (decide (0 < zsum s_inside ts)) as [Hpos|]; [|lia].
  apply zsum_pos in Hpos as (k & t & Hk & Ht). exfalso.
  destruct (stuck_send _ _ _ _ _ Hst Hk (send_not_bad _ _ _ _ _ _ Hb)) as [[E _]|[[E _]|E]];
    unfold s_inside in Ht; rewrite E in Ht; lia.
Qed.

(** What cannot run has ended, or waits with nothing to take or no room. *)
Lemma stuck_cases s ts r tr :
  inv (Sys s ts r) tr → stuck (send_proc update_count) (recv_loop total consume) (Sys s ts r) →
  Forall (λ t, s_pc t = SWaitEmpty ∧ sem_empty s = 0 ∨ s_pc t = SDone) ts ∧
  (r_pc r = RWaitFull ∧ sem_full s = 0 ∨ r_pc r = RDone) ∧
  sem_full s = Z.of_nat (length (puts tr)) - Z.of_nat (length (gots tr)) ∧
  sem_full s + sem_empty s = BUFFER_SIZE.
Proof.
  intros Hinv Hst. pose proof (stuck_free _ _ Hinv Hst) as Hm. cbn [y_shared] in Hm.
  destruct Hinv as [Hc Hb _ _ _ _ _]. cbn [y_shared y_senders y_recv] in *.
  assert (Forall (λ t, s_pc t = SWaitEmpty ∧ sem_empty s = 0 ∨ s_pc t = SDone) ts) as Hts.
  { apply Forall_lookup_2. intros k t Hk. pose proof (ci_empty _ _ _ _ _ Hc).
    destruct (stuck_send _ _ _ _ _ Hst Hk (send_not_bad _ _ _ _ _ _ Hb)) as [[E ?]|[[E ?]|E]]; auto with lia. }
  assert (r_pc r = RWaitFull ∧ sem_full s = 0 ∨ r_pc r = RDone) as Hr.
  { pose proof (ci_full _ _ _ _ _ Hc).
    destruct (stuck_recv _ _ _ Hst (recv_not_bad _ _ _ _ _ Hb)) as [[E ?]|[[E ?]|E]]; auto with lia. }
  assert (∀ f, (∀ i, f (Sender SWaitEmpty i) = 0) → (∀ i, f (Sender SDone i) = 0) → zsum f ts = 0) as Hz.
  { intros f Hf1 Hf2. rewrite (zsum_const f 0); [lia|]. apply (Forall_impl _ _ _ Hts).
    intros [pc i] [[E _]|E]; cbn [s_pc] in E; subst pc; auto. }
  destruct (ci_full _ _ _ _ _ Hc) as [_ Hf]. destruct (ci_empty _ _ _ _ _ Hc) as [_ He].
  rewrite (Hz s_filled) in Hf by done. rewrite (Hz s_reserved) in He by done.
  assert (r_reserved r = 0 ∧ r_taken r = 0) as [Hr1 Hr2].
  { unfold r_reserved, r_taken. by destruct Hr as [[-> _]| ->]. }
  split_and!; [done|done|lia|lia].
Qed.

Lemma clients_put x tr :
  0 <= update_count → inv x tr → Z.of_nat (length (puts tr)) <= Z.of_nat (length (y_senders x)) * update_count.
Proof.
  intros Hu [Hc _ Hs _ _ _ _]. rewrite (ci_put _ _ _ _ _ Hc). by apply zsum_bound, s_put_bound.
Qed.

(** With as many numbers to take as to put, a system that cannot run has ended. *)
Lemma stuck_ended s ts r tr :
  0 <= update_count → total = Z.of_nat (length ts) * update_count → inv (Sys s ts r) tr →
  stuck (send_proc update_count) (recv_loop total consume) (Sys s ts r) →
  Forall (λ t, s_pc t = SDone ∧ s_i t = update_count) ts ∧ r_pc r = RDone ∧
  gots tr = puts tr ∧ Z.of_nat (length (gots tr)) = total.
Proof.
  intros Hu Htot Hinv Hst. pose proof BUFFER_SIZE_pos as HB.
  destruct (stuck_cases _ _ _ _ Hinv Hst) as (Hts & Hr & Hfull & Hsum).
  pose proof (clients_put _ _ Hu Hinv) as Hput. destruct Hinv as [Hc _ Hs Hrok Hf _ _].
  cbn [y_shared y_senders y_recv] in *. pose proof (ci_got _ _ _ _ _ Hc) as Hgot.
  assert (0 <= total) as Ht0 by lia.
  assert (sem_full s = 0 ∨ Z.of_nat (length (gots tr)) = total ∧ r_pc r = RDone) as Hcase.
  { destruct Hr as [[_ ?]|E]; [by left|right]. split; [|done]. revert Hgot Hrok. unfold r_got, r_taken, receiver_ok. rewrite E. lia. }
  assert (sem_full s = 0) as Hf0 by (destruct Hcase as [?|[? _]]; destruct (ci_full _ _ _ _ _ Hc); lia).
  assert (Forall (λ t, s_pc t = SDone ∧ s_i t = update_count) ts) as Hdone.
  { apply (Forall_impl _ _ _ (proj2 (Forall_and _ _) (conj Hts Hs))).
    intros t [[[_ ?]|E] Hok]; [lia|]. split; [done|]. unfold sender_ok in Hok. rewrite E in Hok. lia. }
  assert (Z.of_nat (length (puts tr)) = total) as Hw.
  { rewrite (ci_put _ _ _ _ _ Hc), Htot. apply zsum_const, (Forall_impl _ _ _ Hdone).
    intros t [E1 E2]. unfold s_put, s_filled. rewrite E1, E2. lia. }
  assert (gots tr = puts tr) as Hsame by (rewrite Hf; apply take_ge; lia).
  split_and!; [done| |done|lia].
  destruct Hr as [[E _]|E]; [|done]. exfalso. revert Hgot Hrok. unfold r_got, r_taken, receiver_ok. rewrite E. lia.
Qed.

End spec.

(** ** Properties *)

Section properties.
Context (update_count total : Z) (consume : Z → Z).

(** C13. In every state that any number of clients and the server reach, in any
    order of their statements, at most one process is between [sem_wait] and
    [sem_post] of the mutex, at most [BUFFER_SIZE] numbers are in the buffer, [in]
    and [out] are inside it, [count] is the number of numbers in it when the
    mutex is free, and no process accesses memory out of the buffer next. *)
Theorem shared_ipc_safe m n tr x :
  runs (send_proc update_count) (recv_loop total consume) m (start n) tr x →
  zsum s_inside (y_senders x) + r_inside (y_recv x) <= 1 ∧
  0 <= Z.of_nat (length (puts tr)) - Z.of_nat (length (gots tr)) <= BUFFER_SIZE ∧
  0 <= sh_in (y_shared x) < BUFFER_SIZE ∧ 0 <= sh_out (y_shared x) < BUFFER_SIZE ∧
  (sem_mutex (y_shared x) = 1 → sh_count (y_shared x) = Z.of_nat (length (puts tr)) - Z.of_nat (length (gots tr))) ∧
  (∀ k t, y_senders x !! k = Some t → send_proc update_count (y_shared x) t ≠ Bad) ∧ recv_loop total consume (y_shared x) (y_recv x) ≠ Bad.
Proof.
  destruct x as [s ts r]. cbn [y_shared y_senders y_recv].
  intros [Hc Hb _ _ _ _ _]%inv_runs. cbn [y_shared y_senders y_recv] in *.
  destruct (ci_mutex _ _ _ _ _ Hc). destruct (buffered _ _ _ _ _ Hc) as [? _].
  split_and!; [lia|lia|lia|..].
  1,2: rewrite (bi_in _ _ _ _ _ Hb); apply mod_bounds.
  1,2: rewrite (bi_out _ _ _ _ _ Hb); apply mod_bounds.
  - intros Hm. rewrite (ci_count _ _ _ _ _ Hc).
    assert (∀ t, 0 <= s_count_behind t <= s_inside t) as Hle by (intros [[] ?]; cbn; lia).
    pose proof (zsum_le s_count_behind s_inside ts Hle).
    assert (0 <= r_count_behind r <= r_inside r) by (unfold r_count_behind, r_inside; destruct (r_pc r); lia).
    pose proof (zsum_nonneg s_inside ts). lia.
  - intros k t _. by eapply send_not_bad.
  - by eapply recv_not_bad.
Qed.

(** C14. The server gets the numbers in the order in which they were put, the
    numbers of each client are 0, 1, 2, ... in order, and what the server keeps is
    what [consume] makes of the numbers it took, in this order: in
    [exploration/shared_memory] the number, in [shared_ipc.c] always [update_size],
    whatever the number. *)
Theorem shared_ipc_fifo m n tr x :
  runs (send_proc update_count) (recv_loop total consume) m (start n) tr x →
  gots tr `prefix_of` puts tr ∧
  (∀ k t, y_senders x !! k = Some t → puts_of k tr = seqZ 0 (s_put t)) ∧
  r_list (y_recv x) = consume <$> take (Z.to_nat (r_i (y_recv x))) (gots tr).
Proof.
  destruct x as [s ts r]. cbn [y_shared y_senders y_recv].
  intros [_ _ _ _ Hf Ho [Hl _]]%inv_runs. cbn [y_shared y_senders y_recv] in *. split_and!; [|done|done].
  rewrite Hf. apply prefix_take.
Qed.

(** C15. When the server takes as many numbers as the clients put together, every
    run is shorter than a fixed number of statements, and one that cannot go on
    has come to its end: all clients have put all their numbers, the server has
    got all of them, and no process waits. *)
Theorem shared_ipc_terminates m n tr x :
  0 <= update_count → total = Z.of_nat n * update_count →
  runs (send_proc update_count) (recv_loop total consume) m (start n) tr x →
  Z.of_nat m <= Z.of_nat n * (8 * update_count + 1) + (9 * total + 2) ∧
  (stuck (send_proc update_count) (recv_loop total consume) x →
   Forall (λ t, s_pc t = SDone ∧ s_i t = update_count) (y_senders x) ∧ r_pc (y_recv x) = RDone ∧
   gots tr = puts tr ∧ Z.of_nat (length (gots tr)) = total).
Proof.
  destruct x as [s ts r]. cbn [y_shared y_senders y_recv].
  intros Hu Ht Hrun. destruct (progress_runs _ _ _ _ _ _ _ Hrun) as [Hm Hlen]. apply inv_runs in Hrun.
  cbn [y_senders] in Hlen. split; [|apply stuck_ended; [done|by rewrite Hlen|done]].
  destruct Hrun as [_ _ Hs Hr _ _ _]. cbn [y_senders y_recv] in *.
  rewrite <- Hm, <- Hlen. unfold progress. cbn [y_senders y_recv].
  pose proof (zsum_bound _ _ _ (s_steps_bound _ _ Hu Hs)). pose proof (r_steps_bound total r ltac:(lia) Hr). lia.
Qed.

(** When the server wants more numbers than the clients put, it never comes
    to its end. *)
Theorem shared_ipc_starves m n tr x :
  0 <= update_count → Z.of_nat n * update_count < total →
  runs (send_proc update_count) (recv_loop total consume) m (start n) tr x →
  r_pc (y_recv x) ≠ RRemove ∧ r_pc (y_recv x) ≠ RDone.
Proof.
  destruct x as [s ts r]. cbn [y_shared y_senders y_recv].
  intros Hu Ht Hrun. destruct (progress_runs _ _ _ _ _ _ _ Hrun) as [_ Hlen]. apply inv_runs in Hrun.
  pose proof (clients_put _ _ _ _ _ Hu Hrun) as Hput. destruct Hrun as [Hc _ _ Hr _ _ _].
  cbn [y_shared y_senders y_recv] in *. destruct (buffered _ _ _ _ _ Hc) as [Hw _]. pose proof (ci_got _ _ _ _ _ Hc) as Hgot.
  revert Hr Hgot. unfold receiver_ok, r_got, r_taken. destruct (r_pc r); try done; lia.
Qed.

End properties.

(** ** Runs of small programs *)

Lemma turn_step sendp recvp c x e y : turn sendp recvp c x = Some (e, y) → step sendp recvp x e y.
Proof.
  destruct x as [s ts r]. unfold turn. cbn [y_shared y_senders y_recv].
  destruct c as [k|]; intros E; repeat case_match; simplify_eq; [by eapply step_send|by apply step_recv].
Qed.

Lemma schedule_runs sendp recvp cs n tr x x0 m tr' y :
  runs sendp recvp n x0 tr x → schedule sendp recvp cs (n, tr, x) = (m, tr', y) → runs sendp recvp m x0 tr' y.
Proof.
  revert n tr x. induction cs as [|c cs IH]; intros n tr x Hr E; cbn in E; [by simplify_eq|].
  destruct (turn sendp recvp c x) as [[e z]|] eqn:Et; (eapply IH; [|exact E]); [|done].
  eapply runs_snoc; [done|]. by apply turn_step in Et.
Qed.

Definition ended {A} (o : outcome A) : bool := match o with Ended => true | _ => false end.

Lemma ended_stuck sendp recvp x :
  forallb (λ t, ended (sendp (y_shared x) t)) (y_senders x) && ended (recvp (y_shared x) (y_recv x)) = true →
  stuck sendp recvp x.
Proof.
  intros [Hts Hr]%andb_prop e y Hs. destruct Hs as [s ts r k t s' t' e' Hk E|s ts r s' r' e' E];
    cbn [y_shared y_senders y_recv] in *; [|by rewrite E in Hr].
  rewrite forallb_forall in Hts. specialize (Hts t ltac:(by eapply list_elem_of_In, list_elem_of_lookup_2)).
  by rewrite E in Hts.
Qed.

(** Two clients with two numbers each and their server, in turns. *)
Definition demo_turns (n : nat) : list (option nat) := concat (replicate n [Some 0%nat; Some 1%nat; None]).
Definition demo_state (n : nat) : nat * list event * system :=
  schedule (send_proc 2) (recv_proc 2 2 7) (demo_turns n) (0%nat, [], start 2).

Lemma demo_runs n :
  runs (send_proc 2) (recv_proc 2 2 7) (demo_state n).1.1 (start 2) (demo_state n).1.2 (demo_state n).2.
Proof.
  destruct (demo_state n) as [[m tr] y] eqn:E. cbn. eapply schedule_runs; [constructor|exact E].
Qed.

Lemma shared_ipc_safe_witness :
  map s_pc (y_senders (demo_state 4).2) = [SIn; SWaitMutex] ∧
  zsum s_inside (y_senders (demo_state 4).2) + r_inside (y_recv (demo_state 4).2) <= 1.
Proof. split; [vm_compute; reflexivity|]. exact (proj1 (shared_ipc_safe 2 4 (λ _, 7) _ 2 _ _ (demo_runs 4))). Defined.

Lemma shared_ipc_fifo_witness :
  (puts (demo_state 20).1.2, gots (demo_state 20).1.2) = ([0; 0; 1], [0]) ∧
  gots (demo_state 20).1.2 `prefix_of` puts (demo_state 20).1.2.
Proof.
  split; [vm_compute; reflexivity|]. exact (proj1 (shared_ipc_fifo 2 4 (λ _, 7) _ 2 _ _ (demo_runs 20))).
Defined.

(** After enough turns no process can run, and all numbers arrived. *)
Lemma demo_ended : stuck (send_proc 2) (recv_proc 2 2 7) (demo_state 50).2.
Proof. apply ended_stuck. vm_compute. reflexivity. Qed.

Lemma shared_ipc_terminates_witness :
  r_list (y_recv (demo_state 50).2) = [7; 7; 7; 7] ∧
  gots (demo_state 50).1.2 = puts (demo_state 50).1.2 ∧ Z.of_nat (length (gots (demo_state 50).1.2)) = 4.
Proof.
  split; [vm_compute; reflexivity|].
  exact (proj2 (proj2 (proj2 (shared_ipc_terminates 2 4 (λ _, 7) _ 2 _ _ ltac:(lia) ltac:(lia) (demo_runs 50)) demo_ended))).
Defined.

(** One client of the exploration puts 50000 numbers, its server wants 100000. *)
Lemma shared_ipc_starves_witness :
  ¬ ∃ m tr x, runs client_main server_main m (start 1) tr x ∧ r_pc (y_recv x) = RDone.
Proof.
  intros (m & tr & x & Hrun & Hd).
  exact (proj2 (shared_ipc_starves 50000 100000 (λ item, item) m 1 tr x ltac:(lia) ltac:(lia) Hrun) Hd).
Defined.
