(* ===== verification/Posix.v ===== *)
(** * Programs that call the operating system

    A process that talks to others through the operating system is an interaction
    tree: its events are computations on its memory, in the monad [M], and calls of
    the system, whose answer is an [int].  [run]: a run of one process alone, with the
    calls it made and the answers it got.  Trees are taken up to silent steps ([≈]), so that a
    loop of the code and its unfolding are the same program. *)

From S2P Require Import Prelude CMem CLogic.
From stdpp Require Import base numbers list strings gmap.
From ITree Require Import ITree ITreeFacts.
From Stdlib Require Import Lia Morphisms.
#[local] Open Scope Z_scope.

(** The calls of the system and of nanomsg.  Paths, addresses and options are the
    strings of the code; Those that read
    have the buffer and its length. *)
Inductive syscall :=
| Open (path : string) (flags : string)
| Close (fd : Z)
| Unlink (path : string)
| Read (fd : Z) (buf : ptr) (n : Z)
| Write (fd : Z) (buf : ptr) (n : Z)
| Send (fd : Z) (buf : ptr) (n : Z)
| Recv (fd : Z) (buf : ptr) (n : Z)
| Socket (family : string)
| Setsockopt (fd : Z) (opt : string)
| Bind (fd : Z) (addr : string)
| Connect (fd : Z) (addr : string)
| Listen (fd backlog : Z)
| Accept (fd : Z)
| Errno
| Usleep (n : Z)
| Nn_socket (protocol : string)
| Nn_bind (s : Z) (addr : string)
| Nn_connect (s : Z) (addr : string)
| Nn_send (s : Z) (buf : ptr) (n : Z)
| Nn_recv (s : Z) (buf : ptr) (n : Z)
| Nn_errno
| Nn_shutdown (s how : Z)
| Mq_open (name : string) (flags : string)
| Mq_send (mq : Z) (buf : ptr) (n : Z)
| Mq_receive (mq : Z) (buf : ptr) (n : Z)
| Mq_close (mq : Z)
| Mq_unlink (name : string)
| Pthread_create (fn : string) (arg : Z)
| Pthread_join (thread : Z).

(** What a program does: it computes on its memory, or calls the system. *)
Variant ioE : Type → Type :=
| Mem {A : Type} (c : M A) : ioE A
| Sys (e : syscall) : ioE Z.

Definition io (A : Type) : Type := itree ioE A.

Definition mem {A} (c : M A) : io A := ITree.trigger (Mem c).
Definition sys (e : syscall) : io Z := ITree.trigger (Sys e).
Definition done_with {A} (a : A) : io A := Ret a.

Declare Scope io_scope.
Delimit Scope io_scope with io.
Bind Scope io_scope with io.
Bind Scope ts_scope with M.
Arguments mem {A} c%_ts.
Notation "x <- c ;; k" := (ITree.bind c (λ x, k))
  (at level 100, c at next level, right associativity) : io_scope.
Notation "c ;;; k" := (ITree.bind c (λ _, k))
  (at level 100, right associativity) : io_scope.
#[local] Open Scope io_scope.

(** [for (int i = lo; i < lo + n; i++)], with a variable [s] that the body changes. *)
Fixpoint for_each {S} (n : nat) (lo : Z) (s : S) (body : Z → S → io S) : io S :=
  match n with
  | O => done_with s
  | Datatypes.S n' => s' <- body lo s;; for_each n' (lo + 1) s' body
  end.

(** [while (cond) body]. *)
Definition while {S} (cond : S → bool) (body : S → io S) (s : S) : io S :=
  ITree.iter (λ s, if cond s then s' <- body s;; done_with (inl s') else done_with (inr s)) s.

(** A loop over the counter alone that the body can leave with an answer. *)
Fixpoint for_until {A} (n : nat) (lo : Z) (body : Z → io (option A)) : io (option A) :=
  match n with
  | O => done_with None
  | Datatypes.S n' =>
      r <- body lo;;
      match r with Some a => done_with (Some a) | None => for_until n' (lo + 1) body end
  end.

(** ** Loops, one turn at a time *)

Lemma while_unfold {S} (cond : S → bool) (body : S → io S) s :
  while cond body s ≈ (if cond s then s' <- body s;; while cond body s' else done_with s).
Proof.
  unfold while. rewrite unfold_iter. destruct (cond s).
  - rewrite Eqit.bind_bind. apply eutt_eq_bind. intros s'. unfold done_with.
    rewrite Eqit.bind_ret_l, tau_eutt. reflexivity.
  - unfold done_with. rewrite Eqit.bind_ret_l. reflexivity.
Qed.

Lemma bind_mem {A B} (c : M A) (k : A → io B) : (x <- mem c;; k x) ≈ Vis (Mem c) k.
Proof. unfold mem. rewrite bind_trigger. reflexivity. Qed.

Lemma bind_sys {B} (e : syscall) (k : Z → io B) : (x <- sys e;; k x) ≈ Vis (Sys e) k.
Proof. unfold sys. rewrite bind_trigger. reflexivity. Qed.

Lemma bind_done {A B} (a : A) (k : A → io B) : (x <- done_with a;; k x) ≈ k a.
Proof. unfold done_with. rewrite Eqit.bind_ret_l. reflexivity. Qed.

(** ** What a program does next is determined *)

(** The computation, or the call, of an event. *)
Definition ev_mem {A} (e : ioE A) : option (M A) :=
  match e in ioE A return option (M A) with Mem c => Some c | Sys _ => None end.
Definition ev_call {A} (e : ioE A) : option syscall := match e with Mem _ => None | Sys e => Some e end.


Lemma vis_inv {A B R} (e : ioE A) (f : ioE B) (k : A → io R) (h : B → io R) :
  Vis e k ≈ Vis f h →
  ∃ E : A = B, eq_rect A ioE e B E = f ∧ ∀ a, k a ≈ h (eq_rect A (λ T, T) a B E).
Proof.
  intros (E & He & Hk)%eqit_inv_Vis_weak. exists E. destruct E. cbn in *. by split.
Qed.

Lemma sys_inv {R} e f (k h : Z → io R) : Vis (Sys e) k ≈ Vis (Sys f) h → e = f ∧ ∀ a, k a ≈ h a.
Proof.
  intros (E & He & Hk)%vis_inv. rewrite (Eqdep.EqdepTheory.UIP_refl _ _ E) in He, Hk. cbn in He, Hk. split; [|done].
  assert (ev_call (Sys e) = ev_call (Sys f)) as [= ->] by by rewrite He. done.
Qed.

Lemma mem_inv {A B R} (c : M A) (d : M B) (k : A → io R) h :
  Vis (Mem c) k ≈ Vis (Mem d) h → ∃ E : A = B, eq_rect A M c B E = d ∧ ∀ a, k a ≈ h (eq_rect A (λ T, T) a B E).
Proof.
  intros (E & He & Hk)%vis_inv. exists E. destruct E. cbn in *. split; [|done].
  assert (ev_mem (Mem c) = ev_mem (Mem d)) as [= ->] by by rewrite He. done.
Qed.

Lemma mem_sys {A R} (c : M A) e (k : A → io R) h : Vis (Mem c) k ≈ Vis (Sys e) h → False.
Proof.
  intros (E & He & _)%vis_inv.
  assert (∀ B (E : A = B), ev_call (eq_rect A ioE (Mem c) B E) = None) as H by by intros B [].
  specialize (H _ E). by rewrite He in H.
Qed.

Lemma ret_vis {A R} (e : ioE A) (k : A → io R) (r : R) : done_with r ≈ Vis e k → False.
Proof. intros H. by apply eqit_inv in H. Qed.

Lemma ret_inv {R} (a b : R) : done_with a ≈ (done_with b : io R) → a = b.
Proof. intros H. by apply eqit_inv in H. Qed.

(** A program that calls the system or computes before it is over. *)
Definition active {A} (t : io A) : Prop := ∀ a, ¬ t ≈ done_with a.

Lemma active_vis {A B} (e : ioE A) (k : A → io B) t : t ≈ Vis e k → active t.
Proof. intros Ht a Ha. rewrite Ht in Ha. symmetry in Ha. by eapply ret_vis. Qed.

Lemma active_bind {A B} (t : io A) (k : A → io B) : active t → active (x <- t;; k x).
Proof. intros Ht b (a & Ha & _)%eutt_inv_bind_ret. by apply (Ht a). Qed.

Lemma active_mem {A} (c : M A) : active (mem c).
Proof. intros a H. symmetry in H. by apply ret_vis in H. Qed.

Lemma active_sys e : active (sys e).
Proof. intros a H. symmetry in H. by apply ret_vis in H. Qed.

#[export] Hint Resolve active_bind active_mem active_sys : active.

(** ** Runs of one process

    The environment answers the calls with any number; what it reads for the
    process, no more than the answer says, is in the buffer. *)

Definition trace : Type := list (syscall * Z).

Definition answered (e : syscall) (r : Z) (p : Z) (w w' : world) : Prop :=
  match e with
  | Read _ buf n | Recv _ buf n | Nn_recv _ buf n | Mq_receive _ buf n => r <= n ∧ ∃ l, Z.of_nat (length l) = Z.max 0 r ∧ store buf l p w = Ok tt w'
  | _ => w' = w
  end.

Section runs.
Context (p : Z).

(** [run n t w tr w' a]: [t] ends with [a] after [n] events, with the calls and
    answers [tr]. *)
Inductive run {A} : nat → io A → world → trace → world → A → Prop :=
| run_ret t w a : t ≈ done_with a → run 0 t w [] w a
| run_mem n t {B} (c : M B) k w b w1 tr w' a :
    t ≈ Vis (Mem c) k → c p w = Ok b w1 → run n (k b) w1 tr w' a → run (S n) t w tr w' a
| run_sys n t e k w r w1 tr w' a :
    t ≈ Vis (Sys e) k → answered e r p w w1 → run n (k r) w1 tr w' a → run (S n) t w ((e, r) :: tr) w' a.

Lemma run_eutt {A} n (t u : io A) w tr w' a : t ≈ u → run n t w tr w' a → run n u w tr w' a.
Proof.
  intros E Hr. revert u E. induction Hr as [t w a Ht|n t B c k w b w1 tr w' a Ht Hc Hr _|n t e k w r w1 tr w' a Ht He Hr _]; intros u E.
  - apply run_ret. by rewrite <- E.
  - eapply run_mem; [by rewrite <- E|exact Hc|exact Hr].
  - eapply run_sys; [by rewrite <- E|exact He|exact Hr].
Qed.

#[global] Instance run_proper {A} n : Proper (eutt eq ==> eq ==> eq ==> eq ==> eq ==> iff) (@run A n).
Proof. intros t u E w ? <- tr ? <- w' ? <- a ? <-. split; apply run_eutt; [done|by symmetry]. Qed.

Lemma run_done {A} n (a b : A) w tr w' : run n (done_with a) w tr w' b → n = 0%nat ∧ tr = [] ∧ w' = w ∧ b = a.
Proof.
  intros Hr. inversion Hr as [t w0 c E|n0 t B c k w0 b0 w1 tr0 w2 c0 E|n0 t e k w0 r w1 tr0 w2 c0 E]; subst.
  - apply ret_inv in E as ->. done.
  - by apply ret_vis in E.
  - by apply ret_vis in E.
Qed.

Lemma run_vis_mem {A B} n (c : M B) (k : B → io A) w tr w' a :
  run n (Vis (Mem c) k) w tr w' a → ∃ m b w1, n = S m ∧ c p w = Ok b w1 ∧ run m (k b) w1 tr w' a.
Proof.
  intros Hr. inversion Hr as [t w0 a0 E|m t B' c' k' w0 b w1 tr0 w2 a0 E Hc Hk|m t e k' w0 r w1 tr0 w2 a0 E Hc Hk]; subst.
  - symmetry in E. by apply ret_vis in E.
  - apply mem_inv in E as (<- & <- & Ek). by exists m, b, w1; rewrite Ek.
  - by apply mem_sys in E.
Qed.

Lemma run_vis_sys {A} n e (k : Z → io A) w tr w' a :
  run n (Vis (Sys e) k) w tr w' a → ∃ m r w1 tr1, n = S m ∧ tr = (e, r) :: tr1 ∧ answered e r p w w1 ∧ run m (k r) w1 tr1 w' a.
Proof.
  intros Hr. inversion Hr as [t w0 a0 E|m t B' c' k' w0 b w1 tr0 w2 a0 E Hc Hk|m t e' k' w0 r w1 tr0 w2 a0 E Hc Hk]; subst.
  - symmetry in E. by apply ret_vis in E.
  - symmetry in E. by apply mem_sys in E.
  - apply sys_inv in E as [<- Ek]. exists m, r, w1, tr0. by rewrite Ek.
Qed.

Lemma run_bind {A B} n (t : io A) (k : A → io B) w tr w' b :
  run n (x <- t;; k x) w tr w' b →
  ∃ n1 n2 tr1 tr2 w1 a, n = (n1 + n2)%nat ∧ tr = tr1 ++ tr2 ∧ run n1 t w tr1 w1 a ∧ run n2 (k a) w1 tr2 w' b.
Proof.
  intros Hr. remember (x <- t;; k x) as u eqn:Eu. assert (u ≈ (x <- t;; k x)) as E by by rewrite Eu. clear Eu.
  revert t E. induction Hr as [u w b Hb|n u B' c h w y w1 tr w' b Hu Hc Hr IH|n u e h w r w1 tr w' b Hu He Hr IH]; intros t E.
  - rewrite E in Hb. apply eutt_inv_bind_ret in Hb as (a & Ht & Hk).
    exists 0%nat, 0%nat, [], [], w, a. split_and!; [done|done|by apply run_ret|by apply run_ret].
  - rewrite E in Hu. apply eutt_inv_bind_vis in Hu as [(h' & Ht & Hh)|(a & Ht & Hk)].
    + destruct (IH (h' y)) as (n1 & n2 & tr1 & tr2 & w2 & a & -> & -> & H1 & H2); [by rewrite Hh|].
      exists (S n1), n2, tr1, tr2, w2, a. split_and!; [done|done|by eapply run_mem|done].
    + exists 0%nat, (S n), [], tr, w, a. split_and!; [done|done|by apply run_ret|by eapply run_mem].
  - rewrite E in Hu. apply eutt_inv_bind_vis in Hu as [(h' & Ht & Hh)|(a & Ht & Hk)].
    + destruct (IH (h' r)) as (n1 & n2 & tr1 & tr2 & w2 & a & -> & -> & H1 & H2); [by rewrite Hh|].
      exists (S n1), n2, ((e, r) :: tr1), tr2, w2, a. split_and!; [done|done|by eapply run_sys|done].
    + exists 0%nat, (S n), [], ((e, r) :: tr), w, a. split_and!; [done|done|by apply run_ret|by eapply run_sys].
Qed.

(** *** A program logic for runs

    [post t w Φ]: whenever [t] ends, [Φ] holds of its calls, the memory and the result. *)

Definition post {A} (t : io A) (w : world) (Φ : trace → world → A → Prop) : Prop :=
  ∀ n tr w' a, run n t w tr w' a → Φ tr w' a.

Lemma post_mono {A} (t : io A) w (Φ Ψ : trace → world → A → Prop) :
  post t w Φ → (∀ tr w' a, Φ tr w' a → Ψ tr w' a) → post t w Ψ.
Proof. intros Ht H n tr w' a Hr. by apply H, (Ht n). Qed.

Lemma post_done {A} (a : A) w (Φ : trace → world → A → Prop) : Φ [] w a → post (done_with a) w Φ.
Proof. intros H n tr w' b (_ & -> & -> & ->)%run_done. done. Qed.

Lemma post_bind {A B} (t : io A) (k : A → io B) w Φ :
  post t w (λ tr1 w1 a, post (k a) w1 (λ tr2 w2 b, Φ (tr1 ++ tr2) w2 b)) → post (x <- t;; k x) w Φ.
Proof.
  intros H n tr w' b (n1 & n2 & tr1 & tr2 & w1 & a & _ & -> & H1 & H2)%run_bind.
  by apply (H _ _ _ _ H1 _ _ _ _ H2).
Qed.

Lemma post_mem_any {A} (c : M A) w (Φ : trace → world → A → Prop) :
  (∀ a w', c p w = Ok a w' → Φ [] w' a) → post (mem c) w Φ.
Proof.
  intros H n tr w' b Hr. unfold mem, ITree.trigger in Hr.
  apply run_vis_mem in Hr as (m & a & w1 & _ & E & (_ & -> & -> & ->)%run_done). by apply H.
Qed.

Lemma post_mem {A} (c : M A) w (Φ : trace → world → A → Prop) :
  wp c p w (λ a w', Φ [] w' a) → post (mem c) w Φ.
Proof.
  intros (a & w1 & E & H)%wp_Ok. apply post_mem_any. intros a' w' E'. rewrite E in E'. by injection E' as <- <-.
Qed.

Lemma post_sys e w (Φ : trace → world → Z → Prop) :
  (∀ r w', answered e r p w w' → Φ [(e, r)] w' r) → post (sys e) w Φ.
Proof.
  intros H n tr w' b Hr. unfold sys, ITree.trigger in Hr.
  apply run_vis_sys in Hr as (m & r & w1 & tr1 & _ & -> & Ha & (_ & -> & -> & ->)%run_done). by apply H.
Qed.

(** A loop keeps an invariant of its variables, of the calls so far, and of the memory. *)
Lemma post_while {S} (I : S → trace → world → Prop) cond (body : S → io S) s w (Φ : trace → world → S → Prop) :
  (∀ s tr w, I s tr w → cond s = true → active (body s) ∧ post (body s) w (λ tr1 w1 s1, I s1 (tr ++ tr1) w1)) →
  I s [] w → (∀ s tr w, I s tr w → cond s = false → Φ tr w s) → post (while cond body s) w Φ.
Proof.
  intros Hbody Hs Hend n tr w' s' Hr.
  enough (∀ n s tr0 tr w w' s', I s tr0 w → run n (while cond body s) w tr w' s' → Φ (tr0 ++ tr) w' s') as H
    by exact (H n s [] tr w w' s' Hs Hr).
  clear Hs Hr s w tr w' s' n. intros n. induction (lt_wf n) as [n _ IH]. intros s tr0 tr w w' s' Hs Hr.
  rewrite while_unfold in Hr. destruct (cond s) eqn:Ec.
  - destruct (Hbody s tr0 w Hs Ec) as [Hact Hp].
    apply run_bind in Hr as (n1 & n2 & tr1 & tr2 & w1 & s1 & -> & -> & H1 & H2).
    rewrite app_assoc. apply (IH n2) with (s := s1) (w := w1); [|by apply (Hp _ _ _ _ H1)|done].
    destruct n1; [|lia]. exfalso. inversion H1; subst. by eapply Hact.
  - apply run_done in Hr as (_ & -> & -> & ->). rewrite app_nil_r. by apply Hend.
Qed.

Lemma post_for_each {S} (I : Z → S → trace → world → Prop) n lo (body : Z → S → io S) s w (Φ : trace → world → S → Prop) :
  (∀ i s tr w, lo <= i < lo + Z.of_nat n → I i s tr w → post (body i s) w (λ tr1 w1 s1, I (i + 1) s1 (tr ++ tr1) w1)) →
  I lo s [] w → (∀ s tr w, I (lo + Z.of_nat n) s tr w → Φ tr w s) → post (for_each n lo s body) w Φ.
Proof.
  intros Hbody Hs Hend. revert I Φ lo s w Hbody Hs Hend. induction n as [|n IH]; intros I Φ lo s w Hbody Hs Hend; cbn [for_each].
  - apply post_done, Hend. by rewrite Z.add_0_r.
  - apply post_bind. eapply post_mono; [apply (Hbody lo s [] w); [lia|done]|]. cbn beta. intros tr1 w1 s1 H1.
    apply (IH (λ i s tr w, I i s (tr1 ++ tr) w)).
    + intros i s2 tr w2 Hi H2. eapply post_mono; [apply (Hbody i s2 (tr1 ++ tr) w2); [lia|done]|].
      cbn beta. intros tr2 w3 s3. by rewrite app_assoc.
    + by rewrite app_nil_r.
    + intros s2 tr w2 H2. apply Hend. by replace (lo + Z.of_nat (Datatypes.S n)) with (lo + 1 + Z.of_nat n) by lia.
Qed.

(** *** Every call of a program has a property *)

Section only.
Context (P : syscall → Z → Prop).

Definition only {A} (t : io A) : Prop := ∀ w, post t w (λ tr _ _, Forall (λ er, P er.1 er.2) tr).

Lemma only_done {A} (a : A) : only (done_with a).
Proof. intros w. by apply post_done. Qed.

Lemma only_mem {A} (c : M A) : only (mem c).
Proof. intros w. by apply post_mem_any. Qed.

Lemma only_sys e : (∀ r, P e r) → only (sys e).
Proof. intros H w. apply post_sys. intros r w' _. by constructor. Qed.

Lemma only_bind {A B} (t : io A) (k : A → io B) : only t → (∀ a, only (k a)) → only (x <- t;; k x).
Proof.
  intros Ht Hk w. apply post_bind. eapply post_mono; [apply Ht|]. cbn beta. intros tr w1 a H1.
  eapply post_mono; [apply Hk|]. cbn beta. intros tr2 w2 b H2. by apply Forall_app.
Qed.

Lemma only_for_each {S} n lo (s : S) body : (∀ i s, only (body i s)) → only (for_each n lo s body).
Proof. intros H. revert lo s. induction n as [|n IH]; intros lo s; cbn [for_each]; [apply only_done|by apply only_bind]. Qed.

Lemma only_for_until {A} n lo (body : Z → io (option A)) : (∀ i, only (body i)) → only (for_until n lo body).
Proof.
  intros H. revert lo. induction n as [|n IH]; intros lo; cbn [for_until]; [apply only_done|].
  apply only_bind; [done|]. intros [a|]; [apply only_done|apply IH].
Qed.

Lemma only_while {S} cond (body : S → io S) s :
  (∀ s, cond s = true → active (body s)) → (∀ s, only (body s)) → only (while cond body s).
Proof.
  intros Ha Hb w. apply (post_while (λ _ tr _, Forall (λ er, P er.1 er.2) tr)); [|done..].
  intros s1 tr w1 Htr Hc. split; [by apply Ha|]. eapply post_mono; [apply Hb|]. cbn beta. intros. by apply Forall_app.
Qed.

End only.

(** *** Runs that exist

    [can t w rs Φ]: with the answers [rs] the program [t] ends, in [Φ]. *)

Definition can {A} (t : io A) (w : world) (rs : list Z) (Φ : world → A → Prop) : Prop :=
  ∃ n tr w' a, run n t w tr w' a ∧ tr.*2 = rs ∧ Φ w' a.

Lemma run_then {A B} n m (t : io A) (k : A → io B) w tr1 w1 a tr2 w2 b :
  run n t w tr1 w1 a → run m (k a) w1 tr2 w2 b → run (n + m) (x <- t;; k x) w (tr1 ++ tr2) w2 b.
Proof.
  intros Hr Hk. induction Hr as [u w a Hu|n u B' c h w y w1 tr w' a Hu Hc Hr IH|n u e h w r w1 tr w' a Hu He Hr IH].
  - eapply run_eutt; [|exact Hk]. rewrite Hu. symmetry. apply bind_done.
  - apply (run_mem _ _ c (λ y, x <- h y;; k x) w y w1); [|exact Hc|by apply IH]. rewrite Hu, bind_vis. reflexivity.
  - apply (run_sys _ _ e (λ r, x <- h r;; k x) w r w1); [|exact He|by apply IH]. rewrite Hu, bind_vis. reflexivity.
Qed.

Lemma can_eutt {A} (t u : io A) w rs Φ : t ≈ u → can u w rs Φ → can t w rs Φ.
Proof. intros E (n & tr & w' & a & Hr & H). exists n, tr, w', a. by rewrite E. Qed.

Lemma can_done {A} (a : A) w (Φ : world → A → Prop) : Φ w a → can (done_with a) w [] Φ.
Proof. intros H. exists 0%nat, [], w, a. split_and!; [by apply run_ret|done|done]. Qed.

Lemma can_bind {A B} (t : io A) (k : A → io B) w rs1 rs2 Φ :
  can t w rs1 (λ w1 a, can (k a) w1 rs2 Φ) → can (x <- t;; k x) w (rs1 ++ rs2) Φ.
Proof.
  intros (n & tr & w1 & a & Hr & <- & m & tr2 & w2 & b & Hr2 & <- & H).
  exists (n + m)%nat, (tr ++ tr2), w2, b. split; [by eapply run_then|]. by rewrite fmap_app.
Qed.

Lemma can_mem {A} (c : M A) w (Φ : world → A → Prop) : wp c p w (λ a w', Φ w' a) → can (mem c) w [] Φ.
Proof.
  intros (a & w1 & E & H)%wp_Ok. exists 1%nat, [], w1, a. split_and!; [|done|done].
  apply (run_mem _ _ c (λ x, done_with x) _ a w1); [reflexivity|exact E|by apply run_ret].
Qed.

Lemma can_sys e r w w' (Φ : world → Z → Prop) : answered e r p w w' → Φ w' r → can (sys e) w [r] Φ.
Proof.
  intros Ha H. exists 1%nat, [(e, r)], w', r. split_and!; [|done|done].
  apply (run_sys _ _ e (λ x, done_with x) _ r w'); [reflexivity|exact Ha|by apply run_ret].
Qed.

End runs.

(** ** Running a program on given answers *)

Section exec.
Context (p : Z).

(** The memory after a call, when what was read is zeros. *)
Definition fill (e : syscall) (r : Z) (w : world) : option world :=
  match e with
  | Read _ buf n | Recv _ buf n | Nn_recv _ buf n | Mq_receive _ buf n =>
      if r <=? n then match store buf (replicate (Z.to_nat r) (Byte 0)) p w with Ok _ w' => Some w' | _ => None end
      else None
  | _ => Some w
  end.

Fixpoint exec {A} (fuel : nat) (t : io A) (answers : list Z) (w : world) : option (trace * world * A) :=
  match observe t, fuel with
  | RetF a, _ => Some ([], w, a)
  | TauF t, S f => exec f t answers w
  | VisF e k, S f =>
      match e in ioE B return (B → io A) → option (trace * world * A) with
      | Mem c => λ k, match c p w with Ok b w1 => exec f (k b) answers w1 | _ => None end
      | Sys e => λ k,
          match answers with
          | r :: rs => w1 ← fill e r w; '(tr, w', a) ← exec f (k r) rs w1; Some ((e, r) :: tr, w', a)
          | [] => None
          end
      end k
  | _, _ => None
  end.

Lemma fill_answered e r w w' : fill e r w = Some w' → answered e r p w w'.
Proof.
  assert (∀ buf n, (if r <=? n then match store buf (replicate (Z.to_nat r) (Byte 0)) p w with Ok _ w' => Some w' | _ => None end
    else None) = Some w' → r <= n ∧ ∃ l, Z.of_nat (length l) = Z.max 0 r ∧ store buf l p w = Ok tt w') as H.
  { intros buf n. destruct (Z.leb_spec r n); [|done]. intros E. split; [done|]. exists (replicate (Z.to_nat r) (Byte 0)). split; [|destruct (store buf _ p w) as [[] ?|?|?|?]; congruence].
    rewrite length_replicate. lia. }
  unfold fill, answered. destruct e; first [apply H|by intros [= ->]].
Qed.

Lemma exec_run {A} fuel (t : io A) answers w tr w' a :
  exec fuel t answers w = Some (tr, w', a) → ∃ n, run p n t w tr w' a.
Proof.
  revert t answers w tr w' a. induction fuel as [|fuel IH]; intros t answers w tr w' a; cbn [exec];
    destruct (observe t) as [b|u|B e k] eqn:Et; try done.
  - intros [= <- <- <-]. exists 0%nat. apply run_ret. rewrite (itree_eta t), Et. reflexivity.
  - intros [= <- <- <-]. exists 0%nat. apply run_ret. rewrite (itree_eta t), Et. reflexivity.
  - intros (n & Hn)%IH. exists n. eapply run_eutt; [|exact Hn]. rewrite (itree_eta t), Et, tau_eutt. reflexivity.
  - assert (t ≈ Vis e k) as Ht by (rewrite (itree_eta t), Et; reflexivity). clear Et.
    destruct e as [B c|e].
    + destruct (c p w) as [b w1|?|?|?] eqn:Ec; try done. intros (n & Hn)%IH. exists (S n). by eapply run_mem.
    + destruct answers as [|r rs]; [done|]. destruct (fill e r w) as [w1|] eqn:Ef; [|done]. cbn [mbind option_bind].
      destruct (exec fuel (k r) rs w1) as [[[tr1 w2] a1]|] eqn:Ex; [|done]. cbn [mbind option_bind]. intros [= <- <- <-].
      destruct (IH _ _ _ _ _ _ Ex) as (n & Hn). exists (S n). eapply run_sys; [exact Ht|by apply fill_answered|exact Hn].
Qed.

End exec.
