(* ===== verification/Environment.v ===== *)
(** * A program and an environment that answers it

    [Posix.run] takes any answers.  Here the environment is a function: the answer
    of a call, and what it does to the memory, follow from a state of its own (the
    messages in a queue, what a peer has still to say); [None] when the call blocks
    for ever.  [lives]: the program comes to an end in that environment;
    [reaches]: the total-correctness logic of it. *)

From S2P Require Import Prelude CMem CLogic Posix.
From stdpp Require Import base numbers list strings gmap.
From ITree Require Import ITree ITreeFacts.
From Stdlib Require Import Lia Morphisms.
#[local] Open Scope Z_scope.
#[local] Open Scope io_scope.

Section environment.
Context {St : Type} (env : syscall → Z → world → St → option (Z * world * St)) (p : Z).

Inductive lives {A} : io A → world → St → world → St → A → Prop :=
| lives_ret t w s a : t ≈ done_with a → lives t w s w s a
| lives_mem t {B} (c : M B) k w s b w1 w' s' a :
    t ≈ Vis (Mem c) k → c p w = Ok b w1 → lives (k b) w1 s w' s' a → lives t w s w' s' a
| lives_sys t e k w s r w1 s1 w' s' a :
    t ≈ Vis (Sys e) k → env e p w s = Some (r, w1, s1) → lives (k r) w1 s1 w' s' a → lives t w s w' s' a.

Lemma lives_eutt {A} (t u : io A) w s w' s' a : t ≈ u → lives t w s w' s' a → lives u w s w' s' a.
Proof.
  intros E H. revert u E. destruct H as [t w s a Ht|t B c k w s b w1 w' s' a Ht Hc H|t e k w s r w1 s1 w' s' a Ht He H]; intros u E.
  - apply lives_ret. by rewrite <- E.
  - eapply lives_mem; [by rewrite <- E|exact Hc|exact H].
  - eapply lives_sys; [by rewrite <- E|exact He|exact H].
Qed.

#[global] Instance lives_proper {A} : Proper (eutt eq ==> eq ==> eq ==> eq ==> eq ==> eq ==> iff) (@lives A).
Proof. intros t u E w ? <- s ? <- w' ? <- s' ? <- a ? <-. split; apply lives_eutt; [done|by symmetry]. Qed.

(** There is one run at most. *)
Lemma lives_unique {A} (t u : io A) w s w1 s1 a w2 s2 b :
  lives t w s w1 s1 a → t ≈ u → lives u w s w2 s2 b → w1 = w2 ∧ s1 = s2 ∧ a = b.
Proof.
  intros H. revert u w2 s2 b. induction H as [t w s a Ht|t B c k w s x w1 w' s' a Ht Hc H IH|t e k w s r w1 s1 w' s' a Ht He H IH];
    intros u w2 s2 b E; rewrite E in Ht; clear E t; intros H2.
  - destruct H2 as [u w s b Hu|u B c k w s x w1 w' s' b Hu|u e k w s r w1 s1 w' s' b Hu]; rewrite Hu in Ht.
    + apply ret_inv in Ht as ->. done.
    + symmetry in Ht. by apply ret_vis in Ht.
    + symmetry in Ht. by apply ret_vis in Ht.
  - destruct H2 as [u w s b Hu|u B' c' k' w s x' w1' w2' s2' b Hu Hc' H'|u e k' w s r w1' s1 w2' s2' b Hu He H']; rewrite Hu in Ht.
    + by apply ret_vis in Ht.
    + apply mem_inv in Ht as (E & Ec & Ek). destruct E. cbn in Ec, Ek. subst c'. rewrite Hc in Hc'. injection Hc' as <- <-.
      eapply IH; [|exact H']. by rewrite Ek.
    + symmetry in Ht. by apply mem_sys in Ht.
  - destruct H2 as [u w s b Hu|u B' c' k' w s x' w1' w2' s2' b Hu Hc' H'|u e' k' w s r' w1' s1' w2' s2' b Hu He' H']; rewrite Hu in Ht.
    + by apply ret_vis in Ht.
    + by apply mem_sys in Ht.
    + apply sys_inv in Ht as [<- Ek]. rewrite He in He'. injection He' as <- <- <-. eapply IH; [|exact H']. by rewrite Ek.
Qed.

Lemma lives_then {A B} (t : io A) (k : A → io B) w s w1 s1 a w2 s2 b :
  lives t w s w1 s1 a → lives (k a) w1 s1 w2 s2 b → lives (x <- t;; k x) w s w2 s2 b.
Proof.
  intros H Hk. induction H as [t w s a Ht|t B' c h w s x w1 w' s' a Ht Hc H IH|t e h w s r w1 s1 w' s' a Ht He H IH].
  - eapply lives_eutt; [|exact Hk]. rewrite Ht. symmetry. apply bind_done.
  - apply (lives_mem _ c (λ y, x <- h y;; k x) w s x w1); [|exact Hc|by apply IH]. rewrite Ht, bind_vis. reflexivity.
  - apply (lives_sys _ e (λ r, x <- h r;; k x) w s r w1 s1); [|exact He|by apply IH]. rewrite Ht, bind_vis. reflexivity.
Qed.

(** What happens in an environment can happen with any. *)
Lemma lives_run {A} (t : io A) w s w' s' a :
  (∀ e w s r w1 s1, env e p w s = Some (r, w1, s1) → answered e r p w w1) →
  lives t w s w' s' a → ∃ n tr, run p n t w tr w' a.
Proof.
  intros Hs H. induction H as [t w s a Ht|t B c k w s b w1 w' s' a Ht Hc H (n & tr & IH)|t e k w s r w1 s1 w' s' a Ht He H (n & tr & IH)].
  - exists 0%nat, []. by apply run_ret.
  - exists (S n), tr. by eapply run_mem.
  - exists (S n), ((e, r) :: tr). eapply run_sys; [exact Ht|by eapply Hs|exact IH].
Qed.

(** ** The logic *)

Definition reaches {A} (t : io A) (w : world) (s : St) (Φ : world → St → A → Prop) : Prop :=
  ∃ w' s' a, lives t w s w' s' a ∧ Φ w' s' a.

Lemma reaches_mono {A} (t : io A) w s (Φ Ψ : world → St → A → Prop) :
  reaches t w s Φ → (∀ w' s' a, Φ w' s' a → Ψ w' s' a) → reaches t w s Ψ.
Proof. intros (w' & s' & a & Hl & H) Hm. exists w', s', a. auto. Qed.

Lemma reaches_eutt {A} (t u : io A) w s Φ : t ≈ u → reaches u w s Φ → reaches t w s Φ.
Proof. intros E (w' & s' & a & Hl & H). exists w', s', a. by rewrite E. Qed.

Lemma reaches_done {A} (a : A) w s (Φ : world → St → A → Prop) : Φ w s a → reaches (done_with a) w s Φ.
Proof. intros H. exists w, s, a. split; [by apply lives_ret|done]. Qed.

Lemma reaches_bind {A B} (t : io A) (k : A → io B) w s Φ :
  reaches t w s (λ w1 s1 a, reaches (k a) w1 s1 Φ) → reaches (x <- t;; k x) w s Φ.
Proof.
  intros (w1 & s1 & a & H1 & w2 & s2 & b & H2 & H). exists w2, s2, b. split; [by eapply lives_then|done].
Qed.

Lemma reaches_mem {A} (c : M A) w s (Φ : world → St → A → Prop) :
  wp c p w (λ a w', Φ w' s a) → reaches (mem c) w s Φ.
Proof.
  intros (a & w1 & E & H)%wp_Ok. exists w1, s, a. split; [|done].
  apply (lives_mem _ c (λ x, done_with x) _ _ a w1); [reflexivity|exact E|by apply lives_ret].
Qed.

Lemma reaches_mem_then {A B} (c : M A) (k : A → io B) w s Φ :
  wp c p w (λ a w', reaches (k a) w' s Φ) → reaches (a <- mem c;; k a) w s Φ.
Proof. intros H. by apply reaches_bind, reaches_mem. Qed.

Lemma reaches_sys e w s r w' s' (Φ : world → St → Z → Prop) :
  env e p w s = Some (r, w', s') → Φ w' s' r → reaches (sys e) w s Φ.
Proof.
  intros He H. exists w', s', r. split; [|done].
  apply (lives_sys _ e (λ x, done_with x) _ _ r w' s'); [reflexivity|exact He|by apply lives_ret].
Qed.

Lemma reaches_while {S} (cond : S → bool) (body : S → io S) x w s Φ :
  (if cond x then reaches (body x) w s (λ w1 s1 x1, reaches (while cond body x1) w1 s1 Φ) else Φ w s x) →
  reaches (while cond body x) w s Φ.
Proof.
  intros H. eapply reaches_eutt; [apply while_unfold|]. destruct (cond x); [by apply reaches_bind|by apply reaches_done].
Qed.

Lemma reaches_for_each {S} (I : Z → S → world → St → Prop) n lo (body : Z → S → io S) x w s (Φ : world → St → S → Prop) :
  (∀ i x w s, lo <= i < lo + Z.of_nat n → I i x w s → reaches (body i x) w s (λ w1 s1 x1, I (i + 1) x1 w1 s1)) →
  I lo x w s → (∀ x w s, I (lo + Z.of_nat n) x w s → Φ w s x) → reaches (for_each n lo x body) w s Φ.
Proof.
  intros Hb Hs He. revert lo x w s Hb Hs He. induction n as [|n IH]; intros lo x w s Hb Hs He; cbn [for_each].
  - apply reaches_done, He. by rewrite Z.add_0_r.
  - apply reaches_bind. eapply reaches_mono; [apply Hb; [lia|exact Hs]|]. cbn beta. intros w1 s1 x1 H1.
    apply IH; [|done|].
    + intros i y w2 s2 Hi. apply Hb. lia.
    + intros y w2 s2 H. apply He. by replace (lo + Z.of_nat (Datatypes.S n)) with (lo + 1 + Z.of_nat n) by lia.
Qed.

Lemma reaches_for_until {A} (I : Z → world → St → Prop) n lo (body : Z → io (option A)) w s (Φ : world → St → option A → Prop) :
  (∀ i w s, lo <= i < lo + Z.of_nat n → I i w s → reaches (body i) w s (λ w1 s1 r, r = None ∧ I (i + 1) w1 s1)) →
  I lo w s → (∀ w s, I (lo + Z.of_nat n) w s → Φ w s None) → reaches (for_until n lo body) w s Φ.
Proof.
  intros Hb Hs He. revert lo w s Hb Hs He. induction n as [|n IH]; intros lo w s Hb Hs He; cbn [for_until].
  - apply reaches_done, He. by rewrite Z.add_0_r.
  - apply reaches_bind. eapply reaches_mono; [apply Hb; [lia|exact Hs]|]. cbn beta. intros w1 s1 r [-> H1].
    apply IH; [|done|].
    + intros i w2 s2 Hi. apply Hb. lia.
    + intros w2 s2 H. apply He. by replace (lo + Z.of_nat (Datatypes.S n)) with (lo + 1 + Z.of_nat n) by lia.
Qed.

End environment.
