(* ===== verification/IpcPrograms.v ===== *)
(** * The benchmarks that send messages through the operating system

    [nano_benchmarking/ipc/pipe_ipc/pipe_ipc.c] and [pipe_ipc_single_pipe.c],
    [ipc/dns_ipc/dns_ipc.c], [tcp/socket_tcp/socket_tcp.c]: clients write one
    message per update, a server reads them and inserts a number into the linked
    list of [WeissList] for each.  [ipc/nano_ipc/nano_ipc.c], [tcp/nano_tcp/nano_tcp.c]
    and [inproc/nano_inproc/nano_inproc.c] do the same through nanomsg.

    Global variables with a descriptor are memory; the other globals are arguments,
    with [i] and [pos] the state of the loops.  What [strerror] and [%s] of the data
    print is left out. *)

From S2P Require Import Prelude CMem WeissList TestPrograms Posix.
From stdpp Require Import base numbers list strings gmap pretty.
From ITree Require Import ITree.
From Stdlib Require Import Ascii.
#[local] Open Scope Z_scope.
#[local] Open Scope ts_scope.
#[local] Open Scope io_scope.
Import WeissList.

(** [data = "data"; len = strlen(data);] *)
Definition message : string := "data".
Definition message_len : Z := 4.

(** The result of [main] when it gives up: a line of output, and -1. *)
Definition gives_up (text : string) : io Z := mem (printf text []);;; done_with (-1).

(** [argv[4][0]] *)
Definition mode_of (s : string) : Ascii.ascii := match s with String c _ => c | EmptyString => Ascii.zero end.

(** Lines 84 to 93 of [pipe_ipc.c], and the same lines of the others: the arguments. *)
Definition with_args (argv : list string) (k : Z → Z → Z → Ascii.ascii → string → io Z) : io Z :=
  match argv with
  | a1 :: a2 :: a3 :: a4 :: a5 :: _ =>
      thread_count <- mem (atoi a1);;
      update_count <- mem (atoi a2);;
      update_size <- mem (atoi a3);;
      k thread_count update_count update_size (mode_of a4) a5
  | _ => mem fault
  end.

Definition is_server (execution_mode : Ascii.ascii) : bool := Ascii.eqb execution_mode "s"%char.

Definition check_mode (execution_mode : Ascii.ascii) (k : io Z) : io Z :=
  if Ascii.eqb execution_mode "s"%char || Ascii.eqb execution_mode "c"%char then k
  else gives_up "Execution mode need to be s or c".

(** [list = MakeEmpty(NULL); pos = Header(list);] *)
Definition make_list : M (ptr * ptr) := (list <- MakeEmpty 0 Null;; pos <- Header list;; ret (list, pos))%ts.

Section programs.
Context (thread_count update_count update_size : Z) (list data : ptr) (len : Z).

(** The messages that the server waits for. *)
Definition total_count : Z := s32 (thread_count * update_count).

(** [Insert(update_size, list, pos); pos = Advance(pos);] *)
Definition insert_next (pos : ptr) : M ptr := (Insert update_size list pos;;; Advance pos)%ts.

(** ** Pipes *)

(** [fd] is [&fd[0]] in [pipe_ipc.c]. *)
Definition pipe_send_proc (fd : ptr) : io unit :=
  for_each (Z.to_nat update_count) 0 tt (λ i _,
    fd0 <- mem (ld_i32 fd);;
    ws <- sys (Write fd0 data len);;
    mem (if ws <? 0 then printf "Thread sending error %s" [] else ret tt)).

(** What the server does with the result of a [read]. *)
Definition pipe_received (rs : Z) (st : Z * ptr) : M (Z * ptr) :=
  let '(i, pos) := st in
  if 0 <? rs then (pos <- insert_next pos;; ret (s32 (i + 1), pos))%ts else ret (i, pos).

(** [while (i < thread_count*update_count) for (int t = 0; t < thread_count; t++)]:
    the loop of [pipe_ipc.c], [dns_ipc.c] and [socket_tcp.c], which differ in where
    the descriptors are and in what they do with the result. *)
Definition recv_loop (fds : ptr) (received : Z → Z * ptr → M (Z * ptr)) (buf : ptr) (st : Z * ptr) : io (Z * ptr) :=
  while (λ st, st.1 <? total_count) (λ st,
    for_each (Z.to_nat thread_count) 0 st (λ t st,
      fd <- mem (ld_i32 (idx_i32 fds t));;
      rs <- sys (Read fd buf len);;
      mem (received rs st))) st.

Definition pipe_recv_proc (fds pos : ptr) : io unit :=
  buf <- mem (malloc (len + 1));;
  st <- recv_loop fds pipe_received buf (0, pos);;
  mem (free buf).

(** ** One pipe for all clients *)

Definition single_send_proc (fd : ptr) : io unit :=
  for_each (Z.to_nat update_count) 0 tt (λ i _,
    f <- mem (ld_i32 fd);;
    ws <- sys (Write f data len);;
    mem (printf "Has send, ws=%d i=%d" [AInt ws; AInt i])).

Definition single_received (rs : Z) (st : Z * ptr) : M (Z * ptr) :=
  let '(i, pos) := st in
  if 0 <? rs then
    (printf "Thread received, rs=%d i=%d" [AInt rs; AInt i];;;
     pos <- insert_next pos;; ret (s32 (i + 1), pos))%ts
  else if i <? 0 then (printf "Nothign received %d" [];;; ret (i, pos))%ts
  else ret (i, pos).

Definition single_recv_proc (fd pos : ptr) : io unit :=
  buf <- mem (malloc (len + 1));;
  st <- while (λ st, st.1 <? total_count) (λ st,
    f <- mem (ld_i32 fd);;
    rs <- sys (Read f buf len);;
    mem (single_received rs st)) (0, pos);;
  mem (free buf).

(** ** Sockets, [dns_ipc.c] and [socket_tcp.c] *)

Definition socket_send_proc (sc : ptr) : io unit :=
  for_each (Z.to_nat update_count) 0 tt (λ i _,
    s <- mem (ld_i32 sc);;
    e <- sys (Write s data len);;
    mem (if e <=? 0 then printf "Thread sending error %d" [AInt e] else ret tt)).

Definition socket_received (e : Z) (st : Z * ptr) : M (Z * ptr) :=
  ((if e <=? 0 then printf "Thread receiving error" [] else ret tt);;;
   pipe_received e st)%ts.

(** The first loop of [recv_proc]: wait for all connections. *)
Definition accept_all (sc clients : ptr) : io (option unit) :=
  for_until (Z.to_nat thread_count) 0 (λ i,
    s <- mem (ld_i32 sc);;
    c <- sys (Accept s);;
    mem (st_i32 (idx_i32 clients i) c);;;
    if c <? 0 then mem (printf "Error accepting connexion" []);;; done_with (Some tt)
    else done_with None).

(** The rest of [recv_proc]. *)
Definition socket_serve (clients pos : ptr) : io unit :=
  buf <- mem (malloc len);;
  st <- recv_loop clients socket_received buf (0, pos);;
  mem (free buf).

Definition socket_recv_proc (sc clients pos : ptr) : io unit :=
  failed <- accept_all sc clients;;
  match failed with
  | Some _ => done_with tt
  | None => socket_serve clients pos
  end.

End programs.

(** ** The main programs over pipes and sockets

    What [main] does before and after the work.  A path or an address is the string
    that the code makes of the arguments. *)

Section mains.

(** [sprintf(final_fifo, "%s-%d", myfifo, i)], into an array of 100 characters. *)
Definition final_fifo (myfifo : string) (i : Z) : M string :=
  let name := myfifo +:+ "-" +:+ pretty i in
  if Nat.ltb (String.length name) 100 then ret name else fault.

(** The server opens one pipe per client, the client the pipe it is told. *)
Definition pipe_open (thread_count : Z) (server : bool) (myfifo : string) (fd : ptr) : io (option Z) :=
  if server then
    for_until (Z.to_nat thread_count) 0 (λ i,
      name <- mem (final_fifo myfifo i);;
      f <- sys (Open name "O_CREAT|O_RDONLY|O_TRUNC");;
      mem (st_i32 (idx_i32 fd i) f);;;
      if f <? 0 then mem (printf "Error opening server pipe %d:%s" []);;; done_with (Some (-1))
      else done_with None)
  else
    f <- sys (Open myfifo "O_WRONLY");;
    mem (st_i32 (idx_i32 fd 0) f);;;
    if f <? 0 then mem (printf "Error opening client pipe %d:%s" []);;; done_with (Some (-1))
    else done_with None.

Definition pipe_close (thread_count : Z) (server : bool) (myfifo : string) (fd : ptr) : io unit :=
  if server then
    for_each (Z.to_nat thread_count) 0 tt (λ i _, f <- mem (ld_i32 (idx_i32 fd i));; sys (Close f);;; done_with tt);;;
    sys (Unlink myfifo);;; done_with tt
  else f <- mem (ld_i32 (idx_i32 fd 0));; sys (Close f);;; done_with tt.

Definition pipe_main (argv : list string) : io Z :=
  with_args argv (λ thread_count update_count update_size mode myfifo,
    fd <- (if is_server mode then mem (malloc (thread_count * 4))
           else fd <- mem (malloc 4);; mem (st_i32 (idx_i32 fd 0) (-1));;; done_with fd);;
    check_mode mode (
      lp <- mem make_list;;
      failed <- pipe_open thread_count (is_server mode) myfifo fd;;
      match failed with
      | Some r => done_with r
      | None =>
          data <- mem (str_lit message);;
          (if is_server mode then pipe_recv_proc thread_count update_count update_size lp.1 message_len fd lp.2
           else pipe_send_proc update_count data message_len fd);;;
          pipe_close thread_count (is_server mode) myfifo fd;;;
          done_with 0
      end)).

(** [fd] is the address of the global variable. *)
Definition single_main (fd : ptr) (argv : list string) : io Z :=
  with_args argv (λ thread_count update_count update_size mode myfifo,
    check_mode mode (
      lp <- mem make_list;;
      f <- sys (if is_server mode then Open myfifo "O_CREAT|O_RDONLY|O_TRUNC" else Open myfifo "O_WRONLY");;
      mem (st_i32 fd f);;;
      if f <? 0 then
        gives_up (if is_server mode then "Error opening server pipe %d:%s" else "Error opening client pipe %d:%s")
      else (
        data <- mem (str_lit message);;
        (if is_server mode then single_recv_proc thread_count update_count update_size lp.1 message_len fd lp.2
         else single_send_proc update_count data message_len fd);;;
        g <- mem (ld_i32 fd);;
        sys (Close g);;;
        (if is_server mode then sys (Unlink myfifo);;; done_with tt else done_with tt);;;
        done_with 0))).

(** Lines 115 to 127 of [dns_ipc.c] and 125 to 137 of [socket_tcp.c]: bind or connect. *)
Definition socket_join (server : bool) (sc : ptr) (addr : string) (k : io Z) : io Z :=
  s <- mem (ld_i32 sc);;
  eid <- sys (if server then Bind s addr else Connect s addr);;
  if eid <? 0 then gives_up (if server then "Error on binding %s" else "Error on connect %s") else k.

(** The work of both: the server listens and receives, the client sends. *)
Definition socket_work (thread_count update_count update_size : Z) (server : bool) (sc : ptr) (lp : ptr * ptr)
    (after : io Z) : io Z :=
  data <- mem (str_lit message);;
  if server then
    clients <- mem (malloc (thread_count * 4));;
    s <- mem (ld_i32 sc);;
    r <- sys (Listen s thread_count);;
    if r <? 0 then gives_up "Listen error"
    else (socket_recv_proc thread_count update_count update_size lp.1 message_len sc clients lp.2;;; after)
  else (socket_send_proc update_count data message_len sc;;; after).

Definition socket_main (sc : ptr) (argv : list string) : io Z :=
  with_args argv (λ thread_count update_count update_size mode host,
    check_mode mode (
      lp <- mem make_list;;
      s <- sys (Socket "AF_INET, SOCK_STREAM");;
      mem (st_i32 sc s);;;
      if s <? 0 then gives_up (if is_server mode then "Error creating server socket" else "Error creating client socket")
      else (
      r <- sys (Setsockopt s "SOL_SOCKET, SO_REUSEADDR");;
      if r <? 0 then gives_up "Error setting SO_REUSEADDR" else
      socket_join (is_server mode) sc (host +:+ ":6060") (
      socket_work thread_count update_count update_size (is_server mode) sc lp (
      s <- mem (ld_i32 sc);; sys (Close s);;; done_with 0))))).

(** The path is cut to the 107 characters of [sun_path]. *)
Definition dns_main (sc : ptr) (argv : list string) : io Z :=
  with_args argv (λ thread_count update_count update_size mode path,
    check_mode mode (
      lp <- mem make_list;;
      s <- sys (Socket "AF_UNIX, SOCK_STREAM");;
      mem (st_i32 sc s);;;
      if s <? 0 then gives_up (if is_server mode then "Error creating server socket" else "Error creating client socket")
      else
      socket_join (is_server mode) sc (String.substring 0 107 path) (
      socket_work thread_count update_count update_size (is_server mode) sc lp (
      (if is_server mode then sys (Unlink path);;; done_with tt else done_with tt);;;
      sys (Usleep 200000);;;
      done_with 0)))).

End mains.

(** ** nanomsg: [nano_ipc.c] and [nano_tcp.c]

    The answers of nanomsg and of [errno] are those of the environment. *)

Definition EAGAIN : Z := 11.

Section nano.
Context (thread_count update_count update_size : Z) (list data : ptr) (len socket : Z).

(** A turn of the loop of [send_proc]: the new [i], or the loop is left. *)
Definition nano_send_turn (i : Z) : io (option Z) :=
  bsend <- sys (Nn_send socket data len);;
  if bsend <? 0 then
    errno <- sys Errno;;
    if errno =? EAGAIN then mem (printf "Cant send now, retrying" []);;; done_with (Some i)
    else mem (printf "Error : %d" [AInt errno]);;; done_with None
  else if bsend =? 0 then mem (printf "Connection lost" []);;; done_with None
  else done_with (Some (i + 1)).

(** [while (i < n)], with a body that can [break] ([None]). *)
Definition while_below {S} (count : S → Z) (n : Z) (body : S → io (option S)) (s : S) : io S :=
  st <- while (λ st : S * bool, negb st.2 && (count st.1 <? n)) (λ st,
    r <- body st.1;;
    done_with (match r with Some s' => (s', false) | None => (st.1, true) end)) (s, false);;
  done_with st.1.

Definition nano_send_proc : io unit :=
  i <- while_below (λ i, i) update_count nano_send_turn 0;; done_with tt.

(** A turn of the loop of [recv_proc].  [buf] is freed only after an insertion. *)
Definition nano_recv_turn (st : Z * ptr) : io (option (Z * ptr)) :=
  buf <- mem (malloc len);;
  brecv <- sys (Nn_recv socket buf len);;
  if brecv <? 0 then
    errno <- sys Errno;;
    if errno =? EAGAIN then mem (printf "Data not ready, waiting" []);;; done_with (Some st)
    else mem (printf "Error : %d" [AInt errno]);;; done_with None
  else if brecv =? 0 then mem (printf "Connection lost" []);;; done_with None
  else
    pos <- mem (insert_next update_size list st.2);;
    mem (free buf);;;
    done_with (Some (st.1 + 1, pos)).

Definition nano_recv_proc (pos : ptr) : io (Z * ptr) :=
  while_below fst (total_count thread_count update_count) nano_recv_turn (0, pos).

(** *** [nano_inproc.c]: the threads *)

Definition inproc_send_proc (x_void_ptr : ptr) : io unit :=
  for_each (Z.to_nat update_count) 0 tt (λ i _,
    socket_id <- mem (ld_i32 x_void_ptr);;
    e <- sys (Nn_send socket_id data len);;
    if e <? 0 then mem (printf "Thread sending error %d" [AInt e]) else done_with tt).

(** The insertion is not in the branch of a message that has arrived. *)
Definition inproc_recv_turn (buf : ptr) (st : Z * ptr) : io (Z * ptr) :=
  e <- sys (Nn_recv socket buf len);;
  (if e <? 0 then mem (printf "Thread receiving error %d" [AInt e]) else done_with tt);;;
  pos <- mem (insert_next update_size list st.2);;
  done_with (st.1 + 1, pos).

Definition inproc_recv_proc (pos : ptr) : io (Z * ptr) :=
  buf <- mem (malloc len);;
  st <- while (λ st, st.1 <? total_count thread_count update_count) (inproc_recv_turn buf) (0, pos);;
  mem (free buf);;;
  done_with st.

End nano.

(** [nano_ipc.c] sleeps before [nn_shutdown], [nano_tcp.c] does not. *)
Definition nano_main (sleep : bool) (argv : list string) : io Z :=
  with_args argv (λ thread_count update_count update_size mode addr,
    check_mode mode (
      lp <- mem make_list;;
      socket <- sys (Nn_socket (if is_server mode then "NN_PULL" else "NN_PUSH"));;
      if socket <? 0 then
        gives_up (if is_server mode then "Error creating server socket" else "Error creating client socket")
      else (
      eid <- sys (if is_server mode then Nn_bind socket addr else Nn_connect socket addr);;
      if eid <? 1 then
        (if is_server mode then e <- sys Nn_errno;; mem (printf "Error on binding %d" [AInt e]);;; done_with (-1)
         else gives_up "Error on connect")
      else (
      data <- mem (str_lit message);;
      (if is_server mode then
         nano_recv_proc thread_count update_count update_size lp.1 message_len socket lp.2;;; done_with tt
       else nano_send_proc update_count data message_len socket);;;
      (if sleep then sys (Usleep 200000);;; done_with tt else done_with tt);;;
      sys (Nn_shutdown socket eid);;;
      done_with 0)))).

Definition nano_ipc_main : list string → io Z := nano_main true.
Definition nano_tcp_main : list string → io Z := nano_main false.

(** [main] of [nano_inproc.c]; [client_socket] is a local array. *)
Definition SOCKET_ADDRESS : string := "inproc://fr_master1".

Definition inproc_sockets (thread_count : Z) (client_socket : ptr) : io (option Z) :=
  for_until (Z.to_nat thread_count) 0 (λ i,
    c <- sys (Nn_socket "NN_PUSH");;
    mem (st_i32 (idx_i32 client_socket i) c);;;
    if c <? 0 then mem (printf "Error creating sb socket" []);;; done_with (Some (-1)) else done_with None).

Definition inproc_connect (thread_count : Z) (client_socket : ptr) : io (option Z) :=
  for_until (Z.to_nat thread_count) 0 (λ i,
    c <- mem (ld_i32 (idx_i32 client_socket i));;
    r <- sys (Nn_connect c SOCKET_ADDRESS);;
    if r <? 1 then mem (printf "Error on connect" []);;; done_with (Some (-1)) else done_with None).

(** The threads: the server first, then the clients. *)
Definition inproc_start (thread_count : Z) : io (option Z) :=
  e <- sys (Pthread_create "recv_proc" 0);;
  if negb (e =? 0) then mem (printf "Error creating server thread" []);;; done_with (Some (-1)) else
  for_until (Z.to_nat thread_count) 0 (λ i,
    e <- sys (Pthread_create "send_proc" i);;
    if negb (e =? 0) then mem (printf "Error creating client %d thread" [AInt i]);;; done_with (Some (-1))
    else done_with None).

(** The wait for the clients. *)
Definition inproc_join (thread_count : Z) : io (option Z) :=
  for_until (Z.to_nat thread_count) 0 (λ i,
    e <- sys (Pthread_join i);;
    if negb (e =? 0) then mem (printf "Error joining" []);;; done_with (Some 0) else done_with None).

(** The steps of a [main] that can end it early. *)
Definition then_else (step : io (option Z)) (k : io Z) : io Z :=
  failed <- step;; match failed with Some r => done_with r | None => k end.

Definition inproc_args (argv : list string) (k : Z → Z → Z → io Z) : io Z :=
  match argv with
  | a1 :: a2 :: a3 :: _ =>
      thread_count <- mem (atoi a1);; update_count <- mem (atoi a2);; update_size <- mem (atoi a3);;
      k thread_count update_count update_size
  | _ => mem fault
  end.

Definition inproc_main (argv : list string) : io Z :=
  inproc_args argv (λ thread_count update_count update_size,
    client_socket <- mem (malloc (thread_count * 4));;
    lp <- mem make_list;;
    server_socket <- sys (Nn_socket "NN_PULL");;
    if server_socket <? 0 then gives_up "Error creating sa socket" else
    then_else (inproc_sockets thread_count client_socket) (
    b <- sys (Nn_bind server_socket SOCKET_ADDRESS);;
    if b <? 1 then gives_up "Error on binding" else
    then_else (inproc_connect thread_count client_socket) (
    data <- mem (str_lit message);;
    start <- mem clock_gettime;;
    then_else (inproc_start thread_count) (
    then_else (inproc_join thread_count) (
    sys (Pthread_join (-1));;;
    ended <- mem clock_gettime;;
    sys (Nn_shutdown server_socket 0);;;
    for_each (Z.to_nat thread_count) 0 tt (λ i _,
      c <- mem (ld_i32 (idx_i32 client_socket i));; sys (Nn_shutdown c 0);;; done_with tt);;;
    mem (free client_socket);;;
    done_with 0))))).
