(* ===== verification/IpcSpec.v ===== *)
(** * What the benchmarks over the operating system do alone

    One process, whatever its environment answers: the servers over nanomsg, and
    the ways in which the main programs fail. *)

From S2P Require Import Prelude CMem CLogic MessageSpec Demo SystemSpec DatabaseSpec WeissList TestPrograms TestProps Posix IpcPrograms.
From stdpp Require Import base numbers list strings gmap.
From ITree Require Import ITree ITreeFacts.
From Stdlib Require Import Lia Ascii.
#[local] Open Scope Z_scope.
Import WeissList.

(** ** The list under the steps of a server *)

Lemma list_at_ext F w w' p h l :
  ext F w w' → (∀ b i, b ∈ h :: l.*1 → ¬ F b i) → list_at w p h l → list_at w' p h l.
Proof.
  intros He HF (Hnd & Hv & Hl). split; [done|]. split; [by eapply valid_extF|by eapply linked_ext].
Qed.

Lemma list_at_free w p h l b : b ∉ h :: l.*1 → list_at w p h l → list_at (set_blocks (delete b) w) p h l.
Proof.
  intros Hb (Hnd & Hv & Hl). pose proof Hb as [Hbh _]%not_elem_of_cons. split; [done|].
  split; [by apply valid_free|by apply linked_free].
Qed.

Lemma list_at_old w p h l b : wok w → list_at w p h l → b ∈ h :: l.*1 → b < w_next w.
Proof. intros Hok Hl Hb. eapply valid_fresh; [exact Hok|by eapply list_at_valid]. Qed.

Lemma wok_free w b : wok w → wok (set_blocks (delete b) w).
Proof. intros Hok b' Hb'. cbn in *. rewrite lookup_delete. case_match; [done|by apply Hok]. Qed.

(** [Insert(update_size, list, pos); pos = Advance(pos);] at the end of the list. *)
Lemma insert_next_wp p w h l x (Q : ptr → world → Prop) :
  wok w → list_at w p h l → is_s32 x →
  (∀ w', wok w' → list_at w' p h (l ++ [(w_next w, x)]) → ext (range (last_of h l) (f_off Node_Next) 8) w w' →
     Q (Addr p (last_of h (l ++ [(w_next w, x)])) 0) w') →
  wp (insert_next x (Addr p h 0) (Addr p (last_of h l) 0)) p w Q.
Proof.
  intros Hok Hl Hx HQ. unfold insert_next. apply wp_bind. apply (Insert_wp _ _ _ _ []); [done|by rewrite app_nil_r|done|].
  intros w' Hl' He. pose proof Hl' as (_ & _ & Hlk%linked_link). cbn [linked] in Hlk. destruct Hlk as (Hnx & _).
  eapply wp_get_ptr; [rewrite Z.add_0_l; exact Hnx|].
  assert (last_of h (l ++ [(w_next w, x)]) = w_next w) as Ela by (unfold last_of; rewrite fmap_app; cbn [fmap list_fmap fst]; by rewrite last_snoc).
  rewrite Ela in HQ. apply HQ; [by eapply ext_wok|exact Hl'|exact He].
Qed.

Lemma linked_same w w' p h l : w_blocks w' = w_blocks w → linked w p h l → linked w' p h l.
Proof.
  intros E. revert h. induction l as [|[b x] l IH]; intros h; cbn [linked]; [by apply mb_same_blocks|].
  intros (? & ? & ? & ? & ?). split_and!; [by eapply mb_same_blocks|by eapply valid_same_blocks|done|by eapply mb_same_blocks|by apply IH].
Qed.

Lemma list_at_same w w' p h l : w_blocks w' = w_blocks w → list_at w p h l → list_at w' p h l.
Proof.
  intros E (Hnd & Hv & Hl). split; [done|]. split; [by eapply valid_same_blocks|by eapply linked_same].
Qed.

(** ** nanomsg *)

(** How many messages have arrived. *)
Definition arrival (er : syscall * Z) : bool :=
  match er.1 with Nn_recv _ _ _ => 0 <? er.2 | _ => false end.
Definition arrived (tr : trace) : nat := length (List.filter arrival tr).

Lemma arrived_app tr1 tr2 : arrived (tr1 ++ tr2) = (arrived tr1 + arrived tr2)%nat.
Proof. unfold arrived. by rewrite List.filter_app, length_app. Qed.

(** The server has inserted [update_size] into its list for every cell of [l]. *)
Definition full (p h update_size : Z) (w : world) (l : list (Z * Z)) : Prop :=
  wok w ∧ list_at w p h l ∧ l.*2 = replicate (length l) update_size.

Section full.
Context (p h update_size : Z).

Lemma full_ext F w w' l :
  ext F w w' → (∀ b i, b ∈ h :: l.*1 → ¬ F b i) → full p h update_size w l → full p h update_size w' l.
Proof. intros He HF (Hok & Hl & Hv). split; [by eapply ext_wok|]. split; [by eapply list_at_ext|done]. Qed.

Lemma full_out w l e : full p h update_size w l → full p h update_size (add_out e w) l.
Proof. intros (Hok & Hl & Hv). split; [done|]. split; [by apply (list_at_same w)|done]. Qed.

Lemma full_free w l b : b ∉ h :: l.*1 → full p h update_size w l → full p h update_size (set_blocks (delete b) w) l.
Proof. intros Hb (Hok & Hl & Hv). split; [by apply wok_free|]. split; [by apply list_at_free|done]. Qed.

Lemma full_old w l b : full p h update_size w l → b ∈ h :: l.*1 → b < w_next w.
Proof. intros (Hok & Hl & _). by apply (list_at_old _ p). Qed.

Lemma full_malloc w l len (Q : ptr → world → Prop) :
  full p h update_size w l → 0 <= len < 140737488355328 →
  (∀ w', full p h update_size w' l → valid w' (w_next w) 0 (Z.to_nat len) → w_next w ∉ h :: l.*1 → ext nowhere w w' →
     Q (Addr p (w_next w) 0) w') → wp (malloc len) p w Q.
Proof.
  intros Hf Hlen HQ. pose proof Hf as (Hok & _). apply wp_malloc; [done|].
  assert (ext nowhere w (add_block (Blk len Undef ∅) w)) as He by (apply ext_add_block; [done|apply ext_refl]).
  apply HQ; [eapply full_ext; [exact He|by intros ? ? _ []|done]| | |exact He].
  - apply add_block_valid_eq; [done|]. split; cbn; lia.
  - intros Hin. pose proof (full_old _ _ _ Hf Hin). lia.
Qed.

(** What a call reads for the process is written into its buffer. *)
Lemma full_store w w' l b bs :
  full p h update_size w l → b ∉ h :: l.*1 → store (Addr p b 0) bs p w = Ok tt w' →
  full p h update_size w' l ∧ ext (λ b' _, b' = b) w w'.
Proof.
  intros Hf Hb E. unfold store in E. rewrite decide_True in E by done.
  destruct (w_blocks w !! b); [|done]. case_decide; [|done]. injection E as <-.
  assert (ext (λ b' _, b' = b) w (upd w b 0 bs)) as He by (eapply ext_upd; [done|apply ext_refl]).
  split; [|done]. eapply full_ext; [exact He|by intros b' i Hb' ->|done].
Qed.

Lemma full_insert w l (Q : ptr → world → Prop) :
  full p h update_size w l → is_s32 update_size →
  (∀ w' c, full p h update_size w' (l ++ [(c, update_size)]) → c = w_next w →
     ext (range (last_of h l) (f_off Node_Next) 8) w w' → Q (Addr p (last_of h (l ++ [(c, update_size)])) 0) w') →
  wp (insert_next update_size (Addr p h 0) (Addr p (last_of h l) 0)) p w Q.
Proof.
  intros (Hok & Hl & Hv) Hs HQ. apply insert_next_wp; [done..|]. intros w' Hok' Hl' He. apply HQ; [|done|exact He].
  split; [done|]. split; [done|]. rewrite fmap_app, Hv, length_app, replicate_add. done.
Qed.

End full.

Section nano_spec.
Context (p thread_count update_count update_size h socket len : Z).
Context (Hsize : is_s32 update_size) (Hcount : is_s32 (thread_count * update_count)).
Context (Hlen : 0 <= len < 140737488355328).

(** The last answer was that the connection is lost, or an error that is not
    [EAGAIN]. *)
Definition gave_up (tr : trace) : Prop :=
  ∃ tr0 buf, tr = tr0 ++ [(Nn_recv socket buf len, 0)] ∨
    ∃ r errno, tr = tr0 ++ [(Nn_recv socket buf len, r); (Errno, errno)] ∧ r < 0 ∧ errno ≠ EAGAIN.

Lemma gave_up_app tr1 tr2 : gave_up tr2 → gave_up (tr1 ++ tr2).
Proof.
  intros (tr0 & buf & [->|(r & e & -> & ? & ?)]); exists (tr1 ++ tr0), buf; [left|right; exists r, e]; by rewrite app_assoc.
Qed.

(** The list is as long as the number of messages that have arrived. *)
Definition counted (st : Z * ptr) (tr : trace) (w : world) : Prop :=
  ∃ l, full p h update_size w l ∧ st = (Z.of_nat (length l), Addr p (last_of h l) 0) ∧ length l = arrived tr.

Lemma nano_recv_turn_post st tr w :
  counted st tr w →
  post p (nano_recv_turn update_size (Addr p h 0) len socket st) w (λ tr1 w1 r,
    match r with
    | Some st1 => counted st1 (tr ++ tr1) w1 ∧ st.1 <= st1.1 <= st.1 + 1
    | None => counted st (tr ++ tr1) w1 ∧ gave_up tr1
    end).
Proof.
  intros (l & Hf & -> & Hn). unfold nano_recv_turn. apply post_bind, post_mem.
  apply (full_malloc p h update_size w l); [done..|]. intros w1 Hf1 Hv1 Hb _.
  apply post_bind, post_sys. intros brecv w2 (Hle & bs & Hbs & Hst). cbn [app].
  destruct (full_store _ _ _ _ _ _ _ _ Hf1 Hb Hst) as [Hf2 He2].
  assert (∀ tr1, arrived tr1 = 0%nat → ∀ w, full p h update_size w l → counted (Z.of_nat (length l), Addr p (last_of h l) 0) (tr ++ tr1) w) as Hsame.
  { intros tr1 H1 w' Hf'. exists l. split_and!; [done|done|]. by rewrite arrived_app, H1, Nat.add_0_r. }
  destruct (Z.ltb_spec brecv 0); [|destruct (Z.eqb_spec brecv 0) as [->|]].
  - apply post_bind, post_sys. intros e w3 ->. cbn [app]. destruct (Z.eqb_spec e EAGAIN) as [->|He].
    + apply post_bind, post_mem. apply post_done. cbn [fst]. split; [|lia]. apply Hsame; [|by apply full_out].
      unfold arrived. cbn [List.filter arrival fst snd]. by rewrite (proj2 (Z.ltb_ge 0 brecv)) by lia.
    + apply post_bind, post_mem. apply post_done. split; [apply Hsame; [|by apply full_out]|].
      * unfold arrived. cbn [List.filter arrival fst snd]. by rewrite (proj2 (Z.ltb_ge 0 brecv)) by lia.
      * exists [], (Addr p (w_next w) 0). right. by exists brecv, e.
  - apply post_bind, post_mem. apply post_done. split; [apply Hsame; [done|by apply full_out]|].
    exists [], (Addr p (w_next w) 0). by left.
  - apply post_bind, post_mem. cbn [snd]. apply (full_insert p h update_size); [done..|]. intros w3 c Hf3 Hc He3. cbn [app].
    apply post_bind, post_mem. destruct (valid_block _ _ _ _ (valid_extF _ _ _ _ _ _ He3 (valid_extF _ _ _ _ _ _ He2 Hv1))) as [k Hk].
    eapply wp_free; [exact Hk|]. apply post_done. cbn [fst]. split; [|lia].
    exists (l ++ [(c, update_size)]). split; [|split].
    + apply full_free; [|done]. rewrite fmap_app. cbn [fmap list_fmap fst].
      pose proof (ext_next _ _ _ He2). pose proof (valid_fresh _ _ _ _ (proj1 Hf1) Hv1).
      rewrite elem_of_cons, elem_of_app, list_elem_of_singleton in *. intros [?|[?|?]]; [tauto|tauto|lia].
    + rewrite length_app. cbn [length]. f_equal. lia.
    + rewrite arrived_app, length_app, Hn. f_equal. unfold arrived. cbn [List.filter arrival fst snd app].
      by rewrite (proj2 (Z.ltb_lt 0 brecv)) by lia.
Qed.

(** C34. The server of [nano_ipc.c] and [nano_tcp.c], whatever nanomsg answers: when
    it ends, the list has one cell for every message that has arrived, never more
    than it waits for, and fewer only if its last answer was an error other than
    [EAGAIN] or that the connection is lost. *)
Theorem nano_recv_counts n w tr w' st :
  full p h update_size w [] →
  run p n (nano_recv_proc thread_count update_count update_size (Addr p h 0) len socket (Addr p h 0)) w tr w' st →
  ∃ l, list_at w' p h l ∧ l.*2 = replicate (arrived tr) update_size ∧
    st = (Z.of_nat (arrived tr), Addr p (last_of h l) 0) ∧
    Z.of_nat (arrived tr) <= Z.max 0 (thread_count * update_count) ∧
    (Z.of_nat (arrived tr) < thread_count * update_count → gave_up tr).
Proof.
  intros Hf Hr.
  enough (post p (nano_recv_proc thread_count update_count update_size (Addr p h 0) len socket (Addr p h 0)) w
    (λ tr w' st, counted st tr w' ∧ st.1 <= Z.max 0 (thread_count * update_count) ∧
       (st.1 < thread_count * update_count → gave_up tr))) as H.
  { destruct (H _ _ _ _ Hr) as ((l & (_ & Hl & Hv) & -> & Hn) & H1 & H2). cbn [fst] in *. rewrite <- Hn. by exists l. }
  unfold nano_recv_proc, while_below, total_count. rewrite s32_small by done. apply post_bind.
  apply (post_while p (λ (s : (Z * ptr) * bool) tr w, counted s.1 tr w ∧ s.1.1 <= Z.max 0 (thread_count * update_count) ∧
    (s.2 = true → gave_up tr))).
  - intros [st1 stop] tr1 w1 (Hc & Hle & _) [Hstop Hlt%Z.ltb_lt]%andb_true_iff. cbn [fst snd] in *. split.
    { unfold nano_recv_turn. auto with active. }
    apply post_bind. eapply post_mono; [by apply nano_recv_turn_post|]. cbn beta. intros tr2 w2 [st2|] H; apply post_done; cbn [fst snd].
    + destruct H as [H1 H2]. rewrite app_nil_r. split; [done|]. split; [lia|done].
    + destruct H as [H1 H2]. rewrite app_nil_r. split; [done|]. split; [done|]. intros _. by apply gave_up_app.
  - cbn [fst snd]. split; [|split; [lia|done]]. exists []. by split_and!.
  - intros [st1 stop] tr1 w1 (Hc & Hle & Hg) Hcond. apply post_done. cbn [fst snd] in *. rewrite app_nil_r.
    split; [done|]. split; [done|]. intros Hlt. apply Hg. destruct stop; [done|].
    apply andb_false_iff in Hcond as [?|?%Z.ltb_ge]; [done|lia].
Qed.

(** The thread of [nano_inproc.c]: its buffer is at block [b]. *)
Definition inserted (b : Z) (st : Z * ptr) (n : nat) (w : world) : Prop :=
  ∃ l, full p h update_size w l ∧ st = (Z.of_nat (length l), Addr p (last_of h l) 0) ∧ length l = n ∧
    valid w b 0 (Z.to_nat len) ∧ b ∉ h :: l.*1.

Lemma inserted_printf b st n w e : inserted b st n w → inserted b st n (add_out e w).
Proof. intros (l & Hf & H). exists l. split; [by apply full_out|exact H]. Qed.

Lemma inserted_store b st n w w' bs : inserted b st n w → store (Addr p b 0) bs p w = Ok tt w' → inserted b st n w'.
Proof.
  intros (l & Hf & -> & Hn & Hv & Hb) E. destruct (full_store _ _ _ _ _ _ _ _ Hf Hb E) as [Hf' He].
  exists l. split_and!; [done|done|done|by eapply valid_extF|done].
Qed.

Lemma inserted_next b st n w :
  inserted b st n w →
  wp (insert_next update_size (Addr p h 0) st.2) p w (λ pos w', inserted b (st.1 + 1, pos) (S n) w').
Proof.
  intros (l & Hf & -> & Hn & Hv & Hb). cbn [fst snd]. apply (full_insert p h update_size); [done..|].
  intros w' c Hf' Hc He. exists (l ++ [(c, update_size)]). split_and!; [done| | |by eapply valid_extF|].
  - rewrite length_app. cbn [length]. f_equal. lia.
  - rewrite length_app. cbn [length]. lia.
  - pose proof (valid_fresh _ _ _ _ (proj1 Hf) Hv). rewrite fmap_app. cbn [fmap list_fmap fst].
    rewrite elem_of_cons, elem_of_app, list_elem_of_singleton in *. intros [?|[?|?]]; [tauto|tauto|lia].
Qed.

Lemma inproc_turn_post b st n w :
  inserted b st n w →
  post p (inproc_recv_turn update_size (Addr p h 0) len socket (Addr p b 0) st) w (λ tr1 w1 st1,
    inserted b st1 (S n) w1 ∧ st1.1 = st.1 + 1 ∧ tr1.*1 = [Nn_recv socket (Addr p b 0) len]).
Proof.
  intros Hi. unfold inproc_recv_turn. apply post_bind, post_sys. intros e w1 (Hle & bs & Hbs & Hst).
  pose proof (inserted_store _ _ _ _ _ _ Hi Hst) as Hi1. apply post_bind.
  apply (post_mono _ _ _ (λ tr2 w2 _, tr2 = [] ∧ inserted b st n w2)).
  { destruct (e <? 0); [apply post_mem|by apply post_done]. split; [done|by apply inserted_printf]. }
  intros tr2 w2 _ [-> Hi2]. apply post_bind, post_mem. eapply wp_mono; [by apply inserted_next|]. cbn beta.
  intros pos w3 Hi3. apply post_done. done.
Qed.

Lemma inproc_turn_can b st n w r :
  inserted b st n w → r <= len →
  can p (inproc_recv_turn update_size (Addr p h 0) len socket (Addr p b 0) st) w [r] (λ w1 st1,
    inserted b st1 (S n) w1 ∧ st1.1 = st.1 + 1).
Proof.
  intros Hi Hr. pose proof Hi as (l & _ & _ & _ & Hv & _). unfold inproc_recv_turn.
  set (bs := replicate (Z.to_nat r) (Byte 0)).
  assert (valid w b 0 (length bs)) as Hvb by (unfold bs; rewrite length_replicate; eapply valid_le; [exact Hv|lia|lia]).
  assert (wp (store (Addr p b 0) bs) p w (λ _ _, True)) as ([] & w1 & E & _)%wp_Ok by by apply wp_store.
  apply (can_bind p _ _ _ [r] []). apply (can_sys _ _ _ _ w1).
  { split; [done|]. exists bs. split; [unfold bs; rewrite length_replicate; lia|done]. }
  pose proof (inserted_store _ _ _ _ _ _ Hi E) as Hi1. apply (can_bind p _ _ _ [] []).
  assert (∀ w2, inserted b st n w2 → can p (pos <- mem (insert_next update_size (Addr p h 0) st.2);; done_with (st.1 + 1, pos)) w2 []
    (λ w1 st1, inserted b st1 (S n) w1 ∧ st1.1 = st.1 + 1)) as H.
  { intros w2 Hi2. apply (can_bind p _ _ _ [] []), can_mem. eapply wp_mono; [by apply inserted_next|]. cbn beta.
    intros pos w3 Hi3. by apply can_done. }
  destruct (r <? 0); [apply can_mem|apply can_done]; apply H; [by apply inserted_printf|done].
Qed.

Lemma inserted_start w (Q : ptr → world → Prop) :
  full p h update_size w [] →
  (∀ w', inserted (w_next w) (0, Addr p h 0) 0 w' → Q (Addr p (w_next w) 0) w') → wp (malloc len) p w Q.
Proof.
  intros Hf HQ. apply (full_malloc p h update_size w []); [done..|]. intros w' Hf' Hv Hb _. apply HQ. by exists [].
Qed.

Lemma inserted_end b st n w :
  inserted b st n w → wp (free (Addr p b 0)) p w (λ _ w', ∃ l, list_at w' p h l ∧ l.*2 = replicate n update_size ∧
    st = (Z.of_nat n, Addr p (last_of h l) 0)).
Proof.
  intros (l & Hf & -> & Hn & Hv & Hb). destruct (valid_block _ _ _ _ Hv) as [k Hk]. eapply wp_free; [exact Hk|].
  destruct (full_free _ _ _ _ _ _ Hb Hf) as (_ & Hl & Hv'). exists l. by rewrite Hn in *.
Qed.

Let messages : Z := thread_count * update_count.

Lemma inproc_loop_can b st n w rs :
  inserted b st n w → 0 <= st.1 → length rs = Z.to_nat (messages - st.1) → Forall (λ r, r <= len) rs →
  can p (while (λ st, st.1 <? messages) (inproc_recv_turn update_size (Addr p h 0) len socket (Addr p b 0)) st) w rs
    (λ w' st', inserted b st' (n + length rs) w').
Proof.
  revert st n w. induction rs as [|r rs IH]; intros st n w Hi H0 Hrs Hle; cbn [length] in *.
  - eapply can_eutt; [apply while_unfold|]. cbv beta. rewrite (proj2 (Z.ltb_ge _ _)) by lia. apply can_done.
    by rewrite Nat.add_0_r.
  - apply Forall_cons in Hle as [Hr Hle]. eapply can_eutt; [apply while_unfold|]. cbv beta.
    rewrite (proj2 (Z.ltb_lt _ _)) by lia. apply (can_bind p _ _ _ [r]).
    destruct (inproc_turn_can b st n w r Hi Hr) as (m & tr & w1 & st1 & Hrun & Hans & Hi1 & Hst1).
    exists m, tr, w1, st1. split; [done|]. split; [done|].
    replace (n + S (length rs))%nat with (S n + length rs)%nat by lia. apply IH; [done|lia|lia|done].
Qed.

Lemma inproc_recv_can w rs :
  full p h update_size w [] → length rs = Z.to_nat messages → Forall (λ r, r <= len) rs →
  can p (inproc_recv_proc thread_count update_count update_size (Addr p h 0) len socket (Addr p h 0)) w rs (λ _ _, True).
Proof.
  intros Hf Hrs Hle. unfold inproc_recv_proc, total_count. rewrite s32_small by done.
  apply (can_bind p _ _ _ []), can_mem. apply inserted_start; [done|]. intros w1 Hi.
  rewrite <- (app_nil_r rs). apply (can_bind p _ _ _ rs []).
  destruct (inproc_loop_can _ _ _ _ rs Hi) as (n & tr & w2 & st & Hrun & Ht & Hi2); [done|cbn; by rewrite Z.sub_0_r|done|].
  exists n, tr, w2, st. split; [done|]. split; [done|]. apply (can_bind p _ _ _ [] []), can_mem.
  eapply wp_mono; [by eapply inserted_end|]. cbn beta. intros _ w3 _. by apply can_done.
Qed.

Lemma inproc_recv_post w :
  full p h update_size w [] →
  post p (inproc_recv_proc thread_count update_count update_size (Addr p h 0) len socket (Addr p h 0)) w (λ tr w' st,
    tr.*1 = replicate (Z.to_nat messages) (Nn_recv socket (Addr p (w_next w) 0) len) ∧
    ∃ l, list_at w' p h l ∧ l.*2 = replicate (Z.to_nat messages) update_size ∧
      st = (Z.of_nat (Z.to_nat messages), Addr p (last_of h l) 0)).
Proof.
  intros Hf. unfold inproc_recv_proc, total_count. rewrite s32_small by done.
  apply post_bind, post_mem. apply inserted_start; [done|]. intros w1 Hi. apply post_bind.
  apply (post_while p (λ st tr w2, ∃ m, inserted (w_next w) st m w2 ∧ st.1 = Z.of_nat m ∧
    tr.*1 = replicate m (Nn_recv socket (Addr p (w_next w) 0) len) ∧ Z.of_nat m <= Z.max 0 messages)).
  - intros st1 tr1 w2 (m & Hi2 & Hm & Htr & Hle) Hlt%Z.ltb_lt. split; [unfold inproc_recv_turn; auto with active|].
    eapply post_mono; [by apply inproc_turn_post|]. cbn beta. intros tr2 w3 st3 (Hi3 & Hst3 & Htr2).
    exists (S m). split; [done|]. split; [lia|]. split; [|unfold messages in *; lia].
    by rewrite fmap_app, Htr, Htr2, replicate_S_end.
  - exists 0%nat. split; [done|]. split; [done|]. split; [done|]. lia.
  - intros st1 tr1 w2 (m & Hi2 & Hm & Htr & Hle) Hge%Z.ltb_ge. apply post_bind, post_mem.
    eapply wp_mono; [by eapply inserted_end|]. cbn beta. intros _ w3 Hend. apply post_done. rewrite !app_nil_r.
    assert (m = Z.to_nat messages) as -> by (unfold messages in *; lia). done.
Qed.

(** The receiving thread of [nano_inproc.c] does not look at whether a message has
    arrived: on any answers of nanomsg it ends, after as many calls as messages are
    to come, and the list has a cell for each of the calls. *)
Theorem inproc_recv_ignores_errors w :
  full p h update_size w [] →
  let program := inproc_recv_proc thread_count update_count update_size (Addr p h 0) len socket (Addr p h 0) in
  let messages := Z.to_nat (thread_count * update_count) in
  (∀ rs, length rs = messages → Forall (λ r, r <= len) rs → ∃ n tr w' st, run p n program w tr w' st ∧ tr.*2 = rs) ∧
  (∀ n tr w' st, run p n program w tr w' st →
     tr.*1 = replicate messages (Nn_recv socket (Addr p (w_next w) 0) len) ∧
     ∃ l, list_at w' p h l ∧ l.*2 = replicate messages update_size ∧ st = (Z.of_nat messages, Addr p (last_of h l) 0)).
Proof.
  intros Hf. cbv zeta. split.
  - intros rs Hrs Hle. destruct (inproc_recv_can w rs Hf Hrs Hle) as (n & tr & w' & st & Hr & Ht & _). by exists n, tr, w', st.
  - intros n. exact (inproc_recv_post w Hf n).
Qed.

End nano_spec.

(** ** How the main programs give up *)

(** Calls that send or receive, and answers of the other calls that mean that the
    set-up has failed. *)
Definition talks (e : syscall) : bool :=
  match e with Read _ _ _ | Write _ _ _ | Accept _ | Nn_send _ _ _ | Nn_recv _ _ _ => true | _ => false end.
Definition setup_failed (e : syscall) (r : Z) : bool :=
  match e with
  | Open _ _ | Socket _ | Setsockopt _ _ | Bind _ _ | Connect _ _ | Listen _ _ | Nn_socket _ => r <? 0
  | Nn_bind _ _ | Nn_connect _ _ => r <? 1
  | _ => false
  end.

Definition silent (tr : trace) : Prop := Forall (λ er, talks er.1 = false) tr.
Definition passed (tr : trace) : Prop := Forall (λ er, setup_failed er.1 er.2 = false) tr.
Definition failed_in (tr : trace) : Prop := Exists (λ er, setup_failed er.1 er.2 = true) tr.

Lemma silent_app tr1 tr2 : silent (tr1 ++ tr2) ↔ silent tr1 ∧ silent tr2.
Proof. apply Forall_app. Qed.
Lemma passed_app tr1 tr2 : passed (tr1 ++ tr2) ↔ passed tr1 ∧ passed tr2.
Proof. apply Forall_app. Qed.
Lemma failed_in_app tr1 tr2 : failed_in (tr1 ++ tr2) ↔ failed_in tr1 ∨ failed_in tr2.
Proof. apply Exists_app. Qed.

Section verdict.
Context (p : Z) (usage : Prop).

(** 0 after a set-up without failure; -1 with nothing sent or received, because a
    call of the set-up failed or the program is used in the wrong way. *)
Definition verdict (tr : trace) (r : Z) : Prop :=
  (r = 0 ∧ passed tr) ∨ (r = -1 ∧ silent tr ∧ (failed_in tr ∨ usage)).

Definition judged (t : io Z) : Prop := ∀ w, post p t w (λ tr _ r, verdict tr r).
Definition quiet (e : syscall) (r : Z) : Prop := talks e = false ∧ setup_failed e r = false.

Lemma quiet_silent tr : Forall (λ er, quiet er.1 er.2) tr → silent tr ∧ passed tr.
Proof. intros H. split; (eapply Forall_impl; [exact H|]); by intros er [? ?]. Qed.

Lemma judged_bind {A} (t : io A) k : only p quiet t → (∀ a, judged (k a)) → judged (x <- t;; k x)%io.
Proof.
  intros Ht Hk w. apply post_bind. eapply post_mono; [apply Ht|]. cbn beta. intros tr1 w1 a [H1 H2]%quiet_silent.
  eapply post_mono; [apply Hk|]. cbn beta. intros tr2 w2 r [[-> H]|(-> & H3 & H4)]; [left|right].
  - split; [done|]. by apply passed_app.
  - split; [done|]. split; [by apply silent_app|]. rewrite failed_in_app. tauto.
Qed.

(** A call of the set-up: what follows a failure ends with -1. *)
Definition minus (t : io Z) : Prop := ∀ w, post p t w (λ tr _ r, r = -1 ∧ silent tr).

Lemma judged_setup e k :
  talks e = false → (∀ r, setup_failed e r = true → minus (k r)) → (∀ r, setup_failed e r = false → judged (k r)) →
  judged (x <- sys e;; k x)%io.
Proof.
  intros He Hm Hk w. apply post_bind, post_sys. intros r w1 _. destruct (setup_failed e r) eqn:E.
  - eapply post_mono; [by apply Hm|]. cbn beta. intros tr w2 r' [-> H]. right. split; [done|]. split; [by constructor|].
    left. by left.
  - eapply post_mono; [by apply Hk|]. cbn beta. intros tr w2 r' [[-> H]|(-> & H3 & H4)]; [left|right].
    + split; [done|]. by constructor.
    + split; [done|]. split; [by constructor|]. destruct H4; [left; by right|by right].
Qed.

(** Several calls of the set-up, after a failure of which the program ends. *)
Definition setup (t : io (option Z)) : Prop := ∀ w, post p t w (λ tr _ o,
  match o with None => silent tr ∧ passed tr | Some r => r = -1 ∧ silent tr ∧ failed_in tr end).

Lemma setup_none {A} (t : io A) : only p quiet t → setup (t;;; done_with None)%io.
Proof.
  intros Ht w. apply post_bind. eapply post_mono; [apply Ht|]. cbn beta. intros tr w1 a H%quiet_silent.
  apply post_done. by rewrite app_nil_r.
Qed.

Lemma setup_bind {A} (t : io A) k : only p quiet t → (∀ a, setup (k a)) → setup (x <- t;; k x)%io.
Proof.
  intros Ht Hk w. apply post_bind. eapply post_mono; [apply Ht|]. cbn beta. intros tr1 w1 a [H1 H2]%quiet_silent.
  eapply post_mono; [apply Hk|]. cbn beta. intros tr2 w2 [r|]; rewrite silent_app, ?passed_app, ?failed_in_app; tauto.
Qed.

Lemma setup_call {A} e (c : Z → M A) text n :
  talks e = false → (∀ r, setup_failed e r = (r <? n)) →
  setup (x <- sys e;; mem (c x);;;
    if x <? n then mem (printf text []);;; done_with (Some (-1)) else done_with None)%io.
Proof.
  intros He Hf w. apply post_bind, post_sys. intros r w1 _. apply post_bind, post_mem_any. intros a w2 _.
  specialize (Hf r). destruct (r <? n).
  - apply post_bind, post_mem_any. intros b w3 _. apply post_done. split; [done|]. split; [by repeat constructor|]. by left.
  - apply post_done. split; by repeat constructor.
Qed.

Lemma setup_until n lo body : (∀ i, setup (body i)) → setup (for_until n lo body).
Proof.
  intros H. revert lo. induction n as [|n IH]; intros lo w; cbn [for_until]; [apply post_done; split; constructor|].
  apply post_bind. eapply post_mono; [apply H|]. cbn beta. intros tr w1 [r|] H1.
  - apply post_done. by rewrite app_nil_r.
  - eapply post_mono; [apply IH|]. cbn beta. intros tr2 w2 [r|]; rewrite silent_app, ?passed_app, ?failed_in_app; tauto.
Qed.

Lemma judged_steps (t : io (option Z)) k : setup t → judged k → judged (x <- t;; match x with Some r => done_with r | None => k end)%io.
Proof.
  intros Ht Hk w. apply post_bind. eapply post_mono; [apply Ht|]. cbn beta. intros tr w1 [r|].
  - intros (-> & H1 & H2). apply post_done. rewrite app_nil_r. right. by split_and!; [| |left].
  - intros [H1 H2]. eapply post_mono; [apply Hk|]. cbn beta. intros tr2 w2 r. unfold verdict.
    rewrite silent_app, passed_app, failed_in_app. tauto.
Qed.

(** The work, after the set-up. *)
Definition at_work (e : syscall) (r : Z) : Prop := setup_failed e r = false.
Definition works (t : io Z) : Prop := ∀ w, post p t w (λ tr _ r, r = 0 ∧ passed tr).

Lemma judged_works t : works t → judged t.
Proof. intros H w. eapply post_mono; [apply H|]. cbn beta. intros tr w' r H1. by left. Qed.

Lemma works_done : works (done_with 0).
Proof. intros w. apply post_done. by split; [|constructor]. Qed.

Lemma works_bind {A} (t : io A) k : only p at_work t → (∀ a, works (k a)) → works (x <- t;; k x)%io.
Proof.
  intros Ht Hk w. apply post_bind. eapply post_mono; [apply Ht|]. cbn beta. intros tr1 w1 a H1.
  eapply post_mono; [apply Hk|]. cbn beta. intros tr2 w2 r [-> H2]. split; [done|]. by apply passed_app.
Qed.

Lemma minus_gives_up text : minus (gives_up text).
Proof. intros w. apply post_bind, post_mem_any. intros a w1 _. apply post_done. by split; [|constructor]. Qed.

Lemma atoi_result s w v w' : atoi s p w = Ok v w' → v = atoi_value s.
Proof. unfold atoi. case_decide; by intros [= <-]. Qed.

Lemma judged_args argv k :
  (∀ a1 a2 a3 a4 a5 more, argv = a1 :: a2 :: a3 :: a4 :: a5 :: more →
     judged (k (atoi_value a1) (atoi_value a2) (atoi_value a3) (mode_of a4) a5)) → judged (with_args argv k).
Proof.
  intros Hk. unfold with_args. destruct argv as [|a1 [|a2 [|a3 [|a4 [|a5 more]]]]];
    try (intros w; apply post_mem_any; intros r w' [=]).
  specialize (Hk a1 a2 a3 a4 a5 more eq_refl).
  intros w. do 3 (apply post_bind, post_mem_any; intros ? ? ->%atoi_result). apply Hk.
Qed.

Lemma judged_mode mode k : (is_server mode || Ascii.eqb mode "c"%char = false → usage) → judged k → judged (check_mode mode k).
Proof.
  intros Hu Hk. unfold check_mode, is_server in *. destruct (_ || _); [done|].
  intros w. eapply post_mono; [apply minus_gives_up|]. cbn beta. intros tr w' r [-> Hs]. right. split_and!; [done|done|].
  right. by apply Hu.
Qed.

End verdict.

(** The programs in which every call is one of [P]. *)
Ltac only_tac :=
  repeat first
    [ apply only_done | apply only_mem
    | apply only_sys; intros ?; solve [reflexivity | split; reflexivity]
    | apply only_bind; [|intros ?]
    | apply only_for_each; intros ? ? | apply only_for_until; intros ?
    | apply only_while; [intros ? ?; solve [auto with active]|intros ?]
    | match goal with |- context [match ?x with _ => _ end] => destruct x end ].

Section work.
Context (p thread_count update_count update_size : Z) (list data : ptr) (len : Z) (Hthreads : 0 < thread_count).

Lemma recv_loop_works fds received buf st :
  only p at_work (recv_loop thread_count update_count len fds received buf st).
Proof.
  unfold recv_loop. destruct (Z.to_nat thread_count) as [|n] eqn:E; [lia|]. cbn [for_each].
  apply only_while; [intros ? _; auto with active|intros s]. only_tac.
Qed.

Lemma pipe_recv_works fds pos : only p at_work (pipe_recv_proc thread_count update_count update_size list len fds pos).
Proof. unfold pipe_recv_proc. apply only_bind; [only_tac|intros buf]. apply only_bind; [apply recv_loop_works|intros st]. only_tac. Qed.

Lemma single_recv_works fd pos : only p at_work (single_recv_proc thread_count update_count update_size list len fd pos).
Proof. unfold single_recv_proc. only_tac. Qed.

Lemma socket_recv_works sc clients pos :
  only p at_work (socket_recv_proc thread_count update_count update_size list len sc clients pos).
Proof.
  unfold socket_recv_proc, accept_all. apply only_bind; [only_tac|intros [|]]; [only_tac|].
  apply only_bind; [only_tac|intros buf]. apply only_bind; [apply recv_loop_works|intros st]. only_tac.
Qed.

Lemma nano_recv_works socket pos : only p at_work (nano_recv_proc thread_count update_count update_size list len socket pos).
Proof. unfold nano_recv_proc, while_below, nano_recv_turn. only_tac. Qed.

Lemma nano_send_works socket : only p at_work (nano_send_proc update_count data len socket).
Proof. unfold nano_send_proc, while_below, nano_send_turn. only_tac. Qed.

End work.

(** The programs that are started once as server and once per client. *)
Definition benchmarks (global : ptr) : list (list string → io Z) :=
  [pipe_main; single_main global; socket_main global; dns_main global; nano_ipc_main; nano_tcp_main].

(** [argv[4]] is neither a server nor a client. *)
Definition bad_mode (argv : list string) : Prop :=
  is_server (mode_of (default EmptyString (argv !! 3%nat))) || Ascii.eqb (mode_of (default EmptyString (argv !! 3%nat))) "c"%char = false.

(** There is at least one client. *)
Definition has_clients (argv : list string) : Prop := 0 < atoi_value (default EmptyString (argv !! 0%nat)).

Ltac args := intros a1 a2 a3 a4 a5 more ->; unfold has_clients, bad_mode in *; cbn [lookup list_lookup default from_option] in *.

Lemma pipe_main_judged p argv : has_clients argv → judged p (bad_mode argv) (pipe_main argv).
Proof.
  intros Hc. apply judged_args. args. apply judged_bind; [destruct (is_server _); only_tac|intros fd].
  apply judged_mode; [done|]. apply judged_bind; [only_tac|intros lp]. apply judged_steps.
  - unfold pipe_open. destruct (is_server _).
    + apply setup_until. intros i. apply setup_bind; [only_tac|intros name]. by apply setup_call.
    + by apply setup_call.
  - apply judged_works. apply works_bind; [only_tac|intros data]. apply works_bind.
    + destruct (is_server _); [by apply pipe_recv_works|]. unfold pipe_send_proc. only_tac.
    + intros _. apply works_bind; [unfold pipe_close; only_tac|intros _; apply works_done].
Qed.

Lemma single_main_judged p global argv : has_clients argv → judged p (bad_mode argv) (single_main global argv).
Proof.
  intros Hc. apply judged_args. args. apply judged_mode; [done|]. apply judged_bind; [only_tac|intros lp].
  apply judged_setup; [by destruct (is_server _)| |]; intros f Hf;
    (assert ((f <? 0) = setup_failed (if is_server (mode_of a4) then Open a5 "O_CREAT|O_RDONLY|O_TRUNC" else Open a5 "O_WRONLY") f) as ->
      by by destruct (is_server _)); rewrite Hf.
  - intros w. apply post_bind, post_mem_any. intros ? w1 _. apply (minus_gives_up p).
  - apply judged_works. apply works_bind; [only_tac|intros _]. apply works_bind; [only_tac|intros data]. apply works_bind.
    + destruct (is_server _); [apply single_recv_works|]. unfold single_send_proc. only_tac.
    + intros _. do 2 (apply works_bind; [only_tac|intros ?]). apply works_bind; [only_tac|intros _; apply works_done].
Qed.

Lemma socket_join_judged p usage server sc addr k :
  judged p usage k → judged p usage (socket_join server sc addr k).
Proof.
  intros Hk. unfold socket_join. apply judged_bind; [only_tac|intros s].
  apply judged_setup; [by destruct server| |]; intros f Hf;
    (assert ((f <? 0) = setup_failed (if server then Bind s addr else Connect s addr) f) as -> by by destruct server); rewrite Hf.
  - apply minus_gives_up.
  - exact Hk.
Qed.

Lemma socket_work_judged p usage thread_count update_count update_size server sc lp after :
  0 < thread_count → works p after → judged p usage (socket_work thread_count update_count update_size server sc lp after).
Proof.
  intros Hc Ha. unfold socket_work. apply judged_bind; [only_tac|intros data]. destruct server.
  - do 2 (apply judged_bind; [only_tac|intros ?]). apply judged_setup; [done| |]; intros r Hr; cbn in Hr; rewrite Hr.
    + apply minus_gives_up.
    + apply judged_works, works_bind; [by apply socket_recv_works|done].
  - apply judged_works, works_bind; [unfold socket_send_proc; only_tac|done].
Qed.

Lemma socket_main_judged p global argv : has_clients argv → judged p (bad_mode argv) (socket_main global argv).
Proof.
  intros Hc. apply judged_args. args. apply judged_mode; [done|]. apply judged_bind; [only_tac|intros lp].
  apply judged_setup; [done| |]; intros s Hs; cbn in Hs; rewrite Hs.
  { intros w. apply post_bind, post_mem_any. intros ? w1 _. apply (minus_gives_up p). }
  apply judged_bind; [only_tac|intros _]. apply judged_setup; [done| |]; intros r Hr; cbn in Hr; rewrite Hr.
  { apply minus_gives_up. }
  apply socket_join_judged, socket_work_judged; [done|].
  do 2 (apply works_bind; [only_tac|intros ?]). apply works_done.
Qed.

Lemma dns_main_judged p global argv : has_clients argv → judged p (bad_mode argv) (dns_main global argv).
Proof.
  intros Hc. apply judged_args. args. apply judged_mode; [done|]. apply judged_bind; [only_tac|intros lp].
  apply judged_setup; [done| |]; intros s Hs; cbn in Hs; rewrite Hs.
  { intros w. apply post_bind, post_mem_any. intros ? w1 _. apply (minus_gives_up p). }
  apply judged_bind; [only_tac|intros _].
  apply socket_join_judged, socket_work_judged; [done|].
  do 2 (apply works_bind; [only_tac|intros ?]). apply works_done.
Qed.

Lemma nano_main_judged p sleep argv : has_clients argv → judged p (bad_mode argv) (nano_main sleep argv).
Proof.
  intros Hc. apply judged_args. args. apply judged_mode; [done|]. apply judged_bind; [only_tac|intros lp].
  apply judged_setup; [done| |]; intros s Hs; cbn in Hs; rewrite Hs; [apply minus_gives_up|].
  apply judged_setup; [by destruct (is_server _)| |]; intros eid He;
    (assert ((eid <? 1) = setup_failed (if is_server (mode_of a4) then Nn_bind s a5 else Nn_connect s a5) eid) as ->
      by by destruct (is_server _)); rewrite He.
  - destruct (is_server _); [|apply minus_gives_up]. intros w. apply post_bind, post_sys. intros e w1 _.
    apply post_bind, post_mem_any. intros ? w2 _. apply post_done. by split; [|by repeat constructor].
  - apply judged_works. apply works_bind; [only_tac|intros data]. apply works_bind.
    { destruct (is_server _); [apply only_bind; [by apply nano_recv_works|intros ?; only_tac]|apply nano_send_works]. }
    intros _. apply works_bind; [only_tac|intros _]. apply works_bind; [only_tac|intros _; apply works_done].
Qed.

(** C35. The main programs of the benchmarks with several processes, server or client,
    whatever the system answers: they end with 0 or -1; 0 means that no call of
    the set-up failed, and -1 that nothing was sent, received or accepted, because
    a call of the set-up failed or the program was told to be neither server nor
    client. *)
Theorem main_exit_code p global main argv n w tr w' r :
  main ∈ benchmarks global → has_clients argv → run p n (main argv) w tr w' r →
  (r = 0 ∧ passed tr) ∨ (r = -1 ∧ silent tr ∧ (failed_in tr ∨ bad_mode argv)).
Proof.
  intros Hm Hc Hr. enough (judged p (bad_mode argv) (main argv)) as H by exact (H _ _ _ _ _ Hr).
  unfold benchmarks in Hm. rewrite !elem_of_cons, elem_of_nil in Hm.
  destruct Hm as [->|[->|[->|[->|[->|[->|[]]]]]]].
  - by apply pipe_main_judged.
  - by apply single_main_judged.
  - by apply socket_main_judged.
  - by apply dns_main_judged.
  - by apply nano_main_judged.
  - by apply nano_main_judged.
Qed.

(** ** Runs *)

(** A new list in block 1, and a cell for a global variable in block 2. *)
Definition demo_new : world :=
  Eval vm_compute in state_of (CMem.bind (MakeEmpty 0 Null) (λ _, malloc 4)) 1 (world_init 0 [] []).

Lemma demo_new_full : full 1 1 7 demo_new [].
Proof. split; [apply wokb_spec; vm_compute; reflexivity|]. split; [|done]. split; [by_eval|]. split; by_eval. Qed.

(** Two messages are expected: one arrives, then there is nothing yet, then the
    connection is lost. *)
Definition demo_nano : option (trace * world * (Z * ptr)) :=
  Eval vm_compute in exec 1 100 (nano_recv_proc 2 1 7 (Addr 1 1 0) 4 5 (Addr 1 1 0)) [4; -1; 11; 0] demo_new.

Lemma nano_recv_counts_witness :
  ∃ tr w' l st, demo_nano = Some (tr, w', st) ∧ arrived tr = 1%nat ∧ list_at w' 1 1 l ∧ l.*2 = [7] ∧ gave_up 5 4 tr.
Proof.
  destruct demo_nano as [[[tr w'] st]|] eqn:E; [|by vm_compute in E].
  destruct (exec_run 1 100 (nano_recv_proc 2 1 7 (Addr 1 1 0) 4 5 (Addr 1 1 0)) [4; -1; 11; 0] demo_new tr w' st) as [n Hr].
  { rewrite <- E. vm_compute. reflexivity. }
  assert (arrived tr = 1%nat) as Ha by (vm_compute in E; injection E as <- _ _; reflexivity).
  destruct (nano_recv_counts 1 2 1 7 1 5 4 ltac:(done) ltac:(done) ltac:(done) n demo_new tr w' st demo_new_full Hr) as (l & Hl & Hv & _ & _ & Hg).
  rewrite Ha in Hv, Hg. exists tr, w', l, st. split_and!; [done|done|done|done|]. apply Hg. done.
Defined.

(** The first message does not arrive; there are two cells. *)
Lemma inproc_recv_ignores_errors_witness :
  ∃ n tr w' st l, run 1 n (inproc_recv_proc 2 1 7 (Addr 1 1 0) 4 5 (Addr 1 1 0)) demo_new tr w' st ∧
    tr.*2 = [-1; 4] ∧ list_at w' 1 1 l ∧ l.*2 = [7; 7].
Proof.
  destruct (inproc_recv_ignores_errors 1 2 1 7 1 5 4 ltac:(done) ltac:(done) ltac:(done) demo_new demo_new_full) as [H1 H2].
  destruct (H1 [-1; 4]) as (n & tr & w' & st & Hr & Ht); [done|by repeat constructor|].
  destruct (H2 _ _ _ _ Hr) as (_ & l & Hl & Hv & _). by exists n, tr, w', st, l.
Defined.

Definition demo_args : list string := ["2"; "3"; "7"; "s"; "/tmp/fifo"]%string.

(** The pipe cannot be opened. *)
Lemma main_exit_code_witness :
  ∃ n tr w' r, run 1 n (single_main (Addr 1 2 0) demo_args) demo_new tr w' r ∧ r = -1 ∧ silent tr ∧ failed_in tr.
Proof.
  destruct (exec 1 100 (single_main (Addr 1 2 0) demo_args) [-1] demo_new) as [[[tr w'] r]|] eqn:E; [|by vm_compute in E].
  assert (r = -1) as Hr1 by (vm_compute in E; injection E as _ _ <-; reflexivity).
  destruct (exec_run _ _ _ _ _ _ _ _ E) as [n Hr]. exists n, tr, w', r. split; [done|]. split; [done|].
  destruct (main_exit_code 1 (Addr 1 2 0) (single_main (Addr 1 2 0)) demo_args n demo_new tr w' r) as [[-> _]|(_ & Hs & [Hf|Hb])].
  - unfold benchmarks. right. by left.
  - vm_compute. reflexivity.
  - exact Hr.
  - done.
  - by split.
  - by vm_compute in Hb.
Defined.
