(* ===== verification/StreamModel.v ===== *)
(** * Clients, channels and a server, without memory

    What is left of the benchmarks over pipes and sockets ([pipe_recv_proc] and the
    others of [IpcPrograms]) when only the places of the processes in their code and
    the number of bytes in each channel are kept: a transition system on numbers.
    It bounds the length of every run, it has an invariant that relates the
    insertions to the bytes, and it is never stuck before all processes have ended.
    [StreamSpec] shows that the programs follow it. *)

From S2P Require Import Prelude.
From stdpp Require Import base numbers list.
From Stdlib Require Import Lia.
#[local] Open Scope Z_scope.

(** Where the server is: before the first statement; before it reads descriptor
    [t], before the [read], after one of [r] bytes; at the end of the loop; after
    the last statement; and when it has ended. *)
Inductive server_at := SStart | SFd (t : nat) | SRead (t : nat) | SGot (t : nat) (r : Z) | SFree | SEnd | SGone.

(** Where a client is, with the number of its writes so far. *)
Inductive client_at := CFd (i : Z) | CWrite (i : Z) | CSent (i : Z) | CEnd | CGone (i : Z).

Record aclient := AClient { ac_chan : nat; ac_at : client_at }.

(** [a_i]: the insertions; [a_len]: the bytes in each channel. *)
Record astate := AState { a_srv : server_at; a_i : Z; a_cls : list aclient; a_len : list Z }.

Definition gone (c : client_at) : bool := match c with CGone _ => true | _ => false end.

Section model.
(** [N] channels, [U] writes of [L] bytes by each client, [total] messages to come;
    a channel holds up to [cap] bytes; [whole]: a read takes all that is there and
    fits, else any part of it. *)
Context (N : nat) (U L total cap : Z) (whole : bool).

(** After channel [t - 1], with [i] insertions. *)
Definition next (t : nat) (i : Z) : server_at :=
  if (t <? N)%nat then SFd t else if i <? total then SFd 0 else SFree.

Definition cnext (i : Z) : client_at := if i <? U then CFd i else CEnd.

Inductive astep : astate → astate → Prop :=
| as_start i cls len : astep (AState SStart i cls len) (AState (if i <? total then SFd 0 else SFree) i cls len)
| as_fd t i cls len : astep (AState (SFd t) i cls len) (AState (SRead t) i cls len)
| as_read t i cls len n m :
    len !! t = Some n → 1 <= m <= Z.min L n → (whole = true → m = Z.min L n) →
    astep (AState (SRead t) i cls len) (AState (SGot t m) i cls (<[t := n - m]> len))
| as_eof t i cls len :
    len !! t = Some 0 → Forall (λ c, ac_chan c = t → gone (ac_at c) = true) cls →
    astep (AState (SRead t) i cls len) (AState (SGot t 0) i cls len)
| as_got t r i i' cls len :
    i' = (if 0 <? r then i + 1 else i) →
    astep (AState (SGot t r) i cls len) (AState (next (S t) i') i' cls len)
| as_free i cls len : astep (AState SFree i cls len) (AState SEnd i cls len)
| as_end i cls len : astep (AState SEnd i cls len) (AState SGone i cls len)
| as_client srv i cls len k ch c c' :
    cls !! k = Some (AClient ch c) →
    (match c with CFd i => c' = CWrite i | CSent i => c' = cnext i | CEnd => c' = CGone U | _ => False end) →
    astep (AState srv i cls len) (AState srv i (<[k := AClient ch c']> cls) len)
| as_write srv i cls len k ch n j :
    srv ≠ SGone → cls !! k = Some (AClient ch (CWrite j)) → len !! ch = Some n → n + L <= cap →
    astep (AState srv i cls len) (AState srv i (<[k := AClient ch (CSent (j + 1))]> cls) (<[ch := n + L]> len))
| as_sigpipe i cls len k ch j :
    cls !! k = Some (AClient ch (CWrite j)) →
    astep (AState SGone i cls len) (AState SGone i (<[k := AClient ch (CGone j)]> cls) len).

(** ** What is still to come *)

Definition sent (c : client_at) : Z :=
  match c with CFd i | CWrite i | CSent i | CGone i => i | CEnd => U end.
Definition unsent (c : aclient) : Z := U - sent (ac_at c).

(** The bytes that were not read yet: of all channels, and of channel [t]. *)
Definition rest (a : astate) : Z := L * zsum unsent (a_cls a) + zsum (λ n, n) (a_len a).
Definition on (t : nat) (c : aclient) : Z := if decide (ac_chan c = t) then unsent c else 0.
Definition pending (a : astate) (t : nat) : Z := default 0 (a_len a !! t) + L * zsum (on t) (a_cls a).
Definition more (a : astate) (t : nat) : bool := existsb (λ j, 0 <? pending a j) (seq t (N - t)).

(** ** The invariant *)

Definition client_ok (srv : server_at) (c : aclient) : Prop :=
  (ac_chan c < N)%nat ∧
  match ac_at c with
  | CFd i | CWrite i => 0 <= i < U
  | CSent i => 0 < i <= U
  | CEnd => True
  | CGone i => 0 <= i <= U ∧ (srv ≠ SGone → i = U)
  end.

(** The message of the server that is read and not counted yet. *)
Definition in_hand (srv : server_at) : Z := match srv with SGot _ r => if 0 <? r then 1 else 0 | _ => 0 end.

Definition server_ok (srv : server_at) (i : Z) : Prop :=
  match srv with
  | SStart => i = 0
  | SFd t | SRead t => (t < N)%nat ∧ i < total + Z.of_nat t
  | SGot t r => (t < N)%nat ∧ i < total + Z.of_nat t ∧ 0 <= r
  | _ => total <= i ∧ i <= Z.max 0 (total + Z.of_nat N - 1)
  end.

Record ainv (a : astate) : Prop := {
  ai_cls : Forall (client_ok (a_srv a)) (a_cls a);
  ai_len : length (a_len a) = N;
  ai_bytes : Forall (λ n, 0 <= n ∧ (whole = true → ∃ q, n = L * q)) (a_len a);
  ai_srv : server_ok (a_srv a) (a_i a);
  ai_i : 0 <= a_i a;
  ai_read : a_i a + in_hand (a_srv a) <= L * total - rest a <= L * (a_i a + in_hand (a_srv a));
  ai_whole : whole = true → L * total - rest a = L * (a_i a + in_hand (a_srv a))
}.

Context (HL : 1 <= L) (HU : 0 <= U) (Hcap : L <= cap) (HN : (0 < N)%nat).

Lemma sum_nonneg {A} (f : A → Z) l : Forall (λ x, 0 <= f x) l → 0 <= zsum f l.
Proof. induction 1 as [|x l Hx _ IH]; [done|]. rewrite zsum_cons. lia. Qed.

Lemma unsent_nonneg srv c : client_ok srv c → 0 <= unsent c.
Proof. destruct c as [ch c]. unfold client_ok, unsent, sent. cbn. destruct c; lia. Qed.

Lemma on_nonneg srv t c : client_ok srv c → 0 <= on t c.
Proof. intros H%unsent_nonneg. unfold on. case_decide; lia. Qed.

Lemma rest_nonneg a : ainv a → 0 <= rest a.
Proof.
  intros [Hc _ Hb _ _ _ _]. unfold rest.
  assert (0 <= zsum unsent (a_cls a)) by (apply sum_nonneg; eapply Forall_impl; [exact Hc|apply unsent_nonneg]).
  assert (0 <= zsum (λ n, n) (a_len a)) by (apply sum_nonneg; eapply Forall_impl; [exact Hb|by intros n [? _]]). nia.
Qed.

Lemma pending_nonneg a t : ainv a → 0 <= pending a t.
Proof.
  intros [Hc _ Hb _ _ _ _]. unfold pending.
  assert (0 <= zsum (on t) (a_cls a)) by (apply sum_nonneg; eapply Forall_impl; [exact Hc|intros c; apply on_nonneg]).
  assert (0 <= default 0 (a_len a !! t)); [|nia].
  destruct (a_len a !! t) as [n|] eqn:E; [|done]. by apply (Forall_lookup_1 _ _ _ _ Hb) in E as [? _].
Qed.

(** While messages are missing, some channel has bytes to come. *)
Lemma rest_pending a : ainv a → 0 < rest a → more a 0 = true.
Proof.
  intros Hinv Hr. pose proof Hinv as [Hc Hlen Hb _ _ _ _]. unfold rest in Hr.
  assert (∃ j, (j < N)%nat ∧ 0 < pending a j) as (j & Hj & Hp).
  { assert (0 < zsum unsent (a_cls a) ∨ 0 < zsum (λ n, n) (a_len a)) as [H|H] by nia.
    - destruct (zsum_pos _ _ H) as (k & c & Hk & Hcp). pose proof (Forall_lookup_1 _ _ _ _ Hc Hk) as [Hch _].
      exists (ac_chan c). split; [done|]. unfold pending.
      assert (on (ac_chan c) c <= zsum (on (ac_chan c)) (a_cls a)) as Hle.
      { eapply zsum_one; [|exact Hk]. eapply Forall_impl; [exact Hc|intros u; apply on_nonneg]. }
      unfold on at 1 in Hle. rewrite decide_True in Hle by done.
      assert (0 <= default 0 (a_len a !! ac_chan c)); [|nia].
      destruct (a_len a !! ac_chan c) as [n|] eqn:E; [|done]. by apply (Forall_lookup_1 _ _ _ _ Hb) in E as [? _].
    - destruct (zsum_pos _ _ H) as (k & n & Hk & Hn). exists k. split; [rewrite <- Hlen; by eapply lookup_lt_Some|].
      unfold pending. rewrite Hk. cbn [default from_option id].
      assert (0 <= zsum (on k) (a_cls a)); [|nia]. apply sum_nonneg. eapply Forall_impl; [exact Hc|intros c; apply on_nonneg]. }
  unfold more. apply existsb_exists. exists j. split; [apply in_seq; lia|by apply Z.ltb_lt].
Qed.

(** ** The invariant holds in every state *)

Lemma clients_ok_srv srv srv' cls :
  srv ≠ SGone → Forall (client_ok srv) cls → Forall (client_ok srv') cls.
Proof.
  intros Hs H. eapply Forall_impl; [exact H|]. intros [ch c] [Hch Hc]. split; [done|]. cbn in *. destruct c; [done..|]. tauto.
Qed.

(** A step of the server that does not read. *)
Lemma ainv_server srv srv' i i' cls len :
  srv ≠ SGone → ainv (AState srv i cls len) → server_ok srv' i' → 0 <= i' →
  i' + in_hand srv' = i + in_hand srv → ainv (AState srv' i' cls len).
Proof.
  intros Hs [Hc Hlen Hb _ _ Hr Hw] Hsrv Hi Hh. cbn [a_srv a_i a_cls a_len] in *.
  split; cbn [a_srv a_i a_cls a_len]; [by eapply clients_ok_srv; [|exact Hc]|done..| |].
  - unfold rest in *. cbn [a_cls a_len] in *. lia.
  - unfold rest in *. cbn [a_cls a_len] in *. rewrite Hh. exact Hw.
Qed.

(** A step of a client that does not write. *)
Lemma ainv_client srv i cls len k ch c c' :
  cls !! k = Some (AClient ch c) → ainv (AState srv i cls len) →
  client_ok srv (AClient ch c') → sent c' = sent c → ainv (AState srv i (<[k := AClient ch c']> cls) len).
Proof.
  intros Hk [Hc Hlen Hb Hs Hi Hr Hw] Hok Hsent. cbn [a_srv a_i a_cls a_len] in *.
  assert (rest (AState srv i (<[k := AClient ch c']> cls) len) = rest (AState srv i cls len)) as E.
  { unfold rest. cbn [a_cls a_len]. rewrite (zsum_insert _ _ _ _ _ Hk). unfold unsent. cbn [ac_at]. rewrite Hsent. lia. }
  split; cbn [a_srv a_i a_cls a_len]; rewrite ?E; try done. by apply Forall_insert.
Qed.

Lemma ainv_read t i cls len n m :
  ainv (AState (SRead t) i cls len) → len !! t = Some n → 1 <= m <= Z.min L n → (whole = true → m = Z.min L n) →
  ainv (AState (SGot t m) i cls (<[t := n - m]> len)).
Proof.
  intros [Hc Hlen Hb Hs Hi Hr Hw] Ht Hm Hwm. cbn [a_srv a_i a_cls a_len in_hand] in *.
  pose proof (Forall_lookup_1 _ _ _ _ Hb Ht) as [Hn Hq].
  assert (rest (AState (SGot t m) i cls (<[t := n - m]> len)) = rest (AState (SRead t) i cls len) - m) as E.
  { unfold rest. cbn [a_cls a_len]. rewrite (zsum_insert _ _ _ _ _ Ht). lia. }
  assert (whole = true → m = L) as HmL.
  { intros W. destruct (Hq W) as [q ->]. rewrite (Hwm W). assert (0 < q) by nia. nia. }
  split; cbn [a_srv a_i a_cls a_len in_hand]; rewrite ?E, ?(proj2 (Z.ltb_lt 0 m)) by lia; try lia.
  - by eapply clients_ok_srv; [|exact Hc].
  - by rewrite length_insert.
  - apply Forall_insert; [done|]. split; [lia|]. intros W. destruct (Hq W) as [q ->]. exists (q - 1). rewrite (HmL W). lia.
  - split; [apply Hs|]. split; [apply Hs|lia].
  - intros W. specialize (Hw W). rewrite (HmL W) in *. lia.
Qed.

Lemma ainv_write srv i cls len k ch n j :
  ainv (AState srv i cls len) → cls !! k = Some (AClient ch (CWrite j)) → len !! ch = Some n →
  ainv (AState srv i (<[k := AClient ch (CSent (j + 1))]> cls) (<[ch := n + L]> len)).
Proof.
  intros [Hc Hlen Hb Hs Hi Hr Hw] Hk Hch. cbn [a_srv a_i a_cls a_len] in *.
  assert (rest (AState srv i (<[k := AClient ch (CSent (j + 1))]> cls) (<[ch := n + L]> len)) = rest (AState srv i cls len)) as E.
  { unfold rest. cbn [a_cls a_len]. rewrite (zsum_insert _ _ _ _ _ Hk), (zsum_insert _ _ _ _ _ Hch).
    unfold unsent. cbn [ac_at sent]. lia. }
  pose proof (Forall_lookup_1 _ _ _ _ Hc Hk) as [Hn Hj]. cbn in Hn, Hj.
  pose proof (Forall_lookup_1 _ _ _ _ Hb Hch) as [H0 Hq].
  split; cbn [a_srv a_i a_cls a_len]; rewrite ?E; try done.
  - apply Forall_insert; [done|]. split; cbn; lia.
  - by rewrite length_insert.
  - apply Forall_insert; [done|]. split; [lia|]. intros W. destruct (Hq W) as [q ->]. exists (q + 1). lia.
Qed.

Lemma next_ok t i : (t < N)%nat → i < total + Z.of_nat (S t) → server_ok (next (S t) i) i.
Proof.
  intros Ht Hi. unfold next. destruct (Nat.ltb_spec (S t) N); [by split|].
  destruct (Z.ltb_spec i total); cbn; lia.
Qed.

Lemma next_hand t i : in_hand (next t i) = 0.
Proof. unfold next. by repeat case_match. Qed.

Lemma ainv_step a a' : ainv a → astep a a' → ainv a'.
Proof.
  intros Hinv Hs. pose proof Hinv as [Hc _ _ Hsrv Hi _ _].
  destruct Hs as [i cls len|t i cls len|t i cls len n m Ht Hm Hw|t i cls len Ht Hg|t r i i' cls len ->|i cls len|i cls len
    |srv i cls len k ch c c' Hk Hc'|srv i cls len k ch n j Hg Hk Hn Hcp|i cls len k ch j Hk]; cbn [a_srv a_i a_cls server_ok] in *.
  - eapply ainv_server; [|exact Hinv|..]; [done| |done|]; destruct (Z.ltb_spec i total); cbn; lia.
  - by eapply ainv_server; [|exact Hinv|..].
  - by apply ainv_read with (n := n).
  - eapply ainv_server; [|exact Hinv|..]; [done| |done|done]. cbn. lia.
  - eapply ainv_server; [|exact Hinv|..]; [done| | |].
    + apply next_ok; [tauto|]. destruct (0 <? r); lia.
    + destruct (0 <? r); lia.
    + rewrite next_hand. cbn [in_hand]. destruct (0 <? r); lia.
  - by eapply ainv_server; [|exact Hinv|..].
  - by eapply ainv_server; [|exact Hinv|..].
  - pose proof (Forall_lookup_1 _ _ _ _ Hc Hk) as [Hch Hcl]. cbn in Hch, Hcl.
    assert (client_ok srv (AClient ch c') ∧ sent c' = sent c) as [H1 H2]; [|by eapply ainv_client].
    unfold client_ok, cnext in *. cbn. destruct c; try done; subst c'; cbn; [lia| |lia].
    destruct (Z.ltb_spec i0 U); cbn; lia.
  - by eapply ainv_write.
  - pose proof (Forall_lookup_1 _ _ _ _ Hc Hk) as [Hch Hcl]. cbn in Hch, Hcl.
    eapply ainv_client; [done|done| |done]. split; [done|]. cbn. split; [lia|done].
Qed.

(** ** Every run ends *)

(** The steps of a round are paid for by the next byte that is read: [slack] is the
    price of reading nothing up to the end of the round. *)
Definition slack : Z := 3 * Z.of_nat N + 3.
Definition idle (a : astate) (t : nat) : Z := if more a t then 0 else slack.

Definition server_steps (a : astate) : Z :=
  match a_srv a with
  | SStart => 6 * Z.of_nat N + 10
  | SFd t => 3 * (Z.of_nat N - Z.of_nat t) + 3 + idle a t
  | SRead t => 3 * (Z.of_nat N - Z.of_nat t) + 2 + idle a t
  | SGot t _ => 3 * (Z.of_nat N - Z.of_nat t) + 1 + idle a (S t)
  | SFree => 2
  | SEnd => 1
  | SGone => 0
  end.

Definition client_steps (c : aclient) : Z :=
  match ac_at c with
  | CFd i => 3 * (U - i) + 2
  | CWrite i => 3 * (U - i) + 1
  | CSent i => 3 * (U - i) + 3
  | CEnd => 1
  | CGone _ => 0
  end.

Definition steps_left (a : astate) : Z := slack * rest a + server_steps a + zsum client_steps (a_cls a).

Lemma idle_bounds a t : 0 <= idle a t <= slack.
Proof. unfold idle, slack. destruct (more a t); lia. Qed.

Lemma more_cons a t : (t < N)%nat → more a t = (0 <? pending a t) || more a (S t).
Proof. intros Ht. unfold more. replace (N - t)%nat with (S (N - S t)) by lia. done. Qed.

(** Two states with the same bytes to come everywhere. *)
Lemma more_same a a' t : (∀ j, pending a' j = pending a j) → more a' t = more a t.
Proof. intros H. unfold more. induction (seq t (N - t)) as [|j l IH]; [done|]. cbn. by rewrite H, IH. Qed.

Lemma server_steps_same a a' : a_srv a' = a_srv a → (∀ j, pending a' j = pending a j) → server_steps a' = server_steps a.
Proof.
  intros Hs H. assert (∀ t, idle a' t = idle a t) as Hi by (intros t; unfold idle; by rewrite (more_same a a' t H)).
  unfold server_steps. rewrite Hs. destruct (a_srv a); by rewrite ?Hi.
Qed.

Lemma on_same srv i cls len k ch c c' srv' t :
  cls !! k = Some (AClient ch c) → sent c' = sent c →
  pending (AState srv' i (<[k := AClient ch c']> cls) len) t = pending (AState srv i cls len) t.
Proof.
  intros Hk Hs. unfold pending. cbn [a_cls a_len]. rewrite (zsum_insert _ _ _ _ _ Hk).
  unfold on, unsent. cbn [ac_chan ac_at]. rewrite Hs. lia.
Qed.

Lemma write_same srv i cls len k ch n j t :
  cls !! k = Some (AClient ch (CWrite j)) → len !! ch = Some n →
  pending (AState srv i (<[k := AClient ch (CSent (j + 1))]> cls) (<[ch := n + L]> len)) t = pending (AState srv i cls len) t.
Proof.
  intros Hk Hch. unfold pending. cbn [a_cls a_len]. rewrite (zsum_insert _ _ _ _ _ Hk).
  unfold on, unsent. cbn [ac_chan ac_at sent]. destruct (decide (ch = t)) as [->|Hne].
  - rewrite list_lookup_insert_eq by (by eapply lookup_lt_Some). rewrite Hch. cbn. lia.
  - rewrite list_lookup_insert_ne by done. lia.
Qed.

(** A channel with no bytes, whose clients have ended while the server runs. *)
Lemma eof_pending srv i cls len t :
  srv ≠ SGone → Forall (client_ok srv) cls → len !! t = Some 0 →
  Forall (λ c, ac_chan c = t → gone (ac_at c) = true) cls → pending (AState srv i cls len) t = 0.
Proof.
  intros Hs Hc Ht Hg. unfold pending. cbn [a_cls a_len]. rewrite Ht. cbn.
  assert (zsum (on t) cls = 0) as ->; [|lia]. rewrite (zsum_const _ 0); [lia|].
  apply Forall_lookup. intros k [ch c] Hk. pose proof (Forall_lookup_1 _ _ _ _ Hc Hk) as [_ Hcl].
  pose proof (Forall_lookup_1 _ _ _ _ Hg Hk) as Hgc. cbn in *. unfold on. case_decide; [|done]. cbn in *.
  specialize (Hgc ltac:(done)). destruct c; try done. unfold unsent. cbn. destruct Hcl as [_ Hcl]. rewrite (Hcl Hs). lia.
Qed.

Lemma steps_decrease a a' : ainv a → astep a a' → steps_left a' < steps_left a.
Proof.
  intros Hinv Hs. pose proof Hinv as [Hc Hlen Hb Hsrv Hi Hr _]. pose proof (rest_pending a Hinv) as Hmore.
  pose proof idle_bounds as Hidle.
  destruct Hs as [i cls len|t i cls len|t i cls len n m Ht Hm Hw|t i cls len Ht Hg|t r i i' cls len ->|i cls len|i cls len
    |srv i cls len k ch c c' Hk Hc'|srv i cls len k ch n j Hg Hk Hn Hcp|i cls len k ch j Hk]; unfold steps_left;
    cbn [a_srv a_i a_cls a_len server_ok] in *.
  - unfold rest, server_steps. cbn [a_srv a_i a_cls a_len].
    pose proof (Hidle (AState (SFd 0) i cls len) 0%nat). unfold slack in *.
    destruct (i <? total); lia.
  - unfold rest, server_steps. cbn [a_srv a_i a_cls a_len]. change (idle (AState (SRead t) i cls len) t) with (idle (AState (SFd t) i cls len) t). lia.
  - assert (rest (AState (SGot t m) i cls (<[t := n - m]> len)) = rest (AState (SRead t) i cls len) - m) as ->.
    { unfold rest. cbn [a_cls a_len]. rewrite (zsum_insert _ _ _ _ _ Ht). lia. }
    unfold server_steps. cbn [a_srv].
    pose proof (Hidle (AState (SGot t m) i cls (<[t := n - m]> len)) (S t)). pose proof (Hidle (AState (SRead t) i cls len) t).
    unfold slack in *. nia.
  - assert (rest (AState (SGot t 0) i cls len) = rest (AState (SRead t) i cls len)) as -> by done.
    unfold server_steps. cbn [a_srv].
    assert (idle (AState (SGot t 0) i cls len) (S t) = idle (AState (SRead t) i cls len) t) as ->; [|lia].
    unfold idle. rewrite (more_cons (AState (SRead t) i cls len) t (proj1 Hsrv)), (eof_pending (SRead t) i cls len t ltac:(done) Hc Ht Hg). rewrite Z.ltb_irrefl. reflexivity.
  - set (i' := if 0 <? r then i + 1 else i) in *. set (srv' := next (S t) i').
    assert (rest (AState srv' i' cls len) = rest (AState (SGot t r) i cls len)) as -> by done.
    assert (∀ s j, idle (AState s i' cls len) j = idle (AState (SGot t r) i cls len) j) as Hsame by by intros s j.
    assert (i + in_hand (SGot t r) = i') as Hi' by (unfold i'; cbn [in_hand]; destruct (0 <? r); lia).
    rewrite Hi' in Hr. unfold server_steps. cbn [a_srv]. unfold srv', next.
    destruct (Nat.ltb_spec (S t) N) as [Hlt|Hge].
    + rewrite Hsame. lia.
    + assert (t = N - 1)%nat as -> by lia.
      assert (idle (AState (SGot (N - 1) r) i cls len) (S (N - 1)) = slack) as ->.
      { unfold idle, more. by replace (N - S (N - 1))%nat with 0%nat by lia. }
      unfold slack. destruct (Z.ltb_spec i' total); [|lia].
      rewrite Hsame. unfold idle. rewrite Hmore; [lia|]. nia.
  - unfold rest, server_steps. cbn [a_srv a_i a_cls a_len]. lia.
  - unfold rest, server_steps. cbn [a_srv a_i a_cls a_len]. lia.
  - pose proof (Forall_lookup_1 _ _ _ _ Hc Hk) as [Hch Hcl]. cbn in Hch, Hcl.
    assert (sent c' = sent c ∧ client_steps (AClient ch c') < client_steps (AClient ch c)) as [H1 H2].
    { unfold cnext, client_steps in *. cbn. destruct c; try done; subst c'; cbn; [lia| |lia].
      destruct (Z.ltb_spec i0 U); cbn; lia. }
    rewrite (server_steps_same (AState srv i cls len)); [|done|intros t; by eapply on_same].
    unfold rest. cbn [a_cls a_len]. rewrite !(zsum_insert _ _ _ _ _ Hk). unfold unsent. cbn [ac_at]. rewrite H1. nia.
  - rewrite (server_steps_same (AState srv i cls len)); [|done|intros t; by apply write_same].
    unfold rest. cbn [a_cls a_len]. rewrite !(zsum_insert _ _ _ _ _ Hk), (zsum_insert _ _ _ _ _ Hn).
    unfold unsent, client_steps. cbn [ac_at sent]. nia.
  - rewrite (server_steps_same (AState SGone i cls len)); [|done|intros t; by eapply on_same].
    pose proof (Forall_lookup_1 _ _ _ _ Hc Hk) as [Hch Hcl]. cbn in Hcl.
    unfold rest. cbn [a_cls a_len]. rewrite !(zsum_insert _ _ _ _ _ Hk).
    unfold unsent, client_steps. cbn [ac_at sent]. nia.
Qed.

Lemma steps_left_nonneg a : ainv a → 0 <= steps_left a.
Proof.
  intros Hinv. pose proof (rest_nonneg a Hinv) as Hr. pose proof Hinv as [Hc _ _ Hs _ _ _]. unfold steps_left.
  assert (0 <= zsum client_steps (a_cls a)) as H1.
  { apply sum_nonneg. eapply Forall_impl; [exact Hc|]. intros [ch c] [_ H]. unfold client_steps. cbn in *. destruct c; lia. }
  assert (0 <= server_steps a) as H2.
  { pose proof (idle_bounds a) as Hi. unfold server_steps. destruct (a_srv a) as [|t|t|t r| | |]; cbn in Hs; try lia.
    - specialize (Hi t). lia.
    - specialize (Hi t). lia.
    - specialize (Hi (S t)). lia. }
  unfold slack in *. nia.
Qed.

(** ** No state before the end is stuck *)

(** As long as a process has not ended, some process can go on. *)
Lemma astep_exists a :
  ainv a → (∀ a', ¬ astep a a') → a_srv a = SGone ∧ Forall (λ c, gone (ac_at c) = true) (a_cls a).
Proof.
  intros Hinv Hno. pose proof Hinv as [Hc Hlen Hb Hs _ _ _]. destruct a as [srv i cls len]. cbn [a_srv a_i a_cls a_len] in *.
  assert (∀ k ch c, cls !! k = Some (AClient ch c) → match c with CWrite _ | CGone _ => True | _ => False end) as Hcl.
  { intros k ch c Hk. destruct c; try done; (eapply Hno, as_client; [exact Hk|reflexivity]). }
  assert (srv = SGone) as ->.
  { destruct srv as [|t|t|t r| | |]; try done; exfalso.
    - eapply Hno, as_start.
    - eapply Hno, as_fd.
    - cbn in Hs. destruct (lookup_lt_is_Some_2 len t) as [n Hn]; [lia|].
      pose proof (Forall_lookup_1 _ _ _ _ Hb Hn) as [H0 _].
      destruct (decide (n = 0)) as [->|Hn0].
      + destruct (decide (Forall (λ c, ac_chan c = t → gone (ac_at c) = true) cls)) as [Hg|Hg].
        * by eapply Hno, as_eof.
        * apply not_Forall_Exists in Hg; [|apply _]. apply Exists_exists in Hg as ([ch c] & Hin & Hg). cbn in Hg.
          apply list_elem_of_lookup in Hin as [k Hk]. specialize (Hcl _ _ _ Hk).
          destruct c; try done. destruct (decide (ch = t)) as [->|]; [|by destruct Hg].
          eapply Hno, as_write; [done|exact Hk|exact Hn|lia].
      + eapply Hno, (as_read t i cls len n (Z.min L n)); [done|lia|done].
    - by eapply Hno, as_got.
    - eapply Hno, as_free.
    - eapply Hno, as_end. }
  split; [done|]. apply Forall_lookup. intros k [ch c] Hk. specialize (Hcl _ _ _ Hk). destruct c; try done.
  exfalso. eapply Hno, as_sigpipe. exact Hk.
Qed.

(** ** A channel for each client

    Then no channel is at its end before the server has done with it, and every
    round has an insertion for every channel, however small the reads are. *)

Definition read_from (a : astate) (j : nat) (b : Z) : Prop :=
  ∀ c n, a_cls a !! j = Some c → a_len a !! j = Some n → L * sent (ac_at c) - n <= L * b.

Definition rounds_ok (a : astate) : Prop :=
  match a_srv a with
  | SStart => ∀ j, read_from a j 0
  | SFd t | SRead t => ∃ r, 0 <= r ∧ a_i a = Z.of_nat N * r + Z.of_nat t ∧
      ∀ j, read_from a j (if (j <? t)%nat then r + 1 else r)
  | SGot t m => ∃ r, 0 <= r ∧ a_i a = Z.of_nat N * r + Z.of_nat t ∧ 0 < m ∧
      ∀ j, read_from a j (if (j <=? t)%nat then r + 1 else r)
  | _ => a_i a = total
  end.

Definition own_channels (a : astate) : Prop :=
  length (a_cls a) = N ∧ ∀ k c, a_cls a !! k = Some c → ac_chan c = k.

Lemma read_from_le a j b b' : b <= b' → read_from a j b → read_from a j b'.
Proof. intros Hb H c n Hc Hn. specialize (H c n Hc Hn). nia. Qed.

(** Steps of clients do not read. *)
Lemma read_from_client srv srv' i cls len k ch c c' j b :
  cls !! k = Some (AClient ch c) → sent c' = sent c → read_from (AState srv i cls len) j b →
  read_from (AState srv' i (<[k := AClient ch c']> cls) len) j b.
Proof.
  intros Hk Hs H d n Hd Hn. cbn [a_cls a_len] in *. apply list_lookup_insert_Some in Hd as [(-> & <- & _)|[_ Hd]].
  - cbn [ac_at]. rewrite Hs. by apply (H (AClient ch c)).
  - by apply H.
Qed.

Lemma read_from_write srv i cls len k z n j b :
  cls !! k = Some (AClient k (CWrite z)) → len !! k = Some n → read_from (AState srv i cls len) j b →
  read_from (AState srv i (<[k := AClient k (CSent (z + 1))]> cls) (<[k := n + L]> len)) j b.
Proof.
  intros Hk Hn H d m Hd Hm. cbn [a_cls a_len] in *.
  apply list_lookup_insert_Some in Hd as [(-> & <- & _)|[Hne Hd]].
  - rewrite list_lookup_insert_eq in Hm by (by eapply lookup_lt_Some). injection Hm as <-.
    specialize (H _ _ Hk Hn). cbn [ac_at sent] in *. lia.
  - rewrite list_lookup_insert_ne in Hm by done. by apply H.
Qed.

Lemma rounds_client srv i cls len cls' len' :
  (∀ j b, read_from (AState srv i cls len) j b → read_from (AState srv i cls' len') j b) →
  rounds_ok (AState srv i cls len) → rounds_ok (AState srv i cls' len').
Proof.
  intros H. unfold rounds_ok. cbn [a_srv a_i]. destruct srv; try done.
  - intros Hr j. by apply H.
  - intros (r & H1 & H2 & H3). exists r. split_and!; [done|done|]. intros j. apply H, H3.
  - intros (r & H1 & H2 & H3). exists r. split_and!; [done|done|]. intros j. apply H, H3.
  - intros (r' & H1 & H2 & H3 & H4). exists r'. split_and!; [done|done|done|]. intros j. apply H, H4.
Qed.

Lemma rounds_next t m i cls len :
  total = U * Z.of_nat N → (t < N)%nat → i < total + Z.of_nat t → rounds_ok (AState (SGot t m) i cls len) →
  rounds_ok (AState (next (S t) (i + 1)) (i + 1) cls len) ∧ 0 < m.
Proof.
  intros Ht HtN Hi (r & Hr & Ei & Hm & Hread). cbn [a_i] in *. split; [|done]. unfold next.
  destruct (Nat.ltb_spec (S t) N) as [Hlt|Hge].
  - exists r. split_and!; [done|cbn [a_i]; lia|]. intros j. specialize (Hread j).
    by replace (j <? S t)%nat with (j <=? t)%nat by done.
  - assert (t = N - 1)%nat as -> by lia. assert (i + 1 = Z.of_nat N * (r + 1)) as E by nia.
    destruct (Z.ltb_spec (i + 1) total) as [Hlt|Hge'].
    + exists (r + 1). split_and!; [lia|cbn [a_i]; lia|]. intros j. replace (j <? 0)%nat with false by done.
      eapply read_from_le; [|apply Hread]. destruct (j <=? N - 1)%nat; lia.
    + cbn. assert (r < U) by nia. nia.
Qed.

Lemma rounds_step a a' :
  total = U * Z.of_nat N → ainv a → own_channels a → rounds_ok a → astep a a' → own_channels a' ∧ rounds_ok a'.
Proof.
  intros Htot Hinv [Hl Hown] Hr Hs. pose proof Hinv as [Hc Hlen Hb Hsrv Hi _ _].
  destruct Hs as [i cls len|t i cls len|t i cls len n m Ht Hm Hw|t i cls len Ht Hg|t r i i' cls len ->|i cls len|i cls len
    |srv i cls len k ch c c' Hk Hc'|srv i cls len k ch n j Hg Hk Hn Hcp|i cls len k ch j Hk]; cbn [a_srv a_i a_cls a_len] in *.
  - split; [by split|]. cbn in Hsrv. subst i. unfold rounds_ok in *. cbn [a_srv a_i] in *. destruct (Z.ltb_spec 0 total); cbn; [|lia].
    exists 0. split_and!; [done|lia|]. intros j. apply Hr.
  - split; [by split|exact Hr].
  - split; [by split|]. destruct Hr as (r & H1 & H2 & H3). cbn [a_i] in *. exists r. cbn [a_i]. split_and!; [done|done|lia|].
    intros j d q Hd Hq. cbn [a_cls a_len] in *. specialize (H3 j d). cbn [a_cls a_len] in H3.
    destruct (decide (j = t)) as [->|Hne].
    + rewrite list_lookup_insert_eq in Hq by (by eapply lookup_lt_Some). injection Hq as <-.
      specialize (H3 n Hd Ht). rewrite (proj2 (Nat.ltb_ge t t)) in H3 by lia. rewrite (proj2 (Nat.leb_le t t)) by lia. nia.
    + rewrite list_lookup_insert_ne in Hq by done. specialize (H3 q Hd Hq).
      destruct (Nat.ltb_spec j t), (Nat.leb_spec j t); try lia; nia.
  - exfalso. destruct Hr as (r & H1 & H2 & H3). cbn [a_i] in *. destruct Hsrv as [HtN Hlt].
    destruct (lookup_lt_is_Some_2 cls t) as [c Hct]; [lia|]. specialize (H3 t c 0 Hct Ht).
    rewrite (proj2 (Nat.ltb_ge t t)) in H3 by lia.
    pose proof (Forall_lookup_1 _ _ _ _ Hg Hct (Hown _ _ Hct)) as Hgone.
    pose proof (Forall_lookup_1 _ _ _ _ Hc Hct) as [_ Hok]. destruct (ac_at c); try done. cbn in H3.
    destruct Hok as [_ Hok]. rewrite (Hok ltac:(done)) in H3. assert (U <= r) by nia. nia.
  - split; [by split|]. destruct Hsrv as (HtN & Hlt & _).
    destruct (rounds_next _ _ _ _ _ Htot HtN Hlt Hr) as [Hn Hm]. by rewrite (proj2 (Z.ltb_lt 0 r)).
  - by split.
  - by split.
  - assert (sent c' = sent c) as Hsent.
    { pose proof (Forall_lookup_1 _ _ _ _ Hc Hk) as [_ Hcl]. cbn in Hcl. unfold cnext in *.
      destruct c; try done; subst c'; try done. destruct (Z.ltb_spec i0 U); cbn; lia. }
    split; [split; cbn [a_cls]; [by rewrite length_insert|]|].
    + intros q d Hd. apply list_lookup_insert_Some in Hd as [(-> & <- & _)|[_ Hd]]; [|by apply Hown]. cbn. by apply (Hown _ _ Hk).
    + eapply rounds_client; [|exact Hr]. intros j b. by eapply read_from_client.
  - pose proof (Hown _ _ Hk) as E. cbn in E. subst ch. split; [split; cbn [a_cls]; [by rewrite length_insert|]|].
    + intros q d Hd. apply list_lookup_insert_Some in Hd as [(-> & <- & _)|[_ Hd]]; [done|by apply Hown].
    + eapply rounds_client; [|exact Hr]. intros q b. by apply read_from_write.
  - split; [split; cbn [a_cls]; [by rewrite length_insert|]|].
    + intros q d Hd. apply list_lookup_insert_Some in Hd as [(-> & <- & _)|[_ Hd]]; [|by apply Hown]. cbn. by apply (Hown _ _ Hk).
    + exact Hr.
Qed.

(** ** The beginning and the end *)

(** One client per element of [chans], which says what channel it writes to. *)
Definition astart (chans : list nat) : astate :=
  AState SStart 0 ((λ ch, AClient ch (cnext 0)) <$> chans) (replicate N 0).

(** When the server has ended: the insertions, and the bytes that nobody has read. *)
Lemma ended_count a :
  0 <= total → ainv a → a_srv a = SGone → (N = 1%nat ∨ rounds_ok a) → a_i a = total ∧ (whole = true → Forall (λ n, n = 0) (a_len a)).
Proof.
  intros Htot Hinv E Hone. pose proof (rest_nonneg a Hinv) as Hr. pose proof Hinv as [Hc _ Hb Hs Hi H1 H2].
  rewrite E in *. cbn [server_ok in_hand] in *.
  assert (a_i a = total) as Ei.
  { destruct Hone as [HN1|Hrounds]; [lia|]. unfold rounds_ok in Hrounds. by rewrite E in Hrounds. }
  split; [done|]. intros W. specialize (H2 W). assert (rest a = 0) as H0 by nia. unfold rest in H0.
  assert (0 <= zsum unsent (a_cls a)) by (apply sum_nonneg; eapply Forall_impl; [exact Hc|apply unsent_nonneg]).
  assert (Forall (λ n, 0 <= n) (a_len a)) as Hn by (eapply Forall_impl; [exact Hb|by intros n [? _]]).
  assert (zsum (λ n, n) (a_len a) = 0) as Hz by (pose proof (sum_nonneg _ _ Hn); nia).
  apply Forall_lookup. intros k n Hk. pose proof (zsum_one _ _ _ _ Hn Hk). pose proof (Forall_lookup_1 _ _ _ _ Hn Hk). cbn in *. lia.
Qed.

Lemma sent_cnext i : i <= U → sent (cnext i) = i.
Proof. unfold cnext. intros. destruct (Z.ltb_spec i U); cbn; lia. Qed.

Context (chans : list nat) (Hchans : Forall (λ ch, ch < N)%nat chans) (Htotal : total = U * Z.of_nat (length chans)).

Lemma start_rest : rest (astart chans) = L * total.
Proof.
  unfold rest, astart. cbn [a_cls a_len]. rewrite zsum_replicate, (zsum_const _ U).
  - rewrite length_fmap, Htotal. lia.
  - apply Forall_fmap, Forall_true. intros ch. unfold unsent. cbn. rewrite sent_cnext; lia.
Qed.

Lemma ainv_start : ainv (astart chans).
Proof.
  split; try rewrite start_rest; cbn [astart a_srv a_i a_cls a_len in_hand server_ok]; try lia.
  - apply Forall_fmap. eapply Forall_impl; [exact Hchans|]. intros ch Hch. split; [done|]. cbn. unfold cnext.
    destruct (Z.ltb_spec 0 U); [lia|done].
  - apply length_replicate.
  - apply Forall_replicate. split; [done|]. intros _. exists 0. lia.
Qed.

(** How long a run can be. *)
Definition most_steps : Z :=
  slack * (L * total) + (6 * Z.of_nat N + 10) + Z.of_nat (length chans) * (3 * U + 2).

Lemma start_steps : steps_left (astart chans) <= most_steps.
Proof.
  unfold steps_left, most_steps. rewrite start_rest. unfold server_steps. cbn [astart a_cls a_srv].
  assert (zsum client_steps ((λ ch, AClient ch (cnext 0)) <$> chans) <= Z.of_nat (length chans) * (3 * U + 2)); [|lia].
  rewrite <- (length_fmap (λ ch, AClient ch (cnext 0)) chans). apply zsum_bound, Forall_fmap, Forall_true.
  intros ch. unfold client_steps, cnext. cbn. destruct (Z.ltb_spec 0 U); lia.
Qed.

Lemma start_own : chans = seq 0 N → own_channels (astart chans) ∧ rounds_ok (astart chans).
Proof.
  intros ->. split; [split|].
  - cbn [astart a_cls]. by rewrite length_fmap, length_seq.
  - cbn [astart a_cls]. intros k c Hc. rewrite list_lookup_fmap in Hc. destruct (seq 0 N !! k) as [ch|] eqn:E; [|done].
    injection Hc as <-. apply lookup_seq in E as [-> _]. done.
  - intros j c n Hc Hn. cbn [astart a_cls a_len] in *. rewrite list_lookup_fmap in Hc.
    destruct (seq 0 N !! j) as [ch|]; [|done]. injection Hc as <-. apply lookup_replicate in Hn as [-> _].
    cbn [ac_at]. rewrite sent_cnext; lia.
Qed.

End model.
