(* ===== verification/StreamSpec.v ===== *)
(** * The benchmarks over pipes and sockets, all processes together

    The server and the clients of [IpcPrograms] as processes that run in any
    interleaving, with a byte channel per descriptor of the server: [step].  A write
    waits until its bytes fit, a read until there is a byte; a read may take less
    than there is ([whole] says that it does not, as on pipes); the end of a channel
    is read when all its clients have ended; a client that writes after the server
    has ended is killed.  The programs follow [StreamModel], and with its properties
    the benchmarks end with the insertions they should. *)

From S2P Require Import Prelude CMem CLogic MessageSpec Arrays Demo SystemSpec WeissList TestPrograms Posix IpcPrograms IpcSpec StreamModel.
From stdpp Require Import base numbers list strings gmap.
From ITree Require Import ITree ITreeFacts.
From Stdlib Require Import Lia.
#[local] Open Scope Z_scope.
#[local] Open Scope io_scope.
Import WeissList.

(** ** Processes and channels *)

(** A client: its process, the block and value of its descriptor, the block and the
    bytes of its message, and the channel that the descriptor is of. *)
Record client_info := Client {
  ci_pid : Z; ci_fdb : Z; ci_fd : Z; ci_data : Z; ci_bytes : list memval; ci_chan : nat }.

(** The memory, the bytes in the channels, and what each process has still to do;
    [None] when it has ended. *)
Record cfg := Cfg {
  c_world : world; c_chans : list (list memval); c_server : option (io unit); c_clients : list (option (io unit)) }.

Section network.
(** The process of the server and its descriptors, in the order of the channels. *)
Context (p : Z) (sfds : list Z) (cs : list client_info) (cap : Z) (whole : bool).

Inductive step : cfg → cfg → Prop :=
| server_mem w ch t cl {A} (c : M A) k a w' :
    t ≈ Vis (Mem c) k → c p w = Ok a w' → step (Cfg w ch (Some t) cl) (Cfg w' ch (Some (k a)) cl)
| server_read w ch t cl fd buf n k j data m w' :
    t ≈ Vis (Sys (Read fd buf n)) k → sfds !! j = Some fd → ch !! j = Some data →
    1 <= m <= Z.min n (Z.of_nat (length data)) → (whole = true → m = Z.min n (Z.of_nat (length data))) →
    store buf (take (Z.to_nat m) data) p w = Ok tt w' →
    step (Cfg w ch (Some t) cl) (Cfg w' (<[j := drop (Z.to_nat m) data]> ch) (Some (k m)) cl)
| server_eof w ch t cl fd buf n k j :
    t ≈ Vis (Sys (Read fd buf n)) k → sfds !! j = Some fd → ch !! j = Some [] →
    (∀ i c, cs !! i = Some c → ci_chan c = j → cl !! i = Some None) →
    step (Cfg w ch (Some t) cl) (Cfg w ch (Some (k 0)) cl)
| server_exit w ch t cl : t ≈ done_with tt → step (Cfg w ch (Some t) cl) (Cfg w ch None cl)
| client_mem w ch s cl i c t {A} (d : M A) k a w' :
    cs !! i = Some c → cl !! i = Some (Some t) → t ≈ Vis (Mem d) k → d (ci_pid c) w = Ok a w' →
    step (Cfg w ch s cl) (Cfg w' ch s (<[i := Some (k a)]> cl))
| client_write w ch t cl i c u fd buf n k data bytes :
    cs !! i = Some c → cl !! i = Some (Some u) → u ≈ Vis (Sys (Write fd buf n)) k → fd = ci_fd c →
    ch !! ci_chan c = Some data → load buf (Z.to_nat n) (ci_pid c) w = Ok bytes w →
    Z.of_nat (length data) + n <= cap →
    step (Cfg w ch (Some t) cl) (Cfg w (<[ci_chan c := data ++ bytes]> ch) (Some t) (<[i := Some (k n)]> cl))
| client_sigpipe w ch cl i u fd buf n k :
    cl !! i = Some (Some u) → u ≈ Vis (Sys (Write fd buf n)) k →
    step (Cfg w ch None cl) (Cfg w ch None (<[i := None]> cl))
| client_exit w ch s cl i u :
    cl !! i = Some (Some u) → u ≈ done_with tt → step (Cfg w ch s cl) (Cfg w ch s (<[i := None]> cl)).

(** [steps n x y]: [n] steps lead from [x] to [y]. *)
Inductive steps : nat → cfg → cfg → Prop :=
| steps_nil x : steps 0 x x
| steps_snoc n x y z : steps n x y → step y z → steps (S n) x z.

(** No process can go on. *)
Definition stuck (x : cfg) : Prop := ∀ y, ¬ step x y.

(** No process is at a statement with undefined behaviour. *)
Definition fault_free (x : cfg) : Prop :=
  (∀ t A (c : M A) k, c_server x = Some t → t ≈ Vis (Mem c) k → ∃ a w, c p (c_world x) = Ok a w) ∧
  (∀ i c t A (d : M A) k, cs !! i = Some c → c_clients x !! i = Some (Some t) → t ≈ Vis (Mem d) k →
     ∃ a w, d (ci_pid c) (c_world x) = Ok a w).

End network.

(** ** The programs, with what they differ in as arguments *)

Section programs.
(** [N] descriptors at [fds], [total] messages, a buffer of [blen] bytes. *)
Context (N : nat) (total len blen U : Z) (fds : ptr) (received : Z → Z * ptr → M (Z * ptr)).

Definition channel_turn (buf : ptr) (t : Z) (st : Z * ptr) : io (Z * ptr) :=
  fd <- mem (ld_i32 (idx_i32 fds t));;
  rs <- sys (Read fd buf len);;
  mem (received rs st).

Definition serving (buf : ptr) (st : Z * ptr) : io (Z * ptr) :=
  while (λ st, st.1 <? total) (λ st, for_each N 0 st (channel_turn buf)) st.

Definition server_program (pos : ptr) : io unit :=
  buf <- mem (malloc blen);;
  st <- serving buf (0, pos);;
  mem (free buf).

(** The rest of a round, from channel [t] on, and of the program. *)
Definition round_from (buf : ptr) (t : nat) (st : Z * ptr) : io unit :=
  st <- for_each (N - t) (Z.of_nat t) st (channel_turn buf);;
  st <- serving buf st;;
  mem (free buf).

Definition client_program (fd data : ptr) (after : Z → Z → M unit) (i : Z) : io unit :=
  for_each (Z.to_nat (U - i)) i tt (λ i _,
    f <- mem (ld_i32 fd);;
    ws <- sys (Write f data len);;
    mem (after i ws)).

Lemma serving_unfold buf st :
  (st <- serving buf st;; mem (free buf)) ≈ (if st.1 <? total then round_from buf 0 st else mem (free buf)).
Proof.
  unfold serving at 1. rewrite while_unfold. unfold round_from. rewrite Nat.sub_0_r. destruct (st.1 <? total).
  - rewrite Eqit.bind_bind. reflexivity.
  - rewrite bind_done. reflexivity.
Qed.

Lemma round_step buf t st :
  (t < N)%nat → round_from buf t st ≈ (st <- channel_turn buf (Z.of_nat t) st;; round_from buf (S t) st).
Proof.
  intros Ht. unfold round_from. replace (N - t)%nat with (S (N - S t)) by lia. cbn [for_each].
  rewrite Eqit.bind_bind. replace (Z.of_nat (S t)) with (Z.of_nat t + 1) by lia. reflexivity.
Qed.

Lemma round_end buf t st : (N <= t)%nat → round_from buf t st ≈ (st <- serving buf st;; mem (free buf)).
Proof. intros Ht. unfold round_from. replace (N - t)%nat with 0%nat by lia. cbn [for_each]. rewrite bind_done. reflexivity. Qed.

Lemma client_step fd data after i :
  i < U → client_program fd data after i ≈
    (f <- mem (ld_i32 fd);; ws <- sys (Write f data len);; mem (after i ws);;; client_program fd data after (i + 1)).
Proof.
  intros Hi. unfold client_program. replace (Z.to_nat (U - i)) with (S (Z.to_nat (U - (i + 1)))) by lia. cbn [for_each].
  rewrite Eqit.bind_bind. apply eutt_eq_bind. intros f. rewrite Eqit.bind_bind. apply eutt_eq_bind. intros ws.
  apply eutt_eq_bind. intros []. reflexivity.
Qed.

Lemma client_end fd data after i : U <= i → client_program fd data after i ≈ done_with tt.
Proof. intros Hi. unfold client_program. by replace (Z.to_nat (U - i)) with 0%nat by lia. Qed.

End programs.

(** ** The programs follow the model *)

(** Two memories with the same blocks: what [printf] changes is not among them. *)
Definition same_memory (w w' : world) : Prop := w_blocks w' = w_blocks w ∧ w_next w' = w_next w.

(** What the programs have in common in how they handle the result of a read: one
    insertion for a message, and none otherwise. *)
Record inserts (p h update_size : Z) (received : Z → Z * ptr → M (Z * ptr)) : Prop := {
  in_none w i pos rs : rs <= 0 → wp (received rs (i, pos)) p w (λ st w', st = (i, pos) ∧ same_memory w w');
  in_some w l i rs :
    0 < rs → full p h update_size w l → is_s32 (i + 1) →
    wp (received rs (i, Addr p (last_of h l) 0)) p w (λ st w', ∃ c,
      st = (i + 1, Addr p (last_of h (l ++ [(c, update_size)])) 0) ∧ c = w_next w ∧
      full p h update_size w' (l ++ [(c, update_size)]) ∧
      (∀ b bs, b ∉ h :: l.*1 → mb w b 0 bs → mb w' b 0 bs) ∧ (∀ b n, valid w b 0 n → valid w' b 0 n))
}.

(** A client computes nothing after a write that changes its memory. *)
Definition prints (after : Z → Z → M unit) : Prop :=
  ∀ i ws q w, ∃ w', after i ws q w = Ok tt w' ∧ same_memory w w'.

Section follow.
Context (p : Z) (sfds : list Z) (cs : list client_info) (cap : Z) (whole : bool).
Context (total len blen U update_size h fb : Z) (received : Z → Z * ptr → M (Z * ptr)) (after : Z → Z → M unit).
Let N : nat := length sfds.

Context (Hlen : 1 <= len) (Hblen : len <= blen < 140737488355328) (HU : 0 <= U) (Hcap : len <= cap) (HN : (0 < N)%nat).
Context (Hint : total + Z.of_nat N <= 2147483647).
Context (Hin : inserts p h update_size received) (Hafter : prints after).
Context (Hfds : NoDup sfds) (Hsfds : Forall is_s32 sfds).
Context (Hcs : Forall (λ c, (ci_chan c < N)%nat ∧ is_s32 (ci_fd c) ∧ Z.of_nat (length (ci_bytes c)) = len) cs).

(** The memory that nobody changes: descriptors and messages. *)
Definition client_facts (c : client_info) : list (Z * list memval) := [(ci_fdb c, enc_i32 (ci_fd c)); (ci_data c, ci_bytes c)].
Definition facts : list (Z * list memval) := (fb, ints sfds) :: (cs ≫= client_facts).

Definition kept (w : world) (l : list (Z * Z)) : Prop :=
  full p h update_size w l ∧ Forall (λ f, mb w f.1 0 f.2 ∧ f.1 ∉ h :: l.*1) facts.

Definition buffer (w : world) (l : list (Z * Z)) (b : Z) : Prop :=
  valid w b 0 (Z.to_nat len) ∧ b ∉ h :: l.*1 ∧ Forall (λ f : Z * list memval, f.1 ≠ b) facts.

Lemma client_fact w l i c : kept w l → cs !! i = Some c → mb w (ci_fdb c) 0 (enc_i32 (ci_fd c)) ∧ mb w (ci_data c) 0 (ci_bytes c).
Proof.
  intros [_ Hf] Hc. rewrite Forall_forall in Hf. unfold facts in Hf.
  assert (∀ f, f ∈ client_facts c → f ∈ (fb, ints sfds) :: (cs ≫= client_facts)) as Hsub.
  { intros f Hfc. right. apply list_elem_of_bind. exists c. split; [done|]. by eapply list_elem_of_lookup_2. }
  split; [apply (Hf (ci_fdb c, enc_i32 (ci_fd c)))|apply (Hf (ci_data c, ci_bytes c))]; apply Hsub; [by left|right; by left].
Qed.

Lemma kept_same w w' l : same_memory w w' → kept w l → kept w' l.
Proof.
  intros [Hb Hn] [(Hok & Hl & Hv) Hf]. split.
  - split; [intros b; rewrite Hn, Hb; apply Hok|]. split; [by eapply list_at_same|done].
  - eapply Forall_impl; [exact Hf|]. intros f [Hm Hout]. split; [by eapply mb_same_blocks|done].
Qed.

Lemma buffer_same w w' l b : same_memory w w' → buffer w l b → buffer w' l b.
Proof. intros [Hb Hn] (Hv & H). split; [by eapply valid_same_blocks|done]. Qed.

(** The tree of the server and its state, at each place of the model. *)
Definition server_tree (buf : ptr) (srv : server_at) (st : Z * ptr) : io unit :=
  match srv with
  | SFd t => st <- channel_turn len (Addr p fb 0) received buf (Z.of_nat t) st;; round_from N total len (Addr p fb 0) received buf (S t) st
  | SGot t r => st <- mem (received r st);; round_from N total len (Addr p fb 0) received buf (S t) st
  | _ => mem (free buf)
  end.

Definition server_rel (w : world) (o : option (io unit)) (srv : server_at) (i : Z) : Prop :=
  ∃ l, kept w l ∧ i = Z.of_nat (length l) ∧
  match srv with
  | SStart => l = [] ∧ ∃ t, o = Some t ∧ t ≈ server_program N total len blen (Addr p fb 0) received (Addr p h 0)
  | SFd _ | SGot _ _ | SFree =>
      ∃ t b, o = Some t ∧ buffer w l b ∧ t ≈ server_tree (Addr p b 0) srv (i, Addr p (last_of h l) 0)
  | SRead t => ∃ u b fd, o = Some u ∧ buffer w l b ∧ sfds !! t = Some fd ∧
      u ≈ (rs <- sys (Read fd (Addr p b 0) len);; server_tree (Addr p b 0) (SGot t rs) (i, Addr p (last_of h l) 0))
  | SEnd => ∃ t, o = Some t ∧ t ≈ done_with tt
  | SGone => o = None
  end.

Definition client_rest (c : client_info) (i : Z) : io unit :=
  client_program len U (Addr (ci_pid c) (ci_fdb c) 0) (Addr (ci_pid c) (ci_data c) 0) after i.

Definition client_rel (c : client_info) (o : option (io unit)) (at_ : client_at) : Prop :=
  match at_ with
  | CGone _ => o = None
  | CEnd => ∃ t, o = Some t ∧ t ≈ done_with tt
  | CFd i => ∃ t, o = Some t ∧ t ≈ client_rest c i
  | CWrite i => ∃ t, o = Some t ∧
      t ≈ (ws <- sys (Write (ci_fd c) (Addr (ci_pid c) (ci_data c) 0) len);; mem (after i ws);;; client_rest c (i + 1))
  | CSent i => ∃ t ws, o = Some t ∧ t ≈ (mem (after (i - 1) ws);;; client_rest c i)
  end.

(** The programs are where the model says. *)
Record follows (x : cfg) (a : astate) : Prop := {
  fo_server : server_rel (c_world x) (c_server x) (a_srv a) (a_i a);
  fo_length : length (c_clients x) = length cs ∧ length (a_cls a) = length cs;
  fo_clients i c o ac : cs !! i = Some c → c_clients x !! i = Some o → a_cls a !! i = Some ac →
    ac_chan ac = ci_chan c ∧ client_rel c o (ac_at ac);
  fo_chans : a_len a = (λ d, Z.of_nat (length d)) <$> c_chans x
}.

Lemma server_rel_same w w' o srv i : same_memory w w' → server_rel w o srv i → server_rel w' o srv i.
Proof.
  intros Hs (l & Hk & Hi & H). exists l. split; [by eapply kept_same|]. split; [done|].
  assert (∀ b, buffer w l b → buffer w' l b) as Hb by (intros b; by apply buffer_same).
  destruct srv.
  - exact H.
  - destruct H as (t' & b & H1 & H2 & H3). exists t', b. auto.
  - destruct H as (u & b & fd & H1 & H2 & H3). exists u, b, fd. auto.
  - destruct H as (t' & b & H1 & H2 & H3). exists t', b. auto.
  - destruct H as (t' & b & H1 & H2 & H3). exists t', b. auto.
  - exact H.
  - exact H.
Qed.

(** *** The server *)

Lemma round_next buf t i pos :
  (t <= N)%nat → round_from N total len (Addr p fb 0) received buf t (i, pos) ≈ server_tree buf (next N total t i) (i, pos).
Proof.
  intros Ht. unfold next. destruct (Nat.ltb_spec t N).
  - by rewrite round_step.
  - rewrite round_end, serving_unfold by done. cbn [fst]. destruct (i <? total); [|reflexivity]. by rewrite round_step.
Qed.

Lemma next_rel w l b o t i :
  kept w l → i = Z.of_nat (length l) → buffer w l b →
  (∃ u, o = Some u ∧ u ≈ server_tree (Addr p b 0) (next N total t i) (i, Addr p (last_of h l) 0)) →
  server_rel w o (next N total t i) i.
Proof.
  intros Hk Hi Hb (u & -> & Hu). exists l. split; [done|]. split; [done|]. unfold next in *.
  destruct (t <? N)%nat; [by exists u, b|]. destruct (i <? total); by exists u, b.
Qed.

(** The computation of the server, if it is about to compute, and its place after it. *)
Definition computed (srv : server_at) (i : Z) : option (server_at * Z) :=
  match srv with
  | SStart => Some (if i <? total then SFd 0 else SFree, i)
  | SFd t => Some (SRead t, i)
  | SGot t r => let i' := if 0 <? r then i + 1 else i in Some (next N total (S t) i', i')
  | SFree => Some (SEnd, i)
  | _ => None
  end.

Lemma start_computes w o i :
  server_rel w o SStart i → server_ok N total SStart i →
  ∃ t A (c : M A) k a w', o = Some t ∧ t ≈ Vis (Mem c) k ∧ c p w = Ok a w' ∧
    server_rel w' (Some (k a)) (if i <? total then SFd 0 else SFree) i.
Proof.
  intros (l & Hk & Hi & -> & t & -> & Ht) _. pose proof Hk as [Hf Hfacts].
  assert (wp (malloc blen) p w (λ a w', ∃ b, a = Addr p b 0 ∧ kept w' [] ∧ buffer w' [] b)) as (a & w' & E & b & -> & Hk' & Hb')%wp_Ok.
  { apply (full_malloc p h update_size w []); [done|lia|]. intros w' Hf' Hv Hb He. exists (w_next w). split; [done|]. split.
    - split; [done|]. eapply Forall_impl; [exact Hfacts|]. intros f [Hm Hout]. split; [|done].
      eapply mb_extF; [exact He|by intros j _ []|done].
    - split; [eapply valid_le; [exact Hv|lia|lia]|]. split; [done|]. eapply Forall_impl; [exact Hfacts|].
      intros f [Hm _] Ef. pose proof (mb_fresh _ _ _ _ (proj1 Hf) Hm). lia. }
  exists t, ptr, (malloc blen). eexists _, (Addr p b 0), w'. split; [done|]. split.
  { rewrite Ht. unfold server_program. apply bind_mem. }
  split; [done|]. cbn beta. assert ((if i <? total then SFd 0 else SFree) = next N total N i) as ->.
  { unfold next. by rewrite (proj2 (Nat.ltb_ge N N)) by lia. }
  apply (next_rel w' [] b); [done|done|done|]. eexists. split; [done|]. rewrite Hi. cbn [length Z.of_nat].
  rewrite <- round_next by lia. rewrite round_end by lia. reflexivity.
Qed.

Lemma fd_computes w o t i :
  server_rel w o (SFd t) i → server_ok N total (SFd t) i →
  ∃ u A (c : M A) k a w', o = Some u ∧ u ≈ Vis (Mem c) k ∧ c p w = Ok a w' ∧ server_rel w' (Some (k a)) (SRead t) i.
Proof.
  intros (l & Hk & Hi & u & b & -> & Hb & Hu) [Ht _]. destruct (lookup_lt_is_Some_2 sfds t Ht) as [fd Hfd].
  assert (wp (ld_i32 (idx_i32 (Addr p fb 0) (Z.of_nat t))) p w (λ a w', a = fd ∧ w' = w)) as (a & w' & E & -> & ->)%wp_Ok.
  { destruct Hk as [_ Hf]. apply Forall_cons in Hf as [[Hm _] _]. cbn [fst snd] in Hm.
    eapply ld_int_wp; [exact Hm|lia|by rewrite Nat2Z.id|by eapply Forall_lookup_1|done]. }
  eexists u, Z, _, _, fd, w. split; [done|]. split.
  { rewrite Hu. cbn [server_tree]. unfold channel_turn. rewrite Eqit.bind_bind. apply bind_mem. }
  split; [exact E|]. cbn beta. exists l. split; [done|]. split; [done|]. eexists _, b, fd. split; [done|]. split; [done|]. split; [done|].
  cbn [server_tree]. rewrite Eqit.bind_bind. reflexivity.
Qed.

Lemma got_computes w o t r i :
  server_rel w o (SGot t r) i → server_ok N total (SGot t r) i →
  let i' := if 0 <? r then i + 1 else i in
  ∃ u A (c : M A) k a w', o = Some u ∧ u ≈ Vis (Mem c) k ∧ c p w = Ok a w' ∧
    server_rel w' (Some (k a)) (next N total (S t) i') i'.
Proof.
  intros (l & Hk & Hi & u & b & -> & Hb & Hu) (Ht & Hle & Hr) i'. pose proof Hk as [Hf Hfacts].
  destruct Hb as (Hv & Hbl & Hbf).
  assert (wp (received r (i, Addr p (last_of h l) 0)) p w (λ st w', ∃ l', kept w' l' ∧ buffer w' l' b ∧
    i' = Z.of_nat (length l') ∧ st = (i', Addr p (last_of h l') 0))) as (a & w' & E & l' & Hk' & Hb' & Hi' & ->)%wp_Ok.
  { unfold i'. destruct (Z.ltb_spec 0 r).
    - eapply wp_mono; [apply (in_some _ _ _ _ Hin); [done|done|unfold is_s32; lia]|]. cbv beta.
      intros st w' (c & -> & Hc & Hf' & Hmb & Hva). exists (l ++ [(c, update_size)]). split; [|split; [|split]].
      + split; [done|]. eapply Forall_impl; [exact Hfacts|]. intros f [Hm Hout]. split; [by apply Hmb|].
        pose proof (mb_fresh _ _ _ _ (proj1 Hf) Hm). rewrite fmap_app. cbn [fmap list_fmap fst].
        rewrite elem_of_cons, elem_of_app, list_elem_of_singleton in *. intros [?|[?|?]]; [tauto|tauto|lia].
      + split; [by apply Hva|]. split; [|done]. pose proof (valid_fresh _ _ _ _ (proj1 Hf) Hv).
        rewrite fmap_app. cbn [fmap list_fmap fst]. rewrite elem_of_cons, elem_of_app, list_elem_of_singleton in *.
        intros [?|[?|?]]; [tauto|tauto|lia].
      + rewrite length_app. cbn [length]. lia.
      + done.
    - eapply wp_mono; [apply (in_none _ _ _ _ Hin); lia|]. cbv beta. intros st w' [-> Hs]. exists l.
      split; [by eapply kept_same|]. split; [by eapply buffer_same|done]. }
  eexists u, _, _, _, _, w'. split; [done|]. split; [rewrite Hu; cbn [server_tree]; apply bind_mem|].
  split; [exact E|]. cbn beta. apply (next_rel w' l' b); [done..|]. eexists. split; [done|]. apply round_next. lia.
Qed.

Lemma free_computes w o i :
  server_rel w o SFree i →
  ∃ u A (c : M A) k a w', o = Some u ∧ u ≈ Vis (Mem c) k ∧ c p w = Ok a w' ∧ server_rel w' (Some (k a)) SEnd i.
Proof.
  intros (l & [Hf Hfacts] & Hi & u & b & -> & (Hv & Hbl & Hbf) & Hu). destruct (valid_block _ _ _ _ Hv) as [kb Hkb].
  assert (wp (free (Addr p b 0)) p w (λ _ w', w' = set_blocks (delete b) w)) as ([] & w' & E & ->)%wp_Ok by by eapply wp_free.
  exists u, unit, (free (Addr p b 0)), (λ x, done_with x), tt. eexists. split; [done|]. split; [rewrite Hu; reflexivity|]. split; [exact E|].
  exists l. split; [|split; [done|by eexists]]. split; [by apply full_free|].
  apply Forall_forall. intros f Hfi. rewrite Forall_forall in Hfacts, Hbf. destruct (Hfacts f Hfi) as [Hm Hout].
  split; [|done]. apply mb_free; [by apply Hbf|done].
Qed.

Lemma server_computes w o srv i srv' i' :
  server_rel w o srv i → server_ok N total srv i → computed srv i = Some (srv', i') →
  ∃ u A (c : M A) k a w', o = Some u ∧ u ≈ Vis (Mem c) k ∧ c p w = Ok a w' ∧ server_rel w' (Some (k a)) srv' i'.
Proof.
  intros Hr Hok Hc. destruct srv; try done; cbn [computed] in Hc; injection Hc as <- <-.
  - by apply start_computes.
  - by apply fd_computes.
  - by apply got_computes.
  - by apply free_computes.
Qed.

Lemma server_rel_eutt w t t' srv i : t ≈ t' → server_rel w (Some t) srv i → server_rel w (Some t') srv i.
Proof.
  intros E (l & Hk & Hi & H). exists l. split; [done|]. split; [done|].
  destruct srv.
  - destruct H as (H0 & u & [= <-] & Hu). split; [done|]. exists t'. split; [done|]. by rewrite <- E.
  - destruct H as (u & b & [= <-] & Hb & Hu). exists t', b. split; [done|]. split; [done|]. by rewrite <- E.
  - destruct H as (u & b & fd & [= <-] & Hb & Hfd & Hu). exists t', b, fd. split; [done|]. split; [done|]. split; [done|]. by rewrite <- E.
  - destruct H as (u & b & [= <-] & Hb & Hu). exists t', b. split; [done|]. split; [done|]. by rewrite <- E.
  - destruct H as (u & b & [= <-] & Hb & Hu). exists t', b. split; [done|]. split; [done|]. by rewrite <- E.
  - destruct H as (u & [= <-] & Hu). exists t'. split; [done|]. by rewrite <- E.
  - done.
Qed.

(** What the server does next is what its place says. *)
Lemma read_next w t j i :
  server_rel w (Some t) (SRead j) i → ∃ l b fd, kept w l ∧ i = Z.of_nat (length l) ∧ buffer w l b ∧ sfds !! j = Some fd ∧
    t ≈ Vis (Sys (Read fd (Addr p b 0) len)) (λ rs, server_tree (Addr p b 0) (SGot j rs) (i, Addr p (last_of h l) 0)).
Proof.
  intros (l & Hk & Hi & u & b & fd & [= <-] & Hb & Hfd & Hu). exists l, b, fd. split_and!; [done..|]. rewrite Hu. apply bind_sys.
Qed.

Lemma server_mem_inv w t srv i {A} (c : M A) k a w' :
  server_rel w (Some t) srv i → server_ok N total srv i → t ≈ Vis (Mem c) k → c p w = Ok a w' →
  ∃ srv' i', computed srv i = Some (srv', i') ∧ server_rel w' (Some (k a)) srv' i'.
Proof.
  intros Hr Hok Ht Hc. destruct (computed srv i) as [[srv' i']|] eqn:E.
  - destruct (server_computes _ _ _ _ _ _ Hr Hok E) as (u & B & d & h' & b & w2 & [= <-] & Hu & Hd & Hr').
    rewrite Ht in Hu. apply mem_inv in Hu as (<- & <- & Hk). cbn in *. rewrite Hc in Hd. injection Hd as <- <-.
    exists srv', i'. split; [done|]. eapply server_rel_eutt; [|exact Hr']. by rewrite Hk.
  - destruct srv; try done.
    + apply read_next in Hr as (l & b & fd & _ & _ & _ & _ & Hu). rewrite Ht in Hu. by apply mem_sys in Hu.
    + destruct Hr as (l & _ & _ & u & [= <-] & Hu). rewrite Ht in Hu. symmetry in Hu. by apply ret_vis in Hu.
    + by destruct Hr as (l & _ & _ & ?).
Qed.

Lemma server_sys_inv w t srv i e k :
  server_rel w (Some t) srv i → server_ok N total srv i → t ≈ Vis (Sys e) k →
  ∃ j l b fd, srv = SRead j ∧ kept w l ∧ i = Z.of_nat (length l) ∧ buffer w l b ∧ sfds !! j = Some fd ∧
    e = Read fd (Addr p b 0) len ∧ ∀ r, k r ≈ server_tree (Addr p b 0) (SGot j r) (i, Addr p (last_of h l) 0).
Proof.
  intros Hr Hok Ht. destruct (computed srv i) as [[srv' i']|] eqn:E.
  - destruct (server_computes _ _ _ _ _ _ Hr Hok E) as (u & B & d & h' & b & w2 & [= <-] & Hu & _ & _).
    rewrite Ht in Hu. symmetry in Hu. by apply mem_sys in Hu.
  - destruct srv; try done.
    + apply read_next in Hr as (l & b & fd & Hk & Hi & Hb & Hfd & Hu). rewrite Ht in Hu. apply sys_inv in Hu as [-> Hu].
      by exists t0, l, b, fd.
    + destruct Hr as (l & _ & _ & u & [= <-] & Hu). rewrite Ht in Hu. symmetry in Hu. by apply ret_vis in Hu.
    + by destruct Hr as (l & _ & _ & ?).
Qed.

Lemma server_done_inv w t srv i :
  server_rel w (Some t) srv i → server_ok N total srv i → t ≈ done_with tt → srv = SEnd.
Proof.
  intros Hr Hok Ht. destruct (computed srv i) as [[srv' i']|] eqn:E.
  - destruct (server_computes _ _ _ _ _ _ Hr Hok E) as (u & B & d & h' & b & w2 & [= <-] & Hu & _ & _).
    rewrite Ht in Hu. by apply ret_vis in Hu.
  - destruct srv; try done.
    + apply read_next in Hr as (l & b & fd & _ & _ & _ & _ & Hu). rewrite Ht in Hu. by apply ret_vis in Hu.
    + by destruct Hr as (l & _ & _ & ?).
Qed.

(** The read has put its bytes into the buffer. *)
Lemma read_rel w w' l b i j r bytes t :
  kept w l → i = Z.of_nat (length l) → buffer w l b → store (Addr p b 0) bytes p w = Ok tt w' →
  t ≈ server_tree (Addr p b 0) (SGot j r) (i, Addr p (last_of h l) 0) → server_rel w' (Some t) (SGot j r) i.
Proof.
  intros [Hf Hfacts] Hi (Hv & Hbl & Hbf) Hst Ht. destruct (full_store _ _ _ _ _ _ _ _ Hf Hbl Hst) as [Hf' He].
  exists l. split; [|split; [done|]].
  - split; [done|]. rewrite Forall_forall in *. intros f Hfi. destruct (Hfacts f Hfi) as [Hm Hout]. split; [|done].
    eapply mb_extF; [exact He| |exact Hm]. intros x _. by apply Hbf.
  - exists t, b. split; [done|]. split; [|done]. split; [by eapply valid_extF|done].
Qed.

(** *** The clients *)

Lemma fd_reads w l i c :
  kept w l → cs !! i = Some c → ld_i32 (Addr (ci_pid c) (ci_fdb c) 0) (ci_pid c) w = Ok (ci_fd c) w.
Proof.
  intros Hk Hc. destruct (client_fact _ _ _ _ Hk Hc) as [Hm _]. pose proof (Forall_lookup_1 _ _ _ _ Hcs Hc) as (_ & Hs & _).
  assert (wp (ld_i32 (Addr (ci_pid c) (ci_fdb c) 0)) (ci_pid c) w (λ a w', a = ci_fd c ∧ w' = w)) as (a & w' & E & -> & ->)%wp_Ok; [|done].
  eapply wp_ld_i32; [exact Hm|]. by rewrite s32_small.
Qed.

Lemma after_runs i ws c w :
  ∃ w', after i ws (ci_pid c) w = Ok tt w' ∧ same_memory w w'.
Proof. apply Hafter. Qed.

Lemma client_next c i t : 0 <= i <= U → t ≈ client_rest c i → client_rel c (Some t) (cnext U i).
Proof.
  intros Hi Ht. unfold cnext. destruct (Z.ltb_spec i U).
  - by exists t.
  - exists t. split; [done|]. rewrite Ht. apply client_end. lia.
Qed.

(** The client is at the computation that its place says. *)
Lemma client_computes w l k c o at_ srv :
  kept w l → cs !! k = Some c → client_rel c o at_ → client_ok N U srv (AClient (ci_chan c) at_) →
  match at_ with
  | CFd i => ∃ t k', o = Some t ∧ t ≈ Vis (Mem (ld_i32 (Addr (ci_pid c) (ci_fdb c) 0))) k' ∧
      client_rel c (Some (k' (ci_fd c))) (CWrite i)
  | CSent i => ∃ t ws k', o = Some t ∧ t ≈ Vis (Mem (after (i - 1) ws)) k' ∧ client_rel c (Some (k' tt)) (cnext U i)
  | _ => True
  end.
Proof.
  intros Hk Hc Hr [_ Hok]. cbn [ac_at] in Hok. destruct at_ as [i|i|i| |i]; try done.
  - destruct Hr as (t & -> & Ht). eexists t, _. split; [done|]. split.
    + rewrite Ht. unfold client_rest. rewrite client_step by lia. apply bind_mem.
    + cbn beta. by eexists.
  - destruct Hr as (t & ws & -> & Ht). eexists t, ws, _. split; [done|]. split; [rewrite Ht; apply bind_mem|].
    cbn beta. apply client_next; [lia|reflexivity].
Qed.

Lemma client_rel_eutt c t t' at_ : t ≈ t' → client_rel c (Some t) at_ → client_rel c (Some t') at_.
Proof.
  intros E. destruct at_ as [i|i|i| |i]; cbn [client_rel].
  - intros (u & [= <-] & H). exists t'. split; [done|]. by rewrite <- E.
  - intros (u & [= <-] & H). exists t'. split; [done|]. by rewrite <- E.
  - intros (u & ws & [= <-] & H). exists t', ws. split; [done|]. by rewrite <- E.
  - intros (u & [= <-] & H). exists t'. split; [done|]. by rewrite <- E.
  - done.
Qed.

Lemma client_mem_inv w l i c t at_ srv {A} (d : M A) k a w' :
  kept w l → cs !! i = Some c → client_rel c (Some t) at_ → client_ok N U srv (AClient (ci_chan c) at_) →
  t ≈ Vis (Mem d) k → d (ci_pid c) w = Ok a w' →
  ∃ at', (match at_ with CFd i => at' = CWrite i | CSent i => at' = cnext U i | CEnd => at' = CGone U | _ => False end) ∧
    same_memory w w' ∧ client_rel c (Some (k a)) at'.
Proof.
  intros Hk Hc Hr Hok Ht Hd. pose proof (client_computes _ _ _ _ _ _ _ Hk Hc Hr Hok) as H. destruct at_ as [j|j|j| |j].
  - destruct H as (u & k' & [= <-] & Hu & Hr'). rewrite Ht in Hu. symmetry in Hu. apply mem_inv in Hu as (<- & <- & Hkk). cbn in *.
    rewrite (fd_reads _ _ _ _ Hk Hc) in Hd. injection Hd as <- <-. eexists. split; [done|]. split; [done|].
    eapply client_rel_eutt; [|exact Hr']. by rewrite Hkk.
  - destruct Hr as (u & [= <-] & Hu). rewrite Ht, bind_sys in Hu. by apply mem_sys in Hu.
  - destruct H as (u & ws & k' & [= <-] & Hu & Hr'). rewrite Ht in Hu. symmetry in Hu. apply mem_inv in Hu as (<- & <- & Hkk). cbn in *.
    destruct (after_runs (j - 1) ws c w) as (w2 & E & Hs). rewrite E in Hd. injection Hd as <- <-. eexists. split; [done|].
    split; [done|]. eapply client_rel_eutt; [|exact Hr']. by rewrite Hkk.
  - destruct Hr as (u & [= <-] & Hu). rewrite Ht in Hu. symmetry in Hu. by apply ret_vis in Hu.
  - done.
Qed.

Lemma client_sys_inv w l i c t at_ srv e k :
  kept w l → cs !! i = Some c → client_rel c (Some t) at_ → client_ok N U srv (AClient (ci_chan c) at_) →
  t ≈ Vis (Sys e) k →
  ∃ j, at_ = CWrite j ∧ e = Write (ci_fd c) (Addr (ci_pid c) (ci_data c) 0) len ∧ ∀ r, client_rel c (Some (k r)) (CSent (j + 1)).
Proof.
  intros Hk Hc Hr Hok Ht. pose proof (client_computes _ _ _ _ _ _ _ Hk Hc Hr Hok) as H. destruct at_ as [j|j|j| |j].
  - destruct H as (u & k' & [= <-] & Hu & _). rewrite Ht in Hu. symmetry in Hu. by apply mem_sys in Hu.
  - destruct Hr as (u & [= <-] & Hu). rewrite Ht, bind_sys in Hu. apply sys_inv in Hu as [-> Hu]. exists j.
    split; [done|]. split; [done|]. intros r. exists (k r), r. split; [done|]. rewrite Hu. by replace (j + 1 - 1) with j by lia.
  - destruct H as (u & ws & k' & [= <-] & Hu & _). rewrite Ht in Hu. symmetry in Hu. by apply mem_sys in Hu.
  - destruct Hr as (u & [= <-] & Hu). rewrite Ht in Hu. symmetry in Hu. by apply ret_vis in Hu.
  - done.
Qed.

Lemma client_done_inv w l i c t at_ srv :
  kept w l → cs !! i = Some c → client_rel c (Some t) at_ → client_ok N U srv (AClient (ci_chan c) at_) →
  t ≈ done_with tt → at_ = CEnd.
Proof.
  intros Hk Hc Hr Hok Ht. pose proof (client_computes _ _ _ _ _ _ _ Hk Hc Hr Hok) as H. destruct at_ as [j|j|j| |j]; try done.
  - destruct H as (u & k' & [= <-] & Hu & _). rewrite Ht in Hu. by apply ret_vis in Hu.
  - destruct Hr as (u & [= <-] & Hu). rewrite Ht, bind_sys in Hu. by apply ret_vis in Hu.
  - destruct H as (u & ws & k' & [= <-] & Hu & _). rewrite Ht in Hu. by apply ret_vis in Hu.
Qed.

(** *** All together *)

Lemma server_none w srv i : server_rel w None srv i → srv = SGone.
Proof.
  intros (l & _ & _ & H). destruct srv; [by destruct H as (_ & u & ? & _)|by destruct H as (u & b & ? & _)|
    by destruct H as (u & b & fd & ? & _)|by destruct H as (u & b & ? & _)|by destruct H as (u & b & ? & _)|
    by destruct H as (u & ? & _)|done].
Qed.

Lemma follows_server w ch o cl srv i cls lens w' o' srv' i' :
  follows (Cfg w ch o cl) (AState srv i cls lens) → server_rel w' o' srv' i' →
  follows (Cfg w' ch o' cl) (AState srv' i' cls lens).
Proof. intros [H1 H2 H3 H4] Hr. by split. Qed.

Lemma follows_srv w ch o cl srv i cls lens :
  follows (Cfg w ch o cl) (AState srv i cls lens) → server_rel w o srv i.
Proof. apply fo_server. Qed.

Lemma client_of w ch s cl srv i cls lens k c :
  follows (Cfg w ch s cl) (AState srv i cls lens) → cs !! k = Some c →
  ∃ o at_, cl !! k = Some o ∧ cls !! k = Some (AClient (ci_chan c) at_) ∧ client_rel c o at_.
Proof.
  intros [_ [H2 H2'] H3 _] Hc. cbn in H2, H2'. pose proof (lookup_lt_Some _ _ _ Hc) as Hlt.
  destruct (lookup_lt_is_Some_2 cl k) as [o Ho]; [cbn in *; lia|].
  destruct (lookup_lt_is_Some_2 cls k) as [[ch' at_] Hat]; [cbn in *; lia|].
  destruct (H3 _ _ _ _ Hc Ho Hat) as [Hch Hr]. cbn in Hch. subst ch'. by exists o, at_.
Qed.

Lemma client_at_of w ch s cl srv i cls lens k c o :
  follows (Cfg w ch s cl) (AState srv i cls lens) → cs !! k = Some c → cl !! k = Some o →
  ∃ at_, cls !! k = Some (AClient (ci_chan c) at_) ∧ client_rel c o at_.
Proof.
  intros Hf Hc Ho. destruct (client_of _ _ _ _ _ _ _ _ _ _ Hf Hc) as (o' & at_ & Ho' & H).
  rewrite Ho in Ho'. injection Ho' as <-. by exists at_.
Qed.

Lemma client_ex w ch s cl a k o : follows (Cfg w ch s cl) a → cl !! k = Some o → ∃ c, cs !! k = Some c.
Proof.
  intros [_ [H2 _] _ _] Ho. cbn in H2. apply lookup_lt_is_Some_2. rewrite <- H2. by eapply lookup_lt_Some.
Qed.

Lemma follows_client w ch s cl srv i cls lens k c at_ w' o' at' :
  follows (Cfg w ch s cl) (AState srv i cls lens) → cs !! k = Some c → cls !! k = Some (AClient (ci_chan c) at_) →
  same_memory w w' → client_rel c o' at' →
  follows (Cfg w' ch s (<[k := o']> cl)) (AState srv i (<[k := AClient (ci_chan c) at']> cls) lens).
Proof.
  intros [H1 [H2 H2'] H3 H4] Hc Hat Hs Hr. cbn [c_world c_chans c_server c_clients a_srv a_i a_cls a_len] in *.
  split; cbn [c_world c_chans c_server c_clients a_srv a_i a_cls a_len].
  - by eapply server_rel_same.
  - by rewrite !length_insert.
  - intros k' c' o ac Hc' Ho Hac. destruct (decide (k' = k)) as [->|Hne].
    + rewrite Hc in Hc'. injection Hc' as <-. pose proof (lookup_lt_Some _ _ _ Hc).
      rewrite list_lookup_insert_eq in Ho by lia. rewrite (list_lookup_insert_eq cls k) in Hac by lia.
      injection Ho as <-. injection Hac as <-. done.
    + rewrite list_lookup_insert_ne in Ho by done. rewrite (list_lookup_insert_ne cls) in Hac by done. by eapply H3.
  - done.
Qed.

Lemma follows_len x a j data :
  follows x a → c_chans x !! j = Some data → a_len a !! j = Some (Z.of_nat (length data)).
Proof. intros [_ _ _ ->] Hj. by rewrite list_lookup_fmap, Hj. Qed.

Lemma follows_lens w ch s cl srv i cls lens j data n :
  follows (Cfg w ch s cl) (AState srv i cls lens) → n = Z.of_nat (length data) →
  follows (Cfg w (<[j := data]> ch) s cl) (AState srv i cls (<[j := n]> lens)).
Proof. intros [H1 H2 H3 H4] ->. split; [done..|]. cbn in *. by rewrite list_fmap_insert, H4. Qed.

Lemma follows_kept w ch s cl srv i cls lens : follows (Cfg w ch s cl) (AState srv i cls lens) → ∃ l, kept w l.
Proof. intros [(l & Hk & _) _ _ _]. by exists l. Qed.

(** The place of the server when a client of its, with tree [None], has ended. *)
Lemma ended_gone c at_ : client_rel c None at_ → gone at_ = true.
Proof. destruct at_; cbn; [by intros (? & ? & _)|by intros (? & ? & _)|by intros (? & ? & ? & _)|by intros (? & ? & _)|done]. Qed.

Lemma follows_gone w ch s cl srv i cls lens j :
  follows (Cfg w ch s cl) (AState srv i cls lens) →
  (∀ k c, cs !! k = Some c → ci_chan c = j → cl !! k = Some None) →
  Forall (λ c, ac_chan c = j → gone (ac_at c) = true) cls.
Proof.
  intros Hf Hended. apply Forall_lookup. intros k ac Hk Hj. pose proof Hf as [_ [_ H2] _ _]. cbn in H2.
  pose proof (lookup_lt_Some _ _ _ Hk) as Hlt.
  destruct (lookup_lt_is_Some_2 cs k) as [c Hc]; [lia|].
  destruct (client_of _ _ _ _ _ _ _ _ _ _ Hf Hc) as (o & at_ & Ho & Hat & Hr). rewrite Hk in Hat. injection Hat as ->.
  cbn in *. rewrite (Hended k c Hc Hj) in Ho. injection Ho as <-. by eapply ended_gone.
Qed.

Lemma server_sys_step w ch t cl srv i cls lens fd buf n k :
  follows (Cfg w ch (Some t) cl) (AState srv i cls lens) → server_ok N total srv i →
  t ≈ Vis (Sys (Read fd buf n)) k →
  ∃ j, srv = SRead j ∧ n = len ∧ (∀ j', sfds !! j' = Some fd → j' = j) ∧
    ∀ bytes w' m, store buf bytes p w = Ok tt w' → server_rel w' (Some (k m)) (SGot j m) i.
Proof.
  intros Hf Hok Ht. destruct (server_sys_inv _ _ _ _ _ _ (follows_srv _ _ _ _ _ _ _ _ Hf) Hok Ht) as (j & l & b & fd' & -> & Hk & Hi & Hb & Hfd & [= -> -> ->] & Hkk).
  exists j. split; [done|]. split; [done|]. split.
  - intros j' Hj'. by eapply NoDup_lookup.
  - intros bytes w' m Hst. by eapply read_rel.
Qed.

Lemma computed_step srv i srv' i' cls lens :
  computed srv i = Some (srv', i') → astep N U len total cap whole (AState srv i cls lens) (AState srv' i' cls lens).
Proof.
  destruct srv; cbn [computed]; intros [= <- <-]; [apply as_start|apply as_fd|by apply as_got|apply as_free].
Qed.

Lemma follows_step x y a :
  follows x a → ainv N U len total whole a → step p sfds cs cap whole x y →
  ∃ a', astep N U len total cap whole a a' ∧ follows y a'.
Proof.
  intros Hf Hinv Hs. destruct a as [srv i cls lens]. pose proof Hinv as [Hcls _ _ Hok _ _ _]. cbn in Hcls, Hok.
  assert (∀ k ch at_, cls !! k = Some (AClient ch at_) → client_ok N U srv (AClient ch at_)) as Hcok.
  { intros k ch at_ Hk. by apply (Forall_lookup_1 _ _ _ _ Hcls) in Hk. }
  destruct Hs as [w ch t cl A c k a w' Ht Hc|w ch t cl fd buf n k j data m w' Ht Hfd Hch Hm Hwm Hst
    |w ch t cl fd buf n k j Ht Hfd Hch Hend|w ch t cl Ht
    |w ch s cl q c t A d k a w' Hc Ho Ht Hd|w ch t cl q c u fd buf n k data bytes Hc Ho Hu -> Hch Hld Hcp
    |w ch cl q u fd buf n k Ho Hu|w ch s cl q u Ho Hu].
  - destruct (server_mem_inv _ _ _ _ _ _ _ _ (follows_srv _ _ _ _ _ _ _ _ Hf) Hok Ht Hc) as (srv' & i' & Hcomp & Hr).
    exists (AState srv' i' cls lens). split; [by apply computed_step|by eapply follows_server].
  - destruct (server_sys_step _ _ _ _ _ _ _ _ _ _ _ _ Hf Hok Ht) as (j' & -> & -> & Hj & Hgot). rewrite (Hj _ Hfd) in *.
    exists (AState (SGot j' m) i cls (<[j' := Z.of_nat (length data) - m]> lens)). split.
    + apply as_read; [by apply (follows_len _ _ _ _ Hf)|done|done].
    + apply follows_lens; [eapply follows_server; [exact Hf|by eapply Hgot]|]. rewrite length_drop. lia.
  - destruct (server_sys_step _ _ _ _ _ _ _ _ _ _ _ _ Hf Hok Ht) as (j' & -> & -> & Hj & Hgot). rewrite (Hj _ Hfd) in *.
    exists (AState (SGot j' 0) i cls lens). split.
    + apply as_eof; [exact (follows_len _ _ j' [] Hf Hch)|by eapply follows_gone].
    + eapply follows_server; [exact Hf|].
      destruct (server_sys_inv _ _ _ _ _ _ (follows_srv _ _ _ _ _ _ _ _ Hf) Hok Ht) as (j2 & l & b & fd' & [= <-] & Hk & Hi & Hb & _ & _ & Hkk).
      exists l. split; [done|]. split; [done|]. by exists (k 0), b.
  - rewrite (server_done_inv _ _ _ _ (follows_srv _ _ _ _ _ _ _ _ Hf) Hok Ht) in *. exists (AState SGone i cls lens). split; [apply as_end|].
    eapply follows_server; [exact Hf|]. destruct Hf as [(l & Hk & Hi & _) _ _ _]. by exists l.
  - destruct (client_at_of _ _ _ _ _ _ _ _ _ _ _ Hf Hc Ho) as (at_ & Hat & Hr).
    destruct (follows_kept _ _ _ _ _ _ _ _ Hf) as [l Hk].
    destruct (client_mem_inv _ _ _ _ _ _ _ _ _ _ _ Hk Hc Hr (Hcok _ _ _ Hat) Ht Hd) as (at' & Hat' & Hsame & Hr').
    exists (AState srv i (<[q := AClient (ci_chan c) at']> cls) lens). split; [by eapply as_client|by eapply follows_client].
  - destruct (client_at_of _ _ _ _ _ _ _ _ _ _ _ Hf Hc Ho) as (at_ & Hat & Hr).
    destruct (follows_kept _ _ _ _ _ _ _ _ Hf) as [l Hk].
    destruct (client_sys_inv _ _ _ _ _ _ _ _ _ Hk Hc Hr (Hcok _ _ _ Hat) Hu) as (z & -> & [= -> ->] & Hkk).
    destruct (client_fact _ _ _ _ Hk Hc) as [_ Hdata]. pose proof (Forall_lookup_1 _ _ _ _ Hcs Hc) as (_ & _ & Hbl).
    assert (wp (load (Addr (ci_pid c) (ci_data c) 0) (Z.to_nat len)) (ci_pid c) w (λ b w', b = ci_bytes c ∧ w' = w)) as (b & w2 & E & -> & ->)%wp_Ok.
    { eapply wp_load; [exact Hdata|lia|done]. }
    rewrite E in Hld. injection Hld as <-.
    exists (AState srv i (<[q := AClient (ci_chan c) (CSent (z + 1))]> cls) (<[ci_chan c := Z.of_nat (length data) + len]> lens)). split.
    + apply as_write; [|done|by apply (follows_len _ _ _ _ Hf)|done]. intros ->. by destruct Hf as [(? & _ & _ & ?) _ _ _].
    + apply follows_lens; [|rewrite length_app; lia]. eapply follows_client; [exact Hf|exact Hc|exact Hat|done|apply Hkk].
  - assert (srv = SGone) as -> by exact (server_none _ _ _ (follows_srv _ _ _ _ _ _ _ _ Hf)).
    destruct (client_ex _ _ _ _ _ _ _ Hf Ho) as [c Hc].
    destruct (client_at_of _ _ _ _ _ _ _ _ _ _ _ Hf Hc Ho) as (at_ & Hat & Hr).
    destruct (follows_kept _ _ _ _ _ _ _ _ Hf) as [l Hk].
    destruct (client_sys_inv _ _ _ _ _ _ _ _ _ Hk Hc Hr (Hcok _ _ _ Hat) Hu) as (z & -> & _ & _).
    exists (AState SGone i (<[q := AClient (ci_chan c) (CGone z)]> cls) lens). split; [by eapply as_sigpipe|].
    by eapply follows_client.
  - destruct (client_ex _ _ _ _ _ _ _ Hf Ho) as [c Hc].
    destruct (client_at_of _ _ _ _ _ _ _ _ _ _ _ Hf Hc Ho) as (at_ & Hat & Hr).
    destruct (follows_kept _ _ _ _ _ _ _ _ Hf) as [l Hk].
    assert (at_ = CEnd) as -> by exact (client_done_inv _ _ _ _ _ _ _ Hk Hc Hr (Hcok _ _ _ Hat) Hu).
    exists (AState srv i (<[q := AClient (ci_chan c) (CGone U)]> cls) lens). split; [by eapply as_client|by eapply follows_client].
Qed.

Lemma server_some w o srv i : srv ≠ SGone → server_rel w o srv i → ∃ t, o = Some t.
Proof. intros Hs H. destruct o as [t|]; [by exists t|]. by apply server_none in H. Qed.

Lemma astep_computed srv i srv' i' cls lens ch w cl o :
  follows (Cfg w ch o cl) (AState srv i cls lens) → server_ok N total srv i → computed srv i = Some (srv', i') →
  ∃ y, step p sfds cs cap whole (Cfg w ch o cl) y.
Proof.
  intros Hf Hok Hc. destruct (server_computes _ _ _ _ _ _ (follows_srv _ _ _ _ _ _ _ _ Hf) Hok Hc)
    as (t & A & c & k & a & w' & -> & Ht & Hcw & _). eexists. by eapply server_mem.
Qed.

Lemma client_at_place w ch s cl srv i cls lens k ch' at_ :
  follows (Cfg w ch s cl) (AState srv i cls lens) → cls !! k = Some (AClient ch' at_) →
  ∃ c o, cs !! k = Some c ∧ ch' = ci_chan c ∧ cl !! k = Some o ∧ client_rel c o at_.
Proof.
  intros Hf Hk. assert (∃ c, cs !! k = Some c) as [c Hc].
  { destruct Hf as [_ [_ H2] _ _]. cbn in H2. apply lookup_lt_is_Some_2. rewrite <- H2. by eapply lookup_lt_Some. }
  destruct (client_of _ _ _ _ _ _ _ _ _ _ Hf Hc) as (o & at' & Ho & Hat & Hr).
  rewrite Hk in Hat. injection Hat as -> ->. by exists c, o.
Qed.

Lemma follows_channel x a j n :
  follows x a → a_len a !! j = Some n → ∃ data, c_chans x !! j = Some data ∧ n = Z.of_nat (length data).
Proof.
  intros [_ _ _ E] Hj. rewrite E, list_lookup_fmap in Hj. destruct (c_chans x !! j) as [data|]; [|done].
  injection Hj as <-. by exists data.
Qed.

Lemma client_can_step w ch s cl srv i cls lens k ch' c c' :
  follows (Cfg w ch s cl) (AState srv i cls lens) → client_ok N U srv (AClient ch' c) →
  cls !! k = Some (AClient ch' c) →
  (match c with CFd i => c' = CWrite i | CSent i => c' = cnext U i | CEnd => c' = CGone U | _ => False end) →
  ∃ y, step p sfds cs cap whole (Cfg w ch s cl) y.
Proof.
  intros Hf Hok Hk Hc'. destruct (follows_kept _ _ _ _ _ _ _ _ Hf) as [l Hkept].
  destruct (client_at_place _ _ _ _ _ _ _ _ _ _ _ Hf Hk) as (ci & o & Hci & -> & Ho & Hr).
  pose proof (client_computes _ _ _ _ _ _ _ Hkept Hci Hr Hok) as H. destruct c; try done.
  - destruct H as (t & k' & -> & Ht & _). eexists. eapply client_mem; [exact Hci|exact Ho|exact Ht|by eapply fd_reads].
  - destruct H as (t & ws & k' & -> & Ht & _). destruct (after_runs (i0 - 1) ws ci w) as (w' & E & _).
    eexists. eapply client_mem; [exact Hci|exact Ho|exact Ht|exact E].
  - destruct Hr as (t & -> & Ht). eexists. by eapply client_exit.
Qed.

Lemma follows_progress x a a' :
  follows x a → ainv N U len total whole a → astep N U len total cap whole a a' → ∃ y, step p sfds cs cap whole x y.
Proof.
  intros Hf Hinv Hs. destruct x as [w chs o cl]. pose proof Hinv as [Hcls _ _ Hok _ _ _].
  destruct Hs as [i cls lens|t i cls lens|t i cls lens n m Ht Hm Hwm|t i cls lens Ht Hg|t r i i' cls lens ->|i cls lens|i cls lens
    |srv i cls lens k ch c c' Hk Hc'|srv i cls lens k ch n j Hg Hk Hn Hcp|i cls lens k ch j Hk]; cbn [a_srv a_i a_cls] in *.
  - by eapply astep_computed.
  - by eapply astep_computed.
  - destruct (follows_channel _ _ _ _ Hf Ht) as (data & Hd & ->). cbn in Hd.
    pose proof (follows_srv _ _ _ _ _ _ _ _ Hf) as Hr. destruct (server_some w o (SRead t) i ltac:(done) Hr) as [u ->].
    apply read_next in Hr as (l & b & fd & _ & _ & (Hv & _ & _) & Hfd & Hu).
    assert (wp (store (Addr p b 0) (take (Z.to_nat m) data)) p w (λ _ _, True)) as ([] & w' & E & _)%wp_Ok.
    { apply wp_store; [|done]. rewrite length_take. eapply valid_le; [exact Hv|lia|lia]. }
    eexists. by eapply server_read.
  - destruct (follows_channel _ _ _ _ Hf Ht) as (data & Hd & Hl). cbn in Hd.
    assert (data = []) as -> by (destruct data; [done|cbn in Hl; lia]).
    pose proof (follows_srv _ _ _ _ _ _ _ _ Hf) as Hr. destruct (server_some w o (SRead t) i ltac:(done) Hr) as [u ->].
    apply read_next in Hr as (l & b & fd & _ & _ & _ & Hfd & Hu).
    eexists. eapply server_eof; [exact Hu|exact Hfd|exact Hd|]. intros k c Hc Hj.
    destruct (client_of _ _ _ _ _ _ _ _ _ _ Hf Hc) as (o & at_ & Ho & Hat & Hr).
    pose proof (Forall_lookup_1 _ _ _ _ Hg Hat) as Hgone. cbn in Hgone. specialize (Hgone Hj).
    destruct at_; try done. cbn in Hr. by subst o.
  - by eapply astep_computed.
  - by eapply astep_computed.
  - destruct (follows_srv _ _ _ _ _ _ _ _ Hf) as (l & _ & _ & u & -> & Hu). eexists. by eapply server_exit.
  - eapply client_can_step; [exact Hf| |exact Hk|exact Hc']. by apply (Forall_lookup_1 _ _ _ _ Hcls) in Hk.
  - destruct (client_at_place _ _ _ _ _ _ _ _ _ _ _ Hf Hk) as (ci & oc & Hci & -> & Ho & u & -> & Hu).
    destruct (server_some _ _ _ _ Hg (follows_srv _ _ _ _ _ _ _ _ Hf)) as [t ->].
    destruct (follows_kept _ _ _ _ _ _ _ _ Hf) as [l Hkept]. destruct (client_fact _ _ _ _ Hkept Hci) as [_ Hdata].
    pose proof (Forall_lookup_1 _ _ _ _ Hcs Hci) as (_ & _ & Hbl).
    destruct (follows_channel _ _ _ _ Hf Hn) as (data & Hd & ->). cbn in Hd.
    assert (wp (load (Addr (ci_pid ci) (ci_data ci) 0) (Z.to_nat len)) (ci_pid ci) w (λ b w', b = ci_bytes ci ∧ w' = w)) as (b & w2 & E & -> & ->)%wp_Ok.
    { eapply wp_load; [exact Hdata|lia|done]. }
    eexists. eapply client_write; [exact Hci|exact Ho|by rewrite Hu, bind_sys|done|exact Hd|exact E|exact Hcp].
  - destruct (client_at_place _ _ _ _ _ _ _ _ _ _ _ Hf Hk) as (ci & oc & Hci & -> & Ho & u & -> & Hu).
    destruct (follows_srv _ _ _ _ _ _ _ _ Hf) as (l & _ & _ & ->).
    eexists. eapply client_sigpipe; [exact Ho|by rewrite Hu, bind_sys].
Qed.

Lemma follows_fault_free x a : follows x a → ainv N U len total whole a → fault_free p cs x.
Proof.
  intros Hf Hinv. destruct x as [w chs o cl], a as [srv i cls lens]. pose proof Hinv as [Hcls _ _ Hok _ _ _].
  cbn [a_srv a_i a_cls c_world c_server c_clients] in *. split; cbn [c_world c_server c_clients].
  - intros t A c k -> Ht. pose proof (follows_srv _ _ _ _ _ _ _ _ Hf) as Hr.
    destruct (computed srv i) as [[srv' i']|] eqn:E.
    + destruct (server_computes _ _ _ _ _ _ Hr Hok E) as (u & B & d & h' & b & w2 & [= <-] & Hu & Hd & _).
      rewrite Ht in Hu. apply mem_inv in Hu as (<- & <- & _). by exists b, w2.
    + destruct srv; try done.
      * apply read_next in Hr as (l & b & fd & _ & _ & _ & _ & Hu). rewrite Ht in Hu. by apply mem_sys in Hu.
      * destruct Hr as (l & _ & _ & u & [= <-] & Hu). rewrite Ht in Hu. symmetry in Hu. by apply ret_vis in Hu.
      * by destruct Hr as (l & _ & _ & ?).
  - intros q c t A d k Hc Ho Ht. destruct (client_at_of _ _ _ _ _ _ _ _ _ _ _ Hf Hc Ho) as (at_ & Hat & Hr).
    destruct (follows_kept _ _ _ _ _ _ _ _ Hf) as [l Hkept]. pose proof (Forall_lookup_1 _ _ _ _ Hcls Hat) as Hcok.
    pose proof (client_computes _ _ _ _ _ _ _ Hkept Hc Hr Hcok) as H. destruct at_.
    + destruct H as (u & k' & [= <-] & Hu & _). rewrite Ht in Hu. symmetry in Hu. apply mem_inv in Hu as (<- & <- & _).
      eexists _, _. by eapply fd_reads.
    + destruct Hr as (u & [= <-] & Hu). rewrite Ht, bind_sys in Hu. by apply mem_sys in Hu.
    + destruct H as (u & ws & k' & [= <-] & Hu & _). rewrite Ht in Hu. symmetry in Hu. apply mem_inv in Hu as (<- & <- & _).
      destruct (after_runs (i0 - 1) ws c w) as (w' & E & _). by eexists _, _.
    + destruct Hr as (u & [= <-] & Hu). rewrite Ht in Hu. symmetry in Hu. by apply ret_vis in Hu.
    + done.
Qed.

(** *** From the start to the end *)

Context (Htotal : total = U * Z.of_nat (length cs)).

(** All processes at the beginning of their programs. *)
Definition at_start (x : cfg) : Prop :=
  kept (c_world x) [] ∧ c_chans x = replicate N [] ∧
  (∃ t, c_server x = Some t ∧ t ≈ server_program N total len blen (Addr p fb 0) received (Addr p h 0)) ∧
  Forall2 (λ c o, ∃ t, o = Some t ∧ t ≈ client_rest c 0) cs (c_clients x).

Lemma follows_start x : at_start x → follows x (astart N U (ci_chan <$> cs)).
Proof.
  intros (Hk & Hch & Hsrv & Hcl). split; cbn [astart a_srv a_i a_cls a_len].
  - exists []. split; [done|]. split; [done|]. by split.
  - rewrite !length_fmap. split; [|done]. symmetry. by eapply Forall2_length.
  - intros i c o ac Hc Ho Hac. rewrite !list_lookup_fmap, Hc in Hac. injection Hac as <-. cbn [ac_chan ac_at]. split; [done|].
    destruct (Forall2_lookup_lr _ _ _ _ _ _ Hcl Hc Ho) as (t & -> & Ht). by apply client_next.
  - rewrite Hch. by rewrite fmap_replicate.
Qed.

(** One channel for all clients, or one for each client. *)
Context (Hchannels : N = 1%nat ∨ ci_chan <$> cs = seq 0 N).

Lemma steps_follow n x y :
  at_start x → steps p sfds cs cap whole n x y →
  ∃ a, follows y a ∧ ainv N U len total whole a ∧
    steps_left N U len a + Z.of_nat n <= most_steps N U len total (ci_chan <$> cs) ∧
    (N = 1%nat ∨ own_channels N a ∧ rounds_ok N U len total a).
Proof.
  intros Hx Hs.
  assert (total = U * Z.of_nat (length (ci_chan <$> cs))) as Ht by by rewrite length_fmap.
  assert (Forall (λ ch, ch < N)%nat (ci_chan <$> cs)) as Hch.
  { apply Forall_fmap. eapply Forall_impl; [exact Hcs|]. by intros c [? _]. }
  induction Hs as [x|n x y z Hs IH Hstep].
  - exists (astart N U (ci_chan <$> cs)). split; [by apply follows_start|]. split; [by apply ainv_start|].
    pose proof (start_steps N U len total HU HN _ Ht). split; [lia|].
    destruct Hchannels as [?|E]; [by left|right]. by eapply start_own.
  - destruct (IH Hx) as (a & Hf & Hinv & Hle & Hown). destruct (follows_step _ _ _ Hf Hinv Hstep) as (a' & Ha & Hf').
    exists a'. split; [done|]. split; [by eapply ainv_step|].
    pose proof (steps_decrease N U len total cap whole Hlen HN a a' Hinv Ha). split; [lia|].
    destruct Hchannels as [?|E]; [by left|]. destruct Hown as [?|[Ho Hr]]; [by left|right].
    eapply rounds_step; [done..| |exact Hinv|exact Ho|exact Hr|exact Ha].
    rewrite Ht, E, length_seq. done.
Qed.

Lemma network_correct n x y :
  at_start x → steps p sfds cs cap whole n x y →
  fault_free p cs y ∧ Z.of_nat n <= most_steps N U len total (ci_chan <$> cs) ∧
  (stuck p sfds cs cap whole y →
     c_server y = None ∧ Forall (λ o, o = None) (c_clients y) ∧
     (∃ l, list_at (c_world y) p h l ∧ l.*2 = replicate (Z.to_nat total) update_size) ∧
     (whole = true → Forall (λ data, data = []) (c_chans y))).
Proof.
  intros Hx Hs. assert (total = U * Z.of_nat (length (ci_chan <$> cs))) as Ht by by rewrite length_fmap.
  destruct (steps_follow _ _ _ Hx Hs) as (a & Hf & Hinv & Hle & Hone).
  split; [by eapply follows_fault_free|]. split.
  { pose proof (steps_left_nonneg N U len total whole Hlen HN a Hinv). lia. }
  intros Hstuck. destruct y as [w chs o cl], a as [srv i cls lens].
  destruct (astep_exists N U len total cap whole Hlen Hcap HN (AState srv i cls lens) Hinv) as [E Hgone].
  { intros a' Ha. destruct (follows_progress _ _ _ Hf Hinv Ha) as (y & Hy). by apply (Hstuck y). }
  cbn [a_srv a_cls] in *. subst srv.
  destruct (ended_count N U len total whole Hlen HN (AState SGone i cls lens) ltac:(nia) Hinv eq_refl) as [Hcount Hwhole]; [tauto|].
  cbn [a_i a_len] in *. pose proof (fo_chans _ _ Hf) as Hlens. cbn in Hlens.
  destruct (follows_srv _ _ _ _ _ _ _ _ Hf) as (l & [(_ & Hl & Hv) _] & -> & ->).
  cbn [c_world c_server c_clients c_chans] in *. split; [done|]. split; [|split].
  - apply Forall_lookup. intros k oc Ho. destruct (client_ex _ _ _ _ _ _ _ Hf Ho) as [c Hc].
    destruct (client_at_of _ _ _ _ _ _ _ _ _ _ _ Hf Hc Ho) as (at_ & Hat & Hr).
    pose proof (Forall_lookup_1 _ _ _ _ Hgone Hat) as Hg. cbn in Hg. by destruct at_.
  - exists l. split; [done|]. by rewrite <- Hcount, Nat2Z.id.
  - intros W. specialize (Hwhole W). rewrite Hlens in Hwhole. apply Forall_fmap in Hwhole. eapply Forall_impl; [exact Hwhole|].
    intros data Hd. cbn in Hd. by destruct data.
Qed.

End follow.
