(* ===== verification/StreamProps.v ===== *)
(** * The benchmarks over pipes and sockets end with the list they should

    [pipe_ipc.c], [pipe_ipc_single_pipe.c] and the loops of [dns_ipc.c] and
    [socket_tcp.c] as instances of [StreamSpec], a scheduler that runs them, and a
    run in which short reads leave a message behind. *)

From S2P Require Import Prelude CMem CLogic MessageSpec Arrays Demo SystemSpec WeissList TestPrograms Posix IpcPrograms IpcSpec StreamModel StreamSpec.
From stdpp Require Import base numbers list strings gmap.
From ITree Require Import ITree ITreeFacts.
From Stdlib Require Import Lia.
#[local] Open Scope Z_scope.
#[local] Open Scope io_scope.
Import CMem WeissList.

(** ** What the programs do with a message *)

Lemma same_memory_out w e : same_memory w (add_out e w).
Proof. done. Qed.

Section received.
Context (p h update_size : Z) (Hsize : is_s32 update_size).

Lemma insertion_inserts w0 w l i :
  same_memory w0 w → full p h update_size w l → is_s32 (i + 1) →
  wp (bind (insert_next update_size (Addr p h 0) (Addr p (last_of h l) 0)) (λ pos, ret (s32 (i + 1), pos))) p w (λ st w', ∃ c,
    st = (i + 1, Addr p (last_of h (l ++ [(c, update_size)])) 0) ∧ c = w_next w0 ∧
    full p h update_size w' (l ++ [(c, update_size)]) ∧
    (∀ b bs, b ∉ h :: l.*1 → mb w0 b 0 bs → mb w' b 0 bs) ∧ (∀ b n, valid w0 b 0 n → valid w' b 0 n)).
Proof.
  intros [Hb Hn] Hf Hi. apply wp_bind. apply (full_insert p h update_size); [done|done|]. intros w' c Hf' Hc He. apply wp_ret.
  rewrite s32_small by done. exists c. split; [done|]. split; [by rewrite Hc, Hn|]. split; [done|]. split.
  - intros b bs Hout Hm. eapply mb_extF; [exact He| |by eapply mb_same_blocks]. intros j _ [-> _]. apply Hout. apply last_of_in.
  - intros b n Hv. eapply valid_extF; [exact He|]. by eapply valid_same_blocks.
Qed.

Lemma pipe_received_inserts : inserts p h update_size (pipe_received update_size (Addr p h 0)).
Proof.
  split.
  - intros w i pos rs Hrs. unfold pipe_received. rewrite (proj2 (Z.ltb_ge _ _)) by lia. by apply wp_ret.
  - intros w l i rs Hrs Hf Hi. unfold pipe_received. rewrite (proj2 (Z.ltb_lt _ _)) by lia. by apply insertion_inserts.
Qed.

Lemma socket_received_inserts : inserts p h update_size (socket_received update_size (Addr p h 0)).
Proof.
  split.
  - intros w i pos rs Hrs. unfold socket_received. rewrite (proj2 (Z.leb_le _ _)) by lia. apply wp_bind.
    change (wp (pipe_received update_size (Addr p h 0) rs (i, pos)) p (add_out ("Thread receiving error"%string, []) w)
      (λ st w', st = (i, pos) ∧ same_memory w w')).
    eapply wp_mono; [by apply (in_none _ _ _ _ pipe_received_inserts)|]. done.
  - intros w l i rs Hrs Hf Hi. unfold socket_received. rewrite (proj2 (Z.leb_gt _ _)) by lia. apply wp_bind, wp_ret.
    by apply (in_some _ _ _ _ pipe_received_inserts).
Qed.

Lemma single_received_inserts : inserts p h update_size (single_received update_size (Addr p h 0)).
Proof.
  split.
  - intros w i pos rs Hrs. unfold single_received. rewrite (proj2 (Z.ltb_ge _ _)) by lia.
    destruct (i <? 0); [by apply wp_bind, wp_ret|by apply wp_ret].
  - intros w l i rs Hrs Hf Hi. unfold single_received. rewrite (proj2 (Z.ltb_lt _ _)) by lia. apply wp_bind.
    apply (insertion_inserts w); [done|by apply full_out|done].
Qed.

End received.

Lemma while_eutt {S} cond (body body' : S → io S) s : (∀ s, body s ≈ body' s) → while cond body s ≈ while cond body' s.
Proof.
  intros H. unfold while. apply eutt_iter. intros s'. destruct (cond s'); [|reflexivity].
  rewrite (H s'). reflexivity.
Qed.

(** ** The programs *)

Inductive benchmark := PipeIpc | SinglePipe | Sockets.

(** The server from its [recv_proc] on (for sockets, after the connections were
    accepted), and the clients in [send_proc]. *)
Definition server_of (b : benchmark) (thread_count update_count update_size : Z) (list fds pos : ptr) : io unit :=
  match b with
  | PipeIpc => pipe_recv_proc thread_count update_count update_size list message_len fds pos
  | SinglePipe => single_recv_proc thread_count update_count update_size list message_len fds pos
  | Sockets => socket_serve thread_count update_count update_size list message_len fds pos
  end.

Definition client_of_benchmark (b : benchmark) (update_count : Z) (data fd : ptr) : io unit :=
  match b with
  | PipeIpc => pipe_send_proc update_count data message_len fd
  | SinglePipe => single_send_proc update_count data message_len fd
  | Sockets => socket_send_proc update_count data message_len fd
  end.

(** All processes at the beginning of the work, with nothing in the channels. *)
Definition start (b : benchmark) (p h fb update_count update_size : Z) (sfds : list Z) (cs : list client_info) (w : world) : cfg :=
  Cfg w (replicate (length sfds) [])
    (Some (server_of b (Z.of_nat (length cs)) update_count update_size (Addr p h 0) (Addr p fb 0) (Addr p h 0)))
    ((λ c, Some (client_of_benchmark b update_count (Addr (ci_pid c) (ci_data c) 0) (Addr (ci_pid c) (ci_fdb c) 0))) <$> cs).

(** The server has a descriptor for each client, or one for all of them; the
    descriptors are in the memory of the processes. *)
Record connected (b : benchmark) (p h fb update_count update_size : Z) (sfds : list Z) (cs : list client_info)
    (cap : Z) (w : world) : Prop := {
  cn_clients : cs ≠ [];
  cn_updates : 0 <= update_count;
  cn_int : update_count * Z.of_nat (length cs) + Z.of_nat (length cs) <= 2147483647;
  cn_size : is_s32 update_size;
  cn_cap : message_len <= cap;
  cn_fds : NoDup sfds ∧ Forall is_s32 sfds;
  cn_channels : match b with
                | SinglePipe => length sfds = 1%nat ∧ Forall (λ c, ci_chan c = 0%nat) cs
                | _ => length sfds = length cs ∧ ci_chan <$> cs = seq 0 (length cs)
                end;
  cn_messages : Forall (λ c, is_s32 (ci_fd c) ∧ Z.of_nat (length (ci_bytes c)) = message_len) cs;
  cn_memory : kept p sfds cs update_size h fb w []
}.

Definition after_of (b : benchmark) (i ws : Z) : M unit :=
  match b with
  | PipeIpc => if ws <? 0 then printf "Thread sending error %s" [] else ret tt
  | SinglePipe => printf "Has send, ws=%d i=%d" [AInt ws; AInt i]
  | Sockets => if ws <=? 0 then printf "Thread sending error %d" [AInt ws] else ret tt
  end.

Definition received_of (b : benchmark) (update_size : Z) (list : ptr) : Z → Z * ptr → M (Z * ptr) :=
  match b with
  | PipeIpc => pipe_received update_size list
  | SinglePipe => single_received update_size list
  | Sockets => socket_received update_size list
  end.

Definition buffer_of (b : benchmark) : Z := match b with Sockets => message_len | _ => message_len + 1 end.

Lemma after_prints b : prints (after_of b).
Proof. intros i ws q w. destruct b; cbn; [destruct (ws <? 0)| |destruct (ws <=? 0)]; by eexists. Qed.

Lemma received_inserts b p h update_size :
  is_s32 update_size → inserts p h update_size (received_of b update_size (Addr p h 0)).
Proof.
  intros H. destruct b; [by apply pipe_received_inserts|by apply single_received_inserts|by apply socket_received_inserts].
Qed.

Lemma client_is b update_count pid data fd :
  client_of_benchmark b update_count (Addr pid data 0) (Addr pid fd 0) =
  client_program message_len update_count (Addr pid fd 0) (Addr pid data 0) (after_of b) 0.
Proof. unfold client_program. rewrite Z.sub_0_r. by destruct b. Qed.

Lemma server_is b p h fb update_count update_size N K :
  total_count K update_count = update_count * K → 0 <= K →
  match b with SinglePipe => N = 1%nat | _ => N = Z.to_nat K end →
  server_of b K update_count update_size (Addr p h 0) (Addr p fb 0) (Addr p h 0) ≈
  server_program N (update_count * K) message_len (buffer_of b) (Addr p fb 0) (received_of b update_size (Addr p h 0)) (Addr p h 0).
Proof.
  intros Ht HK HN. rewrite <- Ht. destruct b; subst N; [reflexivity| |reflexivity].
  cbn [server_of buffer_of received_of]. unfold single_recv_proc, server_program, serving.
  apply eutt_eq_bind. intros buf. apply eutt_clo_bind with eq; [|intros st st' <-; reflexivity].
  apply while_eutt. intros st. cbn [for_each]. unfold done_with. rewrite Eqit.bind_ret_r. reflexivity.
Qed.

Lemma start_at_start b p h fb update_count update_size sfds cs cap w :
  connected b p h fb update_count update_size sfds cs cap w →
  at_start p sfds cs (update_count * Z.of_nat (length cs)) message_len (buffer_of b) update_count update_size h fb
    (received_of b update_size (Addr p h 0)) (after_of b) (start b p h fb update_count update_size sfds cs w).
Proof.
  intros Hc. split; [apply Hc|]. split; [done|]. split.
  - eexists. split; [done|]. pose proof Hc as [Hne HU Hint _ _ _ Hch _ _]. apply server_is; [|lia|].
    + unfold total_count. rewrite Z.mul_comm, s32_small; [done|]. unfold is_s32. destruct cs; [done|]. cbn [length] in *. nia.
    + destruct b; rewrite ?Nat2Z.id; tauto.
  - apply Forall2_fmap_r, Forall2_same_length_lookup. split; [done|].
    intros i c c' Hi Hi'. assert (c = c') as <- by congruence. eexists. split; [done|]. by rewrite client_is.
Qed.

(** C10. The benchmarks over pipes and over sockets, in any interleaving of the server
    and its clients, whatever parts of what is there each read takes: no process
    comes to undefined behaviour, every run ends, and when no process can go on, all
    have ended and the list has [update_size] once for every update of every client.
    If every read takes all that is there, as on pipes, nothing is left unread. *)
Theorem stream_benchmarks_correct b p h fb update_count update_size sfds cs cap whole w n x :
  let K := Z.of_nat (length cs) in
  let N := Z.of_nat (length sfds) in
  connected b p h fb update_count update_size sfds cs cap w →
  steps p sfds cs cap whole n (start b p h fb update_count update_size sfds cs w) x →
  fault_free p cs x ∧
  Z.of_nat n <= (3 * N + 3) * message_len * (update_count * K) + (6 * N + 10) + K * (3 * update_count + 2) ∧
  (stuck p sfds cs cap whole x →
     c_server x = None ∧ Forall (λ o, o = None) (c_clients x) ∧
     (∃ l, list_at (c_world x) p h l ∧ l.*2 = replicate (Z.to_nat (update_count * K)) update_size) ∧
     (whole = true → Forall (λ data, data = []) (c_chans x))).
Proof.
  intros K N Hc Hs. pose proof (start_at_start _ _ _ _ _ _ _ _ _ _ Hc) as Hstart. fold K in Hstart.
  pose proof Hc as [Hne HU Hint Hsize Hcap [Hnd Hfds] Hch Hmsg _].
  assert (0 < length cs)%nat as Hpos by (destruct cs; [done|cbn; lia]).
  assert (0 < length sfds ≤ length cs)%nat as HN by (destruct b; lia).
  assert (Forall (λ c, (ci_chan c < length sfds)%nat ∧ is_s32 (ci_fd c) ∧ Z.of_nat (length (ci_bytes c)) = message_len) cs) as Hcs.
  { apply Forall_forall. intros c Hin. split; [|by apply (proj1 (Forall_forall _ _) Hmsg)]. destruct b.
    1, 3: destruct Hch as [-> E]; apply list_elem_of_lookup in Hin as [k Hk];
      assert ((ci_chan <$> cs) !! k = Some (ci_chan c)) as Hck by (by rewrite list_lookup_fmap, Hk);
      rewrite E in Hck; apply lookup_seq in Hck; lia.
    destruct Hch as [-> Hz]. rewrite (proj1 (Forall_forall _ _) Hz c Hin). lia. }
  destruct (network_correct p sfds cs cap whole (update_count * K) message_len (buffer_of b) update_count update_size h fb
    (received_of b update_size (Addr p h 0)) (after_of b)) with (n := n) (x := start b p h fb update_count update_size sfds cs w) (y := x)
    as (H1 & H2 & H3); try done.
  - destruct b; done.
  - lia.
  - lia.
  - by apply received_inserts.
  - apply after_prints.
  - destruct b; [right; destruct Hch as [-> ?]; done|left; tauto|right; destruct Hch as [-> ?]; done].
  - split; [done|]. split; [|done]. unfold most_steps, slack in H2. rewrite length_fmap in H2. unfold N, K in *. lia.
Qed.

(** ** A scheduler *)

(** Whose turn it is: the server, which takes up to [m] bytes if it reads, or client
    [i]. *)
Inductive turn_of := TServer (m : Z) | TClient (i : nat).

(** A tree without its first silent steps. *)
Fixpoint settle (fuel : nat) (t : io unit) : io unit :=
  match fuel, observe t with S f, TauF u => settle f u | _, _ => t end.

Lemma settle_eutt fuel t : settle fuel t ≈ t.
Proof.
  revert t. induction fuel as [|fuel IH]; intros t; cbn [settle]; [reflexivity|].
  destruct (observe t) as [r|u|X e k] eqn:E; [reflexivity| |reflexivity].
  rewrite IH, (itree_eta t), E, tau_eutt. reflexivity.
Qed.

Section scheduler.
Context (p : Z) (sfds : list Z) (cs : list client_info) (cap : Z) (whole : bool).

Definition all_ended (j : nat) (cl : list (option (io unit))) : bool :=
  forallb (λ co : client_info * option (io unit), negb (bool_decide (ci_chan co.1 = j)) || match co.2 with None => true | _ => false end)
    (zip cs cl).

Definition read_turn (m : Z) (x : cfg) (fd : Z) (buf : ptr) (n : Z) (k : Z → io unit) : option cfg :=
  '(j, _) ← list_find (λ fd', fd' = fd) sfds;
  data ← c_chans x !! j;
  match data with
  | [] => if bool_decide (length (c_clients x) = length cs) && all_ended j (c_clients x)
          then Some (Cfg (c_world x) (c_chans x) (Some (k 0)) (c_clients x)) else None
  | _ =>
      let most := Z.min n (Z.of_nat (length data)) in
      let m := if whole then most else Z.min m most in
      if 1 <=? m then
        match store buf (take (Z.to_nat m) data) p (c_world x) with
        | Ok _ w => Some (Cfg w (<[j := drop (Z.to_nat m) data]> (c_chans x)) (Some (k m)) (c_clients x))
        | _ => None
        end
      else None
  end.

Definition server_turn (m : Z) (x : cfg) (t : io unit) : option cfg :=
  match observe (settle 20 t) with
  | RetF _ => Some (Cfg (c_world x) (c_chans x) None (c_clients x))
  | TauF _ => None
  | VisF e k =>
      match e in ioE B return (B → io unit) → option cfg with
      | Mem c => λ k, match c p (c_world x) with Ok a w => Some (Cfg w (c_chans x) (Some (k a)) (c_clients x)) | _ => None end
      | Sys (Read fd buf n) => λ k, read_turn m x fd buf n k
      | Sys _ => λ k, None
      end k
  end.

Definition write_turn (i : nat) (x : cfg) (c : client_info) (fd : Z) (buf : ptr) (n : Z) (k : Z → io unit) : option cfg :=
  match c_server x with
  | None => Some (Cfg (c_world x) (c_chans x) None (<[i := None]> (c_clients x)))
  | Some t =>
      data ← c_chans x !! ci_chan c;
      match load buf (Z.to_nat n) (ci_pid c) (c_world x) with
      | Ok bytes _ =>
          if (fd =? ci_fd c) && (Z.of_nat (length data) + n <=? cap) then
            Some (Cfg (c_world x) (<[ci_chan c := data ++ bytes]> (c_chans x)) (Some t) (<[i := Some (k n)]> (c_clients x)))
          else None
      | _ => None
      end
  end.

Definition client_turn (i : nat) (x : cfg) (c : client_info) (t : io unit) : option cfg :=
  match observe (settle 20 t) with
  | RetF _ => Some (Cfg (c_world x) (c_chans x) (c_server x) (<[i := None]> (c_clients x)))
  | TauF _ => None
  | VisF e k =>
      match e in ioE B return (B → io unit) → option cfg with
      | Mem d => λ k,
          match d (ci_pid c) (c_world x) with
          | Ok a w => Some (Cfg w (c_chans x) (c_server x) (<[i := Some (k a)]> (c_clients x)))
          | _ => None
          end
      | Sys (Write fd buf n) => λ k, write_turn i x c fd buf n k
      | Sys _ => λ k, None
      end k
  end.

Definition turn (who : turn_of) (x : cfg) : option cfg :=
  match who with
  | TServer m => t ← c_server x; server_turn m x t
  | TClient i => c ← cs !! i; o ← c_clients x !! i; t ← o; client_turn i x c t
  end.

Fixpoint schedule (l : list turn_of) (x : cfg) : option cfg :=
  match l with [] => Some x | who :: l => y ← turn who x; schedule l y end.

Lemma all_ended_spec j cl :
  length cl = length cs → all_ended j cl = true → ∀ i c, cs !! i = Some c → ci_chan c = j → cl !! i = Some None.
Proof.
  intros Hl Ha i c Hc Hj. destruct (lookup_lt_is_Some_2 cl i) as [o Ho]; [rewrite Hl; by eapply lookup_lt_Some|].
  unfold all_ended in Ha. rewrite forallb_forall in Ha. specialize (Ha (c, o)). cbn in Ha.
  rewrite bool_decide_eq_true_2 in Ha by done. rewrite Ho. destruct o as [t|]; [|done]. exfalso.
  discriminate Ha. apply list_elem_of_In. apply list_elem_of_lookup. exists i. by rewrite lookup_zip_with, Hc, Ho.
Qed.

Lemma read_turn_step m x fd buf n k t y :
  c_server x = Some t → t ≈ Vis (Sys (Read fd buf n)) k → read_turn m x fd buf n k = Some y → step p sfds cs cap whole x y.
Proof.
  destruct x as [w ch o cl]. cbn [c_server c_chans c_world c_clients]. intros -> Ht. unfold read_turn. cbn [c_server c_chans c_world c_clients].
  destruct (list_find _ _) as [[j fd']|] eqn:Ef; [|done]. cbn [mbind option_bind].
  apply list_find_Some in Ef as (Hfd & -> & _). destruct (ch !! j) as [data|] eqn:Ed; [|done]. cbn [mbind option_bind].
  destruct data as [|b data].
  - destruct (bool_decide _) eqn:Eb; [|done]. destruct (all_ended j cl) eqn:Ea; [|done]. intros [= <-].
    apply bool_decide_eq_true in Eb. eapply server_eof; [exact Ht|exact Hfd|exact Ed|by apply all_ended_spec].
  - set (bytes := b :: data). set (m' := if whole then _ else _). destruct (Z.leb_spec 1 m'); [|done].
    destruct (store buf _ p w) as [[] w'| | |] eqn:Es; [|done..]. intros [= <-].
    eapply server_read; [exact Ht|exact Hfd|exact Ed| | |exact Es].
    + split; [done|]. unfold m', bytes. destruct whole; lia.
    + intros W. unfold m'. by rewrite W.
Qed.

Lemma turn_is_step who x y : turn who x = Some y → step p sfds cs cap whole x y.
Proof.
  destruct who as [m|i]; cbn [turn].
  - destruct (c_server x) as [t|] eqn:Et; [|done]. cbn [mbind option_bind]. unfold server_turn.
    pose proof (settle_eutt 20 t) as Hset. rewrite (itree_eta (settle 20 t)) in Hset.
    destruct (observe (settle 20 t)) as [[]|u|B e k] eqn:E; [|done|].
    + intros [= <-]. destruct x. cbn in *. subst. apply server_exit. by rewrite <- Hset.
    + destruct e as [B c|e].
      * destruct (c p (c_world x)) as [a w| | |] eqn:Ec; [|done..]. intros [= <-]. destruct x. cbn in *. subst.
        eapply server_mem; [|exact Ec]. by rewrite <- Hset.
      * destruct e; try done. apply read_turn_step with (t := t); [done|]. by rewrite <- Hset.
  - destruct (cs !! i) as [c|] eqn:Hc; [|done]. cbn [mbind option_bind].
    destruct (c_clients x !! i) as [[t|]|] eqn:Ho; [|done..]. cbn [mbind option_bind]. unfold client_turn.
    pose proof (settle_eutt 20 t) as Hset. rewrite (itree_eta (settle 20 t)) in Hset.
    destruct (observe (settle 20 t)) as [[]|u|B e k] eqn:E; [|done|].
    + intros [= <-]. destruct x. cbn in *. subst. eapply client_exit; [exact Ho|by rewrite <- Hset].
    + destruct e as [B d|e].
      * destruct (d (ci_pid c) (c_world x)) as [a w| | |] eqn:Ed; [|done..]. intros [= <-]. destruct x. cbn in *. subst.
        eapply client_mem; [exact Hc|exact Ho| |exact Ed]. by rewrite <- Hset.
      * destruct e; try done. unfold write_turn. destruct (c_server x) as [s|] eqn:Es.
        -- destruct (c_chans x !! ci_chan c) as [data|] eqn:Edata; [|done]. cbn [mbind option_bind].
           destruct (load buf _ _ _) as [bytes w| | |] eqn:El; [|done..].
           destruct ((fd =? ci_fd c) && _) eqn:Eb; [|done]. apply andb_true_iff in Eb as [Hfd%Z.eqb_eq Hcap%Z.leb_le].
           intros [= <-]. assert (w = c_world x) as ->.
           { unfold load in El. repeat case_match; simplify_eq; done. }
           destruct x. cbn in *. subst. eapply client_write; [exact Hc|exact Ho|by rewrite <- Hset|done|exact Edata|exact El|done].
        -- intros [= <-]. destruct x. cbn in *. subst. eapply client_sigpipe; [exact Ho|by rewrite <- Hset].
Qed.

Lemma steps_app n m x y z :
  steps p sfds cs cap whole n x y → steps p sfds cs cap whole m y z → steps p sfds cs cap whole (n + m) x z.
Proof.
  intros H1 H2. revert H1. induction H2 as [y|m y z v H2 IH Hs]; intros H1; [by rewrite Nat.add_0_r|].
  rewrite Nat.add_succ_r. eapply steps_snoc; [by apply IH|exact Hs].
Qed.

Lemma schedule_steps_of l x y : schedule l x = Some y → steps p sfds cs cap whole (length l) x y.
Proof.
  revert x. induction l as [|who l IH]; intros x; cbn [schedule length].
  - intros [= <-]. constructor.
  - destruct (turn who x) as [z|] eqn:Ez; [|done]. cbn [mbind option_bind]. intros H%IH.
    apply (steps_app 1 (length l) x z y); [|done]. eapply steps_snoc; [constructor|by eapply turn_is_step].
Qed.

(** When all have ended, nobody can go on. *)
Lemma ended_is_stuck x : c_server x = None → Forall (λ o, o = None) (c_clients x) → stuck p sfds cs cap whole x.
Proof.
  intros Hs Hc y Hstep. rewrite Forall_forall in Hc.
  assert (∀ (cl : list (option (io unit))) (i : nat) (t : io unit), (∀ o, o ∈ cl → o = None) → cl !! i = Some (Some t) → False) as H.
  { intros cl i t Hcl Hi. apply list_elem_of_lookup_2 in Hi. by apply Hcl in Hi. }
  destruct Hstep; cbn [c_server c_clients] in *; try done; by eapply H.
Qed.

End scheduler.

(** ** Runs *)

(** A server with a list and descriptors 5 and 6, and two clients with descriptor 4. *)
Definition demo_fds : list Z := [5; 6].
Definition demo_bytes : list memval := Byte <$> [100; 97; 116; 97].
Definition demo_clients : list client_info :=
  [Client 2 3 4 4 demo_bytes 0; Client 3 5 4 6 demo_bytes 1].

Definition demo_net : world :=
  Eval vm_compute in state_of (
    CMem.bind (MakeEmpty 0 Null) (λ _,
    CMem.bind (malloc 8) (λ fds, CMem.bind (store fds (ints demo_fds)) (λ _,
    CMem.bind (malloc 4) (λ a, CMem.bind (store a (enc_i32 4)) (λ _,
    CMem.bind (malloc 4) (λ a, CMem.bind (store a demo_bytes) (λ _,
    CMem.bind (malloc 4) (λ a, CMem.bind (store a (enc_i32 4)) (λ _,
    CMem.bind (malloc 4) (λ a, store a demo_bytes))))))))))) 1 (world_init 0 [] []).

Lemma demo_connected : connected Sockets 1 1 2 1 7 demo_fds demo_clients 64 demo_net.
Proof.
  split; [done|done|done|done|done| | | |].
  - split; [by_eval|repeat constructor; done].
  - done.
  - repeat constructor; done.
  - split.
    + split; [apply wokb_spec; vm_compute; reflexivity|]. split; [|done]. split; [by_eval|]. split; by_eval.
    + repeat constructor; by_eval.
Qed.

Definition demo_start : cfg := start Sockets 1 1 2 1 7 demo_fds demo_clients demo_net.

(** Client 0, both clients in turns, then the server. *)
Definition demo_turns : list turn_of :=
  replicate 3 (TClient 0) ++ [TClient 1; TServer 4; TClient 1; TServer 4; TServer 4; TClient 1; TClient 0; TClient 1] ++ replicate 6 (TServer 4).

Definition no_cfg : cfg := Cfg (world_init 0 [] []) [] None [].
Definition demo_end : cfg := Eval vm_compute in default no_cfg (schedule 1 demo_fds demo_clients 64 true demo_turns demo_start).
Lemma demo_run : schedule 1 demo_fds demo_clients 64 true demo_turns demo_start = Some demo_end.
Proof. vm_compute. reflexivity. Qed.

Lemma stream_benchmarks_correct_witness :
  ∃ n x, steps 1 demo_fds demo_clients 64 true n demo_start x ∧ stuck 1 demo_fds demo_clients 64 true x ∧
    fault_free 1 demo_clients x ∧ (∃ l, list_at (c_world x) 1 1 l ∧ l.*2 = [7; 7]) ∧ Forall (λ data, data = []) (c_chans x).
Proof.
  assert (stuck 1 demo_fds demo_clients 64 true demo_end) as Hstuck by (apply ended_is_stuck; [done|by repeat constructor]).
  pose proof (schedule_steps_of _ _ _ _ _ _ _ _ demo_run) as Hsteps.
  destruct (stream_benchmarks_correct Sockets 1 1 2 1 7 demo_fds demo_clients 64 true demo_net _ _ demo_connected Hsteps) as (Hf & _ & H).
  destruct (H Hstuck) as (_ & _ & Hl & Hw). eexists _, demo_end. split; [exact Hsteps|]. split; [exact Hstuck|].
  split; [exact Hf|]. split; [exact Hl|]. by apply Hw.
Defined.

(** One client that writes twice, and a server whose reads take two bytes. *)
Definition demo_client : list client_info := take 1 demo_clients.
Definition demo_short : cfg := start Sockets 1 1 2 2 7 [5] demo_client demo_net.
Definition demo_short_turns : list turn_of := replicate 7 (TClient 0) ++ replicate 9 (TServer 2).

Definition demo_short_end : cfg :=
  Eval vm_compute in default no_cfg (schedule 1 [5] demo_client 64 false demo_short_turns demo_short).
Lemma demo_short_run : schedule 1 [5] demo_client 64 false demo_short_turns demo_short = Some demo_short_end.
Proof. vm_compute. reflexivity. Qed.

(** Short reads: with sockets, where a read may take part of a message, the server
    counts and inserts for every read.  There is a run of one client with two updates
    that ends with a full list of two numbers and one whole message never read. *)
Theorem short_reads_lose :
  ∃ n x, steps 1 [5] demo_client 64 false n demo_short x ∧ stuck 1 [5] demo_client 64 false x ∧
    c_server x = None ∧ (∃ l, list_at (c_world x) 1 1 l ∧ l.*2 = [7; 7]) ∧ c_chans x = [demo_bytes].
Proof.
  eexists _, demo_short_end. split; [exact (schedule_steps_of _ _ _ _ _ _ _ _ demo_short_run)|].
  split; [apply ended_is_stuck; [done|by repeat constructor]|]. split; [done|]. split; [|done].
  exists [(8, 7); (9, 7)]. split; [|done]. split; [by_eval|]. split; by_eval.
Qed.
