(* ===== verification/Explorations.v ===== *)
(** * The explorations

    The programs of [src/exploration] that talk through the operating system, as
    trees over memory and calls: [dns] (requests and responses over a socket),
    [posix_mq] (a POSIX message queue), [pthreads], and the [main.c] of
    [nanomsg_exploration]; and two that only compute, [timer] and the generator of
    data [TaskSystem/tool/gen.c].  The local array of a function is a block that it
    frees at the end; the way out by [exit(-1)] in [main] is its result. *)

From S2P Require Import Prelude CMem TimeHelper WeissList TestPrograms Posix IpcPrograms.
From stdpp Require Import base numbers list strings gmap.
From ITree Require Import ITree.
From Stdlib Require Import Ascii.
#[local] Open Scope Z_scope.
#[local] Open Scope ts_scope.
#[local] Open Scope io_scope.
Import WeissList.

(** ** Loops that a body can leave with an answer *)

Fixpoint for_or {S A} (n : nat) (lo : Z) (s : S) (body : Z → S → io (A + S)) : io (A + S) :=
  match n with
  | O => done_with (inr s)
  | Datatypes.S n' =>
      r <- body lo s;;
      match r with inl a => done_with (inl a) | inr s' => for_or n' (lo + 1) s' body end
  end.

Definition while_or {S A} (cond : S → bool) (body : S → io (A + S)) (s : S) : io (A + S) :=
  while (λ st : A + S, match st with inr s => cond s | inl _ => false end)
    (λ st, match st with inr s => body s | inl a => done_with (inl a) end) (inr s).

(** ** Requests and responses over a socket: [exploration/dns] *)

Definition str_addr : string := "/tmp/socket".

(** A turn of the loop of the client. *)
Definition rpc_request (sc : Z) (data : ptr) (len : Z) : io (option Z) :=
  e <- sys (Send sc data len);;
  failed <- (if e =? len then
      buffer <- mem (malloc 4);;
      res_e <- sys (Recv sc buffer 4);;
      (if negb (res_e =? len) then
         mem (printf "Received bad response from server res_e=%d %s" [AInt res_e]);;; done_with (Some (-1))
       else mem (free buffer);;; done_with None)
    else done_with None);;
  match failed with
  | Some r => done_with (Some r)
  | None => if e <=? 0 then mem (printf "Send error" []);;; done_with (Some (-1)) else done_with None
  end.

Definition print_timing (text : string) (start end' : timespec) : M unit :=
  let d := diff start end' in printf text [AInt (tv_sec d); AInt (Z.quot (tv_nsec d) 1000000)].

Definition rpc_client_main (argv : list string) : io Z :=
  match argv with
  | [] => gives_up "Usage : client req_count"
  | a1 :: _ =>
      request_count <- mem (atoi a1);;
      mem (printf "Client started with req_count=%d" [AInt request_count]);;;
      sc <- sys (Socket "AF_UNIX, SOCK_STREAM");;
      if sc <? 0 then gives_up "Error creating client socket" else
      eid <- sys (Connect sc str_addr);;
      if eid <? 0 then gives_up "Error on connect %s" else
      data <- mem (str_lit message);;
      mem (printf "Start sending" []);;;
      send_start <- mem now;;
      then_else (for_until (Z.to_nat request_count) 0 (λ i, rpc_request sc data message_len)) (
      send_end <- mem now;;
      mem (printf "End sending" []);;;
      mem (printf "Client is done" []);;;
      mem (print_timing "C-SEND %lds,%ldms - Client send time" send_start send_end);;;
      done_with 0)
  end.

(** The body of the inner loop of the server, for client [t]: the new [req], or the
    server gives up.  A request of some of the bytes is counted and not answered. *)
Definition rpc_serve (clients buf : ptr) (len t req : Z) : io (Z + Z) :=
  client <- mem (ld_i32 (idx_i32 clients t));;
  e <- sys (Recv client buf len);;
  bad <- (if e =? len then
      client <- mem (ld_i32 (idx_i32 clients t));;
      send_e <- sys (Send client buf len);;
      done_with (negb (send_e =? len))
    else done_with false);;
  if bad : bool then
    client <- mem (ld_i32 (idx_i32 clients t));;
    mem (printf "Server bad response to client %d" [AInt client]);;; done_with (inl (-1))
  else if e <? 0 then mem (printf "Thread receiving error %s" []);;; done_with (inl (-1))
  else if e =? 0 then mem (printf "EOF at %d" [AInt req]);;; done_with (inl (-1))
  else done_with (inr (s32 (req + 1))).

(** [while (req < request_count) for (int t = 0; t < nb_client; t++)] *)
Definition rpc_server_loop (request_count nb_client : Z) (clients buf : ptr) (len : Z) : io (Z + Z) :=
  while_or (λ req, req <? request_count) (λ req,
    for_or (Z.to_nat nb_client) 0 req (λ t req, rpc_serve clients buf len t req)) 0.

Definition rpc_accept (nb_client sc : Z) (clients : ptr) : io (option Z) :=
  for_until (Z.to_nat nb_client) 0 (λ i,
    c <- sys (Accept sc);;
    mem (st_i32 (idx_i32 clients i) c);;;
    if c <? 0 then mem (printf "Error accepting connexion %s" []);;; done_with (Some (-1)) else done_with None).

(** After [listen]: the connections, the requests, and the end. *)
Definition rpc_server_work (request_count nb_client sc : Z) (clients : ptr) : io Z :=
  then_else (rpc_accept nb_client sc clients) (
  buf <- mem (malloc 4);;
  mem (printf "Start receiving" []);;;
  get_start <- mem now;;
  r <- rpc_server_loop request_count nb_client clients buf 4;;
  match r with
  | inl code => done_with code
  | inr _ =>
      get_end <- mem now;;
      mem (printf "End receiving" []);;;
      mem (printf "Server is done" []);;;
      mem (print_timing "S-GET %lds,%ldms - Server recv time" get_start get_end);;;
      for_each (Z.to_nat nb_client) 0 tt (λ i _,
        c <- mem (ld_i32 (idx_i32 clients i));; sys (Close c);;; done_with tt);;;
      sys (Close sc);;;
      sys (Unlink str_addr);;;
      mem (free clients);;;
      done_with 0
  end).

Definition rpc_server_main (argv : list string) : io Z :=
  match argv with
  | a1 :: a2 :: _ =>
      request_count <- mem (atoi a1);;
      nb_client <- mem (atoi a2);;
      mem (printf "Server started with req_count=%d nb_client=%d" [AInt request_count; AInt nb_client]);;;
      sc <- sys (Socket "AF_UNIX, SOCK_STREAM");;
      if sc <? 0 then gives_up "Error creating server socket" else
      sys (Unlink str_addr);;;
      eid <- sys (Bind sc str_addr);;
      if eid <? 0 then gives_up "Error on binding %s" else
      clients <- mem (malloc (nb_client * 4));;
      r <- sys (Listen sc nb_client);;
      if r <? 0 then gives_up "Listen error" else
      rpc_server_work request_count nb_client sc clients
  | _ => gives_up "Usage : server req_count nb_client"
  end.

(** ** A POSIX message queue: [exploration/posix_mq] *)

Definition QUEUE_NAME : string := "/test_queue".
Definition MAX_SIZE : Z := 1024.
Definition MSG_STOP : string := "exit".

Definition Data_struct : struct_decl := [("v", CInt); ("c", CChar); ("f", CFloat)]%string.
Definition sizeof_Data : Z := Eval vm_compute in struct_size Data_struct.
Definition Data_v : field := Eval vm_compute in member Data_struct "v".
Definition Data_c : field := Eval vm_compute in member Data_struct "c".
Definition Data_f : field := Eval vm_compute in member Data_struct "f".

(** [92.0f/10.0f]: the nearest single-precision number is 9646899 * 2^-20. *)
Definition nine_point_two : list memval := enc_n 4 1091777331.

Definition quote : string := String (Ascii.ascii_of_nat 34) EmptyString.

Definition mq_client_main : io Z :=
  buffer <- mem (malloc MAX_SIZE);;
  mq <- sys (Mq_open QUEUE_NAME "O_WRONLY");;
  mem (printf ("Send to server (enter " +:+ quote +:+ "exit" +:+ quote +:+ " to stop it):") []);;;
  d1 <- mem (malloc sizeof_Data);;
  mem (set_int d1 Data_v 10);;;
  mem (store (addr_of d1 Data_c) (chars "z"));;;
  mem (store (addr_of d1 Data_f) nine_point_two);;;
  mem (memset0 buffer MAX_SIZE);;;
  mem (memcpy buffer d1 sizeof_Data);;;
  sys (Mq_send mq buffer MAX_SIZE);;;
  mem (memset0 buffer MAX_SIZE);;;
  mem (stop <- str_lit MSG_STOP;; strcpy buffer stop)%ts;;;
  sys (Mq_send mq buffer MAX_SIZE);;;
  sys (Mq_close mq);;;
  mem (free buffer;;; free d1)%ts;;;
  done_with 0.

Definition ld_char (p : ptr) : M Z :=
  (l <- load p 1;; match l with [Byte b] => ret b | _ => fault end)%ts.

(** The comparison stops at the first difference or at a zero. *)
Fixpoint strncmp (p q : ptr) (n : nat) : M Z :=
  match n with
  | O => ret 0
  | S n' =>
      (a <- ld_char p;; b <- ld_char q;;
       if negb (a =? b) then ret (a - b) else if a =? 0 then ret 0 else strncmp (padd p 1) (padd q 1) n')%ts
  end.

(** What the server does with a message: whether it must stop. *)
Definition mq_received (buffer : ptr) (bytes_read : Z) : M bool :=
  (store (padd buffer bytes_read) [Byte 0];;;
   stop <- str_lit MSG_STOP;;
   differs <- strncmp buffer stop (String.length MSG_STOP);;
   if differs =? 0 then printf "Stopping" [];;; ret true
   else
     v <- get_int buffer Data_v;;
     c <- ld_char (addr_of buffer Data_c);;
     f <- load (addr_of buffer Data_f) 4;;
     printf "Received data: %d %c %f" [AInt v; AInt c; AStr f];;;
     ret false)%ts.

Definition mq_server_loop (mq : Z) (buffer : ptr) : io bool :=
  while negb (λ _,
    bytes_read <- sys (Mq_receive mq buffer MAX_SIZE);;
    mem (mq_received buffer bytes_read)) false.

Definition mq_server_main : io Z :=
  buffer <- mem (malloc (MAX_SIZE + 1));;
  mq <- sys (Mq_open QUEUE_NAME "O_CREAT | O_RDONLY");;
  stopped <- mq_server_loop mq buffer;;
  sys (Mq_close mq);;;
  sys (Mq_unlink QUEUE_NAME);;;
  mem (free buffer);;;
  done_with 0.

(** ** A thread: [exploration/pthreads] *)

Definition run_proc : M unit := printf "Hello from thread" [].

Definition pthreads_main : io Z :=
  mem (printf "Creating threads" []);;;
  e <- sys (Pthread_create "run_proc" 0);;
  if negb (e =? 0) then mem (printf "Error creating the thread" []);;; done_with 0 else
  e <- sys (Pthread_join 0);;
  if negb (e =? 0) then mem (printf "Error joining" []);;; done_with 0 else
  mem (printf "All good" []);;;
  done_with 0.

(** ** The list through nanomsg, first version: [exploration/nanomsg_exploration] *)

Definition THREAD_COUNT : Z := 30.
Definition UPDATE_COUNT : Z := 10000.
Definition UPDATE_SIZE : Z := 10.

(** The message goes to socket 1, whatever the socket of the client. *)
Definition trial_send_proc (data : ptr) (len : Z) (x_void_ptr : ptr) : io unit :=
  socket_id <- mem (ld_i32 x_void_ptr);;
  mem (printf "Client socket %d start sending" [AInt socket_id]);;;
  for_each (Z.to_nat UPDATE_COUNT) 0 tt (λ i _, sys (Nn_send 1 data len);;; done_with tt).

Definition trial_recv_proc (server_socket : Z) (list : ptr) (len : Z) (pos : ptr) : io (Z * ptr) :=
  inproc_recv_proc THREAD_COUNT UPDATE_COUNT UPDATE_SIZE list (len + 1) server_socket pos.

Definition trial_sockets (client_socket : ptr) : io (option Z) :=
  for_until (Z.to_nat THREAD_COUNT) 0 (λ i,
    c <- sys (Nn_socket "NN_PUSH");;
    mem (st_i32 (idx_i32 client_socket i) c);;;
    if c <? 0 then mem (printf "Error creating sb socket" []);;; done_with (Some (-1))
    else mem (printf "Socket %i %d" [AInt i; AInt c]);;; done_with None).

Definition trial_main : io Z :=
  client_socket <- mem (malloc (THREAD_COUNT * 4));;
  pstart <- mem now;;
  mem (printf "Hello nanomsg" []);;;
  lp <- mem make_list;;
  server_socket <- sys (Nn_socket "NN_PULL");;
  if server_socket <? 0 then gives_up "Error creating sa socket" else
  mem (printf "Server socket %d" [AInt server_socket]);;;
  then_else (trial_sockets client_socket) (
  b <- sys (Nn_bind server_socket SOCKET_ADDRESS);;
  if b <? 1 then gives_up "Error on binding" else
  mem (printf "Server binded" []);;;
  then_else (inproc_connect THREAD_COUNT client_socket) (
  mem (printf "Clients connected" []);;;
  data <- mem (str_lit message);;
  start <- mem now;;
  then_else (inproc_start THREAD_COUNT) (
  mem (printf "Starting join" []);;;
  then_else (inproc_join THREAD_COUNT) (
  mem (printf "Join done" []);;;
  sys (Pthread_join (-1));;;
  end' <- mem now;;
  mem (printf "Communication elapse %ld" [AInt (Z.quot (tv_nsec (diff start end')) 1000000)]);;;
  sys (Nn_shutdown server_socket 0);;;
  for_each (Z.to_nat THREAD_COUNT) 0 tt (λ i _,
    c <- mem (ld_i32 (idx_i32 client_socket i));; sys (Nn_shutdown c 0);;; done_with tt);;;
  pend <- mem now;;
  mem (printf "Program elapse %ld" [AInt (Z.quot (tv_nsec (diff pstart pend)) 1000000)]);;;
  mem (free client_socket);;;
  done_with 0)))).

(** ** Programs that only compute *)

(** [exploration/timer]. *)
Definition timer_main : M Z :=
  (start <- now;;
   temp <- for_fold (Z.to_nat 10000) 0 0 (λ i temp, ret (s32 (temp + 1)));;
   end' <- now;;
   printf "Time %ld" [AInt (tv_nsec (diff start end'))];;;
   ret 0)%ts.

(** [TaskSystem/tool/gen.c]; [rand] is the stream of random numbers. *)
Definition gen_main (argv : list string) : M Z :=
  match argv with
  | [] => fault
  | a1 :: _ =>
      (n <- atoi a1;;
       for_range 0 n (λ i,
         r <- random;;
         printf "%d" [AInt (s32 (Z.rem r 1000000 + 1))]);;;
       ret 0)%ts
  end.
