(* ===== verification/MqSpec.v ===== *)
(** * The message queue of [exploration/posix_mq]

    The queue as the environment of its programs: what the client sends, what the
    server prints of it, and what a receive that fails does. *)

From S2P Require Import Prelude CMem CLogic MessageSpec Arrays Demo Posix Environment Explorations.
From stdpp Require Import base numbers list strings gmap.
From ITree Require Import ITree ITreeFacts.
From Stdlib Require Import Lia.
#[local] Open Scope Z_scope.
#[local] Open Scope io_scope.
Import CMem.

(** ** Comparing strings *)

Lemma wp_ld_char p w b o z (Q : Z → world → Prop) : mb w b o [Byte z] → Q z w → wp (ld_char (Addr p b o)) p w Q.
Proof. intros Hm HQ. apply wp_bind. eapply wp_load; [exact Hm|done|]. by apply wp_ret. Qed.

(** When the second string has no zero before [n], the result says whether the
    first [n] characters are the same. *)
Lemma wp_strncmp p w b o b' o' l l' (Q : Z → world → Prop) :
  mb w b o (Byte <$> l) → mb w b' o' (Byte <$> l') → length l = length l' → Forall (λ z, z ≠ 0) l' →
  (∀ r, r = 0 ↔ l = l' → Q r w) → wp (strncmp (Addr p b o) (Addr p b' o') (length l')) p w Q.
Proof.
  revert l o o'. induction l' as [|z' l' IH]; intros [|z l] o o' Hm Hm' Hl Hz HQ; try done; cbn [strncmp length] in *.
  - by apply wp_ret, HQ.
  - rewrite fmap_cons in Hm, Hm'. change (Byte z :: ?t) with ([Byte z] ++ t) in Hm. change (Byte z' :: ?t) with ([Byte z'] ++ t) in Hm'.
    apply mb_app in Hm as [Hz1 Hm]. apply mb_app in Hm' as [Hz2 Hm']. apply Forall_cons in Hz as [Hz0 Hz].
    apply wp_bind. eapply wp_ld_char; [exact Hz1|]. apply wp_bind. eapply wp_ld_char; [exact Hz2|].
    destruct (Z.eqb_spec z z') as [->|Hne]; cbn [negb].
    + destruct (Z.eqb_spec z' 0) as [?|_]; [done|]. apply (IH l); [done|done|lia|done|].
      intros r Hr. apply HQ. rewrite Hr. split; [by intros ->|by intros [= ->]].
    + apply wp_ret, HQ. split; [lia|by intros [= ? _]].
Qed.

(** ** The queue of messages *)

(** Up to ten messages; [mq_receive] waits for one, [mq_send] for room. *)
Definition mq_env (e : syscall) (p : Z) (w : world) (q : list (list memval)) : option (Z * world * list (list memval)) :=
  match e with
  | Mq_open _ _ => Some (3, w, q)
  | Mq_send _ buf n =>
      if Nat.ltb (length q) 10 then
        match load buf (Z.to_nat n) p w with Ok m _ => Some (0, w, q ++ [m]) | _ => None end
      else None
  | Mq_receive _ buf n =>
      match q with
      | m :: q' =>
          if Z.of_nat (length m) <=? n then
            match store buf m p w with Ok _ w' => Some (Z.of_nat (length m), w', q') | _ => None end
          else None
      | [] => None
      end
  | Mq_close _ | Mq_unlink _ => Some (0, w, q)
  | _ => None
  end.

(** A message with a [struct Data]: the padding after [c] and what follows the
    struct are any bytes. *)
Record data_msg := DataMsg { dm_v : Z; dm_c : Z; dm_f : list memval; dm_pad : list memval; dm_tail : list memval }.

Definition data_bytes (d : data_msg) : list memval :=
  enc_i32 (dm_v d) ++ [Byte (dm_c d)] ++ dm_pad d ++ dm_f d ++ dm_tail d.

(** The four bytes of [exit] as an [int]. *)
Definition exit_int : Z := 1953069157.

Definition data_ok (d : data_msg) : Prop :=
  is_s32 (dm_v d) ∧ dm_v d ≠ exit_int ∧ length (dm_pad d) = 3%nat ∧ length (dm_f d) = 4%nat ∧
  (length (dm_tail d) <= 1012)%nat.

Definition stop_bytes (tail : list memval) : list memval := chars MSG_STOP ++ tail.

Definition printed_data (d : data_msg) : string * list parg :=
  ("Received data: %d %c %f"%string, [AInt (dm_v d); AInt (dm_c d); AStr (dm_f d)]).

(** The buffer of the server, and what was printed. *)
Definition mq_state (b : Z) (out : list (string * list parg)) (w : world) : Prop :=
  wok w ∧ valid w b 0 1025 ∧ w_out w = out.

Lemma mq_state_upd b out w b' o l : mq_state b out w → mq_state b out (upd w b' o l).
Proof.
  intros (Hok & Hv & Ho). assert (ext (λ _ _, True) w (upd w b' o l)) as He by (apply ext_upd; [done|apply ext_refl]).
  split_and!; [by eapply ext_wok|by apply valid_upd|]. pose proof (upd_env w b' o l) as E. unfold env in E. congruence.
Qed.

(** Storing the zero and comparing: the four bytes decide. *)
Lemma mq_compare p b out w m l (Q : bool → world → Prop) (kstop kdata : M bool) :
  mq_state b out w → mb w b 0 (m ++ [Byte 0]) → take 4 m = Byte <$> l → length l = 4%nat →
  (∀ w', mq_state b out w' → mb w' b 0 (m ++ [Byte 0]) → l = [101; 120; 105; 116] → wp kstop p w' Q) →
  (∀ w', mq_state b out w' → mb w' b 0 (m ++ [Byte 0]) → l ≠ [101; 120; 105; 116] → wp kdata p w' Q) →
  wp (CMem.bind (str_lit MSG_STOP) (λ stop, CMem.bind (strncmp (Addr p b 0) stop (String.length MSG_STOP))
    (λ differs, if differs =? 0 then kstop else kdata))) p w Q.
Proof.
  intros (Hok & Hv & Ho) Hm Ht Hl H1 H2. apply wp_bind, str_lit_wp; [done|done|]. intros w' He Hs Hn.
  assert (mb w' b 0 (m ++ [Byte 0])) as Hm' by (eapply mb_extF; [exact He|by intros ? _ []|done]).
  assert (mq_state b out w') as Hst.
  { split_and!; [by eapply ext_wok|by eapply valid_extF|]. pose proof (ext_env _ _ _ He) as E. unfold env in E. congruence. }
  apply mb_app in Hs as [Hs _]. change (chars MSG_STOP) with (Byte <$> [101; 120; 105; 116]) in Hs.
  assert (mb w' b 0 (Byte <$> l)) as Hml.
  { pose proof Hm' as Hm4. rewrite <- (take_drop 4 m), <- app_assoc in Hm4. apply mb_app in Hm4 as [Hm4 _]. by rewrite Ht in Hm4. }
  apply wp_bind. change (String.length MSG_STOP) with (length [101; 120; 105; 116]).
  eapply wp_strncmp; [exact Hml|exact Hs|done|by repeat constructor|].
  intros r Hr. destruct (Z.eqb_spec r 0) as [E|E]; [apply H1|apply H2]; tauto.
Qed.

Lemma exit_split v : is_s32 v → v ≠ exit_int → le_split 4 v ≠ [101; 120; 105; 116].
Proof.
  intros Hv Hne E. pose proof (le_join_split 4 v) as H. rewrite E in H. change (le_join _) with exit_int in H.
  change (256 ^ Z.of_nat 4) with 4294967296 in H. unfold is_s32 in Hv. unfold exit_int in *. Z.div_mod_to_equations. lia.
Qed.

(** A turn of the server on a message that is data. *)
Lemma mq_data_turn p b out w d :
  mq_state b out w → data_ok d → mb w b 0 (data_bytes d ++ [Byte 0]) →
  wp (CMem.bind (str_lit MSG_STOP) (λ stop, CMem.bind (strncmp (Addr p b 0) stop (String.length MSG_STOP))
    (λ differs, if differs =? 0 then CMem.bind (printf "Stopping" []) (λ _, CMem.ret true) else
      CMem.bind (get_int (Addr p b 0) Data_v) (λ v, CMem.bind (ld_char (addr_of (Addr p b 0) Data_c)) (λ c,
      CMem.bind (load (addr_of (Addr p b 0) Data_f) 4) (λ f,
      CMem.bind (printf "Received data: %d %c %f" [AInt v; AInt c; AStr f]) (λ _, CMem.ret false))))))) p w
    (λ stopped w', stopped = false ∧ mq_state b (out ++ [printed_data d]) w').
Proof.
  intros Hst (Hv & Hne & Hpad & Hf & Htl) Hm.
  apply (mq_compare p b out w (data_bytes d) (le_split 4 (dm_v d))); [done|done|by unfold data_bytes; rewrite take_app_length'|done|..].
  - intros w' _ _ E. by apply exit_split in E.
  - intros w' (Hok & Hval & Ho) Hm' _. unfold data_bytes in Hm'. rewrite <- !app_assoc in Hm'.
    apply mb_app in Hm' as [Hmv Hm']. apply mb_app in Hm' as [Hmc Hm']. apply mb_app in Hm' as [_ Hm'].
    apply mb_app in Hm' as [Hmf _]. rewrite Hpad in Hmf. autorewrite with len in Hmc, Hmf. cbn [length Z.of_nat] in Hmc, Hmf.
    apply wp_bind. eapply wp_get_int; [exact Hmv|]. rewrite s32_small by done.
    apply wp_bind. eapply wp_ld_char; [exact Hmc|]. apply wp_bind. eapply wp_load; [exact Hmf|done|].
    apply wp_bind, wp_ret. split; [done|]. split_and!; [done|done|]. cbn. by rewrite Ho.
Qed.

Lemma mq_stop_turn p b out w tail :
  mq_state b out w → mb w b 0 (stop_bytes tail ++ [Byte 0]) →
  ∀ kdata, wp (CMem.bind (str_lit MSG_STOP) (λ stop, CMem.bind (strncmp (Addr p b 0) stop (String.length MSG_STOP))
    (λ differs, if differs =? 0 then CMem.bind (printf "Stopping" []) (λ _, CMem.ret true) else kdata))) p w
    (λ stopped w', stopped = true ∧ mq_state b (out ++ [("Stopping"%string, [])]) w').
Proof.
  intros Hst Hm kdata. apply (mq_compare p b out w (stop_bytes tail) [101; 120; 105; 116]); [done|done|done|done|..|done].
  intros w' (Hok & Hval & Ho) _ _. apply wp_bind, wp_ret. split; [done|]. split_and!; [done|done|]. cbn. by rewrite Ho.
Qed.

(** The message is in the buffer with a zero after it. *)
Lemma mq_receive_reaches p mq b out w m q Φ :
  mq_state b out w → (length m <= 1024)%nat →
  (∀ w', mq_state b out w' → mb w' b 0 (m ++ [Byte 0]) →
     wp (CMem.bind (str_lit MSG_STOP) (λ stop, CMem.bind (strncmp (Addr p b 0) stop (String.length MSG_STOP))
       (λ differs, if differs =? 0 then CMem.bind (printf "Stopping" []) (λ _, CMem.ret true) else
         CMem.bind (get_int (Addr p b 0) Data_v) (λ v, CMem.bind (ld_char (addr_of (Addr p b 0) Data_c)) (λ c,
         CMem.bind (load (addr_of (Addr p b 0) Data_f) 4) (λ f,
         CMem.bind (printf "Received data: %d %c %f" [AInt v; AInt c; AStr f]) (λ _, CMem.ret false)))))))
       p w' (λ stopped w2, Φ w2 q stopped)) →
  reaches mq_env p (bytes_read <- sys (Mq_receive mq (Addr p b 0) MAX_SIZE);; mem (mq_received (Addr p b 0) bytes_read)) w (m :: q) Φ.
Proof.
  intros (Hok & Hv & Ho) Hm Hk. apply reaches_bind.
  assert (mq_state b out (upd w b 0 m)) as Hst1 by by apply mq_state_upd.
  assert (valid w b 0 (length m)) as Hv1 by (eapply valid_le; [exact Hv|lia|lia]).
  eapply (reaches_sys _ _ _ _ _ (Z.of_nat (length m)) (upd w b 0 m) q).
  { cbn [mq_env]. rewrite (proj2 (Z.leb_le _ _)) by (unfold MAX_SIZE; lia).
    assert (wp (store (Addr p b 0) m) p w (λ _ w', w' = upd w b 0 m)) as (u & w' & -> & ->)%wp_Ok by by apply wp_store. done. }
  apply reaches_mem. unfold mq_received. cbn [padd]. apply wp_bind.
  assert (valid (upd w b 0 m) b (0 + Z.of_nat (length m)) 1) as Hv2 by (apply valid_upd; eapply valid_le; [exact Hv|lia|lia]).
  apply wp_store; [exact Hv2|]. apply Hk; [by apply mq_state_upd|].
  apply mb_app. split; [|by apply mb_upd_same]. apply mb_upd_disj; [left; lia|]. by apply mb_upd_same.
Qed.

Lemma mq_loop p mq b out w msgs tail rest :
  mq_state b out w → Forall data_ok msgs → (length tail <= 1020)%nat →
  reaches mq_env p (mq_server_loop mq (Addr p b 0)) w ((data_bytes <$> msgs) ++ stop_bytes tail :: rest)
    (λ w' q _, q = rest ∧ mq_state b (out ++ (printed_data <$> msgs) ++ [("Stopping"%string, [])]) w').
Proof.
  intros Hst Hmsgs Ht. unfold mq_server_loop. revert w out Hst. induction Hmsgs as [|d msgs Hd Hmsgs IH]; intros w out Hst; apply reaches_while; cbn [negb].
  - apply mq_receive_reaches with (out := out); [done|unfold stop_bytes; rewrite length_app; cbn; lia|]. intros w' Hst' Hm.
    eapply wp_mono; [by eapply mq_stop_turn|]. cbn beta. intros stopped w2 [-> H2]. apply reaches_while. cbn [negb]. by split.
  - pose proof Hd as (_ & _ & Hpad & Hf & Htl).
    apply mq_receive_reaches with (out := out); [done|unfold data_bytes; rewrite !length_app, Hpad, Hf, length_enc_i32; cbn; lia|].
    intros w' Hst' Hm. eapply wp_mono; [by eapply mq_data_turn|]. cbn beta. intros stopped w2 [-> H2].
    eapply reaches_mono; [by apply IH|]. cbn beta. intros w3 q u [-> H3]. split; [done|].
    cbn [fmap list_fmap app]. by rewrite <- app_assoc in H3.
Qed.

Lemma mq_server_reaches p w msgs tail rest :
  wok w → Forall data_ok msgs → (length tail <= 1020)%nat →
  reaches mq_env p mq_server_main w ((data_bytes <$> msgs) ++ stop_bytes tail :: rest)
    (λ w' q r, r = 0 ∧ q = rest ∧ w_out w' = w_out w ++ (printed_data <$> msgs) ++ [("Stopping"%string, [])]).
Proof.
  intros Hok Hmsgs Ht. unfold mq_server_main. apply reaches_bind, reaches_mem, wp_malloc; [done|].
  assert (mq_state (w_next w) (w_out w) (add_block (Blk (MAX_SIZE + 1) Undef ∅) w)) as Hst.
  { split_and!; [|by apply add_block_valid_eq|done]. eapply ext_wok; [|exact Hok]. apply (ext_add_block nowhere); [done|apply ext_refl]. }
  apply reaches_bind. eapply reaches_sys; [done|]. apply reaches_bind. eapply reaches_mono; [by apply mq_loop|]. cbn beta.
  intros w' q stopped (-> & Hok' & Hv & Ho). apply reaches_bind. eapply reaches_sys; [done|]. apply reaches_bind. eapply reaches_sys; [done|].
  apply reaches_bind, reaches_mem. destruct Hv as (k & Hk & _). eapply wp_free; [exact Hk|]. by apply reaches_done.
Qed.

(** *** The client *)

(** What the client sends first; the padding was never written. *)
Definition client_data : data_msg :=
  DataMsg 10 122 nine_point_two (replicate 3 Undef) (replicate 1012 (Byte 0)).

Lemma client_data_ok : data_ok client_data.
Proof. unfold data_ok, client_data. cbn [dm_v dm_c dm_f dm_pad dm_tail]. rewrite !length_replicate. split_and!; (done || lia). Qed.

(** The struct, member by member. *)
Lemma client_struct w D :
  mb w D 0 (replicate 12 Undef) →
  mb (upd (upd (upd w D 0 (enc_i32 10)) D 4 (chars "z")) D 8 nine_point_two) D 0
    (enc_i32 10 ++ [Byte 122] ++ replicate 3 Undef ++ nine_point_two).
Proof.
  intros Hm. pose proof (mb_valid _ _ _ _ Hm) as Hv. rewrite length_replicate in Hv.
  change (replicate 12 Undef) with (replicate 4 Undef ++ [Undef] ++ replicate 3 Undef ++ replicate 4 Undef) in Hm.
  apply mb_app in Hm as [_ Hm]. apply mb_app in Hm as [_ Hm]. apply mb_app in Hm as [Hm _]. cbn [length Z.of_nat replicate] in Hm.
  assert (∀ o n, 0 <= o → o + Z.of_nat n <= 12 → valid w D o n) as H by (intros o n ? ?; eapply valid_le; [exact Hv|lia|lia]).
  rewrite !mb_app. cbn [length]. autorewrite with len. split_and!.
  - do 2 (apply mb_upd_disj; [left; autorewrite with len; lia|]). apply mb_upd_same, H; [lia|autorewrite with len; lia].
  - apply mb_upd_disj; [left; cbn; lia|]. change [Byte 122] with (chars "z"). apply mb_upd_same, valid_upd, H; cbn; lia.
  - apply mb_upd_disj; [left; cbn; lia|]. apply mb_upd_disj; [right; cbn; lia|]. apply mb_upd_disj; [right; autorewrite with len; lia|]. exact Hm.
  - apply mb_upd_same, valid_upd, valid_upd, H; by vm_compute.
Qed.

(** After the first [memset] and [memcpy]. *)
Lemma client_buffer w B D :
  valid w B 0 1024 → B ≠ D → mb w D 0 (enc_i32 10 ++ [Byte 122] ++ replicate 3 Undef ++ nine_point_two) →
  mb (upd (upd w B 0 (replicate 1024 (Byte 0))) B 0 (enc_i32 10 ++ [Byte 122] ++ replicate 3 Undef ++ nine_point_two)) B 0
    (data_bytes client_data).
Proof.
  intros Hv Hne Hd. unfold data_bytes, client_data. cbn [dm_v dm_c dm_f dm_pad dm_tail].
  assert (mb (upd w B 0 (replicate 1024 (Byte 0))) B 0 (replicate 12 (Byte 0) ++ replicate 1012 (Byte 0))) as Hz.
  { rewrite <- replicate_add. apply mb_upd_same. by rewrite length_replicate. }
  apply mb_app in Hz as [_ Hz]. rewrite !(app_assoc _ _ (replicate 1012 _)). apply mb_app. split.
  - rewrite <- ?app_assoc. apply mb_upd_same, valid_upd. eapply valid_le; [exact Hv|lia|]. vm_compute. discriminate.
  - rewrite <- ?app_assoc. apply mb_upd_disj; [right; vm_compute; discriminate|]. exact Hz.
Qed.

Lemma mq_send_reaches p mq B w q m (Φ : world → list (list memval) → Z → Prop) :
  mb w B 0 m → length m = Z.to_nat MAX_SIZE → (length q < 10)%nat → Φ w (q ++ [m]) 0 →
  reaches mq_env p (sys (Mq_send mq (Addr p B 0) MAX_SIZE)) w q Φ.
Proof.
  intros Hm Hl Hq HΦ. eapply (reaches_sys _ _ _ _ _ 0 w (q ++ [m])); [|exact HΦ]. cbn [mq_env].
  rewrite (proj2 (Nat.ltb_lt _ _)) by lia.
  assert (wp (load (Addr p B 0) (Z.to_nat MAX_SIZE)) p w (λ l w', l = m ∧ w' = w)) as (l & w' & -> & -> & ->)%wp_Ok.
  { by eapply wp_load. }
  done.
Qed.

Definition prompt : string := "Send to server (enter " +:+ quote +:+ "exit" +:+ quote +:+ " to stop it):".

Definition client_messages : list (list memval) := [data_bytes client_data; stop_bytes (replicate 1020 (Byte 0))].

(** Memory that is good enough for the rest: the two blocks. *)
Definition mq_client_state (B D : Z) (out : list (string * list parg)) (w : world) : Prop :=
  wok w ∧ valid w B 0 1024 ∧ valid w D 0 12 ∧ w_out w = out.

Lemma client_state_ext B D out w w' :
  ext (λ _ _, True) w w' → mq_client_state B D out w → mq_client_state B D out w'.
Proof.
  intros He (Hok & Hb & Hd & Ho). split_and!; [by eapply ext_wok|by eapply valid_extF|by eapply valid_extF|].
  pose proof (ext_env _ _ _ He) as E. unfold env in E. congruence.
Qed.

Lemma client_state_upd B D out w b o l : mq_client_state B D out w → mq_client_state B D out (upd w b o l).
Proof. apply client_state_ext, ext_upd; [done|apply ext_refl]. Qed.

(** The stop message. *)
Lemma client_stop p B D out w (Q : unit → world → Prop) :
  mq_client_state B D out w →
  (∀ w', mq_client_state B D out w' → mb w' B 0 (stop_bytes (replicate 1020 (Byte 0))) → Q tt w') →
  wp (memset0 (Addr p B 0) MAX_SIZE) p w (λ _ w1, wp (CMem.bind (str_lit MSG_STOP) (λ stop, strcpy (Addr p B 0) stop)) p w1 Q).
Proof.
  intros Hst HQ. pose proof Hst as (_ & Hb & _ & _). unfold memset0.
  assert (valid w B 0 (length (replicate (Z.to_nat MAX_SIZE) (Byte 0)))) as Hv by by rewrite length_replicate.
  apply wp_store; [exact Hv|].
  assert (mb (upd w B 0 (replicate (Z.to_nat MAX_SIZE) (Byte 0))) B 0 (replicate 5 (Byte 0) ++ replicate 1019 (Byte 0))) as Hz.
  { rewrite <- replicate_add. by apply mb_upd_same. }
  pose proof (client_state_upd B D out w B 0 (replicate (Z.to_nat MAX_SIZE) (Byte 0)) Hst) as Hst1.
  set (w1 := upd w B 0 _) in *. clearbody w1. clear w Hst Hb Hv. pose proof Hst1 as (Hok & Hb & _ & _).
  apply wp_bind, str_lit_wp; [done|done|]. intros w2 He Hs Hn.
  assert (mq_client_state B D out w2) as Hst2 by (eapply client_state_ext; [|exact Hst1]; eapply ext_weaken; [|exact He]; done).
  apply mb_app in Hz as [_ Hz].
  assert (mb w2 B (0 + Z.of_nat (length (replicate 5 (Byte 0)))) (replicate 1019 (Byte 0))) as Hz2 by (eapply mb_extF; [exact He|by intros ? _ []|exact Hz]).
  pose proof Hst2 as (_ & Hb2 & _ & _).
  eapply wp_strcpy; [exact Hs|repeat constructor; done| |].
  - eapply valid_le; [exact Hb2|lia|cbn; lia].
  - apply HQ; [by apply client_state_upd|]. unfold stop_bytes.
    change (replicate 1020 (Byte 0)) with ([Byte 0] ++ replicate 1019 (Byte 0)). rewrite app_assoc. apply mb_app. split.
    + apply mb_upd_same. eapply valid_le; [exact Hb2|lia|cbn; lia].
    + apply mb_upd_disj; [right; cbn; lia|]. exact Hz2.
Qed.

Lemma client_first p B D out w (Q : unit → world → Prop) :
  mq_client_state B D out w → B ≠ D → mb w D 0 (replicate 12 Undef) →
  (∀ w', mq_client_state B D out w' → mb w' B 0 (data_bytes client_data) → Q tt w') →
  wp (CMem.bind (set_int (Addr p D 0) Data_v 10) (λ _, CMem.bind (store (addr_of (Addr p D 0) Data_c) (chars "z")) (λ _,
    CMem.bind (store (addr_of (Addr p D 0) Data_f) nine_point_two) (λ _, CMem.bind (memset0 (Addr p B 0) MAX_SIZE) (λ _,
    CMem.bind (memcpy (Addr p B 0) (Addr p D 0) sizeof_Data) (λ _, CMem.ret tt)))))) p w Q.
Proof.
  intros Hst Hne Hu HQ. pose proof Hst as (_ & Hb & Hd & _).
  assert (∀ w' o n, valid w' D 0 12 → 0 <= o → o + Z.of_nat n <= 12 → valid w' D o n) as Hval
    by (intros w' o n Hv ? ?; eapply valid_le; [exact Hv|lia|lia]).
  pose proof (client_struct w D Hu) as Hs.
  apply wp_bind, wp_set_int; [by apply Hval|]. apply wp_bind, wp_store; [apply valid_upd, Hval; done|].
  apply wp_bind, wp_store; [do 2 apply valid_upd; apply Hval; done|].
  change (0 + f_off Data_v) with 0. change (0 + f_off Data_c) with 4. change (0 + f_off Data_f) with 8.
  pose proof (client_state_upd _ _ _ _ D 8 nine_point_two (client_state_upd _ _ _ _ D 4 (chars "z") (client_state_upd _ _ _ _ D 0 (enc_i32 10) Hst))) as Hst1.
  set (w1 := upd (upd (upd w _ _ _) _ _ _) _ _ _) in *. clearbody w1. clear w Hst Hb Hd Hu. pose proof Hst1 as (_ & Hb & _ & _).
  apply wp_bind. unfold memset0. apply wp_store; [by rewrite length_replicate|].
  apply wp_bind. eapply (wp_memcpy _ _ _ _ D 0); [apply mb_upd_block; [|exact Hs]; congruence|done| |done|].
  - apply valid_upd. eapply valid_le; [exact Hb|lia|]. vm_compute. discriminate.
  - apply wp_ret, HQ; [by do 2 apply client_state_upd|]. by apply (client_buffer w1 B D).
Qed.

Lemma mq_client_reaches p w q :
  wok w → (length q <= 8)%nat →
  reaches mq_env p mq_client_main w q (λ w' q' r,
    r = 0 ∧ q' = q ++ client_messages ∧ wok w' ∧ w_out w' = w_out w ++ [(prompt, [])]).
Proof.
  intros Hok Hq. unfold mq_client_main. apply reaches_mem_then, wp_malloc; [done|].
  apply reaches_bind. eapply reaches_sys; [done|]. apply reaches_mem_then, wp_printf.
  set (w1 := add_out _ _). apply reaches_mem_then, wp_malloc; [done|]. change (w_next w1) with (w_next w + 1).
  set (B := w_next w). set (D := B + 1). set (w2 := add_block (Blk sizeof_Data Undef ∅) w1).
  set (out := w_out w ++ [(prompt, [])]).
  assert (wok w1) as Hok1.
  { intros b Hb. change (w_next w + 1 <= b) in Hb. change (w_blocks (add_block (Blk MAX_SIZE Undef ∅) w) !! b = None). rewrite (add_block_lookup_old w) by lia. apply Hok. lia. }
  assert (mq_client_state B D out w2) as Hst.
  { split_and!; [|..|done].
    - eapply ext_wok; [apply (ext_add_block nowhere); [exact Hok1|apply ext_refl]|exact Hok1].
    - apply valid_add_block; [change (w_next w ≠ w_next w + 1); lia|]. apply (add_block_valid w (Blk MAX_SIZE Undef ∅)). done.
    - apply (add_block_valid w1). done. }
  assert (mb w2 D 0 (replicate 12 Undef)) as Hu by (apply mb_undef; done).
  pose proof (client_first p B D out w2) as Hfirst. clearbody w2. clear w1 Hok1.
  pose proof (Hfirst (λ _ w', mq_client_state B D out w' ∧ mb w' B 0 (data_bytes client_data)) Hst ltac:(lia) Hu ltac:(by intros; split)) as H.
  clear Hfirst. do 5 (apply wp_bind_inv in H; apply reaches_mem_then; eapply wp_mono; [exact H|]; clear H; cbn beta; intros ? ? H).
  destruct H as [Hst3 Hdata]. apply reaches_bind.
  eapply (mq_send_reaches p 3 B _ q (data_bytes client_data)); [exact Hdata|done|lia|].
  eapply reaches_mem_then, wp_mono; [eapply (client_stop p B D out); [exact Hst3|]|cbn beta; intros ? ? H; apply reaches_mem_then; exact H].
  intros w4 Hst4 Hstop. apply reaches_bind.
  eapply (mq_send_reaches p 3 B _ _ (stop_bytes (replicate 1020 (Byte 0)))); [exact Hstop|done|rewrite length_app; cbn; lia|].
  apply reaches_bind. eapply reaches_sys; [done|]. destruct Hst4 as (Hok4 & (kb & Hkb & _) & (kd & Hkd & _) & Ho4).
  apply reaches_mem_then, wp_bind. eapply wp_free; [exact Hkb|]. eapply (wp_free _ _ _ kd).
  { cbn. by rewrite lookup_delete_ne by lia. }
  apply reaches_done. split; [done|]. rewrite <- app_assoc. split; [done|]. split; [|done].
  intros b Hb. cbn in *. rewrite !lookup_delete. repeat case_decide; try done. by apply Hok4.
Qed.

(** C36. The programs of [posix_mq]: the client ends with its two messages in the queue,
    after those that were there, and the server, in another process, then takes them
    all, prints the [v], [c] and [f] of each [struct Data] in the order they were
    sent, stops at the message that starts with [exit], and ends. *)
Theorem mq_delivers p p' w msgs :
  wok w → Forall data_ok msgs → (length msgs <= 8)%nat →
  reaches mq_env p mq_client_main w (data_bytes <$> msgs) (λ w1 q r, r = 0 ∧
    reaches mq_env p' mq_server_main w1 q (λ w2 q' r', r' = 0 ∧ q' = [] ∧
      w_out w2 = w_out w ++ [(prompt, [])] ++ (printed_data <$> (msgs ++ [client_data])) ++ [("Stopping"%string, [])])).
Proof.
  intros Hok Hmsgs Hl. eapply reaches_mono; [apply mq_client_reaches; [done|by rewrite length_fmap]|]. cbn beta.
  intros w1 q r (-> & -> & Hok1 & Ho). split; [done|].
  replace ((data_bytes <$> msgs) ++ client_messages) with
    ((data_bytes <$> (msgs ++ [client_data])) ++ stop_bytes (replicate 1020 (Byte 0)) :: []) by by rewrite fmap_app, <- app_assoc.
  eapply reaches_mono; [apply mq_server_reaches; [done|apply Forall_app_2; [done|by apply Forall_singleton, client_data_ok]|by rewrite length_replicate]|].
  cbn beta. intros w2 q' r' (-> & -> & Ho2). split_and!; [done|done|]. by rewrite Ho2, Ho, <- app_assoc.
Qed.

(** ** A receive that fails *)

Definition taken (e : syscall) (r : Z) : Prop := match e with Mq_receive _ _ _ => 0 <= r | _ => True end.

Lemma mq_received_fault p b w r : r < 0 → mq_received (Addr p b 0) r p w = Fault.
Proof.
  intros Hr. unfold mq_received, CMem.bind, store. cbn [padd]. rewrite decide_True by done.
  destruct (w_blocks w !! b) as [k|]; [|done]. rewrite decide_False; [done|]. intros [? _]. lia.
Qed.

(** The server of [posix_mq] does not look at whether [mq_receive] failed: on an
    answer below 0 it writes its zero before the buffer, which is undefined, so that
    in every run that has an end all receives have taken a message. *)
Theorem mq_error_unhandled p n w tr w' r :
  run p n mq_server_main w tr w' r →
  Forall (λ er, taken er.1 er.2) tr ∧ ∀ b w2 code, code < 0 → mq_received (Addr p b 0) code p w2 = Fault.
Proof.
  intros Hr. split; [|by intros; apply mq_received_fault]. revert n tr w' r Hr.
  change (post p mq_server_main w (λ tr _ _, Forall (λ er, taken er.1 er.2) tr)). unfold mq_server_main.
  apply post_bind, post_mem_any. intros buffer w1 Hb. unfold malloc in Hb. rewrite decide_True in Hb by done. injection Hb as <- <-.
  apply post_bind, post_sys. intros mq w2 _. apply post_bind.
  eapply post_mono with (Φ := λ tr _ _, Forall (λ er, taken er.1 er.2) tr).
  - apply (post_while p (λ _ tr _, Forall (λ er, taken er.1 er.2) tr)); [|done|done].
    intros stop tr w3 Htr _. split; [auto with active|]. apply post_bind, post_sys. intros code w4 _. apply post_mem_any.
    intros stop' w5 E. apply Forall_app. split; [done|]. constructor; [|done]. cbn. destruct (Z.ltb_spec code 0); [|done].
    by rewrite mq_received_fault in E.
  - cbn beta. intros tr w3 _ Htr. apply post_bind, post_sys. intros ? ? _. apply post_bind, post_sys. intros ? ? _.
    apply post_bind, post_mem_any. intros ? ? _. apply post_done. rewrite app_nil_l. constructor; [done|]. apply Forall_app. split; [done|].
    by repeat constructor.
Qed.

(** ** Runs *)

Lemma mq_env_answered p e w q r w' q' : mq_env e p w q = Some (r, w', q') → answered e r p w w'.
Proof.
  unfold mq_env, answered. destruct e; try done; repeat case_match; intros; simplify_eq; try done.
  split; [by apply Z.leb_le|]. eexists. split; [|by destruct a]. lia.
Qed.

(** One message is in the queue before the client begins. *)
Definition demo_data : data_msg := DataMsg (-7) 120 nine_point_two (replicate 3 (Byte 0)) [].
Definition demo_none : world := world_init 0 [] [].

Lemma demo_none_ok : wok demo_none.
Proof. apply wokb_spec. vm_compute. reflexivity. Qed.

Lemma demo_data_ok : Forall data_ok [demo_data].
Proof. repeat constructor; cbn; try done. Qed.

Lemma mq_delivers_witness :
  reaches mq_env 1 mq_client_main demo_none [data_bytes demo_data] (λ w1 q r, r = 0 ∧
    reaches mq_env 2 mq_server_main w1 q (λ w2 q' r', r' = 0 ∧ q' = [] ∧
      w_out w2 = [(prompt, []); printed_data demo_data; printed_data client_data; ("Stopping"%string, [])])).
Proof. apply (mq_delivers 1 2 demo_none [demo_data]); [exact demo_none_ok|exact demo_data_ok|cbn; lia]. Defined.

Lemma mq_error_unhandled_witness :
  ∃ n tr w', run 1 n mq_server_main demo_none tr w' 0 ∧ Forall (λ er, taken er.1 er.2) tr.
Proof.
  destruct (mq_server_reaches 1 demo_none [demo_data] [] [] demo_none_ok demo_data_ok ltac:(cbn; lia)) as (w' & q & r & Hl & -> & _).
  destruct (lives_run mq_env 1 _ _ _ _ _ _ (mq_env_answered 1) Hl) as (n & tr & Hr).
  exists n, tr, w'. split; [exact Hr|]. exact (proj1 (mq_error_unhandled 1 n demo_none tr w' 0 Hr)).
Defined.

