(* ===== verification/RpcSpec.v ===== *)
(** * Requests and responses, and the smaller explorations

    The server of [exploration/dns] against clients that make as many requests each,
    and against any answers of the system; its client; the generator of data and
    the other small programs. *)

From S2P Require Import Prelude CMem CLogic MessageSpec Arrays Demo TimeHelper WeissList TestPrograms TestProps Posix IpcPrograms Environment Explorations MqSpec.
From stdpp Require Import base numbers list strings gmap.
From ITree Require Import ITree ITreeFacts.
From Stdlib Require Import Lia.
#[local] Open Scope Z_scope.
#[local] Open Scope io_scope.
Import CMem.

(** ** The server of [dns] *)

(** The first characters of a request. *)
Definition request : list memval := chars message.

(** Clients that are told by their order ([accept] gives 4, 5, ...), and the
    requests that each of them has still to make; a client with none has closed. *)
Definition peers_env (e : syscall) (p : Z) (w : world) (s : Z * list nat) : option (Z * world * (Z * list nat)) :=
  let '(accepted, todo) := s in
  match e with
  | Socket _ => Some (3, w, s)
  | Unlink _ | Bind _ _ | Listen _ _ | Close _ => Some (0, w, s)
  | Accept _ => Some (4 + accepted, w, (accepted + 1, todo))
  | Recv fd buf n =>
      match todo !! Z.to_nat (fd - 4) with
      | Some (S k) =>
          if 4 <=? n then
            match store buf request p w with
            | Ok _ w' => Some (4, w', (accepted, <[Z.to_nat (fd - 4) := k]> todo))
            | _ => None
            end
          else None
      | Some O => Some (0, w, s)
      | None => Some (-1, w, s)
      end
  | Send fd buf n => match load buf (Z.to_nat n) p w with Ok _ _ => Some (n, w, s) | _ => None end
  | _ => None
  end.

Section rpc_server.
Context (p C B count nb : Z) (Hne : C ≠ B) (Hnb : 0 < nb) (Hcount : 0 <= count) (Hint : count + nb < 2147483644).

(** The array of the connections, and the buffer. *)
Definition rpc_mem (w : world) : Prop := mb w C 0 (ints (seqZ 4 nb)) ∧ valid w B 0 4.

Lemma rpc_mem_blocks w w' : w_blocks w' = w_blocks w → rpc_mem w → rpc_mem w'.
Proof. intros E [H1 H2]. split; [by eapply mb_same_blocks|by eapply valid_same_blocks]. Qed.

Lemma rpc_client w t (Q : Z → world → Prop) :
  rpc_mem w → 0 <= t < nb → Q (4 + t) w → wp (ld_i32 (idx_i32 (Addr p C 0) t)) p w Q.
Proof.
  intros [Hm _] Ht HQ. eapply ld_int_wp; [exact Hm|lia|apply lookup_seqZ; split; [reflexivity|lia]| |].
  - unfold is_s32. lia.
  - by rewrite Z2Nat.id by lia.
Qed.

Lemma peer_index t : Z.to_nat (4 + t - 4) = Z.to_nat t.
Proof. f_equal. lia. Qed.

(** A client with a request is answered. *)
Lemma rpc_serve_reaches w todo t k req :
  rpc_mem w → 0 <= t < nb → todo !! Z.to_nat t = Some (S k) → is_s32 (req + 1) →
  reaches peers_env p (rpc_serve (Addr p C 0) (Addr p B 0) 4 t req) w (nb, todo)
    (λ w' s r, r = inr (req + 1) ∧ s = (nb, <[Z.to_nat t := k]> todo) ∧ rpc_mem w' ∧ w_out w' = w_out w).
Proof.
  intros Hm Ht Hk Hreq. unfold rpc_serve. apply reaches_bind, reaches_mem. apply rpc_client; [done|done|].
  pose proof Hm as [Hc Hv]. apply reaches_bind. eapply (reaches_sys _ _ _ _ _ 4 (upd w B 0 request)).
  { cbn [peers_env]. rewrite peer_index, Hk.
    assert (wp (store (Addr p B 0) request) p w (λ _ w', w' = upd w B 0 request)) as (u & w' & -> & ->)%wp_Ok by by apply wp_store. done. }
  rewrite Z.eqb_refl. assert (rpc_mem (upd w B 0 request)) as Hm1 by (split; [by apply mb_upd_block|by apply valid_upd]).
  assert (w_out (upd w B 0 request) = w_out w) as Ho by (pose proof (upd_env w B 0 request) as E; unfold env in E; congruence).
  pose proof (mb_upd_same w B 0 request Hv) as Hbuf.
  apply reaches_bind, reaches_bind, reaches_mem. apply rpc_client; [done|done|]. apply reaches_bind.
  eapply (reaches_sys _ _ _ _ _ 4).
  { cbn [peers_env]. assert (wp (load (Addr p B 0) (Z.to_nat 4)) p (upd w B 0 request) (λ _ _, True)) as (l & w' & -> & _)%wp_Ok by by eapply wp_load.
    reflexivity. }
  apply reaches_done. cbn. apply reaches_done. rewrite s32_small by done. done.
Qed.

(** A client that has closed ends the server. *)
Lemma rpc_serve_eof w todo t req :
  rpc_mem w → 0 <= t < nb → todo !! Z.to_nat t = Some O →
  reaches peers_env p (rpc_serve (Addr p C 0) (Addr p B 0) 4 t req) w (nb, todo)
    (λ w' s r, r = inl (-1) ∧ s = (nb, todo) ∧ w_out w' = w_out w ++ [("EOF at %d"%string, [AInt req])]).
Proof.
  intros Hm Ht Hk. unfold rpc_serve. apply reaches_bind, reaches_mem. apply rpc_client; [done|done|].
  apply reaches_bind. eapply (reaches_sys _ _ _ _ _ 0 w (nb, todo)).
  { cbn [peers_env]. by rewrite peer_index, Hk. }
  cbn. apply reaches_bind, reaches_done. apply reaches_bind, reaches_mem, wp_printf. by apply reaches_done.
Qed.

(** [t] clients have been served in this round. *)
Definition in_round (k : nat) (t : Z) : list nat := replicate (Z.to_nat t) k ++ replicate (Z.to_nat (nb - t)) (S k).

Lemma in_round_lookup k t : 0 <= t < nb → in_round k t !! Z.to_nat t = Some (S k).
Proof.
  intros Ht. unfold in_round. rewrite lookup_app_r by by rewrite length_replicate. rewrite length_replicate, Nat.sub_diag.
  apply lookup_replicate. split; [done|lia].
Qed.

Lemma in_round_next k t : 0 <= t < nb → <[Z.to_nat t := k]> (in_round k t) = in_round k (t + 1).
Proof.
  intros Ht. unfold in_round. rewrite insert_app_r_alt by by rewrite length_replicate. rewrite length_replicate, Nat.sub_diag.
  replace (Z.to_nat (nb - t)) with (S (Z.to_nat (nb - (t + 1)))) by lia. cbn [replicate insert list_insert].
  replace (Z.to_nat (t + 1)) with (Z.to_nat t + 1)%nat by lia. rewrite replicate_add, <- app_assoc. done.
Qed.

Lemma rpc_round w k req :
  rpc_mem w → 0 <= req → req + nb < 2147483648 →
  reaches peers_env p (for_or (Z.to_nat nb) 0 req (λ t req, rpc_serve (Addr p C 0) (Addr p B 0) 4 t req)) w (nb, replicate (Z.to_nat nb) (S k))
    (λ w' s r, r = inr (req + nb) ∧ s = (nb, replicate (Z.to_nat nb) k) ∧ rpc_mem w' ∧ w_out w' = w_out w).
Proof.
  intros Hm Hreq Hle.
  assert (∀ n t w, 0 <= t → t + Z.of_nat n = nb → rpc_mem w →
    reaches peers_env p (for_or n t (req + t) (λ t req, rpc_serve (Addr p C 0) (Addr p B 0) 4 t req)) w (nb, in_round k t)
      (λ w' s r, r = inr (req + nb) ∧ s = (nb, replicate (Z.to_nat nb) k) ∧ rpc_mem w' ∧ w_out w' = w_out w)) as H.
  { clear w Hm. intros n. induction n as [|n IH]; intros t w Ht Hn Hm; cbn [for_or].
    - apply reaches_done. replace t with nb by lia. split; [done|]. split; [|done]. unfold in_round. rewrite Z.sub_diag. cbn. by rewrite app_nil_r.
    - apply reaches_bind. eapply reaches_mono; [apply (rpc_serve_reaches _ _ _ k); [done|lia|apply in_round_lookup; lia|unfold is_s32; lia]|].
      cbn beta. intros w1 s r (-> & -> & Hm1 & Ho). rewrite in_round_next by lia.
      replace (req + t + 1) with (req + (t + 1)) by lia. eapply reaches_mono; [apply IH; [lia|lia|done]|].
      cbn beta. intros w2 s r (-> & -> & Hm2 & Ho2). split_and!; [done|done|done|congruence]. }
  specialize (H (Z.to_nat nb) 0 w ltac:(lia) ltac:(lia) Hm). rewrite Z.add_0_r in H.
  unfold in_round in H. cbn [replicate Z.to_nat app] in H. rewrite Z.sub_0_r in H. exact H.
Qed.

Lemma rpc_no_round w req :
  rpc_mem w →
  reaches peers_env p (for_or (Z.to_nat nb) 0 req (λ t req, rpc_serve (Addr p C 0) (Addr p B 0) 4 t req)) w (nb, replicate (Z.to_nat nb) O)
    (λ w' s r, r = inl (-1) ∧ s = (nb, replicate (Z.to_nat nb) O) ∧ w_out w' = w_out w ++ [("EOF at %d"%string, [AInt req])]).
Proof.
  intros Hm. destruct (Z.to_nat nb) as [|n] eqn:En; [lia|]. cbn [for_or]. apply reaches_bind.
  eapply reaches_mono; [apply rpc_serve_eof; [done|lia|done]|]. cbn beta. intros w1 s r (-> & -> & Ho). by apply reaches_done.
Qed.

(** The rounds that the server wants to serve. *)
Definition rounds : Z := (count + nb - 1) / nb.

Lemma rounds_spec k : k * nb < count ↔ k < rounds.
Proof. unfold rounds. Z.div_mod_to_equations. nia. Qed.

Lemma rounds_nonneg : 0 <= rounds.
Proof. unfold rounds. apply Z.div_pos; lia. Qed.

Lemma rounds_le : rounds * nb <= count + nb - 1.
Proof. unfold rounds. rewrite Z.mul_comm. apply Z.mul_div_le. lia. Qed.

Definition after_rounds (w : world) (k : Z) (r : nat) (w' : world) (s : Z * list nat) (res : Z + Z) : Prop :=
  (rounds - k <= Z.of_nat r ∧ res = inr (rounds * nb) ∧ s = (nb, replicate (Z.to_nat nb) (r - Z.to_nat (rounds - k))%nat) ∧
     rpc_mem w' ∧ w_out w' = w_out w) ∨
  (Z.of_nat r < rounds - k ∧ res = inl (-1) ∧ s = (nb, replicate (Z.to_nat nb) O) ∧
     w_out w' = w_out w ++ [("EOF at %d"%string, [AInt ((k + Z.of_nat r) * nb)])]).

Lemma rpc_loop w k r :
  rpc_mem w → 0 <= k <= rounds →
  reaches peers_env p (while (λ st : Z + Z, match st with inr req => req <? count | inl _ => false end)
    (λ st, match st with
       | inr req => for_or (Z.to_nat nb) 0 req (λ t req, rpc_serve (Addr p C 0) (Addr p B 0) 4 t req)
       | inl a => done_with (inl a)
       end) (inr (k * nb))) w (nb, replicate (Z.to_nat nb) r) (after_rounds w k r).
Proof.
  intros Hm Hk. remember (Z.to_nat (rounds - k)) as m eqn:Em. revert w k r Hm Hk Em. pose proof rounds_le as Hle.
  induction m as [|m IH]; intros w k r Hm Hk Em; apply reaches_while; pose proof (rounds_spec k) as Hiff;
    destruct (Z.ltb_spec (k * nb) count); try lia.
  - left. replace rounds with k by lia. rewrite Z.sub_diag, Nat.sub_0_r. split_and!; (done || lia).
  - destruct r as [|r].
    + eapply reaches_mono; [by apply rpc_no_round|]. cbn beta. intros w1 s res (-> & -> & Ho). apply reaches_while.
      right. split_and!; [lia|done|done|]. by rewrite Z.add_0_r.
    + assert ((k + 1) * nb <= rounds * nb) by (apply Z.mul_le_mono_nonneg_r; lia).
      eapply reaches_mono; [apply (rpc_round w r (k * nb)); [done|apply Z.mul_nonneg_nonneg; lia|lia]|]. cbn beta. intros w1 s res (-> & -> & Hm1 & Ho).
      replace (k * nb + nb) with ((k + 1) * nb) by lia. eapply reaches_mono; [apply IH; [done|lia|lia]|]. cbn beta.
      intros w2 s res [(H1 & -> & -> & H2 & H3)|(H1 & -> & -> & H2)]; [left|right].
      * split_and!; [lia|done| |done|congruence]. f_equal. f_equal. lia.
      * split_and!; [lia|done|done|]. rewrite H2, Ho. by replace (k + 1 + Z.of_nat r) with (k + Z.of_nat (S r)) by lia.
Qed.

End rpc_server.

Lemma wp_reading p w (Q : timespec → world → Prop) :
  (∀ t c, Q t (set_clock c w)) → wp now p w Q.
Proof.
  intros H. apply wp_bind. unfold wp, clock_gettime. destruct w as [bl nx lk sh gd out th sg cl rd]. cbn.
  destruct cl as [|[a b] cl]; apply H.
Qed.

Section rpc_main.
Context (p count nb : Z) (Hnb : 0 < nb) (Hcount : 0 <= count) (Hint : count + nb < 2147483644).

Lemma rpc_accept_reaches sc C w todo :
  valid w C 0 (Z.to_nat (4 * nb)) →
  reaches peers_env p (rpc_accept nb sc (Addr p C 0)) w (0, todo)
    (λ w' s r, r = None ∧ s = (nb, todo) ∧ mb w' C 0 (ints (seqZ 4 nb)) ∧ ext (λ b _, b = C) w w').
Proof.
  intros Hv. unfold rpc_accept.
  apply reaches_for_until with (I := λ i w' s, s = (i, todo) ∧ mb w' C 0 (ints (seqZ 4 i)) ∧ ext (λ b _, b = C) w w').
  - intros i w1 s Hi (-> & Hm & He). rewrite Z2Nat.id in Hi by lia. apply reaches_bind. eapply reaches_sys; [done|].
    apply reaches_mem_then. cbn [idx_i32 padd].
    assert (valid w1 C (0 + 4 * i) 4) as Hv1.
    { eapply valid_extF; [exact He|]. eapply valid_le; [exact Hv|lia|lia]. }
    apply wp_store; [by rewrite length_enc_i32|]. rewrite (proj2 (Z.ltb_ge _ _)) by lia. apply reaches_done. split; [done|]. split; [done|].
    assert (seqZ 4 (i + 1) = seqZ 4 i ++ [4 + i]) as -> by (rewrite seqZ_app by lia; done).
    assert (Z.of_nat (length (ints (seqZ 4 i))) = 4 * i) as Hl by (rewrite ints_arr, (length_arr enc_i32 4 length_enc_i32), length_seqZ; lia).
    split; [|apply ext_upd; [done|exact He]]. rewrite ints_snoc. apply mb_app. split.
    + apply mb_upd_disj; [left; lia|exact Hm].
    + rewrite Hl. apply mb_upd_same. by rewrite length_enc_i32.
  - split; [done|]. split; [|apply ext_refl]. apply mb_nil. eapply valid_le; [exact Hv|lia|lia].
  - intros w1 s. rewrite Z2Nat.id, Z.add_0_l by lia. intros (-> & H1 & H2). done.
Qed.

(** The end of the work: the outcome of the loop is that of the server. *)
Definition rpc_outcome (r : nat) (w' : world) (s : Z * list nat) (res : Z) : Prop :=
  let rounds := rounds count nb in
  (rounds <= Z.of_nat r ∧ res = 0 ∧ s.2 = replicate (Z.to_nat nb) (r - Z.to_nat rounds)%nat) ∨
  (Z.of_nat r < rounds ∧ res = -1 ∧ s.2 = replicate (Z.to_nat nb) O ∧
     last (w_out w') = Some ("EOF at %d"%string, [AInt (Z.of_nat r * nb)])).

Lemma rpc_close_reaches {A} C w s (k : io A) Φ :
  mb w C 0 (ints (seqZ 4 nb)) → reaches peers_env p k w s Φ →
  reaches peers_env p (for_each (Z.to_nat nb) 0 tt (λ i _, c <- mem (ld_i32 (idx_i32 (Addr p C 0) i));; sys (Close c);;; done_with tt);;; k) w s Φ.
Proof.
  intros Hm Hk. apply reaches_bind. apply reaches_for_each with (I := λ _ _ w' s', w' = w ∧ s' = s).
  - intros i _ w1 s1 Hi [-> ->]. rewrite Z2Nat.id in Hi by lia. apply reaches_mem_then.
    eapply ld_int_wp; [exact Hm|lia|apply lookup_seqZ; split; [reflexivity|lia]|unfold is_s32; lia|].
    apply reaches_bind. apply (reaches_sys _ _ _ _ _ 0 w s); [by destruct s|]. by apply reaches_done.
  - done.
  - by intros _ w1 s1 [-> ->].
Qed.

Lemma rpc_work_reaches sc C w r :
  wok w → valid w C 0 (Z.to_nat (4 * nb)) →
  reaches peers_env p (rpc_server_work count nb sc (Addr p C 0)) w (0, replicate (Z.to_nat nb) r) (rpc_outcome r).
Proof.
  intros Hok Hv. unfold rpc_server_work, then_else. apply reaches_bind. eapply reaches_mono; [by apply rpc_accept_reaches|].
  cbn beta. intros w1 s o (-> & -> & Hm & He). pose proof (ext_wok _ _ _ He Hok) as Hok1. pose proof (mb_fresh _ _ _ _ Hok1 Hm) as Hlt.
  apply reaches_mem_then, wp_malloc; [done|]. set (B := w_next w1). set (w2 := add_block (Blk 4 Undef ∅) w1).
  assert (rpc_mem C B nb w2) as Hm2.
  { split; [by apply mb_add_block; [unfold B; lia|]|]. by apply add_block_valid. }
  assert (C ≠ B) as Hne by (unfold B; lia). clearbody w2 B. clear Hlt.
  apply reaches_mem_then, wp_printf. apply reaches_mem_then, wp_reading. intros t1 c1.
  match goal with |- reaches _ _ _ ?w _ _ => assert (rpc_mem C B nb w) as Hm3 by (by apply (rpc_mem_blocks C B nb w2)); set (w3 := w) in * end.
  clearbody w3. unfold rpc_server_loop, while_or. apply reaches_bind.
  eapply reaches_mono; [apply (rpc_loop p C B count nb Hne Hnb Hcount Hint w3 0 r Hm3); pose proof (rounds_nonneg count nb Hnb Hcount); lia|].
  intros w4 s res [(Hr & -> & -> & Hm4 & Ho)|(Hr & -> & -> & Ho)].
  - apply reaches_mem_then, wp_reading. intros t2 c2. do 3 apply reaches_mem_then, wp_printf.
    match goal with |- reaches _ _ _ ?w _ _ => assert (rpc_mem C B nb w) as Hm5 by (by apply (rpc_mem_blocks C B nb w4)); set (w5 := w) in * end.
    destruct Hm5 as [Hc _]. clearbody w5. apply rpc_close_reaches; [done|].
    do 2 (apply reaches_bind; eapply reaches_sys; [done|]). destruct Hc as (kc & Hk & _).
    apply reaches_mem_then. eapply wp_free; [exact Hk|]. apply reaches_done. left. rewrite Z.sub_0_r in *. done.
  - apply reaches_done. right. rewrite Z.sub_0_r in Hr. split_and!; [done|done|done|]. rewrite Ho, Z.add_0_l. apply last_snoc.
Qed.
End rpc_main.

(** C37. The server of [exploration/dns], with [nb] clients that make [r] requests each:
    it serves the clients in rounds, [count / nb] of them rounded up.  When the
    clients make that many requests it answers them all, closes, and ends with 0;
    when they make fewer it answers all of theirs and ends with -1 at the end of the
    first client's connection. *)
Theorem rpc_server_serves p w a1 a2 more r :
  wok w → 0 <= atoi_value a1 → 0 < atoi_value a2 → atoi_value a1 + atoi_value a2 < 2147483644 →
  reaches peers_env p (rpc_server_main (a1 :: a2 :: more)) w (0, replicate (Z.to_nat (atoi_value a2)) r)
    (rpc_outcome (atoi_value a1) (atoi_value a2) r).
Proof.
  intros Hok Hc Hn Hi. unfold rpc_server_main.
  apply reaches_mem_then. eapply atoi_wp; [done|unfold is_s32; lia|]. apply reaches_mem_then. eapply atoi_wp; [done|unfold is_s32; lia|].
  apply reaches_mem_then, wp_printf. do 3 (apply reaches_bind; eapply reaches_sys; [done|]; cbn).
  apply reaches_mem_then, wp_malloc; [lia|]. apply reaches_bind. eapply reaches_sys; [done|]. cbn.
  set (w1 := add_out _ w). assert (wok w1) as Hok1 by done. apply rpc_work_reaches; [done|done|done|..].
  - eapply ext_wok; [apply (ext_add_block nowhere); [exact Hok1|apply ext_refl]|exact Hok1].
  - apply (add_block_valid w1). split; cbn; lia.
Qed.

(** *** Requests that come in pieces *)

(** A [recv] of some bytes; one of a whole request; a [send] that took everything. *)
Definition got_some (er : syscall * Z) : bool := match er.1 with Recv _ _ _ => 0 <? er.2 | _ => false end.
Definition got_all (er : syscall * Z) : bool := match er.1 with Recv _ _ n => er.2 =? n | _ => false end.
Definition answer_sent (er : syscall * Z) : bool := match er.1 with Send _ _ n => er.2 =? n | _ => false end.

Definition count_of (f : syscall * Z → bool) (tr : trace) : nat := length (List.filter f tr).

Lemma count_of_app f tr1 tr2 : count_of f (tr1 ++ tr2) = (count_of f tr1 + count_of f tr2)%nat.
Proof. unfold count_of. by rewrite List.filter_app, length_app. Qed.

Definition tally (tr : trace) (req : Z) : Prop :=
  req = Z.of_nat (count_of got_some tr) ∧ count_of answer_sent tr = count_of got_all tr.

Lemma tally_app tr1 tr2 n m : tally tr1 n → tally tr2 m → tally (tr1 ++ tr2) (n + m).
Proof. intros [-> H1] [-> H2]. unfold tally. rewrite !count_of_app. lia. Qed.

Lemma rpc_serve_tally p clients buf t req w :
  is_s32 (req + 1) →
  post p (rpc_serve clients buf 4 t req) w (λ tr _ r, match r with inl code => code = -1 | inr req' => req' = req + 1 ∧ tally tr 1 end).
Proof.
  intros Hreq. unfold rpc_serve. apply post_bind, post_mem_any. intros fd w1 _. apply post_bind, post_sys. intros e w2 _.
  apply post_bind. destruct (Z.eqb_spec e 4) as [->|Hne].
  - apply post_bind, post_mem_any. intros fd2 w3 _. apply post_bind, post_sys. intros n w4 _. apply post_done.
    destruct (Z.eqb_spec n 4) as [->|?]; cbn [negb].
    + apply post_done. rewrite s32_small by done. split; [done|]. by vm_compute.
    + apply post_bind, post_mem_any. intros ? ? _. apply post_bind, post_mem_any. intros ? ? _. by apply post_done.
  - apply post_done. destruct (Z.ltb_spec e 0).
    { apply post_bind, post_mem_any. intros ? ? _. by apply post_done. }
    destruct (Z.eqb_spec e 0).
    { apply post_bind, post_mem_any. intros ? ? _. by apply post_done. }
    apply post_done. rewrite s32_small by done. split; [done|]. unfold tally, count_of. cbn.
    rewrite (proj2 (Z.ltb_lt _ _)), (proj2 (Z.eqb_neq _ _)) by lia. done.
Qed.

Lemma for_or_post {S A} p (I : Z → S → trace → Prop) (J : A → Prop) n lo (body : Z → S → io (A + S)) s w :
  (∀ i s tr w, lo <= i < lo + Z.of_nat n → I i s tr →
     post p (body i s) w (λ tr1 _ r, match r with inl a => J a | inr s1 => I (i + 1) s1 (tr ++ tr1) end)) →
  ∀ tr, I lo s tr → post p (for_or n lo s body) w (λ tr1 _ r, match r with inl a => J a | inr s1 => I (lo + Z.of_nat n) s1 (tr ++ tr1) end).
Proof.
  revert lo s w. induction n as [|n IH]; intros lo s w Hb tr Hs; cbn [for_or].
  - apply post_done. by rewrite Z.add_0_r, app_nil_r.
  - apply post_bind. eapply post_mono; [apply (Hb lo s tr); [lia|done]|]. cbn beta. intros tr1 w1 [a|s1] H1; [by apply post_done|].
    eapply post_mono; [apply (IH (lo + 1) s1 w1) with (tr := tr ++ tr1); [|exact H1]|].
    + intros i s2 tr2 w2 Hi. apply Hb. lia.
    + cbn beta. intros tr2 w2 [a|s2]; [done|]. rewrite <- app_assoc.
      by replace (lo + Z.of_nat (Datatypes.S n)) with (lo + 1 + Z.of_nat n) by lia.
Qed.

(** The server of [exploration/dns], whatever the system answers: when its loop ends
    by itself it has served the requests that it wants in whole rounds, and each
    [recv] that took any bytes was counted as a request, while only those that
    took all four bytes were answered. *)
Theorem rpc_server_counts p count nb clients buf n w tr w' req :
  0 < nb → 0 <= count → count + nb < 2147483644 →
  run p n (rpc_server_loop count nb clients buf 4) w tr w' (inr req) →
  req = rounds count nb * nb ∧ Z.of_nat (count_of got_some tr) = req ∧ count_of answer_sent tr = count_of got_all tr.
Proof.
  intros Hnb Hc Hi Hr. pose proof (rounds_nonneg count nb Hnb Hc) as Hpos. pose proof (rounds_le count nb Hnb) as Hle.
  enough (post p (rpc_server_loop count nb clients buf 4) w (λ tr _ r,
    match r with inl _ => True | inr req => req = rounds count nb * nb ∧ tally tr req end)) as H.
  { destruct (H _ _ _ _ Hr) as [-> [H1 H2]]. done. }
  apply (post_while p (λ st tr _, match st with inl _ => True | inr req => ∃ k, 0 <= k <= rounds count nb ∧ req = k * nb ∧ tally tr req end)).
  - intros [?|req1] tr1 w1 H E; [done|]. destruct H as (k & Hk & -> & Ht). apply Z.ltb_lt in E. apply rounds_spec in E as Hlt; [|done..].
    assert ((k + 1) * nb <= rounds count nb * nb) by (apply Z.mul_le_mono_nonneg_r; lia).
    assert (0 <= k * nb) by (apply Z.mul_nonneg_nonneg; lia). split.
    { destruct (Z.to_nat nb) eqn:En; [lia|]. cbn [for_or]. unfold rpc_serve. auto with active. }
    eapply post_mono; [apply (for_or_post p (λ t req tr, req = k * nb + t ∧ tally tr req) (λ code, code = -1)) with (tr := tr1)|].
    + intros t req2 tr2 w2 Ht2 [-> Hta]. rewrite Z2Nat.id in Ht2 by lia.
      eapply post_mono; [apply rpc_serve_tally; unfold is_s32; lia|]. cbn beta. intros tr3 w3 [a|req3]; [done|]. intros [-> H3].
      split; [lia|]. by apply tally_app.
    + by rewrite Z.add_0_r.
    + cbn beta. rewrite Z2Nat.id by lia. intros tr2 w2 [a|req2]; [done|]. intros [-> Hta]. exists (k + 1). split; [lia|]. split; [lia|done].
  - exists 0. split; [lia|]. split; [lia|done].
  - intros [?|req1] tr1 w1 H E; [done|]. destruct H as (k & Hk & -> & Ht). apply Z.ltb_ge in E.
    pose proof (rounds_spec count nb Hnb Hc Hi k) as Hs. assert (k = rounds count nb) as -> by lia. done.
Qed.

(** ** The programs that only compute, and the first version over nanomsg *)

Lemma wp_random x xs p w (Q : Z → world → Prop) : w_rand w = x :: xs → Q x (set_rand xs w) → wp random p w Q.
Proof. intros Hr HQ. unfold wp, random. by rewrite Hr. Qed.

(** The number that is printed for a random one. *)
Definition generated (x : Z) : Z := x mod 1000000 + 1.

(** [gen.c] ends and prints as many numbers as it is told, one for each number of
    [rand], all from 1 to 1000000. *)
Theorem gen_prints p w a1 more xs rest :
  is_s32 (atoi_value a1) → length xs = Z.to_nat (atoi_value a1) → w_rand w = xs ++ rest →
  Forall (λ x, 0 <= x < 2147483648) xs →
  wp (gen_main (a1 :: more)) p w (λ r w', r = 0 ∧ w_rand w' = rest ∧
    w_out w' = w_out w ++ ((λ n, ("%d"%string, [AInt n])) <$> (generated <$> xs)) ∧ Forall (λ n, 1 <= n <= 1000000) (generated <$> xs)).
Proof.
  intros Hn Hl Hr Hxs. unfold gen_main. apply wp_bind. eapply atoi_wp; [done|done|]. apply wp_bind.
  assert (∀ x, 0 <= x < 2147483648 → s32 (Z.rem x 1000000 + 1) = generated x ∧ 1 <= generated x <= 1000000) as Hx.
  { intros x Hx. rewrite Z.rem_mod_nonneg by lia. unfold generated. pose proof (Z.mod_pos_bound x 1000000 ltac:(lia)).
    split; [|lia]. apply s32_small. unfold is_s32. lia. }
  unfold for_range. rewrite Z.sub_0_r. apply (wp_for_up (λ i w', w_rand w' = drop (Z.to_nat i) xs ++ rest ∧
    w_out w' = w_out w ++ ((λ n, ("%d"%string, [AInt n])) <$> (generated <$> take (Z.to_nat i) xs)))).
  - by rewrite app_nil_r.
  - intros i w1 Hi [Hr1 Ho1]. destruct (lookup_lt_is_Some_2 xs (Z.to_nat i)) as [x Hxi]; [lia|].
    rewrite (drop_S _ _ _ Hxi) in Hr1. pose proof (Forall_lookup_1 _ _ _ _ Hxs Hxi) as [Hs _]%Hx.
    apply wp_bind. eapply wp_random; [exact Hr1|]. apply wp_printf.
    replace (Z.to_nat (i + 1)) with (S (Z.to_nat i)) by lia. cbn. split; [done|].
    rewrite Ho1, (take_S_r _ _ _ Hxi), Hs, !fmap_app, <- app_assoc. done.
  - intros w1 [Hr1 Ho1]. rewrite Z.add_0_l, Nat2Z.id, <- Hl, drop_all, firstn_all in *. apply wp_ret. split_and!; [done..|].
    apply Forall_fmap. eapply Forall_impl; [exact Hxs|]. intros x Hx1. cbn. by apply Hx.
Qed.

(** [timer] prints the time modulo one second. *)
Lemma timer_prints p w s e c :
  w_clock w = s :: e :: c → normal (TS s.1 s.2) → normal (TS e.1 e.2) →
  wp timer_main p w (λ r w', r = 0 ∧
    w_out w' = w_out w ++ [("Time %ld"%string, [AInt ((nanos (TS e.1 e.2) - nanos (TS s.1 s.2)) mod 1000000000)])]).
Proof.
  intros Hc Hs He.
  assert (∀ n lo x q w, wp (for_fold n lo x (λ i temp, CMem.ret (s32 (temp + 1)))) q w (λ _ w', w' = w)) as Hloop.
  { intros n. induction n as [|n IH]; intros lo x q w1; [done|]. cbn [for_fold]. apply wp_bind, wp_ret, IH. }
  unfold timer_main. apply wp_bind. unfold now at 1. apply wp_bind. unfold wp at 1, clock_gettime. rewrite Hc. apply wp_ret, wp_bind.
  eapply wp_mono; [apply Hloop|]. cbn beta. intros _ w1 ->. apply wp_bind. unfold now. apply wp_bind. unfold wp at 1, clock_gettime.
  cbn [w_clock set_clock]. apply wp_ret, wp_bind, wp_printf, wp_ret. split; [done|]. cbn. do 4 f_equal.
  destruct (diff_spec _ _ Hs He) as [Hn Hd]. rewrite <- Hd. unfold nanos, normal in *. rewrite Z.add_comm, Z.mod_add, Z.mod_small by lia. done.
Qed.

(** Every client of the first version sends on socket 1. *)
Lemma trial_sends_to_one p data len x : only p (λ e _, e = Nn_send 1 data len) (trial_send_proc data len x).
Proof.
  apply only_bind; [apply only_mem|intros s]. apply only_bind; [apply only_mem|intros _].
  apply only_for_each. intros i st. apply only_bind; [by apply only_sys|intros _; apply only_done].
Qed.

(** What the calls of a client that ends with 0 have answered. *)
Definition client_call (e : syscall) (r : Z) : Prop :=
  match e with Send _ _ _ => 0 < r | Recv _ _ n => r = n | _ => True end.

Definition is_send (er : syscall * Z) : bool := match er.1 with Send _ _ _ => true | _ => false end.

Lemma rpc_request_post p sc data w :
  post p (rpc_request sc data 4) w (λ tr _ r,
    match r with None => Forall (λ er, client_call er.1 er.2) tr ∧ count_of is_send tr = 1%nat | Some code => code = -1 end).
Proof.
  unfold rpc_request. apply post_bind, post_sys. intros e w1 _. apply post_bind. destruct (Z.eqb_spec e 4) as [->|Hne].
  - apply post_bind, post_mem_any. intros buffer w2 _. apply post_bind, post_sys. intros r w3 _. destruct (Z.eqb_spec r 4) as [->|?]; cbn [negb].
    + apply post_bind, post_mem_any. intros _ w4 _. apply post_done. cbn. apply post_done. split; [by repeat constructor|done].
    + apply post_bind, post_mem_any. intros _ w4 _. apply post_done. by apply post_done.
  - apply post_done. destruct (Z.leb_spec e 0).
    + apply post_bind, post_mem_any. intros _ w2 _. by apply post_done.
    + apply post_done. split; [|done]. repeat constructor. cbn. lia.
Qed.

Lemma pthreads_zero p w : post p pthreads_main w (λ _ _ r, r = 0).
Proof.
  unfold pthreads_main. apply post_bind, post_mem_any. intros _ w1 _. apply post_bind, post_sys. intros e w2 _. destruct (negb _).
  { apply post_bind, post_mem_any. intros _ w3 _. by apply post_done. }
  apply post_bind, post_sys. intros e2 w3 _. destruct (negb _); apply post_bind, post_mem_any; intros _ w4 _; by apply post_done.
Qed.

(** The client of [dns], whatever the system answers: it ends with -1, or with 0 after
    as many requests as it was told, each sent in part at least, and each of those
    sent as a whole answered as a whole. *)
Lemma rpc_client_verdict p a1 more w :
  post p (rpc_client_main (a1 :: more)) w (λ tr _ r,
    r = -1 ∨ (r = 0 ∧ Forall (λ er, client_call er.1 er.2) tr ∧ count_of is_send tr = Z.to_nat (atoi_value a1))).
Proof.
  unfold rpc_client_main. apply post_bind, post_mem_any. intros ? w1 E. assert (a = atoi_value a1) as ->.
  { unfold atoi in E. case_decide; [|done]. by injection E as <-. } clear E.
  apply post_bind, post_mem_any. intros _ w2 _. apply post_bind, post_sys. intros sc w3 _. destruct (sc <? 0).
  { apply post_bind, post_mem_any. intros _ w4 _. apply post_done. by left. }
  apply post_bind, post_sys. intros eid w4 _. destruct (eid <? 0).
  { apply post_bind, post_mem_any. intros _ w5 _. apply post_done. by left. }
  apply post_bind, post_mem_any. intros data w5 _. apply post_bind, post_mem_any. intros _ w6 _. apply post_bind, post_mem_any. intros start w7 _.
  unfold then_else. apply post_bind.
  assert (∀ n lo w, post p (for_until n lo (λ i, rpc_request sc data message_len)) w (λ tr _ r,
    match r with None => Forall (λ er, client_call er.1 er.2) tr ∧ count_of is_send tr = n | Some code => code = -1 end)) as Hloop.
  { intros n. induction n as [|n IH]; intros lo w8; cbn [for_until]; [by apply post_done|].
    apply post_bind. eapply post_mono; [apply rpc_request_post|]. cbn beta. intros tr1 w9 [code|] H1; [by apply post_done|].
    eapply post_mono; [apply IH|]. cbn beta. intros tr2 w10 [code|] H2; [done|]. rewrite count_of_app. split; [|lia].
    apply Forall_app. tauto. }
  eapply post_mono; [apply Hloop|]. cbn beta. intros tr w8 [code|] H.
  - apply post_done. by left.
  - destruct H as [H1 H2]. do 4 (apply post_bind, post_mem_any; intros ? ? _). apply post_done. right. split; [done|]. cbn [app].
    rewrite !app_nil_r. split; [by do 2 (constructor; [done|])|]. by unfold count_of in *.
Qed.

(** ** Runs *)

(** Three requests are wanted and there are two clients: they are served in two
    rounds; and with one request each, the server finds the end of the first. *)
Definition demo_count : string := "3".
Definition demo_clients_arg : string := "2".

Lemma rpc_server_serves_witness :
  reaches peers_env 1 (rpc_server_main [demo_count; demo_clients_arg]) demo_none (0, [2; 2]%nat)
    (λ w' s res, res = 0 ∧ s.2 = [0; 0]%nat) ∧
  reaches peers_env 1 (rpc_server_main [demo_count; demo_clients_arg]) demo_none (0, [1; 1]%nat)
    (λ w' s res, res = -1 ∧ last (w_out w') = Some ("EOF at %d"%string, [AInt 2])).
Proof.
  split.
  - eapply reaches_mono; [apply (rpc_server_serves 1 demo_none demo_count demo_clients_arg [] 2); [exact demo_none_ok|done|done|done]|].
    intros w' s res [(_ & -> & Hs)|(Hr & _)]; [done|by vm_compute in Hr].
  - eapply reaches_mono; [apply (rpc_server_serves 1 demo_none demo_count demo_clients_arg [] 1); [exact demo_none_ok|done|done|done]|].
    intros w' s res [(Hr & _)|(_ & -> & _ & Ho)]; [by vm_compute in Hr|done].
Defined.

(** The array of two connections in block 1 and the buffer in block 2. *)
Definition demo_rpc : world :=
  Eval vm_compute in state_of (CMem.bind (malloc 8) (λ a, CMem.bind (store a (ints [4; 5])) (λ _, malloc 4))) 1 demo_none.

(** The second client sends its first request in two pieces. *)
Definition demo_rpc_run : option (trace * world * (Z + Z)) :=
  Eval vm_compute in exec 1 100 (rpc_server_loop 3 2 (Addr 1 1 0) (Addr 1 2 0) 4) [4; 4; 2; 4; 4; 2] demo_rpc.

Lemma rpc_server_counts_witness :
  ∃ n tr w', run 1 n (rpc_server_loop 3 2 (Addr 1 1 0) (Addr 1 2 0) 4) demo_rpc tr w' (inr 4) ∧
    count_of got_some tr = 4%nat ∧ count_of answer_sent tr = 2%nat.
Proof.
  destruct demo_rpc_run as [[[tr w'] res]|] eqn:E; [|by vm_compute in E].
  assert (res = inr 4 ∧ count_of got_all tr = 2%nat) as [-> Hall] by (vm_compute in E; injection E as <- _ <-; done).
  destruct (exec_run 1 100 (rpc_server_loop 3 2 (Addr 1 1 0) (Addr 1 2 0) 4) [4; 4; 2; 4; 4; 2] demo_rpc tr w' (inr 4)) as [n Hr].
  { rewrite <- E. vm_compute. reflexivity. }
  destruct (rpc_server_counts 1 3 2 (Addr 1 1 0) (Addr 1 2 0) n demo_rpc tr w' 4 ltac:(done) ltac:(done) ltac:(done) Hr) as (_ & H1 & H2).
  exists n, tr, w'. split; [exact Hr|]. split; [lia|congruence].
Defined.

Lemma gen_prints_witness :
  wp (gen_main [demo_clients_arg]) 1 (world_init 0 [] [5; 1000003; 9])
    (λ r w', r = 0 ∧ w_rand w' = [9] ∧ w_out w' = [("%d"%string, [AInt 6]); ("%d"%string, [AInt 4])]).
Proof.
  eapply wp_mono; [apply (gen_prints 1 _ demo_clients_arg [] [5; 1000003] [9]); [done|done|done|]|].
  - repeat constructor; lia.
  - intros r w' (-> & Hr & Ho & _). done.
Defined.
