(* ===== verification/NnTrie.v ===== *)
(** * The subscriptions of a nanomsg subscriber

    [nanomsg-1.0.0/src/protocols/pubsub/trie.c]: the patricia trie that holds the
    strings a SUB socket has subscribed to.  A node is owned by the pointer that
    leads to it, so a trie is a tree of values; a pointer that may be [NULL] is an
    [option].  [None] as the result of an operation is a run that C does not define
    or that an assertion ends: a [NULL] pointer that is followed, a byte read
    after the end of the string. *)

From S2P Require Import Prelude.
From stdpp Require Import base numbers list.
#[local] Open Scope Z_scope.

Definition NN_TRIE_PREFIX_MAX : nat := 10.
Definition NN_TRIE_SPARSE_MAX : nat := 8.
Definition EINVAL : Z := 22.

(** The union [u] of a node and its [type]: the characters of a sparse array, whose
    number is [type], or the bounds of a dense one. *)
Inductive nn_kind :=
| Sparse (children : list Z)
| Dense (min max nbr : Z).

(** [slots]: the array of pointers after the structure. *)
Inductive nn_trie_node :=
| Node (refcount : Z) (prefix : list Z) (u : nn_kind) (slots : list (option nn_trie_node)).

Notation trie_ptr := (option nn_trie_node).

Definition n_refcount (n : nn_trie_node) := let '(Node r _ _ _) := n in r.
Definition n_prefix (n : nn_trie_node) := let '(Node _ p _ _) := n in p.
Definition n_kind (n : nn_trie_node) := let '(Node _ _ u _) := n in u.
Definition n_slots (n : nn_trie_node) := let '(Node _ _ _ s) := n in s.

Definition set_refcount (r : Z) (n : nn_trie_node) := let '(Node _ p u s) := n in Node r p u s.
Definition set_prefix (p : list Z) (n : nn_trie_node) := let '(Node r _ u s) := n in Node r p u s.
Definition set_slot (i : nat) (c : trie_ptr) (n : nn_trie_node) :=
  let '(Node r p u s) := n in Node r p u (<[i := c]> s).

Definition nn_trie_init : trie_ptr := None.

Definition nn_node_has_subscribers (n : nn_trie_node) : bool := negb (n_refcount n =? 0).

(** How many characters of the data match the prefix. *)
Fixpoint check_prefix (prefix data : list Z) : nat :=
  match prefix, data with
  | c :: prefix', d :: data' => if c =? d then S (check_prefix prefix' data') else O
  | _, _ => O
  end.

Definition nn_node_check_prefix (n : nn_trie_node) (data : list Z) : nat := check_prefix (n_prefix n) data.

(** The first index of [c]. *)
Fixpoint index_of (c : Z) (l : list Z) : option nat :=
  match l with
  | [] => None
  | d :: l' => if d =? c then Some O else S <$> index_of c l'
  end.

(** The index of the child pointer for [c]. *)
Definition nn_node_next (n : nn_trie_node) (c : Z) : option nat :=
  match n_kind n with
  | Sparse children => index_of c children
  | Dense mn mx _ => if (c <? mn) || (mx <? c) then None else Some (Z.to_nat (c - mn))
  end.

(** The child pointer at an index; [None] outside of the array. *)
Definition nn_node_child (n : nn_trie_node) (i : nat) : option trie_ptr := n_slots n !! i.

(** Merge the node with its only child. *)
Definition nn_node_compact (n : nn_trie_node) : option nn_trie_node :=
  if nn_node_has_subscribers n then Some n
  else match n_kind n with
  | Sparse [c] =>
      match nn_node_child n 0 with
      | Some (Some ch) =>
          if decide (NN_TRIE_PREFIX_MAX < length (n_prefix n) + length (n_prefix ch) + 1)%nat then Some n
          else Some (set_prefix (n_prefix n ++ c :: n_prefix ch) ch)
      | _ => None
      end
  | _ => Some n
  end.

(** ** Subscribing *)

(** Step 5. *)
Definition subscribe_node (n : nn_trie_node) : nn_trie_node * Z :=
  let n' := set_refcount (u32 (n_refcount n + 1)) n in
  (n', if n_refcount n' =? 1 then 1 else 0).

(** Step 4: new nodes for the rest of the string. *)
Fixpoint create_nodes (fuel : nat) (data : list Z) : option (nn_trie_node * Z) :=
  if decide (NN_TRIE_PREFIX_MAX < length data)%nat then
    match fuel, drop NN_TRIE_PREFIX_MAX data with
    | S fuel', c :: data' =>
        '(ch, rc) ← create_nodes fuel' data';
        Some (Node 0 (take NN_TRIE_PREFIX_MAX data) (Sparse [c]) [Some ch], rc)
    | _, _ => None
    end
  else Some (subscribe_node (Node 0 data (Sparse []) [])).

Definition create (data : list Z) : option (nn_trie_node * Z) := create_nodes (length data) data.

(** The pointers of a dense array from [new_min] on: those of a sparse one. *)
Fixpoint fill_dense (new_min : Z) (children : list Z) (slots dense : list trie_ptr) : list trie_ptr :=
  match children, slots with
  | c :: children', s :: slots' => fill_dense new_min children' slots' (<[Z.to_nat (c - new_min) := s]> dense)
  | _, _ => dense
  end.

(** Step 3: the child array gets a place for the next character; then step 4. *)
Definition adjust_children (n : nn_trie_node) (data : list Z) : option (nn_trie_node * Z) :=
  match data with
  | [] => Some (subscribe_node n)
  | c :: data' =>
      '(ch, rc) ← create data';
      match n with
      | Node r p (Sparse children) slots =>
          if decide (length children < NN_TRIE_SPARSE_MAX)%nat then
            Some (Node r p (Sparse (children ++ [c])) (slots ++ [Some ch]), rc)
          else
            (* a dense array instead *)
            let new_min := Z.min (foldr Z.min 255 children) c in
            let new_max := Z.max (foldr Z.max 0 children) c in
            let dense := fill_dense new_min children slots (replicate (Z.to_nat (new_max - new_min + 1)) None) in
            Some (Node 0 p (Dense new_min new_max (Z.of_nat (length children) + 1))
                    (<[Z.to_nat (c - new_min) := Some ch]> dense), rc)
      | Node r p (Dense mn mx nbr) slots =>
          let '(mn', mx', slots') :=
            if (c <? mn) || (mx <? c) then
              let new_min := if mn <? c then mn else c in
              let new_max := if mx >? c then mx else c in
              if negb (mn =? new_min) then (new_min, new_max, replicate (Z.to_nat (mn - new_min)) None ++ slots)
              else (new_min, new_max, slots ++ replicate (Z.to_nat (new_max - mx)) None)
            else (mn, mx, slots) in
          match slots' !! Z.to_nat (c - mn') with
          | Some None => Some (Node r p (Dense mn' mx' ((nbr + 1) mod 65536)) (<[Z.to_nat (c - mn') := Some ch]> slots'), rc)
          | _ => None (* [assert (!*node)] *)
          end
      end
  end.

(** Step 2: the prefix is split after [pos] characters. *)
Definition split_prefix (n : nn_trie_node) (pos : nat) (data : list Z) : option (nn_trie_node * Z) :=
  c ← n_prefix n !! pos;
  ch ← nn_node_compact (set_prefix (drop (S pos) (n_prefix n)) n);
  adjust_children (Node 0 (take pos (n_prefix n)) (Sparse [c]) [Some ch]) data.

Fixpoint subscribe_at (fuel : nat) (node : trie_ptr) (data : list Z) : option (nn_trie_node * Z) :=
  match node with
  | None => create data
  | Some n =>
      let pos := nn_node_check_prefix n data in
      let data := drop pos data in
      if decide (pos < length (n_prefix n))%nat then split_prefix n pos data
      else match data with
      | [] => Some (subscribe_node n)
      | c :: data' =>
          match nn_node_next n c with
          | None => adjust_children n data
          | Some i =>
              next ← nn_node_child n i;
              match next, fuel with
              | None, _ => adjust_children n data
              | Some ch, S fuel' =>
                  '(ch', rc) ← subscribe_at fuel' (Some ch) data';
                  Some (set_slot i (Some ch') n, rc)
              | _, O => None
              end
          end
      end
  end.

Definition nn_trie_subscribe (root : trie_ptr) (data : list Z) : option (trie_ptr * Z) :=
  '(n, rc) ← subscribe_at (length data) root data; Some (Some n, rc).

(** ** Matching *)

Fixpoint match_at (fuel : nat) (node : trie_ptr) (data : list Z) : option Z :=
  match node with
  | None => Some 0
  | Some n =>
      if negb (nn_node_check_prefix n data =? length (n_prefix n))%nat then Some 0
      else if nn_node_has_subscribers n then Some 1
      else match drop (length (n_prefix n)) data, fuel with
      | c :: data', S fuel' =>
          match nn_node_next n c with
          | None => Some 0
          | Some i => next ← nn_node_child n i; match_at fuel' next data'
          end
      | _, _ => None (* the byte after the data is read *)
      end
  end.

Definition nn_trie_match (root : trie_ptr) (data : list Z) : option Z := match_at (length data) root data.

(** ** Unsubscribing *)

(** The node of the subscription is found. *)
Definition unsubscribe_found (node : trie_ptr) : option (trie_ptr * Z) :=
  match node with
  | None => Some (None, - EINVAL)
  | Some n =>
      if negb (nn_node_has_subscribers n) then Some (node, - EINVAL)
      else
        let n' := set_refcount (n_refcount n - 1) n in
        if n_refcount n' =? 0 then
          match n_kind n' with
          | Sparse [] => Some (None, 1)
          | _ => n'' ← nn_node_compact n'; Some (Some n'', 1)
          end
        else Some (Some n', 0)
  end.

(** The index of the first pointer that is not [NULL], or the length. *)
Fixpoint first_child (slots : list trie_ptr) : nat :=
  match slots with
  | None :: slots' => S (first_child slots')
  | _ => O
  end.

(** The index of the last one, or 0. *)
Fixpoint last_child (slots : list trie_ptr) (i : nat) : nat :=
  match i with
  | O => O
  | S i' => match slots !! i with Some (Some _) => i | _ => last_child slots i' end
  end.

(** The characters and the nodes of a dense array. *)
Fixpoint dense_children (c : Z) (slots : list trie_ptr) : list (Z * nn_trie_node) :=
  match slots with
  | [] => []
  | None :: slots' => dense_children (c + 1) slots'
  | Some ch :: slots' => (c, ch) :: dense_children (c + 1) slots'
  end.

(** The child for [c] is gone: the pointer at [i] is [NULL]. *)
Definition prune (n : nn_trie_node) (c : Z) (i : nat) : option (trie_ptr * Z) :=
  match n with
  | Node r p (Sparse children) slots =>
      let n' := Node r p (Sparse (delete i children)) (delete i slots) in
      match delete i children, nn_node_has_subscribers n' with
      | [], false => Some (None, 1)
      | _, _ => n'' ← nn_node_compact n'; Some (Some n'', 1)
      end
  | Node r p (Dense mn mx nbr) slots =>
      if nbr >? 9 then
        if c =? mn then
          let i := first_child slots in
          Some (Some (Node r p (Dense (mn + Z.of_nat i) mx (nbr - 1)) (drop i slots)), 1)
        else if c =? mx then
          let i := last_child slots (Z.to_nat (mx - mn)) in
          Some (Some (Node r p (Dense mn (mn + Z.of_nat i) (nbr - 1)) (take (S i) slots)), 1)
        else Some (Some (Node r p (Dense mn mx (nbr - 1)) slots), 1)
      else
        (* a sparse array instead *)
        let l := dense_children mn slots in
        if decide (length l = NN_TRIE_SPARSE_MAX) then Some (Some (Node 0 p (Sparse l.*1) (Some <$> l.*2)), 1)
        else None (* [assert (j == NN_TRIE_SPARSE_MAX)] *)
  end.

Fixpoint unsubscribe_at (fuel : nat) (node : trie_ptr) (data : list Z) : option (trie_ptr * Z) :=
  match data with
  | [] => unsubscribe_found node
  | _ :: _ =>
      match node with
      | None => None (* the prefix of [NULL] is read *)
      | Some n =>
          if negb (nn_node_check_prefix n data =? length (n_prefix n))%nat then Some (node, 0)
          else match drop (length (n_prefix n)) data with
          | [] => unsubscribe_found node
          | c :: data' =>
              match nn_node_next n c, fuel with
              | None, _ => Some (node, 0)
              | Some i, S fuel' =>
                  next ← nn_node_child n i;
                  '(next', rc) ← unsubscribe_at fuel' next data';
                  let n' := set_slot i next' n in
                  if rc =? 0 then Some (Some n', 0)
                  else match next' with
                  | Some _ => Some (Some n', 1)
                  | None => prune n' c i
                  end
              | Some _, O => None
              end
          end
      end
  end.

Definition nn_trie_unsubscribe (root : trie_ptr) (data : list Z) : option (trie_ptr * Z) :=
  unsubscribe_at (length data) root data.
