(* ===== verification/NnTrieSpec.v ===== *)
(** * The trie is a multiset of strings

    [count t s]: how many subscriptions to [s] the trie [t] holds.  Subscribing,
    unsubscribing and matching are described by [count] alone; the invariant [wf]
    says that no node is superfluous. *)

From S2P Require Import Prelude NnTrie.
From stdpp Require Import base numbers list.
From Stdlib Require Import Lia.
#[local] Open Scope Z_scope.

Definition is_byte (z : Z) : Prop := 0 <= z < 256.

(** ** The strings of a trie *)

(** What is left of [s] after the prefix. *)
Fixpoint strip (prefix s : list Z) : option (list Z) :=
  match prefix, s with
  | [], _ => Some s
  | c :: prefix', d :: s' => if c =? d then strip prefix' s' else None
  | _ :: _, [] => None
  end.

(** The child for [c], if there is one. *)
Definition child (n : nn_trie_node) (c : Z) : trie_ptr :=
  i ← nn_node_next n c; mjoin (n_slots n !! i).

Fixpoint find_at (fuel : nat) (t : trie_ptr) (s : list Z) : trie_ptr :=
  match t with
  | None => None
  | Some n =>
      match strip (n_prefix n) s, fuel with
      | None, _ => None
      | Some [], _ => Some n
      | Some (c :: s'), S fuel' => find_at fuel' (child n c) s'
      | _, O => None
      end
  end.

(** The node of the string [s]. *)
Definition find (t : trie_ptr) (s : list Z) : trie_ptr := find_at (length s) t s.

Definition count (t : trie_ptr) (s : list Z) : Z := from_option n_refcount 0 (find t s).

Lemma strip_spec p s r : strip p s = Some r ↔ s = p ++ r.
Proof.
  revert s. induction p as [|c p IH]; intros s; cbn; [split; congruence|].
  destruct s as [|d s]; [split; [done|]; discriminate|]. destruct (Z.eqb_spec c d) as [->|Hne].
  - rewrite IH. split; [by intros ->|congruence].
  - split; [done|congruence].
Qed.

Lemma strip_app p r : strip p (p ++ r) = Some r.
Proof. by apply strip_spec. Qed.

Lemma strip_length p s r : strip p s = Some r → (length r = length s - length p)%nat ∧ (length p <= length s)%nat.
Proof. intros ->%strip_spec. rewrite length_app. lia. Qed.

(** The test of the code. *)
Lemma check_prefix_le p s : (check_prefix p s <= length p)%nat.
Proof. revert s. induction p as [|c p IH]; intros [|d s]; cbn; try lia. case_match; [|lia]. specialize (IH s). lia. Qed.

Lemma check_prefix_strip p s :
  (check_prefix p s = length p ∧ strip p s = Some (drop (length p) s)) ∨
  ((check_prefix p s < length p)%nat ∧ strip p s = None).
Proof.
  revert s. induction p as [|c p IH]; intros s; [by left|]. destruct s as [|d s]; cbn; [right; split; [lia|done]|].
  destruct (c =? d); [|right; split; [lia|done]]. destruct (IH s) as [[-> ->]|[? ->]]; [by left|right; split; [lia|done]].
Qed.

(** What the strings have in common. *)
Lemma check_prefix_take p s : take (check_prefix p s) p = take (check_prefix p s) s.
Proof.
  revert s. induction p as [|c p IH]; intros [|d s]; cbn; try done. destruct (Z.eqb_spec c d) as [->|]; [|done].
  cbn. by rewrite IH.
Qed.

Lemma find_at_enough f f' t s : (length s <= f)%nat → (length s <= f')%nat → find_at f t s = find_at f' t s.
Proof.
  revert f' t s. induction f as [|f IH]; intros [|f'] t s Hf Hf'; (destruct t as [n|]; [|done]); cbn;
    (destruct (strip (n_prefix n) s) as [[|c r]|] eqn:E; [done| |done]); apply strip_length in E; cbn in E; try lia.
  apply IH; lia.
Qed.

Lemma find_node n s :
  find (Some n) s = match strip (n_prefix n) s with
                    | None => None | Some [] => Some n | Some (c :: s') => find (child n c) s' end.
Proof.
  unfold find. destruct (length s) as [|l] eqn:El; cbn; (destruct (strip (n_prefix n) s) as [[|c r]|] eqn:E; [done| |done]);
    apply strip_length in E; cbn in E; [lia|]. apply find_at_enough; lia.
Qed.

Lemma find_None s : find None s = None.
Proof. unfold find. by destruct (length s). Qed.

Lemma count_None s : count None s = 0.
Proof. unfold count. by rewrite find_None. Qed.

Lemma count_node n s :
  count (Some n) s = match strip (n_prefix n) s with
                     | None => 0 | Some [] => n_refcount n | Some (c :: s') => count (child n c) s' end.
Proof. unfold count. rewrite find_node. by destruct (strip (n_prefix n) s) as [[|c r]|]. Qed.

(** A trie is known by the members and the children of its root. *)
Lemma count_ext n n' s :
  n_prefix n = n_prefix n' → n_refcount n = n_refcount n' → (∀ c, child n c = child n' c) →
  count (Some n) s = count (Some n') s.
Proof.
  intros Hp Hr Hc. rewrite !count_node, Hp. destruct (strip (n_prefix n') s) as [[|c r]|]; [done|by rewrite Hc|done].
Qed.

(** ** Well-formed tries *)

Definition occupied (slots : list trie_ptr) : Z := zsum (λ o : trie_ptr, if o then 1 else 0) slots.

Definition kids_ok (r : Z) (u : nn_kind) (slots : list trie_ptr) : Prop :=
  match u with
  | Sparse children =>
      NoDup children ∧ Forall is_byte children ∧ (length children <= NN_TRIE_SPARSE_MAX)%nat ∧
      length slots = length children ∧ Forall is_Some slots ∧ (children = [] → 0 < r)
  | Dense mn mx nbr =>
      0 <= mn ∧ mn <= mx ∧ mx < 256 ∧ Z.of_nat (length slots) = mx - mn + 1 ∧ nbr = occupied slots ∧ 9 <= nbr
  end.

(** Every node has subscribers or children; a dense one has more children than fit
    into a sparse one. *)
Inductive wf_node : nn_trie_node → Prop :=
| wf_Node r p u slots :
    is_u32 r → (length p <= NN_TRIE_PREFIX_MAX)%nat → Forall is_byte p → kids_ok r u slots →
    (∀ i ch, slots !! i = Some (Some ch) → wf_node ch) → wf_node (Node r p u slots).

Definition wf (t : trie_ptr) : Prop := ∀ n, t = Some n → wf_node n.

Lemma wf_None : wf None.
Proof. by intros n. Qed.
Lemma wf_Some n : wf_node n → wf (Some n).
Proof. by intros H n' [= <-]. Qed.
#[local] Hint Resolve wf_None wf_Some : core.

Lemma wf_child n c : wf_node n → wf (child n c).
Proof.
  intros Hn m Hm. unfold child in Hm. apply bind_Some in Hm as (i & _ & Hm).
  destruct Hn as [r p u slots _ _ _ _ Hs]. cbn [n_slots] in Hm. destruct (slots !! i) as [o|] eqn:E; [|done].
  cbn in Hm. subst o. by eapply Hs.
Qed.

(** ** Child arrays *)

Lemma index_of_lookup c l i : index_of c l = Some i → l !! i = Some c.
Proof.
  revert i. induction l as [|d l IH]; [done|]. cbn. intros i. destruct (Z.eqb_spec d c) as [->|].
  - by intros [= <-].
  - intros (j & Hj & ->)%fmap_Some. by apply IH.
Qed.

Lemma index_of_None c l : index_of c l = None ↔ c ∉ l.
Proof.
  induction l as [|d l IH]; cbn; [split; [by intros _ ?%elem_of_nil|done]|]. rewrite elem_of_cons.
  destruct (Z.eqb_spec d c) as [->|Hne]; [split; [done|tauto]|]. rewrite fmap_None, IH. split; [intros H [?|?]; congruence|tauto].
Qed.

Lemma index_of_here c l i : NoDup l → l !! i = Some c → index_of c l = Some i.
Proof.
  intros Hnd Hi. destruct (index_of c l) as [j|] eqn:E.
  - f_equal. apply index_of_lookup in E. by eapply NoDup_lookup.
  - apply index_of_None in E. destruct E. by eapply list_elem_of_lookup_2.
Qed.

Lemma next_bound n c i :
  kids_ok (n_refcount n) (n_kind n) (n_slots n) → nn_node_next n c = Some i → (i < length (n_slots n))%nat.
Proof.
  destruct n as [r p [cs|mn mx nbr] slots]; cbn.
  - intros (_ & _ & _ & -> & _) Hi%index_of_lookup. by apply lookup_lt_Some in Hi.
  - intros (H0 & H1 & H2 & Hl & _). destruct (Z.ltb_spec c mn), (Z.ltb_spec mx c); try done. cbn. intros [= <-]. lia.
Qed.

Lemma next_inj n c c' i : nn_node_next n c = Some i → nn_node_next n c' = Some i → c = c'.
Proof.
  destruct n as [r p [cs|mn mx nbr] slots]; unfold nn_node_next; cbn [n_kind].
  - intros H%index_of_lookup H'%index_of_lookup. congruence.
  - destruct (Z.ltb_spec c mn), (Z.ltb_spec mx c); try done. destruct (Z.ltb_spec c' mn), (Z.ltb_spec mx c'); try done.
    cbn. intros [= <-] [= ?]. lia.
Qed.

Lemma child_set_slot n c i o c' :
  nn_node_next n c = Some i → (i < length (n_slots n))%nat →
  child (set_slot i o n) c' = if decide (c' = c) then o else child n c'.
Proof.
  intros Hi Hl. destruct n as [r p u slots]. unfold child. cbn [set_slot n_slots] in *.
  change (nn_node_next (Node r p u (<[i:=o]> slots)) c') with (nn_node_next (Node r p u slots) c').
  case_decide as Hc.
  - subst c'. rewrite Hi. cbn. by rewrite list_lookup_insert_eq.
  - destruct (nn_node_next (Node r p u slots) c') as [j|] eqn:E; [|done]. cbn. rewrite list_lookup_insert_ne; [done|].
    intros ->. by apply Hc, (next_inj (Node r p u slots) c' c j).
Qed.

Lemma child_None r p cs slots c :
  kids_ok r (Sparse cs) slots → child (Node r p (Sparse cs) slots) c = None ↔ c ∉ cs.
Proof.
  intros (_ & _ & _ & Hl & Hs & _). rewrite <- index_of_None. unfold child. cbn.
  destruct (index_of c cs) as [i|] eqn:E; [|done]. cbn. split; [|done]. intros H. exfalso.
  apply index_of_lookup, lookup_lt_Some in E. rewrite <- Hl in E. apply lookup_lt_is_Some in E as [o Ho].
  rewrite Ho in H. cbn in H. subst o. by apply (Forall_lookup_1 _ _ _ _ Hs), is_Some_None in Ho.
Qed.

(** The child at a known place. *)
Lemma child_sparse r p cs slots i c o :
  NoDup cs → cs !! i = Some c → slots !! i = Some o → child (Node r p (Sparse cs) slots) c = o.
Proof. intros Hnd Hc Ho. unfold child. cbn. rewrite (index_of_here c cs i) by done. cbn. by rewrite Ho. Qed.

Lemma child_dense r p mn mx nbr slots c :
  child (Node r p (Dense mn mx nbr) slots) c =
  if decide (mn <= c <= mx) then mjoin (slots !! Z.to_nat (c - mn)) else None.
Proof.
  unfold child, nn_node_next. cbn [n_kind n_slots]. destruct (Z.ltb_spec c mn), (Z.ltb_spec mx c); cbn;
    case_decide; try lia; done.
Qed.

Lemma child_app r p cs slots c ch c' :
  c ∉ cs → length slots = length cs →
  child (Node r p (Sparse (cs ++ [c])) (slots ++ [Some ch])) c' =
  if decide (c' = c) then Some ch else child (Node r p (Sparse cs) slots) c'.
Proof.
  intros Hc Hl. unfold child. cbn. assert (∀ l, index_of c' (l ++ [c]) =
    match index_of c' l with Some i => Some i | None => if c =? c' then Some (length l) else None end) as ->.
  { induction l as [|d l IH]; cbn; [by destruct (c =? c')|]. destruct (d =? c'); [done|]. rewrite IH.
    destruct (index_of c' l); [done|]. by destruct (c =? c'). }
  destruct (index_of c' cs) as [i|] eqn:E.
  - apply index_of_lookup in E. pose proof (lookup_lt_Some _ _ _ E). case_decide as Hd.
    + subst. by destruct Hc; eapply list_elem_of_lookup_2.
    + cbn. by rewrite lookup_app_l by lia.
  - destruct (Z.eqb_spec c c') as [->|Hne]; case_decide; try done. cbn. rewrite <- Hl, list_lookup_middle; done.
Qed.

Lemma child_single r p c ch c' :
  child (Node r p (Sparse [c]) [Some ch]) c' = if decide (c' = c) then Some ch else None.
Proof. unfold child. cbn. destruct (Z.eqb_spec c c'), (decide (c' = c)); cbn; congruence. Qed.

(** ** New nodes *)

#[local] Ltac kids :=
  split_and!; first [done | apply NoDup_nil_2 | apply NoDup_singleton | solve [repeat (constructor; try done)]
                    | unfold NN_TRIE_SPARSE_MAX; cbn; lia].

Lemma wf_leaf r p : 0 < r → is_u32 r → (length p <= NN_TRIE_PREFIX_MAX)%nat → Forall is_byte p → wf_node (Node r p (Sparse []) []).
Proof. intros. constructor; try done. kids. Qed.

Lemma wf_single r p c ch :
  is_u32 r → (length p <= NN_TRIE_PREFIX_MAX)%nat → Forall is_byte p → is_byte c → wf_node ch →
  wf_node (Node r p (Sparse [c]) [Some ch]).
Proof.
  intros. constructor; try done.
  - kids.
  - intros [|i] ch'; [by intros [= <-]|done].
Qed.

(** Only [data] is in the trie, once. *)
Definition single (n : nn_trie_node) (data : list Z) : Prop := ∀ s, count (Some n) s = if decide (s = data) then 1 else 0.

Lemma strip_self p s : strip p s = Some [] ↔ s = p.
Proof. rewrite strip_spec, app_nil_r. done. Qed.

Lemma create_spec fuel data :
  (length data <= fuel)%nat → Forall is_byte data →
  ∃ n, create_nodes fuel data = Some (n, 1) ∧ wf_node n ∧ single n data.
Proof.
  revert data. induction fuel as [|fuel IH]; intros data Hl Hb; cbn [create_nodes];
    (case_decide as Hd; [|exists (Node 1 data (Sparse []) []); split; [done|]; split; [apply wf_leaf; [done|done|lia|done]|];
      intros s; rewrite count_node; cbn [n_prefix n_refcount]; case_decide as Hs;
      [by apply strip_self in Hs as ->|]; destruct (strip data s) as [[|c r]|] eqn:E; [by apply strip_self in E| |done];
      unfold child; cbn; apply count_None]).
  - unfold NN_TRIE_PREFIX_MAX in Hd. lia.
  - destruct (drop NN_TRIE_PREFIX_MAX data) as [|c data'] eqn:E.
    { apply (f_equal length) in E. rewrite length_drop in E. cbn in E. lia. }
    pose proof (Forall_drop _ NN_TRIE_PREFIX_MAX _ Hb) as Hb'. rewrite E in Hb'. apply Forall_cons in Hb' as [Hc Hb'].
    assert (length data' <= fuel)%nat as Hl'.
    { apply (f_equal length) in E. rewrite length_drop in E. cbn in E. lia. }
    destruct (IH data' Hl' Hb') as (ch & -> & Hch & Hs). cbn [mbind option_bind].
    eexists. split; [done|]. split; [apply wf_single; [done|rewrite length_take; lia|by apply Forall_take|done|done]|].
    intros s. rewrite count_node. cbn [n_prefix n_refcount].
    assert (data = take NN_TRIE_PREFIX_MAX data ++ c :: data') as Ed by by rewrite <- E, take_drop.
    destruct (strip (take NN_TRIE_PREFIX_MAX data) s) as [[|d r]|] eqn:Es.
    + apply strip_self in Es. rewrite decide_False; [done|]. intros ->. rewrite Es in Ed at 1.
      apply (f_equal length) in Ed. rewrite length_app in Ed. cbn in Ed. lia.
    + apply strip_spec in Es. subst s. rewrite child_single. case_decide as Hd'.
      * subst d. rewrite Hs. apply decide_ext. split; [by intros ->|]. intros H. pose proof (eq_trans H Ed) as H'.
        apply app_inj_1 in H'; [|done]. by destruct H' as [_ [= ->]].
      * rewrite count_None, decide_False; [done|]. intros H. pose proof (eq_trans H Ed) as H'.
        apply app_inj_1 in H'; [|done]. by destruct H' as [_ [= ? ?]].
    + rewrite decide_False; [done|]. intros ->. by rewrite (proj2 (strip_spec _ _ _) Ed) in Es.
Qed.

(** ** Dense arrays *)

Lemma occupied_cons (o : trie_ptr) l : occupied (o :: l) = (if o then 1 else 0) + occupied l.
Proof. apply zsum_cons. Qed.

Lemma occupied_insert (l : list trie_ptr) i (o o' : trie_ptr) :
  l !! i = Some o → occupied (<[i := o']> l) = occupied l - (if o then 1 else 0) + (if o' then 1 else 0).
Proof. intros Hi. unfold occupied. by rewrite (zsum_insert _ _ _ _ _ Hi). Qed.

Lemma occupied_none k : occupied (replicate k (@None nn_trie_node)) = 0.
Proof. unfold occupied. rewrite zsum_replicate. lia. Qed.

Lemma occupied_app l l' : occupied (l ++ l') = occupied l + occupied l'.
Proof. induction l as [|o l IH]; [done|]. cbn [app]. rewrite !occupied_cons, IH. lia. Qed.

Lemma occupied_le l : 0 <= occupied l <= Z.of_nat (length l).
Proof. induction l as [|o l IH]; [done|]. rewrite occupied_cons. cbn [length]. destruct o; lia. Qed.

Lemma fill_dense_spec mn cs slots dense :
  length slots = length cs → NoDup cs → Forall is_Some slots →
  (∀ c, c ∈ cs → mn <= c ∧ dense !! Z.to_nat (c - mn) = Some None) →
  let D := fill_dense mn cs slots dense in
  length D = length dense ∧ occupied D = occupied dense + Z.of_nat (length cs) ∧
  ∀ c, mn <= c → D !! Z.to_nat (c - mn) = match index_of c cs with Some i => slots !! i | None => dense !! Z.to_nat (c - mn) end.
Proof.
  revert slots dense. induction cs as [|c cs IH]; intros [|s slots] dense Hl Hnd Hs Hd; try done.
  { cbn. split_and!; [done|lia|done]. }
  cbn [fill_dense]. apply NoDup_cons in Hnd as [Hc Hnd]. apply Forall_cons in Hs as [[ch ->] Hs]. injection Hl as Hl.
  destruct (Hd c) as [Hc1 Hc2]; [by left|].
  destruct (IH slots (<[Z.to_nat (c - mn) := Some ch]> dense)) as (H1 & H2 & H3); [done|done|done| |].
  { intros c' Hc'. destruct (Hd c') as [Hc1' Hc2']; [by right|]. split; [done|].
    rewrite list_lookup_insert_ne; [done|]. intros E. assert (c = c') as -> by lia. done. }
  cbv zeta. split_and!.
  - by rewrite H1, length_insert.
  - rewrite H2, (occupied_insert _ _ None) by done. cbn [length]. lia.
  - intros c' Hc'. rewrite H3 by done. cbn [index_of]. destruct (Z.eqb_spec c c') as [<-|Hne].
    + apply index_of_None in Hc as ->. cbn. apply lookup_lt_Some in Hc2. by rewrite list_lookup_insert_eq.
    + destruct (index_of c' cs) as [i|]; [done|]. cbn. rewrite list_lookup_insert_ne; [done|]. intros E. lia.
Qed.

Lemma foldr_min_spec l : Forall is_byte l → 0 <= foldr Z.min 255 l <= 255 ∧ ∀ c, c ∈ l → foldr Z.min 255 l <= c.
Proof.
  induction 1 as [|d l Hd Hl (IH1 & IH2)]; cbn; [split; [lia|by intros ? ?%elem_of_nil]|]. unfold is_byte in Hd. split; [lia|].
  intros c [->|Hc]%elem_of_cons; [lia|]. specialize (IH2 _ Hc). lia.
Qed.

Lemma foldr_max_spec l : Forall is_byte l → 0 <= foldr Z.max 0 l <= 255 ∧ ∀ c, c ∈ l → c <= foldr Z.max 0 l.
Proof.
  induction 1 as [|d l Hd Hl (IH1 & IH2)]; cbn; [split; [lia|by intros ? ?%elem_of_nil]|]. unfold is_byte in Hd. split; [lia|].
  intros c [->|Hc]%elem_of_cons; [lia|]. specialize (IH2 _ Hc). lia.
Qed.

(** ** A new child *)

Definition is_full (n : nn_trie_node) : bool :=
  match n_kind n with Sparse cs => (length cs =? NN_TRIE_SPARSE_MAX)%nat | Dense _ _ _ => false end.

(** [n'] is [n] with a child [ch] for [c], where [n] had none. *)
Definition with_child (n : nn_trie_node) (c : Z) (ch n' : nn_trie_node) : Prop :=
  wf_node n' ∧ n_prefix n' = n_prefix n ∧ n_refcount n' = (if is_full n then 0 else n_refcount n) ∧
  ∀ c', child n' c' = if decide (c' = c) then Some ch else child n c'.

Lemma wf_insert_kids (slots : list trie_ptr) i (ch : nn_trie_node) :
  (∀ j m, slots !! j = Some (Some m) → wf_node m) → wf_node ch →
  ∀ j m, <[i := Some ch]> slots !! j = Some (Some m) → wf_node m.
Proof.
  intros Hs Hch j m. destruct (decide (j = i)) as [->|Hne]; [|rewrite list_lookup_insert_ne by done; apply Hs].
  intros H. pose proof (lookup_lt_Some _ _ _ H) as Hl. rewrite length_insert in Hl. rewrite list_lookup_insert_eq in H by done. by injection H as <-.
Qed.

Lemma add_sparse r p cs slots c ch data :
  let n := Node r p (Sparse cs) slots in
  wf_node n → child n c = None → is_byte c → wf_node ch → create data = Some (ch, 1) → (length cs < NN_TRIE_SPARSE_MAX)%nat →
  ∃ n', adjust_children n (c :: data) = Some (n', 1) ∧ with_child n c ch n'.
Proof.
  intros n Hn Hc Hb Hch Hcr Hlt. inversion_clear Hn as [? ? ? ? Hr Hp Hpb Hk Hs].
  pose proof Hk as (Hnd & Hcb & Hle & Hl & HS & Hz). apply (child_None r p cs slots c Hk) in Hc.
  eexists. split.
  { unfold adjust_children. rewrite Hcr. cbn [mbind option_bind]. subst n. cbv beta iota. rewrite decide_True by done. reflexivity. }
  split; [|split; [done|split]].
  - constructor; [done..| |].
    + split_and!.
      * apply NoDup_app. split_and!; [done| |apply NoDup_singleton]. by intros d Hd ->%list_elem_of_singleton.
      * apply Forall_app. by split; [|constructor].
      * rewrite length_app. cbn. lia.
      * rewrite !length_app. cbn. lia.
      * apply Forall_app. by split; [|repeat constructor].
      * by intros []%app_eq_nil.
    + intros i m Hi. apply lookup_app_Some in Hi as [Hi|[_ Hi]]; [by eapply Hs|].
      apply list_lookup_singleton_Some in Hi as [_ [= <-]]. done.
  - subst n. unfold is_full. cbn [n_kind]. destruct (Nat.eqb_spec (length cs) NN_TRIE_SPARSE_MAX); [lia|done].
  - intros c'. by apply child_app.
Qed.

Lemma add_full r p cs slots c ch data :
  let n := Node r p (Sparse cs) slots in
  wf_node n → child n c = None → is_byte c → wf_node ch → create data = Some (ch, 1) → (length cs = NN_TRIE_SPARSE_MAX)%nat →
  ∃ n', adjust_children n (c :: data) = Some (n', 1) ∧ with_child n c ch n'.
Proof.
  intros n Hn Hc Hb Hch Hcr Hlen. inversion_clear Hn as [? ? ? ? Hr Hp Hpb Hk Hs].
  pose proof Hk as (Hnd & Hcb & _ & Hl & HS & _). apply (child_None r p cs slots c Hk) in Hc.
  destruct (foldr_min_spec cs Hcb) as [Hmn Hmn']. destruct (foldr_max_spec cs Hcb) as [Hmx Hmx'].
  set (new_min := Z.min (foldr Z.min 255 cs) c). set (new_max := Z.max (foldr Z.max 0 cs) c).
  set (empty := replicate (Z.to_nat (new_max - new_min + 1)) (@None nn_trie_node)).
  assert (∀ d, d ∈ cs ∨ d = c → new_min <= d <= new_max) as Hrange.
  { unfold new_min, new_max. intros d [Hd| ->]; [|lia]. specialize (Hmn' _ Hd). specialize (Hmx' _ Hd). lia. }
  assert (∀ d, new_min <= d <= new_max → empty !! Z.to_nat (d - new_min) = Some None) as Hempty.
  { intros d Hd. apply lookup_replicate. split; [done|]. lia. }
  destruct (fill_dense_spec new_min cs slots empty Hl Hnd HS) as (D1 & D2 & D3).
  { intros d Hd. split; [apply Hrange; by left|]. apply Hempty, Hrange. by left. }
  set (D := fill_dense new_min cs slots empty) in *.
  assert (D !! Z.to_nat (c - new_min) = Some None) as Dc.
  { rewrite D3 by (apply Hrange; by right). apply index_of_None in Hc as ->. apply Hempty, Hrange. by right. }
  assert (occupied (<[Z.to_nat (c - new_min) := Some ch]> D) = 9) as Docc.
  { rewrite (occupied_insert _ _ None), D2 by done. unfold empty. rewrite occupied_none, Hlen. unfold NN_TRIE_SPARSE_MAX. lia. }
  eexists. split.
  { unfold adjust_children. rewrite Hcr. cbn [mbind option_bind]. subst n. cbv beta iota zeta. rewrite decide_False by lia.
    fold new_min new_max. fold empty. fold D. rewrite Hlen. reflexivity. }
  split; [|split; [done|split]].
  - constructor; [done..| |].
    + unfold is_byte in Hb. split_and!; [unfold new_min; lia|unfold new_min, new_max; lia|unfold new_max; lia| |by rewrite Docc|done].
      rewrite length_insert, D1. unfold empty. rewrite length_replicate. unfold new_min, new_max in *. lia.
    + apply wf_insert_kids; [|done]. intros i m Hi. destruct (decide (i < length D)%nat) as [Hlt|]; [|apply lookup_lt_Some in Hi; lia].
      specialize (D3 (new_min + Z.of_nat i) ltac:(lia)). replace (Z.to_nat (new_min + Z.of_nat i - new_min)) with i in D3 by lia.
      rewrite D3 in Hi. destruct (index_of (new_min + Z.of_nat i) cs) as [j|]; [by eapply Hs|].
      by apply lookup_replicate in Hi as [? _].
  - subst n. unfold is_full. cbn [n_kind]. by rewrite Hlen.
  - intros c'. rewrite child_dense. destruct (decide (c' = c)) as [->|Hne].
    + rewrite decide_True by (apply Hrange; by right). rewrite list_lookup_insert_eq; [done|]. by apply lookup_lt_Some in Dc.
    + case_decide as Hd.
      * rewrite list_lookup_insert_ne by lia. rewrite D3 by lia. subst n. unfold child. cbn. destruct (index_of c' cs) as [j|]; [done|].
        cbn. by rewrite Hempty.
      * symmetry. apply (child_None r p cs slots c' Hk). intros Hin. apply Hd, Hrange. by left.
Qed.

(** The slots of the dense array after it was extended. *)
Lemma extend_dense mn mx (slots : list trie_ptr) c :
  0 <= mn → mn <= mx → mx < 256 → Z.of_nat (length slots) = mx - mn + 1 → is_byte c →
  ∃ mn' mx' slots',
    (if (c <? mn) || (mx <? c) then
       let new_min := if mn <? c then mn else c in
       let new_max := if mx >? c then mx else c in
       if negb (mn =? new_min) then (new_min, new_max, replicate (Z.to_nat (mn - new_min)) None ++ slots)
       else (new_min, new_max, slots ++ replicate (Z.to_nat (new_max - mx)) None)
     else (mn, mx, slots)) = (mn', mx', slots') ∧
    0 <= mn' ∧ mn' <= c <= mx' ∧ mx' < 256 ∧ Z.of_nat (length slots') = mx' - mn' + 1 ∧ occupied slots' = occupied slots ∧
    (∀ d, mn' <= d <= mx' → slots' !! Z.to_nat (d - mn') =
       if decide (mn <= d <= mx) then slots !! Z.to_nat (d - mn) else Some None) ∧ mn' <= mn ∧ mx <= mx'.
Proof.
  intros H0 H1 H2 Hl Hc. unfold is_byte in Hc. destruct (Z.ltb_spec c mn); cbn [orb].
  - exists c, mx, (replicate (Z.to_nat (mn - c)) None ++ slots).
    assert ((mn <? c) = false) as -> by lia. assert ((mx >? c) = true) as -> by (rewrite Z.gtb_ltb; lia).
    assert (negb (mn =? c) = true) as -> by (destruct (Z.eqb_spec mn c); [lia|done]). split; [done|].
    split_and!; try lia; [rewrite length_app, length_replicate; lia|rewrite occupied_app, occupied_none; lia|].
    intros d Hd. case_decide as Hdd.
    + rewrite lookup_app_r by (rewrite length_replicate; lia). rewrite length_replicate. f_equal. lia.
    + rewrite lookup_app_l by (rewrite length_replicate; lia). apply lookup_replicate. split; [done|]. lia.
  - destruct (Z.ltb_spec mx c).
    + exists mn, c, (slots ++ replicate (Z.to_nat (c - mx)) None).
      assert ((mn <? c) = true) as -> by lia. assert ((mx >? c) = false) as -> by (rewrite Z.gtb_ltb; lia).
      rewrite Z.eqb_refl. split; [done|].
      split_and!; try lia; [rewrite length_app, length_replicate; lia|rewrite occupied_app, occupied_none; lia|].
      intros d Hd. case_decide as Hdd; [by rewrite lookup_app_l by lia|].
      rewrite lookup_app_r by lia. apply lookup_replicate. split; [done|]. lia.
    + exists mn, mx, slots. split_and!; try done; try lia. intros d Hd. by rewrite decide_True.
Qed.

Lemma add_dense r p mn mx nbr slots c ch data :
  let n := Node r p (Dense mn mx nbr) slots in
  wf_node n → child n c = None → is_byte c → wf_node ch → create data = Some (ch, 1) →
  ∃ n', adjust_children n (c :: data) = Some (n', 1) ∧ with_child n c ch n'.
Proof.
  intros n Hn Hc Hb Hch Hcr. inversion_clear Hn as [? ? ? ? Hr Hp Hpb Hk Hs].
  pose proof Hk as (H0 & H1 & H2 & Hl & Hnbr & H9). subst n. rewrite child_dense in Hc.
  destruct (extend_dense mn mx slots c H0 H1 H2 Hl Hb) as (mn' & mx' & slots' & E & H0' & Hcr' & H2' & Hl' & Hocc & Hlk & Hle & Hge).
  assert (slots' !! Z.to_nat (c - mn') = Some None) as Hslot.
  { rewrite Hlk by done. case_decide as Hd; [|done]. destruct (lookup_lt_is_Some_2 slots (Z.to_nat (c - mn))) as [o Ho]; [lia|].
    rewrite Ho in Hc |- *. cbn in Hc. by subst o. }
  pose proof (occupied_le slots) as Hocc'.
  eexists. split.
  { unfold adjust_children. rewrite Hcr. cbn [mbind option_bind]. cbv beta iota. cbv zeta in E. rewrite E. cbv beta iota. rewrite Hslot. reflexivity. }
  rewrite Z.mod_small by lia. split; [|split; [done|split; [done|]]].
  - constructor; [done..| |].
    + split_and!; [done|lia|done|by rewrite length_insert| |lia]. rewrite (occupied_insert _ _ None) by done. lia.
    + apply wf_insert_kids; [|done]. intros i m Hi. pose proof (lookup_lt_Some _ _ _ Hi).
      specialize (Hlk (mn' + Z.of_nat i) ltac:(lia)). replace (Z.to_nat (mn' + Z.of_nat i - mn')) with i in Hlk by lia.
      rewrite Hlk in Hi. case_decide; [by eapply Hs|done].
  - intros c'. rewrite child_dense. destruct (decide (c' = c)) as [->|Hne].
    + rewrite decide_True by done. rewrite list_lookup_insert_eq; [done|]. by apply lookup_lt_Some in Hslot.
    + rewrite child_dense. destruct (decide (mn' <= c' <= mx')) as [Hd|Hd].
      * rewrite list_lookup_insert_ne by lia. rewrite Hlk by done. by destruct (decide (mn <= c' <= mx)).
      * by rewrite decide_False by lia.
Qed.

Lemma add_child n c data :
  wf_node n → child n c = None → is_byte c → Forall is_byte data →
  ∃ n' ch, adjust_children n (c :: data) = Some (n', 1) ∧ with_child n c ch n' ∧ single ch data.
Proof.
  intros Hn Hc Hb Hd. destruct (create_spec (length data) data) as (ch & Hcr & Hch & Hs); [done|done|].
  destruct n as [r p [cs|mn mx nbr] slots].
  - pose proof Hn as Hn'. inversion_clear Hn' as [? ? ? ? Hr Hp Hpb Hk _]. pose proof Hk as (_ & _ & Hle & _).
    destruct (decide (length cs = NN_TRIE_SPARSE_MAX)).
    + destruct (add_full r p cs slots c ch data) as (n' & E & Hw); [done..|by exists n', ch].
    + destruct (add_sparse r p cs slots c ch data) as (n' & E & Hw); [done..|lia|by exists n', ch].
  - destruct (add_dense r p mn mx nbr slots c ch data) as (n' & E & Hw); [done..|by exists n', ch].
Qed.

(** ** Splitting and merging nodes *)

Lemma strip_app_prefix p q s : strip (p ++ q) s = strip p s ≫= strip q.
Proof. revert s. induction p as [|c p IH]; intros [|d s]; cbn; try done. by destruct (c =? d). Qed.

Lemma child_set_prefix p n c : child (set_prefix p n) c = child n c.
Proof. by destruct n. Qed.

(** A node whose prefix is in two parts. *)
Lemma count_two_parts p c q ch s :
  count (Some (set_prefix (p ++ c :: q) ch)) s =
  count (Some (Node 0 p (Sparse [c]) [Some (set_prefix q ch)])) s.
Proof.
  rewrite !count_node. cbn [n_prefix n_refcount].
  assert (n_prefix (set_prefix (p ++ c :: q) ch) = p ++ c :: q) as -> by by destruct ch.
  rewrite strip_app_prefix. destruct (strip p s) as [[|d r]|]; cbn [mbind option_bind]; [done| |done].
  rewrite child_single. cbn [strip]. destruct (Z.eqb_spec c d) as [->|Hne].
  - rewrite decide_True by done. rewrite count_node. assert (n_prefix (set_prefix q ch) = q) as -> by by destruct ch.
    destruct (strip q r) as [[|e r']|]; [by destruct ch|by rewrite !child_set_prefix|done].
  - rewrite decide_False by congruence. by rewrite count_None.
Qed.

Lemma set_prefix_self n : set_prefix (n_prefix n) n = n.
Proof. by destruct n. Qed.

Lemma wf_set_prefix p n : wf_node n → (length p <= NN_TRIE_PREFIX_MAX)%nat → Forall is_byte p → wf_node (set_prefix p n).
Proof. intros [r q u slots Hr _ _ Hk Hs] Hp Hb. by constructor. Qed.

Lemma wf_prefix n : wf_node n → (length (n_prefix n) <= NN_TRIE_PREFIX_MAX)%nat ∧ Forall is_byte (n_prefix n).
Proof. by intros [r q u slots Hr Hp Hb Hk Hs]. Qed.

Lemma compact_spec n :
  wf_node n → ∃ n', nn_node_compact n = Some n' ∧ wf_node n' ∧ ∀ s, count (Some n') s = count (Some n) s.
Proof.
  intros Hn. unfold nn_node_compact. destruct (nn_node_has_subscribers n) eqn:Hsub; [by exists n|].
  destruct n as [r p [cs|mn mx nbr] slots]; cbn [n_kind]; [|by eexists].
  destruct cs as [|c [|c' cs]]; [by eexists| |by eexists].
  unfold nn_node_has_subscribers in Hsub. cbn [n_refcount] in Hsub. assert (r = 0) as -> by (destruct (Z.eqb_spec r 0); done).
  inversion_clear Hn as [? ? ? ? Hr Hp Hpb Hk Hs]. pose proof Hk as (_ & Hcb & _ & Hl & HS & _).
  destruct slots as [|o [|? ?]]; [done| |done]. apply Forall_cons in HS as [[ch ->] _]. apply Forall_cons in Hcb as [Hc _].
  cbn [nn_node_child n_slots lookup list_lookup]. pose proof (Hs 0%nat ch eq_refl) as Hch.
  change (nn_node_child (Node 0 p (Sparse [c]) [Some ch]) 0) with (Some (Some ch)). cbn [n_prefix].
  destruct (wf_prefix _ Hch) as [Hq Hqb].
  case_decide as Hd; [eexists; split; [done|]; split; [by apply wf_single|done]|].
  eexists. split; [done|]. split.
  - apply wf_set_prefix; [done| |].
    + rewrite length_app. cbn [length]. lia.
    + by apply Forall_app; split; [|constructor].
  - intros s. rewrite count_two_parts. by rewrite set_prefix_self.
Qed.

Lemma split_spec n pos c :
  wf_node n → n_prefix n !! pos = Some c →
  ∃ ch, nn_node_compact (set_prefix (drop (S pos) (n_prefix n)) n) = Some ch ∧
    wf_node (Node 0 (take pos (n_prefix n)) (Sparse [c]) [Some ch]) ∧
    ∀ s, count (Some (Node 0 (take pos (n_prefix n)) (Sparse [c]) [Some ch])) s = count (Some n) s.
Proof.
  intros Hn Hc. destruct (wf_prefix _ Hn) as [Hp Hb].
  destruct (compact_spec (set_prefix (drop (S pos) (n_prefix n)) n)) as (ch & E & Hch & Hcnt).
  { apply wf_set_prefix; [done|rewrite length_drop; lia|by apply Forall_drop]. }
  exists ch. split; [done|]. split.
  - apply wf_single; [done|rewrite length_take; lia|by apply Forall_take|by eapply Forall_lookup_1|done].
  - intros s. pose proof (count_two_parts (take pos (n_prefix n)) c (drop (S pos) (n_prefix n)) n s) as H.
    rewrite (take_drop_middle _ _ _ Hc), set_prefix_self in H. rewrite H, !count_node.
    cbn [n_prefix]. destruct (strip (take pos (n_prefix n)) s) as [[|d r]|]; [done| |done]. rewrite !child_single.
    by case_decide.
Qed.

(** ** Subscribing *)

(** The node of [s] is a sparse one, and full, and [data] needs another child: its
    subscriptions are lost. *)
Definition loses (t : trie_ptr) (data s : list Z) : bool :=
  match strip s data, find t s with
  | Some (c :: _), Some n => is_full n && negb (bool_decide (is_Some (child n c)))
  | _, _ => false
  end.

Lemma loses_node n data s :
  loses (Some n) data s =
  match strip (n_prefix n) s, strip (n_prefix n) data with
  | Some [], Some (c :: _) => is_full n && negb (bool_decide (is_Some (child n c)))
  | Some (c :: s'), Some (d :: data') => bool_decide (c = d) && loses (child n d) data' s'
  | _, _ => false
  end.
Proof.
  unfold loses. rewrite find_node. destruct (strip (n_prefix n) s) as [[|c s']|] eqn:E.
  - apply strip_self in E as ->. by destruct (strip (n_prefix n) data) as [[|? ?]|].
  - apply strip_spec in E as ->. rewrite strip_app_prefix. destruct (strip (n_prefix n) data) as [[|d data']|]; cbn; try done.
    destruct (Z.eqb_spec c d) as [->|Hne]; [by rewrite bool_decide_eq_true_2|by rewrite bool_decide_eq_false_2].
  - by destruct (strip s data) as [[|? ?]|].
Qed.

Definition after_subscribe (t t' : trie_ptr) (data : list Z) : Prop :=
  ∀ s, count t' s = if decide (s = data) then count t data + 1 else if loses t data s then 0 else count t s.

Lemma subscribe_here n :
  wf_node n → n_refcount n < 4294967295 →
  wf_node (subscribe_node n).1 ∧ (subscribe_node n).2 = (if n_refcount n =? 0 then 1 else 0) ∧
  after_subscribe (Some n) (Some (subscribe_node n).1) (n_prefix n).
Proof.
  intros Hn Hr. destruct n as [r p u slots]. cbn [n_refcount n_prefix] in *. pose proof Hn as Hn'.
  inversion_clear Hn' as [? ? ? ? Hr' Hp Hpb Hk Hs]. unfold is_u32 in Hr'.
  unfold subscribe_node. cbn [n_refcount set_refcount fst snd]. rewrite u32_small by (unfold is_u32; lia). split_and!.
  - constructor; try done; [unfold is_u32; lia|]. destruct u; [|done]. destruct Hk as (? & ? & ? & ? & ? & ?). split_and!; try done. lia.
  - destruct (Z.eqb_spec (r + 1) 1), (Z.eqb_spec r 0); lia.
  - intros s. rewrite !count_node, loses_node. cbn [n_prefix n_refcount].
    assert (strip p p = Some []) as -> by by apply strip_self.
    destruct (strip p s) as [[|c s']|] eqn:E.
    + apply strip_self in E as ->. by rewrite decide_True.
    + rewrite decide_False; [done|]. intros ->. by rewrite (proj2 (strip_self p p) eq_refl) in E.
    + rewrite decide_False; [done|]. intros ->. by rewrite (proj2 (strip_self p p) eq_refl) in E.
Qed.

Lemma after_child n c ch n' data :
  with_child n c ch n' → single ch data → child n c = None → after_subscribe (Some n) (Some n') (n_prefix n ++ c :: data).
Proof.
  intros (_ & Hp & Hr & Hch) Hs Hc s. rewrite loses_node, !count_node, strip_app, Hp, Hr, Hc, count_None.
  destruct (strip (n_prefix n) s) as [[|d s']|] eqn:E.
  - apply strip_self in E as ->. rewrite decide_False.
    + rewrite bool_decide_eq_false_2 by by intros []. rewrite andb_true_r. done.
    + intros H. apply (f_equal length) in H. rewrite length_app in H. cbn in H. lia.
  - apply strip_spec in E as ->. rewrite Hch. destruct (decide (d = c)) as [->|Hne].
    + rewrite Hs, Hc, count_None. destruct (decide (s' = data)) as [->|Hne]; [by rewrite decide_True|].
      rewrite decide_False; [by destruct (_ && _)|]. intros H. apply app_inj_1 in H; [|done]. by destruct H as [_ [= ->]].
    + rewrite decide_False; [by rewrite bool_decide_eq_false_2|].
      intros H. apply app_inj_1 in H; [|done]. by destruct H as [_ [= ? ?]].
  - rewrite decide_False; [done|]. intros ->. by rewrite strip_app in E.
Qed.

Lemma set_slot_members i o n :
  n_prefix (set_slot i o n) = n_prefix n ∧ n_refcount (set_slot i o n) = n_refcount n ∧ n_kind (set_slot i o n) = n_kind n.
Proof. by destruct n. Qed.

Lemma wf_kids n : wf_node n → kids_ok (n_refcount n) (n_kind n) (n_slots n).
Proof. by intros [r p u slots]. Qed.

(** The pointer for [c], when there is one. *)
Lemma next_child n c i :
  wf_node n → nn_node_next n c = Some i → nn_node_child n i = Some (child n c) ∧ (i < length (n_slots n))%nat.
Proof.
  intros Hn Hi. pose proof (next_bound _ _ _ (wf_kids _ Hn) Hi) as Hl. split; [|done].
  destruct (lookup_lt_is_Some_2 _ _ Hl) as [o Ho]. unfold nn_node_child, child. rewrite Hi. cbn. rewrite Ho. done.
Qed.

(** A child is replaced by another one. *)
Lemma wf_set_slot n c i ch :
  wf_node n → nn_node_next n c = Some i → is_Some (child n c) → wf_node ch → wf_node (set_slot i (Some ch) n).
Proof.
  intros Hn Hi [o Ho] Hch. destruct (next_child _ _ _ Hn Hi) as [Hc Hl]. rewrite Ho in Hc.
  destruct Hn as [r p u slots Hr Hp Hb Hk Hs]. cbn [set_slot nn_node_child n_slots] in *. unfold nn_node_child in Hc. cbn in Hc.
  constructor; [done..| |by apply wf_insert_kids]. destruct u as [cs|mn mx nbr].
  - destruct Hk as (? & ? & ? & ? & HS & ?). split_and!; first [done | by rewrite length_insert | by apply Forall_insert].
  - destruct Hk as (? & ? & ? & ? & -> & ?).
    split_and!; first [done | by rewrite length_insert | rewrite (occupied_insert _ _ (Some o)) by done; lia].
Qed.

Lemma after_slot n c i ch ch' data :
  wf_node n → nn_node_next n c = Some i → child n c = Some ch → after_subscribe (Some ch) (Some ch') data →
  after_subscribe (Some n) (Some (set_slot i (Some ch') n)) (n_prefix n ++ c :: data).
Proof.
  intros Hn Hi Hc Ha s. destruct (next_child _ _ _ Hn Hi) as [_ Hl]. destruct (set_slot_members i (Some ch') n) as (Hp & Hr & _).
  rewrite loses_node, !count_node, strip_app, Hp, Hr, Hc.
  destruct (strip (n_prefix n) s) as [[|d s']|] eqn:E.
  - apply strip_self in E as ->. rewrite decide_False.
    + by rewrite bool_decide_eq_true_2, andb_false_r by by eexists.
    + intros H. apply (f_equal length) in H. rewrite length_app in H. cbn in H. lia.
  - apply strip_spec in E as ->. rewrite (child_set_slot _ _ _ _ _ Hi Hl). destruct (decide (d = c)) as [->|Hne].
    + rewrite Ha, Hc, bool_decide_eq_true_2 by done. cbn [andb]. destruct (decide (s' = data)) as [->|Hne]; [by rewrite decide_True|].
      rewrite decide_False; [done|]. intros H. apply app_inj_1 in H; [|done]. by destruct H as [_ [= ->]].
    + rewrite decide_False; [by rewrite bool_decide_eq_false_2|].
      intros H. apply app_inj_1 in H; [|done]. by destruct H as [_ [= ? ?]].
  - rewrite decide_False; [done|]. intros ->. by rewrite strip_app in E.
Qed.

Lemma after_split n m m' data :
  (∀ s, count (Some m) s = count (Some n) s) → strip (n_prefix n) data = None →
  (∀ s, loses (Some m) data s = false) → after_subscribe (Some m) m' data → after_subscribe (Some n) m' data.
Proof.
  intros Hc Hp Hl Ha s. rewrite Ha, Hl, !Hc, loses_node, Hp. by destruct (strip (n_prefix n) s) as [[|? ?]|].
Qed.

Lemma subscribe_absent n data c data' :
  wf_node n → strip (n_prefix n) data = Some (c :: data') → child n c = None → Forall is_byte data →
  ∃ n', adjust_children n (c :: data') = Some (n', 1) ∧ wf_node n' ∧ after_subscribe (Some n) (Some n') data.
Proof.
  intros Hn Hst%strip_spec Hc Hb. subst data. apply Forall_app in Hb as [_ [Hcb Hb]%Forall_cons].
  destruct (add_child n c data' Hn Hc Hcb Hb) as (n' & ch & E & Hw & Hs). exists n'. split; [done|]. split; [apply Hw|].
  by eapply after_child.
Qed.

Lemma check_prefix_head p data c e r :
  p !! check_prefix p data = Some c → drop (check_prefix p data) data = e :: r → e ≠ c.
Proof.
  revert data. induction p as [|d p IH]; intros [|d' data]; cbn; try done. destruct (Z.eqb_spec d d') as [->|Hne].
  - cbn. apply IH.
  - cbn. intros [= <-] [= <- <-]. congruence.
Qed.

Lemma subscribe_split n data :
  wf_node n → Forall is_byte data → strip (n_prefix n) data = None →
  let pos := check_prefix (n_prefix n) data in
  ∃ n', split_prefix n pos (drop pos data) = Some (n', 1) ∧ wf_node n' ∧ after_subscribe (Some n) (Some n') data.
Proof.
  intros Hn Hb Hst pos. destruct (check_prefix_strip (n_prefix n) data) as [[_ E]|[Hpos _]]; [by rewrite Hst in E|]. fold pos in Hpos.
  destruct (lookup_lt_is_Some_2 _ _ Hpos) as [c Hc]. destruct (split_spec n pos c Hn Hc) as (ch & Ech & Hm & Hcnt).
  set (m := Node 0 (take pos (n_prefix n)) (Sparse [c]) [Some ch]) in *.
  assert (strip (n_prefix m) data = Some (drop pos data)) as Hmd.
  { apply strip_spec. subst m pos. cbn [n_prefix]. by rewrite check_prefix_take, take_drop. }
  assert (∀ e r, drop pos data = e :: r → child m e = None) as Hhead.
  { intros e r Hd. subst m. rewrite child_single, decide_False; [done|]. by eapply check_prefix_head. }
  assert (∀ s, loses (Some m) data s = false) as Hl.
  { intros s. rewrite loses_node, Hmd. destruct (strip (n_prefix m) s) as [[|d s']|]; [by destruct (drop pos data)| |done].
    destruct (drop pos data) as [|e r] eqn:Ed; [done|]. rewrite (Hhead e r eq_refl). unfold loses. rewrite find_None.
    destruct (strip s' r) as [[|? ?]|]; by rewrite andb_false_r. }
  assert (∀ m', after_subscribe (Some m) m' data → after_subscribe (Some n) m' data) as Hafter by by (intros m'; apply after_split).
  unfold split_prefix. rewrite Hc, Ech. cbn [mbind option_bind]. fold m. destruct (drop pos data) as [|e r] eqn:Ed.
  - pose proof (proj1 (strip_spec _ _ _) Hmd) as Hdata. rewrite app_nil_r in Hdata. destruct (subscribe_here m) as (H1 & H2 & H3); [done|done|].
    exists (subscribe_node m).1. split; [done|]. split; [done|]. apply Hafter. by rewrite Hdata.
  - destruct (subscribe_absent m data e r Hm Hmd (Hhead e r eq_refl) Hb) as (m' & E & Hm' & Ha). exists m'. auto.
Qed.

(** One step of the traversal, in terms of [strip] and [child]. *)
Lemma subscribe_at_node fuel n data :
  wf_node n →
  subscribe_at fuel (Some n) data =
  match strip (n_prefix n) data with
  | None => let pos := check_prefix (n_prefix n) data in split_prefix n pos (drop pos data)
  | Some [] => Some (subscribe_node n)
  | Some (c :: data') =>
      match child n c, nn_node_next n c, fuel with
      | Some ch, Some i, S fuel' => '(ch', rc) ← subscribe_at fuel' (Some ch) data'; Some (set_slot i (Some ch') n, rc)
      | Some _, _, _ => None
      | None, _, _ => adjust_children n (c :: data')
      end
  end.
Proof.
  intros Hn. assert (∀ c, nn_node_next n c = None → child n c = None) as Hnone by (intros c E; unfold child; by rewrite E).
  assert (∀ c i, nn_node_next n c = Some i → nn_node_child n i = Some (child n c)) as Hsome by (intros c i E; by apply next_child).
  destruct fuel as [|fuel]; cbn [subscribe_at]; unfold nn_node_check_prefix;
    (destruct (check_prefix_strip (n_prefix n) data) as [[E ->]|[E ->]]; [rewrite E, decide_False by lia|by rewrite decide_True by lia];
     destruct (drop (length (n_prefix n)) data) as [|c data']; [done|];
     destruct (nn_node_next n c) as [i|] eqn:Ei; [|by rewrite (Hnone c Ei)];
     rewrite (Hsome c i Ei); cbn [mbind option_bind]; by destruct (child n c)).
Qed.

Lemma child_next n c ch : child n c = Some ch → ∃ i, nn_node_next n c = Some i.
Proof. unfold child. intros (i & Hi & _)%bind_Some. by exists i. Qed.

Lemma subscribe_at_spec fuel t data :
  (length data <= fuel)%nat → wf t → Forall is_byte data → count t data < 4294967295 →
  ∃ n', subscribe_at fuel t data = Some (n', if count t data =? 0 then 1 else 0) ∧ wf_node n' ∧ after_subscribe t (Some n') data.
Proof.
  revert t data. induction fuel as [fuel IH] using lt_wf_ind. intros [n|] data Hl Ht Hb Hlt.
  - pose proof (Ht n eq_refl) as Hn. rewrite subscribe_at_node by done. rewrite count_node in Hlt |- *.
    destruct (strip (n_prefix n) data) as [[|c data']|] eqn:Est.
    + apply strip_self in Est as ->. destruct (subscribe_here n Hn Hlt) as (H1 & H2 & H3).
      exists (subscribe_node n).1. rewrite <- H2. by destruct (subscribe_node n).
    + destruct (child n c) as [ch|] eqn:Ec.
      * destruct (child_next _ _ _ Ec) as [i Hi]. rewrite Hi. pose proof (strip_length _ _ _ Est) as [Hlen _]. cbn in Hlen.
        destruct fuel as [|fuel]; [lia|]. pose proof (proj1 (strip_spec _ _ _) Est) as ->.
        apply Forall_app in Hb as [_ [_ Hb]%Forall_cons].
        destruct (IH fuel (Nat.lt_succ_diag_r _) (Some ch) data') as (ch' & -> & Hch' & Ha); [lia|rewrite <- Ec; by apply wf_child|done|done|].
        cbn [mbind option_bind]. eexists. split; [done|]. split; [by eapply wf_set_slot; rewrite ?Ec|by eapply after_slot].
      * destruct (subscribe_absent n data c data' Hn Est Ec Hb) as (n' & E & H). rewrite count_None. by exists n'.
    + destruct (subscribe_split n data Hn Hb Est) as (n' & E & H). by exists n'.
  - destruct (create_spec (length data) data (le_n _) Hb) as (n & E & Hn & Hs). exists n. rewrite count_None. split; [|split; [done|]].
    + destruct fuel; cbn [subscribe_at]; unfold create; by rewrite E.
    + intros s. rewrite Hs, !count_None. unfold loses. rewrite find_None. case_decide; [done|]. by destruct (strip s data) as [[|? ?]|].
Qed.

(** ** Matching *)

(** A subscription is a prefix of the data. *)
Definition matches (t : trie_ptr) (data : list Z) : Prop := ∃ s r, data = s ++ r ∧ 0 < count t s.

Lemma matches_None data : ¬ matches None data.
Proof. intros (s & r & _ & H). rewrite count_None in H. lia. Qed.

Lemma matches_node n data :
  matches (Some n) data ↔
  match strip (n_prefix n) data with
  | None => False
  | Some [] => 0 < n_refcount n
  | Some (c :: data') => 0 < n_refcount n ∨ matches (child n c) data'
  end.
Proof.
  split.
  - intros (s & r & -> & H). rewrite count_node in H. destruct (strip (n_prefix n) s) as [[|c s']|] eqn:E; [| |done].
    + apply strip_self in E as ->. rewrite strip_app. destruct r; auto.
    + apply strip_spec in E as ->. rewrite <- app_assoc, strip_app. cbn. right. by exists s', r.
  - destruct (strip (n_prefix n) data) as [[|c data']|] eqn:E; [| |done]; apply strip_spec in E as ->.
    + exists (n_prefix n), []. split; [done|]. by rewrite count_node, (proj2 (strip_self _ _) eq_refl).
    + intros [H|(s & r & -> & H)].
      * exists (n_prefix n), (c :: data'). split; [done|]. by rewrite count_node, (proj2 (strip_self _ _) eq_refl).
      * exists (n_prefix n ++ c :: s), r. split; [by rewrite <- app_assoc|]. by rewrite count_node, strip_app.
Qed.

Lemma match_at_node fuel n data :
  wf_node n →
  match_at fuel (Some n) data =
  match strip (n_prefix n) data with
  | None => Some 0
  | Some rest =>
      if nn_node_has_subscribers n then Some 1
      else match rest, fuel with c :: data', S fuel' => match_at fuel' (child n c) data' | _, _ => None end
  end.
Proof.
  intros Hn. destruct fuel as [|fuel]; cbn [match_at]; unfold nn_node_check_prefix;
    (destruct (check_prefix_strip (n_prefix n) data) as [[E ->]|[E ->]];
     [rewrite E, Nat.eqb_refl; cbn [negb]|by assert ((check_prefix (n_prefix n) data =? length (n_prefix n))%nat = false) as -> by (apply Nat.eqb_neq; lia)]);
    (destruct (nn_node_has_subscribers n); [done|]; destruct (drop (length (n_prefix n)) data) as [|c data']; try done).
  destruct (nn_node_next n c) as [i|] eqn:Ei.
  - destruct (next_child _ _ _ Hn Ei) as [-> _]. done.
  - unfold child. rewrite Ei. cbn. by destruct fuel.
Qed.

Inductive match_result (t : trie_ptr) (data : list Z) : option Z → Prop :=
| match_yes : matches t data → match_result t data (Some 1)
| match_no : ¬ matches t data → find t data = None → match_result t data (Some 0)
| match_beyond : ¬ matches t data → is_Some (find t data) → match_result t data None.

Lemma match_at_spec fuel t data : (length data <= fuel)%nat → wf t → match_result t data (match_at fuel t data).
Proof.
  revert t data. induction fuel as [fuel IH] using lt_wf_ind. intros [n|] data Hl Ht.
  - pose proof (Ht n eq_refl) as Hn. rewrite match_at_node by done. pose proof (matches_node n data) as Hm. pose proof (find_node n data) as Hf.
    assert (0 <= n_refcount n) as H0 by (destruct Hn as [? ? ? ? [? ?]]; done).
    assert (nn_node_has_subscribers n = bool_decide (0 < n_refcount n)) as ->.
    { unfold nn_node_has_subscribers. destruct (Z.eqb_spec (n_refcount n) 0); cbn; [rewrite bool_decide_eq_false_2|rewrite bool_decide_eq_true_2]; by try lia. }
    destruct (strip (n_prefix n) data) as [rest|] eqn:E; [|constructor; [tauto|done]].
    case_bool_decide as Hr; [constructor; rewrite Hm; destruct rest; tauto|].
    destruct rest as [|c data'].
    + constructor; [tauto|by rewrite Hf].
    + apply strip_length in E as [E _]. cbn in E. destruct fuel as [|fuel]; [lia|].
      destruct (IH fuel ltac:(lia) (child n c) data') as [Hy|Hn' Hf'|Hn' Hf']; [lia|by apply wf_child| | |]; constructor; rewrite ?Hf; tauto.
  - destruct fuel; cbn; constructor; try apply matches_None; by rewrite find_None.
Qed.

(** ** Removing a child *)

(** The child of a character, in the terms of the sparse array that replaces a dense one. *)
Definition pair_child (l : list (Z * nn_trie_node)) (c : Z) : trie_ptr :=
  i ← index_of c l.*1; mjoin ((Some <$> l.*2) !! i).

Lemma pair_child_cons d ch l c : pair_child ((d, ch) :: l) c = if d =? c then Some ch else pair_child l c.
Proof. unfold pair_child. cbn. destruct (d =? c); [done|]. by destruct (index_of c l.*1). Qed.

Lemma dense_children_spec mn (slots : list trie_ptr) :
  let l := dense_children mn slots in
  NoDup l.*1 ∧ (∀ d, d ∈ l.*1 → mn <= d < mn + Z.of_nat (length slots)) ∧ Z.of_nat (length l) = occupied slots ∧
  (∀ ch, ch ∈ l.*2 → Some ch ∈ slots) ∧
  ∀ c, pair_child l c = if decide (mn <= c) then mjoin (slots !! Z.to_nat (c - mn)) else None.
Proof.
  revert mn. induction slots as [|o slots IH]; intros mn; cbv zeta.
  { split_and!; try done; [apply NoDup_nil_2|by intros ? ?%elem_of_nil|by intros ? ?%elem_of_nil|]. intros c. by case_decide. }
  destruct (IH (mn + 1)) as (H1 & H2 & H3 & H4 & H5). rewrite occupied_cons.
  assert (∀ c, pair_child (dense_children (mn + 1) slots) c =
    if decide (mn <= c) then if decide (c = mn) then None else mjoin ((o :: slots) !! Z.to_nat (c - mn)) else None) as H5'.
  { intros c. rewrite H5. repeat case_decide; try lia; try done.
    replace (Z.to_nat (c - mn)) with (S (Z.to_nat (c - (mn + 1)))) by lia. done. }
  destruct o as [ch|]; cbn [dense_children].
  - cbn [fmap list_fmap fst snd length]. split_and!.
    + apply NoDup_cons. split; [|done]. intros Hin%H2. lia.
    + intros d [->|Hd]%elem_of_cons; [lia|]. apply H2 in Hd. lia.
    + lia.
    + intros ch' [->|Hc]%elem_of_cons; [by left|right; auto].
    + intros c. rewrite pair_child_cons, H5'. destruct (Z.eqb_spec mn c) as [->|Hne]; repeat case_decide; try lia; try done.
      by rewrite Z.sub_diag.
  - split_and!; [done| |lia|intros ch Hc; right; auto|].
    + intros d Hd%H2. cbn [length]. lia.
    + intros c. rewrite H5'. repeat case_decide; try done. subst. by rewrite Z.sub_diag.
Qed.

Lemma first_child_spec (slots : list trie_ptr) :
  (first_child slots <= length slots)%nat ∧ (∀ i, (i < first_child slots)%nat → slots !! i = Some None) ∧
  (0 < occupied slots → (first_child slots < length slots)%nat) ∧ occupied (drop (first_child slots) slots) = occupied slots.
Proof.
  induction slots as [|[ch|] slots (H1 & H2 & H3 & H4)]; cbn [first_child length drop].
  - split_and!; [done|lia|done|done].
  - split_and!; [lia|lia|lia|done].
  - rewrite occupied_cons. split_and!; [lia| |lia|lia]. intros [|i] Hi; [done|]. apply H2. lia.
Qed.

Lemma occupied_zero (l : list trie_ptr) : (∀ i o, l !! i = Some o → o = None) → occupied l = 0.
Proof.
  induction l as [|o l IH]; [done|]. intros H. rewrite occupied_cons, IH; [by rewrite (H 0%nat o eq_refl)|].
  intros i o' Hi. by apply (H (S i)).
Qed.

Lemma last_child_spec (slots : list trie_ptr) i :
  (last_child slots i <= i)%nat ∧ ∀ j, (last_child slots i < j <= i)%nat → ∀ o, slots !! j = Some o → o = None.
Proof.
  induction i as [|i [IH1 IH2]]; cbn [last_child]; [split; [done|lia]|].
  destruct (slots !! S i) as [[ch|]|] eqn:E; (split; [lia|]); intros j Hj o Ho; try lia;
    (destruct (decide (j = S i)) as [->|]; [congruence|apply (IH2 j); [lia|done]]).
Qed.

(** [n'] is [n] without its child for [c]. *)
Definition shrunk (n : nn_trie_node) : bool :=
  match n_kind n with Sparse _ => false | Dense _ _ nbr => negb (nbr >? 9) end.

Definition without_child (n : nn_trie_node) (c : Z) (n' : nn_trie_node) : Prop :=
  n_prefix n' = n_prefix n ∧ n_refcount n' = (if shrunk n then 0 else n_refcount n) ∧
  ∀ d, child n' d = if decide (d = c) then None else child n d.

(** What the code does with the array of pointers after one was removed. *)
Section trim.
Context (r : Z) (p : list Z) (mn mx nbr : Z) (slots : list trie_ptr).
Context (Hr : is_u32 r) (Hp : (length p <= NN_TRIE_PREFIX_MAX)%nat) (Hpb : Forall is_byte p).
Context (H0 : 0 <= mn) (H1 : mn <= mx) (H2 : mx < 256) (Hlen : Z.of_nat (length slots) = mx - mn + 1).
Context (Hocc : occupied slots = nbr - 1) (Hs : ∀ j m, slots !! j = Some (Some m) → wf_node m).

Let same_children (n' : nn_trie_node) := ∀ d, child n' d = child (Node r p (Dense mn mx nbr) slots) d.

Lemma trim_left :
  9 < nbr → let k := first_child slots in
  let n' := Node r p (Dense (mn + Z.of_nat k) mx (nbr - 1)) (drop k slots) in wf_node n' ∧ same_children n'.
Proof.
  intros H9 k n'. destruct (first_child_spec slots) as (F1 & F2 & F3 & F4). specialize (F3 ltac:(lia)). fold k in F1, F2, F3, F4. split.
  - constructor; [done..| |].
    + split_and!; [lia|lia|done|rewrite length_drop; lia|lia|lia].
    + intros j m Hj. rewrite lookup_drop in Hj. by eapply Hs.
  - intros d. unfold n'. rewrite !child_dense. destruct (decide (mn + Z.of_nat k <= d <= mx)).
    + rewrite decide_True by lia. rewrite lookup_drop. do 2 f_equal. lia.
    + case_decide; [|done]. by rewrite F2 by lia.
Qed.

Lemma trim_right :
  9 < nbr → let k := last_child slots (Z.to_nat (mx - mn)) in
  let n' := Node r p (Dense mn (mn + Z.of_nat k) (nbr - 1)) (take (S k) slots) in wf_node n' ∧ same_children n'.
Proof.
  intros H9 k n'. destruct (last_child_spec slots (Z.to_nat (mx - mn))) as [L1 L2]. fold k in L1, L2.
  assert (occupied (drop (S k) slots) = 0) as Hz.
  { apply occupied_zero. intros j o Hj. rewrite lookup_drop in Hj. pose proof (lookup_lt_Some _ _ _ Hj). eapply L2; [|exact Hj]. lia. }
  pose proof (occupied_app (take (S k) slots) (drop (S k) slots)) as Hsum. rewrite take_drop in Hsum. split.
  - constructor; [done..| |].
    + split_and!; [lia|lia|lia|rewrite length_take; lia|lia|lia].
    + intros j m Hj. apply lookup_take_Some in Hj as [Hj _]. by eapply Hs.
  - intros d. unfold n'. rewrite !child_dense. destruct (decide (mn <= d <= mn + Z.of_nat k)).
    + rewrite decide_True by lia. by rewrite lookup_take_lt by lia.
    + case_decide; [|done]. destruct (slots !! Z.to_nat (d - mn)) as [o|] eqn:Eo; [|done]. cbn. symmetry. eapply L2; [|exact Eo]. lia.
Qed.

Lemma dense_to_sparse :
  nbr = 9 → let l := dense_children mn slots in
  let n' := Node 0 p (Sparse l.*1) (Some <$> l.*2) in length l = NN_TRIE_SPARSE_MAX ∧ wf_node n' ∧ same_children n'.
Proof.
  intros H9 l n'. destruct (dense_children_spec mn slots) as (D1 & D2 & D3 & D4 & D5). fold l in D1, D2, D3, D4, D5.
  assert (length l = NN_TRIE_SPARSE_MAX) as Hl8 by (unfold NN_TRIE_SPARSE_MAX; lia). split; [done|]. split.
  - constructor; [done..| |].
    + split_and!; [done| |by rewrite length_fmap; lia|by rewrite !length_fmap| |].
      * apply Forall_forall. intros d Hd%D2. unfold is_byte. lia.
      * apply Forall_forall. intros o (x & -> & _)%list_elem_of_fmap. by eexists.
      * intros E. apply (f_equal length) in E. rewrite length_fmap, Hl8 in E. done.
    + intros j m Hj. rewrite list_lookup_fmap in Hj. apply fmap_Some in Hj as (m' & Hj & [= <-]).
      apply list_elem_of_lookup_2, D4, list_elem_of_lookup in Hj as [j' Hj']. by eapply Hs.
  - intros d. unfold n', child at 1. cbn [nn_node_next n_kind n_slots]. fold (pair_child l d). rewrite D5, child_dense.
    destruct (decide (mn <= d <= mx)); [by rewrite decide_True by lia|]. case_decide; [|done]. by rewrite lookup_ge_None_2 by lia.
Qed.

End trim.

Lemma prune_dense r p mn mx nbr slots c i ch :
  let n := Node r p (Dense mn mx nbr) slots in
  wf_node n → nn_node_next n c = Some i → child n c = Some ch →
  ∃ n', prune (set_slot i None n) c i = Some (Some n', 1) ∧ wf_node n' ∧ without_child n c n'.
Proof.
  intros n Hn Hi Hc. pose proof (next_child _ _ _ Hn Hi) as [Hch Hl].
  assert (∀ d, child (set_slot i None n) d = if decide (d = c) then None else child n d) as Hchild by (intros d; by apply child_set_slot).
  rewrite Hc in Hch. subst n. unfold nn_node_child in Hch. cbn [n_slots set_slot] in *.
  inversion_clear Hn as [? ? ? ? Hr Hp Hpb Hk Hs]. pose proof Hk as (H0 & H1 & H2 & Hlen & Hnbr & H9).
  set (slots' := <[i := None]> slots) in *.
  assert (occupied slots' = nbr - 1) as Hocc by (subst slots'; rewrite (occupied_insert _ _ (Some ch)) by done; lia).
  assert (Z.of_nat (length slots') = mx - mn + 1) as Hlen' by (subst slots'; by rewrite length_insert).
  assert (∀ j m, slots' !! j = Some (Some m) → wf_node m) as Hs'.
  { intros j m Hj. subst slots'. destruct (decide (j = i)) as [->|Hne]; [by rewrite list_lookup_insert_eq in Hj|].
    rewrite list_lookup_insert_ne in Hj by done. by eapply Hs. }
  unfold prune. destruct (nbr >? 9) eqn:E9; pose proof E9 as E9'; rewrite Z.gtb_ltb in E9'.
  - assert (∀ n', n_prefix n' = p → n_refcount n' = r → (∀ d, child n' d = child (Node r p (Dense mn mx nbr) slots') d) →
      without_child (Node r p (Dense mn mx nbr) slots) c n') as Hmid.
    { intros n' Hp' Hr' Hc'. split; [done|]. split; [unfold shrunk; cbn [n_kind]; by rewrite E9|]. intros d. by rewrite Hc'. }
    destruct (Z.eqb_spec c mn) as [->|Hne1].
    { destruct (trim_left r p mn mx nbr slots') as [Hw Hc']; try done; [lia|]. eexists. split; [done|]. split; [exact Hw|by apply Hmid]. }
    destruct (Z.eqb_spec c mx) as [->|Hne2].
    { destruct (trim_right r p mn mx nbr slots') as [Hw Hc']; try done; [lia|]. eexists. split; [done|]. split; [exact Hw|by apply Hmid]. }
    eexists. split; [done|]. split; [|apply Hmid; [done|done|intros d; by rewrite !child_dense]].
    constructor; [done..| |done]. split_and!; [done..|lia|lia].
  - destruct (dense_to_sparse r p mn mx nbr slots') as (Hl8 & Hw & Hc'); try done; [lia|]. rewrite decide_True by done.
    eexists. split; [done|]. split; [exact Hw|]. split; [done|]. split; [unfold shrunk; cbn [n_kind]; by rewrite E9|].
    intros d. by rewrite Hc'.
Qed.

Lemma child_delete cs (slots : list trie_ptr) i c d :
  NoDup cs → length slots = length cs → cs !! i = Some c →
  (j ← index_of d (delete i cs); mjoin (delete i slots !! j)) =
  if decide (d = c) then None else j ← index_of d cs; mjoin (slots !! j).
Proof.
  revert slots i. induction cs as [|e cs IH]; intros [|o slots] i Hnd Hl Hi; try done.
  apply NoDup_cons in Hnd as [He Hnd]. injection Hl as Hl. destruct i as [|i].
  - cbn in Hi. injection Hi as ->. change (delete 0%nat (c :: cs)) with cs. change (delete 0%nat (o :: slots)) with slots.
    cbn [index_of]. case_decide as Hd.
    + subst d. by apply index_of_None in He as ->.
    + destruct (Z.eqb_spec c d); [congruence|]. by destruct (index_of d cs).
  - cbn in Hi. change (delete (S i) (e :: cs)) with (e :: delete i cs). change (delete (S i) (o :: slots)) with (o :: delete i slots).
    specialize (IH slots i Hnd Hl Hi). cbn [index_of]. destruct (Z.eqb_spec e d) as [->|Hne].
    + rewrite decide_False; [done|]. intros ->. by apply He, list_elem_of_lookup_2 with i.
    + destruct (index_of d (delete i cs)), (index_of d cs); cbn in *; done.
Qed.

Lemma prune_sparse r p cs slots c i ch :
  let n := Node r p (Sparse cs) slots in
  wf_node n → nn_node_next n c = Some i → child n c = Some ch →
  ∃ t m, prune (set_slot i None n) c i = Some (t, 1) ∧ wf t ∧ without_child n c m ∧
    (∀ s, count t s = count (Some m) s).
Proof.
  intros n Hn Hi Hc. subst n. unfold nn_node_next in Hi. cbn [n_kind] in Hi. apply index_of_lookup in Hi.
  inversion_clear Hn as [? ? ? ? Hr Hp Hpb Hk Hs]. pose proof Hk as (Hnd & Hcb & Hle & Hl & HS & Hz).
  pose proof (lookup_lt_Some _ _ _ Hi) as Hlt. set (m := Node r p (Sparse (delete i cs)) (delete i slots)).
  assert (without_child (Node r p (Sparse cs) slots) c m) as Hm.
  { split; [done|]. split; [done|]. intros d. unfold child. cbn. by apply child_delete. }
  assert (delete i (<[i:=None]> slots) = delete i slots) as Hdel.
  { apply list_eq. intros j. destruct (decide (j < i)%nat).
    - by rewrite !list_lookup_delete_lt, list_lookup_insert_ne by lia.
    - by rewrite !list_lookup_delete_ge, list_lookup_insert_ne by lia. }
  assert (is_u32 r) by done. unfold is_u32 in *.
  assert (delete i cs = [] ∧ r = 0 ∨ wf_node m) as [[Hd ->]|Hwf].
  { destruct (decide (delete i cs = [] ∧ r = 0)) as [?|Hn]; [by left|right]. constructor; [done..| |].
    - split_and!; [by eapply sublist_NoDup; [|apply sublist_delete]|by apply Forall_delete|rewrite length_delete by (by eexists); lia| |by apply Forall_delete|].
      + rewrite !length_delete; [lia|by eexists|by apply lookup_lt_is_Some_2; lia].
      + intros E. destruct (decide (r = 0)); [by destruct Hn|lia].
    - intros j m' Hj. destruct (decide (j < i)%nat).
      + rewrite list_lookup_delete_lt in Hj by done. by eapply Hs.
      + rewrite list_lookup_delete_ge in Hj by lia. by eapply Hs. }
  - unfold prune. cbn [set_slot]. rewrite Hdel, Hd. cbn. exists None, m. split; [done|]. split; [done|]. split; [done|].
    intros s. rewrite count_node, count_None. subst m. cbn [n_prefix n_refcount]. rewrite Hd.
    destruct (strip p s) as [[|? ?]|]; [done| |done]. unfold child. cbn. by rewrite count_None.
  - destruct (compact_spec m Hwf) as (m' & E & Hwf' & Hcnt). exists (Some m'), m. split; [|split; [by apply wf_Some|by split]].
    unfold prune. cbn [set_slot]. rewrite Hdel. fold m. rewrite E. cbn [mbind option_bind].
    destruct (delete i cs) eqn:Ed; [|done].
    pose proof (wf_kids _ Hwf) as (_ & _ & _ & _ & _ & Hz'). specialize (Hz' eq_refl). change (0 < r) in Hz'.
    assert (nn_node_has_subscribers m = true) as ->; [|done].
    unfold nn_node_has_subscribers. change (n_refcount m) with r. destruct (Z.eqb_spec r 0); [lia|done].
Qed.

(** ** Unsubscribing *)

Lemma unsubscribe_enough f f' t data :
  (length data <= f)%nat → (length data <= f')%nat → unsubscribe_at f t data = unsubscribe_at f' t data.
Proof.
  revert f' t data. induction f as [|f IH]; intros [|f'] t [|d data] Hf Hf'; cbn in Hf, Hf'; try lia; try done.
  cbn [unsubscribe_at]. destruct t as [n|]; [|done]. destruct (negb _); [done|].
  destruct (drop (length (n_prefix n)) (d :: data)) as [|c data'] eqn:E; [done|]. apply (f_equal length) in E.
  rewrite length_drop in E. cbn in E. destruct (nn_node_next n c); [|done]. destruct (nn_node_child n n0) as [o|]; [|done].
  cbn [mbind option_bind]. rewrite (IH f' o data') by lia. done.
Qed.

(** The last subscription of a trie is removed with it. *)
Definition last_one (t : trie_ptr) (data : list Z) : bool :=
  match nn_trie_unsubscribe t data with Some (None, _) => true | _ => false end.

(** The node of [s] is a dense one that turns into a sparse one, as the child on the
    way to [data] is removed: its subscriptions are lost. *)
Definition shrinks (t : trie_ptr) (data s : list Z) : bool :=
  match strip s data, find t s with
  | Some (c :: r), Some n => shrunk n && last_one (child n c) r
  | _, _ => false
  end.

Lemma shrinks_node n data s :
  shrinks (Some n) data s =
  match strip (n_prefix n) s, strip (n_prefix n) data with
  | Some [], Some (c :: r) => shrunk n && last_one (child n c) r
  | Some (c :: s'), Some (d :: data') => bool_decide (c = d) && shrinks (child n d) data' s'
  | _, _ => false
  end.
Proof.
  unfold shrinks. rewrite find_node. destruct (strip (n_prefix n) s) as [[|c s']|] eqn:E.
  - apply strip_self in E as ->. by destruct (strip (n_prefix n) data) as [[|? ?]|].
  - apply strip_spec in E as ->. rewrite strip_app_prefix. destruct (strip (n_prefix n) data) as [[|d data']|]; cbn; try done.
    destruct (Z.eqb_spec c d) as [->|Hne]; [by rewrite bool_decide_eq_true_2|by rewrite bool_decide_eq_false_2].
  - by destruct (strip s data) as [[|? ?]|].
Qed.

Definition after_unsubscribe (t t' : trie_ptr) (data : list Z) : Prop :=
  ∀ s, count t' s = if decide (s = data) then count t data - 1 else if shrinks t data s then 0 else count t s.

(** The node of the subscription. *)
Lemma found_spec n :
  wf_node n → 0 < n_refcount n →
  ∃ t', unsubscribe_found (Some n) = Some (t', if n_refcount n =? 1 then 1 else 0) ∧ wf t' ∧
    after_unsubscribe (Some n) t' (n_prefix n).
Proof.
  intros Hn Hr. assert (nn_node_has_subscribers n = true) as Hsub.
  { unfold nn_node_has_subscribers. destruct (Z.eqb_spec (n_refcount n) 0); [lia|done]. }
  unfold unsubscribe_found. rewrite Hsub. cbn [negb]. destruct n as [r p u slots]. cbn [n_refcount set_refcount n_kind n_prefix] in *.
  set (m := Node (r - 1) p u slots).
  assert (after_unsubscribe (Some (Node r p u slots)) (Some m) p) as Hm.
  { intros s. unfold m. rewrite !count_node, shrinks_node. cbn [n_prefix n_refcount]. rewrite (proj2 (strip_self p p) eq_refl).
    destruct (strip p s) as [[|c s']|] eqn:E.
    - apply strip_self in E as ->. by rewrite decide_True.
    - rewrite decide_False; [done|]. intros ->. by rewrite (proj2 (strip_self p p) eq_refl) in E.
    - rewrite decide_False; [done|]. intros ->. by rewrite (proj2 (strip_self p p) eq_refl) in E. }
  inversion_clear Hn as [? ? ? ? Hr' Hp Hpb Hk Hs]. unfold is_u32 in Hr'.
  assert ((u = Sparse [] ∧ r = 1) ∨ wf_node m) as [[E1 E2]|Hwf].
  { assert (((u = Sparse []) ∧ r = 1) ∨ ¬ (u = Sparse [] ∧ r = 1)) as [?|Hne]; [|by left|right].
    { destruct u as [[|? ?]|]; [|right; by intros []..]. destruct (decide (r = 1)); [by left|right; by intros []]. }
    constructor; [unfold is_u32; lia|done|done| |done].
    destruct u; [|done]. destruct Hk as (? & ? & ? & ? & ? & ?). split_and!; try done.
    intros ->. destruct (decide (r = 1)); [by destruct Hne|lia]. }
  - subst u r. cbn. exists None. split; [done|]. split; [apply wf_None|]. intros s. rewrite <- Hm, count_None. unfold m. rewrite count_node. cbn [n_prefix n_refcount].
    destruct (strip p s) as [[|? ?]|]; [done| |done]. unfold child. cbn. by rewrite count_None.
  - change (n_refcount m) with (r - 1). destruct (Z.eqb_spec (r - 1) 0), (Z.eqb_spec r 1); try lia; [|by exists (Some m); auto].
    destruct (compact_spec m Hwf) as (m' & E & Hwf' & Hc). rewrite E. cbn [mbind option_bind].
    exists (Some m'). split; [|split; [by apply wf_Some|intros s; by rewrite Hc]].
    destruct u as [[|? ?]|]; [|done|done]. pose proof (wf_kids _ Hwf) as (_ & _ & _ & _ & _ & Hz'). specialize (Hz' eq_refl).
    change (0 < r - 1) in Hz'. lia.
Qed.

(** Below the node the subscription is removed, the child stays or goes. *)
Lemma after_unsub_slot n c i ch ch' data :
  wf_node n → nn_node_next n c = Some i → child n c = Some ch → after_unsubscribe (Some ch) (Some ch') data →
  last_one (Some ch) data = false →
  after_unsubscribe (Some n) (Some (set_slot i (Some ch') n)) (n_prefix n ++ c :: data).
Proof.
  intros Hn Hi Hc Ha Hlast s. destruct (next_child _ _ _ Hn Hi) as [_ Hl]. destruct (set_slot_members i (Some ch') n) as (Hp & Hr & _).
  rewrite shrinks_node, !count_node, strip_app, Hp, Hr, Hc.
  destruct (strip (n_prefix n) s) as [[|d s']|] eqn:E.
  - apply strip_self in E as ->. rewrite decide_False; [by rewrite Hlast, andb_false_r|].
    intros H. apply (f_equal length) in H. rewrite length_app in H. cbn in H. lia.
  - apply strip_spec in E as ->. rewrite (child_set_slot _ _ _ _ _ Hi Hl). destruct (decide (d = c)) as [->|Hne].
    + rewrite Ha, Hc, bool_decide_eq_true_2 by done. cbn [andb]. destruct (decide (s' = data)) as [->|Hne]; [by rewrite decide_True|].
      rewrite decide_False; [done|]. intros H. apply app_inj_1 in H; [|done]. by destruct H as [_ [= ->]].
    + rewrite decide_False; [by rewrite bool_decide_eq_false_2|].
      intros H. apply app_inj_1 in H; [|done]. by destruct H as [_ [= ? ?]].
  - rewrite decide_False; [done|]. intros ->. by rewrite strip_app in E.
Qed.

Lemma prune_spec n c i ch :
  wf_node n → nn_node_next n c = Some i → child n c = Some ch →
  ∃ t m, prune (set_slot i None n) c i = Some (t, 1) ∧ wf t ∧ without_child n c m ∧ (∀ s, count t s = count (Some m) s).
Proof.
  intros Hn Hi Hc. destruct n as [r p [cs|mn mx nbr] slots]; [by eapply prune_sparse|].
  destruct (prune_dense r p mn mx nbr slots c i ch Hn Hi Hc) as (m & E & Hm & Hw). exists (Some m), m. eauto.
Qed.

Lemma after_prune n c ch t m data :
  child n c = Some ch → after_unsubscribe (Some ch) None data → last_one (Some ch) data = true →
  without_child n c m → (∀ s, count t s = count (Some m) s) → after_unsubscribe (Some n) t (n_prefix n ++ c :: data).
Proof.
  intros Hc Ha Hlast (Hp & Hr & Hch) Hcnt s. rewrite Hcnt, shrinks_node, !count_node, strip_app, Hp, Hr, Hc.
  destruct (strip (n_prefix n) s) as [[|d s']|] eqn:E.
  - apply strip_self in E as ->. rewrite decide_False; [by rewrite Hlast, andb_true_r|].
    intros H. apply (f_equal length) in H. rewrite length_app in H. cbn in H. lia.
  - apply strip_spec in E as ->. rewrite Hch. destruct (decide (d = c)) as [->|Hne].
    + rewrite Ha, Hc, bool_decide_eq_true_2 by done. cbn [andb]. destruct (decide (s' = data)) as [->|Hne]; [by rewrite decide_True|].
      rewrite decide_False; [done|]. intros H. apply app_inj_1 in H; [|done]. by destruct H as [_ [= ->]].
    + rewrite decide_False; [by rewrite bool_decide_eq_false_2|].
      intros H. apply app_inj_1 in H; [|done]. by destruct H as [_ [= ? ?]].
  - rewrite decide_False; [done|]. intros ->. by rewrite strip_app in E.
Qed.

(** One step of the traversal on the way to a subscription. *)
Lemma unsubscribe_at_node fuel n data :
  wf_node n → 0 < count (Some n) data →
  unsubscribe_at fuel (Some n) data =
  match strip (n_prefix n) data with
  | None => None
  | Some [] => unsubscribe_found (Some n)
  | Some (c :: data') =>
      match nn_node_next n c, fuel with
      | Some i, S fuel' =>
          '(next', rc) ← unsubscribe_at fuel' (child n c) data';
          let n' := set_slot i next' n in
          if rc =? 0 then Some (Some n', 0) else match next' with Some _ => Some (Some n', 1) | None => prune n' c i end
      | _, _ => None
      end
  end.
Proof.
  intros Hn Hc. rewrite count_node in Hc. destruct (strip (n_prefix n) data) as [[|c data']|] eqn:E; [| |lia].
  - apply strip_self in E as ->. destruct (n_prefix n) as [|d p] eqn:Ep; [by destruct fuel|].
    assert (check_prefix (d :: p) (d :: p) = length (d :: p)) as E by (destruct (check_prefix_strip (d :: p) (d :: p)) as [[? _]|[_ E]]; [done|];
      by rewrite (proj2 (strip_self _ _) eq_refl) in E).
    destruct fuel; cbn [unsubscribe_at]; unfold nn_node_check_prefix; rewrite Ep, E, Nat.eqb_refl, drop_all; done.
  - destruct (check_prefix_strip (n_prefix n) data) as [[Ec Es]|[_ Es]]; [|congruence]. rewrite E in Es. injection Es as Es.
    assert (∃ d l, data = d :: l) as (d & l & ->) by (apply strip_spec in E as ->; destruct (n_prefix n); by repeat eexists).
    destruct (nn_node_next n c) as [i|] eqn:Ei.
    2:{ unfold child in Hc. rewrite Ei in Hc. cbn in Hc. rewrite count_None in Hc. lia. }
    destruct (next_child _ _ _ Hn Ei) as [Hch _].
    destruct fuel; cbn [unsubscribe_at]; unfold nn_node_check_prefix; rewrite Ec, Nat.eqb_refl, <- Es, Ei; cbn [negb]; [done|].
    by rewrite Hch.
Qed.

Lemma unsubscribe_at_spec fuel t data :
  (length data <= fuel)%nat → wf t → 0 < count t data →
  ∃ t', unsubscribe_at fuel t data = Some (t', if count t data =? 1 then 1 else 0) ∧ wf t' ∧ after_unsubscribe t t' data.
Proof.
  revert t data. induction fuel as [fuel IH] using lt_wf_ind. intros [n|] data Hl Ht Hpos; [|rewrite count_None in Hpos; lia].
  pose proof (Ht n eq_refl) as Hn. rewrite unsubscribe_at_node by done. rewrite count_node in Hpos |- *.
  destruct (strip (n_prefix n) data) as [[|c data']|] eqn:Est; [| |lia].
  { apply strip_self in Est as ->. by apply found_spec. }
  destruct (child n c) as [ch|] eqn:Ec; [|rewrite count_None in Hpos; lia].
  destruct (child_next _ _ _ Ec) as [i Hi]. rewrite Hi. pose proof (strip_length _ _ _ Est) as [Hlen _]. cbn in Hlen.
  destruct fuel as [|fuel]; [lia|]. pose proof (proj1 (strip_spec _ _ _) Est) as ->.
  destruct (IH fuel (Nat.lt_succ_diag_r _) (Some ch) data') as (t' & E & Ht' & Ha); [lia|rewrite <- Ec; by apply wf_child|done|].
  assert (last_one (Some ch) data' = bool_decide (t' = None)) as Hlast.
  { unfold last_one, nn_trie_unsubscribe. rewrite (unsubscribe_enough _ fuel), E by lia. by destruct t'. }
  rewrite E. cbn [mbind option_bind]. destruct t' as [ch'|].
  - exists (Some (set_slot i (Some ch') n)). split; [by destruct (count (Some ch) data' =? 1)|]. split.
    + apply wf_Some. eapply wf_set_slot; [done|done|by rewrite Ec|by apply Ht'].
    + by eapply after_unsub_slot.
  - pose proof (Ha data') as Hz. rewrite decide_True, count_None in Hz by done. replace (count (Some ch) data') with 1 by lia.
    cbn [Z.eqb Pos.eqb]. destruct (prune_spec n c i ch Hn Hi Ec) as (t' & m & -> & Hwf & Hm & Hcnt). exists t'. split; [done|]. split; [done|].
    by eapply after_prune.
Qed.

(** Every node leads to a subscription. *)
Lemma wf_inhabited n : wf_node n → ∃ s, 0 < count (Some n) s.
Proof.
  induction 1 as [r p u slots Hr Hp Hb Hk Hs IH]. unfold is_u32 in Hr.
  destruct (decide (0 < r)); [exists p; rewrite count_node; cbn [n_prefix]; by rewrite (proj2 (strip_self p p) eq_refl)|].
  assert (∃ c ch i, child (Node r p u slots) c = Some ch ∧ slots !! i = Some (Some ch)) as (c & ch & i & Hc & Hi).
  { destruct u as [[|c cs]|mn mx nbr].
    - destruct Hk as (_ & _ & _ & _ & _ & Hz). specialize (Hz eq_refl). lia.
    - destruct Hk as (_ & _ & _ & Hl & HS & _). destruct slots as [|o slots]; [done|]. apply Forall_cons in HS as [[ch ->] _].
      exists c, ch, 0%nat. split; [|done]. unfold child. cbn. by rewrite Z.eqb_refl.
    - destruct Hk as (? & ? & ? & Hl & -> & ?). destruct (first_child_spec slots) as (_ & _ & F3 & F4). specialize (F3 ltac:(lia)).
      set (k := first_child slots) in *. destruct (lookup_lt_is_Some_2 _ _ F3) as [o Ho].
      assert (∃ ch, o = Some ch) as [ch ->].
      { rewrite (drop_S _ _ _ Ho) in F4. destruct o as [ch|]; [by eexists|]. exfalso. clear -Ho. subst k. revert Ho.
        induction slots as [|[ch|] slots IH]; cbn; [done|done|exact IH]. }
      exists (mn + Z.of_nat k), ch, k. split; [|done]. rewrite child_dense, decide_True by lia.
      replace (Z.to_nat (mn + Z.of_nat k - mn)) with k by lia. by rewrite Ho. }
  destruct (IH i ch Hi) as [s Hpos]. exists (p ++ c :: s). rewrite count_node. cbn [n_prefix]. by rewrite strip_app, Hc.
Qed.

(** ** The operations *)

(** C19. Subscribing never fails and keeps the trie well-formed; it answers 1 exactly
    when the string is new.  The string is subscribed to once more, and all other
    subscriptions are as before, but for one: if the string needs a ninth child at
    a node with eight, the subscriptions to the string of that node are gone. *)
Theorem trie_subscribe t data :
  wf t → Forall is_byte data → count t data < 4294967295 →
  ∃ t', nn_trie_subscribe t data = Some (t', if count t data =? 0 then 1 else 0) ∧ wf t' ∧
    ∀ s, count t' s = if decide (s = data) then count t data + 1 else if loses t data s then 0 else count t s.
Proof.
  intros Ht Hb Hlt. destruct (subscribe_at_spec (length data) t data (le_n _) Ht Hb Hlt) as (n' & E & Hn' & Ha).
  exists (Some n'). unfold nn_trie_subscribe. rewrite E. split; [done|]. by split; [apply wf_Some|].
Qed.

(** C20. Unsubscribing from a string that is subscribed to: it answers 1 exactly when
    this was the last subscription to the string.  The string is subscribed to once
    less, and all other subscriptions are as before, but for those to the string of
    a node whose ninth child goes; without subscriptions nothing is left of the
    trie. *)
Theorem trie_unsubscribe t data :
  wf t → 0 < count t data →
  ∃ t', nn_trie_unsubscribe t data = Some (t', if count t data =? 1 then 1 else 0) ∧ wf t' ∧
    (∀ s, count t' s = if decide (s = data) then count t data - 1 else if shrinks t data s then 0 else count t s) ∧
    ((∀ s, count t' s = 0) → t' = None).
Proof.
  intros Ht Hpos. destruct (unsubscribe_at_spec (length data) t data (le_n _) Ht Hpos) as (t' & E & Ht' & Ha).
  exists t'. split; [done|]. split; [done|]. split; [done|]. intros Hz. destruct t' as [n'|]; [|done].
  destruct (wf_inhabited n' (Ht' n' eq_refl)) as [s Hs]. specialize (Hz s). lia.
Qed.

(** C21. Matching answers 1 exactly when a subscription is a prefix of the data.  If
    none is, it answers 0, unless the data are the string of a node: then it reads
    the byte after the data. *)
Theorem trie_match t data : wf t → match_result t data (nn_trie_match t data).
Proof. intros Ht. by apply match_at_spec. Qed.

(** ** Examples *)

#[export] Instance kids_ok_dec r u slots : Decision (kids_ok r u slots).
Proof. destruct u; unfold kids_ok, is_byte; apply _. Defined.

Fixpoint wfb (fuel : nat) (n : nn_trie_node) : bool :=
  match fuel with
  | O => false
  | S fuel' =>
      bool_decide (is_u32 (n_refcount n)) && bool_decide (length (n_prefix n) <= NN_TRIE_PREFIX_MAX)%nat &&
      bool_decide (Forall (λ z, 0 <= z < 256) (n_prefix n)) && bool_decide (kids_ok (n_refcount n) (n_kind n) (n_slots n)) &&
      forallb (λ o : trie_ptr, match o with Some ch => wfb fuel' ch | None => true end) (n_slots n)
  end.

Lemma wfb_sound fuel n : wfb fuel n = true → wf_node n.
Proof.
  revert n. induction fuel as [|fuel IH]; [done|]. intros [r p u slots]. cbn. rewrite !andb_true_iff, !bool_decide_eq_true.
  intros ((((? & ?) & ?) & ?) & Hs). constructor; [done..|]. intros i ch Hi. rewrite forallb_forall in Hs.
  apply IH, (Hs (Some ch)), list_elem_of_In. by eapply list_elem_of_lookup_2.
Qed.

Definition subscribe_all (ss : list (list Z)) : trie_ptr :=
  foldl (λ t s, from_option fst None (nn_trie_subscribe t s)) nn_trie_init ss.

(** "a" and eight strings below it. *)
Definition demo_eight : trie_ptr := Eval vm_compute in subscribe_all ([97] :: ((λ c, [97; c]) <$> seqZ 48 8)).

Lemma demo_eight_wf : wf demo_eight.
Proof. apply wf_Some, (wfb_sound 3). vm_compute. reflexivity. Qed.

Lemma trie_subscribe_witness :
  ∃ t', nn_trie_subscribe demo_eight [97; 56] = Some (t', 1) ∧ count t' [97; 56] = 1 ∧ count t' [97] = 0.
Proof.
  destruct (trie_subscribe demo_eight [97; 56] demo_eight_wf) as (t' & E & _ & H).
  - repeat constructor; done.
  - vm_compute. reflexivity.
  - exists t'. split; [exact E|]. split; rewrite H; vm_compute; reflexivity.
Defined.

Lemma trie_unsubscribe_witness :
  ∃ t', nn_trie_unsubscribe demo_eight [97; 50] = Some (t', 1) ∧ count t' [97; 50] = 0 ∧ count t' [97] = 1.
Proof.
  destruct (trie_unsubscribe demo_eight [97; 50] demo_eight_wf) as (t' & E & _ & H & _).
  - vm_compute. reflexivity.
  - exists t'. split; [exact E|]. split; rewrite H; vm_compute; reflexivity.
Defined.

Lemma trie_match_witness : match_result demo_eight [97; 120] (Some 1).
Proof. exact (trie_match demo_eight [97; 120] demo_eight_wf). Defined.

(** ** What goes wrong *)

(** The subscription "a" matches "ax" until there is a ninth string below it. *)
Lemma ninth_child_forgets :
  nn_trie_match demo_eight [97; 120] = Some 1 ∧
  nn_trie_match (from_option fst None (nn_trie_subscribe demo_eight [97; 56])) [97; 120] = Some 0.
Proof. by vm_compute. Qed.

(** The end of the data is not compared with the prefix: unsubscribing from the empty
    string removes the subscription "abc". *)
Lemma unsubscribe_other :
  nn_trie_unsubscribe (subscribe_all [[97; 98; 99]]) [] = Some (None, 1).
Proof. by vm_compute. Qed.

(** Unsubscribing without any subscription follows a [NULL] pointer. *)
Lemma unsubscribe_null : nn_trie_unsubscribe nn_trie_init [97] = None.
Proof. by vm_compute. Qed.

(** "ab" and "ac" are subscribed to, and "a" arrives: the byte after it is read. *)
Lemma match_overread : nn_trie_match (subscribe_all [[97; 98]; [97; 99]]) [97] = None.
Proof. by vm_compute. Qed.

(** A string that nobody subscribed to is taken off the number of the children of a
    dense node: after that, a subscription cannot be removed. *)
Lemma unsubscribe_miscounts :
  let t := subscribe_all ((λ c, [c]) <$> seqZ 48 9 ++ [65]) in
  ∃ t', nn_trie_unsubscribe t [60] = Some (t', 1) ∧ nn_trie_unsubscribe t' [48] = None.
Proof. eexists. split; [vm_compute; reflexivity|]. by vm_compute. Qed.
