(* ===== verification/NnList.v ===== *)
(** * The linked lists of nanomsg

    [nanomsg-1.0.0/src/utils/list.c]: a doubly linked list whose links are members of
    the items.  The items are in a store, by their addresses; [lrep] says that they
    form the sequence [xs], and every operation is the one on sequences. *)

From S2P Require Import Prelude.
From stdpp Require Import base numbers list gmap.
#[local] Open Scope Z_scope.

(** A link is [NN_LIST_NOTINLIST], or a pointer that may be [NULL]. *)
Inductive nn_link := NotInList | Link (p : option Z).

#[export] Instance nn_link_eq_dec : EqDecision nn_link.
Proof. solve_decision. Defined.

Record nn_list_item := Item { i_prev : nn_link; i_next : nn_link }.
Record nn_list := List { l_first : option Z; l_last : option Z }.

Notation items := (gmap Z nn_list_item).

Definition set_prev (k : nn_link) (i : nn_list_item) := Item k (i_next i).
Definition set_next (k : nn_link) (i : nn_list_item) := Item (i_prev i) k.

(** The operations answer [None] where an assertion fails, or a pointer is followed
    that is not one of an item. *)
Definition nn_list_init : nn_list := List None None.

Definition nn_list_term (self : nn_list) : option unit :=
  match l_first self, l_last self with None, None => Some tt | _, _ => None end.

Definition nn_list_empty (self : nn_list) : Z := if l_first self then 0 else 1.
Definition nn_list_begin (self : nn_list) : option Z := l_first self.
Definition nn_list_end : option Z := None.

Definition nn_list_prev (h : items) (self : nn_list) (it : option Z) : option (option Z) :=
  match it with
  | None => Some (l_last self)
  | Some p => i ← h !! p; match i_prev i with NotInList => None | Link q => Some q end
  end.

Definition nn_list_next (h : items) (it : Z) : option (option Z) :=
  i ← h !! it; match i_next i with NotInList => None | Link q => Some q end.

Definition nn_list_item_init (h : items) (self : Z) : items := <[self := Item NotInList NotInList]> h.

Definition nn_list_item_isinlist (h : items) (self : Z) : option bool :=
  i ← h !! self; Some (bool_decide (i_prev i ≠ NotInList)).

Definition nn_list_item_term (h : items) (self : Z) : option unit :=
  b ← nn_list_item_isinlist h self; if (b : bool) then None else Some tt.

(** Write a member of the item that a link leads to, if it leads to one. *)
Definition follow (k : option Z) (f : nn_list_item → nn_list_item) (h : items) : option items :=
  match k with None => Some h | Some p => i ← h !! p; Some (<[p := f i]> h) end.

Definition nn_list_insert (h : items) (self : nn_list) (item : Z) (it : option Z) : option (items * nn_list) :=
  b ← nn_list_item_isinlist h item;
  if (b : bool) then None else
  prev ← match it with
         | None => Some (l_last self)
         | Some p => i ← h !! p; match i_prev i with NotInList => None | Link q => Some q end
         end;
  let h := <[item := Item (Link prev) (Link it)]> h in
  h ← follow prev (set_next (Link (Some item))) h;
  h ← follow it (set_prev (Link (Some item))) h;
  let first := if decide (l_first self = None ∨ l_first self = it) then Some item else l_first self in
  let last := match it with None => Some item | Some _ => l_last self end in
  Some (h, List first last).

Definition nn_list_erase (h : items) (self : nn_list) (item : Z) : option (items * nn_list * option Z) :=
  b ← nn_list_item_isinlist h item;
  if negb b then None else
  i ← h !! item;
  match i_prev i, i_next i with
  | Link prev, Link next =>
      h ← follow prev (set_next (Link next)) h;
      let self := match prev with Some _ => self | None => List next (l_last self) end in
      h ← follow next (set_prev (Link prev)) h;
      let self := match next with Some _ => self | None => List (l_first self) prev end in
      Some (<[item := Item NotInList NotInList]> h, self, next)
  | _, _ => None
  end.

(** ** The sequence of a list *)

(** The items of [xs], in this order, are those of the list. *)
Definition lrep (h : items) (self : nn_list) (xs : list Z) : Prop :=
  NoDup xs ∧ l_first self = head xs ∧ l_last self = last xs ∧
  ∀ l1 x l2, xs = l1 ++ x :: l2 → h !! x = Some (Item (Link (last l1)) (Link (head l2))).

Lemma lrep_init h : lrep h nn_list_init [].
Proof. split_and!; [apply NoDup_nil_2|done|done|]. by intros [] x l2. Qed.

Lemma lrep_item h self xs x : lrep h self xs → x ∈ xs → nn_list_item_isinlist h x = Some true.
Proof.
  intros (_ & _ & _ & Hl) (l1 & l2 & E)%list_elem_of_split. unfold nn_list_item_isinlist. rewrite (Hl _ _ _ E). cbn.
  by rewrite bool_decide_eq_true_2.
Qed.

(** Only the items of the sequence matter. *)
Lemma lrep_frame h h' s xs : lrep h s xs → (∀ x, x ∈ xs → h' !! x = h !! x) → lrep h' s xs.
Proof.
  intros (? & ? & ? & Hl) Hx. split_and!; [done..|]. intros l1 x l2 ->. rewrite Hx by set_solver. by apply Hl.
Qed.

(** Two ways to take an item out of a sequence without duplicates. *)
Lemma split_unique {A} (l1 l2 l1' l2' : list A) x :
  NoDup (l1 ++ x :: l2) → l1 ++ x :: l2 = l1' ++ x :: l2' → l1 = l1' ∧ l2 = l2'.
Proof.
  revert l1'. induction l1 as [|a l1 IH]; intros [|b l1'] Hnd E; simplify_eq/=; [done|..];
    apply NoDup_cons in Hnd as [Hn Hnd].
  - destruct Hn. apply elem_of_app. right. by left.
  - destruct Hn. apply elem_of_app. right. by left.
  - by destruct (IH l1' Hnd) as [-> ->].
Qed.

(** An item of a sequence is before, at or after a given place. *)
Lemma split_place {A} (a b l1 l2 : list A) x y :
  a ++ x :: b = l1 ++ y :: l2 →
  (∃ c, l1 = a ++ x :: c ∧ b = c ++ y :: l2) ∨ (a = l1 ∧ x = y ∧ b = l2) ∨ (∃ c, a = l1 ++ y :: c ∧ l2 = c ++ x :: b).
Proof.
  revert l1. induction a as [|z a IH]; intros [|w l1] E; simplify_eq/=.
  - right. by left.
  - left. by exists l1.
  - right. right. by exists a.
  - destruct (IH l1) as [(c & -> & ->)|[(-> & -> & ->)|(c & -> & ->)]];
      [done|left; by exists c|right; by left|right; right; by exists c].
Qed.

Lemma last_app_cons {A} (l1 l2 : list A) x : last (l1 ++ x :: l2) = last (x :: l2).
Proof. by rewrite last_app, last_cons; destruct (last l2). Qed.

Lemma head_app_cons {A} (l1 l2 : list A) x : head (l1 ++ x :: l2) = match l1 with [] => Some x | y :: _ => Some y end.
Proof. by destruct l1. Qed.

Lemma follow_spec k f h :
  (∀ p, k = Some p → is_Some (h !! p)) →
  ∃ h', follow k f h = Some h' ∧ ∀ x, h' !! x = if decide (k = Some x) then f <$> h !! x else h !! x.
Proof.
  intros Hk. destruct k as [p|]; [|by exists h].
  destruct (Hk p eq_refl) as [i Hi]. cbn. rewrite Hi. cbn. eexists. split; [done|]. intros x.
  destruct (decide (Some p = Some x)) as [[= ->]|Hn]; [by rewrite lookup_insert_eq, Hi|].
  rewrite lookup_insert_ne by congruence. done.
Qed.

(** Where the first and the last of a sequence without duplicates are. *)
Lemma last_at {A} (l1 l2 : list A) x : NoDup (l1 ++ x :: l2) → last (l1 ++ x :: l2) = Some x → l2 = [].
Proof.
  intros Hnd. rewrite last_app_cons. destruct l2 as [|y l2]; [done|]. rewrite last_cons_cons.
  intros Hl%last_Some_elem_of. apply NoDup_app in Hnd as (_ & _ & [Hn _]%NoDup_cons). done.
Qed.

Lemma head_at {A} (l1 l2 : list A) x : NoDup (l1 ++ x :: l2) → head (l1 ++ x :: l2) = Some x → l1 = [].
Proof.
  intros Hnd. destruct l1 as [|y l1]; [done|]. cbn. intros [= ->]. apply NoDup_cons in Hnd as [[]%not_elem_of_app _].
  set_solver.
Qed.

Lemma lrep_end h self xs p : lrep h self xs → (last xs = Some p ∨ head xs = Some p) → is_Some (h !! p).
Proof.
  intros (_ & _ & _ & Hl) Hp.
  assert (p ∈ xs) as (l1 & l2 & ->)%list_elem_of_split.
  { destruct Hp as [Hp|Hp]; [by apply last_Some_elem_of|]. destruct xs; [done|]. simplify_eq/=. by left. }
  by rewrite (Hl l1 p l2 eq_refl).
Qed.

(** The links after [item] went between [l1] and [l2]. *)
Lemma lrep_insert h h' self l1 l2 item :
  lrep h self (l1 ++ l2) → item ∉ l1 ++ l2 →
  (∀ x, h' !! x = if decide (head l2 = Some x) then set_prev (Link (Some item)) <$> h !! x else
    if decide (last l1 = Some x) then set_next (Link (Some item)) <$> h !! x else
    if decide (x = item) then Some (Item (Link (last l1)) (Link (head l2))) else h !! x) →
  lrep h' (List (head (l1 ++ item :: l2)) (last (l1 ++ item :: l2))) (l1 ++ item :: l2).
Proof.
  intros (Hnd & _ & _ & Hl) Hnin Hh'.
  assert (NoDup (l1 ++ item :: l2)) as Hnd'.
  { rewrite <-Permutation_middle. by apply NoDup_cons. }
  apply not_elem_of_app in Hnin as [Hn1 Hn2]. apply NoDup_app in Hnd as Hnd2. destruct Hnd2 as (_ & Hdis & _).
  split_and!; [done..|]. intros a x b E. rewrite (Hh' x).
  assert (∀ y, head l2 = Some y → y ∈ l2) as Hhd.
  { intros y. destruct l2; cbn; [done|]. intros [= ->]. by left. }
  destruct (split_place _ _ _ _ _ _ (eq_sym E)) as [(c & -> & ->)|[(-> & -> & ->)|(c & -> & ->)]].
  - rewrite decide_False by (intros Hx%Hhd; apply (Hdis x); set_solver).
    rewrite <-app_assoc in Hl. rewrite (Hl a x (c ++ l2) eq_refl).
    destruct c as [|y c]; cbn [head app].
    + rewrite decide_True by apply last_snoc. done.
    + rewrite decide_False; [|intros Hx; rewrite <-!app_assoc in Hnd; apply last_at in Hx; [done|]].
      * rewrite decide_False by (intros ->; set_solver). done.
      * apply NoDup_app in Hnd' as (Hnd' & _). done.
  - rewrite !decide_False by (intros Hx; (apply Hhd in Hx || apply last_Some_elem_of in Hx); done).
    by rewrite decide_True.
  - rewrite (decide_False (P := last l1 = Some x)) by
      (intros Hx%last_Some_elem_of; apply (Hdis x); [done|set_solver]).
    rewrite app_assoc in Hl. rewrite (Hl (l1 ++ c) x b eq_refl), last_app_cons, last_cons, last_app.
    destruct (decide (head (c ++ x :: b) = Some x)) as [Hx|Hx].
    + apply head_at in Hx as ->; [done|]. by apply NoDup_app in Hnd as (_ & _ & ?).
    + rewrite decide_False by (intros ->; set_solver). destruct c as [|y c]; [done|]. cbn [app head] in *.
      rewrite last_cons. by destruct (last c).
Qed.

(** [nn_list_insert]: the item is put before [it], or at the end. *)
Lemma nn_list_insert_spec h self l1 l2 item i :
  lrep h self (l1 ++ l2) → h !! item = Some i → i_prev i = NotInList → item ∉ l1 ++ l2 →
  ∃ h' self', nn_list_insert h self item (head l2) = Some (h', self') ∧ lrep h' self' (l1 ++ item :: l2) ∧
    ∀ x, x ∉ l1 ++ item :: l2 → h' !! x = h !! x.
Proof.
  intros Hr Hi Hp Hnin. pose proof Hr as (Hnd & Hf & Hla & Hl).
  assert (nn_list_item_isinlist h item = Some false) as Hin.
  { unfold nn_list_item_isinlist. rewrite Hi. cbn. by rewrite bool_decide_eq_false_2 by tauto. }
  unfold nn_list_insert. rewrite Hin. cbn [mbind option_bind].
  assert (match head l2 with None => Some (l_last self)
          | Some p => i ← h !! p; match i_prev i with NotInList => None | Link q => Some q end end = Some (last l1)) as ->.
  { destruct l2 as [|x l2]; cbn [head]; [by rewrite Hla, app_nil_r|]. by rewrite (Hl l1 x l2 eq_refl). }
  cbn [mbind option_bind].
  destruct (follow_spec (last l1) (set_next (Link (Some item))) (<[item := Item (Link (last l1)) (Link (head l2))]> h))
    as (h1 & -> & Hh1).
  { intros p (l & -> )%last_Some. rewrite <-app_assoc in Hl. rewrite lookup_insert_is_Some, (Hl _ _ _ eq_refl).
    destruct (decide (item = p)); [by left|by right]. }
  cbn [mbind option_bind].
  destruct (follow_spec (head l2) (set_prev (Link (Some item))) h1) as (h2 & -> & Hh2).
  { intros p Hx. rewrite Hh1. destruct l2 as [|y l2]; [done|]. simplify_eq/=.
    rewrite decide_False, lookup_insert_ne, (Hl _ _ _ eq_refl); [done|set_solver|].
    intros Hx%last_Some_elem_of. apply NoDup_app in Hnd as (_ & Hd & _). apply (Hd p); [done|by left]. }
  cbn [mbind option_bind]. eexists h2, _. split; [done|]. split.
  - match goal with |- lrep _ ?s _ => assert (s = List (head (l1 ++ item :: l2)) (last (l1 ++ item :: l2))) as -> end;
      [|apply (lrep_insert h h2 self); [done..|]].
    + rewrite Hf, Hla, last_app_cons. f_equal.
      * destruct l1 as [|a l1]; cbn [app head]; [by rewrite decide_True by (right; done)|].
        rewrite decide_False; [done|]. intros [?|Hx]; [done|]. destruct l2 as [|b l2]; [done|]. simplify_eq/=.
        apply NoDup_cons in Hnd as [Hn _]. set_solver.
      * destruct l2 as [|b l2]; [done|]. cbn [head]. by rewrite last_app_cons, last_cons_cons.
    + intros x. rewrite Hh2. rewrite Hh1. destruct (decide (x = item)) as [->|Hne].
      2:{ rewrite lookup_insert_ne by congruence. destruct (decide (head l2 = Some x)) as [Hx|]; [|done].
          rewrite decide_False; [done|]. intros Hy%last_Some_elem_of. apply NoDup_app in Hnd as (_ & Hd & _).
          apply (Hd x Hy). destruct l2; set_solver. }
      apply not_elem_of_app in Hnin as [Hn1 Hn2]. rewrite lookup_insert_eq.
      rewrite !(decide_False (P := head l2 = Some item)) by (destruct l2; set_solver).
      rewrite !(decide_False (P := last l1 = Some item)) by (by intros Hx%last_Some_elem_of). done.
  - intros x Hx. rewrite Hh2, Hh1, !decide_False, lookup_insert_ne; [done|set_solver|..].
    + intros Hy%last_Some_elem_of. set_solver.
    + destruct l2; set_solver.
Qed.

(** [nn_list_erase]: the item is taken out, and the one after it is answered. *)
Lemma lrep_erase h h' self l1 l2 item :
  lrep h self (l1 ++ item :: l2) →
  (∀ x, x ≠ item → h' !! x = if decide (head l2 = Some x) then set_prev (Link (last l1)) <$> h !! x else
    if decide (last l1 = Some x) then set_next (Link (head l2)) <$> h !! x else h !! x) →
  lrep h' (List (head (l1 ++ l2)) (last (l1 ++ l2))) (l1 ++ l2).
Proof.
  intros (Hnd & _ & _ & Hl) Hh'.
  assert (NoDup (item :: l1 ++ l2)) as [Hnin Hnd']%NoDup_cons by by rewrite Permutation_middle.
  apply NoDup_app in Hnd' as Hnd2. destruct Hnd2 as (Hnd1 & Hdis & Hnd2).
  split_and!; [done..|]. intros a x b E.
  assert (x ≠ item) as Hne by (intros ->; apply Hnin; rewrite E; set_solver).
  rewrite (Hh' x Hne).
  assert (∀ y, head l2 = Some y → y ∈ l2) as Hhd by (intros y; destruct l2; set_solver).
  assert ((∃ c, l1 = a ++ x :: c ∧ b = c ++ l2) ∨ (∃ c, l2 = c ++ x :: b ∧ a = l1 ++ c)) as [(c & -> & ->)|(c & -> & ->)].
  { clear -E. revert a E. induction l1 as [|y l1 IH]; intros a E.
    - right. by exists a.
    - destruct a as [|z a]; simplify_eq/=; [left; by exists l1|].
      destruct (IH _ ltac:(eassumption)) as [(c & -> & ->)|(c & -> & ->)]; [left|right]; by exists c. }
  - rewrite decide_False by (intros Hx%Hhd; apply (Hdis x); set_solver).
    rewrite <-app_assoc in Hl. rewrite (Hl a x (c ++ item :: l2) eq_refl).
    destruct c as [|y c]; cbn [head app].
    + rewrite decide_True by apply last_snoc. done.
    + by rewrite decide_False by (intros Hx; apply last_at in Hx; done).
  - rewrite (decide_False (P := last l1 = Some x)) by
      (intros Hx%last_Some_elem_of; apply (Hdis x); [done|set_solver]).
    rewrite app_comm_cons, app_assoc in Hl. rewrite (Hl (l1 ++ item :: c) x b eq_refl), last_app_cons, last_cons, last_app.
    destruct (decide (head (c ++ x :: b) = Some x)) as [Hx|Hx].
    + apply head_at in Hx as ->; done.
    + destruct c as [|y c]; [done|]. rewrite last_cons. by destruct (last c).
Qed.

Lemma nn_list_erase_spec h self l1 l2 item :
  lrep h self (l1 ++ item :: l2) →
  ∃ h' self', nn_list_erase h self item = Some (h', self', head l2) ∧ lrep h' self' (l1 ++ l2) ∧
    h' !! item = Some (Item NotInList NotInList) ∧ ∀ x, x ∉ l1 ++ item :: l2 → h' !! x = h !! x.
Proof.
  intros Hr. pose proof Hr as (Hnd & Hf & Hla & Hl). unfold nn_list_erase.
  rewrite (lrep_item _ _ _ item Hr) by set_solver. cbn [mbind option_bind negb].
  rewrite (Hl l1 item l2 eq_refl). cbn [mbind option_bind i_prev i_next].
  assert (NoDup (item :: l1 ++ l2)) as [Hnin Hnd']%NoDup_cons by by rewrite Permutation_middle.
  apply not_elem_of_app in Hnin as [Hn1 Hn2].
  destruct (follow_spec (last l1) (set_next (Link (head l2))) h) as (h1 & -> & Hh1).
  { intros p (l & ->)%last_Some. rewrite <-app_assoc in Hl. by rewrite (Hl _ _ _ eq_refl). }
  cbn [mbind option_bind].
  destruct (follow_spec (head l2) (set_prev (Link (last l1))) h1) as (h2 & -> & Hh2).
  { intros p Hx. rewrite Hh1. destruct l2 as [|y l2]; [done|]. simplify_eq/=.
    rewrite decide_False; [|intros Hx%last_Some_elem_of; apply NoDup_app in Hnd' as (_ & Hd & _); apply (Hd p); [done|by left]].
    by rewrite (Hl (l1 ++ [item]) p l2) by by rewrite <-app_assoc. }
  cbn [mbind option_bind]. eexists _, _. split; [done|]. split_and!.
  - match goal with |- lrep _ ?s _ => assert (s = List (head (l1 ++ l2)) (last (l1 ++ l2))) as -> end.
    + rewrite last_app_cons in Hla. rewrite last_app.
      destruct l1 as [|a l1], l2 as [|b l2]; cbn [app head] in *; rewrite ?app_nil_r, ?last_cons_cons in *.
      * done.
      * rewrite Hla, last_cons. by destruct (last l2).
      * rewrite last_cons. by destruct (last l1); cbn; rewrite Hf.
      * rewrite (last_cons a). rewrite (last_cons b) in *. destruct self as [f l]. cbn in *. subst.
        by destruct (last l1), (last l2).
    + apply (lrep_erase h _ self l1 l2 item Hr). intros x Hne. rewrite lookup_insert_ne, Hh2, Hh1 by congruence.
      destruct (decide (head l2 = Some x)) as [Hx|]; [|done].
      rewrite decide_False; [done|]. intros Hy%last_Some_elem_of. apply NoDup_app in Hnd' as (_ & Hd & _).
      apply (Hd x Hy). destruct l2; set_solver.
  - by rewrite lookup_insert_eq.
  - intros x Hx. rewrite lookup_insert_ne, Hh2, Hh1, !decide_False; [done|..|set_solver].
    + intros Hy%last_Some_elem_of. set_solver.
    + destruct l2; set_solver.
Qed.
