(* ===== verification/NnPrio.v ===== *)
(** * The prioritised lists of pipes of nanomsg

    [nanomsg-1.0.0/src/protocols/utils/priolist.c]: sixteen circles of pipes, one for
    each priority.  A data of a pipe and its item have the same address here:
    [nn_cont] is the identity. *)

From S2P Require Import Prelude NnList.
From stdpp Require Import base numbers list gmap.
#[local] Open Scope Z_scope.

Definition NN_PRIOLIST_SLOTS : nat := 16.

Record nn_priolist_data := Data { d_pipe : Z; d_priority : Z }.
Record nn_priolist_slot := Slot { s_pipes : nn_list; s_current : option Z }.

(** A priority list, with the store of the data that are in it. *)
Record nn_priolist := Prio {
  p_items : gmap Z nn_list_item;
  p_datas : gmap Z nn_priolist_data;
  p_slots : list nn_priolist_slot;
  p_current : Z
}.

(** [slots [i]] for an index of C. *)
Definition slot_at (self : nn_priolist) (i : Z) : option nn_priolist_slot :=
  if decide (0 ≤ i) then p_slots self !! Z.to_nat i else None.

Definition set_slot (self : nn_priolist) (h : gmap Z nn_list_item) (i : Z) (s : nn_priolist_slot) : nn_priolist :=
  Prio h (p_datas self) (<[Z.to_nat i := s]> (p_slots self)) (p_current self).

Definition set_current (self : nn_priolist) (c : Z) : nn_priolist :=
  Prio (p_items self) (p_datas self) (p_slots self) c.

Definition nn_priolist_init (h : gmap Z nn_list_item) (ds : gmap Z nn_priolist_data) : nn_priolist :=
  Prio h ds (replicate NN_PRIOLIST_SLOTS (Slot nn_list_init None)) (-1).

Definition nn_priolist_term (self : nn_priolist) : option unit :=
  foldr (λ s k, nn_list_term (s_pipes s) ≫= λ _, k) (Some tt) (p_slots self).

Definition nn_priolist_add (self : nn_priolist) (data pipe priority : Z) : nn_priolist :=
  Prio (nn_list_item_init (p_items self) data) (<[data := Data pipe priority]> (p_datas self))
    (p_slots self) (p_current self).

(** The loops of [nn_priolist_rm] and [nn_priolist_advance]: down to the first slot
    with a pipe. *)
Fixpoint lower_slot (fuel : nat) (self : nn_priolist) : option nn_priolist :=
  match fuel with
  | O => None
  | S fuel =>
      slot ← slot_at self (p_current self - 1);
      if decide (nn_list_empty (s_pipes slot) = 0) then Some self else
      let self := set_current self (p_current self + 1) in
      if decide (p_current self > Z.of_nat NN_PRIOLIST_SLOTS) then Some (set_current self (-1)) else lower_slot fuel self
  end.

Definition nn_priolist_rm (self : nn_priolist) (data : Z) : option nn_priolist :=
  b ← nn_list_item_isinlist (p_items self) data;
  if negb b then _ ← nn_list_item_term (p_items self) data; Some self else
  d ← p_datas self !! data;
  slot ← slot_at self (d_priority d - 1);
  '(h, pipes, it) ← nn_list_erase (p_items self) (s_pipes slot) data;
  _ ← nn_list_item_term h data;
  if decide (s_current slot ≠ Some data) then Some (set_slot self h (d_priority d - 1) (Slot pipes (s_current slot))) else
  let cur := match it with None => nn_list_begin pipes | Some _ => it end in
  let self := set_slot self h (d_priority d - 1) (Slot pipes cur) in
  if decide (p_current self ≠ d_priority d) then Some self else
  lower_slot (S NN_PRIOLIST_SLOTS) self.

Definition nn_priolist_activate (self : nn_priolist) (data : Z) : option nn_priolist :=
  d ← p_datas self !! data;
  slot ← slot_at self (d_priority d - 1);
  '(h, pipes) ← nn_list_insert (p_items self) (s_pipes slot) data nn_list_end;
  if decide (nn_list_empty (s_pipes slot) = 0) then Some (set_slot self h (d_priority d - 1) (Slot pipes (s_current slot))) else
  let self := set_slot self h (d_priority d - 1) (Slot pipes (Some data)) in
  if decide (p_current self = -1) then Some (set_current self (d_priority d)) else
  if decide (p_current self > d_priority d) then Some (set_current self (d_priority d)) else
  Some self.

Definition nn_priolist_is_active (self : nn_priolist) : Z := if decide (p_current self = -1) then 0 else 1.

(** [None]: a pointer that is none is followed; [Some None]: [NULL]. *)
Definition nn_priolist_getpipe (self : nn_priolist) : option (option Z) :=
  if decide (p_current self = -1) then Some None else
  slot ← slot_at self (p_current self - 1);
  cur ← s_current slot;
  d ← p_datas self !! cur;
  Some (Some (d_pipe d)).

Definition nn_priolist_advance (self : nn_priolist) (release : Z) : option nn_priolist :=
  if decide (p_current self > 0) then
    slot ← slot_at self (p_current self - 1);
    cur ← s_current slot;
    '(h, pipes, it) ←
      (if decide (release ≠ 0) then nn_list_erase (p_items self) (s_pipes slot) cur
       else it ← nn_list_next (p_items self) cur; Some (p_items self, s_pipes slot, it));
    let it := match it with None => nn_list_begin pipes | Some _ => it end in
    lower_slot (S NN_PRIOLIST_SLOTS) (set_slot self h (p_current self - 1) (Slot pipes it))
  else None.

Definition nn_priolist_get_priority (self : nn_priolist) : Z := p_current self.
