(* ===== verification/NnPrioSpec.v ===== *)
(** * What the prioritised lists promise

    Each priority is a circle, given by the pipes already passed in this round and
    those still to come; the current pipe is the first to come of the first priority
    that has any. *)

From S2P Require Import Prelude NnList NnPrio.
From stdpp Require Import base numbers list gmap.
#[local] Open Scope Z_scope.

Notation level := (list Z * list Z)%type.
Definition seq_of (l : level) : list Z := l.1 ++ l.2.

(** When no pipe is left to come, a new round begins. *)
Definition norm (l : level) : level := match l.2 with [] => ([], l.1) | _ => l end.

Definition lvl_activate (x : Z) (l : level) : level := (l.1, l.2 ++ [x]).
Definition lvl_remove (x : Z) (l : level) : level := norm (filter (.≠ x) l.1, filter (.≠ x) l.2).
Definition lvl_advance (release : Z) (l : level) : level :=
  match l.2 with
  | [] => l
  | c :: td => norm (if decide (release ≠ 0) then l.1 else l.1 ++ [c], td)
  end.

(** The first priority with a pipe, from 0. *)
Definition first_level (ls : list level) : option nat := fst <$> list_find (λ l, l.2 ≠ []) ls.
Definition cur_of (ls : list level) : Z := match first_level ls with None => -1 | Some i => Z.of_nat i + 1 end.
Definition current_of (ls : list level) : option Z := i ← first_level ls; l ← ls !! i; head (l.2).

(** ** The representation *)

Record prep0 (h : gmap Z nn_list_item) (ds : gmap Z nn_priolist_data) (slots : list nn_priolist_slot) (ls : list level) : Prop := {
  len_slots : length slots = NN_PRIOLIST_SLOTS;
  len_levels : length ls = NN_PRIOLIST_SLOTS;
  slot_ok : ∀ i s l, slots !! i = Some s → ls !! i = Some l →
    lrep h (s_pipes s) (seq_of l) ∧ s_current s = head l.2 ∧ (l.2 = [] → l.1 = []);
  in_level : ∀ i l x, ls !! i = Some l → x ∈ seq_of l → ∃ d, ds !! x = Some d ∧ d_priority d = Z.of_nat i + 1;
  data_ok : ∀ x d, ds !! x = Some d → 1 ≤ d_priority d ≤ Z.of_nat NN_PRIOLIST_SLOTS;
  idle : ∀ x d, ds !! x = Some d → (∀ i l, ls !! i = Some l → x ∉ seq_of l) → h !! x = Some (Item NotInList NotInList)
}.

Definition prep (self : nn_priolist) (ls : list level) : Prop :=
  prep0 (p_items self) (p_datas self) (p_slots self) ls ∧ p_current self = cur_of ls.

(** An item of a data that is in no circle of its own priority is in none. *)
Lemma level_of h ds slots ls i l x d :
  prep0 h ds slots ls → ls !! i = Some l → ds !! x = Some d → x ∈ seq_of l → d_priority d = Z.of_nat i + 1.
Proof. intros P Hi Hd Hx. destruct (in_level _ _ _ _ P _ _ _ Hi Hx) as (d' & ? & ?). by simplify_eq. Qed.

(** A slot and its circle change, and no item of another circle does. *)
Lemma prep0_slot h h' ds slots ls i l l' pipes cur :
  prep0 h ds slots ls → ls !! i = Some l →
  lrep h' pipes (seq_of l') → cur = head l'.2 → (l'.2 = [] → l'.1 = []) →
  (∀ x, x ∈ seq_of l' → ∃ d, ds !! x = Some d ∧ d_priority d = Z.of_nat i + 1) →
  (∀ x, x ∈ seq_of l → x ∉ seq_of l' → h' !! x = Some (Item NotInList NotInList)) →
  (∀ x, x ∉ seq_of l → x ∉ seq_of l' → h' !! x = h !! x) →
  prep0 h' ds (<[i := Slot pipes cur]> slots) (<[i := l']> ls).
Proof.
  intros P Hi Hr Hc Hn Hin Hout Hframe.
  assert ((i < length ls)%nat) as Hlt by by eapply lookup_lt_Some.
  pose proof (len_slots _ _ _ _ P) as E1. pose proof (len_levels _ _ _ _ P) as E2.
  split; [by rewrite length_insert..| | |exact (data_ok _ _ _ _ P)|].
  - intros j s m Hs Hm. destruct (decide (j = i)) as [->|Hne].
    + rewrite list_lookup_insert_eq in Hs by lia. rewrite list_lookup_insert_eq in Hm by lia. by simplify_eq/=.
    + rewrite list_lookup_insert_ne in Hs by done. rewrite list_lookup_insert_ne in Hm by done.
      destruct (slot_ok _ _ _ _ P _ _ _ Hs Hm) as (Hl & ? & ?). split_and!; [|done..].
      apply (lrep_frame h); [done|]. intros x Hx. destruct (in_level _ _ _ _ P _ _ _ Hm Hx) as (d & Hd & Hp).
      apply Hframe.
      * intros Hx'. destruct (in_level _ _ _ _ P _ _ _ Hi Hx') as (d' & Hd' & Hp'). simplify_eq. lia.
      * intros Hx'. destruct (Hin _ Hx') as (d' & Hd' & Hp'). simplify_eq. lia.
  - intros j m x Hm Hx. destruct (decide (j = i)) as [->|Hne].
    + rewrite list_lookup_insert_eq in Hm by lia. simplify_eq. by apply Hin.
    + rewrite list_lookup_insert_ne in Hm by done. by apply (in_level _ _ _ _ P _ _ _ Hm).
  - intros x d Hd Hno. pose proof (Hno i l' ltac:(apply list_lookup_insert_eq; lia)) as Hx'.
    destruct (decide (x ∈ seq_of l)) as [Hx|Hx]; [by apply Hout|].
    rewrite Hframe by done. apply (idle _ _ _ _ P _ _ Hd). intros j m Hm.
    destruct (decide (j = i)) as [->|Hne]; [by simplify_eq|].
    apply (Hno j). by rewrite list_lookup_insert_ne.
Qed.

(** ** The first slot with a pipe *)

Lemma cur_of_spec ls i : first_level ls = Some i ↔
  (∃ l, ls !! i = Some l ∧ l.2 ≠ []) ∧ ∀ j l, (j < i)%nat → ls !! j = Some l → l.2 = [].
Proof.
  unfold first_level. rewrite fmap_Some. split.
  - intros ((k & l) & Hf & ->). apply list_find_Some in Hf as (Hl & Hn & Hlt). cbn. split; [by exists l|].
    intros j m Hj Hm. destruct (decide (m.2 = [])) as [|Hm']; [done|]. by destruct (Hlt _ _ Hm Hj).
  - intros ((l & Hl & Hn) & Hlt). exists (i, l). split; [|done]. apply list_find_Some. split_and!; [done..|].
    intros j m Hm Hj. intros []. by apply (Hlt j).
Qed.

Lemma cur_of_none ls : first_level ls = None ↔ ∀ j l, ls !! j = Some l → l.2 = [].
Proof.
  unfold first_level. rewrite fmap_None, list_find_None, Forall_lookup. split.
  - intros H j l Hl. specialize (H j l Hl). cbn in H. by apply dec_stable.
  - intros H j l Hl []. by apply (H j).
Qed.

Lemma empty_slot h ds slots ls i s l : prep0 h ds slots ls → slots !! i = Some s → ls !! i = Some l →
  (nn_list_empty (s_pipes s) = 0 ↔ l.2 ≠ []).
Proof.
  intros P Hs Hl. destruct (slot_ok _ _ _ _ P _ _ _ Hs Hl) as ((_ & Hf & _) & _ & Hn). unfold nn_list_empty. rewrite Hf.
  destruct l as [dn [|c td]]; cbn in *; [rewrite (Hn eq_refl); done|]. destruct dn; done.
Qed.

Lemma lower_slot_spec fuel self ls c :
  prep0 (p_items self) (p_datas self) (p_slots self) ls → p_current self = Z.of_nat c + 1 →
  (c < NN_PRIOLIST_SLOTS)%nat → (NN_PRIOLIST_SLOTS - c < fuel)%nat → (∀ j l, (j < c)%nat → ls !! j = Some l → l.2 = []) →
  lower_slot fuel self = Some (set_current self (cur_of ls)).
Proof.
  revert self c. induction fuel as [|fuel IH]; intros self c P Hc Hlt Hf Hbefore; [lia|].
  cbn [lower_slot]. unfold slot_at. rewrite Hc, (decide_True (P := 0 ≤ _)) by lia. replace (Z.to_nat (Z.of_nat c + 1 - 1)) with c by lia.
  destruct (lookup_lt_is_Some_2 (p_slots self) c) as [s Hs]; [by rewrite (len_slots _ _ _ _ P)|].
  destruct (lookup_lt_is_Some_2 ls c) as [l Hl]; [by rewrite (len_levels _ _ _ _ P)|].
  rewrite Hs. cbn [mbind option_bind]. destruct (decide _) as [He|He]; rewrite (empty_slot _ _ _ _ _ _ _ P Hs Hl) in He.
  - unfold cur_of. rewrite (proj2 (cur_of_spec ls c)) by (split; [by exists l|done]). rewrite <-Hc. by destruct self.
  - assert (∀ j m, (j < S c)%nat → ls !! j = Some m → m.2 = []) as Hb.
    { intros j m Hj Hm. destruct (decide (j = c)) as [->|]; [|apply (Hbefore j); [lia|done]]. simplify_eq.
      apply dec_stable. intros Hm'. by apply He. }
    destruct (decide _) as [Hb'|Hb'].
    + unfold cur_of. rewrite (proj2 (cur_of_none ls)); [done|]. intros j m Hm. apply (Hb j); [|done].
      apply lookup_lt_Some in Hm. rewrite (len_levels _ _ _ _ P) in Hm. unfold NN_PRIOLIST_SLOTS in *. cbn in Hb'. lia.
    + rewrite (IH _ (S c)); [done|done|cbn [p_current set_current]; lia|unfold NN_PRIOLIST_SLOTS in *; cbn [p_current set_current] in *; lia|lia|done].
Qed.

Lemma first_same ls i l l' : ls !! i = Some l → (l'.2 = [] ↔ l.2 = []) → first_level (<[i := l']> ls) = first_level ls.
Proof.
  intros Hi He. assert ((i < length ls)%nat) as Hlt by by eapply lookup_lt_Some.
  destruct (first_level ls) as [c|] eqn:E.
  - apply cur_of_spec in E as [(m & Hm & Hn) Hb]. apply cur_of_spec. split.
    + destruct (decide (c = i)) as [->|]; [|rewrite list_lookup_insert_ne by done; by exists m].
      exists l'. rewrite list_lookup_insert_eq by done. split; [done|]. simplify_eq. tauto.
    + intros j k Hj Hk. destruct (decide (j = i)) as [->|]; [|rewrite list_lookup_insert_ne in Hk by done; by apply (Hb j)].
      rewrite list_lookup_insert_eq in Hk by done. simplify_eq. apply He. by apply (Hb i).
  - rewrite cur_of_none in E. apply cur_of_none. intros j k Hk.
    destruct (decide (j = i)) as [->|]; [|rewrite list_lookup_insert_ne in Hk by done; by apply (E j)].
    rewrite list_lookup_insert_eq in Hk by done. simplify_eq. apply He. by apply (E i).
Qed.

Lemma first_new ls i l l' : ls !! i = Some l → l.2 = [] → l'.2 ≠ [] →
  first_level (<[i := l']> ls) = Some (match first_level ls with None => i | Some c => Nat.min i c end).
Proof.
  intros Hi He Hn. assert ((i < length ls)%nat) as Hlt by by eapply lookup_lt_Some.
  apply cur_of_spec. destruct (first_level ls) as [c|] eqn:E.
  - apply cur_of_spec in E as [(m & Hm & Hnm) Hb].
    assert (c ≠ i) as Hne by (intros ->; simplify_eq; done). split.
    + destruct (decide (i < c)%nat).
      * rewrite Nat.min_l by lia. exists l'. by rewrite list_lookup_insert_eq.
      * rewrite Nat.min_r by lia. exists m. by rewrite list_lookup_insert_ne.
    + intros j k Hj Hk. rewrite list_lookup_insert_ne in Hk by lia. apply (Hb j); [lia|done].
  - rewrite cur_of_none in E. split; [exists l'; by rewrite list_lookup_insert_eq|].
    intros j k Hj Hk. rewrite list_lookup_insert_ne in Hk by lia. by apply (E j).
Qed.

(** The slot and the circle of a data. *)
Lemma slot_of self ls data d :
  prep0 (p_items self) (p_datas self) (p_slots self) ls → p_datas self !! data = Some d →
  ∃ i s l, d_priority d = Z.of_nat i + 1 ∧ Z.to_nat (d_priority d - 1) = i ∧
    slot_at self (d_priority d - 1) = Some s ∧ p_slots self !! i = Some s ∧ ls !! i = Some l.
Proof.
  intros P Hd. pose proof (data_ok _ _ _ _ P _ _ Hd) as Hp. exists (Z.to_nat (d_priority d - 1)).
  destruct (lookup_lt_is_Some_2 (p_slots self) (Z.to_nat (d_priority d - 1))) as [s Hs];
    [rewrite (len_slots _ _ _ _ P); lia|].
  destruct (lookup_lt_is_Some_2 ls (Z.to_nat (d_priority d - 1))) as [l Hl]; [rewrite (len_levels _ _ _ _ P); lia|].
  exists s, l. unfold slot_at. rewrite decide_True by lia. split_and!; [lia|done..].
Qed.

Definition spec_activate (ds : gmap Z nn_priolist_data) (x : Z) (ls : list level) : list level :=
  match ds !! x with Some d => alter (lvl_activate x) (Z.to_nat (d_priority d - 1)) ls | None => ls end.

Definition inactive (ls : list level) (x : Z) : Prop := ∀ i l, ls !! i = Some l → x ∉ seq_of l.

Lemma list_alter_insert {A} (f : A → A) (ls : list A) i l : ls !! i = Some l → alter f i ls = <[i := f l]> ls.
Proof. intros H. apply list_eq. intros j. destruct (decide (j = i)) as [->|].
  - rewrite list_lookup_alter_eq, H, list_lookup_insert_eq; [done|by eapply lookup_lt_Some].
  - by rewrite list_lookup_alter_ne, list_lookup_insert_ne.
Qed.

Lemma activate_spec self ls data :
  prep self ls → is_Some (p_datas self !! data) → inactive ls data →
  ∃ self', nn_priolist_activate self data = Some self' ∧ p_datas self' = p_datas self ∧
    prep self' (spec_activate (p_datas self) data ls).
Proof.
  intros [P Hc] [d Hd] Hina. destruct (slot_of self ls data d P Hd) as (i & s & l & Hp & Hi & Hs & Hsi & Hl).
  unfold nn_priolist_activate, spec_activate. rewrite Hd, Hi, (list_alter_insert _ _ _ _ Hl). cbn [mbind option_bind]. rewrite Hs. cbn [mbind option_bind].
  destruct (slot_ok _ _ _ _ P _ _ _ Hsi Hl) as (Hr & Hcur & Hn).
  pose proof (idle _ _ _ _ P _ _ Hd Hina) as Hit. rewrite <-(app_nil_r (seq_of l)) in Hr.
  destruct (nn_list_insert_spec _ _ _ _ data _ Hr Hit eq_refl) as (h' & pipes & Hins & Hr' & Hfr).
  { rewrite app_nil_r. by apply (Hina i). }
  cbn [head] in Hins. unfold nn_list_end. rewrite Hins. cbn [mbind option_bind].
  assert (∀ cur, cur = head (l.2 ++ [data]) →
    prep0 h' (p_datas self) (<[i := Slot pipes cur]> (p_slots self)) (<[i := lvl_activate data l]> ls)) as P'.
  { intros cur Hcu. apply (prep0_slot (p_items self) _ _ _ _ _ l); try done.
    - unfold seq_of, lvl_activate. cbn. by rewrite app_assoc.
    - unfold lvl_activate. cbn. by destruct (l.2).
    - unfold seq_of, lvl_activate. cbn. intros x. rewrite !elem_of_app, list_elem_of_singleton.
      intros [Hx|[Hx| ->]]; [..|by exists d]; apply (in_level _ _ _ _ P _ _ _ Hl); unfold seq_of; set_solver.
    - unfold seq_of, lvl_activate. cbn. set_solver.
    - unfold seq_of, lvl_activate in *. cbn. intros x Hx Hx'. apply Hfr. set_solver. }
  assert ((nn_list_empty (s_pipes s) = 0 ↔ l.2 ≠ [])) as He by by eapply empty_slot.
  destruct (decide (nn_list_empty (s_pipes s) = 0)) as [E|E]; rewrite He in E.
  - eexists. split; [done|]. split; [done|]. unfold set_slot. rewrite Hi. split; [apply P'|].
    + rewrite Hcur. by destruct (l.2).
    + cbn. rewrite Hc. unfold cur_of. rewrite (first_same _ _ l); [done..|]. unfold lvl_activate. cbn. by destruct (l.2).
  - assert (l.2 = []) as E' by (apply dec_stable; intros Hx; by apply E).
    assert (cur_of (<[i := lvl_activate data l]> ls) = match first_level ls with None => Z.of_nat i + 1 | Some c => Z.of_nat (Nat.min i c) + 1 end) as Hcu.
    { unfold cur_of. rewrite (first_new _ _ l); [|done..|unfold lvl_activate; cbn; by destruct (l.2)]. by destruct (first_level ls). }
    assert (head (l.2 ++ [data]) = Some data) as Hh by by rewrite E'.
    unfold set_slot. cbn [p_current]. rewrite Hi, Hp, Hc. unfold cur_of in Hc |- *.
    destruct (first_level ls) as [c|].
    + rewrite decide_False by lia. destruct (decide _); (eexists; split; [done|]; split; [done|]; split; [apply P'; done|]); cbn [p_current set_current].
      * fold (cur_of (<[i:=lvl_activate data l]> ls)). rewrite Hcu. lia.
      * fold (cur_of (<[i:=lvl_activate data l]> ls)). rewrite Hcu. lia.
    + rewrite decide_True by done. eexists; split; [done|]; split; [done|]; split; [apply P'; done|].
      cbn [p_current set_current]. fold (cur_of (<[i:=lvl_activate data l]> ls)). by rewrite Hcu.
Qed.

(** ** Removing and advancing *)

Definition spec_rm (ds : gmap Z nn_priolist_data) (x : Z) (ls : list level) : list level :=
  match ds !! x with Some d => alter (lvl_remove x) (Z.to_nat (d_priority d - 1)) ls | None => ls end.

Definition spec_advance (release : Z) (ls : list level) : list level :=
  match first_level ls with Some i => alter (lvl_advance release) i ls | None => ls end.

Lemma seq_of_norm l : seq_of (norm l) = seq_of l.
Proof. destruct l as [dn [|c td]]; [|done]. unfold seq_of. cbn. by rewrite app_nil_r. Qed.

Lemma norm_nil l : (norm l).2 = [] → (norm l).1 = [].
Proof. by destruct l as [dn [|c td]]. Qed.

Lemma filter_out (x : Z) (xs : list Z) : x ∉ xs → filter (.≠ x) xs = xs.
Proof.
  induction xs as [|y xs IH]; intros Hx; [done|]. rewrite filter_cons, decide_True by set_solver.
  f_equal. apply IH. set_solver.
Qed.

Lemma filter_split (x : Z) (a b : list Z) : NoDup (a ++ x :: b) → filter (.≠ x) (a ++ x :: b) = a ++ b.
Proof.
  intros Hnd. assert (NoDup (x :: a ++ b)) as [Hx _]%NoDup_cons by by rewrite Permutation_middle.
  rewrite filter_app, filter_cons, decide_False by tauto. rewrite !filter_out by set_solver. done.
Qed.

Lemma seq_of_remove x l : seq_of (lvl_remove x l) = filter (.≠ x) (seq_of l).
Proof. unfold lvl_remove. rewrite seq_of_norm. unfold seq_of. cbn. by rewrite filter_app. Qed.

Lemma first_other ls c i l' : first_level ls = Some c → (c < i)%nat → first_level (<[i := l']> ls) = Some c.
Proof.
  intros [(m & Hm & Hn) Hb]%cur_of_spec Hlt. apply cur_of_spec. split.
  - exists m. by rewrite list_lookup_insert_ne by lia.
  - intros j k Hj Hk. rewrite list_lookup_insert_ne in Hk by lia. by apply (Hb j).
Qed.

(** The item is taken out of its circle, and the slot gets a current pipe. *)
Lemma prep0_erase self ls i l a data b h' pipes :
  prep0 (p_items self) (p_datas self) (p_slots self) ls → ls !! i = Some l → seq_of l = a ++ data :: b →
  lrep h' pipes (a ++ b) → h' !! data = Some (Item NotInList NotInList) →
  (∀ x, x ∉ a ++ data :: b → h' !! x = p_items self !! x) →
  ∀ l' cur, seq_of l' = a ++ b → cur = head l'.2 → (l'.2 = [] → l'.1 = []) →
  prep0 h' (p_datas self) (<[i := Slot pipes cur]> (p_slots self)) (<[i := l']> ls).
Proof.
  intros P Hl E Hr Hd Hfr l' cur E' Hcur Hn.
  apply (prep0_slot (p_items self) _ _ _ _ _ l); [done|done|by rewrite E'|done|done|..].
  - intros x. rewrite E'. intros Hx. apply (in_level _ _ _ _ P _ _ _ Hl). rewrite E. set_solver.
  - intros x. rewrite E, E'. intros Hx Hx'. assert (x = data) as -> by set_solver. done.
  - intros x. rewrite E. intros Hx _. by apply Hfr.
Qed.

Lemma rm_spec self ls data :
  prep self ls → is_Some (p_datas self !! data) →
  ∃ self', nn_priolist_rm self data = Some self' ∧ p_datas self' = p_datas self ∧
    prep self' (spec_rm (p_datas self) data ls).
Proof.
  intros [P Hc] [d Hd]. destruct (slot_of self ls data d P Hd) as (i & s & l & Hp & Hi & Hs & Hsi & Hl).
  destruct (slot_ok _ _ _ _ P _ _ _ Hsi Hl) as (Hr & Hcur & Hn).
  unfold nn_priolist_rm, spec_rm. remember (S NN_PRIOLIST_SLOTS) as fuel eqn:Hfuel. rewrite Hd, Hi, (list_alter_insert _ _ _ _ Hl).
  destruct (decide (data ∈ seq_of l)) as [Hin|Hnin].
  2:{ assert (p_items self !! data = Some (Item NotInList NotInList)) as Hit.
      { apply (idle _ _ _ _ P _ _ Hd). intros j m Hm Hx. pose proof (level_of _ _ _ _ _ _ _ _ P Hm Hd Hx).
        assert (j = i) as -> by lia. by simplify_eq. }
      unfold nn_list_item_term, nn_list_item_isinlist. rewrite Hit. cbn. eexists. split; [done|]. split; [done|].
      rewrite list_insert_id; [done|]. rewrite Hl. f_equal. unfold lvl_remove. rewrite !filter_out by (unfold seq_of in *; set_solver).
      destruct l as [dn [|c td]]; [|done]. cbn in *. by rewrite Hn. }
  apply list_elem_of_split in Hin as (a & b & E). rewrite E in Hr.
  rewrite (lrep_item _ _ _ data Hr) by set_solver. cbn [mbind option_bind negb]. rewrite Hs. cbn [mbind option_bind].
  pose proof Hr as (Hnd & _).
  destruct (nn_list_erase_spec _ _ _ _ _ Hr) as (h' & pipes & -> & Hr' & Hdat & Hfr). cbn [mbind option_bind].
  unfold nn_list_item_term at 1, nn_list_item_isinlist. rewrite Hdat. cbn [mbind option_bind i_prev bool_decide].
  rewrite bool_decide_eq_false_2 by tauto. cbn [mbind option_bind].
  pose proof (prep0_erase self ls i l a data b h' pipes P Hl E Hr' Hdat Hfr) as P'.
  assert (seq_of (lvl_remove data l) = a ++ b) as E' by by rewrite seq_of_remove, E, filter_split.
  specialize (λ cur Hcu, P' (lvl_remove data l) cur E' Hcu (norm_nil _)).
  destruct l as [dn td]. unfold seq_of in E. cbn [fst snd] in *.
  destruct td as [|c td]; [rewrite (Hn eq_refl) in E; by destruct a|]. cbn in Hcur. rewrite Hcur.
  destruct (decide (Some c ≠ Some data)) as [Hne|Heq].
  - assert ((lvl_remove data (dn, c :: td)).2 = c :: filter (.≠ data) td) as E2.
    { unfold lvl_remove. cbn [fst snd]. rewrite filter_cons, decide_True by congruence. done. }
    eexists. split; [done|]. split; [done|]. unfold set_slot. rewrite Hi. split; cbn [p_items p_datas p_slots p_current].
    + apply P'. by rewrite E2.
    + rewrite Hc. unfold cur_of. rewrite (first_same _ _ (dn, c :: td)); [done..|]. by rewrite E2.
  - assert (c = data) as -> by (apply dec_stable; intros Hx; apply Heq; congruence).
    destruct (split_unique _ _ _ _ _ (eq_ind_r NoDup Hnd E) E) as [-> ->].
    assert (lvl_remove data (a, data :: b) = norm (a, b)) as E2.
    { unfold lvl_remove. cbn [fst snd]. rewrite filter_cons, decide_False by tauto.
      assert (NoDup (data :: a ++ b)) as [Hx _]%NoDup_cons by by rewrite Permutation_middle.
      rewrite !filter_out by set_solver. done. }
    assert (match head b with Some _ => head b | None => nn_list_begin pipes end = head (lvl_remove data (a, data :: b)).2) as ->.
    { rewrite E2. destruct b as [|y b]; [|done]. destruct Hr' as (_ & Hf & _). cbn. unfold nn_list_begin. by rewrite Hf, app_nil_r. }
    unfold set_slot. rewrite Hi. cbn [p_current]. rewrite Hc, Hp.
    destruct (decide _) as [Hne|He].
    + eexists. split; [done|]. split; [done|]. split; [by apply P'|]. cbn [p_current]. unfold cur_of in *.
      destruct (first_level ls) as [k|] eqn:Ek.
      * rewrite (first_other _ k); [done..|]. apply cur_of_spec in Ek as [_ Hb].
        destruct (decide (i < k)%nat) as [Hlt|]; [|lia]. by specialize (Hb _ _ Hlt Hl).
      * rewrite cur_of_none in Ek. by specialize (Ek _ _ Hl).
    + erewrite (lower_slot_spec _ _ (<[i:=lvl_remove data (a, data :: b)]> ls) i); [eexists; split; [done|]; split; [done|]; split|..].
      * by apply P'.
      * done.
      * by apply P'.
      * cbn [p_current]. by apply dec_stable.
      * apply lookup_lt_Some in Hl. by rewrite (len_levels _ _ _ _ P) in Hl.
      * lia.
      * intros j m Hj Hm. rewrite list_lookup_insert_ne in Hm by lia. unfold cur_of in He.
        destruct (first_level ls) as [k|] eqn:Ek; [|lia]. apply cur_of_spec in Ek as [_ Hb]. apply (Hb j); [lia|done].
Qed.

Lemma getpipe_spec self ls : prep self ls →
  nn_priolist_getpipe self = match current_of ls with
                             | None => Some None
                             | Some c => d ← p_datas self !! c; Some (Some (d_pipe d))
                             end.
Proof.
  intros [P Hc]. unfold nn_priolist_getpipe, current_of. rewrite Hc. unfold cur_of in *.
  destruct (first_level ls) as [i|] eqn:E; [|done]. rewrite decide_False by lia. cbn [mbind option_bind].
  apply cur_of_spec in E as [(l & Hl & Hn) _]. rewrite Hl. cbn [mbind option_bind].
  destruct (lookup_lt_is_Some_2 (p_slots self) i) as [s Hs];
    [apply lookup_lt_Some in Hl; by rewrite (len_slots _ _ _ _ P), <-(len_levels _ _ _ _ P)|].
  unfold slot_at. rewrite decide_True by lia. replace (Z.to_nat (Z.of_nat i + 1 - 1)) with i by lia. rewrite Hs. cbn [mbind option_bind].
  destruct (slot_ok _ _ _ _ P _ _ _ Hs Hl) as (_ & -> & _). destruct l as [dn [|c td]]; [done|]. cbn.
  by destruct (p_datas self !! c).
Qed.

Lemma current_in self ls c : prep self ls → current_of ls = Some c → is_Some (p_datas self !! c).
Proof.
  intros [P _] Hc. unfold current_of in Hc. destruct (first_level ls) as [i|]; [|done]. cbn in Hc.
  destruct (ls !! i) as [[dn [|y td]]|] eqn:Hl; simplify_eq/=.
  destruct (in_level _ _ _ _ P i _ c Hl) as (d & Hd & _); [unfold seq_of; set_solver|]. by exists d.
Qed.

Lemma advance_spec self ls release :
  prep self ls → first_level ls ≠ None →
  ∃ self', nn_priolist_advance self release = Some self' ∧ p_datas self' = p_datas self ∧
    prep self' (spec_advance release ls).
Proof.
  intros [P Hc] Hf. unfold nn_priolist_advance, spec_advance. remember (S NN_PRIOLIST_SLOTS) as fuel eqn:Hfuel.
  destruct (first_level ls) as [i|] eqn:E; [|done]. unfold cur_of in Hc. rewrite E in Hc. clear Hf.
  rewrite decide_True by lia. apply cur_of_spec in E as [(l & Hl & Hn) Hb].
  destruct (lookup_lt_is_Some_2 (p_slots self) i) as [s Hs];
    [apply lookup_lt_Some in Hl; by rewrite (len_slots _ _ _ _ P), <-(len_levels _ _ _ _ P)|].
  rewrite (list_alter_insert _ _ _ _ Hl). unfold slot_at, set_slot. rewrite Hc. rewrite (decide_True (P := 0 ≤ _)) by lia.
  replace (Z.to_nat (Z.of_nat i + 1 - 1)) with i by lia. rewrite Hs. cbn [mbind option_bind].
  destruct (slot_ok _ _ _ _ P _ _ _ Hs Hl) as (Hr & Hcur & _). rewrite Hcur.
  destruct l as [dn [|c td]]; [done|]. cbn [fst snd head mbind option_bind] in *. clear Hn. unfold seq_of in Hr. cbn [fst snd] in Hr.
  assert (∃ h' pipes, (if decide (release ≠ 0) then nn_list_erase (p_items self) (s_pipes s) c
      else it ← nn_list_next (p_items self) c; Some (p_items self, s_pipes s, it)) = Some (h', pipes, head td) ∧
      nn_list_begin pipes = head (seq_of (lvl_advance release (dn, c :: td))) ∧
      ∀ cur, cur = head (lvl_advance release (dn, c :: td)).2 →
        prep0 h' (p_datas self) (<[i:=Slot pipes cur]> (p_slots self)) (<[i:=lvl_advance release (dn, c :: td)]> ls))
    as (h' & pipes & -> & Hbe & P').
  { unfold lvl_advance. cbn [fst snd]. destruct (decide (release ≠ 0)) as [Hrel|Hrel].
    - destruct (nn_list_erase_spec _ _ _ _ _ Hr) as (h' & pipes & -> & Hr' & Hdat & Hfr).
      exists h', pipes. split; [done|]. rewrite seq_of_norm. split; [by destruct Hr' as (_ & Hfi & _)|]. intros cur Hcu.
      eapply (prep0_erase self ls i (dn, c :: td) dn c td h' pipes P Hl); [done..|by rewrite seq_of_norm|done|apply norm_nil].
    - pose proof Hr as (Hnd & Hfi & _ & Hli). unfold nn_list_next. rewrite (Hli dn c td eq_refl). cbn [mbind option_bind i_next].
      exists (p_items self), (s_pipes s). split; [done|]. rewrite seq_of_norm. unfold seq_of. cbn [fst snd]. rewrite <-app_assoc.
      split; [done|]. intros cur Hcu.
      apply (prep0_slot (p_items self) _ _ _ _ _ (dn, c :: td)); try done.
      + rewrite seq_of_norm. unfold seq_of. cbn [fst snd]. by rewrite <-app_assoc.
      + apply norm_nil.
      + intros x. rewrite seq_of_norm. unfold seq_of. cbn [fst snd]. rewrite <-app_assoc. intros Hx.
        by apply (in_level _ _ _ _ P _ _ _ Hl).
      + intros x. rewrite seq_of_norm. unfold seq_of. cbn [fst snd]. rewrite <-app_assoc. done. }
  cbn [mbind option_bind].
  assert (match head td with Some _ => head td | None => nn_list_begin pipes end = head (lvl_advance release (dn, c :: td)).2) as ->.
  { rewrite Hbe. unfold lvl_advance. cbn [fst snd]. rewrite seq_of_norm. unfold norm, seq_of.
    destruct td as [|y td]; [|done]. cbn. by rewrite app_nil_r. }
  cbn [p_current].
  erewrite (lower_slot_spec _ _ (<[i:=lvl_advance release (dn, c :: td)]> ls) i);
    [eexists; split; [done|]; split; [done|]; split|..].
  - by apply P'.
  - done.
  - by apply P'.
  - done.
  - apply lookup_lt_Some in Hl. by rewrite (len_levels _ _ _ _ P) in Hl.
  - lia.
  - intros j m Hj Hm. rewrite list_lookup_insert_ne in Hm by lia. by apply (Hb j).
Qed.

Lemma add_spec self ls data pipe k :
  prep self ls → inactive ls data → 1 ≤ k ≤ Z.of_nat NN_PRIOLIST_SLOTS → prep (nn_priolist_add self data pipe k) ls.
Proof.
  intros [P Hc] Hina Hk. split; [|done]. cbn [p_items p_datas p_slots nn_priolist_add]. unfold nn_list_item_init.
  split; [apply (len_slots _ _ _ _ P)|apply (len_levels _ _ _ _ P)|..].
  - intros i s l Hs Hl. destruct (slot_ok _ _ _ _ P _ _ _ Hs Hl) as (Hr & ? & ?). split; [|done].
    apply (lrep_frame (p_items self)); [done|]. intros x Hx. apply lookup_insert_ne. intros ->. by apply (Hina i l).
  - intros i l x Hl Hx. rewrite lookup_insert_ne; [by apply (in_level _ _ _ _ P i l)|]. intros ->. by apply (Hina i l).
  - intros x d Hd. destruct (decide (x = data)) as [->|]; [rewrite lookup_insert_eq in Hd; by simplify_eq|].
    rewrite lookup_insert_ne in Hd by done. by apply (data_ok _ _ _ _ P x).
  - intros x d Hd Hx. destruct (decide (x = data)) as [->|]; [by rewrite lookup_insert_eq|].
    rewrite lookup_insert_ne in Hd by done. rewrite lookup_insert_ne by done. by apply (idle _ _ _ _ P x d).
Qed.

Lemma init_spec : prep (nn_priolist_init ∅ ∅) (replicate NN_PRIOLIST_SLOTS ([], [])).
Proof.
  split; [split|]; cbn [p_items p_datas p_slots nn_priolist_init]; try done.
  - intros i s l [-> _]%lookup_replicate_1 [-> _]%lookup_replicate_1. split; [apply lrep_init|done].
  - intros i l x [-> _]%lookup_replicate_1. cbn. intros []%elem_of_nil.
Qed.

(** ** Sequences of operations *)

Inductive prio_op := OpAdd (data pipe priority : Z) | OpActivate (data : Z) | OpRm (data : Z) | OpAdvance (release : Z).

Definition prio_step (self : nn_priolist) (o : prio_op) : option nn_priolist :=
  match o with
  | OpAdd data pipe priority => Some (nn_priolist_add self data pipe priority)
  | OpActivate data => nn_priolist_activate self data
  | OpRm data => nn_priolist_rm self data
  | OpAdvance release => nn_priolist_advance self release
  end.

(** The data that are known, and the circles. *)
Notation circles := (gmap Z nn_priolist_data * list level)%type.

Definition spec_step (c : circles) (o : prio_op) : circles :=
  match o with
  | OpAdd data pipe priority => (<[data := Data pipe priority]> c.1, c.2)
  | OpActivate data => (c.1, spec_activate c.1 data c.2)
  | OpRm data => (c.1, spec_rm c.1 data c.2)
  | OpAdvance release => (c.1, spec_advance release c.2)
  end.

(** What the callers see to: a data that is added or activated is in no circle, and
    there is a pipe to advance from. *)
Definition step_ok (c : circles) (o : prio_op) : Prop :=
  match o with
  | OpAdd data _ priority => inactive c.2 data ∧ 1 ≤ priority ≤ Z.of_nat NN_PRIOLIST_SLOTS
  | OpActivate data => is_Some (c.1 !! data) ∧ inactive c.2 data
  | OpRm data => is_Some (c.1 !! data)
  | OpAdvance _ => first_level c.2 ≠ None
  end.

Fixpoint steps_ok (c : circles) (ops : list prio_op) : Prop :=
  match ops with [] => True | o :: ops => step_ok c o ∧ steps_ok (spec_step c o) ops end.

Lemma step_refines self c o : prep self c.2 → p_datas self = c.1 → step_ok c o →
  ∃ self', prio_step self o = Some self' ∧ prep self' (spec_step c o).2 ∧ p_datas self' = (spec_step c o).1.
Proof.
  destruct c as [ds ls]. cbn. intros P <- Hok. destruct o as [data pipe k|data|data|r]; cbn in *.
  - destruct Hok. eexists. split; [done|]. split; [by apply add_spec|done].
  - destruct Hok. destruct (activate_spec self ls data) as (s & ? & ? & ?); [done..|]. by exists s.
  - destruct (rm_spec self ls data) as (s & ? & ? & ?); [done..|]. by exists s.
  - destruct (advance_spec self ls r) as (s & ? & ? & ?); [done..|]. by exists s.
Qed.

Lemma steps_refine ops self c : prep self c.2 → p_datas self = c.1 → steps_ok c ops →
  ∃ self', foldl (λ s o, s ≫= λ s, prio_step s o) (Some self) ops = Some self' ∧
    prep self' (foldl spec_step c ops).2 ∧ p_datas self' = (foldl spec_step c ops).1.
Proof.
  revert self c. induction ops as [|o ops IH]; intros self c P Hd Hok; [by exists self|].
  destruct Hok as [Ho Hok]. destruct (step_refines self c o P Hd Ho) as (s1 & E & P1 & Hd1).
  cbn. rewrite E. by apply IH.
Qed.

(** The current pipe has the highest priority of those that are active. *)
Lemma current_first ds h slots ls c : prep0 h ds slots ls → current_of ls = Some c →
  ∃ d, ds !! c = Some d ∧ ∀ i l x e, ls !! i = Some l → x ∈ seq_of l → ds !! x = Some e → d_priority d ≤ d_priority e.
Proof.
  intros P Hc. unfold current_of in Hc. destruct (first_level ls) as [k|] eqn:Ek; [|done]. cbn in Hc.
  apply cur_of_spec in Ek as [_ Hb]. destruct (ls !! k) as [[dn [|y td]]|] eqn:Hl; simplify_eq/=.
  destruct (in_level _ _ _ _ P k _ c Hl) as (d & Hd & Hp); [unfold seq_of; set_solver|]. exists d. split; [done|].
  intros i l x e Hi Hx He. rewrite Hp, (level_of _ _ _ _ _ _ _ _ P Hi He Hx).
  destruct (decide (i < k)%nat) as [Hlt|]; [|lia]. exfalso.
  pose proof (Hb i l Hlt Hi) as Hn.
  destruct (lookup_lt_is_Some_2 slots i) as [s Hs];
    [apply lookup_lt_Some in Hi; by rewrite (len_slots _ _ _ _ P), <-(len_levels _ _ _ _ P)|].
  destruct (slot_ok _ _ _ _ P _ _ _ Hs Hi) as (_ & _ & Hnil). unfold seq_of in Hx. rewrite Hn, (Hnil Hn) in Hx. set_solver.
Qed.

(** C24. A priority list is sixteen circles: starting with no pipe, every sequence of
    operations that its callers may make follows no bad pointer, fails no assertion,
    and does on the linked lists and current pointers what it does on the circles; the
    current pipe is the next one to come of the first circle that is not empty, so that
    no active pipe has a higher priority, and there is none only when no pipe is active. *)
Theorem priolist_refines ops (Hok : steps_ok (∅, replicate NN_PRIOLIST_SLOTS ([], [])) ops) :
  let c := foldl spec_step (∅, replicate NN_PRIOLIST_SLOTS ([], [])) ops in
  ∃ self, foldl (λ s o, s ≫= λ s, prio_step s o) (Some (nn_priolist_init ∅ ∅)) ops = Some self ∧
    match current_of c.2 with
    | None => nn_priolist_getpipe self = Some None ∧ nn_priolist_is_active self = 0 ∧ ∀ x, inactive c.2 x
    | Some x => ∃ d, c.1 !! x = Some d ∧ nn_priolist_getpipe self = Some (Some (d_pipe d)) ∧
        nn_priolist_is_active self = 1 ∧ nn_priolist_get_priority self = d_priority d ∧
        ∀ i l y e, c.2 !! i = Some l → y ∈ seq_of l → c.1 !! y = Some e → d_priority d ≤ d_priority e
    end.
Proof.
  intros c. destruct (steps_refine ops (nn_priolist_init ∅ ∅) (∅, replicate NN_PRIOLIST_SLOTS ([], []))) as (self & E & P & Hd);
    [apply init_spec|done|done|]. fold c in P, Hd. exists self. split; [done|]. rewrite (getpipe_spec self c.2 P). pose proof P as [P0 Hc].
  destruct (current_of c.2) as [x|] eqn:Ex.
  - destruct (current_first _ _ _ _ _ P0 Ex) as (d & Hx & Hmin). rewrite Hx. exists d. rewrite <-Hd.
    unfold current_of in Ex. unfold nn_priolist_is_active, nn_priolist_get_priority. rewrite Hc. unfold cur_of.
    destruct (first_level c.2) as [k|] eqn:Ek; [|done]. cbn in Ex. destruct (c.2 !! k) as [[dn [|y td]]|] eqn:Hl; simplify_eq/=.
    split_and!; [done|done|by rewrite decide_False by lia| |done].
    symmetry. apply (level_of _ _ _ _ _ _ _ _ P0 Hl Hx). unfold seq_of. set_solver.
  - assert (first_level c.2 = None) as Hn.
    { unfold current_of in Ex. destruct (first_level c.2) as [k|] eqn:Ek; [|done]. cbn in Ex.
      apply cur_of_spec in Ek as [(l & Hl & Hne) _]. rewrite Hl in Ex. cbn in Ex. by destruct (l.2). }
    unfold nn_priolist_is_active. rewrite Hc. unfold cur_of. rewrite Hn. split_and!; [done|done|].
    rewrite cur_of_none in Hn. intros x i l Hi Hx. pose proof (Hn i l Hi) as Hnil.
    destruct (lookup_lt_is_Some_2 (p_slots self) i) as [s Hs];
      [apply lookup_lt_Some in Hi; by rewrite (len_slots _ _ _ _ P0), <-(len_levels _ _ _ _ P0)|].
    destruct (slot_ok _ _ _ _ P0 _ _ _ Hs Hi) as (_ & _ & Hz). unfold seq_of in Hx. rewrite Hnil, (Hz Hnil) in Hx. set_solver.
Qed.

(** ** An example *)

Lemma inactive_Forall ls x : inactive ls x ↔ Forall (λ l, x ∉ seq_of l) ls.
Proof. unfold inactive. by rewrite Forall_lookup. Qed.

#[export] Instance inactive_dec ls x : Decision (inactive ls x).
Proof. refine (cast_if (decide (Forall (λ l, x ∉ seq_of l) ls))); by rewrite inactive_Forall. Defined.

#[export] Instance step_ok_dec c o : Decision (step_ok c o).
Proof. destruct o; apply _. Defined.

#[export] Instance steps_ok_dec c ops : Decision (steps_ok c ops).
Proof.
  revert c. induction ops as [|o ops IH]; intros c; [by left|].
  destruct (decide (step_ok c o)) as [Ho|Ho]; [|right; by intros []].
  destruct (IH (spec_step c o)) as [Hr|Hr]; [by left|right; by intros []].
Defined.

(** Two pipes of priority 8 and one of priority 3, which is released and comes back. *)
Definition demo_prio : list prio_op :=
  [OpAdd 10 100 8; OpAdd 20 200 8; OpAdd 30 300 3; OpActivate 10; OpActivate 30; OpActivate 20; OpAdvance 1; OpAdvance 0; OpActivate 30; OpRm 30].

Lemma priolist_refines_witness :
  let c := foldl spec_step (∅, replicate NN_PRIOLIST_SLOTS ([], [])) demo_prio in
  (∃ self, foldl (λ s o, s ≫= λ s, prio_step s o) (Some (nn_priolist_init ∅ ∅)) demo_prio = Some self ∧
    match current_of c.2 with
    | None => nn_priolist_getpipe self = Some None ∧ nn_priolist_is_active self = 0 ∧ ∀ x, inactive c.2 x
    | Some x => ∃ d, c.1 !! x = Some d ∧ nn_priolist_getpipe self = Some (Some (d_pipe d)) ∧
        nn_priolist_is_active self = 1 ∧ nn_priolist_get_priority self = d_priority d ∧
        ∀ i l y e, c.2 !! i = Some l → y ∈ seq_of l → c.1 !! y = Some e → d_priority d ≤ d_priority e
    end) ∧ current_of c.2 = Some 20.
Proof.
  cbv zeta. split; [apply (priolist_refines demo_prio); apply (bool_decide_unpack _); vm_compute; exact I|vm_compute; reflexivity].
Defined.
