(* ===== verification/NnMsgQueue.v ===== *)
(** * The message queues of nanomsg

    [nanomsg-1.0.0/src/transports/inproc/msgqueue.c]: the messages of a queue are in
    chunks of 126, allocated on demand, of which one that is empty is kept in a cache.
    The content of a message, of type [M], is moved; only its size matters here. *)

From S2P Require Import Prelude.
From stdpp Require Import base numbers list gmap.
#[local] Open Scope Z_scope.

(** ** The messages: [utils/msg.h] *)
Record nn_msg := Msg { sphdr : list Z; hdrs : list Z; body : list Z }.

Definition nn_chunkref_size (c : list Z) : Z := Z.of_nat (length c).

Definition nn_msg_init (size : nat) : nn_msg := Msg [] [] (replicate size 0).

Definition size_t (z : Z) : Z := z `mod` 2 ^ 64.
Definition msg_size (m : nn_msg) : Z := size_t (nn_chunkref_size (sphdr m) + nn_chunkref_size (body m)).

(** ** The queue *)
Definition NN_MSGQUEUE_GRANULARITY : nat := 126.
Definition EAGAIN : Z := 11.

(** The slots of a chunk that are written, and the pointer to the next chunk. *)
Record nn_msgqueue_chunk := Chunk { c_msgs : gmap nat nn_msg; c_next : option Z }.
Record place := Place { chunk : Z; pos : nat }.

Record nn_msgqueue := Queue {
  q_chunks : gmap Z nn_msgqueue_chunk;
  q_out : place; q_in : place;
  q_count : Z; q_mem : Z; q_maxmem : Z;
  q_cache : option Z
}.

(** [nn_alloc]: the address of a new chunk, which is not written yet. *)
Definition nn_alloc (chunks : gmap Z nn_msgqueue_chunk) : Z := fresh (dom chunks : gset Z).

Definition nn_msgqueue_init (maxmem : Z) : nn_msgqueue :=
  let chunk := nn_alloc ∅ in
  Queue {[ chunk := Chunk ∅ None ]} (Place chunk 0) (Place chunk 0) 0 0 maxmem None.

Definition nn_msgqueue_empty (self : nn_msgqueue) : Z := if decide (q_count self = 0) then 1 else 0.

(** [None]: a chunk that is not there is used. *)
Definition nn_msgqueue_send (self : nn_msgqueue) (msg : nn_msg) : option (nn_msgqueue * Z) :=
  let msgsz := msg_size msg in
  if decide (q_count self > 0 ∧ size_t (q_mem self + msgsz) >= q_maxmem self) then Some (self, - EAGAIN) else
  let count := size_t (q_count self + 1) in
  let mem := size_t (q_mem self + msgsz) in
  let '(Place o p) := q_out self in
  c ← q_chunks self !! o;
  let chunks := <[o := Chunk (<[p := msg]> (c_msgs c)) (c_next c)]> (q_chunks self) in
  let p := S p in
  if decide (p = NN_MSGQUEUE_GRANULARITY) then
    let '(chunks, cache) :=
      match q_cache self with
      | Some k => (chunks, k)
      | None => let k := nn_alloc chunks in (<[k := Chunk ∅ None]> chunks, k)
      end in
    c ← chunks !! o;
    let chunks := <[o := Chunk (c_msgs c) (Some cache)]> chunks in
    Some (Queue chunks (Place cache 0) (q_in self) count mem (q_maxmem self) None, 0)
  else Some (Queue chunks (Place o p) (q_in self) count mem (q_maxmem self) (q_cache self), 0).

(** The message is answered with the code. *)
Definition nn_msgqueue_recv (self : nn_msgqueue) : option (nn_msgqueue * Z * option nn_msg) :=
  if decide (q_count self = 0) then Some (self, - EAGAIN, None) else
  let '(Place i p) := q_in self in
  c ← q_chunks self !! i;
  msg ← c_msgs c !! p;
  let p := S p in
  '(chunks, inn, cache) ←
    (if decide (p = NN_MSGQUEUE_GRANULARITY) then
       next ← c_next c;
       match q_cache self with
       | None => Some (q_chunks self, Place next 0, Some i)
       | Some _ => Some (delete i (q_chunks self), Place next 0, q_cache self)
       end
     else Some (q_chunks self, Place i p, q_cache self));
  Some (Queue chunks (q_out self) inn (size_t (q_count self - 1)) (size_t (q_mem self - msg_size msg)) (q_maxmem self) cache,
    0, Some msg).

(** The loop of [nn_msgqueue_term] receives what is left; then one chunk is. *)
Fixpoint nn_msgqueue_drain (fuel : nat) (self : nn_msgqueue) : option nn_msgqueue :=
  match fuel with
  | O => None
  | S fuel =>
      '(self, rc, _) ← nn_msgqueue_recv self;
      if decide (rc = - EAGAIN) then Some self else
      if decide (rc >= 0) then nn_msgqueue_drain fuel self else None
  end.

(** The chunks that are still allocated in the end. *)
Definition nn_msgqueue_term (fuel : nat) (self : nn_msgqueue) : option (gmap Z nn_msgqueue_chunk) :=
  self ← nn_msgqueue_drain fuel self;
  if decide (chunk (q_in self) = chunk (q_out self)) then
    let chunks := delete (chunk (q_in self)) (q_chunks self) in
    Some (match q_cache self with Some k => delete k chunks | None => chunks end)
  else None.
