(* ===== verification/NnMsgQueueSpec.v ===== *)
(** * What a message queue promises

    The chunks in use form a chain, and the messages are where the positions say: the
    queue is a sequence of messages ([mq_rep]), every chunk that is allocated is in the
    chain or in the cache, and what is sent is received in this order. *)

From S2P Require Import Prelude NnMsgQueue.
From stdpp Require Import base numbers list gmap fin_maps.
#[local] Open Scope Z_scope.

Definition total (ms : list nn_msg) : Z := foldr (λ m s, msg_size m + s) 0 ms.

(** [chunks] hold [ms] from [inn] to [out]; the last chunk may be full to [bound]. *)
Record mq_chain (bound : nat) (chunks : gmap Z nn_msgqueue_chunk) (out inn : place) (cache : option Z)
    (ms : list nn_msg) (chain : list Z) : Prop := {
  mq_nodup : NoDup (chain ++ option_list cache);
  mq_dom : ∀ a, is_Some (chunks !! a) ↔ a ∈ chain ++ option_list cache;
  mq_in : head chain = Some (chunk inn);
  mq_out : last chain = Some (chunk out);
  mq_pos_in : (pos inn < NN_MSGQUEUE_GRANULARITY)%nat;
  mq_pos_out : (pos out < bound)%nat;
  mq_len : (pos inn + length ms + NN_MSGQUEUE_GRANULARITY = NN_MSGQUEUE_GRANULARITY * length chain + pos out)%nat;
  mq_next : ∀ i a b, chain !! i = Some a → chain !! S i = Some b → ∃ c, chunks !! a = Some c ∧ c_next c = Some b;
  mq_msgs : ∀ i a p j m, chain !! i = Some a → (p < NN_MSGQUEUE_GRANULARITY)%nat →
    (NN_MSGQUEUE_GRANULARITY * i + p = pos inn + j)%nat → ms !! j = Some m →
    ∃ c, chunks !! a = Some c ∧ c_msgs c !! p = Some m
}.

Record mq_rep (q : nn_msgqueue) (ms : list nn_msg) : Prop := {
  mq_chunks : ∃ chain, mq_chain NN_MSGQUEUE_GRANULARITY (q_chunks q) (q_out q) (q_in q) (q_cache q) ms chain;
  mq_count : q_count q = Z.of_nat (length ms);
  mq_mem : q_mem q = size_t (total ms)
}.

#[local] Opaque NN_MSGQUEUE_GRANULARITY.

Lemma granularity : NN_MSGQUEUE_GRANULARITY = 126%nat.
Proof. reflexivity. Qed.

Lemma mq_rep_init maxmem : mq_rep (nn_msgqueue_init maxmem) [].
Proof.
  split; [|done..]. exists [nn_alloc ∅]. split; cbn; rewrite ?app_nil_r.
  - apply NoDup_singleton.
  - intros a. rewrite <-insert_empty, list_elem_of_singleton, lookup_insert_is_Some, lookup_empty.
    split; [intros [|[_ []%is_Some_None]]; done|by left].
  - done.
  - done.
  - rewrite granularity. lia.
  - rewrite granularity. lia.
  - lia.
  - by intros [|i].
  - done.
Qed.

Lemma last_lookup_chain (chain : list Z) a : last chain = Some a → chain !! (length chain - 1)%nat = Some a.
Proof. intros H. rewrite <-H, last_lookup. by rewrite Nat.sub_1_r. Qed.

(** A message is written after the others. *)
Lemma chain_write chunks out inn cache ms chain c msg :
  mq_chain NN_MSGQUEUE_GRANULARITY chunks out inn cache ms chain → chunks !! chunk out = Some c →
  mq_chain (S NN_MSGQUEUE_GRANULARITY) (<[chunk out := Chunk (<[pos out := msg]> (c_msgs c)) (c_next c)]> chunks)
    (Place (chunk out) (S (pos out))) inn cache (ms ++ [msg]) chain.
Proof.
  intros P Hc. pose proof granularity as Hg.
  pose proof (mq_len _ _ _ _ _ _ _ P) as Hlen. pose proof (mq_pos_out _ _ _ _ _ _ _ P) as Hpo.
  pose proof (last_lookup_chain _ _ (mq_out _ _ _ _ _ _ _ P)) as Hlast.
  pose proof (lookup_lt_Some _ _ _ Hlast) as Hlt.
  pose proof (mq_nodup _ _ _ _ _ _ _ P) as Hnd. apply NoDup_app in Hnd as (Hnd & _).
  split; cbn [chunk pos].
  - apply (mq_nodup _ _ _ _ _ _ _ P).
  - intros a. rewrite <-(mq_dom _ _ _ _ _ _ _ P a), lookup_insert_is_Some. destruct (decide (chunk out = a)) as [<-|]; [|tauto].
    split; [by eexists|by left].
  - apply (mq_in _ _ _ _ _ _ _ P).
  - apply (mq_out _ _ _ _ _ _ _ P).
  - apply (mq_pos_in _ _ _ _ _ _ _ P).
  - lia.
  - rewrite length_app. cbn [length]. lia.
  - intros i a b Ha Hb. destruct (mq_next _ _ _ _ _ _ _ P i a b Ha Hb) as (d & Hd & Hn).
    destruct (decide (chunk out = a)) as [<-|]; [|rewrite lookup_insert_ne by done; by exists d].
    rewrite lookup_insert_eq. eexists. split; [done|]. simplify_eq. by cbn.
  - intros i a p j m Ha Hp E Hm. destruct (decide (chunk out = a)) as [<-|Hne].
    + rewrite lookup_insert_eq. eexists. split; [done|]. cbn.
      pose proof (NoDup_lookup _ _ _ _ Hnd Ha Hlast) as ->.
      destruct (decide (p = pos out)) as [->|Hnp].
      * rewrite lookup_insert_eq. assert (j = length ms) as -> by lia. by rewrite list_lookup_middle in Hm.
      * rewrite lookup_insert_ne by done. pose proof (lookup_lt_Some _ _ _ Hm) as Hj. rewrite length_app in Hj. cbn in Hj.
        rewrite lookup_app_l in Hm by lia.
        destruct (mq_msgs _ _ _ _ _ _ _ P _ _ _ _ _ Ha Hp E Hm) as (d & Hd & Hd'). by simplify_eq.
    + rewrite lookup_insert_ne by done. apply (mq_msgs _ _ _ _ _ _ _ P _ _ p j m Ha Hp E).
      pose proof (lookup_lt_Some _ _ _ Ha). rewrite lookup_app_l in Hm; [done|].
      assert (i ≠ (length chain - 1)%nat) by (intros ->; simplify_eq). lia.
Qed.

Lemma nn_alloc_fresh chunks : chunks !! nn_alloc chunks = None.
Proof. apply not_elem_of_dom. exact (is_fresh (dom chunks : gset Z)). Qed.

(** A chunk is allocated for the cache. *)
Lemma chain_alloc b chunks out inn ms chain :
  mq_chain b chunks out inn None ms chain →
  let k := nn_alloc chunks in mq_chain b (<[k := Chunk ∅ None]> chunks) out inn (Some k) ms chain.
Proof.
  intros P k. assert (chunks !! k = None) as Hk by apply nn_alloc_fresh.
  assert (k ∉ chain) as Hnin.
  { intros Hin. assert (is_Some (chunks !! k)) as [? Hx]; [|congruence].
    apply (mq_dom _ _ _ _ _ _ _ P). apply elem_of_app. by left. }
  assert (∀ a c, chunks !! a = Some c → (<[k := Chunk ∅ None]> chunks) !! a = Some c) as Hkeep.
  { intros a c Ha. rewrite lookup_insert_ne; [done|congruence]. }
  pose proof (mq_nodup _ _ _ _ _ _ _ P) as Hnd. cbn [option_list] in Hnd. rewrite app_nil_r in Hnd.
  split; try (eapply P || exact (mq_len _ _ _ _ _ _ _ P)).
  - cbn [option_list]. apply NoDup_app. split_and!; [done|set_solver|apply NoDup_singleton].
  - intros a. rewrite lookup_insert_is_Some, (mq_dom _ _ _ _ _ _ _ P a). unfold option_list.
    destruct (decide (k = a)) as [->|]; set_solver.
  - intros i a b' Ha Hb. destruct (mq_next _ _ _ _ _ _ _ P i a b' Ha Hb) as (c & Hc & Hn). exists c. by rewrite (Hkeep _ _ Hc).
  - intros i a p j m Ha Hp E Hm. destruct (mq_msgs _ _ _ _ _ _ _ P _ _ _ _ _ Ha Hp E Hm) as (c & Hc & Hn).
    exists c. by rewrite (Hkeep _ _ Hc).
Qed.

(** The chunk of the cache follows the last one, which is full. *)
Lemma chain_extend b chunks o inn k ms chain c :
  mq_chain b chunks (Place o NN_MSGQUEUE_GRANULARITY) inn (Some k) ms chain → chunks !! o = Some c →
  mq_chain NN_MSGQUEUE_GRANULARITY (<[o := Chunk (c_msgs c) (Some k)]> chunks) (Place k 0) inn None ms (chain ++ [k]).
Proof.
  intros P Hc. pose proof granularity as Hg.
  pose proof (mq_nodup _ _ _ _ _ _ _ P) as Hnd. cbn [option_list] in Hnd.
  pose proof (mq_out _ _ _ _ _ _ _ P) as Hlast. cbn [chunk] in Hlast. pose proof (last_lookup_chain _ _ Hlast) as Hll.
  pose proof (mq_len _ _ _ _ _ _ _ P) as Hlen. cbn [pos] in Hlen.
  pose proof (lookup_lt_Some _ _ _ Hll) as Hlt.
  apply NoDup_app in Hnd as Hnd'. destruct Hnd' as (Hnd' & Hdis & _).
  assert (k ∉ chain) as Hk by (intros Hx; apply (Hdis _ Hx); set_solver).
  assert (o ∈ chain) as Ho by by apply last_Some_elem_of.
  split; cbn [chunk pos option_list]; rewrite ?app_nil_r.
  - done.
  - intros a. pose proof (mq_dom _ _ _ _ _ _ _ P a) as Hd. cbn [option_list] in Hd. rewrite <-Hd, lookup_insert_is_Some.
    destruct (decide (o = a)) as [<-|]; [|tauto]. split; [by eexists|by left].
  - rewrite <-(mq_in _ _ _ _ _ _ _ P). destruct chain; [done|]. done.
  - apply last_snoc.
  - apply (mq_pos_in _ _ _ _ _ _ _ P).
  - lia.
  - rewrite length_app. cbn [length]. lia.
  - intros i a d Ha Hd. pose proof (lookup_lt_Some _ _ _ Hd) as Hi. rewrite length_app in Hi. cbn [length] in Hi.
    rewrite lookup_app_l in Ha by lia. destruct (decide (i = length chain - 1)%nat) as [->|Hne].
    + simplify_eq. rewrite lookup_insert_eq. eexists. split; [done|]. cbn.
      replace (S (length chain - 1)) with (length chain) in Hd by lia. by rewrite list_lookup_middle in Hd.
    + rewrite lookup_app_l in Hd by lia. rewrite lookup_insert_ne; [by apply (mq_next _ _ _ _ _ _ _ P i)|].
      intros <-. apply Hne. by apply (NoDup_lookup chain _ _ o).
  - intros i a p j m Ha Hp E Hm. pose proof (lookup_lt_Some _ _ _ Ha) as Hi. rewrite length_app in Hi. cbn [length] in Hi.
    pose proof (lookup_lt_Some _ _ _ Hm).
    rewrite lookup_app_l in Ha by lia. destruct (mq_msgs _ _ _ _ _ _ _ P _ _ _ _ _ Ha Hp E Hm) as (d & Hd & Hdp).
    destruct (decide (o = a)) as [<-|]; [rewrite lookup_insert_eq|by rewrite lookup_insert_ne by done; exists d].
    eexists. split; [done|]. simplify_eq. by cbn.
Qed.

Lemma total_app a b : total (a ++ b) = total a + total b.
Proof. induction a as [|x a IH]; [done|]. cbn [app total foldr] in *. unfold total in *. cbn. lia. Qed.

Lemma total_one m : total [m] = msg_size m.
Proof. unfold total. cbn. lia. Qed.

Lemma size_t_add a b : size_t (size_t a + b) = size_t (a + b).
Proof. unfold size_t. by rewrite Zplus_mod_idemp_l. Qed.

Lemma size_t_sub a b : size_t (size_t a - b) = size_t (a - b).
Proof. unfold size_t. by rewrite Zminus_mod_idemp_l. Qed.

(** A send is refused when there is a message and the memory is used up; otherwise
    the message is the last one. *)
Definition mq_full (q : nn_msgqueue) (msg : nn_msg) : Prop := q_count q > 0 ∧ size_t (q_mem q + msg_size msg) >= q_maxmem q.

Lemma nn_msgqueue_send_spec q ms msg :
  mq_rep q ms → Z.of_nat (length ms) + 1 < 2 ^ 64 →
  (mq_full q msg ∧ nn_msgqueue_send q msg = Some (q, - EAGAIN)) ∨
  (¬ mq_full q msg ∧ ∃ q', nn_msgqueue_send q msg = Some (q', 0) ∧ mq_rep q' (ms ++ [msg]) ∧ q_maxmem q' = q_maxmem q).
Proof.
  intros [(chain & P) Hc Hm] Hlt. unfold nn_msgqueue_send.
  destruct (decide (q_count q > 0 ∧ _)) as [Hf|Hf]; [by left|right; split; [done|]].
  pose proof (mq_out _ _ _ _ _ _ _ P) as Ho. destruct (q_out q) as [o p] eqn:Eo. cbn [chunk] in Ho.
  assert (is_Some (q_chunks q !! o)) as [c Ec].
  { apply (mq_dom _ _ _ _ _ _ _ P). apply elem_of_app. left. by apply last_Some_elem_of. }
  rewrite Ec. cbn [mbind option_bind]. pose proof (chain_write _ _ _ _ _ _ c msg P Ec) as W. cbn [chunk pos] in W.
  assert (size_t (q_count q + 1) = Z.of_nat (length (ms ++ [msg]))) as Hcount.
  { rewrite Hc, length_app. cbn [length]. unfold size_t. rewrite Z.mod_small; lia. }
  assert (size_t (q_mem q + msg_size msg) = size_t (total (ms ++ [msg]))) as Hmem.
  { rewrite Hm, size_t_add, total_app. f_equal. unfold total at 3. cbn. lia. }
  destruct (decide _) as [Hp|Hp].
  - rewrite Hp in W. destruct (q_cache q) as [k|].
    + rewrite lookup_insert_eq. cbn [mbind option_bind]. eexists. split; [done|]. split; [|done]. split; [|done..].
      eexists. eapply (chain_extend _ _ _ _ _ _ _ _ W). by rewrite lookup_insert_eq.
    + apply chain_alloc in W. cbv zeta in W. set (ch := <[o := _]> (q_chunks q)) in *.
      assert ((<[nn_alloc ch := Chunk ∅ None]> ch) !! o = Some (Chunk (<[p:=msg]> (c_msgs c)) (c_next c))) as E.
      { rewrite lookup_insert_ne; [by unfold ch; rewrite lookup_insert_eq|].
        intros E. pose proof (nn_alloc_fresh ch) as Hfr. rewrite E in Hfr. unfold ch in Hfr. by rewrite lookup_insert_eq in Hfr. }
      rewrite E. cbn [mbind option_bind]. eexists. split; [done|]. split; [|done]. split; [|done..].
      eexists. by apply (chain_extend _ _ _ _ _ _ _ _ W).
  - eexists. split; [done|]. split; [|done]. split; [|done..]. exists chain. cbn. destruct W. split; try done. cbn in *.
    pose proof (mq_pos_out _ _ _ _ _ _ _ P). cbn in *. lia.
Qed.

(** The first chunk was read to its end: it goes to the cache, or is freed. *)
Lemma chain_leave chunks out i p cache m ms chain c cache' chunks' :
  mq_chain NN_MSGQUEUE_GRANULARITY chunks out (Place i p) cache (m :: ms) chain → S p = NN_MSGQUEUE_GRANULARITY →
  chunks !! i = Some c →
  (cache = None ∧ chunks' = chunks ∧ cache' = Some i ∨ is_Some cache ∧ chunks' = delete i chunks ∧ cache' = cache) →
  ∃ next, c_next c = Some next ∧
    mq_chain NN_MSGQUEUE_GRANULARITY chunks' out (Place next 0) cache' ms (tail chain).
Proof.
  intros P Hp Hc Hcase. pose proof granularity as Hg.
  pose proof (mq_len _ _ _ _ _ _ _ P) as Hlen. pose proof (mq_pos_out _ _ _ _ _ _ _ P) as Hpo. cbn [pos length] in Hlen.
  pose proof (mq_in _ _ _ _ _ _ _ P) as Hin. cbn [chunk] in Hin.
  destruct chain as [|i' [|next rest]]; cbn in Hin; simplify_eq; [cbn [length] in Hlen; lia|].
  destruct (mq_next _ _ _ _ _ _ _ P 0 i next eq_refl eq_refl) as (c' & Hc' & Hn). simplify_eq. exists next. split; [done|].
  pose proof (mq_nodup _ _ _ _ _ _ _ P) as Hnd. cbn [app] in Hnd. apply NoDup_cons in Hnd as [Hni Hnd]. cbn [tail].
  assert (∀ a d, a ∈ next :: rest → chunks !! a = Some d → chunks' !! a = Some d) as Hkeep.
  { intros a d Ha Hd. destruct Hcase as [(_ & -> & _)|(_ & -> & _)]; [done|].
    rewrite lookup_delete_ne; [done|]. intros ->. apply Hni. set_solver. }
  split; cbn [chunk pos].
  - destruct Hcase as [(-> & _ & ->)|(_ & _ & ->)]; [|done]. cbn [option_list] in *.
    rewrite app_nil_r in *. apply NoDup_app. split_and!; [done|set_solver|apply NoDup_singleton].
  - intros a. pose proof (mq_dom _ _ _ _ _ _ _ P a) as Hd.
    destruct Hcase as [(-> & -> & ->)|(_ & -> & ->)]; cbn [option_list app] in *.
    + rewrite Hd. set_solver.
    + rewrite lookup_delete_is_Some, Hd. split; [set_solver|]. intros Ha. split; [by intros ->|]. set_solver.
  - done.
  - pose proof (mq_out _ _ _ _ _ _ _ P) as Ho. by rewrite last_cons_cons in Ho.
  - lia.
  - done.
  - cbn [length] in *. lia.
  - intros j a b Ha Hb. destruct (mq_next _ _ _ _ _ _ _ P (S j) a b Ha Hb) as (d & Hd & Hdn).
    exists d. split; [|done]. apply Hkeep; [|done]. by apply list_elem_of_lookup_2 in Ha.
  - intros j a p' k m' Ha Hp' E Hm.
    destruct (mq_msgs _ _ _ _ _ _ _ P (S j) a p' (S k) m' Ha Hp') as (d & Hd & Hdp); [cbn [pos]; lia|done|].
    exists d. split; [|done]. apply Hkeep; [|done]. by apply list_elem_of_lookup_2 in Ha.
Qed.

Lemma nn_msgqueue_recv_nil q : mq_rep q [] → nn_msgqueue_recv q = Some (q, - EAGAIN, None).
Proof. intros [_ Hc _]. unfold nn_msgqueue_recv. by rewrite Hc. Qed.

Lemma nn_msgqueue_recv_cons q m ms :
  mq_rep q (m :: ms) → Z.of_nat (length (m :: ms)) < 2 ^ 64 →
  ∃ q', nn_msgqueue_recv q = Some (q', 0, Some m) ∧ mq_rep q' ms ∧ q_maxmem q' = q_maxmem q.
Proof.
  intros [(chain & P) Hc Hm] Hlt. unfold nn_msgqueue_recv. pose proof granularity as Hg.
  rewrite decide_False by (rewrite Hc; cbn [length]; lia).
  pose proof (mq_in _ _ _ _ _ _ _ P) as Hin. destruct (q_in q) as [i p] eqn:Ei. cbn [chunk] in Hin.
  pose proof (mq_pos_in _ _ _ _ _ _ _ P) as Hp. cbn [pos] in Hp.
  assert (chain !! 0%nat = Some i) as H0 by by destruct chain.
  destruct (mq_msgs _ _ _ _ _ _ _ P 0 i p 0 m H0 Hp) as (c & Ec & Em); [cbn [pos]; lia|done|].
  rewrite Ec. cbn [mbind option_bind]. rewrite Em. cbn [mbind option_bind].
  assert (size_t (q_count q - 1) = Z.of_nat (length ms)) as Hcount.
  { rewrite Hc. cbn [length] in *. unfold size_t. rewrite Z.mod_small; lia. }
  assert (size_t (q_mem q - msg_size m) = size_t (total ms)) as Hmem.
  { rewrite Hm, size_t_sub. f_equal. unfold total. cbn. lia. }
  destruct (decide _) as [E|E].
  - assert (∃ chunks' cache', mq_chain NN_MSGQUEUE_GRANULARITY chunks' (q_out q) (Place (default 0 (c_next c)) 0) cache' ms (tail chain) ∧
      (next ← c_next c; match q_cache q with None => Some (q_chunks q, Place next 0, Some i)
        | Some _ => Some (delete i (q_chunks q), Place next 0, q_cache q) end) = Some (chunks', Place (default 0 (c_next c)) 0, cache'))
      as (chunks' & cache' & P' & ->).
    { destruct (q_cache q) as [k|] eqn:Ek.
      - destruct (chain_leave _ _ _ _ _ _ _ _ _ (Some k) (delete i (q_chunks q)) P E Ec) as (next & -> & P');
          [right; split_and!; [by eexists|done..]|]. eexists _, _. by split.
      - destruct (chain_leave _ _ _ _ _ _ _ _ _ (Some i) (q_chunks q) P E Ec) as (next & -> & P');
          [by left|]. eexists _, _. by split. }
    cbn [mbind option_bind]. eexists. split; [done|]. split; [|done]. split; [by exists (tail chain)|done..].
  - cbn [mbind option_bind]. eexists. split; [done|]. split; [|done]. split; [exists chain|done..].
    cbn [q_chunks q_out q_in q_cache]. pose proof (mq_len _ _ _ _ _ _ _ P) as Hlen. cbn [pos length] in Hlen.
    split; cbn [pos chunk]; try (eapply P || lia).
    intros j a p' k m' Ha Hp' E' Hm'. apply (mq_msgs _ _ _ _ _ _ _ P j a p' (S k)); [done..|cbn [pos]; lia|done].
Qed.

Lemma nn_msgqueue_empty_spec q ms : mq_rep q ms → nn_msgqueue_empty q = match ms with [] => 1 | _ => 0 end.
Proof. intros [_ Hc _]. unfold nn_msgqueue_empty. rewrite Hc. by destruct ms. Qed.

(** [nn_msgqueue_term] frees every chunk. *)
Lemma nn_msgqueue_drain_spec q ms fuel :
  mq_rep q ms → Z.of_nat (length ms) < 2 ^ 64 → (length ms < fuel)%nat →
  ∃ q', nn_msgqueue_drain fuel q = Some q' ∧ mq_rep q' [].
Proof.
  revert q fuel. induction ms as [|m ms IH]; intros q [|fuel] R Hlt Hf; try lia; cbn [nn_msgqueue_drain length] in *.
  - rewrite (nn_msgqueue_recv_nil q R). cbn [mbind option_bind]. rewrite decide_True by done. by exists q.
  - destruct (nn_msgqueue_recv_cons q m ms R) as (q' & -> & R' & _); [cbn [length]; lia|]. cbn [mbind option_bind].
    rewrite decide_False by done. rewrite decide_True by done. apply IH; [done|lia|lia].
Qed.

Lemma nn_msgqueue_term_spec q ms fuel :
  mq_rep q ms → Z.of_nat (length ms) < 2 ^ 64 → (length ms < fuel)%nat → nn_msgqueue_term fuel q = Some ∅.
Proof.
  intros R Hlt Hf. unfold nn_msgqueue_term. destruct (nn_msgqueue_drain_spec q ms fuel R Hlt Hf) as (q' & -> & [(chain & P) _ _]).
  cbn [mbind option_bind]. pose proof granularity as Hg.
  pose proof (mq_len _ _ _ _ _ _ _ P) as Hlen. pose proof (mq_pos_in _ _ _ _ _ _ _ P). pose proof (mq_pos_out _ _ _ _ _ _ _ P).
  pose proof (mq_in _ _ _ _ _ _ _ P) as Hin. pose proof (mq_out _ _ _ _ _ _ _ P) as Ho. cbn [length] in Hlen.
  destruct chain as [|a [|b chain]]; [done| |cbn [length] in Hlen; lia]. cbn in Hin, Ho. simplify_eq.
  rewrite decide_True by congruence. f_equal. apply map_empty. intros x.
  pose proof (mq_dom _ _ _ _ _ _ _ P x) as Hd.
  apply eq_None_not_Some. intros Hx. destruct (q_cache q') as [k|]; cbn [option_list app] in Hd.
  - rewrite !lookup_delete_is_Some, Hd in Hx. set_solver.
  - rewrite lookup_delete_is_Some, Hd in Hx. set_solver.
Qed.

(** ** The queue as a bounded sequence *)

Inductive mq_op := Send (m : nn_msg) | Recv.

(** The queue, the code and the message that is received. *)
Definition run_op (q : nn_msgqueue) (o : mq_op) : option (nn_msgqueue * (Z * option nn_msg)) :=
  match o with
  | Send m => '(q, rc) ← nn_msgqueue_send q m; Some (q, (rc, None))
  | Recv => '(q, rc, m) ← nn_msgqueue_recv q; Some (q, (rc, m))
  end.

Fixpoint run_ops (q : nn_msgqueue) (ops : list mq_op) : option (nn_msgqueue * list (Z * option nn_msg)) :=
  match ops with
  | [] => Some (q, [])
  | o :: ops => '(q, r) ← run_op q o; '(q, rs) ← run_ops q ops; Some (q, r :: rs)
  end.

Definition spec_op (maxmem : Z) (ms : list nn_msg) (o : mq_op) : list nn_msg * (Z * option nn_msg) :=
  match o with
  | Send m => if decide (ms ≠ [] ∧ total ms + msg_size m >= maxmem) then (ms, (- EAGAIN, None)) else (ms ++ [m], (0, None))
  | Recv => match ms with [] => (ms, (- EAGAIN, None)) | m :: ms => (ms, (0, Some m)) end
  end.

Fixpoint spec_ops (maxmem : Z) (ms : list nn_msg) (ops : list mq_op) : list nn_msg * list (Z * option nn_msg) :=
  match ops with
  | [] => (ms, [])
  | o :: ops => let '(ms, r) := spec_op maxmem ms o in let '(ms, rs) := spec_ops maxmem ms ops in (ms, r :: rs)
  end.

(** What the operations send, in all. *)
Definition op_size (o : mq_op) : Z := match o with Send m => msg_size m | Recv => 0 end.
Definition ops_size (ops : list mq_op) : Z := foldr (λ o s, op_size o + s) 0 ops.

Lemma msg_size_nonneg m : 0 ≤ msg_size m.
Proof. unfold msg_size, size_t. apply Z.mod_pos_bound. lia. Qed.

Lemma ops_size_nonneg ops : 0 ≤ ops_size ops.
Proof.
  induction ops as [|o ops IH]; cbn; [lia|]. fold (ops_size ops).
  destruct o as [m|]; cbn; [pose proof (msg_size_nonneg m); lia|lia].
Qed.

Lemma total_nonneg ms : 0 ≤ total ms.
Proof. induction ms as [|m ms IH]; cbn; [lia|]. fold (total ms). pose proof (msg_size_nonneg m). lia. Qed.

(** Beyond one message, no more than the limit is kept. *)
Definition in_limit (maxmem : Z) (ms : list nn_msg) : Prop := (length ms ≤ 1)%nat ∨ total ms < maxmem.

Lemma run_op_spec q ms o :
  mq_rep q ms → in_limit (q_maxmem q) ms → Z.of_nat (length ms) + 1 < 2 ^ 64 → total ms + op_size o < 2 ^ 64 →
  ∃ q', run_op q o = Some (q', (spec_op (q_maxmem q) ms o).2) ∧ mq_rep q' (spec_op (q_maxmem q) ms o).1 ∧
    in_limit (q_maxmem q) (spec_op (q_maxmem q) ms o).1 ∧ q_maxmem q' = q_maxmem q ∧
    total (spec_op (q_maxmem q) ms o).1 ≤ total ms + op_size o ∧
    (length (spec_op (q_maxmem q) ms o).1 ≤ length ms + 1)%nat.
Proof.
  intros R Hlim Hlen Htot. pose proof R as [_ Hc Hm]. pose proof (total_nonneg ms) as Hnn. destruct o as [m|]; cbn [run_op spec_op op_size] in *.
  - pose proof (msg_size_nonneg m) as Hmn.
    assert (mq_full q m ↔ (ms ≠ [] ∧ total ms + msg_size m >= q_maxmem q)) as Hfull.
    { unfold mq_full. rewrite Hc, Hm, size_t_add. unfold size_t. rewrite Z.mod_small by lia.
      destruct ms; cbn [length]; split; intros []; split; try done; lia. }
    destruct (nn_msgqueue_send_spec q ms m R Hlen) as [[Hf ->]|(Hf & q' & -> & R' & Hmax)]; rewrite Hfull in Hf; cbn [mbind option_bind].
    + rewrite decide_True by done. exists q. cbn [fst snd]. split_and!; [done..|lia|lia].
    + rewrite decide_False by done. exists q'. cbn [fst snd]. rewrite total_app, total_one, length_app. cbn [length].
      split_and!; [done|done| |done|lia|lia]. unfold in_limit. rewrite total_app, total_one, length_app. cbn [length].
      destruct ms as [|x ms]; [left; cbn [length]; lia|right]. assert (¬ total (x :: ms) + msg_size m >= q_maxmem q); [|lia]. naive_solver.
  - destruct ms as [|m ms]; cbn [fst snd].
    + rewrite (nn_msgqueue_recv_nil q R). cbn. exists q. split_and!; [done..|lia|lia].
    + destruct (nn_msgqueue_recv_cons q m ms R) as (q' & -> & R' & Hmax); [lia|]. cbn [mbind option_bind]. exists q'.
      pose proof (msg_size_nonneg m). pose proof (total_nonneg ms). unfold total in * |- . cbn in Htot, Hnn. fold (total ms) in *.
      split_and!; [done..| | |unfold total; cbn; fold (total ms); lia|cbn; lia].
      * destruct Hlim as [Hl|Hl]; [left; cbn in *; lia|right]. unfold total in Hl. cbn in Hl. fold (total ms) in Hl. lia.
      * done.
Qed.

Lemma run_ops_spec ops q ms :
  mq_rep q ms → in_limit (q_maxmem q) ms → Z.of_nat (length ms + length ops) < 2 ^ 64 → total ms + ops_size ops < 2 ^ 64 →
  ∃ q', run_ops q ops = Some (q', (spec_ops (q_maxmem q) ms ops).2) ∧ mq_rep q' (spec_ops (q_maxmem q) ms ops).1 ∧
    in_limit (q_maxmem q) (spec_ops (q_maxmem q) ms ops).1 ∧
    (length (spec_ops (q_maxmem q) ms ops).1 ≤ length ms + length ops)%nat.
Proof.
  revert q ms. induction ops as [|o ops IH]; intros q ms R Hlim Hlen Htot; cbn [run_ops spec_ops].
  { exists q. cbn. split_and!; [done..|lia]. }
  cbn [length ops_size foldr] in Hlen, Htot. fold (ops_size ops) in Htot. pose proof (ops_size_nonneg ops) as Hon.
  destruct (run_op_spec q ms o R Hlim) as (q1 & -> & R1 & Hlim1 & Hmax & Ht1 & Hl1); [lia|lia|]. cbn [mbind option_bind].
  destruct (spec_op (q_maxmem q) ms o) as [ms1 r]. cbn [fst snd] in *.
  destruct (IH q1 ms1 R1) as (q' & -> & R' & Hlim' & Hl'); [by rewrite Hmax|lia|lia|]. cbn [mbind option_bind]. rewrite Hmax in *.
  destruct (spec_ops (q_maxmem q) ms1 ops) as [ms2 rs]. cbn [fst snd length] in *. exists q'. split_and!; [done..|lia].
Qed.

(** C23. A message queue is a bounded sequence: whatever is sent and received, each
    operation answers what it does on the sequence of the messages (a send is refused
    when there is a message and the size would reach the limit, a receive when there
    is none), across chunks of 126 messages that are allocated, cached and freed; no
    more than one message is kept beyond the limit; and [nn_msgqueue_term] frees every
    chunk. *)
Theorem msgqueue_refines maxmem ops fuel
  (Hlen : Z.of_nat (length ops) < 2 ^ 64) (Hsize : ops_size ops < 2 ^ 64) (Hfuel : (length ops < fuel)%nat) :
  ∃ q, run_ops (nn_msgqueue_init maxmem) ops = Some (q, (spec_ops maxmem [] ops).2) ∧
    in_limit maxmem (spec_ops maxmem [] ops).1 ∧ nn_msgqueue_term fuel q = Some ∅.
Proof.
  destruct (run_ops_spec ops (nn_msgqueue_init maxmem) [] (mq_rep_init _)) as (q & Hr & R & Hlim & Hl); [left; cbn; lia|done|done|].
  exists q. split_and!; [done..|]. apply (nn_msgqueue_term_spec _ _ _ R); cbn [length] in Hl; lia.
Qed.

(** Three hundred messages of one byte, of which 141 are received: three chunks. *)
Definition demo_ops : list mq_op :=
  replicate 150 (Send (Msg [] [] [7])) ++ replicate 140 Recv ++ replicate 150 (Send (Msg [] [] [8])) ++ [Recv].

Lemma msgqueue_refines_witness :
  (∃ q, run_ops (nn_msgqueue_init 1000) demo_ops = Some (q, (spec_ops 1000 [] demo_ops).2) ∧
    in_limit 1000 (spec_ops 1000 [] demo_ops).1 ∧ nn_msgqueue_term 1000 q = Some ∅) ∧
  length (spec_ops 1000 [] demo_ops).1 = 159%nat.
Proof. split; [apply (msgqueue_refines 1000 demo_ops 1000); [vm_compute; reflexivity..|apply Nat.ltb_lt; vm_compute; reflexivity]|vm_compute; reflexivity]. Defined.
