(* ===== verification/NnInproc.v ===== *)
(** * A connection of nanomsg inside one process

    Two sockets of the pair protocol that are connected by the inproc transport:
    [nanomsg-1.0.0/src/transports/inproc/sinproc.c] over its message queue, the pipes of
    [core/pipe.c], [protocols/utils/excl.c] and [protocols/pair/xpair.c], the events of
    [aio/fsm.c] and [aio/ctx.c], and the part of the handler of [core/sock.c] that
    the events of a pipe reach.  Stopping and disconnecting are not modelled. *)

From S2P Require Import Prelude NnMsgQueue.
From stdpp Require Import base numbers list gmap.
#[local] Open Scope Z_scope.

(** ** The constants *)
Definition NN_PIPEBASE_STATE_IDLE : Z := 1.
Definition NN_PIPEBASE_STATE_ACTIVE : Z := 2.
Definition NN_PIPEBASE_STATE_FAILED : Z := 3.
Definition NN_PIPEBASE_INSTATE_DEACTIVATED : Z := 0.
Definition NN_PIPEBASE_INSTATE_IDLE : Z := 1.
Definition NN_PIPEBASE_INSTATE_RECEIVING : Z := 2.
Definition NN_PIPEBASE_INSTATE_RECEIVED : Z := 3.
Definition NN_PIPEBASE_INSTATE_ASYNC : Z := 4.
Definition NN_PIPEBASE_OUTSTATE_DEACTIVATED : Z := 0.
Definition NN_PIPEBASE_OUTSTATE_IDLE : Z := 1.
Definition NN_PIPEBASE_OUTSTATE_SENDING : Z := 2.
Definition NN_PIPEBASE_OUTSTATE_SENT : Z := 3.
Definition NN_PIPEBASE_OUTSTATE_ASYNC : Z := 4.
Definition NN_PIPE_RELEASE : Z := 1.
Definition NN_SINPROC_STATE_IDLE : Z := 1.
Definition NN_SINPROC_STATE_CONNECTING : Z := 2.
Definition NN_SINPROC_STATE_READY : Z := 3.
Definition NN_SINPROC_STATE_ACTIVE : Z := 4.
Definition NN_SINPROC_STATE_DISCONNECTED : Z := 5.
Definition NN_SINPROC_FLAG_SENDING : Z := 1.
Definition NN_SINPROC_FLAG_RECEIVING : Z := 2.
Definition EISCONN : Z := 106.
Definition ECONNRESET : Z := 104.

(** ** The events

    An event is known by what it tells: each of them is one object, [NN_PIPE_IN] and
    [NN_PIPE_OUT] of the pipe, the others of the two sessions.  [CONNECT],
    [READY] and [ACCEPTED] are told by the event [event_connect] of the session that
    raises them. *)
Inductive pipe_event := NN_PIPE_IN | NN_PIPE_OUT.
Inductive peer_event := NN_SINPROC_CONNECT | NN_SINPROC_READY | NN_SINPROC_ACCEPTED | NN_SINPROC_SENT | NN_SINPROC_RECEIVED.

#[export] Instance pipe_event_dec : EqDecision pipe_event.
Proof. solve_decision. Defined.
#[export] Instance peer_event_dec : EqDecision peer_event.
Proof. solve_decision. Defined.

Definition same_event (a b : peer_event) : bool :=
  match a, b with
  | (NN_SINPROC_CONNECT | NN_SINPROC_READY | NN_SINPROC_ACCEPTED), (NN_SINPROC_CONNECT | NN_SINPROC_READY | NN_SINPROC_ACCEPTED) => true
  | NN_SINPROC_SENT, NN_SINPROC_SENT | NN_SINPROC_RECEIVED, NN_SINPROC_RECEIVED => true
  | _, _ => false
  end.

(** ** The state *)
Record nn_pipebase := Pipe { p_state : Z; p_instate : Z; p_outstate : Z }.
Record nn_excl := Excl { x_pipe : option Z; x_inpipe : option Z; x_outpipe : option Z }.

(** A session with its socket: [n_events] is the queue of the socket's context, and
    [n_eventsto] the events for the peer that were not processed yet. *)
Record node := Node {
  n_state : Z; n_flags : Z; n_peer : option bool;
  n_pipe : nn_pipebase; n_queue : nn_msgqueue; n_msg : nn_msg; n_excl : nn_excl;
  n_events : list pipe_event; n_eventsto : list peer_event
}.

(** The two sessions, and the pipe of each, which the sockets know by its address. *)
Record conn := Conn { left_node : node; right_node : node }.
Definition get (x : bool) (s : conn) : node := if x then left_node s else right_node s.
Definition put (x : bool) (n : node) (s : conn) : conn := if x then Conn n (right_node s) else Conn (left_node s) n.
Definition pipe_of (x : bool) : Z := if x then 1 else 2.

Definition set_state (v : Z) (n : node) := Node v (n_flags n) (n_peer n) (n_pipe n) (n_queue n) (n_msg n) (n_excl n) (n_events n) (n_eventsto n).
Definition set_flags (v : Z) (n : node) := Node (n_state n) v (n_peer n) (n_pipe n) (n_queue n) (n_msg n) (n_excl n) (n_events n) (n_eventsto n).
Definition set_peer (v : option bool) (n : node) := Node (n_state n) (n_flags n) v (n_pipe n) (n_queue n) (n_msg n) (n_excl n) (n_events n) (n_eventsto n).
Definition set_pipe (v : nn_pipebase) (n : node) := Node (n_state n) (n_flags n) (n_peer n) v (n_queue n) (n_msg n) (n_excl n) (n_events n) (n_eventsto n).
Definition set_queue (v : nn_msgqueue) (n : node) := Node (n_state n) (n_flags n) (n_peer n) (n_pipe n) v (n_msg n) (n_excl n) (n_events n) (n_eventsto n).
Definition set_msg (v : nn_msg) (n : node) := Node (n_state n) (n_flags n) (n_peer n) (n_pipe n) (n_queue n) v (n_excl n) (n_events n) (n_eventsto n).
Definition set_excl (v : nn_excl) (n : node) := Node (n_state n) (n_flags n) (n_peer n) (n_pipe n) (n_queue n) (n_msg n) v (n_events n) (n_eventsto n).
Definition set_events (v : list pipe_event) (n : node) := Node (n_state n) (n_flags n) (n_peer n) (n_pipe n) (n_queue n) (n_msg n) (n_excl n) v (n_eventsto n).
Definition set_eventsto (v : list peer_event) (n : node) := Node (n_state n) (n_flags n) (n_peer n) (n_pipe n) (n_queue n) (n_msg n) (n_excl n) (n_events n) v.

Definition set_instate (v : Z) (p : nn_pipebase) := Pipe (p_state p) v (p_outstate p).
Definition set_outstate (v : Z) (p : nn_pipebase) := Pipe (p_state p) (p_instate p) v.

(** A failed assertion is [None].  [nn_queue_push] asserts that the event is in no
    queue. *)
Definition nn_assert (b : bool) : option unit := if b then Some tt else None.

Definition nn_fsm_raise (e : pipe_event) (n : node) : option node :=
  _ ← nn_assert (bool_decide (e ∉ n_events n));
  Some (set_events (n_events n ++ [e]) n).

Definition nn_fsm_raiseto (e : peer_event) (n : node) : option node :=
  _ ← nn_assert (negb (existsb (same_event e) (n_eventsto n)));
  Some (set_eventsto (n_eventsto n ++ [e]) n).

(** ** [protocols/utils/excl.c] *)
Definition nn_excl_init : nn_excl := Excl None None None.

Definition nn_excl_add (self : nn_excl) (pipe : Z) : nn_excl * Z :=
  match x_pipe self with
  | Some _ => (self, - EISCONN)
  | None => (Excl (Some pipe) (x_inpipe self) (x_outpipe self), 0)
  end.

Definition nn_excl_rm (self : nn_excl) (pipe : Z) : option nn_excl :=
  _ ← nn_assert (bool_decide (x_pipe self ≠ None)); Some (Excl None None None).

Definition nn_excl_in (self : nn_excl) (pipe : Z) : option nn_excl :=
  _ ← nn_assert (bool_decide (x_inpipe self = None));
  _ ← nn_assert (bool_decide (x_pipe self = Some pipe));
  Some (Excl (x_pipe self) (Some pipe) (x_outpipe self)).

Definition nn_excl_out (self : nn_excl) (pipe : Z) : option nn_excl :=
  _ ← nn_assert (bool_decide (x_outpipe self = None));
  _ ← nn_assert (bool_decide (x_pipe self = Some pipe));
  Some (Excl (x_pipe self) (x_inpipe self) (Some pipe)).

Definition nn_excl_can_send (self : nn_excl) : Z := if x_outpipe self then 1 else 0.
Definition nn_excl_can_recv (self : nn_excl) : Z := if x_inpipe self then 1 else 0.

(** ** [core/pipe.c] *)
Definition nn_pipebase_init : nn_pipebase :=
  Pipe NN_PIPEBASE_STATE_IDLE NN_PIPEBASE_INSTATE_DEACTIVATED NN_PIPEBASE_OUTSTATE_DEACTIVATED.

(** [nn_sock_add] of a pair socket is [nn_excl_add]. *)
Definition nn_pipebase_start (x : bool) (n : node) : option (node * Z) :=
  _ ← nn_assert (p_state (n_pipe n) =? NN_PIPEBASE_STATE_IDLE);
  let n := set_pipe (Pipe NN_PIPEBASE_STATE_ACTIVE NN_PIPEBASE_INSTATE_ASYNC NN_PIPEBASE_OUTSTATE_IDLE) n in
  let '(excl, rc) := nn_excl_add (n_excl n) (pipe_of x) in
  let n := set_excl excl n in
  if rc <? 0 then
    Some (set_pipe (Pipe NN_PIPEBASE_STATE_FAILED (p_instate (n_pipe n)) (p_outstate (n_pipe n))) n, rc)
  else n ← nn_fsm_raise NN_PIPE_OUT n; Some (n, 0).

Definition nn_pipebase_received (n : node) : option node :=
  if p_instate (n_pipe n) =? NN_PIPEBASE_INSTATE_RECEIVING then
    Some (set_pipe (set_instate NN_PIPEBASE_INSTATE_RECEIVED (n_pipe n)) n)
  else
    _ ← nn_assert (p_instate (n_pipe n) =? NN_PIPEBASE_INSTATE_ASYNC);
    nn_fsm_raise NN_PIPE_IN (set_pipe (set_instate NN_PIPEBASE_INSTATE_IDLE (n_pipe n)) n).

Definition nn_pipebase_sent (n : node) : option node :=
  if p_outstate (n_pipe n) =? NN_PIPEBASE_OUTSTATE_SENDING then
    Some (set_pipe (set_outstate NN_PIPEBASE_OUTSTATE_SENT (n_pipe n)) n)
  else
    _ ← nn_assert (p_outstate (n_pipe n) =? NN_PIPEBASE_OUTSTATE_ASYNC);
    nn_fsm_raise NN_PIPE_OUT (set_pipe (set_outstate NN_PIPEBASE_OUTSTATE_IDLE (n_pipe n)) n).

(** [send] and [recv] are those of the transport, [vfptr]. *)
Definition nn_pipe_send (send : conn → option (conn * Z)) (x : bool) (s : conn) : option (conn * Z) :=
  let n := get x s in
  _ ← nn_assert (p_outstate (n_pipe n) =? NN_PIPEBASE_OUTSTATE_IDLE);
  let s := put x (set_pipe (set_outstate NN_PIPEBASE_OUTSTATE_SENDING (n_pipe n)) n) s in
  '(s, rc) ← send s;
  _ ← nn_assert (0 <=? rc);
  let n := get x s in
  if p_outstate (n_pipe n) =? NN_PIPEBASE_OUTSTATE_SENT then
    Some (put x (set_pipe (set_outstate NN_PIPEBASE_OUTSTATE_IDLE (n_pipe n)) n) s, rc)
  else
    _ ← nn_assert (p_outstate (n_pipe n) =? NN_PIPEBASE_OUTSTATE_SENDING);
    Some (put x (set_pipe (set_outstate NN_PIPEBASE_OUTSTATE_ASYNC (n_pipe n)) n) s, Z.lor rc NN_PIPE_RELEASE).

Definition nn_pipe_recv (recv : conn → option (conn * Z * option nn_msg)) (x : bool) (s : conn) :
    option (conn * Z * option nn_msg) :=
  let n := get x s in
  _ ← nn_assert (p_instate (n_pipe n) =? NN_PIPEBASE_INSTATE_IDLE);
  let s := put x (set_pipe (set_instate NN_PIPEBASE_INSTATE_RECEIVING (n_pipe n)) n) s in
  '(s, rc, msg) ← recv s;
  _ ← nn_assert (0 <=? rc);
  let n := get x s in
  if p_instate (n_pipe n) =? NN_PIPEBASE_INSTATE_RECEIVED then
    Some (put x (set_pipe (set_instate NN_PIPEBASE_INSTATE_IDLE (n_pipe n)) n) s, rc, msg)
  else
    _ ← nn_assert (p_instate (n_pipe n) =? NN_PIPEBASE_INSTATE_RECEIVING);
    Some (put x (set_pipe (set_instate NN_PIPEBASE_INSTATE_ASYNC (n_pipe n)) n) s, Z.lor rc NN_PIPE_RELEASE, msg).

(** ** [transports/inproc/sinproc.c] *)
Definition nn_sinproc_init (rcvbuf : Z) : node :=
  Node NN_SINPROC_STATE_IDLE 0 None nn_pipebase_init (nn_msgqueue_init (size_t rcvbuf)) (nn_msg_init 0)
    nn_excl_init [] [].

Definition nn_sinproc_send (x : bool) (msg : nn_msg) (s : conn) : option (conn * Z) :=
  let n := get x s in
  if n_state n =? NN_SINPROC_STATE_DISCONNECTED then Some (s, - ECONNRESET) else
  _ ← nn_assert (n_state n =? NN_SINPROC_STATE_ACTIVE);
  _ ← nn_assert (Z.land (n_flags n) NN_SINPROC_FLAG_SENDING =? 0);
  let nmsg := Msg [] [] (sphdr msg ++ body msg) in
  let n := set_msg nmsg n in
  let n := set_flags (Z.lor (n_flags n) NN_SINPROC_FLAG_SENDING) n in
  _ ← n_peer n;
  n ← nn_fsm_raiseto NN_SINPROC_SENT n;
  Some (put x n s, 0).

Definition nn_sinproc_recv (x : bool) (s : conn) : option (conn * Z * option nn_msg) :=
  let n := get x s in
  _ ← nn_assert ((n_state n =? NN_SINPROC_STATE_ACTIVE) || (n_state n =? NN_SINPROC_STATE_DISCONNECTED));
  '(q, rc, msg) ← nn_msgqueue_recv (n_queue n);
  _ ← nn_assert (rc =? 0);
  let n := set_queue q n in
  let s := put x n s in
  s ← (if negb (n_state n =? NN_SINPROC_STATE_DISCONNECTED) && negb (Z.land (n_flags n) NN_SINPROC_FLAG_RECEIVING =? 0) then
         y ← n_peer n;
         let p := get y s in
         '(q, rc) ← nn_msgqueue_send (n_queue n) (n_msg p);
         _ ← nn_assert ((rc =? 0) || (rc =? - EAGAIN));
         let n := set_queue q n in
         if rc =? 0 then
           let s := put y (set_msg (nn_msg_init 0) p) s in
           n ← nn_fsm_raiseto NN_SINPROC_RECEIVED n;
           let n := set_flags (Z.ldiff (n_flags n) NN_SINPROC_FLAG_RECEIVING) n in
           Some (put x n s)
         else Some (put x n s)
       else Some s);
  let n := get x s in
  if nn_msgqueue_empty (n_queue n) =? 0 then n ← nn_pipebase_received n; Some (put x n s, 0, msg)
  else Some (s, 0, msg).

(** What the handler of a session is told: an action of its own, or an event of the
    session [srcptr]. *)
Inductive sinproc_input := NN_FSM_START | NN_SINPROC_ACTION_READY | Peer (type : peer_event) (srcptr : bool).

Definition started (x : bool) (n : node) : option node :=
  '(n, rc) ← nn_pipebase_start x n;
  _ ← nn_assert (rc =? 0);
  Some (set_state NN_SINPROC_STATE_ACTIVE n).

Definition nn_sinproc_handler (x : bool) (i : sinproc_input) (s : conn) : option conn :=
  let n := get x s in
  if n_state n =? NN_SINPROC_STATE_IDLE then
    match i with
    | NN_FSM_START => Some (put x (set_state NN_SINPROC_STATE_CONNECTING n) s)
    | _ => None
    end
  else if n_state n =? NN_SINPROC_STATE_CONNECTING then
    match i with
    | NN_SINPROC_ACTION_READY => Some (put x (set_state NN_SINPROC_STATE_READY n) s)
    | Peer NN_SINPROC_READY srcptr =>
        n ← started x (set_peer (Some srcptr) n);
        n ← nn_fsm_raiseto NN_SINPROC_ACCEPTED n;
        Some (put x n s)
    | _ => None
    end
  else if n_state n =? NN_SINPROC_STATE_READY then
    match i with
    | Peer (NN_SINPROC_READY | NN_SINPROC_ACCEPTED) _ => n ← started x n; Some (put x n s)
    | _ => None
    end
  else if n_state n =? NN_SINPROC_STATE_ACTIVE then
    match i with
    | Peer NN_SINPROC_SENT _ =>
        let empty := nn_msgqueue_empty (n_queue n) in
        y ← n_peer n;
        let p := get y s in
        '(q, rc) ← nn_msgqueue_send (n_queue n) (n_msg p);
        let n := set_queue q n in
        if rc =? - EAGAIN then Some (put x (set_flags (Z.lor (n_flags n) NN_SINPROC_FLAG_RECEIVING) n) s) else
        _ ← nn_assert (rc =? 0);
        let s := put y (set_msg (nn_msg_init 0) p) s in
        n ← (if negb (empty =? 0) then nn_pipebase_received n else Some n);
        n ← nn_fsm_raiseto NN_SINPROC_RECEIVED n;
        Some (put x n s)
    | Peer NN_SINPROC_RECEIVED _ =>
        _ ← nn_assert (negb (Z.land (n_flags n) NN_SINPROC_FLAG_SENDING =? 0));
        n ← nn_pipebase_sent n;
        Some (put x (set_flags (Z.ldiff (n_flags n) NN_SINPROC_FLAG_SENDING) n) s)
    | _ => None
    end
  else None.

Definition nn_sinproc_connect (x : bool) (s : conn) : option conn :=
  s ← nn_sinproc_handler x NN_FSM_START s;
  n ← nn_fsm_raiseto NN_SINPROC_CONNECT (get x s);
  Some (put x n s).

Definition nn_sinproc_accept (x : bool) (peer : bool) (s : conn) : option conn :=
  let n := get x s in
  _ ← nn_assert (bool_decide (n_peer n = None));
  n ← nn_fsm_raiseto NN_SINPROC_READY (set_peer (Some peer) n);
  s ← nn_sinproc_handler x NN_FSM_START (put x n s);
  nn_sinproc_handler x NN_SINPROC_ACTION_READY s.

(** ** [protocols/pair/xpair.c] over [nn_excl_send] and [nn_excl_recv] *)
Definition nn_excl_send (x : bool) (msg : nn_msg) (s : conn) : option (conn * Z) :=
  match x_outpipe (n_excl (get x s)) with
  | None => Some (s, - EAGAIN)
  | Some _ =>
      '(s, rc) ← nn_pipe_send (nn_sinproc_send x msg) x s;
      _ ← nn_assert (0 <=? rc);
      let n := get x s in
      let s := if negb (Z.land rc NN_PIPE_RELEASE =? 0)
               then put x (set_excl (Excl (x_pipe (n_excl n)) (x_inpipe (n_excl n)) None) n) s else s in
      Some (s, Z.ldiff rc NN_PIPE_RELEASE)
  end.

Definition nn_excl_recv (x : bool) (s : conn) : option (conn * Z * option nn_msg) :=
  match x_inpipe (n_excl (get x s)) with
  | None => Some (s, - EAGAIN, None)
  | Some _ =>
      '(s, rc, msg) ← nn_pipe_recv (nn_sinproc_recv x) x s;
      _ ← nn_assert (0 <=? rc);
      let n := get x s in
      let s := if negb (Z.land rc NN_PIPE_RELEASE =? 0)
               then put x (set_excl (Excl (x_pipe (n_excl n)) None (x_outpipe (n_excl n))) n) s else s in
      Some (s, Z.ldiff rc NN_PIPE_RELEASE, msg)
  end.

Definition nn_xpair_send (x : bool) (msg : nn_msg) (s : conn) : option (conn * Z) := nn_excl_send x msg s.

Definition nn_xpair_recv (x : bool) (s : conn) : option (conn * Z * option nn_msg) :=
  '(s, rc, msg) ← nn_excl_recv x s; Some (s, if rc <? 0 then rc else 0, msg).

(** ** The events are processed *)

(** [nn_ctx_leave] processes the events of its own context in their order; here those
    of a pipe reach [nn_sock_handler]. *)
Definition nn_sock_handler (x : bool) (e : pipe_event) (s : conn) : option conn :=
  let n := get x s in
  excl ← match e with
         | NN_PIPE_IN => nn_excl_in (n_excl n) (pipe_of x)
         | NN_PIPE_OUT => nn_excl_out (n_excl n) (pipe_of x)
         end;
  Some (put x (set_excl excl n) s).

Definition process_event (x : bool) (s : conn) : option conn :=
  match n_events (get x s) with
  | [] => Some s
  | e :: es => nn_sock_handler x e (put x (set_events es (get x s)) s)
  end.

(** The [i]-th event of session [x] for its peer is processed, in the context of the
    peer; [CONNECT] goes to the endpoint that owns the peer, which accepts. *)
Definition process_eventto (x : bool) (i : nat) (s : conn) : option conn :=
  match n_eventsto (get x s) !! i with
  | None => Some s
  | Some e =>
      let s := put x (set_eventsto (delete i (n_eventsto (get x s))) (get x s)) s in
      match e with
      | NN_SINPROC_CONNECT => nn_sinproc_accept (negb x) x s
      | _ => nn_sinproc_handler (negb x) (Peer e x) s
      end
  end.
