(* ===== verification/NnInprocSpec.v ===== *)
(** * What a connection inside one process promises

    Whatever the two users send and receive, and in whatever order the events between
    the sessions are processed, no assertion fails, and each direction is a first in,
    first out channel that loses nothing. *)

From S2P Require Import Prelude NnMsgQueue NnMsgQueueSpec NnInproc.
From stdpp Require Import base numbers list gmap.
#[local] Open Scope Z_scope.

(** ** The operations *)
Inductive conn_op :=
  | USend (x : bool) (m : nn_msg)
  | URecv (x : bool)
  | Event (x : bool)
  | EventTo (x : bool) (i : nat).

(** The connection, the code and what is received. *)
Definition conn_step (s : conn) (o : conn_op) : option (conn * (Z * option nn_msg)) :=
  match o with
  | USend x m => '(s, rc) ← nn_xpair_send x m s; Some (s, (rc, None))
  | URecv x => '(s, rc, m) ← nn_xpair_recv x s; Some (s, (rc, m))
  | Event x => s ← process_event x s; Some (s, (0, None))
  | EventTo x i => s ← process_eventto x i s; Some (s, (0, None))
  end.

Fixpoint conn_run (s : conn) (ops : list conn_op) : option (conn * list (Z * option nn_msg)) :=
  match ops with
  | [] => Some (s, [])
  | o :: ops => '(s, r) ← conn_step s o; '(s, rs) ← conn_run s ops; Some (s, r :: rs)
  end.

(** The header of a message travels in its body. *)
Definition flat (m : nn_msg) : nn_msg := Msg [] [] (sphdr m ++ body m).

(** What user [x] sent with success, and what it received. *)
Definition sent_of (x : bool) (o : conn_op) (r : Z * option nn_msg) : list nn_msg :=
  match o with USend x' m => if decide (x' = x ∧ r.1 = 0) then [flat m] else [] | _ => [] end.
Definition got_of (x : bool) (o : conn_op) (r : Z * option nn_msg) : list nn_msg :=
  match o with URecv x' => if decide (x' = x) then option_list r.2 else [] | _ => [] end.

Fixpoint log (f : conn_op → Z * option nn_msg → list nn_msg) (ops : list conn_op) (rs : list (Z * option nn_msg)) : list nn_msg :=
  match ops, rs with o :: ops, r :: rs => f o r ++ log f ops rs | _, _ => [] end.

(** ** The invariant

    A message that was sent is on its way to the peer, held by the peer that has no
    place for it, or acknowledged. *)
Inductive phase := Idle | Sent | Held | Acked.

#[export] Instance phase_dec : EqDecision phase.
Proof. solve_decision. Defined.

Definition flags_of (p p' : phase) : Z :=
  Z.lor (if decide (p = Idle) then 0 else NN_SINPROC_FLAG_SENDING) (if decide (p' = Held) then NN_SINPROC_FLAG_RECEIVING else 0).

Definition events_of (pin pout : bool) (es : list pipe_event) : Prop :=
  NoDup es ∧ (NN_PIPE_IN ∈ es ↔ pin = true) ∧ (NN_PIPE_OUT ∈ es ↔ pout = true).

Definition flight_of (p p' : phase) (es : list peer_event) : Prop :=
  NoDup es ∧ ∀ e, e ∈ es ↔ (e = NN_SINPROC_SENT ∧ p = Sent) ∨ (e = NN_SINPROC_RECEIVED ∧ p' = Acked).

(** A node whose own direction is in phase [p] and the other one in [p'], with the
    queue [ms]: [pin] and [pout] tell whether the socket is still to be told that there
    is a message, or a place. *)
Inductive node_ok (x : bool) (p p' : phase) (ms : list nn_msg) (msg : nn_msg) : node → Prop :=
  | NodeOk q (pin pout : bool) es fs :
      mq_rep q ms →
      (pin = true → ms ≠ []) → (pout = true → p = Idle) → (p' = Held → ms ≠ []) →
      events_of pin pout es → flight_of p p' fs →
      node_ok x p p' ms msg
        (Node NN_SINPROC_STATE_ACTIVE (flags_of p p') (Some (negb x))
          (Pipe NN_PIPEBASE_STATE_ACTIVE
            (if decide (ms = []) then NN_PIPEBASE_INSTATE_ASYNC else NN_PIPEBASE_INSTATE_IDLE)
            (if decide (p = Idle) then NN_PIPEBASE_OUTSTATE_IDLE else NN_PIPEBASE_OUTSTATE_ASYNC))
          q msg
          (Excl (Some (pipe_of x)) (if decide (ms = []) then None else if pin then None else Some (pipe_of x))
            (if decide (p = Idle) then if pout then None else Some (pipe_of x) else None))
          es fs).

(** What is between the two users, in one direction. *)
Definition pending (p : phase) (msg : nn_msg) : list nn_msg := match p with Sent | Held => [msg] | _ => [] end.

Definition inv (x : bool) (s : conn) (p p' : phase) (ms ms' : list nn_msg) (m m' : nn_msg) : Prop :=
  node_ok x p p' ms m (get x s) ∧ node_ok (negb x) p' p ms' m' (get (negb x) s).

Lemma inv_swap x s p p' ms ms' m m' : inv x s p p' ms ms' m m' → inv (negb x) s p' p ms' ms m' m.
Proof. intros [H1 H2]. split; [done|]. by rewrite negb_involutive. Qed.

Lemma get_put x n s : get x (put x n s) = n.
Proof. by destruct x. Qed.

Lemma get_put_other x n s : get (negb x) (put x n s) = get (negb x) s.
Proof. by destruct x. Qed.

Lemma get_put_other' x n s : get x (put (negb x) n s) = get x s.
Proof. by destruct x. Qed.

Lemma get_nn x s : get (negb (negb x)) s = get x s.
Proof. by destruct x. Qed.

Lemma put_nn x n s : put (negb (negb x)) n s = put x n s.
Proof. by destruct x. Qed.

Lemma put_put x n n' s : put x n (put x n' s) = put x n s.
Proof. by destruct x. Qed.

Lemma raise_in pout es n : events_of false pout es → n_events n = es →
  ∃ es', nn_fsm_raise NN_PIPE_IN n = Some (set_events es' n) ∧ events_of true pout es'.
Proof.
  intros (Hnd & Hi & Ho) <-. unfold nn_fsm_raise. rewrite bool_decide_eq_true_2 by (rewrite Hi; done). cbn.
  eexists. split; [done|]. split_and!; [apply NoDup_app; split_and!; [done| |apply NoDup_singleton]|..]; set_solver.
Qed.

Lemma raise_out pin es n : events_of pin false es → n_events n = es →
  ∃ es', nn_fsm_raise NN_PIPE_OUT n = Some (set_events es' n) ∧ events_of pin true es'.
Proof.
  intros (Hnd & Hi & Ho) <-. unfold nn_fsm_raise. rewrite bool_decide_eq_true_2 by (rewrite Ho; done). cbn.
  eexists. split; [done|]. split_and!; [apply NoDup_app; split_and!; [done| |apply NoDup_singleton]|..]; set_solver.
Qed.

Lemma raiseto_ok p p' fs n e : flight_of p p' fs → n_eventsto n = fs → e ∉ fs → e = NN_SINPROC_SENT ∨ e = NN_SINPROC_RECEIVED →
  nn_fsm_raiseto e n = Some (set_eventsto (fs ++ [e]) n) ∧ NoDup (fs ++ [e]).
Proof.
  intros (Hnd & Hf) <- Hn He. unfold nn_fsm_raiseto.
  assert (existsb (same_event e) (n_eventsto n) = false) as ->.
  { apply not_true_iff_false. intros (e' & Hin%list_elem_of_In & Hs)%existsb_exists.
    apply Hf in Hin as Hin'. destruct He, Hin' as [[]|[]]; subst; done. }
  cbn. split; [done|]. apply NoDup_app. split_and!; [done|set_solver|apply NoDup_singleton].
Qed.

Lemma flags_sending p p' : negb (Z.land (flags_of p p') NN_SINPROC_FLAG_SENDING =? 0) = negb (bool_decide (p = Idle)).
Proof. by destruct p, p'. Qed.

Lemma flags_receiving p p' : negb (Z.land (flags_of p p') NN_SINPROC_FLAG_RECEIVING =? 0) = bool_decide (p' = Held).
Proof. by destruct p, p'. Qed.

#[local] Opaque nn_msgqueue_send nn_msgqueue_recv nn_msgqueue_empty.
#[local] Arguments get : simpl never.
#[local] Arguments put : simpl never.
#[local] Arguments flags_of : simpl never.

(** The fields of nodes that are changed, and the tests on constants. *)
Ltac fields :=
  cbv [set_state set_flags set_peer set_pipe set_queue set_msg set_excl set_events set_eventsto set_instate set_outstate nn_assert];
  cbn [n_state n_flags n_peer n_pipe n_queue n_msg n_excl n_events n_eventsto p_state p_instate p_outstate
    x_pipe x_inpipe x_outpipe mbind option_bind].
Ltac tests :=
  repeat match goal with
  | |- context [if ?b then _ else _] =>
      lazymatch type of b with bool =>
        let v := eval vm_compute in b in
        lazymatch v with true => change b with true | false => change b with false end
      end
  end; cbn [mbind option_bind].
Ltac nodes := repeat (progress (fields; rewrite ?get_put, ?get_put_other, ?get_put_other', ?put_put, ?get_nn, ?put_nn; tests)).

(** The phase of the other direction matters only when it is [Held] or [Acked]. *)
Lemma other_phase x p p1 p2 ms m n :
  (p1 = Held ↔ p2 = Held) → (p1 = Acked ↔ p2 = Acked) → node_ok x p p1 ms m n → node_ok x p p2 ms m n.
Proof.
  intros Hh Ha [q pin pout es fs R Hin Hout Hheld He [Hnd Hf]].
  assert (flags_of p p1 = flags_of p p2) as ->.
  { unfold flags_of. f_equal. destruct (decide (p1 = Held)), (decide (p2 = Held)); tauto. }
  apply NodeOk; try done; [tauto|]. split; [done|]. intros e. rewrite Hf. tauto.
Qed.

(** ** The operations *)

Lemma inproc_send_ok x s p p' ms ms' m m' msg :
  inv x s p p' ms ms' m m' →
  ∃ s' rc, nn_xpair_send x msg s = Some (s', rc) ∧
    ((rc = 0 ∧ p = Idle ∧ inv x s' Sent p' ms ms' (flat msg) m') ∨
     (rc = - EAGAIN ∧ s' = s ∧ (p = Idle → NN_PIPE_OUT ∈ n_events (get x s)))).
Proof.
  intros [H1 H2]. unfold nn_xpair_send, nn_excl_send. remember (get x s) as n eqn:En.
  destruct H1 as [q pin pout es fs R Hin Hout Hheld He Hfl]. cbn [n_excl x_outpipe].
  destruct (decide (p = Idle)) as [->|Hp].
  2:{ exists s, (- EAGAIN). split; [done|]. right. done. }
  destruct pout.
  { exists s, (- EAGAIN). split; [done|]. right. split_and!; [done..|]. intros _. by apply He. }
  unfold nn_pipe_send. rewrite <-En. nodes. unfold nn_sinproc_send. nodes.
  assert (Z.land (flags_of Idle p') NN_SINPROC_FLAG_SENDING =? 0 = true) as -> by by destruct p'.
  nodes.
  match goal with |- context [nn_fsm_raiseto _ ?n] => destruct (raiseto_ok Idle p' fs n NN_SINPROC_SENT Hfl eq_refl) as [-> Hnd'] end;
    [destruct Hfl as [_ ->]; naive_solver|by left|]. nodes.
  eexists _, _. split; [done|]. left. split_and!; [done..|]. split; nodes.
  - assert (Z.lor (flags_of Idle p') NN_SINPROC_FLAG_SENDING = flags_of Sent p') as -> by by destruct p'.
    apply (NodeOk x Sent p' ms _ q pin false es); try done. split; [done|].
    destruct Hfl as [_ Hf]. intros e. rewrite elem_of_app, Hf, list_elem_of_singleton. naive_solver.
  - by apply (other_phase _ _ Idle).
Qed.

Lemma delete_nodup {A} `{EqDecision A} (l : list A) i e :
  NoDup l → l !! i = Some e → NoDup (delete i l) ∧ ∀ x, x ∈ delete i l ↔ x ∈ l ∧ x ≠ e.
Proof.
  intros Hnd Hi. pose proof (take_drop_middle l i e Hi) as E.
  assert (∀ x, x ∈ l ↔ x ∈ take i l ++ e :: drop (S i) l) as Hl by (intros x; by rewrite E).
  rewrite <-E in Hnd. assert (NoDup (e :: take i l ++ drop (S i) l)) as [Hn Hnd']%NoDup_cons by by rewrite Permutation_middle.
  rewrite delete_take_drop. split; [done|]. intros x. rewrite Hl. apply not_elem_of_app in Hn. set_solver.
Qed.

Lemma event_ok x s p p' ms ms' m m' :
  inv x s p p' ms ms' m m' → ∃ s', process_event x s = Some s' ∧ inv x s' p p' ms ms' m m'.
Proof.
  intros [H1 H2]. unfold process_event. remember (get x s) as n eqn:En.
  destruct H1 as [q pin pout es fs R Hin Hout Hheld (Hnd & Hi & Ho) Hfl]. cbn [n_events].
  destruct es as [|e es].
  { exists s. split; [done|]. split; [|done]. rewrite <-En. apply NodeOk; try done. }
  apply NoDup_cons in Hnd as [Hn Hnd]. unfold nn_sock_handler. nodes.
  destruct e.
  - assert (pin = true) as -> by (apply Hi; left). pose proof (Hin eq_refl) as Hms.
    rewrite !(decide_False (P := ms = [])) by done. unfold nn_excl_in. nodes.
    rewrite !bool_decide_eq_true_2 by done. nodes.
    eexists. split; [done|]. split; nodes; [|done].
    pose proof (NodeOk x p p' ms m q false pout es fs) as K. rewrite !(decide_False (P := ms = [])) in K by done. apply K; try done. split_and!; [done|set_solver|set_solver].
  - assert (pout = true) as -> by (apply Ho; left). rewrite Hout in * by done. unfold nn_excl_out. nodes.
    rewrite !bool_decide_eq_true_2 by done. nodes.
    eexists. split; [done|]. split; nodes; [|done].
    apply (NodeOk x Idle p' ms m q pin false es fs); try done. split_and!; [done|set_solver|set_solver].
Qed.

Lemma flight_other p p1 p2 fs : p1 ≠ Acked → p2 ≠ Acked → flight_of p p1 fs → flight_of p p2 fs.
Proof. intros H1 H2 [Hnd Hf]. split; [done|]. intros e. rewrite Hf. tauto. Qed.

Lemma popped_sent y p1 p ms m n i msg : node_ok y Sent p ms m n → n_eventsto n !! i = Some NN_SINPROC_SENT →
  p1 = Held ∨ p1 = Acked → node_ok y p1 p ms msg (set_msg msg (set_eventsto (delete i (n_eventsto n)) n)).
Proof.
  intros [q pin pout es fs R Hin Hout Hheld He [Hnd Hf]] Hi Hp. cbn in Hi. destruct (delete_nodup _ _ _ Hnd Hi) as [Hnd' Hd].
  assert (pout = false) as -> by by destruct pout; [specialize (Hout eq_refl)|]. fields.
  assert (flags_of Sent p = flags_of p1 p) as -> by by destruct Hp as [-> | ->].
  pose proof (NodeOk y p1 p ms msg q pin false es (delete i fs)) as K.
  assert (flight_of p1 p (delete i fs)) as Hfl.
  { split; [done|]. intros e. rewrite Hd, Hf. destruct Hp; naive_solver. }
  destruct Hp as [-> | ->]; by apply K.
Qed.

Lemma popped_received y p ms m n i : node_ok y p Acked ms m n → n_eventsto n !! i = Some NN_SINPROC_RECEIVED →
  node_ok y p Idle ms m (set_eventsto (delete i (n_eventsto n)) n).
Proof.
  intros [q pin pout es fs R Hin Hout Hheld He [Hnd Hf]] Hi. cbn in Hi. destruct (delete_nodup _ _ _ Hnd Hi) as [Hnd' Hd]. fields.
  apply (NodeOk y p Idle ms m q pin pout es (delete i fs)); try done.
  split; [done|]. intros e. rewrite Hd, Hf. naive_solver.
Qed.

(** The peer has the message: in its queue, or held. *)
Lemma sent_handler x s p p' ms ms' m m' n1 :
  inv x s p p' ms ms' m m' → p = Sent → Z.of_nat (length ms') + 1 < 2 ^ 64 → n_msg n1 = m →
  (∀ p1 msg, p1 = Held ∨ p1 = Acked → node_ok x p1 p' ms msg (set_msg msg n1)) →
  ∃ s', nn_sinproc_handler (negb x) (Peer NN_SINPROC_SENT x) (put x n1 s) = Some s' ∧
    (inv x s' Held p' ms ms' m m' ∨ inv x s' Acked p' ms (ms' ++ [m]) (nn_msg_init 0) m').
Proof.
  intros [_ H2] -> Hlen Hm Hn1. unfold nn_sinproc_handler. rewrite get_put_other. remember (get (negb x) s) as n2 eqn:En.
  destruct H2 as [q pin pout es fs R Hin Hout Hheld He Hfl]. nodes. rewrite Hm.
  pose proof (mq_count _ _ R) as Hc.
  destruct (nn_msgqueue_send_spec q ms' m R Hlen) as [[[Hf _] ->]|(Hf & q' & -> & R' & _)]; nodes.
  - eexists. split; [done|]. left. assert (ms' ≠ []) as Hne by (intros ->; cbn in Hc; lia).
    assert (Z.lor (flags_of p' Sent) NN_SINPROC_FLAG_RECEIVING = flags_of p' Held) as -> by by destruct p'.
    split; [|nodes; apply (NodeOk (negb x) p' Held ms' m' q pin pout es fs); try done; by apply (flight_other _ Sent)].
    rewrite get_put_other', get_put. specialize (Hn1 Held m (or_introl eq_refl)). destruct n1; cbn in Hm; subst; done.
  - assert (∃ es' pin', (if negb (nn_msgqueue_empty q =? 0) then
        nn_pipebase_received (Node NN_SINPROC_STATE_ACTIVE (flags_of p' Sent) (Some (negb (negb x)))
          (Pipe NN_PIPEBASE_STATE_ACTIVE (if decide (ms' = []) then NN_PIPEBASE_INSTATE_ASYNC else NN_PIPEBASE_INSTATE_IDLE)
            (if decide (p' = Idle) then NN_PIPEBASE_OUTSTATE_IDLE else NN_PIPEBASE_OUTSTATE_ASYNC)) q' m'
          (Excl (Some (pipe_of (negb x))) (if decide (ms' = []) then None else if pin then None else Some (pipe_of (negb x)))
            (if decide (p' = Idle) then if pout then None else Some (pipe_of (negb x)) else None)) es fs)
      else Some (Node NN_SINPROC_STATE_ACTIVE (flags_of p' Sent) (Some (negb (negb x)))
          (Pipe NN_PIPEBASE_STATE_ACTIVE (if decide (ms' = []) then NN_PIPEBASE_INSTATE_ASYNC else NN_PIPEBASE_INSTATE_IDLE)
            (if decide (p' = Idle) then NN_PIPEBASE_OUTSTATE_IDLE else NN_PIPEBASE_OUTSTATE_ASYNC)) q' m'
          (Excl (Some (pipe_of (negb x))) (if decide (ms' = []) then None else if pin then None else Some (pipe_of (negb x)))
            (if decide (p' = Idle) then if pout then None else Some (pipe_of (negb x)) else None)) es fs)) =
      Some (Node NN_SINPROC_STATE_ACTIVE (flags_of p' Sent) (Some (negb (negb x)))
          (Pipe NN_PIPEBASE_STATE_ACTIVE NN_PIPEBASE_INSTATE_IDLE
            (if decide (p' = Idle) then NN_PIPEBASE_OUTSTATE_IDLE else NN_PIPEBASE_OUTSTATE_ASYNC)) q' m'
          (Excl (Some (pipe_of (negb x))) (if pin' : bool then None else Some (pipe_of (negb x)))
            (if decide (p' = Idle) then if pout then None else Some (pipe_of (negb x)) else None)) es' fs) ∧ events_of pin' pout es')
      as (es' & pin' & -> & He').
    { rewrite (nn_msgqueue_empty_spec _ _ R). destruct ms' as [|a ms'].
      - assert (pin = false) as -> by (destruct pin; [by destruct (Hin eq_refl)|done]).
        nodes. unfold nn_pipebase_received. nodes.
        match goal with |- context [nn_fsm_raise _ ?n] => destruct (raise_in pout es n He eq_refl) as (es' & -> & He') end.
        exists es', true. split; [|done]. by nodes.
      - exists es, pin. split; [by nodes|done]. }
    nodes.
    match goal with |- context [nn_fsm_raiseto _ ?n] => destruct (raiseto_ok p' Sent fs n NN_SINPROC_RECEIVED Hfl eq_refl) as [-> Hnd'] end;
      [destruct Hfl as [_ ->]; naive_solver|by right|]. nodes.
    eexists. split; [done|]. right. split; nodes.
    + apply (Hn1 Acked). by right.
    + assert (flags_of p' Sent = flags_of p' Acked) as -> by by destruct p'.
      pose proof (NodeOk (negb x) p' Acked (ms' ++ [m]) m' q' pin' pout es' (fs ++ [NN_SINPROC_RECEIVED]) R') as K.
      rewrite !(decide_False (P := ms' ++ [m] = [])) in K by by destruct ms'.
      apply K; try done; [by destruct ms'|]. split; [done|]. destruct Hfl as [_ Hf']. intros e.
      rewrite elem_of_app, Hf', list_elem_of_singleton. naive_solver.
Qed.

(** The peer learns that its message was taken. *)
Lemma received_handler x s p p' ms ms' m m' n1 :
  inv x s p p' ms ms' m m' → p' = Acked → node_ok x p Idle ms m n1 →
  ∃ s', nn_sinproc_handler (negb x) (Peer NN_SINPROC_RECEIVED x) (put x n1 s) = Some s' ∧ inv x s' p Idle ms ms' m m'.
Proof.
  intros [_ H2] -> Hn1. unfold nn_sinproc_handler. rewrite get_put_other. remember (get (negb x) s) as n2 eqn:En.
  destruct H2 as [q pin pout es fs R Hin Hout Hheld He Hfl]. nodes.
  assert (negb (Z.land (flags_of Acked p) NN_SINPROC_FLAG_SENDING =? 0) = true) as -> by by destruct p. nodes.
  assert (pout = false) as -> by by destruct pout; [specialize (Hout eq_refl)|].
  unfold nn_pipebase_sent. nodes.
  match goal with |- context [nn_fsm_raise _ ?n] => destruct (raise_out pin es n He eq_refl) as (es' & -> & He') end. nodes.
  eexists. split; [done|]. split; nodes; [done|].
  assert (Z.ldiff (flags_of Acked p) NN_SINPROC_FLAG_SENDING = flags_of Idle p) as -> by by destruct p.
  apply (NodeOk (negb x) Idle p ms' m' q pin true es' fs); try done.
  destruct Hfl as [Hnd Hf]. split; [done|]. intros e. rewrite Hf. naive_solver.
Qed.

Lemma eventto_ok x i s p p' ms ms' m m' :
  inv x s p p' ms ms' m m' → Z.of_nat (length ms') + 1 < 2 ^ 64 →
  ∃ s', process_eventto x i s = Some s' ∧
    (inv x s' p p' ms ms' m m' ∨
     (p = Sent ∧ (inv x s' Held p' ms ms' m m' ∨ inv x s' Acked p' ms (ms' ++ [m]) (nn_msg_init 0) m')) ∨
     (p' = Acked ∧ inv x s' p Idle ms ms' m m')).
Proof.
  intros Hinv Hlen. pose proof Hinv as [H1 H2]. unfold process_eventto.
  destruct (n_eventsto (get x s) !! i) as [e|] eqn:Ei; [|exists s; split; [done|]; by left].
  assert ((e = NN_SINPROC_SENT ∧ p = Sent) ∨ (e = NN_SINPROC_RECEIVED ∧ p' = Acked)) as He.
  { destruct H1 as [q pin pout es fs _ _ _ _ _ [_ Hf]]. apply Hf. by apply list_elem_of_lookup_2 in Ei. }
  destruct He as [[-> ->]|[-> ->]].
  - destruct (sent_handler x s Sent p' ms ms' m m' (set_eventsto (delete i (n_eventsto (get x s))) (get x s)) Hinv eq_refl Hlen)
      as (s' & Hs' & Hcase).
    + by destruct H1.
    + intros p1 msg Hp. by apply popped_sent with p1 p ms m (get x s) i msg in Hp || by apply (popped_sent x p1 p' ms m).
    + exists s'. split; [done|]. right. left. done.
  - destruct (received_handler x s p Acked ms ms' m m' (set_eventsto (delete i (n_eventsto (get x s))) (get x s)) Hinv eq_refl)
      as (s' & Hs' & Hi'); [by apply popped_received|].
    exists s'. split; [done|]. by right; right.
Qed.

Lemma taken_msg y p1 p ms m n msg : p1 = Held → node_ok y p1 p ms m n → node_ok y Acked p ms msg (set_msg msg n).
Proof.
  intros -> [q pin pout es fs R Hin Hout Hheld He [Hnd Hf]]. fields.
  assert (pout = false) as -> by by destruct pout; [specialize (Hout eq_refl)|].
  assert (flags_of Held p = flags_of Acked p) as -> by by destruct p.
  apply (NodeOk y Acked p ms msg q pin false es fs); try done. split; [done|]. intros e. rewrite Hf. naive_solver.
Qed.

(** There is a message left, so that the pipe stays ready. *)
Ltac recv_tail R :=
  rewrite (nn_msgqueue_empty_spec _ _ R);
  match goal with |- context [match ?l with [] => 1 | _ :: _ => 0 end] =>
    replace (match l with [] => 1 | _ :: _ => 0 end) with 0 by by destruct l end;
  nodes; unfold nn_pipebase_received; nodes.
Ltac recv_node K Hne :=
  let H := fresh in pose proof K as H;
  lazymatch type of Hne with ?l ≠ _ => rewrite !(decide_False (P := l = [])) in H by exact Hne end; apply H; try done.

(** The first message of the queue is received; a message that is held may follow. *)
Lemma inproc_recv_ok x s p p' ms ms' m m' :
  inv x s p p' ms ms' m m' → Z.of_nat (length ms) < 2 ^ 64 →
  ∃ s' rc r, nn_xpair_recv x s = Some (s', rc, r) ∧
    ((rc = - EAGAIN ∧ r = None ∧ s' = s ∧ (ms ≠ [] → NN_PIPE_IN ∈ n_events (get x s))) ∨
     ∃ m0 ms1, ms = m0 :: ms1 ∧ rc = 0 ∧ r = Some m0 ∧
       (inv x s' p p' ms1 ms' m m' ∨ (p' = Held ∧ inv x s' p Acked (ms1 ++ [m']) ms' m (nn_msg_init 0)))).
Proof.
  intros [H1 H2] Hlen. unfold nn_xpair_recv, nn_excl_recv. remember (get x s) as n eqn:En.
  destruct H1 as [q pin pout es fs R Hin Hout Hheld He Hfl]. cbn [n_excl x_inpipe].
  destruct ms as [|m0 ms1].
  { rewrite decide_True by done. exists s, (- EAGAIN), None. split; [done|]. left. done. }
  rewrite !(decide_False (P := m0 :: ms1 = [])) by done.
  destruct pin.
  { exists s, (- EAGAIN), None. split; [done|]. left. split_and!; [done..|]. intros _. by apply He. }
  unfold nn_pipe_recv. rewrite <-En. rewrite !(decide_False (P := m0 :: ms1 = [])) by done. nodes.
  unfold nn_sinproc_recv. nodes.
  destruct (nn_msgqueue_recv_cons q m0 ms1 R Hlen) as (q1 & -> & R1 & _). nodes.
  rewrite flags_receiving. destruct (decide (p' = Held)) as [->|Hh].
  - rewrite bool_decide_eq_true_2 by done. nodes.
    assert (n_msg (get (negb x) s) = m') as -> by by destruct H2.
    destruct (nn_msgqueue_send_spec q1 ms1 m' R1) as [[[Hf _] ->]|(Hf & q2 & -> & R2 & _)]; [cbn [length] in *; lia|..]; nodes.
    + assert (ms1 ≠ []) as Hne by (intros ->; pose proof (mq_count _ _ R1) as Hc; cbn in Hc; lia).
      recv_tail R1. eexists _, _, _. split; [done|]. right. exists m0, ms1. split_and!; [done..|]. left.
      split; nodes; [|done]. recv_node (NodeOk x p Held ms1 m q1 false pout es fs R1) Hne.
    + match goal with |- context [nn_fsm_raiseto _ ?n] => destruct (raiseto_ok p Held fs n NN_SINPROC_RECEIVED Hfl eq_refl) as [-> Hnd'] end;
        [destruct Hfl as [_ ->]; naive_solver|by right|]. nodes.
      assert (ms1 ++ [m'] ≠ []) as Hne by by destruct ms1.
      recv_tail R2. eexists _, _, _. split; [done|]. right. exists m0, ms1. split_and!; [done..|]. right. split; [done|].
      assert (Z.ldiff (flags_of p Held) NN_SINPROC_FLAG_RECEIVING = flags_of p Acked) as -> by by destruct p.
      split; nodes; [|by apply (taken_msg (negb x) Held p ms' m' (get (negb x) s))].
      recv_node (NodeOk x p Acked (ms1 ++ [m']) m q2 false pout es (fs ++ [NN_SINPROC_RECEIVED]) R2) Hne.
      split; [done|]. destruct Hfl as [_ Hf']. intros e. rewrite elem_of_app, Hf', list_elem_of_singleton. naive_solver.
  - rewrite bool_decide_eq_false_2 by done. nodes.
    destruct (decide (ms1 = [])) as [->|Hne].
    + rewrite (nn_msgqueue_empty_spec _ _ R1). nodes.
      eexists _, _, _. split; [done|]. right. exists m0, []. split_and!; [done..|]. left. split; nodes; [|done].
      apply (NodeOk x p p' [] m q1 false pout es fs R1); done.
    + recv_tail R1. eexists _, _, _. split; [done|]. right. exists m0, ms1. split_and!; [done..|]. left.
      split; nodes; [|done]. recv_node (NodeOk x p p' ms1 m q1 false pout es fs R1) Hne.
Qed.

(** ** The whole connection *)

(** Session [true] connects, and the events of the handshake are processed in their
    order. *)
Definition established (rcvbuf rcvbuf' : Z) : option conn :=
  s ← nn_sinproc_connect true (Conn (nn_sinproc_init rcvbuf) (nn_sinproc_init rcvbuf'));
  s ← process_eventto true 0 s;
  s ← process_eventto false 0 s;
  process_eventto true 0 s.

Definition established_node (x : bool) (rcvbuf : Z) : node :=
  Node NN_SINPROC_STATE_ACTIVE 0 (Some (negb x))
    (Pipe NN_PIPEBASE_STATE_ACTIVE NN_PIPEBASE_INSTATE_ASYNC NN_PIPEBASE_OUTSTATE_IDLE)
    (nn_msgqueue_init (size_t rcvbuf)) (nn_msg_init 0) (Excl (Some (pipe_of x)) None None) [NN_PIPE_OUT] [].

#[local] Opaque nn_msgqueue_init size_t.

Lemma established_is a b : established a b = Some (Conn (established_node true a) (established_node false b)).
Proof. reflexivity. Qed.

Lemma established_node_ok x a : node_ok x Idle Idle [] (nn_msg_init 0) (established_node x a).
Proof.
  apply (NodeOk x Idle Idle [] _ (nn_msgqueue_init (size_t a)) false true [NN_PIPE_OUT] []);
    try done; [apply mq_rep_init|split_and!; [apply NoDup_singleton|set_solver|set_solver]|].
  split; [apply NoDup_nil_2|]. intros e. set_solver.
Qed.

Lemma established_ok a b : ∃ s, established a b = Some s ∧ inv true s Idle Idle [] [] (nn_msg_init 0) (nn_msg_init 0).
Proof. eexists. split; [apply established_is|]. split; apply established_node_ok. Qed.

#[local] Transparent nn_msgqueue_init size_t.

(** What is between the users, from [x] to its peer and back. *)
Record flow := Flow { f_out : list nn_msg; f_in : list nn_msg }.

(** The connection is sound, with [f] between the users, and at most [k] messages in
    each queue. *)
Definition sound (x : bool) (s : conn) (f : flow) (k : nat) : Prop :=
  ∃ p p' ms ms' m m', inv x s p p' ms ms' m m' ∧ f = Flow (ms' ++ pending p m) (ms ++ pending p' m') ∧
    (length ms ≤ k)%nat ∧ (length ms' ≤ k)%nat.

Definition turn (f : flow) : flow := Flow (f_in f) (f_out f).

Lemma sound_swap x s f k : sound x s f k → sound (negb x) s (turn f) k.
Proof. intros (p & p' & ms & ms' & m & m' & H & -> & ? & ?). exists p', p, ms', ms, m', m. split; [by apply inv_swap|done]. Qed.

Definition side (o : conn_op) : bool := match o with USend x _ | URecv x | Event x | EventTo x _ => x end.

(** An operation of side [x] keeps what is between the users but for what is sent and
    received. *)
Lemma step_side x s f k o :
  sound x s f k → side o = x → Z.of_nat k + 1 < 2 ^ 64 →
  ∃ s' r f', conn_step s o = Some (s', r) ∧ sound x s' f' (S k) ∧
    f_out f ++ sent_of x o r = f_out f' ∧ f_in f = got_of x o r ++ f_in f'.
Proof.
  intros (p & p' & ms & ms' & m & m' & Hi & -> & Hk & Hk') Ho Hlen.
  destruct o as [y msg|y|y|y i]; cbn in Ho; subst y; cbn [conn_step sent_of got_of f_out f_in].
  - destruct (inproc_send_ok x s p p' ms ms' m m' msg Hi) as (s' & rc & -> & [(-> & -> & Hi')|(-> & -> & _)]); cbn [mbind option_bind].
    + eexists _, _, _. split; [done|]. split; [exists Sent, p', ms, ms', (flat msg), m'; split_and!; [done..|lia|lia]|].
      cbn. rewrite decide_True by done. by rewrite app_nil_r.
    + eexists _, _, _. split; [done|]. split; [exists p, p', ms, ms', m, m'; split_and!; [done..|lia|lia]|].
      cbn. rewrite decide_False by (intros [_ [=]]). by rewrite app_nil_r.
  - destruct (inproc_recv_ok x s p p' ms ms' m m' Hi) as (s' & rc & r & -> & Hcase); [lia|]. cbn [mbind option_bind].
    destruct Hcase as [(-> & -> & -> & _)|(m0 & ms1 & -> & -> & -> & [Hi'|[-> Hi']])]; cbn [length] in *.
    + eexists _, _, _. split; [done|]. split; [exists p, p', ms, ms', m, m'; split_and!; [done..|lia|lia]|].
      cbn. rewrite decide_True by done. by rewrite app_nil_r.
    + eexists _, _, _. split; [done|]. split; [exists p, p', ms1, ms', m, m'; split_and!; [done..|lia|lia]|].
      cbn. rewrite decide_True by done. by rewrite app_nil_r.
    + eexists _, _, _. split; [done|]. split;
        [exists p, Acked, (ms1 ++ [m']), ms', m, (nn_msg_init 0); split_and!; [done..|rewrite length_app; cbn; lia|lia]|].
      cbn. rewrite decide_True by done. by rewrite !app_nil_r.
  - destruct (event_ok x s p p' ms ms' m m' Hi) as (s' & -> & Hi'). cbn [mbind option_bind].
    eexists _, _, _. split; [done|]. split; [exists p, p', ms, ms', m, m'; split_and!; [done..|lia|lia]|].
    by rewrite app_nil_r.
  - destruct (eventto_ok x i s p p' ms ms' m m' Hi) as (s' & -> & Hcase); [lia|]. cbn [mbind option_bind].
    destruct Hcase as [Hi'|[[-> [Hi'|Hi']]|[-> Hi']]].
    + eexists _, _, _. split; [done|]. split; [exists p, p', ms, ms', m, m'; split_and!; [done..|lia|lia]|].
      by rewrite app_nil_r.
    + eexists _, _, _. split; [done|]. split; [exists Held, p', ms, ms', m, m'; split_and!; [done..|lia|lia]|].
      by rewrite app_nil_r.
    + eexists _, _, _. split; [done|]. split;
        [exists Acked, p', ms, (ms' ++ [m]), (nn_msg_init 0), m'; split_and!; [done..|lia|rewrite length_app; cbn; lia]|].
      cbn. by rewrite !app_nil_r.
    + eexists _, _, _. split; [done|]. split; [exists p, Idle, ms, ms', m, m'; split_and!; [done..|lia|lia]|].
      cbn. by rewrite !app_nil_r.
Qed.

Lemma not_mine x o r : side o = negb x → sent_of x o r = [] ∧ got_of x o r = [].
Proof.
  intros Ho. destruct o; cbn in *; subst; try done.
  - rewrite decide_False; [done|]. intros [H _]. by destruct x.
  - rewrite decide_False; [done|]. intros H. by destruct x.
Qed.

Lemma step_ok x s f k o :
  sound x s f k → Z.of_nat k + 1 < 2 ^ 64 →
  ∃ s' r f', conn_step s o = Some (s', r) ∧ sound x s' f' (S k) ∧
    f_out f ++ sent_of x o r = got_of (negb x) o r ++ f_out f' ∧
    f_in f ++ sent_of (negb x) o r = got_of x o r ++ f_in f'.
Proof.
  intros Hs Hlen. destruct (decide (side o = x)) as [Ho|Ho].
  - destruct (step_side x s f k o Hs Ho Hlen) as (s' & r & f' & H1 & H2 & H3 & H4). exists s', r, f'.
    destruct (not_mine (negb x) o r) as [-> ->]; [by rewrite negb_involutive|]. by rewrite app_nil_r.
  - assert (side o = negb x) as Ho' by (destruct (side o), x; done).
    destruct (step_side (negb x) s (turn f) k o (sound_swap _ _ _ _ Hs) Ho' Hlen) as (s' & r & f' & H1 & H2 & H3 & H4).
    exists s', r, (turn f'). apply sound_swap in H2. rewrite negb_involutive in H2.
    destruct (not_mine x o r Ho') as [-> ->]. rewrite app_nil_r. done.
Qed.

Lemma run_ok x ops s f k :
  sound x s f k → Z.of_nat (k + length ops) < 2 ^ 64 →
  ∃ s' rs f', conn_run s ops = Some (s', rs) ∧ sound x s' f' (k + length ops) ∧
    f_out f ++ log (sent_of x) ops rs = log (got_of (negb x)) ops rs ++ f_out f' ∧
    f_in f ++ log (sent_of (negb x)) ops rs = log (got_of x) ops rs ++ f_in f'.
Proof.
  revert s f k. induction ops as [|o ops IH]; intros s f k Hs Hlen; cbn [conn_run log length] in *.
  { exists s, [], f. rewrite Nat.add_0_r, !app_nil_r. done. }
  destruct (step_ok x s f k o Hs) as (s1 & r & f1 & -> & Hs1 & E1 & E2); [lia|]. cbn [mbind option_bind].
  destruct (IH s1 f1 (S k) Hs1) as (s2 & rs & f2 & -> & Hs2 & E3 & E4); [lia|]. cbn [mbind option_bind].
  exists s2, (r :: rs), f2. split; [done|]. split; [by rewrite <-Nat.add_succ_comm|]. cbn [log].
  rewrite !app_assoc, E1, E2, <-!app_assoc. by rewrite E3, E4.
Qed.

(** ** The events come to an end *)

Definition event_weight (e : peer_event) : nat :=
  match e with NN_SINPROC_SENT => 4 | NN_SINPROC_RECEIVED => 2 | _ => 0 end.
Definition node_weight (n : node) : nat := length (n_events n) + sum_list_with event_weight (n_eventsto n).
Definition weight (s : conn) : nat := node_weight (left_node s) + node_weight (right_node s).

Definition quiet (s : conn) : Prop := ∀ x, n_events (get x s) = [] ∧ n_eventsto (get x s) = [].

Lemma weight_get x s : weight s = (node_weight (get x s) + node_weight (get (negb x) s))%nat.
Proof. unfold weight, get. destruct x; cbn; lia. Qed.

Lemma weight_delete l i e : l !! i = Some e → sum_list_with event_weight l = (event_weight e + sum_list_with event_weight (delete i l))%nat.
Proof.
  intros Hi. rewrite <-(take_drop_middle l i e Hi) at 1. rewrite delete_take_drop.
  rewrite !sum_list_with_app. cbn. lia.
Qed.

Lemma raise_weight e n n' : nn_fsm_raise e n = Some n' → node_weight n' = S (node_weight n).
Proof. unfold nn_fsm_raise, node_weight. destruct (bool_decide _); [|done]. intros [= <-]. cbn. rewrite length_app. cbn. lia. Qed.

Lemma raiseto_weight e n n' : nn_fsm_raiseto e n = Some n' → node_weight n' = (event_weight e + node_weight n)%nat.
Proof.
  unfold nn_fsm_raiseto, node_weight. destruct (negb _); [|done]. intros [= <-]. cbn. rewrite sum_list_with_app. cbn. lia.
Qed.

Lemma received_weight n n' : nn_pipebase_received n = Some n' → (node_weight n' ≤ S (node_weight n))%nat.
Proof.
  unfold nn_pipebase_received. destruct (_ =? _); [intros [= <-]; unfold node_weight; cbn; lia|].
  destruct (_ =? _); [|done]. cbn. intros H%raise_weight. rewrite H. unfold node_weight. cbn. lia.
Qed.

Lemma event_shrinks x s s' : process_event x s = Some s' → n_events (get x s) ≠ [] → (weight s' < weight s)%nat.
Proof.
  unfold process_event. intros H Hne. destruct (n_events (get x s)) as [|e es] eqn:E; [done|].
  unfold nn_sock_handler in H. rewrite get_put in H.
  apply bind_Some in H as (excl & _ & [= <-]). rewrite (weight_get x), (weight_get x s), put_put, get_put, get_put_other.
  unfold node_weight. cbn [n_events n_eventsto set_excl set_events]. rewrite E. cbn [length]. lia.
Qed.

Lemma handler_shrinks x s p p' ms ms' m m' n1 e s' :
  inv x s p p' ms ms' m m' → e = NN_SINPROC_SENT ∨ e = NN_SINPROC_RECEIVED →
  nn_sinproc_handler (negb x) (Peer e x) (put x n1 s) = Some s' →
  (weight s' < event_weight e + node_weight n1 + node_weight (get (negb x) s))%nat.
Proof.
  intros [_ H2] He. unfold nn_sinproc_handler. rewrite get_put_other. remember (get (negb x) s) as n2 eqn:En.
  assert (n_state n2 = NN_SINPROC_STATE_ACTIVE ∧ n_peer n2 = Some (negb (negb x))) as [Es Ep] by by destruct H2.
  rewrite Es. cbn [Z.eqb NN_SINPROC_STATE_ACTIVE NN_SINPROC_STATE_IDLE NN_SINPROC_STATE_CONNECTING NN_SINPROC_STATE_READY Pos.eqb].
  destruct He as [-> | ->].
  - rewrite Ep. cbn [mbind option_bind]. rewrite get_nn, get_put.
    destruct (nn_msgqueue_send _ _) as [[q rc]|]; [|done]. cbn [mbind option_bind].
    destruct (rc =? - EAGAIN).
    { intros [= <-]. rewrite (weight_get (negb x)), get_put, get_put_other, get_nn, get_put. unfold node_weight. cbn. lia. }
    intros (_ & _ & H)%bind_Some. apply bind_Some in H as (n3 & H3 & H). apply bind_Some in H as (n4 & H4 & [= <-]).
    apply raiseto_weight in H4. cbn [event_weight] in *.
    assert (node_weight n3 ≤ S (node_weight n2))%nat as H3'.
    { destruct (negb (nn_msgqueue_empty (n_queue n2) =? 0)); [apply received_weight in H3; revert H3; unfold node_weight; cbn; lia|].
      simplify_eq. unfold node_weight. cbn. lia. }
    rewrite (weight_get (negb x)), get_put, get_put_other, get_put.
    unfold node_weight in *. cbn. lia.
  - intros (_ & _ & H)%bind_Some. apply bind_Some in H as (n3 & H3 & [= <-]).
    assert (node_weight n3 ≤ S (node_weight n2))%nat as H3'.
    { unfold nn_pipebase_sent in H3. destruct (_ =? _); [simplify_eq; unfold node_weight; cbn; lia|].
      destruct (_ =? _); [|done]. cbn in H3. apply raise_weight in H3. rewrite H3. unfold node_weight. cbn. lia. }
    rewrite (weight_get (negb x)), get_put, get_put_other, get_nn, get_put. unfold node_weight in *. cbn. lia.
Qed.

Lemma node_flight x p p' ms m n : node_ok x p p' ms m n → ∀ e, e ∈ n_eventsto n ↔
  (e = NN_SINPROC_SENT ∧ p = Sent) ∨ (e = NN_SINPROC_RECEIVED ∧ p' = Acked).
Proof. intros [q pin pout es fs _ _ _ _ _ [_ Hf]]. exact Hf. Qed.

Lemma node_held x p p' ms m n : node_ok x p p' ms m n → p' = Held → ms ≠ [].
Proof. by intros []. Qed.

Lemma eventto_shrinks x i s p p' ms ms' m m' s' :
  inv x s p p' ms ms' m m' → process_eventto x i s = Some s' → is_Some (n_eventsto (get x s) !! i) → (weight s' < weight s)%nat.
Proof.
  intros Hi H [e Ei]. unfold process_eventto in H. rewrite Ei in H.
  assert (e = NN_SINPROC_SENT ∨ e = NN_SINPROC_RECEIVED) as He.
  { destruct Hi as [H1 _]. apply list_elem_of_lookup_2, (node_flight _ _ _ _ _ _ H1) in Ei. tauto. }
  apply (Nat.lt_le_trans _ _ _ (handler_shrinks x s p p' ms ms' m m'
    (set_eventsto (delete i (n_eventsto (get x s))) (get x s)) e s' Hi He ltac:(by destruct He as [-> | ->]))).
  rewrite (weight_get x s). unfold node_weight. cbn. rewrite (weight_delete _ _ _ Ei). lia.
Qed.

Definition is_event (o : conn_op) : bool := match o with Event _ | EventTo _ _ => true | _ => false end.

(** Some event is processed, unless there is none. *)
Lemma event_or_quiet s f k : sound true s f k → Z.of_nat k + 1 < 2 ^ 64 →
  quiet s ∨ ∃ o s' r, is_event o ∧ conn_step s o = Some (s', r) ∧ (weight s' < weight s)%nat.
Proof.
  intros (p & p' & ms & ms' & m & m' & Hi & _ & Hk & Hk') Hlen.
  assert (∀ x, (n_events (get x s) = [] ∧ n_eventsto (get x s) = []) ∨
    ∃ o s' r, is_event o ∧ conn_step s o = Some (s', r) ∧ (weight s' < weight s)%nat) as Hx.
  { intros x. assert (∃ p p' ms ms' m m', inv x s p p' ms ms' m m' ∧ Z.of_nat (length ms') + 1 < 2 ^ 64)
      as (p1 & p1' & ms1 & ms1' & m1 & m1' & Hix & Hl).
    { destruct x; [exists p, p', ms, ms', m, m'|exists p', p, ms', ms, m', m]; (split; [|lia]); [done|by apply (inv_swap true)]. }
    destruct (n_events (get x s)) as [|e es] eqn:Ee.
    - destruct (n_eventsto (get x s)) as [|e es] eqn:Et; [by left|right].
      destruct (eventto_ok x 0 s p1 p1' ms1 ms1' m1 m1' Hix Hl) as (s' & Hs' & _).
      exists (EventTo x 0), s', (0, None). split_and!; [done|cbn; by rewrite Hs'|].
      apply (eventto_shrinks x 0 s p1 p1' ms1 ms1' m1 m1'); [done..|]. by rewrite Et.
    - right. destruct (event_ok x s p1 p1' ms1 ms1' m1 m1' Hix) as (s' & Hs' & _).
      exists (Event x), s', (0, None). split_and!; [done|cbn; by rewrite Hs'|].
      apply (event_shrinks x); [done|]. by rewrite Ee. }
  destruct (Hx true) as [Ht|]; [|by right]. destruct (Hx false) as [Hf|]; [|by right]. left. by intros [].
Qed.

Lemma settles w s f k : (weight s ≤ w)%nat → sound true s f k → Z.of_nat (k + w) < 2 ^ 64 →
  ∃ evs s' rs, forallb is_event evs ∧ (length evs ≤ w)%nat ∧ conn_run s evs = Some (s', rs) ∧ quiet s'.
Proof.
  revert s f k. induction w as [|w IH]; intros s f k Hw Hs Hlen.
  - destruct (decide (weight s = 0%nat)) as [E|]; [|lia]. exists [], s, []. split_and!; [done|cbn; lia|done|].
    intros x. rewrite (weight_get x) in E. unfold node_weight in E.
    split; [by destruct (n_events (get x s))|]. destruct (n_eventsto (get x s)) as [|e l] eqn:El; [done|].
    exfalso. destruct Hs as (p & p' & ms & ms' & m & m' & Hi & _).
    assert (∃ p p' ms ms' m m', inv x s p p' ms ms' m m') as (p1 & p1' & ms1 & ms1' & m1 & m1' & [Hix _]).
    { destruct x; [by eexists _, _, _, _, _, _|]. eexists _, _, _, _, _, _. by apply (inv_swap true). }
    pose proof (node_flight _ _ _ _ _ _ Hix e) as Hf. rewrite El in *.
    destruct (proj1 Hf) as [[-> _]|[-> _]]; [by left|..]; cbn in E; lia.
  - destruct (event_or_quiet s f k Hs) as [Hq|(o & s1 & r & Ho & Hstep & Hlt)]; [lia|exists [], s, []; split_and!; [done|cbn; lia|done|done]|].
    destruct (step_ok true s f k o Hs) as (s1' & r' & f1 & Hstep' & Hs1 & _); [lia|].
    rewrite Hstep in Hstep'. injection Hstep' as <- <-.
    destruct (IH s1 f1 (S k)) as (evs & s2 & rs & He & Hl & Hr & Hq); [lia|done|lia|].
    exists (o :: evs), s2, (r :: rs). cbn. rewrite Hstep. cbn. rewrite Hr. cbn.
    split; [by destruct (is_event o)|]. split; [apply le_n_S, Hl|done].
Qed.

(** At most two events of a pipe and two for the peer are waiting on each side. *)
Lemma node_weight_max x p p' ms m n : node_ok x p p' ms m n → (node_weight n ≤ 8)%nat.
Proof.
  intros [q pin pout es fs _ _ _ _ (He & _) [Hf Hin]]. unfold node_weight. cbn.
  assert (length es ≤ 2)%nat as He'.
  { apply (submseteq_length es [NN_PIPE_IN; NN_PIPE_OUT]), NoDup_submseteq; [done|]. intros []; set_solver. }
  assert (fs ⊆+ [NN_SINPROC_SENT; NN_SINPROC_RECEIVED]) as Hsub.
  { apply NoDup_submseteq; [done|]. intros e [[-> _]|[-> _]]%Hin; set_solver. }
  assert (sum_list_with event_weight fs ≤ 6)%nat; [|lia].
  apply submseteq_Permutation in Hsub as [l Hl]. apply (sum_list_with_Permutation_proper event_weight) in Hl.
  rewrite sum_list_with_app in Hl. cbn in Hl. lia.
Qed.

Lemma sound_weight x s f k : sound x s f k → (weight s ≤ 16)%nat.
Proof.
  intros (p & p' & ms & ms' & m & m' & [H1 H2] & _). rewrite (weight_get x).
  apply node_weight_max in H1, H2. lia.
Qed.

(** When no event is left, the first message is received, and a message is sent unless
    one is held. *)
Lemma quiet_recv x s f k : sound x s f k → quiet s → Z.of_nat k + 1 < 2 ^ 64 →
  ∃ s' rc r, nn_xpair_recv x s = Some (s', rc, r) ∧ r = head (f_in f) ∧ (rc = 0 ∨ f_in f = []).
Proof.
  intros (p & p' & ms & ms' & m & m' & Hi & -> & Hk & Hk') Hq Hlen. cbn [f_in].
  pose proof (Hq x) as [Ex Tx]. pose proof (Hq (negb x)) as [Ey Ty].
  assert (pending p' m' ≠ [] → ms ≠ []) as Hpend.
  { destruct Hi as [H1 H2]. intros Hn. destruct p'; try done; [|by apply (node_held _ _ _ _ _ _ H1)].
    exfalso. apply (not_elem_of_nil NN_SINPROC_SENT). rewrite <-Ty. apply (node_flight _ _ _ _ _ _ H2). by left. }
  destruct (inproc_recv_ok x s p p' ms ms' m m' Hi) as (s' & rc & r & Hr & Hcase); [lia|]. exists s', rc, r. split; [done|].
  destruct Hcase as [(-> & -> & -> & Hn)|(m0 & ms1 & -> & -> & -> & _)]; [|by split; [|left]].
  destruct ms as [|a ms].
  - destruct (pending p' m') as [|b l]; [by split; [|right]|]. by destruct Hpend.
  - rewrite Ex in Hn. by destruct (not_elem_of_nil NN_PIPE_IN (Hn ltac:(done))).
Qed.

(** ** The properties *)

(** C17. Two pair sockets connected inside one process are a first in, first out channel in
    each direction: after the handshake, whatever the users send and receive and in
    whatever order the events of the two contexts are processed, no assertion of the
    sessions, the pipes or the sockets fails, and what a user sent with success is what
    the other received, followed by what is still between them, in this order; when no
    event is left, a receive answers the first message that is between them. *)
Theorem inproc_fifo a b ops (Hlen : Z.of_nat (length ops) + 1 < 2 ^ 64) :
  ∃ s s' rs, established a b = Some s ∧ conn_run s ops = Some (s', rs) ∧
    ∀ x, ∃ between, log (sent_of x) ops rs = log (got_of (negb x)) ops rs ++ between ∧
      (quiet s' → ∃ s'' rc, nn_xpair_recv (negb x) s' = Some (s'', rc, head between) ∧ (rc = 0 ∨ between = [])).
Proof.
  destruct (established_ok a b) as (s & Hs & Hi).
  destruct (run_ok true ops s (Flow [] []) 0) as (s' & rs & f' & Hr & Hs' & E1 & E2); [|lia|].
  { exists Idle, Idle, [], [], (nn_msg_init 0), (nn_msg_init 0). done. }
  exists s, s', rs. split; [done|]. split; [done|]. cbn in E1, E2.
  intros []; [exists (f_out f')|exists (f_in f')]; (split; [done|]; intros Hq).
  - destruct (quiet_recv false s' (turn f') _ (sound_swap _ _ _ _ Hs') Hq) as (s2 & rc & r & H1 & -> & H2); [lia|].
    exists s2, rc. done.
  - destruct (quiet_recv true s' f' _ Hs' Hq) as (s2 & rc & r & H1 & -> & H2); [lia|].
    exists s2, rc. done.
Qed.


(** The sender fills the queue of its peer, of 3 bytes; the second message is held until
    the first one is received, and nothing more is sent. *)
Definition demo_send (c : Z) : list conn_op := [Event true; USend true (Msg [9] [] [c]); EventTo true 0; EventTo false 0].
Definition demo_conn : list conn_op :=
  demo_send 1 ++ demo_send 2 ++ demo_send 3 ++ [Event true; USend true (Msg [] [] [4]); Event false; Event false; URecv false].

Lemma inproc_fifo_witness :
  (∃ s s' rs, established 3 3 = Some s ∧ conn_run s demo_conn = Some (s', rs) ∧
    ∀ x, ∃ between, log (sent_of x) demo_conn rs = log (got_of (negb x)) demo_conn rs ++ between ∧
      (quiet s' → ∃ s'' rc, nn_xpair_recv (negb x) s' = Some (s'', rc, head between) ∧ (rc = 0 ∨ between = []))) ∧
  (s ← established 3 3; '(_, rs) ← conn_run s demo_conn; Some (log (sent_of true) demo_conn rs, log (got_of false) demo_conn rs)) =
    Some ([Msg [] [] [9; 1]; Msg [] [] [9; 2]], [Msg [] [] [9; 1]]).
Proof. split; [apply (inproc_fifo 3 3 demo_conn); vm_compute; reflexivity|vm_compute; reflexivity]. Defined.


(** During the handshake the order matters: a session that was told [READY] can send
    before the peer was told [ACCEPTED]; when the user's thread tells [SENT] first, the
    peer is still in the state [READY], where that event is a bad action. *)
Lemma handshake_race :
  (s ← nn_sinproc_connect true (Conn (nn_sinproc_init 100) (nn_sinproc_init 100));
   s ← process_eventto true 0 s;
   s ← process_eventto false 0 s;
   '(s, rs) ← conn_run s [Event true; USend true (Msg [] [] [7])];
   Some (rs, n_eventsto (get true s), n_state (get false s), bool_decide (process_eventto true 1 s = None))) =
  Some ([(0, None); (0, None)], [NN_SINPROC_ACCEPTED; NN_SINPROC_SENT], NN_SINPROC_STATE_READY, true).
Proof. vm_compute. reflexivity. Qed.
