(* ===== verification/NnBalance.v ===== *)
(** * Load balancing and fair queueing in nanomsg

    [nanomsg-1.0.0/src/protocols/utils/lb.c] and [fq.c]: the pipes a message is sent to,
    and received from, are those of a priority list.  The pipes are behind an
    interface, which the pipes of [core/pipe.c] implement. *)

From S2P Require Import Prelude NnList NnPrio NnMsgQueue NnInproc.
From stdpp Require Import base numbers list gmap.
#[local] Open Scope Z_scope.

(** ** The pipes *)

(** [nn_pipe_send] and [nn_pipe_recv] on the pipes of a world [W]. *)
Class Pipes (W : Type) := {
  pipe_send : Z → nn_msg → W → option (W * Z);
  pipe_recv : Z → W → option (W * Z * option nn_msg)
}.

(** The pipes of a connection inside the process. *)
#[export] Instance conn_pipes : Pipes conn := {
  pipe_send p msg s := nn_pipe_send (nn_sinproc_send (p =? 1) msg) (p =? 1) s;
  pipe_recv p s := nn_pipe_recv (nn_sinproc_recv (p =? 1)) (p =? 1) s
}.

Section balance.
  Context {W : Type} `{Pipes W}.

(** ** [lb.c] *)
Definition nn_lb_init : nn_priolist := nn_priolist_init ∅ ∅.
Definition nn_lb_term : nn_priolist → option unit := nn_priolist_term.
Definition nn_lb_add : nn_priolist → Z → Z → Z → nn_priolist := nn_priolist_add.
Definition nn_lb_rm : nn_priolist → Z → option nn_priolist := nn_priolist_rm.
Definition nn_lb_out : nn_priolist → Z → option nn_priolist := nn_priolist_activate.
Definition nn_lb_can_send : nn_priolist → Z := nn_priolist_is_active.
Definition nn_lb_get_priority : nn_priolist → Z := nn_priolist_get_priority.

(** The code, and the pipe that is stored at [to]. *)
Definition nn_lb_send (self : nn_priolist) (msg : nn_msg) (w : W) : option (nn_priolist * W * Z * option Z) :=
  pipe ← nn_priolist_getpipe self;
  match pipe with
  | None => Some (self, w, - EAGAIN, None)
  | Some pipe =>
      '(w, rc) ← pipe_send pipe msg w;
      if rc >=? 0 then
        self ← nn_priolist_advance self (Z.land rc NN_PIPE_RELEASE);
        Some (self, w, Z.ldiff rc NN_PIPE_RELEASE, Some pipe)
      else None
  end.

(** ** [fq.c] *)
Definition nn_fq_init : nn_priolist := nn_priolist_init ∅ ∅.
Definition nn_fq_term : nn_priolist → option unit := nn_priolist_term.
Definition nn_fq_add : nn_priolist → Z → Z → Z → nn_priolist := nn_priolist_add.
Definition nn_fq_rm : nn_priolist → Z → option nn_priolist := nn_priolist_rm.
Definition nn_fq_in : nn_priolist → Z → option nn_priolist := nn_priolist_activate.
Definition nn_fq_can_recv : nn_priolist → Z := nn_priolist_is_active.

Definition nn_fq_recv (self : nn_priolist) (w : W) : option (nn_priolist * W * Z * option nn_msg * option Z) :=
  p ← nn_priolist_getpipe self;
  match p with
  | None => Some (self, w, - EAGAIN, None, None)
  | Some p =>
      '(w, rc, msg) ← pipe_recv p w;
      if rc >=? 0 then
        self ← nn_priolist_advance self (Z.land rc NN_PIPE_RELEASE);
        Some (self, w, Z.ldiff rc NN_PIPE_RELEASE, msg, Some p)
      else None
  end.

End balance.
