(* ===== verification/NnBalanceSpec.v ===== *)
(** * Load balancing is round robin

    Every pipe of nanomsg is released by a send ([nn_pipe_send] answers
    [NN_PIPE_RELEASE], as the transports confirm a message by a later event) and comes
    back when it is writable again.  So the circles of [NnPrio] are queues: a send goes
    to the pipe that has waited longest among those of the highest priority. *)

From S2P Require Import Prelude NnList NnPrio NnPrioSpec NnMsgQueue NnInproc NnInprocSpec NnBalance.
From stdpp Require Import base numbers list gmap.
#[local] Open Scope Z_scope.

(** ** What the pipes promise *)

(** [can_take p w]: a message can be passed to the pipe [p], which is released then. *)
Class SendPipes (W : Type) `{Pipes W} := {
  can_take : Z → W → Prop;
  take_law p m w : can_take p w → ∃ w', pipe_send p m w = Some (w', NN_PIPE_RELEASE) ∧
    ∀ q, q ≠ p → can_take q w → can_take q w'
}.

(** ** The specification *)

(** The data of the pipes, and a queue of data for every priority. *)
Notation queues := (gmap Z nn_priolist_data * list (list Z))%type.

(** What happens to a load balancer: a pipe comes, goes, or can take a message; a message
    is sent, with the code and the pipe that it went to; or the pipes make progress. *)
Inductive lb_event := EAdd (data pipe priority : Z) | ERm (data : Z) | EOut (data : Z) | ESend (rc : Z) (to : option Z) | EPipes.

Definition level_index (d : nn_priolist_data) : nat := Z.to_nat (d_priority d - 1).

Definition first_queue (qs : list (list Z)) : option nat := fst <$> list_find (λ q, q ≠ []) qs.

Definition queue_step (c : queues) (e : lb_event) : option queues :=
  match e with
  | EAdd data pipe k => Some (<[data := Data pipe k]> c.1, c.2)
  | ERm x => d ← c.1 !! x; Some (c.1, alter (filter (.≠ x)) (level_index d) c.2)
  | EOut x => d ← c.1 !! x; Some (c.1, alter (.++ [x]) (level_index d) c.2)
  | ESend rc to =>
      match first_queue c.2 with
      | None => if decide (rc = - EAGAIN ∧ to = None) then Some c else None
      | Some i =>
          x ← c.2 !! i ≫= head;
          d ← c.1 !! x;
          if decide (rc = 0 ∧ to = Some (d_pipe d)) then Some (c.1, alter tail i c.2) else None
      end
  | EPipes => Some c
  end.

Fixpoint queue_run (c : queues) (tr : list lb_event) : option queues :=
  match tr with [] => Some c | e :: tr => c ← queue_step c e; queue_run c tr end.

Definition no_pipes : queues := (∅, replicate NN_PRIOLIST_SLOTS []).

(** The pipes that the messages went to. *)
Definition served (tr : list lb_event) : list (option Z) := omap (λ e, match e with ESend _ to => Some to | _ => None end) tr.

(** Messages are sent, and no pipe goes, or comes that is before those of queue [i]. *)
Definition calm (ds : gmap Z nn_priolist_data) (i : nat) (e : lb_event) : Prop :=
  match e with
  | ESend _ _ | EPipes => True
  | EOut x => ∀ d, ds !! x = Some d → (i ≤ level_index d)%nat
  | _ => False
  end.

Lemma first_queue_at qs i q : qs !! i = Some q → q ≠ [] → (∀ j q', (j < i)%nat → qs !! j = Some q' → q' = []) → first_queue qs = Some i.
Proof.
  intros Hi Hq Hj. unfold first_queue. assert (list_find (λ q, q ≠ []) qs = Some (i, q)) as ->; [|done].
  apply list_find_Some. split_and!; [done|done|]. intros j q' Hj' Hlt Hn. apply Hn. by apply (Hj j).
Qed.

(** The pipes of a queue are served in their order. *)
Lemma queue_serves ds i tr : ∀ qs q c', qs !! i = Some q → (∀ j q', (j < i)%nat → qs !! j = Some q' → q' = []) →
  Forall (calm ds i) tr → queue_run (ds, qs) tr = Some c' →
  take (length q) (served tr) = take (length (served tr)) ((λ x, d_pipe <$> ds !! x) <$> q).
Proof.
  induction tr as [|e tr IH]; intros qs q c' Hi Hj Hc Hr; [by destruct q|].
  apply Forall_cons in Hc as [He Hc]. cbn [queue_run] in Hr. destruct e as [data pipe k|x|x|rc to|]; [done|done|..]; cbn [queue_step fst snd] in Hr.
  - destruct (ds !! x) as [d|] eqn:Ed; [|done]. cbn [mbind option_bind] in Hr. cbn in He. specialize (He d Ed). cbn [served omap list_omap].
    destruct (decide (level_index d = i)) as [E|E].
    + assert (take (length (q ++ [x])) (served tr) = take (length (served tr)) ((λ x, d_pipe <$> ds !! x) <$> q ++ [x])) as H.
      { apply (IH (alter (.++ [x]) (level_index d) qs) _ c'); [|intros j q' Hlt|done|done].
        - by rewrite E, list_lookup_alter_eq, Hi.
        - rewrite list_lookup_alter_ne by lia. by apply Hj. }
      apply (f_equal (take (length q))) in H. rewrite !take_take, length_app, Nat.min_l in H by lia. unfold served in *. rewrite H.
      rewrite fmap_app, Nat.min_comm, <-take_take, take_app_length' by by rewrite length_fmap. done.
    + apply (IH (alter (.++ [x]) (level_index d) qs) _ c'); [by rewrite list_lookup_alter_ne|intros j q' Hlt|done|done].
      rewrite list_lookup_alter_ne by lia. by apply Hj.
  - destruct q as [|x q]; [done|]. rewrite (first_queue_at qs i (x :: q)), Hi in Hr by done. cbn [mbind option_bind head] in Hr.
    destruct (ds !! x) as [d|] eqn:Ed; [|done]. cbn [mbind option_bind] in Hr.
    destruct (decide (rc = 0 ∧ to = Some (d_pipe d))) as [[-> ->]|]; [|done]. cbn [served omap list_omap length take fmap list_fmap].
    rewrite Ed. cbn [fmap option_fmap option_map]. f_equal.
    apply (IH (alter tail i qs) _ c'); [by rewrite list_lookup_alter_eq, Hi|intros j q' Hlt|done|done].
    rewrite list_lookup_alter_ne by lia. by apply Hj.
  - apply (IH qs _ c'); done.
Qed.

(** ** The load balancer *)

(** The data is in one of the circles. *)
Definition in_list (self : nn_priolist) (data : Z) : Prop := nn_list_item_isinlist (p_items self) data = Some true.

#[export] Instance in_list_dec self data : Decision (in_list self data).
Proof. unfold in_list. apply _. Defined.

Section balancer.
  Context {W : Type} `{SendPipes W}.

(** What the raw sockets and the pipes do: a pipe that comes is a new one, with a data
    that is not in use; [nn_lb_out] is for a pipe that can take a message. *)
Inductive lb_step : nn_priolist * W → lb_event → nn_priolist * W → Prop :=
| lb_add self w data pipe k : ¬ in_list self data → 1 ≤ k ≤ 16 →
    (∀ x d, p_datas self !! x = Some d → d_pipe d ≠ pipe) →
    lb_step (self, w) (EAdd data pipe k) (nn_lb_add self data pipe k, w)
| lb_rm self w data self' : is_Some (p_datas self !! data) → nn_lb_rm self data = Some self' → lb_step (self, w) (ERm data) (self', w)
| lb_out self w data d self' : p_datas self !! data = Some d → ¬ in_list self data → can_take (d_pipe d) w →
    nn_lb_out self data = Some self' → lb_step (self, w) (EOut data) (self', w)
| lb_send self w msg self' w' rc to : nn_lb_send self msg w = Some (self', w', rc, to) → lb_step (self, w) (ESend rc to) (self', w')
| lb_pipes self w w' : (∀ p, can_take p w → can_take p w') → lb_step (self, w) EPipes (self, w').

Inductive lb_run : nn_priolist * W → list lb_event → nn_priolist * W → Prop :=
| lb_nil s : lb_run s [] s
| lb_cons s e s1 tr s2 : lb_step s e s1 → lb_run s1 tr s2 → lb_run s (e :: tr) s2.

(** ** The refinement *)

Definition levels (qs : list (list Z)) : list level := (λ q, ([], q)) <$> qs.

Record lb_inv (s : nn_priolist * W) (c : queues) : Prop := {
  li_prep : prep s.1 (levels c.2);
  li_datas : p_datas s.1 = c.1;
  li_ready : ∀ i q x d, c.2 !! i = Some q → x ∈ q → c.1 !! x = Some d → can_take (d_pipe d) s.2;
  li_pipes : ∀ x y d e, c.1 !! x = Some d → c.1 !! y = Some e → d_pipe d = d_pipe e → x = y
}.

Lemma levels_lookup qs i : levels qs !! i = pair [] <$> qs !! i.
Proof. unfold levels. by rewrite list_lookup_fmap. Qed.

Lemma first_levels qs : first_level (levels qs) = first_queue qs.
Proof.
  unfold first_level, first_queue, levels. induction qs as [|q qs IH]; [done|]. cbn.
  destruct (decide (q ≠ [])); [done|]. rewrite <-!option_fmap_compose in *.
  destruct (list_find _ _) as [[]|] eqn:E1, (list_find (λ q, q ≠ []) qs) as [[]|] eqn:E2; cbn in *; congruence.
Qed.

Lemma levels_alter f g i qs : (∀ q, f ([], q) = ([], g q)) → alter f i (levels qs) = levels (alter g i qs).
Proof.
  intros Hfg. apply list_eq. intros j. rewrite levels_lookup. destruct (decide (j = i)) as [->|Hne].
  - rewrite !list_lookup_alter_eq, levels_lookup. destruct (qs !! i); [|done]. cbn. by rewrite Hfg.
  - by rewrite !list_lookup_alter_ne, levels_lookup by done.
Qed.

Lemma inactive_of self qs x : prep self (levels qs) → ¬ in_list self x → inactive (levels qs) x.
Proof.
  intros [P _] Hn i l Hl Hx. apply Hn. destruct (lookup_lt_is_Some_2 (p_slots self) i) as [s Hs];
    [apply lookup_lt_Some in Hl; by rewrite (len_slots _ _ _ _ P), <-(len_levels _ _ _ _ P)|].
  destruct (slot_ok _ _ _ _ P _ _ _ Hs Hl) as (Hr & _). by eapply lrep_item.
Qed.

Lemma queue_data self qs i q x : prep self (levels qs) → qs !! i = Some q → x ∈ q →
  ∃ d, p_datas self !! x = Some d ∧ level_index d = i.
Proof.
  intros [P _] Hi Hx. destruct (in_level _ _ _ _ P i ([], q) x) as (d & Hd & Hp); [by rewrite levels_lookup, Hi|done|].
  exists d. split; [done|]. unfold level_index. lia.
Qed.

(** A message goes to the pipe at the head of the first queue, which leaves it. *)
Lemma send_inv self w c msg : lb_inv (self, w) c → ∃ self' w' rc to c', nn_lb_send self msg w = Some (self', w', rc, to) ∧
  queue_step c (ESend rc to) = Some c' ∧ lb_inv (self', w') c'.
Proof.
  intros [P Hd Hr Hp]. cbn [fst snd] in *. unfold nn_lb_send. rewrite (getpipe_spec _ _ P). unfold current_of. cbn [queue_step]. rewrite first_levels.
  destruct (first_queue c.2) as [i|] eqn:Ef; cbn [mbind option_bind].
  2: { exists self, w, (- EAGAIN), None, c. split; [done|]. rewrite decide_True by done. split; [done|]. by split. }
  rewrite levels_lookup. pose proof (first_levels c.2) as Ef2. rewrite Ef in Ef2. pose proof Ef2 as Ef3.
  apply cur_of_spec in Ef3 as [(l & Hl & Hn) _]. rewrite levels_lookup in Hl.
  destruct (c.2 !! i) as [q|] eqn:Hi; [|done]. injection Hl as <-. cbn [snd fmap option_fmap option_map mbind option_bind] in *.
  destruct q as [|x q]; [done|]. cbn [head mbind option_bind]. destruct (queue_data _ _ _ _ x P Hi) as (d & Hxd & Hlv); [by left|].
  rewrite Hxd. cbn [mbind option_bind]. rewrite <-Hd, Hxd.
  destruct (take_law (d_pipe d) msg w) as (w' & -> & Hw').
  { apply (Hr i (x :: q) x d); [done|by left|by rewrite <-Hd]. }
  cbn [mbind option_bind]. change (NN_PIPE_RELEASE >=? 0) with true. cbn iota.
  destruct (advance_spec self (levels c.2) (Z.land NN_PIPE_RELEASE NN_PIPE_RELEASE) P) as (self' & -> & Hds & P'); [by rewrite Ef2|].
  cbn [mbind option_bind]. do 5 eexists. split; [reflexivity|]. change (Z.ldiff NN_PIPE_RELEASE NN_PIPE_RELEASE) with 0.
  rewrite decide_True by done. split; [reflexivity|]. split; cbn [fst snd].
  - unfold spec_advance in P'. rewrite Ef2 in P'. rewrite (levels_alter _ tail) in P' by (intros [|y [|z r]]; done). done.
  - by rewrite Hds, Hd.
  - rewrite <-Hd in *. intros j q' y e Hj Hy He.
    assert (∃ q0, c.2 !! j = Some q0 ∧ y ∈ q0 ∧ y ≠ x) as (q0 & Hj0 & Hy0 & Hyx).
    { destruct (decide (j = i)) as [->|Hne].
      - rewrite list_lookup_alter_eq, Hi in Hj. injection Hj as <-. exists (x :: q). split; [done|]. split; [by right|].
        intros ->. destruct P as [P0 _]. destruct (lookup_lt_is_Some_2 (p_slots self) i) as [s Hs];
          [apply lookup_lt_Some in Hi; rewrite (len_slots _ _ _ _ P0), <-(len_levels _ _ _ _ P0); unfold levels; by rewrite length_fmap|].
        destruct (slot_ok _ _ _ _ P0 i s ([], x :: q) Hs) as ((Hnd & _) & _); [by rewrite levels_lookup, Hi|].
        unfold seq_of in Hnd. cbn in Hnd. by apply NoDup_cons in Hnd as [? _].
      - rewrite list_lookup_alter_ne in Hj by done. exists q'. split; [done|]. split; [done|]. intros ->.
        destruct (queue_data _ _ _ _ x P Hj Hy) as (e' & He' & Hlv'). congruence. }
    apply Hw'; [|by apply (Hr j q0 y e)]. intros Epipe. apply Hyx. by apply (Hp y x e d).
  - cbn. rewrite ?Hd. exact Hp.
Qed.

Lemma step_inv s e s' c : lb_inv s c → lb_step s e s' → ∃ c', queue_step c e = Some c' ∧ lb_inv s' c'.
Proof.
  intros Hi Hs. pose proof Hi as [P Hd Hr Hp]. destruct Hs as [self w data pipe k Hn Hk Hnew|self w data self' [d Hx] E|
    self w data d self' Hx Hn Ht E|self w msg self' w' rc to E|self w w' Hw]; cbn [fst snd] in *; cbn [queue_step].
  - eexists. split; [reflexivity|]. pose proof (inactive_of _ _ _ P Hn) as Hina. split; cbn [fst snd].
    + by apply add_spec.
    + by rewrite <-Hd.
    + intros i q x e Hq Hx He. destruct (decide (x = data)) as [->|Hne].
      * exfalso. apply (Hina i ([], q)); [by rewrite levels_lookup, Hq|done].
      * rewrite lookup_insert_ne in He by done. by apply (Hr i q x e).
    + rewrite <-Hd. intros x y d e Hx Hy Hde. destruct (decide (x = data)) as [->|Hxd], (decide (y = data)) as [->|Hyd]; [done|..];
        rewrite ?lookup_insert_eq, ?lookup_insert_ne in Hx by done; rewrite ?lookup_insert_eq, ?lookup_insert_ne in Hy by done.
      * injection Hx as <-. cbn in Hde. by destruct (Hnew y e Hy).
      * injection Hy as <-. cbn in Hde. by destruct (Hnew x d Hx).
      * rewrite Hd in Hx, Hy. by apply (Hp x y d e).
  - rewrite <-Hd, Hx. cbn [mbind option_bind]. eexists. split; [reflexivity|].
    destruct (rm_spec self (levels c.2) data P) as (self1 & E1 & Hds & P1); [by exists d|].
    unfold nn_lb_rm in E. rewrite E1 in E. injection E as <-. unfold spec_rm in P1. rewrite Hx in P1.
    rewrite (levels_alter _ (filter (.≠ data))) in P1.
    2: { intros q. unfold lvl_remove. cbn. unfold norm. cbn. by destruct (filter _ q). }
    split; cbn [fst snd]; [done|done| |by rewrite Hd].
    intros i q x e Hq Hxq He. rewrite Hd in He. destruct (decide (i = level_index d)) as [->|Hne].
    + rewrite list_lookup_alter_eq in Hq. destruct (c.2 !! level_index d) as [q0|] eqn:E0; [|done]. injection Hq as <-.
      apply list_elem_of_filter in Hxq as [_ Hxq]. by apply (Hr (level_index d) q0 x e).
    + rewrite list_lookup_alter_ne in Hq by done. by apply (Hr i q x e).
  - rewrite <-Hd, Hx. cbn [mbind option_bind]. eexists. split; [reflexivity|].
    destruct (activate_spec self (levels c.2) data P) as (self1 & E1 & Hds & P1); [by exists d|by apply (inactive_of self)|].
    unfold nn_lb_out in E. rewrite E1 in E. injection E as <-. unfold spec_activate in P1. rewrite Hx in P1.
    rewrite (levels_alter _ (.++ [data])) in P1 by done.
    split; cbn [fst snd]; [done|done| |by rewrite Hd].
    intros i q x e Hq Hxq He. rewrite Hd in He. destruct (decide (i = level_index d)) as [->|Hne].
    + rewrite list_lookup_alter_eq in Hq. destruct (c.2 !! level_index d) as [q0|] eqn:E0; [|done]. injection Hq as <-.
      apply elem_of_app in Hxq as [Hxq|Hxq]; [by apply (Hr (level_index d) q0 x e)|].
      apply list_elem_of_singleton in Hxq as ->. rewrite <-Hd, Hx in He. by injection He as <-.
    + rewrite list_lookup_alter_ne in Hq by done. by apply (Hr i q x e).
  - destruct (send_inv self w c msg Hi) as (self1 & w1 & rc1 & to1 & c' & E1 & Hq & Hi'). rewrite E in E1. injection E1 as <- <- <- <-.
    exists c'. done.
  - exists c. split; [done|]. split; cbn [fst snd]; [done|done| |done]. intros i q x d Hq Hx Hxd. apply Hw. by apply (Hr i q x d).
Qed.

Lemma run_inv s tr s' c : lb_inv s c → lb_run s tr s' → ∃ c', queue_run c tr = Some c' ∧ lb_inv s' c'.
Proof.
  intros Hi Hr. revert c Hi. induction Hr as [s|s e s1 tr s2 Hst _ IH]; intros c Hi; [by exists c|].
  destruct (step_inv _ _ _ _ Hi Hst) as (c1 & E & Hi1). cbn [queue_run]. rewrite E. by apply IH.
Qed.

Lemma init_inv w : lb_inv (nn_lb_init, w) no_pipes.
Proof.
  split; cbn [fst snd no_pipes]; [|done|..].
  - unfold levels. rewrite fmap_replicate. apply init_spec.
  - intros i q x d [-> _]%lookup_replicate_1 []%elem_of_nil.
  - done.
Qed.

(** C30. Load balancing is round robin within the highest priority: whatever pipes come,
    go and can take messages again, a send never fails; it goes to the pipe that waits
    longest in the first queue that has one, which leaves it, or answers [-EAGAIN] when
    there is none.  So while no pipe goes, and none of a higher priority comes back, the
    pipes of the first queue are served in their order, each of them once. *)
Theorem lb_round_robin w0 tr s (Hrun : lb_run (nn_lb_init, w0) tr s) :
  ∃ c, queue_run no_pipes tr = Some c ∧ p_datas s.1 = c.1 ∧
    (∀ msg, ∃ self' w' rc to c', nn_lb_send s.1 msg s.2 = Some (self', w', rc, to) ∧ queue_step c (ESend rc to) = Some c') ∧
    ∀ i q tr' s', c.2 !! i = Some q → (∀ j q', (j < i)%nat → c.2 !! j = Some q' → q' = []) →
      Forall (calm c.1 i) tr' → lb_run s tr' s' →
      take (length q) (served tr') = take (length (served tr')) ((λ x, d_pipe <$> c.1 !! x) <$> q).
Proof.
  destruct (run_inv _ _ _ _ (init_inv w0) Hrun) as (c & E & Hi). exists c. split; [done|].
  split; [by apply li_datas|]. split.
  - intros msg. destruct s as [self w]. destruct (send_inv self w c msg Hi) as (self' & w' & rc & to & c' & ? & ? & _). by eauto 10.
  - intros i q tr' s' Hq Hj Hc Hr. destruct (run_inv _ _ _ _ Hi Hr) as (c' & E' & _). destruct c as [ds qs].
    by apply (queue_serves ds i tr' qs q c').
Qed.

End balancer.

(** ** Connections inside the process *)

(** The pipe of a number is the left end of the connection of that number. *)
#[export] Instance conns_pipes : Pipes (list conn) := {
  pipe_send p m w :=
    _ ← nn_assert (0 <=? p);
    s ← w !! Z.to_nat p;
    '(s, rc) ← pipe_send 1 m s; Some (<[Z.to_nat p := s]> w, rc);
  pipe_recv p w :=
    _ ← nn_assert (0 <=? p);
    s ← w !! Z.to_nat p;
    '(s, rc, m) ← pipe_recv 1 s; Some (<[Z.to_nat p := s]> w, rc, m)
}.

(** The session is active, nothing is being sent, and the pipe is idle. *)
Definition sendable (s : conn) : bool :=
  let n := get true s in
  (n_state n =? NN_SINPROC_STATE_ACTIVE) && (Z.land (n_flags n) NN_SINPROC_FLAG_SENDING =? 0) &&
  bool_decide (n_peer n ≠ None) && negb (existsb (same_event NN_SINPROC_SENT) (n_eventsto n)) &&
  (p_outstate (n_pipe n) =? NN_PIPEBASE_OUTSTATE_IDLE).

Definition conn_ready (p : Z) (w : list conn) : Prop := 0 ≤ p ∧ ∃ s, w !! Z.to_nat p = Some s ∧ sendable s = true.

Lemma conn_take s m : sendable s = true → ∃ s', pipe_send 1 m s = Some (s', NN_PIPE_RELEASE).
Proof.
  intros Hs. unfold sendable in Hs. rewrite !andb_true_iff in Hs. destruct Hs as ((((Hst & Hf) & Hpe) & Hev) & Ho).
  apply bool_decide_eq_true_1 in Hpe. destruct s as [[st fl pe pi qu ms ex ev evt] r]. cbn in *.
  apply Z.eqb_eq in Hst as ->. apply Z.eqb_eq in Ho. destruct pi as [ps pin pout]. cbn in *. subst pout. cbn.
  unfold nn_sinproc_send. cbn. rewrite Hf. cbn. destruct pe as [pe|]; [|done]. cbn. unfold nn_fsm_raiseto. cbn. rewrite Hev. cbn.
  eexists. reflexivity.
Qed.

#[export] Instance conns_send : SendPipes (list conn).
Proof.
  refine {| can_take := conn_ready |}. intros p m w (Hp & s & Hs & Hr).
  destruct (conn_take s m Hr) as (s' & E). exists (<[Z.to_nat p := s']> w). split.
  - cbn [pipe_send conns_pipes]. rewrite (proj2 (Z.leb_le 0 p) Hp). cbn [nn_assert mbind option_bind]. rewrite Hs. cbn [mbind option_bind]. by rewrite E.
  - intros q Hq (Hq0 & t & Ht & Htr). split; [done|]. exists t. rewrite list_lookup_insert_ne by lia. done.
Defined.

(** ** An example *)
Inductive demo_lb_op := DoAdd (data pipe k : Z) | DoRm (data : Z) | DoOut (data : Z) | DoSend (m : nn_msg) | DoPipes (w : list conn).

(** Nothing is less ready than before. *)
Definition more_ready (w w' : list conn) : bool :=
  (length w =? length w')%nat && forallb (λ ss, implb (sendable ss.1) (sendable ss.2)) (zip w w').

Definition demo_lb_do (o : demo_lb_op) (s : nn_priolist * list conn) : option (lb_event * (nn_priolist * list conn)) :=
  let '(self, w) := s in
  match o with
  | DoAdd data pipe k =>
      if bool_decide (¬ in_list self data) && (1 <=? k) && (k <=? 16) && bool_decide (map_Forall (λ _ d, d_pipe d ≠ pipe) (p_datas self))
      then Some (EAdd data pipe k, (nn_lb_add self data pipe k, w)) else None
  | DoRm data =>
      _ ← p_datas self !! data; self ← nn_lb_rm self data; Some (ERm data, (self, w))
  | DoOut data =>
      d ← p_datas self !! data;
      s ← (if bool_decide (¬ in_list self data) && (0 <=? d_pipe d) then w !! Z.to_nat (d_pipe d) else None);
      self ← (if sendable s then nn_lb_out self data else None); Some (EOut data, (self, w))
  | DoSend m => '(self, w, rc, to) ← nn_lb_send self m w; Some (ESend rc to, (self, w))
  | DoPipes w' => if more_ready w w' then Some (EPipes, (self, w')) else None
  end.

Fixpoint demo_lb_run (ops : list demo_lb_op) (s : nn_priolist * list conn) : option (list lb_event * (nn_priolist * list conn)) :=
  match ops with
  | [] => Some ([], s)
  | o :: ops => '(e, s) ← demo_lb_do o s; '(tr, s) ← demo_lb_run ops s; Some (e :: tr, s)
  end.

Lemma more_ready_sound w w' p : more_ready w w' = true → conn_ready p w → conn_ready p w'.
Proof.
  intros [Hl Hf]%andb_true_iff (Hp & s & Hs & Hr). apply Nat.eqb_eq in Hl. split; [done|].
  destruct (lookup_lt_is_Some_2 w' (Z.to_nat p)) as [s' Hs']; [rewrite <-Hl; by eapply lookup_lt_Some|]. exists s'. split; [done|].
  rewrite forallb_forall in Hf. specialize (Hf (s, s')). rewrite <-list_elem_of_In in Hf. cbn in Hf. rewrite Hr in Hf. apply Hf.
  apply list_elem_of_lookup. exists (Z.to_nat p). rewrite lookup_zip_with, Hs. cbn. by rewrite Hs'.
Qed.

Lemma demo_lb_do_sound o s e s' : demo_lb_do o s = Some (e, s') → lb_step s e s'.
Proof.
  destruct s as [self w]. destruct o as [data pipe k|data|data|m|w1]; cbn [demo_lb_do].
  - destruct (_ && _) eqn:E; [|done]. intros [= <- <-]. rewrite !andb_true_iff in E. destruct E as (((E1 & E2) & E3) & E4).
    apply bool_decide_eq_true_1 in E1, E4. constructor; [done|lia|]. intros x d Hx. by apply (E4 x d).
  - destruct (p_datas self !! data) as [d|] eqn:Hd; [|done]. cbn. destruct (nn_lb_rm self data) as [self1|] eqn:E; [|done].
    intros [= <- <-]. by constructor.
  - destruct (p_datas self !! data) as [d|] eqn:Hd; [|done]. cbn.
    destruct (bool_decide (¬ in_list self data) && (0 <=? d_pipe d)) eqn:Eb; [|done]. apply andb_true_iff in Eb as [Eb1%bool_decide_eq_true_1 Eb2].
    destruct (w !! Z.to_nat (d_pipe d)) as [s|] eqn:Hs; [|done]. cbn. destruct (sendable s) eqn:Hr; [|done]. cbn.
    destruct (nn_lb_out self data) as [self1|] eqn:E; [|done]. intros [= <- <-]. apply (lb_out self w data d); [done|done| |done].
    split; [lia|]. by exists s.
  - destruct (nn_lb_send self m w) as [[[[self1 w1] rc] to]|] eqn:E; [|done]. intros [= <- <-]. by apply (lb_send self w m).
  - destruct (more_ready w w1) eqn:E; [|done]. intros [= <- <-]. constructor. intros p. by apply more_ready_sound.
Qed.

Lemma demo_lb_run_sound ops s tr s' : demo_lb_run ops s = Some (tr, s') → lb_run s tr s'.
Proof.
  revert s tr. induction ops as [|o ops IH]; intros s tr; cbn [demo_lb_run]; [intros [= <- <-]; constructor|].
  destruct (demo_lb_do o s) as [[e s1]|] eqn:E; [|done]. cbn. destruct (demo_lb_run ops s1) as [[tr1 s2]|] eqn:E1; [|done].
  cbn. intros [= <- <-]. eapply lb_cons; [by apply (demo_lb_do_sound o)|by apply IH].
Qed.

(** A connection whose events were processed. *)
Definition demo_wire : conn := Eval vm_compute in
  default (Conn (nn_sinproc_init 9) (nn_sinproc_init 9)) (s ← established 1000 1000; process_event true s).

(** Three pipes of the same priority and one of a lower one. *)
Definition demo_lb_come : list demo_lb_op :=
  [DoAdd 10 0 8; DoAdd 20 1 8; DoAdd 30 2 8; DoAdd 40 3 9; DoOut 40; DoOut 10; DoOut 20; DoOut 30; DoSend (Msg [] [] [1])].

(** The pipe of the first message comes back, and four messages are sent. *)
Definition demo_lb_go : list demo_lb_op :=
  [DoPipes (replicate 4 demo_wire); DoOut 10; DoSend (Msg [] [] [2]); DoSend (Msg [] [] [3]); DoSend (Msg [] [] [4]); DoSend (Msg [] [] [5])].

Definition demo_lb_state : list lb_event * (nn_priolist * list conn) :=
  default ([], (nn_lb_init, [])) (demo_lb_run demo_lb_come (nn_lb_init, replicate 4 demo_wire)).

Definition demo_lb_end : list lb_event * (nn_priolist * list conn) :=
  default ([], (nn_lb_init, [])) (demo_lb_run demo_lb_go demo_lb_state.2).

Lemma lb_round_robin_witness :
  served demo_lb_end.1 = [Some 1; Some 2; Some 0; Some 3] ∧
  ∃ c, queue_run no_pipes demo_lb_state.1 = Some c ∧ c.2 !! 7%nat = Some [20; 30] ∧
    take 2 (served demo_lb_end.1) = take (length (served demo_lb_end.1)) ((λ x, d_pipe <$> c.1 !! x) <$> [20; 30]).
Proof.
  split; [vm_compute; reflexivity|].
  destruct (lb_round_robin (replicate 4 demo_wire) demo_lb_state.1 demo_lb_state.2) as (c & Hc & _ & _ & Hserved).
  { apply (demo_lb_run_sound demo_lb_come). vm_compute. reflexivity. }
  exists c. split; [exact Hc|].
  assert (c.2 !! 7%nat = Some [20; 30]) as Hq by (vm_compute in Hc; injection Hc as <-; reflexivity).
  split; [exact Hq|]. apply (Hserved 7%nat [20; 30] _ demo_lb_end.2); [exact Hq|..].
  - intros j q' Hj. vm_compute in Hc. injection Hc as <-. do 7 (destruct j as [|j]; [intros [= <-]; reflexivity|]). lia.
  - vm_compute in Hc. injection Hc as <-. vm_compute demo_lb_end. repeat (apply Forall_cons; split; [try exact I|]); [|apply Forall_nil_2].
    intros d Hd. vm_compute in Hd. injection Hd as <-. vm_compute. lia.
  - apply (demo_lb_run_sound demo_lb_go). vm_compute. reflexivity.
Defined.
