(* ===== verification/NnCodec.v ===== *)
(** * The encodings of nanomsg

    [nanomsg-1.0.0/src/utils/wire.c] (integers in network order),
    [transports/utils/base64.c], [transports/utils/port.c], and of [transports/ws/sws.c]
    the check of one UTF-8 code point and the mask of a payload.  A byte is a number
    below 256. *)

From S2P Require Import Prelude.
From Stdlib Require Import ZArith Lia.
From stdpp Require Import base numbers list.
#[local] Open Scope Z_scope.

Definition uint32 (z : Z) : Z := z `mod` 2 ^ 32.

(** ** [utils/wire.c] *)
Definition nn_puts (val : Z) : list Z := [Z.land (Z.shiftr val 8) 255; Z.land val 255].

Definition nn_gets (buf : list Z) : option Z :=
  match buf with b0 :: b1 :: _ => Some (Z.lor (Z.shiftl b0 8) b1) | _ => None end.

Definition nn_putl (val : Z) : list Z :=
  [Z.land (Z.shiftr val 24) 255; Z.land (Z.shiftr val 16) 255; Z.land (Z.shiftr val 8) 255; Z.land val 255].

Definition nn_getl (buf : list Z) : option Z :=
  match buf with
  | b0 :: b1 :: b2 :: b3 :: _ =>
      Some (Z.lor (Z.lor (Z.lor (Z.shiftl b0 24) (Z.shiftl b1 16)) (Z.shiftl b2 8)) b3)
  | _ => None
  end.

Definition nn_putll (val : Z) : list Z :=
  map (λ k, Z.land (Z.shiftr val k) 255) [56; 48; 40; 32; 24; 16; 8; 0].

Definition nn_getll (buf : list Z) : option Z :=
  match buf with
  | b0 :: b1 :: b2 :: b3 :: b4 :: b5 :: b6 :: b7 :: _ =>
      Some (Z.lor (Z.lor (Z.lor (Z.lor (Z.lor (Z.lor (Z.lor (Z.shiftl b0 56) (Z.shiftl b1 48)) (Z.shiftl b2 40))
        (Z.shiftl b3 32)) (Z.shiftl b4 24)) (Z.shiftl b5 16)) (Z.shiftl b6 8)) (Z.shiftl b7 0))
  | _ => None
  end.

(** ** [transports/utils/base64.c] *)
Definition ENOBUFS : Z := 105.

(** What was written, and the code. *)
Inductive coded := Coded (out : list Z) (rc : Z).

Definition ENCODEMAP : list Z :=
  map Z.of_nat (seq 65 26 ++ seq 97 26 ++ seq 48 10 ++ [43; 47]%nat).

(** The table of [nn_base64_decode], by the rows of the source that are not all 0xFF. *)
Definition DECODEMAP : list Z :=
  replicate 40 255 ++
  [255; 255; 255; 62; 255; 255; 255; 63] ++
  [52; 53; 54; 55; 56; 57; 58; 59] ++ [60; 61; 255; 255; 255; 62; 255; 255] ++
  [255; 0; 1; 2; 3; 4; 5; 6] ++ [7; 8; 9; 10; 11; 12; 13; 14] ++ [15; 16; 17; 18; 19; 20; 21; 22] ++
  [23; 24; 25; 255; 255; 255; 255; 255] ++
  [255; 26; 27; 28; 29; 30; 31; 32] ++ [33; 34; 35; 36; 37; 38; 39; 40] ++ [41; 42; 43; 44; 45; 46; 47; 48] ++
  [49; 50; 51; 255; 255; 255; 255; 255] ++
  replicate 128 255.

(** [isspace] in the C locale. *)
Definition isspace (c : Z) : bool := (c =? 32) || ((9 <=? c) && (c <=? 13)).

(** An unsigned number as an [int]. *)
Definition int32 (z : Z) : Z := if z <? 2 ^ 31 then z else z - 2 ^ 32.

(** [out [io] = c]; [out] has what was written, from its beginning on. *)
Definition put (out : list Z) (io c : Z) : list Z :=
  if io <? Z.of_nat (length out) then <[Z.to_nat io := c]> out else out ++ [c].

(** [if (io >= out_len) return -ENOBUFS; out [io++] = c;] with what follows. *)
Definition emit (out : list Z) (io out_len c : Z) (k : list Z → Z → option coded) : option coded :=
  if io >=? out_len then Some (Coded out (- ENOBUFS)) else k (put out io c) (uint32 (io + 1)).

(** The loop of [nn_base64_decode] goes on with [k] at its end; a character from 128 on
    is negative as a [char], outside of the table: [None]. *)
Fixpoint decode_loop (fuel : nat) (inp : list Z) (ii out_len v rem : Z) (out : list Z) (io : Z)
    (k : Z → Z → list Z → Z → option coded) : option coded :=
  match fuel with
  | O => None
  | S fuel =>
      if ii <? Z.of_nat (length inp) then
        c ← inp !! Z.to_nat ii;
        let ii := uint32 (ii + 1) in
        if isspace c then decode_loop fuel inp ii out_len v rem out io k else
        if c =? 61 then k v rem out io else
        if c >=? 128 then None else
        ch ← DECODEMAP !! Z.to_nat c;
        if ch =? 255 then k v rem out io else
        let v := Z.lor (uint32 (Z.shiftl v 6)) ch in
        let rem := rem + 6 in
        if rem >=? 8 then
          let rem := rem - 8 in
          emit out io out_len (Z.land (Z.shiftr v rem) 255) (λ out io, decode_loop fuel inp ii out_len v rem out io k)
        else decode_loop fuel inp ii out_len v rem out io k
      else k v rem out io
  end.

Definition decode_end (out_len v rem : Z) (out : list Z) (io : Z) : option coded :=
  if rem >=? 8 then
    emit out io out_len (Z.land (Z.shiftr v (rem - 8)) 255) (λ out io, Some (Coded out (int32 io)))
  else Some (Coded out (int32 io)).

(** The fuel is enough for texts of less than [2 ^ 32] characters: [ii] never gets to the
    end of a longer one. *)
Definition nn_base64_decode (inp : list Z) (out_len : Z) : option coded :=
  decode_loop (S (length inp)) inp 0 out_len 0 0 [] 0 (decode_end out_len).

(** [while (rem >= 6)]. *)
Fixpoint encode_bits (fuel : nat) (v rem out_len : Z) (out : list Z) (io : Z) (k : Z → list Z → Z → option coded) : option coded :=
  match fuel with
  | O => None
  | S fuel =>
      if rem >=? 6 then
        let rem := rem - 6 in
        c ← ENCODEMAP !! Z.to_nat (Z.land (Z.shiftr v rem) 63);
        emit out io out_len c (λ out io, encode_bits fuel v rem out_len out io k)
      else k rem out io
  end.

Fixpoint encode_loop (fuel : nat) (inp : list Z) (ii out_len v rem : Z) (out : list Z) (io : Z)
    (k : Z → Z → list Z → Z → option coded) : option coded :=
  match fuel with
  | O => None
  | S fuel =>
      if ii <? Z.of_nat (length inp) then
        ch ← inp !! Z.to_nat ii;
        let v := Z.lor (uint32 (Z.shiftl v 8)) ch in
        encode_bits 4 v (rem + 8) out_len out io (λ rem out io, encode_loop fuel inp (uint32 (ii + 1)) out_len v rem out io k)
      else k v rem out io
  end.

(** [while (io & 3)]. *)
Fixpoint encode_pad (fuel : nat) (out_len : Z) (out : list Z) (io : Z) (k : list Z → Z → option coded) : option coded :=
  match fuel with
  | O => None
  | S fuel =>
      if Z.land io 3 =? 0 then k out io
      else emit out io out_len 61 (λ out io, encode_pad fuel out_len out io k)
  end.

(** The terminating zero. *)
Definition encode_zero (out_len : Z) (out : list Z) (io : Z) : option coded :=
  if io >=? out_len then Some (Coded out (- ENOBUFS)) else Some (Coded (put out io 0) (int32 io)).

Definition encode_end (out_len v rem : Z) (out : list Z) (io : Z) : option coded :=
  if negb (rem =? 0) then
    c ← ENCODEMAP !! Z.to_nat (Z.land (uint32 (Z.shiftl v (6 - rem))) 63);
    emit out io out_len c (λ out io, encode_pad 4 out_len out io (encode_zero out_len))
  else encode_pad 4 out_len out io (encode_zero out_len).

Definition nn_base64_encode (inp : list Z) (out_len : Z) : option coded :=
  encode_loop (S (length inp)) inp 0 out_len 0 0 [] 0 (encode_end out_len).

(** ** [transports/utils/port.c] *)
Definition EINVAL : Z := 22.

Fixpoint port_loop (port : list Z) (res : Z) : Z :=
  match port with
  | [] => if res =? 0 then - EINVAL else res
  | c :: port =>
      if (c <? 48) || (c >? 57) then - EINVAL else
      let res := res * 10 + (c - 48) in
      if res >? 65535 then - EINVAL else port_loop port res
  end.

Definition nn_port_resolve (port : list Z) : Z := port_loop port 0.

(** ** [transports/ws/sws.c] *)
Definition NN_SWS_UTF8_INVALID : Z := -2.
Definition NN_SWS_UTF8_FRAGMENT : Z := -1.

(** The byte at an index that was found to be below the length. *)
Definition octet (buffer : list Z) (i : nat) : Z := default 0 (buffer !! i).
Definition continuation (b : Z) : bool := Z.land b 192 =? 128.

Definition nn_utf8_code_point (buffer : list Z) : Z :=
  let len := length buffer in
  let b := octet buffer in
  if (len =? 0)%nat then NN_SWS_UTF8_FRAGMENT else
  if b 0%nat <=? 127 then 1 else
  if b 0%nat <? 194 then NN_SWS_UTF8_INVALID else
  if b 0%nat <=? 223 then
    if (len <? 2)%nat then NN_SWS_UTF8_FRAGMENT
    else if negb (continuation (b 1%nat)) then NN_SWS_UTF8_INVALID
    else 2
  else if b 0%nat <=? 239 then
    if (len <? 2)%nat then NN_SWS_UTF8_FRAGMENT
    else if (b 0%nat =? 224) && ((b 1%nat <? 160) || (b 1%nat =? 128)) then NN_SWS_UTF8_INVALID
    else if (b 0%nat =? 237) && (b 1%nat >=? 160) then NN_SWS_UTF8_INVALID
    else if (len <? 3)%nat then NN_SWS_UTF8_FRAGMENT
    else if negb (continuation (b 1%nat)) || negb (continuation (b 2%nat)) then NN_SWS_UTF8_INVALID
    else 3
  else if b 0%nat <=? 244 then
    if (len <? 2)%nat then NN_SWS_UTF8_FRAGMENT
    else if (b 0%nat =? 240) && (b 1%nat <? 144) then NN_SWS_UTF8_INVALID
    else if (b 0%nat =? 244) && (b 1%nat >=? 144) then NN_SWS_UTF8_INVALID
    else if (len <? 4)%nat then NN_SWS_UTF8_FRAGMENT
    else if negb (continuation (b 1%nat)) || negb (continuation (b 2%nat)) || negb (continuation (b 3%nat)) then NN_SWS_UTF8_INVALID
    else 4
  else NN_SWS_UTF8_INVALID.

(** The payload, and the position in the mask where the next part of it begins, from
    [mask_start_pos]; without that pointer the position is 0 and is not kept. *)
Definition nn_sws_mask_payload (payload mask : list Z) (mask_start_pos : Z) : list Z * Z :=
  (imap (λ i b, Z.lxor b (octet mask (Z.to_nat ((Z.of_nat i + mask_start_pos) `mod` Z.of_nat (length mask))))) payload,
   (Z.of_nat (length payload) + mask_start_pos) `mod` Z.of_nat (length mask)).
