(* ===== verification/NnCodecSpec.v ===== *)
(** * What the encodings of nanomsg promise

    Integers come back from the wire; what [nn_base64_encode] writes is decoded to what
    was encoded, and neither writes beyond its buffer; a UTF-8 code point is accepted
    exactly when it is the encoding of a scalar value; a mask is its own inverse. *)

From S2P Require Import Prelude NnCodec.
From Stdlib Require Import ZArith Lia.
From stdpp Require Import base numbers list.
#[local] Open Scope Z_scope.
#[local] Ltac Zify.zify_post_hook ::= Z.div_mod_to_equations.

Definition byte (b : Z) : Prop := 0 ≤ b < 256.

(** ** Bits *)

Lemma lor_add a b n : 0 ≤ n → a `mod` 2 ^ n = 0 → 0 ≤ b < 2 ^ n → Z.lor a b = a + b.
Proof.
  intros Hn Ha Hb. assert (Z.land a b = 0) as Hz.
  { apply Z.bits_inj'. intros i Hi. rewrite Z.land_spec, Z.bits_0. destruct (decide (i < n)) as [Hlt|Hge].
    - rewrite <-(Z.mod_pow2_bits_low a n i Hlt), Ha, Z.bits_0. done.
    - rewrite (Z.testbit_eqb b i), Z.div_small by (pose proof (Z.pow_le_mono_r 2 n i); lia). by rewrite andb_false_r. }
  rewrite <-(Z.lxor_lor a b Hz). symmetry. by apply Z.add_nocarry_lxor.
Qed.

Lemma land_255 a : Z.land a 255 = a `mod` 256.
Proof. exact (Z.land_ones a 8 ltac:(lia)). Qed.

Lemma land_63 a : Z.land a 63 = a `mod` 64.
Proof. exact (Z.land_ones a 6 ltac:(lia)). Qed.

(** ** [wire.c] *)

Lemma nn_getl_putl v rest : 0 ≤ v < 2 ^ 32 → nn_getl (nn_putl v ++ rest) = Some v.
Proof.
  intros Hv. cbn [nn_putl nn_getl app]. f_equal. rewrite !land_255, !Z.shiftl_mul_pow2, !Z.shiftr_div_pow2 by lia.
  rewrite (lor_add (_ * 2 ^ 24) _ 24) by lia. rewrite (lor_add _ (_ * 2 ^ 8) 16) by lia. rewrite (lor_add _ _ 8) by lia. lia.
Qed.

Lemma nn_gets_puts v rest : 0 ≤ v < 2 ^ 16 → nn_gets (nn_puts v ++ rest) = Some v.
Proof.
  intros Hv. cbn [nn_puts nn_gets app]. f_equal. rewrite !land_255, !Z.shiftl_mul_pow2, !Z.shiftr_div_pow2 by lia.
  rewrite (lor_add _ _ 8) by lia. lia.
Qed.

Lemma nn_putl_getl b0 b1 b2 b3 rest : Forall byte [b0; b1; b2; b3] →
  ∃ v, nn_getl (b0 :: b1 :: b2 :: b3 :: rest) = Some v ∧ 0 ≤ v < 2 ^ 32 ∧ nn_putl v = [b0; b1; b2; b3].
Proof.
  rewrite !Forall_cons. unfold byte. intros (H0 & H1 & H2 & H3 & _). cbn [nn_getl].
  rewrite !Z.shiftl_mul_pow2 by lia.
  rewrite (lor_add (_ * 2 ^ 24) _ 24) by lia. rewrite (lor_add _ (_ * 2 ^ 8) 16) by lia. rewrite (lor_add _ _ 8) by lia.
  eexists. split; [done|]. split; [lia|]. unfold nn_putl. rewrite !land_255, !Z.shiftr_div_pow2 by lia. repeat f_equal; lia.
Qed.

(** ** [base64.c] *)

(** The loops over the characters that are left, where [io] is the length of the output:
    what they do when no counter wraps around. *)
Definition emit_ref (out : list Z) (out_len : Z) (c : Z) (k : list Z → option coded) : option coded :=
  if Z.of_nat (length out) >=? out_len then Some (Coded out (- ENOBUFS)) else k (out ++ [c]).

Fixpoint decode_ref (inp : list Z) (out_len v rem : Z) (out : list Z) (k : Z → Z → list Z → option coded) : option coded :=
  match inp with
  | [] => k v rem out
  | c :: inp =>
      if isspace c then decode_ref inp out_len v rem out k else
      if c =? 61 then k v rem out else
      if c >=? 128 then None else
      ch ← DECODEMAP !! Z.to_nat c;
      if ch =? 255 then k v rem out else
      let v := Z.lor (uint32 (Z.shiftl v 6)) ch in
      let rem := rem + 6 in
      if rem >=? 8 then
        let rem := rem - 8 in
        emit_ref out out_len (Z.land (Z.shiftr v rem) 255) (λ out, decode_ref inp out_len v rem out k)
      else decode_ref inp out_len v rem out k
  end.

(** [while (rem >= 6)]. *)
Fixpoint encode_bits_ref (fuel : nat) (v rem out_len : Z) (out : list Z) (k : Z → list Z → option coded) : option coded :=
  match fuel with
  | O => None
  | S fuel =>
      if rem >=? 6 then
        let rem := rem - 6 in
        c ← ENCODEMAP !! Z.to_nat (Z.land (Z.shiftr v rem) 63);
        emit_ref out out_len c (λ out, encode_bits_ref fuel v rem out_len out k)
      else k rem out
  end.

Fixpoint encode_ref (inp : list Z) (out_len v rem : Z) (out : list Z) (k : Z → Z → list Z → option coded) : option coded :=
  match inp with
  | [] => k v rem out
  | ch :: inp =>
      let v := Z.lor (uint32 (Z.shiftl v 8)) ch in
      encode_bits_ref 4 v (rem + 8) out_len out (λ rem out, encode_ref inp out_len v rem out k)
  end.

(** [while (io & 3)]. *)
Fixpoint encode_pad_ref (fuel : nat) (out_len : Z) (out : list Z) (k : list Z → option coded) : option coded :=
  match fuel with
  | O => None
  | S fuel =>
      if Z.land (Z.of_nat (length out)) 3 =? 0 then k out
      else emit_ref out out_len 61 (λ out, encode_pad_ref fuel out_len out k)
  end.

(** The terminating zero is written behind [out]. *)
Definition encode_end_ref (out_len : Z) (out : list Z) : option coded :=
  if Z.of_nat (length out) >=? out_len then Some (Coded out (- ENOBUFS))
  else Some (Coded (out ++ [0]) (Z.of_nat (length out))).

(** Several characters are emitted. *)
Fixpoint emit_all (out : list Z) (out_len : Z) (s : list Z) (k : list Z → option coded) : option coded :=
  match s with [] => k out | c :: s => emit_ref out out_len c (λ out, emit_all out out_len s k) end.

Lemma emit_ext out out_len c k k' : k (out ++ [c]) = k' (out ++ [c]) → emit_ref out out_len c k = emit_ref out out_len c k'.
Proof. unfold emit_ref. by destruct (_ >=? _). Qed.

Lemma emit_all_ext out out_len s k k' : k (out ++ s) = k' (out ++ s) → emit_all out out_len s k = emit_all out out_len s k'.
Proof.
  revert out. induction s as [|c s IH]; intros out Hk; cbn; [by rewrite app_nil_r in Hk|].
  unfold emit_ref. destruct (_ >=? _); [done|]. apply IH. by rewrite <-app_assoc.
Qed.

Lemma emit_all_app out out_len s t k : emit_all out out_len (s ++ t) k = emit_all out out_len s (λ out, emit_all out out_len t k).
Proof.
  revert out. induction s as [|c s IH]; intros out; cbn; [done|]. unfold emit_ref. destruct (_ >=? _); [done|]. apply IH.
Qed.

(** The characters fit, or those that fit are written. *)
Lemma emit_all_spec out out_len s k : Z.of_nat (length out) ≤ out_len →
  emit_all out out_len s k =
    if Z.of_nat (length out + length s) <=? out_len then k (out ++ s)
    else Some (Coded (out ++ take (Z.to_nat out_len - length out) s) (- ENOBUFS)).
Proof.
  revert out. induction s as [|c s IH]; intros out Hout; cbn [emit_all length].
  { rewrite Nat.add_0_r, app_nil_r, (proj2 (Z.leb_le _ _)) by done. done. }
  unfold emit_ref. rewrite Z.geb_leb. destruct (Z.leb_spec out_len (Z.of_nat (length out))) as [Hf|Hf].
  - rewrite (proj2 (Z.leb_gt _ _)) by lia. replace (Z.to_nat out_len - length out)%nat with 0%nat by lia.
    by rewrite app_nil_r.
  - rewrite IH by (rewrite length_app; cbn; lia). rewrite length_app. cbn [length].
    replace (length out + 1 + length s)%nat with (length out + S (length s))%nat by lia. rewrite <-!app_assoc.
    destruct (_ <=? _); [done|]. replace (Z.to_nat out_len - length out)%nat with (S (Z.to_nat out_len - (length out + 1)))%nat by lia.
    done.
Qed.

(** The character of six bits. *)
Definition char (e : Z) : Z := default 0 (ENCODEMAP !! Z.to_nat e).

Lemma char_spec e : 0 ≤ e < 64 → ENCODEMAP !! Z.to_nat e = Some (char e) ∧
  isspace (char e) = false ∧ (char e =? 61) = false ∧ (char e >=? 128) = false ∧
  DECODEMAP !! Z.to_nat (char e) = Some e ∧ (e =? 255) = false.
Proof.
  intros He.
  assert (∀ n : nat, (n < 64)%nat → bool_decide (ENCODEMAP !! n = Some (char (Z.of_nat n)) ∧
    isspace (char (Z.of_nat n)) = false ∧ (char (Z.of_nat n) =? 61) = false ∧ (char (Z.of_nat n) >=? 128) = false ∧
    DECODEMAP !! Z.to_nat (char (Z.of_nat n)) = Some (Z.of_nat n) ∧ (Z.of_nat n =? 255) = false)) as Hall.
  { intros n Hn. do 64 (destruct n as [|n]; [vm_compute; exact I|]). lia. }
  specialize (Hall (Z.to_nat e) ltac:(lia)). apply bool_decide_unpack in Hall. by rewrite Z2Nat.id in Hall by lia.
Qed.

(** The text of some bytes. *)
Fixpoint text (bs : list Z) : list Z :=
  match bs with
  | a :: b :: c :: bs =>
      [char (a / 4); char (a `mod` 4 * 16 + b / 16); char (b `mod` 16 * 4 + c / 64); char (c `mod` 64)] ++ text bs
  | [a; b] => [char (a / 4); char (a `mod` 4 * 16 + b / 16); char (b `mod` 16 * 4); 61]
  | [a] => [char (a / 4); char (a `mod` 4 * 16); 61; 61]
  | [] => []
  end.

Lemma by_three {A} (P : list A → Prop) :
  P [] → (∀ a, P [a]) → (∀ a b, P [a; b]) → (∀ a b c l, P l → P (a :: b :: c :: l)) → ∀ l, P l.
Proof.
  intros H0 H1 H2 H3. assert (∀ n l, (length l ≤ n)%nat → P l) as H; [|intros l; by apply (H (length l))].
  induction n as [|n IH]; intros [|a [|b [|c l]]] Hl; cbn in Hl; try done; try lia. apply H3, IH. lia.
Qed.

Lemma text_length bs : Z.of_nat (length (text bs)) = 4 * ((Z.of_nat (length bs) + 2) / 3).
Proof. induction bs as [|a|a b|a b c bs IH] using by_three; [done..|]. cbn [text length app]. lia. Qed.

(** A byte comes into the register, and six bits leave it. *)
Lemma in_byte v a : 0 ≤ v → byte a → Z.lor (uint32 (Z.shiftl v 8)) a = uint32 (v * 256) + a.
Proof. unfold byte, uint32. intros Hv Ha. rewrite Z.shiftl_mul_pow2 by lia. rewrite (lor_add _ _ 8) by lia. done. Qed.

Lemma encode_bits_stop fuel v rem out_len out k : rem < 6 → encode_bits_ref (S fuel) v rem out_len out k = k rem out.
Proof. intros H. cbn. rewrite Z.geb_leb. by rewrite (proj2 (Z.leb_gt 6 rem)). Qed.

Lemma encode_bits_step fuel v rem out_len out k e : 6 ≤ rem → (v / 2 ^ (rem - 6)) `mod` 64 = e →
  encode_bits_ref (S fuel) v rem out_len out k = emit_ref out out_len (char e) (λ out, encode_bits_ref fuel v (rem - 6) out_len out k).
Proof.
  intros H He. cbn [encode_bits_ref]. rewrite Z.geb_leb, (proj2 (Z.leb_le 6 rem)) by done.
  rewrite land_63, Z.shiftr_div_pow2, He by lia.
  destruct (char_spec e) as (-> & _); [rewrite <-He; apply Z.mod_pos_bound; lia|]. done.
Qed.

Lemma encode_three a b c bs out_len v out k : 0 ≤ v → byte a → byte b → byte c →
  ∃ v', 0 ≤ v' ∧ encode_ref (a :: b :: c :: bs) out_len v 0 out k =
    emit_all out out_len [char (a / 4); char (a `mod` 4 * 16 + b / 16); char (b `mod` 16 * 4 + c / 64); char (c `mod` 64)]
      (λ out, encode_ref bs out_len v' 0 out k).
Proof.
  intros Hv Ha Hb Hc. cbn [encode_ref].
  rewrite (in_byte v a), (in_byte _ b), (in_byte _ c) by (unfold byte, uint32 in *; try done; lia).
  set (v1 := uint32 (v * 256) + a). set (v2 := uint32 (v1 * 256) + b). set (v3 := uint32 (v2 * 256) + c).
  assert (0 ≤ v1 ∧ 0 ≤ v2 ∧ 0 ≤ v3) as (H1 & H2 & H3) by (unfold v1, v2, v3, byte, uint32 in *; lia).
  exists v3. split; [done|].
  rewrite (encode_bits_step 3 v1 8 _ _ _ (a / 4)) by (unfold v1, byte, uint32 in *; lia).
  cbn [emit_all]. apply emit_ext.
  rewrite encode_bits_stop by lia.
  rewrite (encode_bits_step 3 v2 (8 - 6 + 8) _ _ _ (a `mod` 4 * 16 + b / 16)) by (unfold v2, v1, byte, uint32 in *; lia).
  apply emit_ext.
  rewrite encode_bits_stop by lia.
  rewrite (encode_bits_step 3 v3 (8 - 6 + 8 - 6 + 8) _ _ _ (b `mod` 16 * 4 + c / 64)) by (unfold v3, v2, byte, uint32 in *; lia).
  apply emit_ext.
  rewrite (encode_bits_step 2 v3 (8 - 6 + 8 - 6 + 8 - 6) _ _ _ (c `mod` 64)) by (unfold v3, byte, uint32 in *; lia).
  apply emit_ext.
  rewrite encode_bits_stop by lia. done.
Qed.

Definition encode_finish (out_len v rem : Z) (out : list Z) : option coded :=
  if negb (rem =? 0) then
    c ← ENCODEMAP !! Z.to_nat (Z.land (uint32 (Z.shiftl v (6 - rem))) 63);
    emit_ref out out_len c (λ out, encode_pad_ref 4 out_len out (encode_end_ref out_len))
  else encode_pad_ref 4 out_len out (encode_end_ref out_len).

Lemma land_3 n : Z.land (Z.of_nat n) 3 = Z.of_nat n `mod` 4.
Proof. exact (Z.land_ones (Z.of_nat n) 2 ltac:(lia)). Qed.

Lemma pad_done fuel out_len out k : Z.of_nat (length out) `mod` 4 = 0 → encode_pad_ref (S fuel) out_len out k = k out.
Proof. intros H. cbn [encode_pad_ref]. by rewrite land_3, H. Qed.

Lemma pad_more fuel out_len out k : Z.of_nat (length out) `mod` 4 ≠ 0 →
  encode_pad_ref (S fuel) out_len out k = emit_ref out out_len 61 (λ out, encode_pad_ref fuel out_len out k).
Proof. intros H. cbn [encode_pad_ref]. rewrite land_3. by destruct (Z.eqb_spec (Z.of_nat (length out) `mod` 4) 0). Qed.

(** The bits that are left make a character. *)
Lemma finish_bits out_len v rem out e : rem ≠ 0 → rem ≤ 6 → 0 ≤ v → uint32 (v * 2 ^ (6 - rem)) `mod` 64 = e →
  encode_finish out_len v rem out = emit_ref out out_len (char e) (λ out, encode_pad_ref 4 out_len out (encode_end_ref out_len)).
Proof.
  intros Hr Hr6 Hv He. unfold encode_finish. rewrite (proj2 (Z.eqb_neq rem 0)) by done. cbn [negb].
  rewrite land_63, Z.shiftl_mul_pow2, He by lia.
  destruct (char_spec e) as (-> & _); [rewrite <-He; apply Z.mod_pos_bound; lia|]. done.
Qed.

Lemma encode_text bs out_len v out : Forall byte bs → 0 ≤ v → Z.of_nat (length out) `mod` 4 = 0 →
  encode_ref bs out_len v 0 out (encode_finish out_len) = emit_all out out_len (text bs) (encode_end_ref out_len).
Proof.
  revert v out. induction bs as [|a|a b|a b c bs IH] using by_three; intros v out Hb Hv Hout.
  - cbn. by apply (pad_done 3).
  - apply Forall_cons in Hb as [Ha _]. cbn [encode_ref text emit_all]. rewrite (in_byte v a) by done.
    set (v1 := uint32 (v * 256) + a). assert (0 ≤ v1) as H1 by (unfold v1, byte, uint32 in *; lia).
    rewrite (encode_bits_step 3 v1 8 _ _ _ (a / 4)) by (unfold v1, byte, uint32 in *; lia). apply emit_ext.
    rewrite encode_bits_stop by lia.
    rewrite (finish_bits _ v1 (8 - 6) _ (a `mod` 4 * 16)) by (unfold v1, byte, uint32 in *; lia). apply emit_ext.
    rewrite pad_more by (rewrite !length_app; cbn [length]; lia). apply emit_ext.
    rewrite pad_more by (rewrite !length_app; cbn [length]; lia). apply emit_ext.
    rewrite pad_done by (rewrite !length_app; cbn [length]; lia). done.
  - rewrite !Forall_cons in Hb. destruct Hb as (Ha & Hb & _). cbn [encode_ref text emit_all].
    rewrite (in_byte v a), (in_byte _ b) by (unfold byte, uint32 in *; try done; lia).
    set (v1 := uint32 (v * 256) + a). set (v2 := uint32 (v1 * 256) + b).
    assert (0 ≤ v1 ∧ 0 ≤ v2) as (H1 & H2) by (unfold v1, v2, byte, uint32 in *; lia).
    rewrite (encode_bits_step 3 v1 8 _ _ _ (a / 4)) by (unfold v1, byte, uint32 in *; lia). apply emit_ext.
    rewrite encode_bits_stop by lia.
    rewrite (encode_bits_step 3 v2 (8 - 6 + 8) _ _ _ (a `mod` 4 * 16 + b / 16)) by (unfold v2, v1, byte, uint32 in *; lia).
    apply emit_ext. rewrite encode_bits_stop by lia.
    rewrite (finish_bits _ v2 (8 - 6 + 8 - 6) _ (b `mod` 16 * 4)) by (unfold v2, byte, uint32 in *; lia). apply emit_ext.
    rewrite pad_more by (rewrite !length_app; cbn [length]; lia). apply emit_ext.
    rewrite pad_done by (rewrite !length_app; cbn [length]; lia). done.
  - rewrite !Forall_cons in Hb. destruct Hb as (Ha & Hb & Hc & Hbs).
    destruct (encode_three a b c bs out_len v out (encode_finish out_len) Hv Ha Hb Hc) as (v' & Hv' & ->).
    cbn [text]. rewrite emit_all_app. apply emit_all_ext. apply IH; [done|done|]. rewrite length_app. cbn [length]. lia.
Qed.

(** Six bits come into the register of the decoder. *)
Definition in_char (v e : Z) : Z := uint32 (v * 64) + e.

Lemma decode_char e inp out_len v rem out k : 0 ≤ e < 64 → 0 ≤ v →
  decode_ref (char e :: inp) out_len v rem out k =
    if rem + 6 >=? 8 then
      emit_ref out out_len ((in_char v e / 2 ^ (rem + 6 - 8)) `mod` 256) (λ out, decode_ref inp out_len (in_char v e) (rem + 6 - 8) out k)
    else decode_ref inp out_len (in_char v e) (rem + 6) out k.
Proof.
  intros He Hv. destruct (char_spec e He) as (_ & Hs & H61 & H128 & Hd & H255). cbn [decode_ref].
  rewrite Hs, H61, H128, Hd. cbn [mbind option_bind]. rewrite H255.
  assert (Z.lor (uint32 (Z.shiftl v 6)) e = in_char v e) as ->.
  { unfold in_char, uint32. rewrite Z.shiftl_mul_pow2 by lia. rewrite (lor_add _ _ 6) by lia. done. }
  rewrite Z.geb_leb. destruct (Z.leb_spec 8 (rem + 6)); [|done]. rewrite land_255, Z.shiftr_div_pow2 by lia. done.
Qed.

Lemma decode_keep e inp out_len v rem out k : 0 ≤ e < 64 → 0 ≤ v → rem + 6 < 8 →
  decode_ref (char e :: inp) out_len v rem out k = decode_ref inp out_len (in_char v e) (rem + 6) out k.
Proof. intros He Hv Hr. rewrite decode_char by done. rewrite Z.geb_leb. by rewrite (proj2 (Z.leb_gt 8 (rem + 6))). Qed.

Lemma decode_emit e inp out_len v rem out k b : 0 ≤ e < 64 → 0 ≤ v → 8 ≤ rem + 6 →
  (in_char v e / 2 ^ (rem + 6 - 8)) `mod` 256 = b →
  decode_ref (char e :: inp) out_len v rem out k =
    emit_ref out out_len b (λ out, decode_ref inp out_len (in_char v e) (rem + 6 - 8) out k).
Proof. intros He Hv Hr <-. rewrite decode_char by done. rewrite Z.geb_leb. by rewrite (proj2 (Z.leb_le 8 (rem + 6))). Qed.

Definition decode_finish (out_len v rem : Z) (out : list Z) : option coded :=
  if rem >=? 8 then
    emit_ref out out_len (Z.land (Z.shiftr v (rem - 8)) 255) (λ out, Some (Coded out (Z.of_nat (length out))))
  else Some (Coded out (Z.of_nat (length out))).

Lemma decode_text bs out_len v out : Forall byte bs → 0 ≤ v →
  decode_ref (text bs) out_len v 0 out (decode_finish out_len) =
    emit_all out out_len bs (λ out, Some (Coded out (Z.of_nat (length out)))).
Proof.
  revert v out. induction bs as [|a|a b|a b c bs IH] using by_three; intros v out Hb Hv; [done|..];
    rewrite !Forall_cons in Hb; unfold byte in Hb.
  - destruct Hb as (Ha & _). cbn [text emit_all].
    set (v1 := in_char v (a / 4)). assert (0 ≤ v1) as H1 by (unfold v1, in_char, uint32; lia).
    rewrite decode_keep, (decode_emit _ _ _ v1 _ _ _ a) by (unfold v1, in_char, uint32; lia). done.
  - destruct Hb as (Ha & Hb & _). cbn [text emit_all].
    set (v1 := in_char v (a / 4)). assert (0 ≤ v1) as H1 by (unfold v1, in_char, uint32; lia).
    rewrite decode_keep, (decode_emit _ _ _ v1 _ _ _ a) by (unfold v1, in_char, uint32; lia). apply emit_ext.
    set (v2 := in_char v1 (a `mod` 4 * 16 + b / 16)). assert (0 ≤ v2) as H2 by (unfold v2, in_char, uint32; lia).
    rewrite (decode_emit _ _ _ v2 _ _ _ b) by (unfold v2, in_char, uint32; lia). done.
  - destruct Hb as (Ha & Hb & Hc & Hbs). cbn [text emit_all app].
    set (v1 := in_char v (a / 4)). assert (0 ≤ v1) as H1 by (unfold v1, in_char, uint32; lia).
    rewrite decode_keep, (decode_emit _ _ _ v1 _ _ _ a) by (unfold v1, in_char, uint32; lia). apply emit_ext.
    set (v2 := in_char v1 (a `mod` 4 * 16 + b / 16)). assert (0 ≤ v2) as H2 by (unfold v2, in_char, uint32; lia).
    rewrite (decode_emit _ _ _ v2 _ _ _ b) by (unfold v2, in_char, uint32; lia). apply emit_ext.
    set (v3 := in_char v2 (b `mod` 16 * 4 + c / 64)). assert (0 ≤ v3) as H3 by (unfold v3, in_char, uint32; lia).
    rewrite (decode_emit _ _ _ v3 _ _ _ c) by (unfold v3, in_char, uint32; lia). apply emit_ext.
    apply IH; [done|unfold in_char, uint32; lia].
Qed.

(** *** The counters *)

Lemma put_end out c : put out (Z.of_nat (length out)) c = out ++ [c].
Proof. unfold put. by rewrite Z.ltb_irrefl. Qed.

Lemma int32_small z : 0 ≤ z < 2 ^ 31 → int32 z = z.
Proof. intros Hz. unfold int32. by rewrite (proj2 (Z.ltb_lt z _)) by lia. Qed.

Lemma emit_bridge out n c k k' : Z.of_nat (length out) + 1 < 2 ^ 32 →
  k (out ++ [c]) (Z.of_nat (length (out ++ [c]))) = k' (out ++ [c]) → emit out (Z.of_nat (length out)) n c k = emit_ref out n c k'.
Proof.
  intros Hl Hk. unfold emit, emit_ref. destruct (_ >=? _); [done|]. rewrite put_end, <-Hk. f_equal.
  unfold uint32. rewrite Z.mod_small by lia. rewrite length_app. cbn [length]. lia.
Qed.

Lemma decode_bridge n rest : ∀ pre fuel v rem out k k', (length rest < fuel)%nat →
  Z.of_nat (length (pre ++ rest)) + 1 < 2 ^ 32 → (length out ≤ length pre)%nat →
  (∀ v rem out, (length out ≤ length (pre ++ rest))%nat → k v rem out (Z.of_nat (length out)) = k' v rem out) →
  decode_loop fuel (pre ++ rest) (Z.of_nat (length pre)) n v rem out (Z.of_nat (length out)) k = decode_ref rest n v rem out k'.
Proof.
  induction rest as [|c rest IH]; intros pre [|fuel] v rem out k k' Hf Hl Ho Hk; cbn [length] in Hf; try lia;
    cbn [decode_loop decode_ref].
  - rewrite app_nil_r in *. rewrite Z.ltb_irrefl. by apply Hk.
  - rewrite length_app in Hl. cbn [length] in Hl. rewrite (proj2 (Z.ltb_lt _ _)) by (rewrite length_app; cbn [length]; lia).
    rewrite Nat2Z.id, list_lookup_middle by done. cbn [mbind option_bind].
    assert (∀ v rem out, (length out ≤ S (length pre))%nat →
      decode_loop fuel (pre ++ c :: rest) (uint32 (Z.of_nat (length pre) + 1)) n v rem out (Z.of_nat (length out)) k = decode_ref rest n v rem out k') as Hrest.
    { intros v' rem' out' Ho'. replace (uint32 (Z.of_nat (length pre) + 1)) with (Z.of_nat (length (pre ++ [c]))).
      2: { unfold uint32. rewrite Z.mod_small by lia. rewrite length_app. cbn [length]. lia. }
      replace (pre ++ c :: rest) with ((pre ++ [c]) ++ rest) in * by by rewrite <-app_assoc.
      apply IH; [lia|rewrite !length_app; cbn [length]; lia|rewrite length_app; cbn [length]; lia|done]. }
    assert (∀ v rem out, (length out ≤ S (length pre))%nat → k v rem out (Z.of_nat (length out)) = k' v rem out) as Hk'.
    { intros v' rem' out' Ho'. apply Hk. rewrite length_app. cbn [length]. lia. }
    destruct (isspace c); [apply Hrest; lia|]. destruct (c =? 61); [apply Hk'; lia|]. destruct (c >=? 128); [done|].
    destruct (DECODEMAP !! Z.to_nat c) as [ch|]; [|done]. cbn [mbind option_bind]. destruct (ch =? 255); [apply Hk'; lia|].
    destruct (rem + 6 >=? 8); [|apply Hrest; lia]. apply emit_bridge; [lia|]. apply Hrest. rewrite length_app. cbn [length]. lia.
Qed.

Lemma bits_bridge n v : ∀ fuel rem out k k', 6 * Z.of_nat (length out) + rem < 6 * (2 ^ 32 - 1) → 0 ≤ rem →
  (∀ rem' out', 0 ≤ rem' → 6 * Z.of_nat (length out') + rem' = 6 * Z.of_nat (length out) + rem →
     k rem' out' (Z.of_nat (length out')) = k' rem' out') →
  encode_bits fuel v rem n out (Z.of_nat (length out)) k = encode_bits_ref fuel v rem n out k'.
Proof.
  induction fuel as [|fuel IH]; intros rem out k k' Hl Hr Hk; [done|]. cbn [encode_bits encode_bits_ref]. rewrite Z.geb_leb.
  destruct (Z.leb_spec 6 rem) as [H6|H6]; [|by apply Hk].
  destruct (ENCODEMAP !! _) as [c|]; [|done]. cbn [mbind option_bind]. apply emit_bridge; [lia|].
  assert (6 * Z.of_nat (length (out ++ [c])) + (rem - 6) = 6 * Z.of_nat (length out) + rem) as E by (rewrite length_app; cbn [length]; lia).
  apply IH; [lia|lia|]. intros rem' out' Hr' E'. apply Hk; [done|lia].
Qed.

Lemma encode_bridge n rest : ∀ pre fuel v rem out k k', (length rest < fuel)%nat →
  8 * Z.of_nat (length (pre ++ rest)) < 6 * (2 ^ 32 - 1) → 0 ≤ rem → 6 * Z.of_nat (length out) + rem = 8 * Z.of_nat (length pre) →
  (∀ v rem out, 0 ≤ rem → 6 * Z.of_nat (length out) + rem = 8 * Z.of_nat (length (pre ++ rest)) →
     k v rem out (Z.of_nat (length out)) = k' v rem out) →
  encode_loop fuel (pre ++ rest) (Z.of_nat (length pre)) n v rem out (Z.of_nat (length out)) k = encode_ref rest n v rem out k'.
Proof.
  induction rest as [|c rest IH]; intros pre [|fuel] v rem out k k' Hf Hl Hr Ho Hk; cbn [length] in Hf; try lia;
    cbn [encode_loop encode_ref].
  - rewrite app_nil_r in *. rewrite Z.ltb_irrefl. by apply Hk.
  - pose proof Hl as Hl'. rewrite length_app in Hl'. cbn [length] in Hl'.
    rewrite (proj2 (Z.ltb_lt _ _)) by (rewrite length_app; cbn [length]; lia).
    rewrite Nat2Z.id, list_lookup_middle by done. cbn [mbind option_bind].
    apply bits_bridge; [lia|lia|]. intros rem' out' Hr' Ho'.
    replace (uint32 (Z.of_nat (length pre) + 1)) with (Z.of_nat (length (pre ++ [c]))).
    2: { unfold uint32. rewrite Z.mod_small by lia. rewrite length_app. cbn [length]. lia. }
    replace (pre ++ c :: rest) with ((pre ++ [c]) ++ rest) in * by by rewrite <-app_assoc.
    apply IH; [lia|done|done|rewrite length_app; cbn [length]; lia|done].
Qed.

Lemma pad_bridge n : ∀ fuel out k k', Z.of_nat (length out) + Z.of_nat fuel < 2 ^ 32 →
  (∀ out', (length out' < length out + fuel)%nat → Z.of_nat (length out') `mod` 4 = 0 → k out' (Z.of_nat (length out')) = k' out') →
  encode_pad fuel n out (Z.of_nat (length out)) k = encode_pad_ref fuel n out k'.
Proof.
  induction fuel as [|fuel IH]; intros out k k' Hl Hk; [done|]. cbn [encode_pad encode_pad_ref].
  destruct (Z.eqb_spec (Z.land (Z.of_nat (length out)) 3) 0) as [E|]; [rewrite land_3 in E; apply Hk; [lia|done]|].
  apply emit_bridge; [lia|]. apply IH; rewrite length_app; cbn [length]; [lia|]. intros out' Ho. apply Hk. lia.
Qed.

Lemma zero_bridge n out : Z.of_nat (length out) < 2 ^ 31 → encode_zero n out (Z.of_nat (length out)) = encode_end_ref n out.
Proof. intros Hl. unfold encode_zero, encode_end_ref. by rewrite put_end, int32_small by lia. Qed.

Lemma decode_no_wrap inp n : Z.of_nat (length inp) < 2 ^ 31 - 1 → nn_base64_decode inp n = decode_ref inp n 0 0 [] (decode_finish n).
Proof.
  intros Hl. unfold nn_base64_decode. apply (decode_bridge n inp []); [lia|cbn [app]; lia|done|]. cbn [app].
  intros v rem out Ho. unfold decode_end, decode_finish. destruct (rem >=? 8); [|by rewrite int32_small by lia].
  apply emit_bridge; [lia|]. rewrite int32_small; [done|]. rewrite length_app. cbn [length]. lia.
Qed.

Lemma encode_no_wrap inp n : 4 * ((Z.of_nat (length inp) + 2) / 3) < 2 ^ 31 →
  nn_base64_encode inp n = encode_ref inp n 0 0 [] (encode_finish n).
Proof.
  intros Hl. unfold nn_base64_encode.
  apply (encode_bridge n inp []); [lia|cbn [app]; Z.div_mod_to_equations; lia|done|done|]. cbn [app].
  intros v rem out Hr Ho. unfold encode_end, encode_finish. destruct (Z.eqb_spec rem 0) as [H0|H0]; cbn [negb].
  - apply pad_bridge; [Z.div_mod_to_equations; lia|]. intros out' Ho' Hm. apply zero_bridge. Z.div_mod_to_equations; lia.
  - destruct (ENCODEMAP !! _) as [c|]; [|done]. cbn [mbind option_bind]. apply emit_bridge; [Z.div_mod_to_equations; lia|].
    apply pad_bridge; rewrite length_app; cbn [length]; [Z.div_mod_to_equations; lia|].
    intros out' Ho' Hm. apply zero_bridge. Z.div_mod_to_equations; lia.
Qed.

(** C31. The encoder and the decoder of base64 belong together, and keep to their buffers,
    for texts of less than [2 ^ 31] characters, which the [int] of the results counts:
    the text of [n] bytes has four characters for every three bytes begun; the encoder
    writes it, with a zero behind it, when the buffer is longer, and otherwise answers
    [-ENOBUFS] with what fits; the decoder makes the bytes of it again when they fit,
    and otherwise answers [-ENOBUFS] with those that do. *)
Theorem base64_roundtrip bs n m (Hbytes : Forall byte bs) (Hsize : 4 * ((Z.of_nat (length bs) + 2) / 3) < 2 ^ 31)
  (Hn : 0 ≤ n) (Hm : 0 ≤ m) :
  let sz := 4 * ((Z.of_nat (length bs) + 2) / 3) in
  ∃ t, Z.of_nat (length t) = sz ∧
    nn_base64_encode bs n = Some (if sz <? n then Coded (t ++ [0]) sz else Coded (take (Z.to_nat n) t) (- ENOBUFS)) ∧
    nn_base64_decode t m = Some (if Z.of_nat (length bs) <=? m then Coded bs (Z.of_nat (length bs))
      else Coded (take (Z.to_nat m) bs) (- ENOBUFS)).
Proof.
  intros sz. exists (text bs). split; [apply text_length|]. split.
  - rewrite encode_no_wrap by done. rewrite (encode_text bs n 0 []) by done.
    rewrite emit_all_spec by done. cbn [length app]. rewrite Nat.add_0_l, Nat.sub_0_r.
    pose proof (text_length bs) as Hl. fold sz in Hl. rewrite Hl. unfold encode_end_ref. rewrite Hl, Z.geb_leb.
    destruct (Z.leb_spec sz n), (Z.ltb_spec sz n), (Z.leb_spec n sz); try lia; try done.
    assert (n = sz) as -> by lia. rewrite take_ge by lia. done.
  - rewrite decode_no_wrap by (rewrite text_length; fold sz in Hsize; lia).
    rewrite (decode_text bs m 0 []) by done.
    rewrite emit_all_spec by done. cbn [length app]. rewrite Nat.add_0_l, Nat.sub_0_r. by destruct (_ <=? _).
Qed.

Lemma base64_roundtrip_witness :
  (let sz := 4 * ((Z.of_nat (length [77; 97; 255; 0]) + 2) / 3) in
   ∃ t, Z.of_nat (length t) = sz ∧
    nn_base64_encode [77; 97; 255; 0] 20 =
      Some (if sz <? 20 then Coded (t ++ [0]) sz else Coded (take (Z.to_nat 20) t) (- ENOBUFS)) ∧
    nn_base64_decode t 20 = Some (if Z.of_nat (length [77; 97; 255; 0]) <=? 20 then Coded [77; 97; 255; 0] 4
      else Coded (take (Z.to_nat 20) [77; 97; 255; 0]) (- ENOBUFS))) ∧
  nn_base64_encode [77; 97; 255; 0] 20 = Some (Coded [84; 87; 72; 47; 65; 65; 61; 61; 0] 8).
Proof.
  split; [apply (base64_roundtrip [77; 97; 255; 0] 20 20); [repeat constructor; vm_compute; discriminate|vm_compute; reflexivity|lia..]|vm_compute; reflexivity].
Defined.

(** ** UTF-8 *)

(** A code point that is not half of a surrogate pair, and its encoding in RFC 3629. *)
Definition scalar (cp : Z) : Prop := 0 ≤ cp < 55296 ∨ 57344 ≤ cp ≤ 1114111.

Definition utf8 (cp : Z) : list Z :=
  if cp <? 128 then [cp] else
  if cp <? 2048 then [192 + cp / 64; 128 + cp `mod` 64] else
  if cp <? 65536 then [224 + cp / 4096; 128 + (cp / 64) `mod` 64; 128 + cp `mod` 64] else
  [240 + cp / 262144; 128 + (cp / 4096) `mod` 64; 128 + (cp / 64) `mod` 64; 128 + cp `mod` 64].

Lemma continuation_spec b : byte b → continuation b = (128 <=? b) && (b <? 192).
Proof.
  intros Hb. assert (forallb (λ n, Bool.eqb (continuation (Z.of_nat n)) ((128 <=? Z.of_nat n) && (Z.of_nat n <? 192))) (seq 0 256) = true)
    as H by (vm_compute; reflexivity).
  rewrite forallb_forall in H. specialize (H (Z.to_nat b)). unfold byte in Hb. rewrite Z2Nat.id in H by lia.
  apply eqb_prop, H, in_seq. lia.
Qed.

Lemma continuation_true b : byte b → continuation b = true → 128 ≤ b < 192.
Proof. intros Hb. rewrite continuation_spec by done. lia. Qed.

Lemma continuation_of b : 128 ≤ b < 192 → continuation b = true.
Proof. intros Hb. rewrite continuation_spec by (unfold byte; lia). lia. Qed.

(** The tests of the source, one by one. *)
Ltac tests_of H :=
  repeat match type of H with
  | context [if ?b then _ else _] => destruct b eqn:?
  end.

Ltac decide_tests :=
  repeat match goal with
  | |- context [continuation ?b] => rewrite (continuation_of b) by lia; cbn [negb orb]
  | |- context [if ?b then _ else _] =>
      first [replace b with true by (symmetry; lia) | replace b with false by (symmetry; lia)]
  end.

Lemma utf8_accepts cp rest : scalar cp → nn_utf8_code_point (utf8 cp ++ rest) = Z.of_nat (length (utf8 cp)).
Proof.
  unfold scalar, utf8. intros Hs. destruct (cp <? 128) eqn:?; [|destruct (cp <? 2048) eqn:?; [|destruct (cp <? 65536) eqn:?]];
    unfold nn_utf8_code_point, octet; cbn [length app lookup list_lookup default from_option Nat.eqb Nat.ltb Nat.leb id];
    decide_tests; done.
Qed.

Lemma utf8_fragment cp k : scalar cp → (k < length (utf8 cp))%nat → nn_utf8_code_point (take k (utf8 cp)) = NN_SWS_UTF8_FRAGMENT.
Proof.
  unfold scalar, utf8. intros Hs. destruct (cp <? 128) eqn:?; [|destruct (cp <? 2048) eqn:?; [|destruct (cp <? 65536) eqn:?]];
    cbn [length]; intros Hk; destruct k as [|[|[|[|k]]]]; try lia; cbn [take];
    unfold nn_utf8_code_point, octet; cbn [length lookup list_lookup default from_option Nat.eqb Nat.ltb Nat.leb id];
    decide_tests; done.
Qed.

(** The code point of an accepted prefix. *)
Definition utf8_decode (buf : list Z) (n : Z) : Z :=
  let b := octet buf in
  if n =? 1 then b 0%nat
  else if n =? 2 then (b 0%nat - 192) * 64 + (b 1%nat - 128)
  else if n =? 3 then (b 0%nat - 224) * 4096 + (b 1%nat - 128) * 64 + (b 2%nat - 128)
  else (b 0%nat - 240) * 262144 + (b 1%nat - 128) * 4096 + (b 2%nat - 128) * 64 + (b 3%nat - 128).

Ltac octets :=
  change (Z.to_nat 2) with 2%nat; change (Z.to_nat 3) with 3%nat; change (Z.to_nat 4) with 4%nat; cbn [take];
  repeat f_equal; lia.

Lemma utf8_sound buf n : Forall byte buf → nn_utf8_code_point buf = n → 0 < n →
  scalar (utf8_decode buf n) ∧ take (Z.to_nat n) buf = utf8 (utf8_decode buf n).
Proof.
  intros Hb H Hn. unfold nn_utf8_code_point in H.
  destruct (length buf =? 0)%nat eqn:El; [subst n; vm_compute in Hn; done|]. apply Nat.eqb_neq in El.
  destruct buf as [|a buf]; [done|]. apply Forall_cons in Hb as [Ha Hb]. unfold byte in Ha.
  unfold octet in H. cbn [lookup list_lookup default from_option id length] in H.
  destruct (a <=? 127) eqn:E1.
  { subst n. unfold utf8_decode, scalar, utf8, octet. cbn. split; [lia|]. by replace (a <? 128) with true by lia. }
  destruct (a <? 194) eqn:E2; [subst n; vm_compute in Hn; done|].
  destruct buf as [|b buf].
  { repeat match type of H with context [if ?c then _ else _] => destruct c eqn:? end;
      subst n; vm_compute in Hn; done. }
  apply Forall_cons in Hb as [Hbb Hb]. cbn [lookup list_lookup default from_option id length] in H.
  destruct (a <=? 223) eqn:E3.
  { destruct (_ <? 2)%nat in H; [subst n; vm_compute in Hn; done|]. destruct (continuation b) eqn:Ec; [|subst n; vm_compute in Hn; done].
    apply (continuation_true b Hbb) in Ec. cbn in H. subst n. unfold utf8_decode, scalar, octet. cbn. split; [lia|].
    unfold utf8. decide_tests. octets. }
  destruct buf as [|c buf].
  { repeat match type of H with context [if ?c then _ else _] => destruct c eqn:? end;
      subst n; vm_compute in Hn; done. }
  apply Forall_cons in Hb as [Hbc Hb]. cbn [lookup list_lookup default from_option id length] in H.
  destruct (a <=? 239) eqn:E4.
  { destruct (_ <? 2)%nat in H; [subst n; vm_compute in Hn; done|].
    destruct ((a =? 224) && _) eqn:E5; [subst n; vm_compute in Hn; done|].
    destruct ((a =? 237) && _) eqn:E6; [subst n; vm_compute in Hn; done|].
    destruct (_ <? 3)%nat in H; [subst n; vm_compute in Hn; done|].
    destruct (continuation b) eqn:Eb; [|subst n; vm_compute in Hn; done].
    destruct (continuation c) eqn:Ec; [|subst n; vm_compute in Hn; done].
    apply (continuation_true b Hbb) in Eb. apply (continuation_true c Hbc) in Ec.
    cbn in H. subst n. unfold utf8_decode, scalar, octet. cbn. split; [lia|].
    unfold utf8. decide_tests. octets. }
  destruct (a <=? 244) eqn:E7; [|subst n; vm_compute in Hn; done].
  destruct buf as [|d buf].
  { repeat match type of H with context [if ?c then _ else _] => destruct c eqn:? end;
      subst n; vm_compute in Hn; done. }
  apply Forall_cons in Hb as [Hbd Hb]. cbn [lookup list_lookup default from_option id length] in H.
  destruct (_ <? 2)%nat in H; [subst n; vm_compute in Hn; done|].
  destruct ((a =? 240) && _) eqn:E5; [subst n; vm_compute in Hn; done|].
  destruct ((a =? 244) && _) eqn:E6; [subst n; vm_compute in Hn; done|].
  destruct (_ <? 4)%nat in H; [subst n; vm_compute in Hn; done|].
  destruct (continuation b) eqn:Eb; [|subst n; vm_compute in Hn; done].
  destruct (continuation c) eqn:Ec; [|subst n; vm_compute in Hn; done].
  destruct (continuation d) eqn:Ed; [|subst n; vm_compute in Hn; done].
  apply (continuation_true b Hbb) in Eb. apply (continuation_true c Hbc) in Ec. apply (continuation_true d Hbd) in Ed.
  cbn in H. subst n. unfold utf8_decode, scalar, octet. cbn. split; [lia|].
  unfold utf8. decide_tests. octets.
Qed.

(** C32. The check of UTF-8 accepts exactly RFC 3629: the encoding of every code point that
    is no half of a surrogate pair is accepted, with its length, whatever follows;
    what is accepted is such an encoding; and a proper prefix of one is a fragment. *)
Theorem utf8_exact :
  (∀ cp rest, scalar cp → nn_utf8_code_point (utf8 cp ++ rest) = Z.of_nat (length (utf8 cp))) ∧
  (∀ buf n, Forall byte buf → nn_utf8_code_point buf = n → 0 < n →
     ∃ cp, scalar cp ∧ take (Z.to_nat n) buf = utf8 cp) ∧
  (∀ cp k, scalar cp → (k < length (utf8 cp))%nat → nn_utf8_code_point (take k (utf8 cp)) = NN_SWS_UTF8_FRAGMENT).
Proof.
  split_and!; [exact utf8_accepts| |exact utf8_fragment].
  intros buf n Hb H Hn. exists (utf8_decode buf n). by apply utf8_sound.
Qed.

(** A second octet that cannot continue is noticed only with the third. *)
Lemma utf8_late : nn_utf8_code_point [225; 65] = NN_SWS_UTF8_FRAGMENT ∧ nn_utf8_code_point [225; 65; 65] = NN_SWS_UTF8_INVALID ∧
  ∀ cp, scalar cp → take 2 (utf8 cp) ≠ [225; 65].
Proof.
  split_and!; [reflexivity..|]. intros cp Hs. unfold utf8.
  destruct (cp <? 128), (cp <? 2048), (cp <? 65536); cbn; intros [=]; lia.
Qed.

(** The mask, applied in parts and again, gives the payload back. *)
Lemma mask_twice payload mask p : (nn_sws_mask_payload (nn_sws_mask_payload payload mask p).1 mask p).1 = payload.
Proof.
  unfold nn_sws_mask_payload. cbn [fst]. apply list_eq. intros i. rewrite !list_lookup_imap.
  destruct (payload !! i) as [b|]; cbn; [|done]. by rewrite Z.lxor_assoc, Z.lxor_nilpotent, Z.lxor_0_r.
Qed.

Lemma utf8_exact_witness : nn_utf8_code_point (utf8 8364 ++ [65]) = 3 ∧
  ∃ cp, scalar cp ∧ take (Z.to_nat 3) [226; 130; 172; 65] = utf8 cp.
Proof.
  split; [exact (proj1 utf8_exact 8364 [65] ltac:(left; lia))|].
  apply (proj1 (proj2 utf8_exact) [226; 130; 172; 65] 3); [repeat constructor; vm_compute; discriminate|vm_compute; reflexivity..].
Defined.
