(* ===== verification/NnHash.v ===== *)
(** * The hash maps of nanomsg

    [nanomsg-1.0.0/src/utils/hash.c]: an array of linked lists that doubles when it is
    half full.  An item of the map and its member [list] have the same address here. *)

From S2P Require Import Prelude NnList NnCodec.
From stdpp Require Import base numbers list gmap.
#[local] Open Scope Z_scope.

Definition NN_HASH_INITIAL_SLOTS : Z := 32.

(** The map, with the store of the items and their keys. *)
Record nn_hash := Hash {
  h_links : gmap Z nn_list_item;
  h_keys : gmap Z Z;
  h_slots : Z; h_items : Z;
  h_array : list nn_list
}.

Definition nn_hash_key (key : Z) : Z :=
  let key := Z.lxor (Z.lxor key 61) (Z.shiftr key 16) in
  let key := uint32 (key + uint32 (Z.shiftl key 3)) in
  let key := Z.lxor key (Z.shiftr key 4) in
  let key := uint32 (key * 0x27d4eb2d) in
  Z.lxor key (Z.shiftr key 15).

Definition nn_hash_init (links : gmap Z nn_list_item) (keys : gmap Z Z) : nn_hash :=
  Hash links keys NN_HASH_INITIAL_SLOTS 0 (replicate (Z.to_nat NN_HASH_INITIAL_SLOTS) nn_list_init).

Definition terms (ls : list nn_list) : option unit := foldr (λ l k, nn_list_term l ≫= λ _, k) (Some tt) ls.

Definition nn_hash_term (self : nn_hash) : option unit := terms (h_array self).

(** An item goes to the end of the slot of its key. *)
Definition to_slot (links : gmap Z nn_list_item) (keys : gmap Z Z) (array : list nn_list) (slots item : Z) :
    option (gmap Z nn_list_item * list nn_list) :=
  key ← keys !! item;
  let newslot := Z.to_nat (nn_hash_key key `mod` slots) in
  l ← array !! newslot;
  '(links, l) ← nn_list_insert links l item nn_list_end;
  Some (links, <[newslot := l]> array).

(** The inner loop of [nn_hash_rehash]. *)
Fixpoint move_items (fuel : nat) (links : gmap Z nn_list_item) (keys : gmap Z Z) (old : nn_list) (array : list nn_list) (slots : Z) :
    option (gmap Z nn_list_item * list nn_list) :=
  match fuel with
  | O => None
  | S fuel =>
      match nn_list_begin old with
      | None => _ ← nn_list_term old; Some (links, array)
      | Some hitm =>
          '(links, old, _) ← nn_list_erase links old hitm;
          '(links, array) ← to_slot links keys array slots hitm;
          move_items fuel links keys old array slots
      end
  end.

Fixpoint move_slots (fuel : nat) (links : gmap Z nn_list_item) (keys : gmap Z Z) (olds array : list nn_list) (slots : Z) :
    option (gmap Z nn_list_item * list nn_list) :=
  match olds with
  | [] => Some (links, array)
  | old :: olds =>
      '(links, array) ← move_items fuel links keys old array slots;
      move_slots fuel links keys olds array slots
  end.

(** No list has more items than the map, which bounds each of the loops. *)
Definition hash_fuel (self : nn_hash) : nat := S (Z.to_nat (h_items self)).

Definition nn_hash_rehash (self : nn_hash) : option nn_hash :=
  let slots := uint32 (h_slots self * 2) in
  '(links, array) ←
    move_slots (hash_fuel self) (h_links self) (h_keys self) (h_array self) (replicate (Z.to_nat slots) nn_list_init) slots;
  Some (Hash links (h_keys self) slots (h_items self) array).

(** The loops over the items of a slot: the first item with the key. *)
Fixpoint find_key (fuel : nat) (links : gmap Z nn_list_item) (keys : gmap Z Z) (l : nn_list) (it : option Z) (key : Z) :
    option (option Z) :=
  match fuel with
  | O => None
  | S fuel =>
      match it with
      | None => Some None
      | Some item =>
          k ← keys !! item;
          if k =? key then Some (Some item) else
          it ← nn_list_next links item; find_key fuel links keys l it key
      end
  end.

Definition nn_hash_get (self : nn_hash) (key : Z) : option (option Z) :=
  l ← h_array self !! Z.to_nat (nn_hash_key key `mod` h_slots self);
  find_key (hash_fuel self) (h_links self) (h_keys self) l (nn_list_begin l) key.

Definition nn_hash_insert (self : nn_hash) (key item : Z) : option nn_hash :=
  let i := Z.to_nat (nn_hash_key key `mod` h_slots self) in
  l ← h_array self !! i;
  found ← find_key (hash_fuel self) (h_links self) (h_keys self) l (nn_list_begin l) key;
  match found with
  | Some _ => None
  | None =>
      let keys := <[item := key]> (h_keys self) in
      '(links, array) ← to_slot (h_links self) keys (h_array self) (h_slots self) item;
      let self := Hash links keys (h_slots self) (uint32 (h_items self + 1)) array in
      if (uint32 (h_items self * 2) >? h_slots self) && (h_slots self <? 0x80000000) then nn_hash_rehash self
      else Some self
  end.

Definition nn_hash_erase (self : nn_hash) (item : Z) : option nn_hash :=
  key ← h_keys self !! item;
  let slot := Z.to_nat (nn_hash_key key `mod` h_slots self) in
  l ← h_array self !! slot;
  '(links, l, _) ← nn_list_erase (h_links self) l item;
  Some (Hash links (h_keys self) (h_slots self) (uint32 (h_items self - 1)) (<[slot := l]> (h_array self))).

Definition nn_hash_item_init (links : gmap Z nn_list_item) (self : Z) : gmap Z nn_list_item := nn_list_item_init links self.
Definition nn_hash_item_term (links : gmap Z nn_list_item) (self : Z) : option unit := nn_list_item_term links self.
