(* ===== verification/NnHashSpec.v ===== *)
(** * What a hash map promises

    The lists of the slots are a family: disjoint sequences in one store.  A map with
    such a family is a finite map from keys to items, and stays it when the array
    doubles. *)

From S2P Require Import Prelude NnList NnCodec NnHash.
From stdpp Require Import base numbers list gmap.
#[local] Open Scope Z_scope.

(** ** Families of lists *)

Definition fam (h : gmap Z nn_list_item) (ls : list nn_list) (xss : list (list Z)) : Prop :=
  Forall2 (lrep h) ls xss ∧ NoDup (concat xss).

Lemma concat_split {A} (xss : list (list A)) i xs : xss !! i = Some xs →
  concat xss = concat (take i xss) ++ xs ++ concat (drop (S i) xss).
Proof. intros Hi. rewrite <-(take_drop_middle xss i xs Hi) at 1. by rewrite concat_app. Qed.

Lemma concat_insert {A} (xss : list (list A)) i xs ys : xss !! i = Some xs →
  concat (<[i := ys]> xss) = concat (take i xss) ++ ys ++ concat (drop (S i) xss).
Proof. intros Hi. rewrite insert_take_drop by (by eapply lookup_lt_Some). by rewrite concat_app. Qed.

Lemma in_concat {A} (xss : list (list A)) i xs x : xss !! i = Some xs → x ∈ xs → x ∈ concat xss.
Proof. intros Hi Hx. rewrite (concat_split xss i xs Hi). set_solver. Qed.

Lemma concat_in {A} (xss : list (list A)) x : x ∈ concat xss → ∃ i xs, xss !! i = Some xs ∧ x ∈ xs.
Proof.
  induction xss as [|xs xss IH]; cbn; [by intros []%elem_of_nil|]. intros [Hx|Hx]%elem_of_app; [by exists 0%nat, xs|].
  destruct (IH Hx) as (i & ys & Hi & Hy). by exists (S i), ys.
Qed.

Lemma disjoint_slots {A} (xss : list (list A)) i j xs ys x :
  NoDup (concat xss) → xss !! i = Some xs → xss !! j = Some ys → x ∈ xs → x ∈ ys → i = j.
Proof.
  revert i j. induction xss as [|zs xss IH]; intros i j Hnd Hi Hj Hx Hy; [done|]. cbn in Hnd.
  apply NoDup_app in Hnd as (_ & Hd & Hnd). destruct i as [|i], j as [|j]; cbn in Hi, Hj; simplify_eq; [done|..].
  - destruct (Hd x Hx). by eapply in_concat.
  - destruct (Hd x Hy). by eapply in_concat.
  - f_equal. by apply IH.
Qed.

(** One list of a family changes, by items that are in no other one. *)
Lemma fam_update h h' ls xss i l' xs ys :
  fam h ls xss → xss !! i = Some xs → lrep h' l' ys → NoDup (concat (<[i := ys]> xss)) →
  (∀ x, x ∈ concat xss → x ∉ xs → h' !! x = h !! x) → fam h' (<[i := l']> ls) (<[i := ys]> xss).
Proof.
  intros [Hf Hnd] Hi Hr Hnd' Hfr. split; [|done]. apply Forall2_same_length_lookup. split.
  { rewrite !length_insert. by eapply Forall2_length. }
  intros j l zs Hl Hz. destruct (decide (j = i)) as [->|Hne].
  - rewrite list_lookup_insert_eq in Hl by (apply lookup_lt_Some in Hl; by rewrite length_insert in Hl).
    rewrite list_lookup_insert_eq in Hz by (by eapply lookup_lt_Some). by simplify_eq.
  - rewrite list_lookup_insert_ne in Hl by done. rewrite list_lookup_insert_ne in Hz by done.
    apply (lrep_frame h); [by apply (Forall2_lookup_lr _ _ _ _ _ _ Hf Hl Hz)|].
    intros x Hx. apply Hfr; [by eapply in_concat|]. intros Hx'. apply Hne. exact (disjoint_slots xss j i zs xs x Hnd Hz Hi Hx Hx').
Qed.

Lemma fam_erase h ls xss i l a x b :
  fam h ls xss → ls !! i = Some l → xss !! i = Some (a ++ x :: b) →
  ∃ h' l', nn_list_erase h l x = Some (h', l', head b) ∧ fam h' (<[i := l']> ls) (<[i := a ++ b]> xss) ∧
    h' !! x = Some (Item NotInList NotInList) ∧ ∀ y, y ∉ concat xss → h' !! y = h !! y.
Proof.
  intros F Hl Hi. pose proof F as [Hf Hnd]. pose proof (Forall2_lookup_lr _ _ _ _ _ _ Hf Hl Hi) as Hr.
  destruct (nn_list_erase_spec _ _ _ _ _ Hr) as (h' & l' & He & Hr' & Hx & Hfr). exists h', l'. split_and!; [done| |done|].
  - apply (fam_update h _ _ _ _ _ (a ++ x :: b)); [done..| |].
    + rewrite (concat_insert _ _ _ _ Hi). rewrite (concat_split _ _ _ Hi) in Hnd.
      assert (NoDup (x :: concat (take i xss) ++ (a ++ b) ++ concat (drop (S i) xss))) as [_ H]%NoDup_cons; [|done].
      eapply NoDup_Permutation_proper; [|exact Hnd]. rewrite <-!app_assoc. cbn. solve_Permutation.
    + intros y _ Hy. by apply Hfr.
  - intros y Hy. apply Hfr. intros Hy'. apply Hy. by eapply in_concat.
Qed.

Lemma fam_push h ls xss i l xs x it :
  fam h ls xss → ls !! i = Some l → xss !! i = Some xs → h !! x = Some it → i_prev it = NotInList → x ∉ concat xss →
  ∃ h' l', nn_list_insert h l x nn_list_end = Some (h', l') ∧ fam h' (<[i := l']> ls) (<[i := xs ++ [x]]> xss) ∧
    ∀ y, y ∉ concat xss → y ≠ x → h' !! y = h !! y.
Proof.
  intros F Hl Hi Hx Hp Hn. pose proof F as [Hf Hnd]. pose proof (Forall2_lookup_lr _ _ _ _ _ _ Hf Hl Hi) as Hr.
  rewrite <-(app_nil_r xs) in Hr.
  destruct (nn_list_insert_spec _ _ _ _ x it Hr Hx Hp) as (h' & l' & He & Hr' & Hfr).
  { rewrite app_nil_r. intros Hx'. apply Hn. by eapply in_concat. }
  exists h', l'. split_and!; [done| |].
  - apply (fam_update h _ _ _ _ _ xs); [done..| |].
    + rewrite (concat_insert _ _ _ _ Hi). rewrite (concat_split _ _ _ Hi) in Hnd, Hn.
      assert (NoDup (x :: concat (take i xss) ++ xs ++ concat (drop (S i) xss))) as H by by apply NoDup_cons.
      eapply NoDup_Permutation_proper; [|exact H]. rewrite <-!app_assoc. cbn. solve_Permutation.
    + intros y Hy Hy'. apply Hfr. intros [Hz|Hz%list_elem_of_singleton]%elem_of_app; [done|]. by subst.
  - intros y Hy Hne. apply Hfr. intros [Hz|Hz%list_elem_of_singleton]%elem_of_app; [|done]. apply Hy. by eapply in_concat.
Qed.

(** ** The slots *)

Definition slot_of (slots key : Z) : nat := Z.to_nat (nn_hash_key key `mod` slots).

(** Every item is in the slot of its key. *)
Definition placed (keys : gmap Z Z) (slots : Z) (xss : list (list Z)) : Prop :=
  ∀ i xs x, xss !! i = Some xs → x ∈ xs → ∃ k, keys !! x = Some k ∧ slot_of slots k = i.

Lemma placed_insert keys slots xss i xs ys : placed keys slots xss → xss !! i = Some xs →
  (∀ y, y ∈ ys → y ∈ xs ∨ ∃ k, keys !! y = Some k ∧ slot_of slots k = i) → placed keys slots (<[i := ys]> xss).
Proof.
  intros P Hi Hys j zs x Hj Hx. destruct (decide (j = i)) as [->|Hne].
  - rewrite list_lookup_insert_eq in Hj by (by eapply lookup_lt_Some). simplify_eq. destruct (Hys x Hx); [by eapply P|done].
  - rewrite list_lookup_insert_ne in Hj by done. by eapply P.
Qed.

Lemma slot_lt slots key : 0 < slots → (slot_of slots key < Z.to_nat slots)%nat.
Proof. intros Hs. unfold slot_of. pose proof (Z.mod_pos_bound (nn_hash_key key) slots Hs). lia. Qed.

Lemma concat_push xss i xs (x : Z) : xss !! i = Some xs → concat (<[i := xs ++ [x]]> xss) ≡ₚ x :: concat xss.
Proof.
  intros Hi. rewrite (concat_insert _ _ _ _ Hi), (concat_split _ _ _ Hi), <-!app_assoc. cbn. solve_Permutation.
Qed.

Lemma to_slot_spec h keys os array xos xss slots x key it :
  fam h (os ++ array) (xos ++ xss) → length os = length xos → length array = Z.to_nat slots → 0 < slots →
  placed keys slots xss → keys !! x = Some key → h !! x = Some it → i_prev it = NotInList → x ∉ concat (xos ++ xss) →
  ∃ h' array' xss', to_slot h keys array slots x = Some (h', array') ∧ fam h' (os ++ array') (xos ++ xss') ∧
    length array' = Z.to_nat slots ∧ placed keys slots xss' ∧ concat xss' ≡ₚ x :: concat xss ∧
    ∀ y, y ∉ concat (xos ++ xss) → y ≠ x → h' !! y = h !! y.
Proof.
  intros F Hlen Ha Hs P Hk Hx Hp Hn. unfold to_slot. rewrite Hk. cbn [mbind option_bind]. fold (slot_of slots key).
  pose proof (slot_lt slots key Hs) as Hlt. destruct (lookup_lt_is_Some_2 array (slot_of slots key)) as [l Hl]; [lia|].
  assert (length array = length xss) as Hla.
  { pose proof (Forall2_length _ _ _ (proj1 F)) as H. rewrite !length_app in H. lia. }
  destruct (lookup_lt_is_Some_2 xss (slot_of slots key)) as [xs Hxs]; [lia|].
  rewrite Hl. cbn [mbind option_bind].
  destruct (fam_push h (os ++ array) (xos ++ xss) (length os + slot_of slots key) l xs x it F) as (h' & l' & -> & F' & Hfr).
  { rewrite lookup_app_r by lia. by replace (length os + slot_of slots key - length os)%nat with (slot_of slots key) by lia. }
  { rewrite lookup_app_r by lia. by replace (length os + slot_of slots key - length xos)%nat with (slot_of slots key) by lia. }
  1-3: done.
  cbn [mbind option_bind]. exists h', (<[slot_of slots key := l']> array), (<[slot_of slots key := xs ++ [x]]> xss).
  rewrite insert_app_r in F'. rewrite Hlen, insert_app_r in F'. split_and!; [done|done|by rewrite length_insert| | |done].
  - apply (placed_insert _ _ _ _ xs); [done..|]. intros y [Hy|Hy%list_elem_of_singleton]%elem_of_app; [by left|right].
    subst. by exists key.
  - by apply concat_push.
Qed.

(** [move_items] empties one old list, [move_slots] all of them. *)
Lemma move_items_spec xs : ∀ fuel h keys o os array xos xss slots,
  fam h (o :: os ++ array) (xs :: xos ++ xss) → length os = length xos → length array = Z.to_nat slots → 0 < slots →
  placed keys slots xss → (∀ x, x ∈ xs → is_Some (keys !! x)) → (length xs < fuel)%nat →
  ∃ h' array' xss', move_items fuel h keys o array slots = Some (h', array') ∧ fam h' (os ++ array') (xos ++ xss') ∧
    length array' = Z.to_nat slots ∧ placed keys slots xss' ∧ concat xss' ≡ₚ xs ++ concat xss ∧
    ∀ y, y ∉ concat (xs :: xos ++ xss) → h' !! y = h !! y.
Proof.
  induction xs as [|x xs IH]; intros [|fuel] h keys o os array xos xss slots F Hlen Ha Hs P Hk Hf; cbn [length] in *; try lia;
    cbn [move_items]; pose proof F as [[Hr Hf2]%Forall2_cons Hnd]; pose proof Hr as (_ & Hfi & Hla & _).
  - unfold nn_list_begin, nn_list_term. cbn in Hfi, Hla. rewrite Hfi, Hla. cbn [mbind option_bind].
    exists h, array, xss. split_and!; [done|by split|done..].
  - unfold nn_list_begin. rewrite Hfi. cbn [head].
    destruct (fam_erase h _ _ 0 o [] x xs F eq_refl eq_refl) as (h1 & o1 & -> & F1 & Hx1 & Hfr1). cbn [mbind option_bind].
    cbn in F1. destruct (Hk x) as [key Hkey]; [by left|].
    assert (x ∉ concat (xs :: xos ++ xss)) as Hn by (cbn in Hnd; by apply NoDup_cons in Hnd as [Hn _]).
    destruct (to_slot_spec h1 keys (o1 :: os) array (xs :: xos) xss slots x key (Item NotInList NotInList) F1) as (h2 & ar2 & xss2 & -> & F2 & Ha2 & P2 & E2 & Hfr2);
      [cbn; lia|done..|]. cbn [mbind option_bind].
    destruct (IH fuel h2 keys o1 os ar2 xos xss2 slots F2) as (h3 & ar3 & xss3 & -> & F3 & Ha3 & P3 & E3 & Hfr3);
      [done..|intros y Hy; apply Hk; by right|lia|].
    exists h3, ar3, xss3. split_and!; [done..| |].
    + rewrite E3, E2. cbn. by rewrite Permutation_middle.
    + intros y Hy. cbn in Hy. apply not_elem_of_cons in Hy as [Hyx Hy].
      rewrite Hfr3, Hfr2, Hfr1; [done|cbn; by apply not_elem_of_cons|cbn; done|done|].
      cbn. rewrite concat_app in *. rewrite E2. set_solver.
Qed.

Lemma move_slots_spec xos : ∀ fuel h keys os array xss slots,
  fam h (os ++ array) (xos ++ xss) → length os = length xos → length array = Z.to_nat slots → 0 < slots →
  placed keys slots xss → (∀ x, x ∈ concat xos → is_Some (keys !! x)) → Forall (λ xs, length xs < fuel)%nat xos →
  ∃ h' array' xss', move_slots fuel h keys os array slots = Some (h', array') ∧ fam h' array' xss' ∧
    length array' = Z.to_nat slots ∧ placed keys slots xss' ∧ concat xss' ≡ₚ concat xos ++ concat xss ∧
    ∀ y, y ∉ concat (xos ++ xss) → h' !! y = h !! y.
Proof.
  induction xos as [|xs xos IH]; intros fuel h keys [|o os] array xss slots F Hlen Ha Hs P Hk Hf; cbn [length app concat move_slots] in *; try lia.
  { exists h, array, xss. done. }
  apply Forall_cons in Hf as [Hf Hfs].
  destruct (move_items_spec xs fuel h keys o os array xos xss slots F) as (h1 & ar1 & xss1 & -> & F1 & Ha1 & P1 & E1 & Hfr1);
    [lia|done..|intros x Hx; apply Hk; set_solver|done|]. cbn [mbind option_bind].
  destruct (IH fuel h1 keys os ar1 xss1 slots F1) as (h2 & ar2 & xss2 & -> & F2 & Ha2 & P2 & E2 & Hfr2);
    [lia|done..|intros x Hx; apply Hk; set_solver|done|].
  exists h2, ar2, xss2. split_and!; [done..| |].
  - rewrite E2, E1. solve_Permutation.
  - intros y Hy. rewrite Hfr2, Hfr1; [done|cbn; done|]. rewrite concat_app, E1. rewrite concat_app in Hy. set_solver.
Qed.

(** ** The map *)

Definition hash_rep (self : nn_hash) (m : gmap Z Z) : Prop :=
  ∃ xss, fam (h_links self) (h_array self) xss ∧ length (h_array self) = Z.to_nat (h_slots self) ∧
    0 < h_slots self ∧ placed (h_keys self) (h_slots self) xss ∧
    (∀ k x, m !! k = Some x ↔ x ∈ concat xss ∧ h_keys self !! x = Some k) ∧
    h_items self = Z.of_nat (length (concat xss)).

Lemma hash_rep_init : hash_rep (nn_hash_init ∅ ∅) ∅.
Proof.
  exists (replicate 32 []). cbn -[replicate nn_list_init]. split_and!; [split|done|done| | |done].
  - apply Forall2_replicate. apply lrep_init.
  - cbn. apply NoDup_nil_2.
  - by intros i xs x [-> _]%lookup_replicate_1 []%elem_of_nil.
  - intros k x. rewrite lookup_empty. split; [done|]. cbn. by intros [[]%elem_of_nil _].
Qed.

(** The first item of a list with a key. *)
Lemma find_key_spec h keys l key b : ∀ fuel a,
  lrep h l (a ++ b) → (∀ x, x ∈ b → is_Some (keys !! x)) → (length b < fuel)%nat →
  find_key fuel h keys l (head b) key = Some (head (filter (λ x, keys !! x = Some key) b)).
Proof.
  induction b as [|x b IH]; intros [|fuel] a Hr Hk Hf; cbn [length] in Hf; try lia; [done|]. cbn [find_key head].
  destruct (Hk x) as [k Ek]; [by left|]. rewrite Ek. cbn [mbind option_bind]. rewrite filter_cons.
  destruct (Z.eqb_spec k key) as [->|Hne]; [by rewrite decide_True|].
  rewrite decide_False by congruence. pose proof Hr as (_ & _ & _ & Hl). unfold nn_list_next. rewrite (Hl a x b eq_refl).
  cbn [mbind option_bind i_next]. apply (IH fuel (a ++ [x])); [by rewrite <-app_assoc|intros y Hy; apply Hk; by right|lia].
Qed.

(** The slot of a key, with its list. *)
Lemma slot_list self m key : hash_rep self m → ∃ xss l xs,
  fam (h_links self) (h_array self) xss ∧ h_array self !! slot_of (h_slots self) key = Some l ∧
  xss !! slot_of (h_slots self) key = Some xs ∧ lrep (h_links self) l xs ∧
  (∀ x, x ∈ xs → is_Some (h_keys self !! x)) ∧ (length xs < hash_fuel self)%nat ∧
  find_key (hash_fuel self) (h_links self) (h_keys self) l (nn_list_begin l) key = Some (m !! key).
Proof.
  intros (xss & F & Ha & Hs & P & Hm & Hi). pose proof (slot_lt (h_slots self) key Hs) as Hlt.
  destruct (lookup_lt_is_Some_2 (h_array self) (slot_of (h_slots self) key)) as [l Hl]; [lia|].
  pose proof (Forall2_length _ _ _ (proj1 F)) as Hlen.
  destruct (lookup_lt_is_Some_2 xss (slot_of (h_slots self) key)) as [xs Hx]; [lia|].
  pose proof (Forall2_lookup_lr _ _ _ _ _ _ (proj1 F) Hl Hx) as Hr.
  assert (∀ x, x ∈ xs → is_Some (h_keys self !! x)) as Hk by (intros x Hin; destruct (P _ _ _ Hx Hin) as (k & -> & _); done).
  assert (length xs < hash_fuel self)%nat as Hf.
  { unfold hash_fuel. rewrite Hi. pose proof (concat_split _ _ _ Hx) as E. apply (f_equal length) in E.
    rewrite !length_app in E. lia. }
  exists xss, l, xs. split_and!; [done..|].
  assert (nn_list_begin l = head xs) as -> by by destruct Hr as (_ & ? & _).
  rewrite (find_key_spec _ _ _ _ xs _ []); [|done..]. f_equal.
  destruct (m !! key) as [y|] eqn:Ey.
  - apply Hm in Ey as Hy. destruct Hy as [Hin Hky]. apply concat_in in Hin as (i & ys & Hi' & Hy).
    destruct (P _ _ _ Hi' Hy) as (k & Hk' & Hslot). simplify_eq.
    assert (y ∈ filter (λ x, h_keys self !! x = Some key) xs) as Hyf by by apply list_elem_of_filter.
    destruct (filter _ xs) as [|z zs] eqn:Ef; [by apply elem_of_nil in Hyf|]. cbn.
    assert (z ∈ filter (λ x, h_keys self !! x = Some key) xs) as [Hz1 Hz2]%list_elem_of_filter by (rewrite Ef; by left).
    assert (m !! key = Some z) as Hmz by (apply Hm; split; [by eapply in_concat|done]). congruence.
  - destruct (filter _ xs) as [|z zs] eqn:Ef; [done|].
    assert (z ∈ filter (λ x, h_keys self !! x = Some key) xs) as [Hz1 Hz2]%list_elem_of_filter by (rewrite Ef; by left).
    assert (m !! key = Some z) as Hmz by (apply Hm; split; [by eapply in_concat|done]). congruence.
Qed.

Lemma get_spec self m key : hash_rep self m → nn_hash_get self key = Some (m !! key).
Proof.
  intros R. destruct (slot_list self m key R) as (xss & l & xs & _ & Hl & _ & _ & _ & _ & Hf).
  unfold nn_hash_get. fold (slot_of (h_slots self) key). rewrite Hl. cbn [mbind option_bind]. done.
Qed.

(** The array is doubled, and the map is the same. *)
Lemma rehash_spec self m : hash_rep self m → h_slots self < 2 ^ 31 →
  ∃ self', nn_hash_rehash self = Some self' ∧ hash_rep self' m ∧ h_slots self' = 2 * h_slots self ∧ h_items self' = h_items self ∧
    h_keys self' = h_keys self ∧ ∀ x, (∀ k, m !! k ≠ Some x) → is_Some (h_keys self !! x) → h_links self' !! x = h_links self !! x.
Proof.
  intros (xss & F & Ha & Hs & P & Hm & Hi) Hlt. unfold nn_hash_rehash.
  assert (uint32 (h_slots self * 2) = 2 * h_slots self) as -> by (unfold uint32; rewrite Z.mod_small; lia).
  set (n := Z.to_nat (2 * h_slots self)).
  assert (concat (replicate n []) = @nil Z) as Hcon by (induction n as [|n IH]; [done|apply IH]).
  destruct (move_slots_spec xss (hash_fuel self) (h_links self) (h_keys self) (h_array self) (replicate n nn_list_init)
    (replicate n []) (2 * h_slots self)) as (h' & ar' & xss' & -> & F' & Ha' & P' & E & Hfr).
  - destruct F as [Hf Hnd]. split; [apply Forall2_app; [done|apply Forall2_replicate, lrep_init]|].
    by rewrite concat_app, Hcon, app_nil_r.
  - by eapply Forall2_length, F.
  - by rewrite length_replicate.
  - lia.
  - by intros i xs x [-> _]%lookup_replicate_1 []%elem_of_nil.
  - intros x (i & xs & Hx & Hin)%concat_in. destruct (P _ _ _ Hx Hin) as (k & -> & _). done.
  - apply Forall_lookup. intros i xs Hx. unfold hash_fuel. rewrite Hi. pose proof (concat_split _ _ _ Hx) as E.
    apply (f_equal length) in E. rewrite !length_app in E. lia.
  - cbn [mbind option_bind]. rewrite Hcon, app_nil_r in E. eexists. split; [done|]. cbn [h_slots h_items h_keys h_links]. split_and!; try done.
    + exists xss'. cbn. split_and!; [done|done|lia|done| |by rewrite E].
      intros k x. rewrite Hm, E. done.
    + intros x Hx [k Hk]. apply Hfr. rewrite concat_app, Hcon, app_nil_r. intros Hin. apply (Hx k), Hm. done.
Qed.

Lemma not_in_map self (m : gmap Z Z) xss x : placed (h_keys self) (h_slots self) xss →
  (∀ k x, m !! k = Some x ↔ x ∈ concat xss ∧ h_keys self !! x = Some k) → (∀ k, m !! k ≠ Some x) → x ∉ concat xss.
Proof.
  intros P Hm Hx Hin. apply concat_in in Hin as Hin'. destruct Hin' as (i & xs & Hi & Hxs).
  destruct (P _ _ _ Hi Hxs) as (k & Hk & _). apply (Hx k), Hm. done.
Qed.

Lemma insert_present self m key item y : hash_rep self m → m !! key = Some y → nn_hash_insert self key item = None.
Proof.
  intros R Hy. destruct (slot_list self m key R) as (xss & l & xs & _ & Hl & _ & _ & _ & _ & Hf).
  unfold nn_hash_insert. fold (slot_of (h_slots self) key). rewrite Hl. cbn [mbind option_bind]. rewrite Hf, Hy. done.
Qed.

Lemma insert_spec self m key item it :
  hash_rep self m → m !! key = None → (∀ k, m !! k ≠ Some item) → h_links self !! item = Some it → i_prev it = NotInList →
  h_items self + 1 < 2 ^ 32 →
  ∃ self', nn_hash_insert self key item = Some self' ∧ hash_rep self' (<[key := item]> m) ∧ h_items self' = h_items self + 1.
Proof.
  intros R Hnone Hx Hlink Hp Hlt. destruct (slot_list self m key R) as (_ & l & _ & _ & Hl & _ & _ & _ & _ & Hf).
  unfold nn_hash_insert. fold (slot_of (h_slots self) key). rewrite Hl. cbn [mbind option_bind]. rewrite Hf, Hnone. cbn [mbind option_bind].
  destruct R as (xss & F & Ha & Hs & P & Hm & Hi).
  pose proof (not_in_map self m xss item P Hm Hx) as Hn.
  assert (∀ y, y ∈ concat xss → <[item := key]> (h_keys self) !! y = h_keys self !! y) as Hkeep
    by (intros y Hy; apply lookup_insert_ne; by intros ->).
  destruct (to_slot_spec (h_links self) (<[item := key]> (h_keys self)) [] (h_array self) [] xss (h_slots self) item key it F)
    as (h' & ar' & xss' & -> & F' & Ha' & P' & E & _); [done|done|done| |by rewrite lookup_insert_eq|done|done|done|].
  { intros i xs x Hi' Hx'. rewrite Hkeep by (by eapply in_concat). by eapply P. }
  cbn [mbind option_bind]. assert (uint32 (h_items self + 1) = h_items self + 1) as -> by (unfold uint32; rewrite Z.mod_small; lia).
  set (self1 := Hash h' (<[item := key]> (h_keys self)) (h_slots self) (h_items self + 1) ar').
  assert (hash_rep self1 (<[key := item]> m)) as R1.
  { exists xss'. cbn. split_and!; [done..| |rewrite E; cbn [length]; lia].
    intros k x. rewrite E. destruct (decide (x = item)) as [->|Hne].
    - rewrite lookup_insert_eq. split.
      + intros Hk. split; [by left|]. destruct (decide (k = key)) as [->|]; [done|].
        rewrite lookup_insert_ne in Hk by done. by destruct (Hx k).
      + intros [_ [= <-]]. by rewrite lookup_insert_eq.
    - rewrite (lookup_insert_ne (h_keys self)) by done. destruct (decide (k = key)) as [->|Hk].
      + rewrite lookup_insert_eq. split; [by intros [= ->]|]. intros [[Hin|Hin]%elem_of_cons Hkx]; [done|].
        assert (m !! key = Some x) by by apply Hm. congruence.
      + rewrite lookup_insert_ne, Hm by done. set_solver. }
  cbn [h_items h_slots self1]. destruct (_ && _) eqn:Eb; [|by exists self1].
  apply andb_true_iff in Eb as [_ Eb]. apply Z.ltb_lt in Eb.
  destruct (rehash_spec self1 _ R1) as (self2 & -> & R2 & _ & Hi2 & _); [cbn; lia|]. exists self2. done.
Qed.

Lemma erase_spec self m key item : hash_rep self m → m !! key = Some item → h_items self < 2 ^ 32 →
  ∃ self', nn_hash_erase self item = Some self' ∧ hash_rep self' (delete key m) ∧ h_items self' = h_items self - 1 ∧
    nn_hash_item_term (h_links self') item = Some tt.
Proof.
  intros (xss & F & Ha & Hs & P & Hm & Hi) Hk Hlt. apply Hm in Hk as Hk'. destruct Hk' as [Hin Hkey].
  apply concat_in in Hin as (i & xs & Hxs & Hx). destruct (P _ _ _ Hxs Hx) as (k & Hk2 & Hslot).
  rewrite Hkey in Hk2. injection Hk2 as <-. subst i.
  unfold nn_hash_erase. rewrite Hkey. cbn [mbind option_bind]. fold (slot_of (h_slots self) key).
  pose proof (slot_lt (h_slots self) key Hs). destruct (lookup_lt_is_Some_2 (h_array self) (slot_of (h_slots self) key)) as [l Hl]; [lia|].
  rewrite Hl. cbn [mbind option_bind]. apply list_elem_of_split in Hx as (a & b & ->).
  destruct (fam_erase _ _ _ _ _ _ _ _ F Hl Hxs) as (h' & l' & -> & F' & Hdat & _). cbn [mbind option_bind].
  assert (item :: concat (<[slot_of (h_slots self) key := a ++ b]> xss) ≡ₚ concat xss) as E.
  { rewrite (concat_insert _ _ _ _ Hxs), (concat_split _ _ _ Hxs), <-!app_assoc. cbn. solve_Permutation. }
  pose proof F as [_ Hnd]. rewrite <-E in Hnd. apply NoDup_cons in Hnd as [Hn _].
  assert (uint32 (h_items self - 1) = h_items self - 1) as ->.
  { pose proof (Permutation_length E) as El. cbn [length] in El. unfold uint32. rewrite Z.mod_small; lia. }
  eexists. split; [done|]. split_and!; [|done|cbn; unfold nn_hash_item_term, nn_list_item_term, nn_list_item_isinlist; by rewrite Hdat].
  exists (<[slot_of (h_slots self) key := a ++ b]> xss). cbn. split_and!; [done|by rewrite length_insert|done| | |].
  - apply (placed_insert _ _ _ _ (a ++ item :: b)); [done..|]. set_solver.
  - intros k' x. rewrite lookup_delete_Some, Hm, <-E, elem_of_cons. split.
    + intros (Hne & [->|Hx] & Hkx); [congruence|done].
    + intros [Hx Hkx]. split_and!; [intros <-|by right|done].
      assert (m !! key = Some x) as Hmx by (apply Hm; split; [rewrite <-E; by right|done]).
      assert (x = item) by congruence. by subst.
  - pose proof (Permutation_length E) as El. cbn [length] in El. lia.
Qed.

(** ** Sequences of operations *)

(** A new item is put under a key, as the sockets do it; an item is taken out. *)
Inductive hash_op := Put (key item : Z) | Del (item : Z).

Definition hash_step (self : nn_hash) (o : hash_op) : option nn_hash :=
  match o with
  | Put key item =>
      nn_hash_insert (Hash (nn_hash_item_init (h_links self) item) (h_keys self) (h_slots self) (h_items self) (h_array self)) key item
  | Del item => self ← nn_hash_erase self item; _ ← nn_hash_item_term (h_links self) item; Some self
  end.

Definition map_step (m : gmap Z Z) (o : hash_op) : gmap Z Z :=
  match o with Put key item => <[key := item]> m | Del item => filter (λ kx, kx.2 ≠ item) m end.

(** The item that is put is not in the map, the one that is taken out is. *)
Definition hash_ok (m : gmap Z Z) (o : hash_op) : Prop :=
  match o with
  | Put key item => m !! key = None ∧ map_Forall (λ _ x, x ≠ item) m
  | Del item => ¬ map_Forall (λ _ x, x ≠ item) m
  end.

Fixpoint hashes_ok (m : gmap Z Z) (ops : list hash_op) : Prop :=
  match ops with [] => True | o :: ops => hash_ok m o ∧ hashes_ok (map_step m o) ops end.

Lemma init_item self m item : hash_rep self m → (∀ k, m !! k ≠ Some item) →
  hash_rep (Hash (nn_hash_item_init (h_links self) item) (h_keys self) (h_slots self) (h_items self) (h_array self)) m.
Proof.
  intros (xss & [Hf Hnd] & Ha & Hs & P & Hm & Hi) Hx. exists xss. cbn. split_and!; [split; [|done]|done..].
  pose proof (not_in_map self m xss item P Hm Hx) as Hn.
  apply Forall2_same_length_lookup. split; [by eapply Forall2_length|]. intros i l xs Hl Hxs.
  apply (lrep_frame (h_links self)); [by apply (Forall2_lookup_lr _ _ _ _ _ _ Hf Hl Hxs)|].
  intros x Hin. unfold nn_hash_item_init, nn_list_item_init. apply lookup_insert_ne. intros ->. apply Hn. by eapply in_concat.
Qed.

Lemma hash_step_spec self m o : hash_rep self m → hash_ok m o → h_items self + 1 < 2 ^ 32 →
  ∃ self', hash_step self o = Some self' ∧ hash_rep self' (map_step m o) ∧ h_items self' ≤ h_items self + 1.
Proof.
  intros R Hok Hlt. destruct o as [key item|item]; cbn [hash_step map_step hash_ok] in *.
  - destruct Hok as [Hn Hx]. assert (∀ k, m !! k ≠ Some item) as Hx' by (intros k Hk; by apply (Hx k item Hk)).
    destruct (insert_spec _ m key item (Item NotInList NotInList) (init_item self m item R Hx') Hn Hx') as (self' & -> & R' & Hi);
      [cbn; unfold nn_hash_item_init, nn_list_item_init; by rewrite lookup_insert_eq|done|done|].
    exists self'. cbn in Hi. split_and!; [done..|lia].
  - apply map_not_Forall in Hok as (k & x & Hk & Hx); [|apply _]. apply dec_stable in Hx. subst x.
    destruct (erase_spec self m k item R Hk) as (self' & -> & R' & Hi & Ht); [lia|]. cbn [mbind option_bind]. rewrite Ht.
    exists self'. split_and!; [done| |lia].
    assert (filter (λ kx, kx.2 ≠ item) m = delete k m) as ->; [|done].
    apply map_eq. intros j. destruct (decide (j = k)) as [->|Hne].
    + rewrite lookup_delete_eq. apply map_lookup_filter_None. right. intros x Hx. simplify_eq. by intros [].
    + rewrite lookup_delete_ne by done. destruct (m !! j) as [y|] eqn:Ej.
      * apply map_lookup_filter_Some. split; [done|]. cbn. intros ->.
        destruct R as (xss & _ & _ & _ & _ & Hm & _). apply Hm in Ej as [_ E1], Hk as [_ E2]. congruence.
      * apply map_lookup_filter_None. by left.
Qed.

(** C22. A hash map is a finite map: starting empty, whatever items are put under keys and
    taken out, across any number of doublings of the array no bad pointer is followed,
    every key gives the item that was put under it last and was not taken out, or none,
    and to put something under a key that is there fails the assertion. *)
Theorem hash_refines_map ops (Hok : hashes_ok ∅ ops) (Hlen : Z.of_nat (length ops) < 2 ^ 32) :
  let m := foldl map_step ∅ ops in
  ∃ self, foldl (λ s o, s ≫= λ s, hash_step s o) (Some (nn_hash_init ∅ ∅)) ops = Some self ∧
    (∀ key, nn_hash_get self key = Some (m !! key)) ∧
    (∀ key item, is_Some (m !! key) → nn_hash_insert self key item = None).
Proof.
  intros m. assert (∀ ops self m, hash_rep self m → hashes_ok m ops → h_items self + Z.of_nat (length ops) < 2 ^ 32 →
    ∃ self', foldl (λ s o, s ≫= λ s, hash_step s o) (Some self) ops = Some self' ∧ hash_rep self' (foldl map_step m ops)) as Hrun.
  { clear. induction ops as [|o ops IH]; intros self m R Hok Hlen; [by exists self|]. destruct Hok as [Ho Hok].
    cbn [length] in Hlen. destruct (hash_step_spec self m o R Ho) as (s1 & E & R1 & Hi); [lia|].
    cbn. rewrite E. apply IH; [done|done|lia]. }
  destruct (Hrun ops (nn_hash_init ∅ ∅) ∅ hash_rep_init Hok) as (self & E & R); [done|].
  exists self. split_and!; [done|intros key; by apply get_spec|]. intros key item [y Hy]. by eapply insert_present.
Qed.

(** Forty items: the array is doubled twice. *)
#[export] Instance hash_ok_dec m o : Decision (hash_ok m o).
Proof. destruct o; apply _. Defined.

#[export] Instance hashes_ok_dec m ops : Decision (hashes_ok m ops).
Proof.
  revert m. induction ops as [|o ops IH]; intros m; [by left|].
  destruct (decide (hash_ok m o)) as [Ho|Ho]; [|right; by intros []].
  destruct (IH (map_step m o)) as [Hr|Hr]; [by left|right; by intros []].
Defined.

Definition demo_hash : list hash_op :=
  map (λ n, Put (Z.of_nat n * 7) (Z.of_nat n + 1000)) (seq 0 40) ++ [Del 1003; Put 21 2000; Del 1039].

Lemma hash_refines_map_witness :
  let m := foldl map_step ∅ demo_hash in
  (∃ self, foldl (λ s o, s ≫= λ s, hash_step s o) (Some (nn_hash_init ∅ ∅)) demo_hash = Some self ∧
    (∀ key, nn_hash_get self key = Some (m !! key)) ∧
    (∀ key item, is_Some (m !! key) → nn_hash_insert self key item = None)) ∧
  (h_slots <$> foldl (λ s o, s ≫= λ s, hash_step s o) (Some (nn_hash_init ∅ ∅)) demo_hash) = Some 128 ∧ m !! 21 = Some 2000.
Proof.
  cbv zeta. split; [|split; vm_compute; reflexivity].
  apply (hash_refines_map demo_hash); [apply (bool_decide_unpack _); vm_compute; exact I|vm_compute; reflexivity].
Defined.
