(* ===== verification/NnRouting.v ===== *)
(** * Requests and replies in nanomsg

    [nanomsg-1.0.0/src/protocols/reqrep/xreq.c] and [xrep.c], over the priority lists,
    the hash maps and the pipes.  A request carries the keys of the pipes it came
    through, and a reply goes back by them. *)

From S2P Require Import Prelude NnList NnPrio NnPrioSpec NnMsgQueue NnInproc NnBalance NnCodec NnHash NnHashSpec NnCodecSpec.
From stdpp Require Import base numbers list gmap.
#[local] Open Scope Z_scope.

Definition NN_PIPE_PARSED : Z := 2.
Definition NN_XREP_OUT : Z := 1.
Definition NN_SOCKBASE_EVENT_IN : Z := 1.
Definition NN_SOCKBASE_EVENT_OUT : Z := 2.

(** ** The header *)

(** The loop of [nn_xrep_recv] that looks for the bottom of the stack: the number of
    words to it, or [None] when the body ends before it. *)
Fixpoint stack_size (fuel : nat) (body : list Z) (i : nat) : option nat :=
  match fuel with
  | O => None
  | S fuel =>
      if (length body <? (i + 1) * 4)%nat then None else
      w ← nn_getl (drop (4 * i) body);
      if Z.land w 0x80000000 =? 0 then stack_size fuel body (S i) else Some (S i)
  end.

(** The header and the body of a request, or [None] when it is dropped. *)
Definition xrep_split (maxttl : Z) (body : list Z) : option (list Z * list Z) :=
  i ← stack_size (S (length body)) body 0;
  if Z.of_nat i >? maxttl then None else Some (take (4 * i) body, drop (4 * i) body).

(** The same for a reply: [nn_xreq_recv]. *)
Definition xreq_split (body : list Z) : option (list Z * list Z) :=
  if (length body <? 4)%nat then None else Some (take 4 body, drop 4 body).

(** What is at [msg] after a receive: a message that is terminated must not be used. *)
Inductive written := Untouched | Terminated | Stored (msg : nn_msg).

Section routing.
  Context {W : Type} `{Pipes W}.

(** ** [xreq.c] *)
Record nn_xreq := XReq { xq_lb : nn_priolist; xq_fq : nn_priolist; xq_data : gmap Z Z }.

Definition nn_xreq_init : nn_xreq := XReq nn_lb_init nn_fq_init ∅.

(** [data] is the address of the new data of the pipe. *)
Definition nn_xreq_add (self : nn_xreq) (pipe data sndprio rcvprio : Z) : option nn_xreq :=
  _ ← nn_assert ((sndprio >=? 1) && (sndprio <=? 16));
  _ ← nn_assert ((rcvprio >=? 1) && (rcvprio <=? 16));
  Some (XReq (nn_lb_add (xq_lb self) data pipe sndprio) (nn_fq_add (xq_fq self) data pipe rcvprio)
    (<[pipe := data]> (xq_data self))).

Definition nn_xreq_rm (self : nn_xreq) (pipe : Z) : option nn_xreq :=
  data ← xq_data self !! pipe;
  lb ← nn_lb_rm (xq_lb self) data;
  fq ← nn_fq_rm (xq_fq self) data;
  Some (XReq lb fq (delete pipe (xq_data self))).

Definition nn_xreq_in (self : nn_xreq) (pipe : Z) : option nn_xreq :=
  data ← xq_data self !! pipe;
  fq ← nn_fq_in (xq_fq self) data; Some (XReq (xq_lb self) fq (xq_data self)).

Definition nn_xreq_out (self : nn_xreq) (pipe : Z) : option nn_xreq :=
  data ← xq_data self !! pipe;
  lb ← nn_lb_out (xq_lb self) data; Some (XReq lb (xq_fq self) (xq_data self)).

Definition nn_xreq_events (self : nn_xreq) : Z :=
  Z.lor (if nn_fq_can_recv (xq_fq self) =? 0 then 0 else NN_SOCKBASE_EVENT_IN)
    (if nn_lb_can_send (xq_lb self) =? 0 then 0 else NN_SOCKBASE_EVENT_OUT).

Definition nn_xreq_send_to (self : nn_xreq) (msg : nn_msg) (w : W) : option (nn_xreq * W * Z * option Z) :=
  '(lb, w, rc, to) ← nn_lb_send (xq_lb self) msg w;
  let self := XReq lb (xq_fq self) (xq_data self) in
  if rc =? - EAGAIN then Some (self, w, - EAGAIN, to) else
  if rc >=? 0 then Some (self, w, 0, to) else None.

Definition nn_xreq_recv (self : nn_xreq) (w : W) : option (nn_xreq * W * Z * written) :=
  '(fq, w, rc, msg, _) ← nn_fq_recv (xq_fq self) w;
  let self := XReq (xq_lb self) fq (xq_data self) in
  if rc =? - EAGAIN then Some (self, w, - EAGAIN, Untouched) else
  if rc >=? 0 then
    msg ← msg;
    if Z.land rc NN_PIPE_PARSED =? 0 then
      match xreq_split (body msg) with
      | None => Some (self, w, - EAGAIN, Terminated)
      | Some (hdr, rest) =>
          _ ← nn_assert (length (sphdr msg) =? 0)%nat;
          Some (self, w, 0, Stored (Msg hdr (hdrs msg) rest))
      end
    else Some (self, w, 0, Stored msg)
  else None.

(** ** [xrep.c] *)

(** The data of a pipe: [xr_pipe] and [xr_flags]; its item in [outpipes] has the same
    address. *)
Record nn_xrep := XRep {
  xr_next_key : Z;
  xr_outpipes : nn_hash;
  xr_inpipes : nn_priolist;
  xr_pipe : gmap Z Z; xr_flags : gmap Z Z;
  xr_data : gmap Z Z
}.

(** [next_key] starts with a random number. *)
Definition nn_xrep_init (next_key : Z) : nn_xrep := XRep next_key (nn_hash_init ∅ ∅) nn_fq_init ∅ ∅ ∅.

Definition nn_xrep_add (self : nn_xrep) (pipe data rcvprio : Z) : option nn_xrep :=
  _ ← nn_assert ((rcvprio >=? 1) && (rcvprio <=? 16));
  let h := xr_outpipes self in
  let h := Hash (nn_hash_item_init (h_links h) data) (h_keys h) (h_slots h) (h_items h) (h_array h) in
  h ← nn_hash_insert h (Z.land (xr_next_key self) 0x7fffffff) data;
  Some (XRep (uint32 (xr_next_key self + 1)) h (nn_fq_add (xr_inpipes self) data pipe rcvprio)
    (<[data := pipe]> (xr_pipe self)) (<[data := 0]> (xr_flags self)) (<[pipe := data]> (xr_data self))).

Definition nn_xrep_rm (self : nn_xrep) (pipe : Z) : option nn_xrep :=
  data ← xr_data self !! pipe;
  fq ← nn_fq_rm (xr_inpipes self) data;
  h ← nn_hash_erase (xr_outpipes self) data;
  _ ← nn_hash_item_term (h_links h) data;
  Some (XRep (xr_next_key self) h fq (xr_pipe self) (xr_flags self) (delete pipe (xr_data self))).

Definition nn_xrep_in (self : nn_xrep) (pipe : Z) : option nn_xrep :=
  data ← xr_data self !! pipe;
  fq ← nn_fq_in (xr_inpipes self) data;
  Some (XRep (xr_next_key self) (xr_outpipes self) fq (xr_pipe self) (xr_flags self) (xr_data self)).

Definition set_xflags (self : nn_xrep) (data flags : Z) : nn_xrep :=
  XRep (xr_next_key self) (xr_outpipes self) (xr_inpipes self) (xr_pipe self) (<[data := flags]> (xr_flags self)) (xr_data self).

Definition nn_xrep_out (self : nn_xrep) (pipe : Z) : option nn_xrep :=
  data ← xr_data self !! pipe;
  flags ← xr_flags self !! data;
  Some (set_xflags self data (Z.lor flags NN_XREP_OUT)).

Definition nn_xrep_events (self : nn_xrep) : Z :=
  Z.lor (if nn_fq_can_recv (xr_inpipes self) =? 0 then 0 else NN_SOCKBASE_EVENT_IN) NN_SOCKBASE_EVENT_OUT.

(** The code is 0 also when the message is dropped. *)
Definition nn_xrep_send (self : nn_xrep) (msg : nn_msg) (w : W) : option (nn_xrep * W * Z) :=
  if (length (sphdr msg) <? 4)%nat then Some (self, w, 0) else
  key ← nn_getl (sphdr msg);
  let msg := Msg (drop 4 (sphdr msg)) (hdrs msg) (body msg) in
  found ← nn_hash_get (xr_outpipes self) key;
  match found with
  | None => Some (self, w, 0)
  | Some data =>
      flags ← xr_flags self !! data;
      if Z.land flags NN_XREP_OUT =? 0 then Some (self, w, 0) else
      pipe ← xr_pipe self !! data;
      '(w, rc) ← pipe_send pipe msg w;
      if rc >=? 0 then
        let self := if Z.land rc NN_PIPE_RELEASE =? 0 then self else set_xflags self data (Z.ldiff flags NN_XREP_OUT) in
        Some (self, w, 0)
      else None
  end.

Definition nn_xrep_recv (self : nn_xrep) (maxttl : Z) (w : W) : option (nn_xrep * W * Z * option nn_msg) :=
  '(fq, w, rc, msg, pipe) ← nn_fq_recv (xr_inpipes self) w;
  let self := XRep (xr_next_key self) (xr_outpipes self) fq (xr_pipe self) (xr_flags self) (xr_data self) in
  if rc <? 0 then Some (self, w, rc, None) else
  msg ← msg;
  pipe ← pipe;
  split ← (if Z.land rc NN_PIPE_PARSED =? 0 then
             match xrep_split maxttl (body msg) with
             | None => Some None
             | Some (hdr, rest) => _ ← nn_assert (length (sphdr msg) =? 0)%nat; Some (Some (Msg hdr (hdrs msg) rest))
             end
           else Some (Some msg));
  match split with
  | None => Some (self, w, - EAGAIN, None)
  | Some msg =>
      data ← xr_data self !! pipe;
      key ← h_keys (xr_outpipes self) !! data;
      Some (self, w, 0, Some (Msg (nn_putl key ++ sphdr msg) (hdrs msg) (body msg)))
  end.

End routing.
