(* ===== verification/NnRoutingSpec.v ===== *)
(** * A reply finds its way back

    The header of a request is the stack of the keys of the pipes it came from, down to
    the word of the requester, which has its highest bit set.  A raw REP socket keeps the
    key of a pipe as long as the pipe is there ([xrep_step]), so that the reply goes back
    through the sockets and the pipes that the request came through. *)

From S2P Require Import Prelude NnList NnPrio NnMsgQueue NnInproc NnInprocSpec NnBalance NnBalanceSpec NnCodec NnHash NnHashSpec NnCodecSpec NnRouting.
From stdpp Require Import base numbers list gmap.
#[local] Open Scope Z_scope.

(** The key of a pipe, and the word of a requester. *)
Definition is_key (k : Z) : Prop := 0 ≤ k < 2 ^ 31.
Definition is_id (k : Z) : Prop := 2 ^ 31 ≤ k < 2 ^ 32.

Definition words (ks : list Z) : list Z := concat (map nn_putl ks).

Lemma length_words ks : length (words ks) = (4 * length ks)%nat.
Proof. induction ks as [|k ks IH]; [done|]. cbn -[Nat.mul] in *. unfold words in IH. rewrite IH. lia. Qed.

Lemma words_cons k ks : words (k :: ks) = nn_putl k ++ words ks.
Proof. done. Qed.

Lemma words_app a b : words (a ++ b) = words a ++ words b.
Proof. unfold words. by rewrite map_app, concat_app. Qed.

Lemma drop_words ks i : drop (4 * i) (words ks) = words (drop i ks).
Proof.
  revert ks. induction i as [|i IH]; intros [|k ks]; [done|done|by rewrite drop_nil|].
  replace (4 * S i)%nat with (4 + 4 * i)%nat by lia. rewrite <-drop_drop. cbn [drop]. by rewrite <-IH.
Qed.

Lemma bit31_key k : is_key k → Z.land k 0x80000000 = 0.
Proof.
  intros Hk. apply Z.bits_inj'. intros i Hi. rewrite Z.land_spec, Z.bits_0.
  change 0x80000000 with (2 ^ 31). rewrite Z.pow2_bits_eqb by lia.
  destruct (Z.eqb_spec 31 i) as [<-|]; [|by rewrite andb_false_r].
  rewrite Z.testbit_eqb by lia. unfold is_key in Hk. rewrite Z.div_small by lia. done.
Qed.

Lemma bit31_id k : is_id k → Z.land k 0x80000000 ≠ 0.
Proof.
  intros Hk He. assert (Z.testbit (Z.land k 0x80000000) 31 = false) as Ht by (rewrite He; apply Z.bits_0).
  rewrite Z.land_spec in Ht. change 0x80000000 with (2 ^ 31) in Ht. rewrite Z.pow2_bits_true, andb_true_r in Ht by lia.
  rewrite Z.testbit_eqb in Ht by lia. unfold is_id in Hk.
  assert (k / 2 ^ 31 = 1) as E by (symmetry; apply (Z.div_unique k (2 ^ 31) 1 (k - 2 ^ 31)); lia). by rewrite E in Ht.
Qed.

Lemma stack_size_words ks id payload i : ∀ fuel, Forall is_key ks → is_id id → (i ≤ length ks)%nat → (length ks - i < fuel)%nat →
  stack_size fuel (words ks ++ nn_putl id ++ payload) i = Some (S (length ks)).
Proof.
  intros fuel Hks Hid. revert i. induction fuel as [|fuel IH]; intros i Hi Hf; [lia|]. cbn [stack_size].
  rewrite (proj2 (Nat.ltb_ge _ _)) by (rewrite !length_app, length_words; cbn [length nn_putl]; lia).
  rewrite drop_app_le by (rewrite length_words; lia). rewrite drop_words.
  destruct (drop i ks) as [|k l] eqn:Ed.
  - assert (i = length ks) as ->.
    { apply (f_equal length) in Ed. rewrite length_drop in Ed. cbn in Ed. lia. }
    cbn [words map concat app]. rewrite nn_getl_putl by (unfold is_id in Hid; lia). cbn [mbind option_bind].
    rewrite (proj2 (Z.eqb_neq _ _)) by by apply bit31_id. done.
  - assert (ks !! i = Some k) as Hk by by rewrite <-(Nat.add_0_r i), <-lookup_drop, Ed.
    rewrite Forall_lookup in Hks. pose proof (Hks i k Hk) as Hkk. unfold is_key in Hkk. rewrite words_cons, <-app_assoc.
    rewrite nn_getl_putl by lia. cbn [mbind option_bind]. rewrite bit31_key by done. cbn [Z.eqb].
    apply lookup_lt_Some in Hk. apply IH; lia.
Qed.

(** A request with [ks] on its stack is split, unless it has passed too many hops. *)
Lemma xrep_split_words maxttl ks id payload : Forall is_key ks → is_id id →
  xrep_split maxttl (words ks ++ nn_putl id ++ payload) =
    if Z.of_nat (S (length ks)) >? maxttl then None else Some (words ks ++ nn_putl id, payload).
Proof.
  intros Hks Hid. unfold xrep_split. rewrite (stack_size_words ks id payload 0) by (try done; rewrite ?length_app, ?length_words; lia).
  cbn [mbind option_bind]. destruct (_ >? _); [done|]. rewrite !app_assoc.
  assert (length (words ks ++ nn_putl id) = 4 * S (length ks))%nat as <-.
  { rewrite length_app, length_words. cbn [length nn_putl]. lia. }
  by rewrite take_app_length, drop_app_length.
Qed.

(** ** The keys of a raw REP socket *)
Section sockets.
  Context {W : Type} `{Pipes W}.

(** [m]: the data by their keys.  The data in use are those of the pipes. *)
Record xrep_ok (R : nn_xrep) (m : gmap Z Z) : Prop := {
  xo_hash : hash_rep (xr_outpipes R) m;
  xo_items : h_items (xr_outpipes R) < 2 ^ 32;
  xo_pipe : ∀ p d, xr_data R !! p = Some d → xr_pipe R !! d = Some p ∧ is_Some (xr_flags R !! d) ∧ ∃ k, is_key k ∧ m !! k = Some d;
  xo_data : ∀ k d, m !! k = Some d → ∃ p, xr_data R !! p = Some d
}.

(** The pipe [p] has the key [k]. *)
Definition pipe_key (R : nn_xrep) (p k : Z) : Prop := ∃ d, xr_data R !! p = Some d ∧ h_keys (xr_outpipes R) !! d = Some k.

(** What happens to a raw REP socket, and the pipe that goes with it, if one does.  A pipe
    that comes is a new one, with a data that is not in use. *)
Inductive xrep_step : nn_xrep → option Z → nn_xrep → Prop :=
| xrep_add R pipe data rcvprio R' : xr_data R !! pipe = None → (∀ q, xr_data R !! q ≠ Some data) →
    h_items (xr_outpipes R) + 1 < 2 ^ 32 → nn_xrep_add R pipe data rcvprio = Some R' → xrep_step R None R'
| xrep_rm R pipe R' : nn_xrep_rm R pipe = Some R' → xrep_step R (Some pipe) R'
| xrep_in R pipe R' : nn_xrep_in R pipe = Some R' → xrep_step R None R'
| xrep_out R pipe R' : nn_xrep_out R pipe = Some R' → xrep_step R None R'
| xrep_sends R msg (w : W) R' w' rc : nn_xrep_send R msg w = Some (R', w', rc) → xrep_step R None R'
| xrep_recvs R maxttl (w : W) R' w' rc msg : nn_xrep_recv R maxttl w = Some (R', w', rc, msg) → xrep_step R None R'.

(** Any steps in which the pipe [p] does not go. *)
Inductive xrep_keeps (p : Z) : nn_xrep → nn_xrep → Prop :=
| keeps_refl R : xrep_keeps p R R
| keeps_step R S o S' : xrep_keeps p R S → xrep_step S o S' → o ≠ Some p → xrep_keeps p R S'.

(** The socket was made by some steps. *)
Inductive xrep_reach : nn_xrep → Prop :=
| reach_init k : xrep_reach (nn_xrep_init k)
| reach_step R o R' : xrep_reach R → xrep_step R o R' → xrep_reach R'.

Lemma rep_key self m k d : hash_rep self m → m !! k = Some d → h_keys self !! d = Some k.
Proof. intros (xss & _ & _ & _ & _ & Hm & _) Hk. by apply Hm in Hk as [_ ?]. Qed.

Lemma key_31 n : is_key (Z.land n 0x7fffffff).
Proof. unfold is_key. change 0x7fffffff with (Z.ones 31). rewrite Z.land_ones by lia. apply (Z.mod_pos_bound n (2 ^ 31)). lia. Qed.

(** Only the flags, or the list of the pipes to receive from, change. *)
Lemma xrep_same R R' m : xrep_ok R m → xr_outpipes R' = xr_outpipes R → xr_pipe R' = xr_pipe R → xr_data R' = xr_data R →
  (∀ d, is_Some (xr_flags R !! d) → is_Some (xr_flags R' !! d)) →
  xrep_ok R' m ∧ ∀ p k, pipe_key R p k → pipe_key R' p k.
Proof.
  intros [Hh Hi Hp Hd] Eo Ep Ed Hf. split; [split|]; rewrite ?Eo, ?Ep, ?Ed; try done.
  - intros p d Hpd. destruct (Hp p d Hpd) as (? & ? & ?). auto.
  - intros p k (d & Hpd & Hk). exists d. by rewrite Ed, Eo.
Qed.

Lemma set_flags_some R d f e : is_Some (xr_flags R !! e) → is_Some (xr_flags (set_xflags R d f) !! e).
Proof. intros Hs. cbn. destruct (decide (e = d)) as [->|]; [by rewrite lookup_insert_eq|by rewrite lookup_insert_ne]. Qed.

Lemma xrep_add_ok R m pipe data rcvprio R' : xrep_ok R m → xr_data R !! pipe = None → (∀ q, xr_data R !! q ≠ Some data) →
  h_items (xr_outpipes R) + 1 < 2 ^ 32 → nn_xrep_add R pipe data rcvprio = Some R' →
  (∃ m', xrep_ok R' m') ∧ ∀ p k, pipe_key R p k → pipe_key R' p k.
Proof.
  intros [Hh Hi Hp Hd] Hpipe Hdata Hlt E. unfold nn_xrep_add in E. destruct (nn_assert _); [|done]. cbn [mbind option_bind] in E.
  set (key := Z.land (xr_next_key R) 0x7fffffff) in *.
  set (h0 := Hash (nn_hash_item_init (h_links (xr_outpipes R)) data) (h_keys (xr_outpipes R)) (h_slots (xr_outpipes R))
    (h_items (xr_outpipes R)) (h_array (xr_outpipes R))) in *.
  assert (∀ k, m !! k ≠ Some data) as Hnew by (intros k Hk; destruct (Hd k data Hk) as [p Hq]; by apply (Hdata p)).
  assert (hash_rep h0 m) as Hh0 by by apply init_item.
  destruct (nn_hash_insert h0 key data) as [h1|] eqn:Ei; [|done]. cbn [mbind option_bind] in E. injection E as <-.
  assert (m !! key = None) as Hnone.
  { destruct (m !! key) as [d|] eqn:Ek; [|done]. unfold nn_hash_insert in Ei.
    destruct (slot_list h0 m key Hh0) as (_ & l & _ & _ & Hl & _ & _ & _ & _ & Hf). unfold slot_of in Hl. rewrite Hl in Ei. cbn [mbind option_bind] in Ei.
    by rewrite Hf, Ek in Ei. }
  destruct (insert_spec h0 m key data (Item NotInList NotInList) Hh0 Hnone Hnew) as (h2 & E2 & Hh2 & Hi2);
    [cbn; unfold nn_hash_item_init, nn_list_item_init; by rewrite lookup_insert_eq|done|done|].
  rewrite Ei in E2. injection E2 as <-. cbn in Hi2. split.
  - exists (<[key := data]> m). split; cbn [xr_outpipes xr_data xr_pipe xr_flags]; [done|lia|..].
    + intros p d Hpd. destruct (decide (p = pipe)) as [->|Hne].
      * rewrite lookup_insert_eq in Hpd. injection Hpd as <-. rewrite !lookup_insert_eq. split_and!; [done|done|].
        exists key. split; [apply key_31|by rewrite lookup_insert_eq].
      * rewrite lookup_insert_ne in Hpd by done. assert (d ≠ data) as Hdd by (intros ->; by apply (Hdata p)).
        rewrite !(lookup_insert_ne _ data) by done. destruct (Hp p d Hpd) as (? & ? & k & ? & Hk). split_and!; [done..|].
        exists k. split; [done|]. rewrite lookup_insert_ne; [done|]. intros <-. congruence.
    + intros k d Hk. destruct (decide (k = key)) as [->|Hne].
      * rewrite lookup_insert_eq in Hk. injection Hk as <-. exists pipe. by rewrite lookup_insert_eq.
      * rewrite lookup_insert_ne in Hk by done. destruct (Hd k d Hk) as [p Hpd]. exists p. rewrite lookup_insert_ne; [done|congruence].
  - intros p k (d & Hpd & Hk). exists d. cbn [xr_data xr_outpipes]. split; [rewrite lookup_insert_ne; [done|congruence]|].
    apply (rep_key _ (<[key := data]> m)); [done|]. destruct (Hp p d Hpd) as (_ & _ & k' & _ & Hk').
    pose proof (rep_key _ _ _ _ Hh Hk') as Hkk. rewrite Hk in Hkk. injection Hkk as <-. rewrite lookup_insert_ne; [done|congruence].
Qed.

Lemma xrep_rm_ok R m pipe R' : xrep_ok R m → nn_xrep_rm R pipe = Some R' →
  (∃ m', xrep_ok R' m') ∧ ∀ p k, p ≠ pipe → pipe_key R p k → pipe_key R' p k.
Proof.
  intros [Hh Hi Hp Hd] E. unfold nn_xrep_rm in E. destruct (xr_data R !! pipe) as [data|] eqn:Hpd; [|done]. cbn [mbind option_bind] in E.
  destruct (nn_fq_rm _ _) as [fq|]; [|done]. cbn [mbind option_bind] in E. destruct (Hp pipe data Hpd) as (Hxp & _ & k & _ & Hk).
  destruct (erase_spec _ m k data Hh Hk Hi) as (h' & Eh & Hh' & Hi' & Ht). rewrite Eh in E. cbn [mbind option_bind] in E.
  rewrite Ht in E. cbn [mbind option_bind] in E. injection E as <-.
  assert (∀ p d k', p ≠ pipe → xr_data R !! p = Some d → m !! k' = Some d → delete k m !! k' = Some d) as Hkeep.
  { intros p d k' Hne Hq Hk'. rewrite lookup_delete_ne; [done|]. intros <-. rewrite Hk in Hk'. injection Hk' as <-.
    destruct (Hp p data Hq) as (Hxq & _). congruence. }
  split.
  - exists (delete k m). split; cbn [xr_outpipes xr_data xr_pipe xr_flags]; [done|lia|..].
    + intros p d [Hne Hq]%lookup_delete_Some. destruct (Hp p d Hq) as (? & ? & k' & ? & Hk'). split_and!; [done..|].
      exists k'. split; [done|]. by apply (Hkeep p).
    + intros k' d [Hne Hk']%lookup_delete_Some. destruct (Hd k' d Hk') as [p Hq]. exists p. rewrite lookup_delete_ne; [done|].
      intros <-. rewrite Hpd in Hq. injection Hq as <-. pose proof (rep_key _ _ _ _ Hh Hk). pose proof (rep_key _ _ _ _ Hh Hk'). congruence.
  - intros p k' Hne (d & Hq & Hk'). exists d. cbn [xr_data xr_outpipes]. rewrite lookup_delete_ne by done. split; [done|].
    apply (rep_key _ (delete k m)); [done|]. apply (Hkeep p); [done|done|]. destruct (Hp p d Hq) as (_ & _ & k2 & _ & Hk2).
    pose proof (rep_key _ _ _ _ Hh Hk2). congruence.
Qed.

(** A message that comes unparsed from a pipe is split, and the key of the pipe is put
    before its header. *)
Lemma xrep_recv_hop self maxttl w fq w' rc hs wire pipe data key :
  nn_fq_recv (xr_inpipes self) w = Some (fq, w', rc, Some (Msg [] hs wire), Some pipe) → 0 ≤ rc → Z.land rc NN_PIPE_PARSED = 0 →
  xr_data self !! pipe = Some data → h_keys (xr_outpipes self) !! data = Some key →
  nn_xrep_recv self maxttl w = 
    let self := XRep (xr_next_key self) (xr_outpipes self) fq (xr_pipe self) (xr_flags self) (xr_data self) in
    Some match xrep_split maxttl wire with
    | None => (self, w', - EAGAIN, None)
    | Some (hdr, rest) => (self, w', 0, Some (Msg (nn_putl key ++ hdr) hs rest))
    end.
Proof.
  intros Hf Hrc Hp Hd Hk. unfold nn_xrep_recv. rewrite Hf. cbn [mbind option_bind].
  rewrite (proj2 (Z.ltb_ge rc 0)) by done. cbn [mbind option_bind body]. rewrite Hp. cbn [Z.eqb].
  destruct (xrep_split maxttl wire) as [[hdr rest]|]; [|done]. cbn [sphdr length Nat.eqb nn_assert mbind option_bind xr_data xr_outpipes].
  rewrite Hd. cbn [mbind option_bind]. rewrite Hk. done.
Qed.

(** A receive and a send change no key. *)
Lemma xrep_recv_same self maxttl (w : W) self' w' rc msg : nn_xrep_recv self maxttl w = Some (self', w', rc, msg) →
  xr_outpipes self' = xr_outpipes self ∧ xr_pipe self' = xr_pipe self ∧ xr_data self' = xr_data self ∧ xr_flags self' = xr_flags self.
Proof.
  unfold nn_xrep_recv. intros E. destruct (nn_fq_recv _ w) as [[[[[fq w1] rc1] m1] p1]|]; [|done]. cbn [mbind option_bind] in E.
  destruct (rc1 <? 0); [by injection E as <- _ _ _|]. destruct m1 as [m1|]; [|done]. destruct p1 as [p1|]; [|done]. cbn [mbind option_bind] in E.
  destruct (if _ =? 0 then _ else _) as [[m2|]|]; [|by injection E as <- _ _ _|done]. cbn [mbind option_bind] in E.
  destruct (xr_data _ !! p1); [|done]. cbn [mbind option_bind] in E. destruct (h_keys _ !! _); [|done]. by injection E as <- _ _ _.
Qed.

Lemma xrep_send_same self msg (w : W) self' w' rc : nn_xrep_send self msg w = Some (self', w', rc) →
  xr_outpipes self' = xr_outpipes self ∧ xr_pipe self' = xr_pipe self ∧ xr_data self' = xr_data self ∧
  ∀ d, is_Some (xr_flags self !! d) → is_Some (xr_flags self' !! d).
Proof.
  unfold nn_xrep_send. intros E. destruct (_ <? 4)%nat; [by injection E as <- _ _|]. destruct (nn_getl _); [|done]. cbn [mbind option_bind] in E.
  destruct (nn_hash_get _ _) as [[d|]|]; [|by injection E as <- _ _|done]. cbn [mbind option_bind] in E.
  destruct (xr_flags _ !! _); [|done]. cbn [mbind option_bind] in E. destruct (_ =? 0); [by injection E as <- _ _|].
  destruct (xr_pipe _ !! _); [|done]. cbn [mbind option_bind] in E. destruct (pipe_send _ _ _) as [[w1 rc1]|]; [|done]. cbn [mbind option_bind] in E.
  destruct (rc1 >=? 0); [|done]. destruct (_ =? 0); injection E as <- _ _; [done|]. split_and!; [done..|]. intros e. apply set_flags_some.
Qed.

Lemma xrep_keep R R' o m : xrep_ok R m → xr_outpipes R' = xr_outpipes R → xr_pipe R' = xr_pipe R → xr_data R' = xr_data R →
  (∀ d, is_Some (xr_flags R !! d) → is_Some (xr_flags R' !! d)) →
  (∃ m', xrep_ok R' m') ∧ ∀ p k, o ≠ Some p → pipe_key R p k → pipe_key R' p k.
Proof. intros Hok ? ? ? ?. destruct (xrep_same R R' m) as [? Hk]; [done..|]. split; [by exists m|]. intros p k _. apply Hk. Qed.

(** Every step keeps the keys of the pipes that stay. *)
Lemma xrep_step_ok R (o : option Z) R' m : xrep_ok R m → xrep_step R o R' →
  (∃ m', xrep_ok R' m') ∧ ∀ p k, o ≠ Some p → pipe_key R p k → pipe_key R' p k.
Proof.
  intros Hok Hs. destruct Hs as [R pipe data prio R' Hp Hd Hi E|R pipe R' E|R pipe R' E|R pipe R' E|R msg w R' w' rc E|R ttl w R' w' rc msg E].
  - destruct (xrep_add_ok _ _ _ _ _ _ Hok Hp Hd Hi E) as [? ?]. eauto.
  - destruct (xrep_rm_ok _ _ _ _ Hok E) as [? Hk]. split; [done|]. intros p k Hne. apply Hk. congruence.
  - unfold nn_xrep_in in E. destruct (xr_data R !! pipe); [|done]. cbn [mbind option_bind] in E. destruct (nn_fq_in _ _); [|done].
    injection E as <-. apply (xrep_keep R _ _ m); done.
  - unfold nn_xrep_out in E. destruct (xr_data R !! pipe); [|done]. cbn [mbind option_bind] in E. destruct (xr_flags R !! _); [|done].
    injection E as <-. apply (xrep_keep R _ _ m); [done..|]. intros d. apply set_flags_some.
  - destruct (xrep_send_same _ _ _ _ _ _ E) as (? & ? & ? & ?). by apply (xrep_keep R _ _ m).
  - destruct (xrep_recv_same _ _ _ _ _ _ _ E) as (? & ? & ? & Hf). apply (xrep_keep R _ _ m); [done..|]. by rewrite Hf.
Qed.

Lemma xrep_reach_ok R : xrep_reach R → ∃ m, xrep_ok R m.
Proof.
  induction 1 as [k|R o R' _ [m Hok] Hs]; [|by destruct (xrep_step_ok _ _ _ _ Hok Hs)].
  exists ∅. split; cbn; [apply hash_rep_init|done|..]; by intros ? ? ?%lookup_empty_Some.
Qed.

Lemma xrep_keeps_ok p R S : xrep_keeps p R S → xrep_reach R → xrep_reach S ∧ ∀ k, pipe_key R p k → pipe_key S p k.
Proof.
  induction 1 as [|R S o S' _ IH Hs Hne]; intros Hr; [done|]. destruct (IH Hr) as [HS Hk]. split; [by eapply reach_step|].
  destruct (xrep_reach_ok _ HS) as [m Hok]. destruct (xrep_step_ok _ _ _ _ Hok Hs) as [_ Hkeep]. eauto.
Qed.

(** A pipe of the socket has a key, by which it is found. *)
Lemma pipe_has_key R m p d : xrep_ok R m → xr_data R !! p = Some d → ∃ k, is_key k ∧ pipe_key R p k.
Proof.
  intros [Hh _ Hp _] Hd. destruct (Hp p d Hd) as (_ & _ & k & Hk & Hm). exists k. split; [done|]. exists d. split; [done|].
  by apply (rep_key _ m).
Qed.

Lemma pipe_key_found R m p k : xrep_ok R m → pipe_key R p k →
  ∃ d, xr_data R !! p = Some d ∧ xr_pipe R !! d = Some p ∧ is_key k ∧ nn_hash_get (xr_outpipes R) k = Some (Some d).
Proof.
  intros [Hh _ Hp _] (d & Hd & Hk). destruct (Hp p d Hd) as (Hx & _ & k' & Hkk & Hm). pose proof (rep_key _ _ _ _ Hh Hm).
  assert (k' = k) as -> by congruence. exists d. rewrite (get_spec _ _ _ Hh), Hm. done.
Qed.

(** *** What goes through the sockets *)

(** The pipes, with a log of what was passed to them. *)
#[export] Instance logged : Pipes (W * list (Z * nn_msg)) := {
  pipe_send p m w := '(w', rc) ← pipe_send p m w.1; Some ((w', w.2 ++ [(p, m)]), rc);
  pipe_recv p w := '(w', rc, m) ← pipe_recv p w.1; Some ((w', w.2), rc, m)
}.

(** What a transport carries of a message. *)
Definition wire_of (m : nn_msg) : list Z := sphdr m ++ body m.

(** The next message of the fair queue is [wire], from the pipe [p], and was not parsed. *)
Definition arrives (fq : nn_priolist) (w : W) (p : Z) (wire : list Z) : Prop :=
  ∃ fq' w' rc hs, nn_fq_recv fq w = Some (fq', w', rc, Some (Msg [] hs wire), Some p) ∧ 0 ≤ rc ∧ Z.land rc NN_PIPE_PARSED = 0.

(** A raw REQ socket passes the message [m] on, as [m'], to one of its pipes. *)
Definition forwards (m m' : nn_msg) : Prop :=
  ∃ Q wq Q' wq' q, nn_xreq_send_to Q m (wq, []) = Some (Q', (wq', [(q, m')]), 0, Some q).

(** A raw REP socket, after it has received a request, and the pipe the request came from. *)
Record hop := Hop { h_rep : nn_xrep; h_pipe : Z }.

(** The request [m0] of a socket goes through devices: what a raw REQ socket forwards
    arrives at a raw REP socket, which receives it. *)
Inductive request_path (maxttl : Z) (m0 : nn_msg) : list hop → nn_msg → Prop :=
| path_start : request_path maxttl m0 [] m0
| path_hop hops m m1 R p w R' w' m2 : request_path maxttl m0 hops m → forwards m m1 → xrep_reach R →
    is_Some (xr_data R !! p) → arrives (xr_inpipes R) w p (wire_of m1) → nn_xrep_recv R maxttl w = Some (R', w', 0, Some m2) →
    request_path maxttl m0 (hops ++ [Hop R' p]) m2.

(** The socket of a hop when the reply comes back, and its pipes. *)
Record back := Back { b_rep : nn_xrep; b_pipe : Z; b_world : W }.

(** Since the request came anything has happened to the socket, but that its pipe went;
    and this pipe can take a message. *)
Record back_of (h : hop) (b : back) : Prop := {
  bo_pipe : b_pipe b = h_pipe h;
  bo_keeps : xrep_keeps (h_pipe h) (h_rep h) (b_rep b);
  bo_out : ∃ d f, xr_data (b_rep b) !! b_pipe b = Some d ∧ xr_flags (b_rep b) !! d = Some f ∧ Z.land f NN_XREP_OUT ≠ 0;
  bo_send : ∀ m, ∃ w' rc, pipe_send (b_pipe b) m (b_world b) = Some (w', rc) ∧ 0 ≤ rc
}.

(** The reply [m] is sent to the sockets of [backs]: each of them passes it on, to its pipe
    and no other; whatever raw REQ socket it arrives at receives it; and the last of them
    has received a message with [Q]. *)
Fixpoint replied (backs : list back) (m : nn_msg) (Q : nn_msg → Prop) : Prop :=
  match backs with
  | [] => Q m
  | b :: backs => ∃ S' w' m', nn_xrep_send (b_rep b) m (b_world b, []) = Some (S', (w', [(b_pipe b, m')]), 0) ∧
      ∀ X wx q, arrives (xq_fq X) wx q (wire_of m') →
        ∃ X' wx' m2, nn_xreq_recv X wx = Some (X', wx', 0, Stored m2) ∧ replied backs m2 Q
  end.

(** *** The way there *)

Lemma forwards_same m m' : forwards m m' → m' = m.
Proof.
  intros (Q & wq & Q' & wq' & q & E). unfold nn_xreq_send_to, nn_lb_send in E.
  destruct (nn_priolist_getpipe _) as [[p|]|]; [|done|done]. cbn [mbind option_bind pipe_send logged fst snd app] in E.
  destruct (pipe_send p m wq) as [[w1 rc1]|]; [|done]. cbn [mbind option_bind] in E. destruct (rc1 >=? 0); [|done].
  destruct (nn_priolist_advance _ _); [|done]. cbn [mbind option_bind] in E. destruct (_ =? _); [done|].
  destruct (_ >=? 0); [|done]. congruence.
Qed.

(** One hop of a request with the keys [ks]. *)
Lemma path_one maxttl R w p ks id m : xrep_reach R → is_Some (xr_data R !! p) → is_id id → Forall is_key ks →
  sphdr m = words ks ++ nn_putl id → arrives (xr_inpipes R) w p (wire_of m) →
  ∃ k R' w', is_key k ∧ xrep_reach R' ∧ pipe_key R' p k ∧ (∃ hs, nn_xrep_recv R maxttl w = Some (
    if Z.of_nat (length ks) <? maxttl then (R', w', 0, Some (Msg (words (k :: ks) ++ nn_putl id) hs (body m)))
    else (R', w', - EAGAIN, None))).
Proof.
  intros Hr [d Hd] Hid Hks Hm (fq & w' & rc & hs & Ef & Hrc & Hp). destruct (xrep_reach_ok R Hr) as [mm Hok].
  destruct (pipe_has_key R mm p d Hok Hd) as (k & Hk & d' & Hd' & Hkd). assert (d' = d) as -> by congruence.
  pose proof (xrep_recv_hop R maxttl w fq w' rc hs _ p d k Ef Hrc Hp Hd Hkd) as E. cbn zeta in E. unfold wire_of in E.
  rewrite Hm, <-app_assoc, xrep_split_words in E by done. set (R' := XRep _ _ fq _ _ _) in E. exists k, R', w'. split; [done|].
  assert ((Z.of_nat (S (length ks)) >? maxttl) = negb (Z.of_nat (length ks) <? maxttl)) as Eb.
  { rewrite Z.gtb_ltb. by destruct (Z.ltb_spec maxttl (Z.of_nat (S (length ks)))), (Z.ltb_spec (Z.of_nat (length ks)) maxttl); lia || done. }
  rewrite Eb in E. split_and!.
  - eapply (reach_step R None); [done|]. destruct (negb _); eapply xrep_recvs; exact E.
  - by exists d.
  - exists hs. rewrite words_cons, <-app_assoc. by destruct (_ <? _).
Qed.

(** On its path a request collects the keys of the pipes it came from. *)
Lemma path_keys maxttl hs0 id request hops m : is_id id → request_path maxttl (Msg (nn_putl id) hs0 request) hops m →
  ∃ ks, Forall2 (λ h k, is_key k ∧ xrep_reach (h_rep h) ∧ pipe_key (h_rep h) (h_pipe h) k) hops ks ∧
    sphdr m = words (rev ks) ++ nn_putl id ∧ body m = request.
Proof.
  intros Hid. induction 1 as [|hops m m1 R p w R' w' m2 _ IH Hf Hr Hp Ha E]; [by exists []|].
  destruct IH as (ks & Hks & Hs & Hb). apply forwards_same in Hf as ->.
  assert (Forall is_key (rev ks)) as Hk.
  { apply Forall_rev. eapply Forall2_Forall_r; [exact Hks|]. apply Forall_true. intros h k (Hk & _). exact Hk. }
  destruct (path_one maxttl R w p (rev ks) id m Hr Hp Hid Hk Hs Ha) as (k & R1 & w1 & Hkk & Hr1 & Hpk & hs & E1). rewrite E in E1.
  destruct (_ <? _); [|done]. injection E1 as -> -> ->. exists (ks ++ [k]). rewrite rev_app_distr. split_and!; [|done|done].
  apply Forall2_app; [done|]. apply Forall2_cons. split; [done|]. by apply Forall2_nil.
Qed.

(** *** The way back *)

(** A reply goes to the pipe of the key before its header, without the key. *)
Lemma xrep_send_hop S p k r hs rest w w' rc : xrep_reach S → pipe_key S p k →
  (∃ d f, xr_data S !! p = Some d ∧ xr_flags S !! d = Some f ∧ Z.land f NN_XREP_OUT ≠ 0) →
  pipe_send p (Msg r hs rest) w = Some (w', rc) → 0 ≤ rc →
  ∃ S', nn_xrep_send S (Msg (nn_putl k ++ r) hs rest) (w, []) = Some (S', (w', [(p, Msg r hs rest)]), 0).
Proof.
  intros Hr Hk (d & f & Hd & Hf & Ho) Hs Hrc. destruct (xrep_reach_ok S Hr) as [m Hok].
  destruct (pipe_key_found S m p k Hok Hk) as (d' & Hd' & Hp & Hkk & Hg). assert (d' = d) as -> by congruence.
  unfold nn_xrep_send. cbn [sphdr hdrs body]. rewrite length_app. cbn [length nn_putl Nat.add].
  rewrite (proj2 (Nat.ltb_ge _ _)) by lia. unfold is_key in Hkk. rewrite nn_getl_putl by lia. cbn [mbind option_bind].
  rewrite Hg. cbn [mbind option_bind]. rewrite Hf. cbn [mbind option_bind]. rewrite (proj2 (Z.eqb_neq _ _)) by done.
  rewrite Hp. cbn [mbind option_bind pipe_send logged fst snd app]. change (drop 4 (nn_putl k ++ r)) with r. rewrite Hs. cbn [mbind option_bind].
  rewrite Z.geb_leb, (proj2 (Z.leb_le 0 rc)) by done. eexists. reflexivity.
Qed.

(** The first word of a reply becomes its header. *)
Lemma xreq_recv_hop X wx q k rest : arrives (xq_fq X) wx q (nn_putl k ++ rest) →
  ∃ X' wx' hs, nn_xreq_recv X wx = Some (X', wx', 0, Stored (Msg (nn_putl k) hs rest)).
Proof.
  intros (fq & w' & rc & hs & Ef & Hrc & Hp). unfold nn_xreq_recv. rewrite Ef. cbn [mbind option_bind body].
  rewrite (proj2 (Z.eqb_neq rc (- EAGAIN))) by (unfold EAGAIN; lia). rewrite Z.geb_leb, (proj2 (Z.leb_le 0 rc)), Hp by done. cbn [Z.eqb].
  unfold xreq_split. cbn [nn_putl app length Nat.ltb Nat.leb take drop sphdr Nat.eqb nn_assert mbind option_bind hdrs]. eauto.
Qed.

(** A reply that is left with the words [ks], the first of them in the header, and the
    last the word of the requester. *)
Lemma replied_words id reply : ∀ hops ks backs m r,
  Forall2 (λ h k, is_key k ∧ xrep_reach (h_rep h) ∧ pipe_key (h_rep h) (h_pipe h) k) hops ks → Forall2 back_of hops backs →
  (sphdr m = hd [] (map nn_putl (ks ++ [id])) ++ r) → r ++ body m = words (tl (ks ++ [id])) ++ reply → (ks = [] → r = []) →
  replied backs m (λ m', sphdr m' = nn_putl id ∧ body m' = reply).
Proof.
  induction hops as [|h hops IH]; intros ks backs m r Hks Hbs Hs Hb Hr.
  - apply Forall2_nil_inv_l in Hks as ->. apply Forall2_nil_inv_l in Hbs as ->. rewrite (Hr eq_refl) in Hs, Hb. cbn [app map hd tl] in Hs, Hb. rewrite app_nil_r in Hs. by split.
  - apply Forall2_cons_inv_l in Hks as (k & ks' & (Hk & Hreach & Hpk) & Hks & ->). apply Forall2_cons_inv_l in Hbs as (b & bs & [Hbp Hbk Hbo Hsend] & Hbs & ->).
    cbn [app map hd tl] in Hs, Hb. destruct (xrep_keeps_ok _ _ _ Hbk Hreach) as [HS Hkeep]. rewrite <-Hbp in Hkeep, Hpk.
    destruct m as [hdr hs bd]. cbn [sphdr body] in *. subst hdr. destruct (Hsend (Msg r hs bd)) as (w' & rc & Es & Hrc).
    destruct (xrep_send_hop _ _ _ r hs bd _ _ _ HS (Hkeep k Hpk) Hbo Es Hrc) as [S' E].
    cbn [replied]. exists S', w', (Msg r hs bd). split; [done|]. intros X wx q Ha. unfold wire_of in Ha. cbn [sphdr body] in Ha. rewrite Hb in Ha.
    assert (∃ k2 l2, ks' ++ [id] = k2 :: l2) as (k2 & l2 & E2) by (destruct ks'; by eauto). rewrite E2, words_cons, <-app_assoc in Ha.
    destruct (xreq_recv_hop _ _ _ _ _ Ha) as (X' & wx' & hs2 & Ex). exists X', wx', (Msg (nn_putl k2) hs2 (words l2 ++ reply)). split; [done|].
    apply (IH ks' bs _ []); [done|done|..|done]; cbn [sphdr body]; rewrite E2; cbn [map hd tl]; [by rewrite app_nil_r|done].
Qed.

(** C25. A reply finds its way back: whatever raw REP sockets a request came through - each
    of them made by any additions, removals, sends and receives - with a raw REQ socket
    before each of them, the body is the one that was sent.  A reply with the header of the
    request, whatever else has happened to the sockets meanwhile, is passed by each of them
    to the pipe that the request came from and to no other, and when it arrives at the
    requester its header is the word of the requester and its body that of the reply; the
    pipes must not have gone, and must be able to take a message.  One more socket receives
    the request when it has passed less than [maxttl] of them, and drops it otherwise. *)
Theorem backtrace maxttl id hs0 request hops m (Hid : is_id id)
    (Hpath : request_path maxttl (Msg (nn_putl id) hs0 request) hops m) :
  body m = request ∧
  (∀ hs reply backs, Forall2 back_of hops backs →
     replied (rev backs) (Msg (sphdr m) hs reply) (λ m', sphdr m' = nn_putl id ∧ body m' = reply)) ∧
  (∀ m1 R p w, forwards m m1 → xrep_reach R → is_Some (xr_data R !! p) → arrives (xr_inpipes R) w p (wire_of m1) →
     ∃ R' w' rc m2, nn_xrep_recv R maxttl w = Some (R', w', rc, m2) ∧
       if Z.of_nat (length hops) <? maxttl then rc = 0 ∧ body <$> m2 = Some request else rc = - EAGAIN ∧ m2 = None).
Proof.
  destruct (path_keys _ _ _ _ _ _ Hid Hpath) as (ks & Hks & Hs & Hb). split; [done|]. split.
  - intros hs reply backs Hbs. apply (replied_words id reply (rev hops) (rev ks) _ _ (words (tl (rev ks ++ [id])))); [..|done|].
    + rewrite !rev_alt. by apply Forall2_reverse.
    + rewrite !rev_alt. by apply Forall2_reverse.
    + cbn [sphdr]. rewrite Hs. destruct (rev ks) as [|k l]; [done|]. cbn [app map hd tl]. by rewrite words_cons, words_app, <-app_assoc.
    + by intros ->.
  - intros m1 R p w Hf Hr Hp Ha. apply forwards_same in Hf as ->.
    assert (Forall is_key (rev ks)) as Hk.
    { apply Forall_rev. eapply Forall2_Forall_r; [exact Hks|]. apply Forall_true. intros h k (Hk & _). exact Hk. }
    destruct (path_one maxttl R w p (rev ks) id m Hr Hp Hid Hk Hs Ha) as (k & R' & w' & _ & _ & _ & hs & E).
    rewrite length_rev, <-(Forall2_length _ _ _ Hks) in E. rewrite E.
    destruct (_ <? _); do 4 eexists; (split; [reflexivity|]); cbn; by rewrite ?Hb.
Qed.

End sockets.

(** ** An example: a requester, a device and a replier, on connections inside the process *)

(** The right end of a connection has sent [m]. *)
Definition demo_arrived (m : nn_msg) : list conn :=
  default [] ('(s, _) ← pipe_send 2 m demo_wire; s ← process_eventto false 0 s; Some [s]).

Definition demo_xreq : nn_xreq := default nn_xreq_init (q ← nn_xreq_add nn_xreq_init 0 10 8 8; nn_xreq_out q 0).

(** A raw REP socket with one pipe, that a message can be received from. *)
Definition demo_added (key : Z) : nn_xrep := default (nn_xrep_init key) (nn_xrep_add (nn_xrep_init key) 0 20 8).
Definition demo_xrep (key : Z) : nn_xrep := default (demo_added key) (nn_xrep_in (demo_added key) 0).

(** It receives the message, and later its pipe can take one. *)
Definition demo_recv (key : Z) (m : nn_msg) : nn_xrep * list conn * nn_msg :=
  default (demo_xrep key, [], m) ('(r, w, _, m) ← nn_xrep_recv (demo_xrep key) 2 (demo_arrived m); m ← m; Some (r, w, m)).
Definition demo_back (r : nn_xrep) : back := Back (default r (nn_xrep_out r 0)) 0 [demo_wire].

Definition demo_m0 : nn_msg := Msg (nn_putl 0x80000001) [] [104; 105].
Definition demo_m1 : nn_msg := (demo_recv 5 demo_m0).2.
Definition demo_m2 : nn_msg := (demo_recv 7 demo_m1).2.

Lemma demo_reach key : is_Some (nn_xrep_add (nn_xrep_init key) 0 20 8) → is_Some (nn_xrep_in (demo_added key) 0) →
  xrep_reach (W := list conn) (demo_xrep key).
Proof.
  intros [r1 E1] [r2 E2]. unfold demo_xrep. rewrite E2. eapply reach_step, xrep_in, E2.
  unfold demo_added. rewrite E1. eapply reach_step, (xrep_add _ 0 20 8); [apply reach_init|done| |done|done].
  intros q. cbn. by rewrite lookup_empty.
Qed.

Definition demo_r1 : nn_xrep := (demo_recv 5 demo_m0).1.1.
Definition demo_r2 : nn_xrep := (demo_recv 7 demo_m1).1.1.

Lemma demo_forwards m : (λ r, (r.1.1.2, r.1.2, r.2)) <$> nn_xreq_send_to demo_xreq m ([demo_wire], []) =
    Some (([default demo_wire (fst <$> pipe_send 1 m demo_wire)], [(0, m)]), 0, Some 0) → forwards m m.
Proof.
  intros E. destruct (nn_xreq_send_to _ _ _) as [[[[Q w] rc] to]|] eqn:E1; [|done]. cbn in E. injection E as -> -> ->.
  by exists demo_xreq, [demo_wire], Q, [default demo_wire (fst <$> pipe_send 1 m demo_wire)], 0.
Qed.

Lemma demo_arrives key m : is_Some (nn_fq_recv (xr_inpipes (demo_xrep key)) (demo_arrived m)) →
  (λ r, (r.1.1.2, r.1.2, r.2)) <$> nn_fq_recv (xr_inpipes (demo_xrep key)) (demo_arrived m) = Some (0, Some (Msg [] [] (wire_of m)), Some 0) →
  arrives (xr_inpipes (demo_xrep key)) (demo_arrived m) 0 (wire_of m).
Proof.
  intros [[[[[fq w] rc] m1] p] E1] E. rewrite E1 in E. cbn in E. injection E as -> -> ->. by exists fq, w, 0, [].
Qed.

#[local] Ltac computes := apply (bool_decide_unpack _); vm_compute; exact I.

Lemma demo_path : request_path 2 demo_m0 [Hop demo_r1 0; Hop demo_r2 0] demo_m2.
Proof.
  apply (path_hop 2 demo_m0 [Hop demo_r1 0] demo_m1 demo_m1 (demo_xrep 7) 0 (demo_arrived demo_m1) demo_r2 (demo_recv 7 demo_m1).1.2).
  - apply (path_hop 2 demo_m0 [] demo_m0 demo_m0 (demo_xrep 5) 0 (demo_arrived demo_m0) demo_r1 (demo_recv 5 demo_m0).1.2).
    + constructor.
    + apply demo_forwards. vm_compute. reflexivity.
    + apply demo_reach; computes.
    + computes.
    + apply demo_arrives; [computes|]. vm_compute. reflexivity.
    + vm_compute. reflexivity.
  - apply demo_forwards. vm_compute. reflexivity.
  - apply demo_reach; computes.
  - computes.
  - apply demo_arrives; [computes|]. vm_compute. reflexivity.
  - vm_compute. reflexivity.
Qed.

Lemma demo_back_of r : xr_data r !! 0 = Some 20 → xr_flags r !! 20 = Some 0 → back_of (Hop r 0) (demo_back r).
Proof.
  intros Hd Hf. assert (nn_xrep_out r 0 = Some (set_xflags r 20 1)) as E by (unfold nn_xrep_out; by rewrite Hd; cbn; rewrite Hf).
  unfold demo_back. rewrite E. split; cbn [b_rep b_pipe b_world h_rep h_pipe default].
  - done.
  - by eapply (keeps_step 0 r r None); [constructor|by eapply xrep_out|].
  - exists 20, 1. cbn. by rewrite Hd, lookup_insert_eq.
  - intros m. destruct (take_law 0 m [demo_wire]) as (w' & E' & _); [|by exists w', NN_PIPE_RELEASE].
    split; [done|]. by exists demo_wire.
Qed.

(** The reply goes back through both sockets; a third one drops the request. *)
Lemma backtrace_witness :
  sphdr demo_m2 = nn_putl 7 ++ nn_putl 5 ++ nn_putl 0x80000001 ∧ body demo_m2 = [104; 105] ∧
  replied [demo_back demo_r2; demo_back demo_r1] (Msg (sphdr demo_m2) [] [111; 107])
    (λ m', sphdr m' = nn_putl 0x80000001 ∧ body m' = [111; 107]) ∧
  ∃ R' w', nn_xrep_recv (demo_xrep 9) 2 (demo_arrived demo_m2) = Some (R', w', - EAGAIN, None).
Proof.
  assert (is_id 0x80000001) as Hid by (split; done).
  destruct (backtrace 2 0x80000001 [] [104; 105] [Hop demo_r1 0; Hop demo_r2 0] demo_m2 Hid demo_path) as (Hb & Hback & Hnext).
  split; [vm_compute; reflexivity|]. split; [exact Hb|]. split.
  - apply (Hback [] [111; 107] [demo_back demo_r1; demo_back demo_r2]).
    repeat (apply Forall2_cons; split); [apply demo_back_of; vm_compute; reflexivity..|by apply Forall2_nil].
  - destruct (Hnext demo_m2 (demo_xrep 9) 0 (demo_arrived demo_m2)) as (R' & w' & rc & m2 & E & -> & ->).
    + apply demo_forwards. vm_compute. reflexivity.
    + apply demo_reach; computes.
    + computes.
    + apply demo_arrives; [computes|]. vm_compute. reflexivity.
    + by exists R', w'.
Defined.
