(* ===== verification/NnReq.v ===== *)
(** * The requesters of nanomsg

    [nanomsg-1.0.0/src/protocols/reqrep/req.c]: the state machine of a REQ socket over
    the raw socket of [xreq.c], which is behind an interface, and over the timer of
    [aio/timer.c], whose worker executes its tasks in order.  Closing the socket is not
    modelled. *)

From S2P Require Import Prelude NnList NnPrio NnPrioSpec NnMsgQueue NnInproc NnBalance NnCodec NnRouting.
From stdpp Require Import base numbers list gmap.
#[local] Open Scope Z_scope.

(** ** [aio/timer.c], with what it uses of [aio/fsm.c] *)
Definition NN_FSM_STATE_IDLE : Z := 1.
Definition NN_FSM_STATE_ACTIVE : Z := 2.
Definition NN_FSM_STATE_STOPPING : Z := 3.
Definition NN_TIMER_STATE_IDLE : Z := 1.
Definition NN_TIMER_STATE_ACTIVE : Z := 2.
Definition NN_TIMER_STATE_STOPPING : Z := 3.

Inductive timer_event := NN_TIMER_TIMEOUT | NN_TIMER_STOPPED.
Inductive timer_task := START_TASK | STOP_TASK.

#[export] Instance timer_event_dec : EqDecision timer_event.
Proof. solve_decision. Defined.
#[export] Instance timer_task_dec : EqDecision timer_task.
Proof. solve_decision. Defined.

(** [t_tasks]: what the worker was given and has not executed; [t_armed]: [wtimer] is
    in the timer set of the worker; [t_events]: the events [done] and [stopped] that
    were raised to the owner and not processed. *)
Record nn_timer := Timer {
  t_fsm : Z; t_state : Z; t_timeout : Z;
  t_tasks : list timer_task; t_armed : bool; t_events : list timer_event
}.

Definition nn_timer_init : nn_timer := Timer NN_FSM_STATE_IDLE NN_TIMER_STATE_IDLE (-1) [] false [].

Definition nn_timer_isidle (t : nn_timer) : bool :=
  (t_fsm t =? NN_FSM_STATE_IDLE) && bool_decide (NN_TIMER_STOPPED ∉ t_events t).

Definition nn_worker_execute (task : timer_task) (t : nn_timer) : option nn_timer :=
  _ ← nn_assert (bool_decide (task ∉ t_tasks t));
  Some (Timer (t_fsm t) (t_state t) (t_timeout t) (t_tasks t ++ [task]) (t_armed t) (t_events t)).

Definition timer_raise (e : timer_event) (t : nn_timer) : option nn_timer :=
  _ ← nn_assert (bool_decide (e ∉ t_events t));
  Some (Timer (t_fsm t) (t_state t) (t_timeout t) (t_tasks t) (t_armed t) (t_events t ++ [e])).

(** What the timer is told: to start or to stop, the task that its worker executes, or
    that its [wtimer] expired. *)
Inductive timer_input := TimerStart | TimerStop | Executed (task : timer_task) | Expired.

Definition nn_timer_handler (i : timer_input) (t : nn_timer) : option nn_timer :=
  if t_state t =? NN_TIMER_STATE_IDLE then
    match i with
    | TimerStart =>
        nn_worker_execute START_TASK (Timer (t_fsm t) NN_TIMER_STATE_ACTIVE (t_timeout t) (t_tasks t) (t_armed t) (t_events t))
    | _ => None
    end
  else if t_state t =? NN_TIMER_STATE_ACTIVE then
    match i with
    | Executed START_TASK =>
        _ ← nn_assert (0 <=? t_timeout t);
        _ ← nn_assert (negb (t_armed t));
        Some (Timer (t_fsm t) (t_state t) (-1) (t_tasks t) true (t_events t))
    | Expired => _ ← nn_assert (t_timeout t =? -1); timer_raise NN_TIMER_TIMEOUT t
    | _ => None
    end
  else None.

Definition nn_timer_shutdown (i : timer_input) (t : nn_timer) : option nn_timer :=
  match i with
  | TimerStop =>
      nn_worker_execute STOP_TASK (Timer (t_fsm t) NN_TIMER_STATE_STOPPING (t_timeout t) (t_tasks t) (t_armed t) (t_events t))
  | _ =>
      if t_state t =? NN_TIMER_STATE_STOPPING then
        match i with
        | Executed STOP_TASK =>
            _ ← nn_assert (t_fsm t =? NN_FSM_STATE_STOPPING);
            t ← timer_raise NN_TIMER_STOPPED (Timer (t_fsm t) NN_TIMER_STATE_IDLE (t_timeout t) (t_tasks t) false (t_events t));
            Some (Timer NN_FSM_STATE_IDLE (t_state t) (t_timeout t) (t_tasks t) (t_armed t) (t_events t))
        | _ => Some t
        end
      else None
  end.

Definition timer_feed (i : timer_input) (t : nn_timer) : option nn_timer :=
  if t_fsm t =? NN_FSM_STATE_STOPPING then nn_timer_shutdown i t else nn_timer_handler i t.

Definition nn_timer_start (timeout : Z) (t : nn_timer) : option nn_timer :=
  _ ← nn_assert (0 <=? timeout);
  let t := Timer (t_fsm t) (t_state t) timeout (t_tasks t) (t_armed t) (t_events t) in
  _ ← nn_assert (nn_timer_isidle t);
  t ← nn_timer_handler TimerStart t;
  Some (Timer NN_FSM_STATE_ACTIVE (t_state t) (t_timeout t) (t_tasks t) (t_armed t) (t_events t)).

Definition nn_timer_stop (t : nn_timer) : option nn_timer :=
  if t_fsm t =? NN_FSM_STATE_ACTIVE then
    nn_timer_shutdown TimerStop (Timer NN_FSM_STATE_STOPPING (t_state t) (t_timeout t) (t_tasks t) (t_armed t) (t_events t))
  else Some t.

(** The worker executes the next task, if there is one. *)
Definition worker_task (t : nn_timer) : option nn_timer :=
  match t_tasks t with
  | [] => Some t
  | task :: tasks => timer_feed (Executed task) (Timer (t_fsm t) (t_state t) (t_timeout t) tasks (t_armed t) (t_events t))
  end.

(** The [wtimer] expires, if it is in the timer set. *)
Definition worker_timeout (t : nn_timer) : option nn_timer :=
  if t_armed t then timer_feed Expired (Timer (t_fsm t) (t_state t) (t_timeout t) (t_tasks t) false (t_events t)) else Some t.

(** ** The raw socket *)

(** The operations of a raw REQ socket [X], and a bound for the messages that it can
    give at the moment. *)
Class RawReq (X : Type) := {
  raw_in : Z → X → option X;
  raw_out : Z → X → option X;
  raw_rm : Z → X → option X;
  raw_send_to : nn_msg → X → option (X * Z * option Z);
  raw_recv : X → option (X * Z * written);
  raw_pending : X → nat
}.

(** ** [req.c] *)
Definition NN_REQ_DEFAULT_RESEND_IVL : Z := 60000.
Definition NN_REQ_STATE_IDLE : Z := 1.
Definition NN_REQ_STATE_PASSIVE : Z := 2.
Definition NN_REQ_STATE_DELAYED : Z := 3.
Definition NN_REQ_STATE_ACTIVE : Z := 4.
Definition NN_REQ_STATE_TIMED_OUT : Z := 5.
Definition NN_REQ_STATE_CANCELLING : Z := 6.
Definition NN_REQ_STATE_STOPPING_TIMER : Z := 7.
Definition NN_REQ_STATE_DONE : Z := 8.
Definition EFSM : Z := 156384766.

Inductive req_action :=
| NN_FSM_START | NN_REQ_ACTION_IN | NN_REQ_ACTION_OUT | NN_REQ_ACTION_SENT | NN_REQ_ACTION_RECEIVED | NN_REQ_ACTION_PIPE_RM.

(** What the handler is told: an action of its own, or an event of the timer. *)
Inductive req_input := Action (type : req_action) | FromTimer (type : timer_event).

Section req.
  Context {X : Type} `{RawReq X}.

(** [task.reply] is [None] when it was terminated. *)
Record nn_req := Req {
  rq_xreq : X; rq_state : Z; rq_resend_ivl : Z;
  rq_id : Z; rq_request : nn_msg; rq_reply : option nn_msg; rq_sent_to : option Z; rq_timer : nn_timer
}.

Definition set_xreq (x : X) (r : nn_req) : nn_req :=
  Req x (rq_state r) (rq_resend_ivl r) (rq_id r) (rq_request r) (rq_reply r) (rq_sent_to r) (rq_timer r).
Definition set_rstate (s : Z) (r : nn_req) : nn_req :=
  Req (rq_xreq r) s (rq_resend_ivl r) (rq_id r) (rq_request r) (rq_reply r) (rq_sent_to r) (rq_timer r).
Definition set_resend_ivl (v : Z) (r : nn_req) : nn_req :=
  Req (rq_xreq r) (rq_state r) v (rq_id r) (rq_request r) (rq_reply r) (rq_sent_to r) (rq_timer r).
Definition set_request (id : Z) (m : nn_msg) (r : nn_req) : nn_req :=
  Req (rq_xreq r) (rq_state r) (rq_resend_ivl r) id m (rq_reply r) (rq_sent_to r) (rq_timer r).
Definition set_reply (m : option nn_msg) (r : nn_req) : nn_req :=
  Req (rq_xreq r) (rq_state r) (rq_resend_ivl r) (rq_id r) (rq_request r) m (rq_sent_to r) (rq_timer r).
Definition set_sent_to (p : option Z) (r : nn_req) : nn_req :=
  Req (rq_xreq r) (rq_state r) (rq_resend_ivl r) (rq_id r) (rq_request r) (rq_reply r) p (rq_timer r).
Definition set_timer (t : nn_timer) (r : nn_req) : nn_req :=
  Req (rq_xreq r) (rq_state r) (rq_resend_ivl r) (rq_id r) (rq_request r) (rq_reply r) (rq_sent_to r) t.

Definition nn_req_action_send (allow_delay : bool) (r : nn_req) : option nn_req :=
  '(x, rc, to) ← raw_send_to (rq_request r) (rq_xreq r);
  let r := set_xreq x r in
  if rc =? - EAGAIN then
    _ ← nn_assert allow_delay;
    Some (set_rstate NN_REQ_STATE_DELAYED r)
  else if rc =? 0 then
    t ← nn_timer_start (rq_resend_ivl r) (rq_timer r);
    _ ← to;
    Some (set_rstate NN_REQ_STATE_ACTIVE (set_sent_to to (set_timer t r)))
  else None.

(** The timer is stopped and the request is with no pipe any more. *)
Definition stop_waiting (state : Z) (r : nn_req) : option nn_req :=
  t ← nn_timer_stop (rq_timer r);
  Some (set_rstate state (set_sent_to None (set_timer t r))).

Definition nn_req_handler (i : req_input) (r : nn_req) : option nn_req :=
  let s := rq_state r in
  if s =? NN_REQ_STATE_IDLE then
    match i with Action NN_FSM_START => Some (set_rstate NN_REQ_STATE_PASSIVE r) | _ => None end
  else if s =? NN_REQ_STATE_PASSIVE then
    match i with Action NN_REQ_ACTION_SENT => nn_req_action_send true r | _ => None end
  else if s =? NN_REQ_STATE_DELAYED then
    match i with
    | Action NN_REQ_ACTION_OUT => nn_req_action_send false r
    | Action NN_REQ_ACTION_SENT => Some r
    | _ => None
    end
  else if s =? NN_REQ_STATE_ACTIVE then
    match i with
    | Action NN_REQ_ACTION_IN => stop_waiting NN_REQ_STATE_STOPPING_TIMER r
    | Action NN_REQ_ACTION_SENT => stop_waiting NN_REQ_STATE_CANCELLING r
    | Action NN_REQ_ACTION_PIPE_RM => stop_waiting NN_REQ_STATE_TIMED_OUT r
    | FromTimer NN_TIMER_TIMEOUT => stop_waiting NN_REQ_STATE_TIMED_OUT r
    | _ => None
    end
  else if s =? NN_REQ_STATE_TIMED_OUT then
    match i with
    | FromTimer NN_TIMER_STOPPED => nn_req_action_send true r
    | Action NN_REQ_ACTION_SENT => Some (set_rstate NN_REQ_STATE_CANCELLING r)
    | _ => None
    end
  else if s =? NN_REQ_STATE_CANCELLING then
    match i with
    | FromTimer NN_TIMER_STOPPED => nn_req_action_send true r
    | Action NN_REQ_ACTION_SENT => Some r
    | _ => None
    end
  else if s =? NN_REQ_STATE_STOPPING_TIMER then
    match i with
    | FromTimer NN_TIMER_STOPPED => Some (set_rstate NN_REQ_STATE_DONE r)
    | Action NN_REQ_ACTION_SENT => Some (set_rstate NN_REQ_STATE_CANCELLING r)
    | _ => None
    end
  else if s =? NN_REQ_STATE_DONE then
    match i with
    | Action NN_REQ_ACTION_RECEIVED => Some (set_rstate NN_REQ_STATE_PASSIVE r)
    | Action NN_REQ_ACTION_SENT => nn_req_action_send true r
    | _ => None
    end
  else None.

(** [lastid] is a random number. *)
Definition nn_req_init (x : X) (lastid : Z) : option nn_req :=
  nn_req_handler (Action NN_FSM_START)
    (Req x NN_REQ_STATE_IDLE NN_REQ_DEFAULT_RESEND_IVL lastid (nn_msg_init 0) (Some (nn_msg_init 0)) None nn_timer_init).

Definition nn_req_inprogress (r : nn_req) : bool :=
  negb ((rq_state r =? NN_REQ_STATE_IDLE) || (rq_state r =? NN_REQ_STATE_PASSIVE)).

(** The word of a request with an id. *)
Definition req_word (id : Z) : Z := Z.lor id 0x80000000.

(** The loop of [nn_req_in]; with the messages that came, [None] for a malformed one. *)
Fixpoint req_in_loop (fuel : nat) (r : nn_req) : option (nn_req * list (option nn_msg)) :=
  match fuel with
  | O => None
  | S fuel =>
      '(x, rc, msg) ← raw_recv (rq_xreq r);
      let r := set_xreq x r in
      match msg with
      | Untouched => _ ← nn_assert (rc =? - EAGAIN); Some (r, [])
      | Terminated => _ ← nn_assert (rc =? - EAGAIN); Some (set_reply None r, [None])
      | Stored m =>
          _ ← nn_assert (rc =? 0);
          let ignored := '(r, came) ← req_in_loop fuel (set_reply None r); Some (r, Some m :: came) in
          if negb (nn_req_inprogress r) then ignored else
          if negb (length (sphdr m) =? 4)%nat then ignored else
          reqid ← nn_getl (sphdr m);
          if Z.land reqid 0x80000000 =? 0 then ignored else
          if negb (reqid =? req_word (rq_id r)) then ignored else
          let r := set_reply (Some (Msg [] (hdrs m) (body m))) r in
          r ← (if rq_state r =? NN_REQ_STATE_ACTIVE then nn_req_handler (Action NN_REQ_ACTION_IN) r else Some r);
          Some (r, [Some m])
      end
  end.

Definition nn_req_in (pipe : Z) (r : nn_req) : option (nn_req * list (option nn_msg)) :=
  x ← raw_in pipe (rq_xreq r);
  req_in_loop (S (raw_pending x)) (set_xreq x r).

Definition nn_req_out (pipe : Z) (r : nn_req) : option nn_req :=
  x ← raw_out pipe (rq_xreq r);
  let r := set_xreq x r in
  if rq_state r =? NN_REQ_STATE_DELAYED then nn_req_handler (Action NN_REQ_ACTION_OUT) r else Some r.

Definition nn_req_rm (pipe : Z) (r : nn_req) : option nn_req :=
  x ← raw_rm pipe (rq_xreq r);
  let r := set_xreq x r in
  if bool_decide (rq_sent_to r = Some pipe) then nn_req_handler (Action NN_REQ_ACTION_PIPE_RM) r else Some r.

Definition nn_req_events (r : nn_req) : Z :=
  Z.lor NN_SOCKBASE_EVENT_OUT (if rq_state r =? NN_REQ_STATE_DONE then NN_SOCKBASE_EVENT_IN else 0).

Definition nn_req_csend (msg : nn_msg) (r : nn_req) : option (nn_req * Z) :=
  let id := uint32 (rq_id r + 1) in
  _ ← nn_assert (length (sphdr msg) =? 0)%nat;
  let r := set_request id (Msg (nn_putl (req_word id)) (hdrs msg) (body msg)) r in
  r ← nn_req_handler (Action NN_REQ_ACTION_SENT) r;
  Some (r, 0).

(** With the code, what is at [msg]. *)
Definition nn_req_crecv (r : nn_req) : option (nn_req * Z * option nn_msg) :=
  if negb (nn_req_inprogress r) then Some (r, - EFSM, None) else
  if negb (rq_state r =? NN_REQ_STATE_DONE) then Some (r, - EAGAIN, None) else
  let msg := rq_reply r in
  r ← nn_req_handler (Action NN_REQ_ACTION_RECEIVED) (set_reply (Some (nn_msg_init 0)) r);
  Some (r, 0, msg).

(** [NN_REQ_RESEND_IVL]: any [int]. *)
Definition nn_req_setopt (ivl : Z) (r : nn_req) : nn_req := set_resend_ivl ivl r.

(** The worker calls the timer, and the events that it raises are processed before any
    other call ([nn_ctx_leave]). *)
Fixpoint process_events (es : list timer_event) (r : nn_req) : option nn_req :=
  match es with
  | [] => Some r
  | e :: es =>
      let t := rq_timer r in
      r ← nn_req_handler (FromTimer e)
            (set_timer (Timer (t_fsm t) (t_state t) (t_timeout t) (t_tasks t) (t_armed t) es) r);
      process_events es r
  end.

Definition req_task (r : nn_req) : option nn_req := t ← worker_task (rq_timer r); process_events (t_events t) (set_timer t r).
Definition req_timeout (r : nn_req) : option nn_req := t ← worker_timeout (rq_timer r); process_events (t_events t) (set_timer t r).

End req.
Arguments nn_req : clear implicits.

(** ** Over [xreq.c] *)

(** A bound for the messages that the pipes of a world can give. *)
Class Pending (W : Type) := pending : W → nat.

#[export] Instance xreq_raw {W : Type} `{Pipes W, Pending W} : RawReq (nn_xreq * W) := {
  raw_in p x := q ← nn_xreq_in x.1 p; Some (q, x.2);
  raw_out p x := q ← nn_xreq_out x.1 p; Some (q, x.2);
  raw_rm p x := q ← nn_xreq_rm x.1 p; Some (q, x.2);
  raw_send_to m x := '(q, w, rc, to) ← nn_xreq_send_to x.1 m x.2; Some ((q, w), rc, to);
  raw_recv x := '(q, w, rc, msg) ← nn_xreq_recv x.1 x.2; Some ((q, w), rc, msg);
  raw_pending x := pending x.2
}.
