(* ===== verification/NnReqSpec.v ===== *)
(** * A request is answered by its reply

    The state machine of [NnReq] against what a raw socket promises: no assertion fails
    whatever the order of calls and events, an unanswered request is sent again, and
    what the user receives. *)

From S2P Require Import Prelude NnList NnPrio NnPrioSpec NnMsgQueue NnInproc NnBalance NnCodec NnCodecSpec NnRouting NnReq.
From stdpp Require Import base numbers list gmap.
#[local] Open Scope Z_scope.

(** ** What a raw socket promises *)

(** [raw_env]: what happens to it besides the calls of the state machine. *)
Class RawReqOk (X : Type) `{RawReq X} := {
  raw_ok : X → Prop;
  can_in : Z → X → Prop;
  can_out : Z → X → Prop;
  can_rm : Z → X → Prop;
  can_send : X → Prop;
  raw_env : X → X → Prop;
  raw_in_ok p x : raw_ok x → can_in p x → ∃ x', raw_in p x = Some x' ∧ raw_ok x';
  raw_out_ok p x : raw_ok x → can_out p x → ∃ x', raw_out p x = Some x' ∧ raw_ok x' ∧ can_send x';
  raw_rm_ok p x : raw_ok x → can_rm p x → ∃ x', raw_rm p x = Some x' ∧ raw_ok x';
  raw_send_ok m x : raw_ok x → ∃ x' rc to, raw_send_to m x = Some (x', rc, to) ∧ raw_ok x' ∧
    ((rc = - EAGAIN ∧ ¬ can_send x) ∨ (rc = 0 ∧ is_Some to));
  raw_recv_ok x : raw_ok x → ∃ x' rc msg, raw_recv x = Some (x', rc, msg) ∧ raw_ok x' ∧
    match msg with Stored m => rc = 0 ∧ (raw_pending x' < raw_pending x)%nat | _ => rc = - EAGAIN end;
  raw_env_ok x x' : raw_ok x → raw_env x x' → raw_ok x'
}.

(** ** The timer *)

Definition tm_idle (t : nn_timer) : Prop :=
  t_fsm t = NN_FSM_STATE_IDLE ∧ t_state t = NN_TIMER_STATE_IDLE ∧ t_tasks t = [] ∧ t_armed t = false ∧ t_events t = [].

Definition tm_running (t : nn_timer) : Prop :=
  t_fsm t = NN_FSM_STATE_ACTIVE ∧ t_state t = NN_TIMER_STATE_ACTIVE ∧ t_events t = [] ∧
  ((t_tasks t = [START_TASK] ∧ t_armed t = false ∧ 0 ≤ t_timeout t) ∨ (t_tasks t = [] ∧ t_timeout t = -1)).

Definition tm_stopping (t : nn_timer) : Prop :=
  t_fsm t = NN_FSM_STATE_STOPPING ∧ t_state t = NN_TIMER_STATE_STOPPING ∧ t_events t = [] ∧
  (t_tasks t = [STOP_TASK] ∨ t_tasks t = [START_TASK; STOP_TASK]).

Lemma timer_start_ok t v : tm_idle t → 0 ≤ v → ∃ t', nn_timer_start v t = Some t' ∧ tm_running t'.
Proof.
  intros (H1 & H2 & H3 & H4 & H5) Hv. destruct t as [f s o ts a es]; simplify_eq/=. unfold nn_timer_start. cbn [t_fsm t_events].
  rewrite (proj2 (Z.leb_le 0 v) Hv). cbn. eexists. split; [reflexivity|]. unfold tm_running; cbn. split_and!; [done..|by left].
Qed.

Lemma timer_stop_ok t : tm_running t → ∃ t', nn_timer_stop t = Some t' ∧ tm_stopping t'.
Proof.
  intros (H1 & H2 & H3 & H4). destruct t as [f s o ts a es]; simplify_eq/=. unfold nn_timer_stop, tm_stopping. cbn.
  destruct H4 as [(-> & -> & Ho)|(-> & Ho)]; cbn; (eexists; split; [reflexivity|]); cbn; split_and!; try done; [by right|by left].
Qed.

(** The worker, for each of the states of the timer. *)
Lemma worker_idle t : tm_idle t → worker_task t = Some t ∧ worker_timeout t = Some t.
Proof. intros (H1 & H2 & H3 & H4 & H5). unfold worker_task, worker_timeout. by rewrite H3, H4. Qed.

Lemma worker_running t : tm_running t →
  (∃ t', worker_task t = Some t' ∧ tm_running t') ∧
  ∃ t', worker_timeout t = Some t' ∧
    if t_armed t then t_events t' = [NN_TIMER_TIMEOUT] ∧ tm_running (Timer (t_fsm t') (t_state t') (t_timeout t') (t_tasks t') (t_armed t') [])
    else t' = t.
Proof.
  intros (H1 & H2 & H3 & H4). destruct t as [f s o ts a es]; simplify_eq/=. unfold worker_task, worker_timeout, tm_running.
  destruct H4 as [(-> & -> & Ho)|(-> & ->)]; cbn.
  - rewrite (proj2 (Z.leb_le 0 o) Ho). cbn. split; eexists; (split; [reflexivity|]); [cbn; split_and!; [done..|by right]|done].
  - split; [eexists; split; [reflexivity|]; cbn; split_and!; [done..|by right]|].
    destruct a; cbn; eexists; (split; [reflexivity|]); [|done]. cbn. split_and!; [done..|by right].
Qed.

Lemma worker_stopping t : tm_stopping t →
  (∃ t', worker_timeout t = Some t' ∧ tm_stopping t') ∧
  ∃ t', worker_task t = Some t' ∧
    if decide (t_tasks t = [STOP_TASK])
    then t_events t' = [NN_TIMER_STOPPED] ∧ tm_idle (Timer (t_fsm t') (t_state t') (t_timeout t') (t_tasks t') (t_armed t') [])
    else tm_stopping t' ∧ t_tasks t' = [STOP_TASK].
Proof.
  intros (H1 & H2 & H3 & H4). destruct t as [f s o ts a es]; simplify_eq/=. unfold worker_task, worker_timeout, tm_stopping, tm_idle.
  split; [destruct a; cbn; eexists; (split; [reflexivity|]); done|].
  destruct H4 as [-> | ->]; cbn; eexists; (split; [reflexivity|]); cbn; [done|]. split_and!; [done..|by left|done].
Qed.

(** ** The state machine *)
Section spec.
  Context {X : Type} `{RawReqOk X}.
  Implicit Types r : nn_req X.

(** A message that answers the request with an id, and what is left of it. *)
Definition answers (id : Z) (m : nn_msg) : Prop := length (sphdr m) = 4%nat ∧ nn_getl (sphdr m) = Some (req_word id).
Definition strip (m : nn_msg) : nn_msg := Msg [] (hdrs m) (body m).

Definition resting (s : Z) : Prop := s = NN_REQ_STATE_PASSIVE ∨ s = NN_REQ_STATE_DELAYED ∨ s = NN_REQ_STATE_DONE.
Definition stopping (s : Z) : Prop := s = NN_REQ_STATE_TIMED_OUT ∨ s = NN_REQ_STATE_CANCELLING ∨ s = NN_REQ_STATE_STOPPING_TIMER.

(** The state, the pipe and the timer belong together. *)
Inductive phase_ok : Z → option Z → nn_timer → Prop :=
| phase_resting s t : resting s → tm_idle t → phase_ok s None t
| phase_active p t : tm_running t → phase_ok NN_REQ_STATE_ACTIVE (Some p) t
| phase_stopping s t : stopping s → tm_stopping t → phase_ok s None t.

Record req_inv r : Prop := {
  inv_raw : raw_ok (rq_xreq r);
  inv_ivl : 0 ≤ rq_resend_ivl r;
  inv_phase : phase_ok (rq_state r) (rq_sent_to r) (rq_timer r)
}.

(** What no step but sending a new request changes. *)
Definition same_request r r' : Prop :=
  rq_id r' = rq_id r ∧ rq_request r' = rq_request r ∧ rq_resend_ivl r' = rq_resend_ivl r.

Lemma req_send_ok r b : req_inv r → tm_idle (rq_timer r) → rq_sent_to r = None → (b = false → can_send (rq_xreq r)) →
  ∃ r' x rc to, nn_req_action_send b r = Some r' ∧ req_inv r' ∧ same_request r r' ∧ rq_reply r' = rq_reply r ∧
    raw_send_to (rq_request r) (rq_xreq r) = Some (x, rc, to) ∧
    ((rq_state r' = NN_REQ_STATE_ACTIVE ∧ rc = 0 ∧ rq_sent_to r' = to) ∨
     (rq_state r' = NN_REQ_STATE_DELAYED ∧ rc = - EAGAIN ∧ ¬ can_send (rq_xreq r))).
Proof.
  intros [Hraw Hivl _] Ht Hs Hb. unfold nn_req_action_send, same_request.
  destruct (raw_send_ok (rq_request r) _ Hraw) as (x & rc & to & E & Hx & [(-> & Hn)|(-> & [p ->])]); rewrite E; cbn.
  - destruct b; [|by destruct Hn; apply Hb]. cbn. eexists _, x, (- EAGAIN), to. split; [reflexivity|]. cbn. split_and!; try done; [|by right].
    split; cbn; [done..|]. rewrite Hs. constructor; [by right; left|done].
  - destruct (timer_start_ok _ _ Ht Hivl) as (t & -> & Ht'). cbn. eexists _, x, 0, (Some p). split; [reflexivity|]. cbn.
    split_and!; try done; [|by left]. split; cbn; [done..|]. by constructor.
Qed.

Lemma stop_waiting_ok r s : req_inv r → rq_state r = NN_REQ_STATE_ACTIVE → stopping s →
  ∃ r', stop_waiting s r = Some r' ∧ req_inv r' ∧ same_request r r' ∧ rq_reply r' = rq_reply r ∧ rq_state r' = s.
Proof.
  intros [Hraw Hivl Hp] Hst Hs. unfold stop_waiting, same_request. rewrite Hst in Hp.
  inversion Hp as [? t [?|[?|?]] |p t Ht|? t [?|[?|?]]]; try done.
  destruct (timer_stop_ok _ Ht) as (t' & -> & Ht'). cbn. eexists. split; [reflexivity|]. cbn. split_and!; try done.
  split; cbn; [done..|]. by apply phase_stopping.
Qed.

Lemma stopping_state r s : req_inv r → stopping (rq_state r) → stopping s → req_inv (set_rstate s r).
Proof.
  intros [Hraw Hivl Hp] Hr Hs. split; cbn; [done..|].
  inversion Hp as [? t Ht ? Es Et|p t ? Es|? t ? Ht]; [..|by apply phase_stopping].
  - exfalso. destruct Ht as [E|[E|E]], Hr as [E'|[E'|E']]; rewrite E in E'; done.
  - exfalso. rewrite <-Es in Hr. by destruct Hr as [E|[E|E]].
Qed.

Lemma resting_timer r : req_inv r → resting (rq_state r) → tm_idle (rq_timer r) ∧ rq_sent_to r = None.
Proof.
  intros [_ _ Hp] Hr. inversion Hp as [? t ? Ht|p t ? Es|? t Hs]; [done|..]; exfalso.
  - rewrite <-Es in Hr. by destruct Hr as [E|[E|E]].
  - destruct Hs as [E|[E|E]], Hr as [E'|[E'|E']]; rewrite E in E'; done.
Qed.

(** The state is one of seven. *)
Lemma phase_states s p t : phase_ok s p t → resting s ∨ s = NN_REQ_STATE_ACTIVE ∨ stopping s.
Proof. intros []; tauto. Qed.

(** A new request. *)
Lemma req_sent_ok r : req_inv r →
  ∃ r', nn_req_handler (Action NN_REQ_ACTION_SENT) r = Some r' ∧ req_inv r' ∧ same_request r r' ∧
    (rq_state r' = NN_REQ_STATE_ACTIVE ∨ rq_state r' = NN_REQ_STATE_DELAYED ∨ rq_state r' = NN_REQ_STATE_CANCELLING).
Proof.
  intros Hi. destruct (phase_states _ _ _ (inv_phase _ Hi)) as [Hr|[Ha|Hs]].
  - destruct (resting_timer r Hi Hr) as [Ht Hto].
    destruct (req_send_ok r true Hi Ht Hto) as (r' & x & rc & to & E & Hi' & Hsame & _ & _ & Hst); [done|].
    destruct Hr as [Es|[Es|Es]]; unfold nn_req_handler; rewrite Es; cbn; [rewrite E|..|rewrite E].
    + exists r'. split_and!; [done..|]. tauto.
    + exists r. split_and!; [done..|tauto].
    + exists r'. split_and!; [done..|]. tauto.
  - unfold nn_req_handler. rewrite Ha. cbn. destruct (stop_waiting_ok r NN_REQ_STATE_CANCELLING Hi Ha) as (r' & E & Hi' & Hsame & _ & Es);
      [by right; left|]. exists r'. split_and!; [done..|tauto].
  - assert (req_inv (set_rstate NN_REQ_STATE_CANCELLING r)) as Hc by (apply stopping_state; [done..|by right; left]).
    destruct Hs as [Es|[Es|Es]]; unfold nn_req_handler; rewrite Es; cbn; [exists (set_rstate NN_REQ_STATE_CANCELLING r)|exists r|exists (set_rstate NN_REQ_STATE_CANCELLING r)];
      (split; [done|]; split; [done|]; split; [done|]; cbn; tauto).
Qed.

(** ** The events *)

Lemma inv_set_xreq r x : req_inv r → raw_ok x → req_inv (set_xreq x r).
Proof. intros [_ ? ?] ?. by split. Qed.

Lemma inv_set_reply r m : req_inv r → req_inv (set_reply m r).
Proof. intros [? ? ?]. by split. Qed.

Lemma req_word_bit id : (Z.land (req_word id) 0x80000000 =? 0) = false.
Proof.
  apply Z.eqb_neq. intros E. assert (Z.testbit (Z.land (req_word id) 0x80000000) 31 = false) as Hb by (rewrite E; apply Z.testbit_0_l).
  unfold req_word in Hb. rewrite Z.land_spec, Z.lor_spec in Hb. change (Z.testbit 0x80000000 31) with true in Hb.
  by rewrite orb_true_r in Hb.
Qed.

(** What the loop of [nn_req_in] leaves: nothing came; or nothing of what came was
    accepted; or the last that came was. *)
Inductive in_result (r : nn_req X) : nn_req X → list (option nn_msg) → Prop :=
| in_nothing r' : rq_state r' = rq_state r → rq_reply r' = rq_reply r → in_result r r' []
| in_ignored r' came : came ≠ [] → rq_state r' = rq_state r → rq_reply r' = None → in_result r r' came
| in_accepted r' came g : answers (rq_id r) g → rq_reply r' = Some (strip g) → nn_req_inprogress r = true →
    rq_state r' = (if rq_state r =? NN_REQ_STATE_ACTIVE then NN_REQ_STATE_STOPPING_TIMER else rq_state r) →
    in_result r r' (came ++ [Some g]).

Lemma in_result_ignored r r1 r' m came :
  rq_state r1 = rq_state r → rq_id r1 = rq_id r → rq_reply r1 = None → in_result r1 r' came → in_result r r' (m :: came).
Proof.
  intros Hs Hid Hr1 Hres. inversion Hres as [? Hs' Hr'|? ? Hne Hs' Hr'|? pre g Hg Hr' Hp Hs']; subst.
  - apply in_ignored; [done|congruence|by rewrite Hr'].
  - apply in_ignored; [done|congruence|congruence].
  - apply (in_accepted r r' (m :: pre) g); [by rewrite <-Hid|done| |by rewrite <-Hs].
    revert Hp. unfold nn_req_inprogress. by rewrite Hs.
Qed.

Lemma req_in_loop_ok fuel r : req_inv r → (raw_pending (rq_xreq r) < fuel)%nat →
  ∃ r' came, req_in_loop fuel r = Some (r', came) ∧ req_inv r' ∧ same_request r r' ∧ in_result r r' came.
Proof.
  revert r. induction fuel as [|fuel IH]; intros r Hi Hf; [lia|]. cbn [req_in_loop].
  destruct (raw_recv_ok _ (inv_raw _ Hi)) as (x & rc & msg & -> & Hx & Hm). cbn [mbind option_bind].
  pose proof (inv_set_xreq r x Hi Hx) as Hi1. destruct msg as [| |m]; cbn [mbind option_bind nn_assert].
  - rewrite Hm. cbn. eexists _, []. split; [reflexivity|]. split_and!; [done..|]. by apply in_nothing.
  - rewrite Hm. cbn. eexists _, [None]. split; [reflexivity|]. split_and!; [by apply inv_set_reply|done|]. by apply in_ignored.
  - destruct Hm as [-> Hlt]. cbn [nn_assert Z.eqb mbind option_bind].
    match goal with |- context [if negb (nn_req_inprogress _) then ?ig else _] => set (ignored := ig) end.
    assert (∃ r' came, ignored = Some (r', came) ∧ req_inv r' ∧ same_request r r' ∧ in_result r r' came) as Hign.
    { destruct (IH (set_reply None (set_xreq x r))) as (r' & came & E & Hi' & Hsame & Hres);
        [by apply inv_set_reply|cbn; lia|]. exists r', (Some m :: came). subst ignored. rewrite E. cbn. split_and!; [done..|].
      by apply (in_result_ignored _ (set_reply None (set_xreq x r))). }
    clearbody ignored. destruct (nn_req_inprogress (set_xreq x r)) eqn:Hprog; [|done]. cbn [negb].
    destruct (length (sphdr m) =? 4)%nat eqn:Hl; [|done]. cbn [negb]. apply Nat.eqb_eq in Hl.
    destruct (nn_getl (sphdr m)) as [reqid|] eqn:Hg; cbn [mbind option_bind].
    2: { by destruct (sphdr m) as [|? [|? [|? [|? ?]]]]. }
    destruct (Z.land reqid 0x80000000 =? 0) eqn:Hbit; [done|].
    destruct (reqid =? req_word (rq_id (set_xreq x r))) eqn:Hid; [|done]. cbn [negb].
    apply Z.eqb_eq in Hid as ->. clear Hbit.
    set (r1 := set_reply (Some (Msg [] (hdrs m) (body m))) (set_xreq x r)).
    assert (req_inv r1) as Hi2 by by apply inv_set_reply.
    assert (∃ r', (if rq_state r1 =? NN_REQ_STATE_ACTIVE then nn_req_handler (Action NN_REQ_ACTION_IN) r1 else Some r1) = Some r' ∧
      req_inv r' ∧ same_request r r' ∧ rq_reply r' = Some (strip m) ∧
      rq_state r' = (if rq_state r =? NN_REQ_STATE_ACTIVE then NN_REQ_STATE_STOPPING_TIMER else rq_state r)) as (r' & E & Hi' & Hsame & Hrep & Hst).
    { change (rq_state r1) with (rq_state r). destruct (Z.eqb_spec (rq_state r) NN_REQ_STATE_ACTIVE) as [Ha|Ha].
      - unfold nn_req_handler. change (rq_state r1) with (rq_state r). rewrite Ha. cbn [Z.eqb].
        destruct (stop_waiting_ok r1 NN_REQ_STATE_STOPPING_TIMER Hi2 Ha) as (r' & E & Hi' & Hsame & Hrep & Hs); [by right; right|].
        exists r'. split_and!; done.
      - exists r1. split_and!; done. }
    rewrite E. cbn. eexists r', [Some m]. split_and!; [done..|]. by apply (in_accepted r r' [] m).
Qed.

Lemma req_out_ok p r : req_inv r → can_out p (rq_xreq r) →
  ∃ r', nn_req_out p r = Some r' ∧ req_inv r' ∧ same_request r r' ∧ rq_reply r' = rq_reply r ∧
    (if decide (rq_state r = NN_REQ_STATE_DELAYED) then
       rq_state r' = NN_REQ_STATE_ACTIVE ∧
       ∃ x0 x, raw_out p (rq_xreq r) = Some x0 ∧ raw_send_to (rq_request r) x0 = Some (x, 0, rq_sent_to r')
     else rq_state r' = rq_state r).
Proof.
  intros Hi Ho. unfold nn_req_out. destruct (raw_out_ok _ _ (inv_raw _ Hi) Ho) as (x & Ex & Hx & Hsend). rewrite Ex. cbn [mbind option_bind].
  pose proof (inv_set_xreq r x Hi Hx) as Hi1. destruct (Z.eqb_spec (rq_state (set_xreq x r)) NN_REQ_STATE_DELAYED) as [Hd|Hd]; cbn in Hd.
  - destruct (decide (rq_state r = NN_REQ_STATE_DELAYED)); [|done]. unfold nn_req_handler. cbn [rq_state set_xreq]. rewrite Hd. cbn [Z.eqb].
    destruct (resting_timer _ Hi1) as [Ht Hto]; [by right; left|].
    destruct (req_send_ok (set_xreq x r) false Hi1 Ht Hto) as (r' & x' & rc & to & E & Hi' & Hsame & Hrep & Er & Hst); [done|].
    rewrite E. exists r'. split; [done|]. split; [done|]. split; [done|]. split; [done|].
    destruct Hst as [(Hst & -> & <-)|(_ & _ & [])]; [|done]. split; [done|]. by exists x, x'.
  - destruct (decide (rq_state r = NN_REQ_STATE_DELAYED)); [done|]. by exists (set_xreq x r).
Qed.

Lemma req_rm_ok p r : req_inv r → can_rm p (rq_xreq r) →
  ∃ r', nn_req_rm p r = Some r' ∧ req_inv r' ∧ same_request r r' ∧ rq_reply r' = rq_reply r ∧
    rq_state r' = if decide (rq_sent_to r = Some p) then NN_REQ_STATE_TIMED_OUT else rq_state r.
Proof.
  intros Hi Ho. unfold nn_req_rm. destruct (raw_rm_ok _ _ (inv_raw _ Hi) Ho) as (x & -> & Hx). cbn [mbind option_bind].
  pose proof (inv_set_xreq r x Hi Hx) as Hi1. case_bool_decide as Hpb; cbn in Hpb.
  2: { rewrite decide_False by done. by exists (set_xreq x r). }
  rewrite decide_True by done. rename Hpb into Hp.
  assert (rq_state r = NN_REQ_STATE_ACTIVE) as Ha by (destruct Hi as [_ _ Hph]; rewrite Hp in Hph; by inversion Hph).
  unfold nn_req_handler. cbn [rq_state set_xreq]. rewrite Ha. cbn [Z.eqb].
  destruct (stop_waiting_ok (set_xreq x r) NN_REQ_STATE_TIMED_OUT Hi1 Ha) as (r' & E & Hi' & Hsame & Hrep & Hst); [by left|].
  by exists r'.
Qed.

(** When the last task of a stopping timer was executed, the request is sent again, or
    the reply is ready. *)
Definition resumed r r' : Prop :=
  if rq_state r =? NN_REQ_STATE_STOPPING_TIMER then rq_state r' = NN_REQ_STATE_DONE
  else ∃ x rc to, raw_send_to (rq_request r) (rq_xreq r) = Some (x, rc, to) ∧
    ((rq_state r' = NN_REQ_STATE_ACTIVE ∧ rc = 0 ∧ rq_sent_to r' = to) ∨
     (rq_state r' = NN_REQ_STATE_DELAYED ∧ rc = - EAGAIN ∧ ¬ can_send (rq_xreq r))).

Lemma set_timer_same r : set_timer (rq_timer r) r = r.
Proof. by destruct r. Qed.

Lemma req_task_ok r : req_inv r →
  ∃ r', req_task r = Some r' ∧ req_inv r' ∧ same_request r r' ∧ rq_reply r' = rq_reply r ∧
    ((rq_state r' = rq_state r ∧ (stopping (rq_state r) → t_tasks (rq_timer r') = [STOP_TASK] ∧ rq_xreq r' = rq_xreq r ∧
        t_tasks (rq_timer r) = [START_TASK; STOP_TASK])) ∨
     (stopping (rq_state r) ∧ t_tasks (rq_timer r) = [STOP_TASK] ∧ resumed r r')).
Proof.
  intros Hi. pose proof Hi as [Hraw Hivl Hp]. unfold req_task, resumed.
  inversion Hp as [s t Hs Ht Es Et|p t Ht Es Et|s t Hs Ht Es Et]; rewrite <-?Es in *.
  - destruct (worker_idle _ Ht) as [-> _]. cbn [mbind option_bind]. destruct Ht as (? & ? & ? & ? & He). rewrite He. cbn.
    rewrite set_timer_same. exists r. split_and!; [done|done|done|done|]. left. split; [by rewrite <-Es|].
    intros Hst. exfalso. destruct Hs as [E|[E|E]], Hst as [E'|[E'|E']]; rewrite E in E'; done.
  - destruct (worker_running _ Ht) as [(t' & -> & Ht') _]. cbn [mbind option_bind]. pose proof Ht' as (_ & _ & He & _). rewrite He. cbn.
    eexists. split; [reflexivity|]. split_and!; try done.
    + split; cbn; [done..|]. rewrite <-Es, <-Et. by constructor.
    + left. split; [done|]. intros Hst. by destruct Hst as [E'|[E'|E']].
  - destruct (worker_stopping _ Ht) as [_ (t' & -> & Ht')]. cbn [mbind option_bind].
    destruct (decide (t_tasks (rq_timer r) = [STOP_TASK])) as [Hlast|Hlast].
    + destruct Ht' as [He Ht']. rewrite He. cbn [process_events rq_timer set_timer].
      match goal with |- context [nn_req_handler _ ?rr] => set (r1 := rr) end.
      assert (req_inv (set_rstate NN_REQ_STATE_DONE r1)) as Hi1.
      { split; cbn; [done..|]. rewrite <-Et. apply phase_resting; [by right; right|done]. }
      destruct Hs as [E|[E|E]]; rewrite E in Es |- *.
      1, 2: assert (∃ r', nn_req_action_send true r1 = Some r' ∧ req_inv r' ∧ same_request r r' ∧ rq_reply r' = rq_reply r ∧
           ∃ x rc to, raw_send_to (rq_request r) (rq_xreq r) = Some (x, rc, to) ∧
             ((rq_state r' = NN_REQ_STATE_ACTIVE ∧ rc = 0 ∧ rq_sent_to r' = to) ∨
              (rq_state r' = NN_REQ_STATE_DELAYED ∧ rc = - EAGAIN ∧ ¬ can_send (rq_xreq r)))) as (r' & E1 & Hi' & Hsame & Hrep & Hx);
        [ destruct (req_send_ok (set_rstate NN_REQ_STATE_DONE r1) true Hi1) as (r' & x & rc & to & E1 & ? & ? & ? & ? & ?); [done..|];
          exists r'; split_and!; [done..|by exists x, rc, to] |].
      1, 2: unfold nn_req_handler; cbn [rq_state r1 set_timer]; rewrite <-Es; cbn [Z.eqb]; rewrite E1; cbn [mbind option_bind];
        exists r'; split_and!; [done..|right; split; [unfold stopping; tauto|done]].
      unfold nn_req_handler. cbn [rq_state r1 set_timer]. rewrite <-Es. cbn [Z.eqb mbind option_bind].
      eexists. split; [reflexivity|]. split_and!; [done..|]. right. split; [unfold stopping; tauto|done].
    + destruct Ht' as [Ht' Htask]. pose proof Ht' as (_ & _ & He & _). rewrite He. cbn.
      eexists. split; [reflexivity|]. split_and!; try done.
      * split; cbn; [done..|]. rewrite <-Es, <-Et. by apply phase_stopping.
      * left. split; [done|]. intros _. destruct Ht as (_ & _ & _ & [?|?]); [done|]. done.
Qed.

Lemma req_timeout_ok r : req_inv r →
  ∃ r', req_timeout r = Some r' ∧ req_inv r' ∧ same_request r r' ∧ rq_reply r' = rq_reply r ∧
    rq_state r' = if decide (rq_state r = NN_REQ_STATE_ACTIVE) then if t_armed (rq_timer r) then NN_REQ_STATE_TIMED_OUT else NN_REQ_STATE_ACTIVE
                  else rq_state r.
Proof.
  intros Hi. pose proof Hi as [Hraw Hivl Hp]. unfold req_timeout.
  inversion Hp as [s t Hs Ht Es Et|p t Ht Es Et|s t Hs Ht Es Et]; rewrite <-?Es in *.
  - destruct (worker_idle _ Ht) as [_ ->]. cbn [mbind option_bind]. destruct Ht as (? & ? & ? & ? & He). rewrite He. cbn.
    rewrite set_timer_same. exists r. split_and!; [done|done|done|done|]. rewrite decide_False; [by rewrite <-Es|].
    intros E. destruct Hs as [E'|[E'|E']]; rewrite E' in E; done.
  - rewrite decide_True by done. destruct (worker_running _ Ht) as [_ (t' & -> & Ht')]. cbn [mbind option_bind]. destruct (t_armed (rq_timer r)) eqn:Ha.
    + destruct Ht' as [He Ht']. rewrite He. cbn [process_events rq_timer set_timer].
      match goal with |- context [nn_req_handler _ ?rr] => set (r1 := rr) end.
      assert (req_inv r1) as Hi1 by (split; cbn; [done..|]; rewrite <-Es, <-Et; by constructor).
      destruct (stop_waiting_ok r1 NN_REQ_STATE_TIMED_OUT Hi1) as (r' & E & Hi' & Hsame & Hrep & Hst); [done|by left|].
      unfold nn_req_handler. cbn [rq_state r1 set_timer]. rewrite <-Es. cbn [Z.eqb]. rewrite E. cbn [mbind option_bind].
      exists r'. done.
    + subst t'. pose proof Ht as (_ & _ & He & _). rewrite He. cbn. rewrite set_timer_same. exists r. split_and!; [done|done|done|done|done].
  - destruct (worker_stopping _ Ht) as [(t' & -> & Ht') _]. cbn [mbind option_bind]. pose proof Ht' as (_ & _ & He & _). rewrite He. cbn.
    eexists. split; [reflexivity|]. split_and!; try done.
    + split; cbn; [done..|]. rewrite <-Es, <-Et. by apply phase_stopping.
    + rewrite decide_False; [done|]. intros E. destruct Hs as [E'|[E'|E']]; rewrite E' in E; done.
Qed.

(** ** Runs *)

(** What a step tells: the user sent a request, or messages came; nothing of interest. *)
Inductive req_event := ESent | ECame (came : list (option nn_msg)) | EOther.

(** One call of the user or of a pipe, one turn of the worker, or something that
    happens to the raw socket. *)
Inductive req_step : nn_req X → req_event → nn_req X → Prop :=
| step_send m r r' rc : sphdr m = [] → nn_req_csend m r = Some (r', rc) → req_step r ESent r'
| step_recv r r' rc m : nn_req_crecv r = Some (r', rc, m) → req_step r EOther r'
| step_in p r r' came : can_in p (rq_xreq r) → nn_req_in p r = Some (r', came) → req_step r (ECame came) r'
| step_out p r r' : can_out p (rq_xreq r) → nn_req_out p r = Some r' → req_step r EOther r'
| step_rm p r r' : can_rm p (rq_xreq r) → nn_req_rm p r = Some r' → req_step r EOther r'
| step_task r r' : req_task r = Some r' → req_step r EOther r'
| step_timeout r r' : req_timeout r = Some r' → req_step r EOther r'
| step_setopt v r : 0 ≤ v → req_step r EOther (nn_req_setopt v r)
| step_env x r : raw_env (rq_xreq r) x → req_step r EOther (set_xreq x r).

Inductive req_run (r0 : nn_req X) : list req_event → nn_req X → Prop :=
| run_nil : req_run r0 [] r0
| run_snoc tr r e r' : req_run r0 tr r → req_step r e r' → req_run r0 (tr ++ [e]) r'.

(** The number of requests, and what came since the last one. *)
Definition sends (tr : list req_event) : Z := foldl (λ n e, match e with ESent => n + 1 | _ => n end) 0 tr.
Definition arrived (tr : list req_event) : list (option nn_msg) :=
  foldl (λ a e, match e with ESent => [] | ECame came => a ++ came | EOther => a end) [] tr.

(** The reply that is stored, when [a] came since the request. *)
Definition replied (id : Z) (reply : option nn_msg) (a : list (option nn_msg)) : Prop :=
  (∃ a1 g a2, a = a1 ++ Some g :: a2 ∧ answers id g ∧ (a2 = [] → reply = Some (strip g))) ∧
  ∀ m, reply = Some m → ∃ g, Some g ∈ a ∧ answers id g ∧ m = strip g.

Definition answered (s : Z) : Prop := s = NN_REQ_STATE_STOPPING_TIMER ∨ s = NN_REQ_STATE_DONE.

Lemma replied_in r r' came a : in_result r r' came →
  (answered (rq_state r) → replied (rq_id r) (rq_reply r) a) → answered (rq_state r') → replied (rq_id r) (rq_reply r') (a ++ came).
Proof.
  intros Hres Ha Hs'. destruct Hres as [r' Hs Hr|r' came Hne Hs Hr|r' came g Hg Hr Hp Hs].
  - rewrite app_nil_r, Hr. apply Ha. by rewrite <-Hs.
  - rewrite Hs in Hs'. destruct (Ha Hs') as [(a1 & g & a2 & -> & Hg & _) _]. rewrite Hr. split; [|done].
    exists a1, g, (a2 ++ came). split; [by rewrite <-app_assoc|]. split; [done|]. by intros [_ ->]%app_eq_nil.
  - rewrite Hr. split; [|intros m [= <-]; exists g; split; [set_solver|done]].
    exists (a ++ came), g, []. by rewrite app_assoc.
Qed.

(** The invariant of a run. *)
Record run_inv (lastid : Z) (tr : list req_event) r : Prop := {
  ri_inv : req_inv r;
  ri_id : rq_id r = uint32 (lastid + sends tr);
  ri_reply : answered (rq_state r) → replied (rq_id r) (rq_reply r) (arrived tr)
}.

Lemma sends_snoc tr e : sends (tr ++ [e]) = match e with ESent => sends tr + 1 | _ => sends tr end.
Proof. unfold sends. by rewrite foldl_app. Qed.

Lemma arrived_snoc tr e : arrived (tr ++ [e]) = match e with ESent => [] | ECame came => arrived tr ++ came | EOther => arrived tr end.
Proof. unfold arrived. by rewrite foldl_app. Qed.

(** A step that neither sends a request nor lets something come keeps the invariant
    when it keeps the reply and does not come to be answered. *)
Lemma run_other lastid tr r r' : run_inv lastid tr r → req_inv r' → rq_id r' = rq_id r → rq_reply r' = rq_reply r →
  (answered (rq_state r') → answered (rq_state r)) → run_inv lastid (tr ++ [EOther]) r'.
Proof.
  intros [_ Hid Ha] Hi' Hid' Hr Hs. split; [done|by rewrite sends_snoc, Hid', Hid|].
  rewrite arrived_snoc, Hid', Hr. auto.
Qed.

Lemma csend_ok m r : req_inv r → sphdr m = [] →
  ∃ r', nn_req_csend m r = Some (r', 0) ∧ req_inv r' ∧ rq_id r' = uint32 (rq_id r + 1) ∧
    rq_request r' = Msg (nn_putl (req_word (rq_id r'))) (hdrs m) (body m) ∧ ¬ answered (rq_state r').
Proof.
  intros Hi Hm. unfold nn_req_csend. rewrite Hm. cbn [length nn_assert Nat.eqb mbind option_bind].
  match goal with |- context [nn_req_handler _ ?rr] => set (r1 := rr) end.
  assert (req_inv r1) as Hi1 by (destruct Hi; by split).
  destruct (req_sent_ok r1 Hi1) as (r' & -> & Hi' & (Hid & Hrq & _) & Hs). cbn [mbind option_bind].
  exists r'. split_and!; [done..|by rewrite Hrq, Hid|]. unfold answered. destruct Hs as [Hs|[Hs|Hs]]; rewrite Hs; intros [?|?]; done.
Qed.

Lemma crecv_ok r : req_inv r →
  ∃ r' rc m, nn_req_crecv r = Some (r', rc, m) ∧ req_inv r' ∧ rq_id r' = rq_id r ∧
    (rc = 0 → rq_state r = NN_REQ_STATE_DONE ∧ m = rq_reply r) ∧
    (rq_reply r' = rq_reply r ∧ rq_state r' = rq_state r ∨ ¬ answered (rq_state r')).
Proof.
  intros Hi. unfold nn_req_crecv. destruct (nn_req_inprogress r) eqn:Hp; cbn [negb]; [|by eexists _, _, _; split_and!; [done..|by left]].
  destruct (Z.eqb_spec (rq_state r) NN_REQ_STATE_DONE) as [Hd|Hd]; cbn [negb]; [|by eexists _, _, _; split_and!; [done..|by left]].
  destruct (resting_timer r Hi) as [Ht Hto]; [by right; right|].
  unfold nn_req_handler. cbn [rq_state set_reply]. rewrite Hd. cbn [Z.eqb mbind option_bind].
  eexists _, _, _. split; [reflexivity|]. cbn. split_and!; [|done|done|right; by intros [?|?]].
  destruct Hi. split; cbn; [done..|]. rewrite Hto. apply phase_resting; [by left|done].
Qed.

Lemma nn_req_in_ok p r : req_inv r → can_in p (rq_xreq r) →
  ∃ r' came, nn_req_in p r = Some (r', came) ∧ req_inv r' ∧ same_request r r' ∧ in_result r r' came.
Proof.
  intros Hi Hp. unfold nn_req_in. destruct (raw_in_ok _ _ (inv_raw _ Hi) Hp) as (x & -> & Hx). cbn [mbind option_bind].
  destruct (req_in_loop_ok (S (raw_pending x)) (set_xreq x r)) as (r' & came & E & Hi' & Hsame & Hres);
    [by apply inv_set_xreq|cbn; lia|]. exists r', came. split_and!; [done..|].
  inversion Hres; [by apply in_nothing|by apply in_ignored|by apply in_accepted].
Qed.

Lemma run_step lastid tr r e r' : run_inv lastid tr r → req_step r e r' → run_inv lastid (tr ++ [e]) r'.
Proof.
  intros Hri Hst. pose proof Hri as [Hi Hid Ha]. destruct Hst.
  - destruct (csend_ok m r Hi) as (r1 & E & Hi1 & Hid1 & _ & Hn); [done|]. simplify_eq.
    split; [done| |done]. rewrite sends_snoc, Hid1, Hid. unfold uint32. rewrite Zplus_mod_idemp_l. f_equal. lia.
  - destruct (crecv_ok r Hi) as (r1 & rc1 & m1 & E & Hi1 & Hid1 & _ & Hs). simplify_eq.
    destruct Hs as [[Hr Hs]|Hs].
    + apply (run_other lastid tr r); [done..|by rewrite Hs].
    + split; [done|by rewrite sends_snoc, Hid1, Hid|done].
  - destruct (nn_req_in_ok p r Hi) as (r1 & came1 & E & Hi1 & (Hid1 & _) & Hres); [done|]. simplify_eq.
    split; [done|by rewrite sends_snoc, Hid1, Hid|]. rewrite arrived_snoc, Hid1. by apply replied_in.
  - destruct (req_out_ok p r Hi) as (r1 & E & Hi1 & (Hid1 & _) & Hr & Hs); [done|]. simplify_eq.
    apply (run_other lastid tr r); [done..|]. destruct (decide _); [destruct Hs as [-> _]; by intros [?|?]|by rewrite Hs].
  - destruct (req_rm_ok p r Hi) as (r1 & E & Hi1 & (Hid1 & _) & Hr & Hs); [done|]. simplify_eq.
    apply (run_other lastid tr r); [done..|]. rewrite Hs. destruct (decide _); [by intros [?|?]|done].
  - destruct (req_task_ok r Hi) as (r1 & E & Hi1 & (Hid1 & _) & Hr & Hs). simplify_eq.
    apply (run_other lastid tr r); [done..|]. destruct Hs as [[-> _]|(Hst & _ & Hs)]; [done|]. unfold resumed in Hs.
    destruct (Z.eqb_spec (rq_state r) NN_REQ_STATE_STOPPING_TIMER) as [E2|E2]; [by left|].
    destruct Hs as (? & ? & ? & _ & [(-> & _)|(-> & _)]); by intros [?|?].
  - destruct (req_timeout_ok r Hi) as (r1 & E & Hi1 & (Hid1 & _) & Hr & Hs). simplify_eq.
    apply (run_other lastid tr r); [done..|]. rewrite Hs. destruct (decide _); [destruct (t_armed _); by intros [?|?]|done].
  - apply (run_other lastid tr r); [done| |done..]. destruct Hi as [HA HB HC]. by split.
  - apply (run_other lastid tr r); [done| |done..]. apply inv_set_xreq; [done|]. destruct Hi as [HA HB HC]. by eapply raw_env_ok.
Qed.

Lemma req_init_ok x lastid r : raw_ok x → 0 ≤ lastid < 2 ^ 32 → nn_req_init x lastid = Some r → run_inv lastid [] r.
Proof.
  intros Hx Hid [= <-]. split; cbn.
  - split; cbn; [done..|]. apply phase_resting; [by left|done].
  - unfold uint32. rewrite Z.mod_small; lia.
  - by intros [?|?].
Qed.

Lemma req_run_ok x lastid r0 tr r : raw_ok x → 0 ≤ lastid < 2 ^ 32 → nn_req_init x lastid = Some r0 → req_run r0 tr r → run_inv lastid tr r.
Proof. intros Hx Hid Hr0 Hr. induction Hr; [by eapply req_init_ok|by eapply run_step]. Qed.

(** ** The theorems *)

(** C26. A user who sends messages without a header of their own and never asks for a
    negative resend interval (with one the next request fails, [negative_interval]), and
    pipes that keep the promises of [RawReqOk]: whatever they and the worker have done to
    a requester, in whatever order, the next thing that any of them does fails no
    assertion, meets no event that its state does not expect and comes to an end. *)
Theorem req_safe x lastid r0 tr r (Hx : raw_ok x) (Hid : 0 ≤ lastid < 2 ^ 32)
  (Hinit : nn_req_init x lastid = Some r0) (Hrun : req_run r0 tr r) :
  (∀ m, sphdr m = [] → ∃ r', nn_req_csend m r = Some (r', 0)) ∧
  is_Some (nn_req_crecv r) ∧
  (∀ p, can_in p (rq_xreq r) → is_Some (nn_req_in p r)) ∧
  (∀ p, can_out p (rq_xreq r) → is_Some (nn_req_out p r)) ∧
  (∀ p, can_rm p (rq_xreq r) → is_Some (nn_req_rm p r)) ∧
  is_Some (req_task r) ∧ is_Some (req_timeout r).
Proof.
  destruct (req_run_ok x lastid r0 tr r) as [Hi _ _]; [done..|]. split_and!.
  - intros m Hm. destruct (csend_ok m r Hi Hm) as (r' & -> & _). by exists r'.
  - destruct (crecv_ok r Hi) as (? & ? & ? & -> & _). done.
  - intros p Hp. destruct (nn_req_in_ok p r Hi Hp) as (? & ? & -> & _). done.
  - intros p Hp. destruct (req_out_ok p r Hi Hp) as (? & -> & _). done.
  - intros p Hp. destruct (req_rm_ok p r Hi Hp) as (? & -> & _). done.
  - destruct (req_task_ok r Hi) as (? & -> & _). done.
  - destruct (req_timeout_ok r Hi) as (? & -> & _). done.
Qed.

(** C27. A receive succeeds only when, since the last request of the user, a message came
    with the word of this request; when nothing came after it, its rest is what the user
    gets; and what the user gets, if it is a message at all, is the rest of such a
    message. *)
Theorem req_reply x lastid r0 tr r r' m (Hx : raw_ok x) (Hid : 0 ≤ lastid < 2 ^ 32)
  (Hinit : nn_req_init x lastid = Some r0) (Hrun : req_run r0 tr r) (Hrecv : nn_req_crecv r = Some (r', 0, m)) :
  replied (uint32 (lastid + sends tr)) m (arrived tr).
Proof.
  destruct (req_run_ok x lastid r0 tr r) as [Hi Hrid Ha]; [done..|].
  destruct (crecv_ok r Hi) as (r1 & rc & m1 & E & _ & _ & H1 & _). rewrite Hrecv in E. injection E as <- <- <-.
  destruct H1 as [Hs ->]; [done|]. rewrite <-Hrid. apply Ha. by right.
Qed.

(** The worker executes what it was given. *)
Definition req_tasks (n : nat) r : option (nn_req X) := Nat.iter n (λ o, o ≫= req_task) (Some r).

(** C28. A request is not forgotten.  When the pipe that it was sent to goes, or its time
    is over, the worker has at most two tasks until it is sent again, the same request,
    to the pipe that the raw socket chooses (which may be the one it was sent to before),
    or waits for one as no pipe is writable; and when it waits and a pipe becomes
    writable, it is sent at once.  This is for the runs of C26. *)
Theorem req_resends x lastid r0 tr r (Hx : raw_ok x) (Hid : 0 ≤ lastid < 2 ^ 32)
  (Hinit : nn_req_init x lastid = Some r0) (Hrun : req_run r0 tr r) :
  (rq_state r = NN_REQ_STATE_ACTIVE → t_armed (rq_timer r) = true →
    ∃ r', req_timeout r = Some r' ∧ rq_state r' = NN_REQ_STATE_TIMED_OUT ∧ rq_request r' = rq_request r) ∧
  (∀ p, rq_sent_to r = Some p → can_rm p (rq_xreq r) →
    ∃ r', nn_req_rm p r = Some r' ∧ rq_state r' = NN_REQ_STATE_TIMED_OUT ∧ rq_request r' = rq_request r) ∧
  (rq_state r = NN_REQ_STATE_TIMED_OUT ∨ rq_state r = NN_REQ_STATE_CANCELLING →
    ∃ n r' x' rc to, (n ≤ 2)%nat ∧ req_tasks n r = Some r' ∧ rq_request r' = rq_request r ∧
      raw_send_to (rq_request r) (rq_xreq r) = Some (x', rc, to) ∧
      ((rq_state r' = NN_REQ_STATE_ACTIVE ∧ rc = 0 ∧ rq_sent_to r' = to) ∨ (rq_state r' = NN_REQ_STATE_DELAYED ∧ ¬ can_send (rq_xreq r)))) ∧
  (∀ p, rq_state r = NN_REQ_STATE_DELAYED → can_out p (rq_xreq r) →
    ∃ r' x0 x', nn_req_out p r = Some r' ∧ rq_state r' = NN_REQ_STATE_ACTIVE ∧ raw_out p (rq_xreq r) = Some x0 ∧
      raw_send_to (rq_request r) x0 = Some (x', 0, rq_sent_to r')).
Proof.
  destruct (req_run_ok x lastid r0 tr r) as [Hi _ _]; [done..|]. split_and!.
  - intros Hs Ha. destruct (req_timeout_ok r Hi) as (r' & E & _ & (_ & Hrq & _) & _ & Hst).
    rewrite decide_True, Ha in Hst by done. by exists r'.
  - intros p Hp Hc. destruct (req_rm_ok p r Hi Hc) as (r' & E & _ & (_ & Hrq & _) & _ & Hst).
    rewrite decide_True in Hst by done. by exists r'.
  - intros Hs. assert (rq_state r =? NN_REQ_STATE_STOPPING_TIMER = false) as Hne by by destruct Hs as [-> | ->].
    assert (stopping (rq_state r)) as Hst by (destruct Hs; [by left|by right; left]).
    destruct (req_task_ok r Hi) as (r1 & E1 & Hi1 & (_ & Hrq1 & _) & _ & [[Hs1 Hl]|(_ & _ & Hres)]).
    + destruct (Hl Hst) as (Htask & Hx1 & _).
      destruct (req_task_ok r1 Hi1) as (r2 & E2 & Hi2 & (_ & Hrq2 & _) & _ & [[_ Hl2]|(_ & _ & Hres)]).
      { rewrite Hs1 in Hl2. destruct (Hl2 Hst) as (_ & _ & Ht). by rewrite Htask in Ht. }
      unfold resumed in Hres. rewrite Hs1, Hne, Hrq1, Hx1 in Hres. destruct Hres as (x' & rc & to & Hsend & Hcase).
      exists 2%nat, r2, x', rc, to. split_and!; [lia|cbn; rewrite E1; exact E2|congruence|done|]. tauto.
    + unfold resumed in Hres. rewrite Hne in Hres. destruct Hres as (x' & rc & to & Hsend & Hcase).
      exists 1%nat, r1, x', rc, to. split_and!; [lia|done|done|done|]. tauto.
  - intros p Hd Hp. destruct (req_out_ok p r Hi Hp) as (r' & E & _ & _ & _ & Hst). rewrite decide_True in Hst by done.
    destruct Hst as (Hs & x0 & x' & Eo & Es). by exists r', x0, x'.
Qed.

End spec.
