(* ===== verification/NnReqSystem.v ===== *)
(** * Requesters over their pipes

    The raw socket of [NnRouting], over pipes that keep their promises, is a raw socket
    that [NnReqSpec] asks for; and a world of pipes where the requester runs. *)

From S2P Require Import Prelude NnList NnPrio NnPrioSpec NnMsgQueue NnInproc NnBalance NnCodec NnCodecSpec NnRouting NnReq NnReqSpec.
From stdpp Require Import base numbers list gmap.
#[local] Open Scope Z_scope.

(** ** What the pipes promise *)
Class PipesOk (W : Type) `{Pipes W, Pending W} := {
  readable : Z → W → Prop;
  writable : Z → W → Prop;
  send_law p m w : writable p w → ∃ w' rc, pipe_send p m w = Some (w', rc) ∧ 0 ≤ rc ∧ (∀ q, readable q w → readable q w') ∧
    ∀ q, writable q w → q ≠ p ∨ Z.land rc NN_PIPE_RELEASE = 0 → writable q w';
  recv_law p w : readable p w → ∃ w' rc m, pipe_recv p w = Some (w', rc, Some m) ∧ 0 ≤ rc ∧ (pending w' < pending w)%nat ∧
    (Z.land rc NN_PIPE_PARSED = 0 → sphdr m = []) ∧ (∀ q, writable q w → writable q w') ∧
    ∀ q, readable q w → q ≠ p ∨ Z.land rc NN_PIPE_RELEASE = 0 → readable q w'
}.

(** ** The active data of a priority list *)
Definition active (ls : list level) (x : Z) : Prop := ∃ i l, ls !! i = Some l ∧ x ∈ seq_of l.

Lemma inactive_not_active ls x : inactive ls x ↔ ¬ active ls x.
Proof. split; [intros Hi (i & l & Hl & Hx); by apply (Hi i l)|intros Ha i l Hl Hx; by apply Ha; exists i, l]. Qed.

Lemma active_isinlist self ls x : prep self ls → active ls x → nn_list_item_isinlist (p_items self) x = Some true.
Proof.
  intros [P _] (i & l & Hl & Hx).
  destruct (lookup_lt_is_Some_2 (p_slots self) i) as [s Hs];
    [apply lookup_lt_Some in Hl; by rewrite (len_slots _ _ _ _ P), <-(len_levels _ _ _ _ P)|].
  destruct (slot_ok _ _ _ _ P _ _ _ Hs Hl) as (Hr & _). by eapply lrep_item.
Qed.

Lemma active_alter f i ls x : active (alter f i ls) x →
  ∃ j l, ls !! j = Some l ∧ x ∈ seq_of (if decide (j = i) then f l else l).
Proof.
  intros (j & l & Hl & Hx). destruct (decide (j = i)) as [->|Hne].
  - rewrite list_lookup_alter_eq in Hl. destruct (ls !! i) as [l0|] eqn:E; [|done]. injection Hl as <-.
    exists i, l0. by rewrite decide_True.
  - rewrite list_lookup_alter_ne in Hl by done. exists j, l. by rewrite decide_False.
Qed.

Lemma active_activate ds x ls y : active (spec_activate ds x ls) y → active ls y ∨ y = x.
Proof.
  unfold spec_activate. destruct (ds !! x) as [d|]; [|by left]. intros (j & l & Hl & Hy)%active_alter.
  destruct (decide _); [|left; by exists j, l]. unfold seq_of, lvl_activate in Hy. cbn in Hy.
  rewrite app_assoc in Hy. apply elem_of_app in Hy as [Hy|Hy]; [left; by exists j, l|right; set_solver].
Qed.

Lemma active_rm self ls x y : prep self ls → is_Some (p_datas self !! x) → active (spec_rm (p_datas self) x ls) y → active ls y ∧ y ≠ x.
Proof.
  intros [P _] [d Hd]. unfold spec_rm. rewrite Hd. intros (j & l & Hl & Hy)%active_alter.
  destruct (decide (j = _)) as [->|Hne].
  - rewrite seq_of_remove in Hy. apply list_elem_of_filter in Hy as [Hne Hy]. split; [by eexists _, l|done].
  - split; [by exists j, l|]. intros ->. pose proof (level_of _ _ _ _ _ _ _ _ P Hl Hd Hy). lia.
Qed.

Lemma active_advance self ls release y : prep self ls → first_level ls ≠ None → active (spec_advance release ls) y →
  active ls y ∧ (release ≠ 0 → current_of ls ≠ Some y).
Proof.
  intros [P _] Hf. unfold spec_advance, current_of. destruct (first_level ls) as [i|] eqn:E; [|done]. cbn.
  intros (j & l & Hl & Hy)%active_alter. apply cur_of_spec in E as [(li & Hli & Hn) _]. rewrite Hli. cbn.
  destruct (lookup_lt_is_Some_2 (p_slots self) i) as [s Hs];
    [apply lookup_lt_Some in Hli; by rewrite (len_slots _ _ _ _ P), <-(len_levels _ _ _ _ P)|].
  destruct (slot_ok _ _ _ _ P _ _ _ Hs Hli) as ((Hnd & _) & _). destruct (decide (j = i)) as [->|Hne].
  - rewrite Hli in Hl. injection Hl as <-. destruct li as [dn [|c td]]; [done|]. unfold lvl_advance in Hy. cbn [snd fst] in Hy.
    rewrite seq_of_norm in Hy. unfold seq_of in *. cbn [fst snd] in *. split.
    + exists i, (dn, c :: td). split; [done|]. unfold seq_of. cbn. destruct (decide _); set_solver.
    + intros Hr [= <-]. rewrite decide_True in Hy by done. apply NoDup_app in Hnd as (_ & Hd & Hnd). apply NoDup_cons in Hnd as [Hnd _]. set_solver.
  - split; [by exists j, l|]. intros _ Hh. destruct li as [dn [|c td]]; [done|]. injection Hh as ->.
    destruct (in_level _ _ _ _ P _ _ _ Hl Hy) as (d & Hd & Hp).
    pose proof (level_of _ _ _ _ _ _ y d P Hli Hd) as Hp'. unfold seq_of in Hp'. cbn in Hp'. specialize (Hp' ltac:(set_solver)). lia.
Qed.

Lemma current_active ls c : current_of ls = Some c → active ls c.
Proof.
  unfold current_of. destruct (first_level ls) as [i|]; [|done]. cbn. destruct (ls !! i) as [[dn [|y td]]|] eqn:E; intros [=]; subst.
  exists i, (dn, c :: td). split; [done|]. unfold seq_of. set_solver.
Qed.

(** ** The raw socket over pipes *)
Section system.
  Context {W : Type} `{PipesOk W}.

(** A priority list whose active pipes are ready, by their data in [xq_data]. *)
Definition list_ok (self : nn_priolist) (data : gmap Z Z) (ready : Z → Prop) : Prop :=
  ∃ ls, prep self ls ∧
    (∀ p x, data !! p = Some x → ∃ d, p_datas self !! x = Some d ∧ d_pipe d = p) ∧
    ∀ x d, active ls x → p_datas self !! x = Some d → data !! d_pipe d = Some x ∧ ready (d_pipe d).

Definition xreq_ok (x : nn_xreq * W) : Prop :=
  list_ok (xq_lb x.1) (xq_data x.1) (λ p, writable p x.2) ∧ list_ok (xq_fq x.1) (xq_data x.1) (λ p, readable p x.2).

(** The pipe is not in the list, and it is ready now. *)
Definition can_join (self : nn_priolist) (data : gmap Z Z) (p : Z) (ready : Prop) : Prop :=
  ∃ x, data !! p = Some x ∧ nn_list_item_isinlist (p_items self) x = Some false ∧ ready.

(** A pipe is added, with a new data, or the pipes make progress. *)
Definition xreq_env (x y : nn_xreq * W) : Prop :=
  (y.1 = x.1 ∧ (∀ p, writable p x.2 → writable p y.2) ∧ (∀ p, readable p x.2 → readable p y.2)) ∨
  (y.2 = x.2 ∧ ∃ p d sndprio rcvprio, nn_xreq_add x.1 p d sndprio rcvprio = Some y.1 ∧ xq_data x.1 !! p = None ∧
     ∀ q, xq_data x.1 !! q ≠ Some d).

Lemma list_ok_join self data p ready : list_ok self data ready → can_join self data p (ready p) →
  ∃ x self', data !! p = Some x ∧ nn_priolist_activate self x = Some self' ∧ list_ok self' data ready ∧ nn_priolist_is_active self' = 1.
Proof.
  intros (ls & P & Hd & Ha) (x & Hx & Hin & Hr). destruct (Hd p x Hx) as (d & Hxd & Hp).
  destruct (activate_spec self ls x P) as (self' & E & Hds & P'); [done| |].
  { apply inactive_not_active. intros Hact. rewrite (active_isinlist _ _ _ P Hact) in Hin. done. }
  exists x, self'. split; [done|]. split; [done|]. split.
  - exists (spec_activate (p_datas self) x ls). rewrite Hds. split_and!; [done..|].
    intros y e [Hy| ->]%active_activate He; [by apply Ha|]. rewrite Hxd in He. injection He as <-. by rewrite Hp.
  - unfold nn_priolist_is_active. destruct P' as [P0' ->]. unfold cur_of.
    destruct (first_level (spec_activate (p_datas self) x ls)) as [i|] eqn:Ef; [by rewrite decide_False by lia|].
    exfalso. destruct P as [P _]. destruct (slot_of self ls x d P Hxd) as (i & s & l & _ & Hi & _ & Hs & Hl).
    assert ((lvl_activate x l).2 = []) as Hn.
    { apply (proj1 (cur_of_none _) Ef i). unfold spec_activate. by rewrite Hxd, Hi, list_lookup_alter_eq, Hl. }
    unfold lvl_activate in Hn. cbn in Hn. by apply app_eq_nil in Hn as [_ ?].
Qed.

Lemma list_ok_rm self data p x ready : list_ok self data ready → data !! p = Some x →
  ∃ self', nn_priolist_rm self x = Some self' ∧ list_ok self' (delete p data) ready.
Proof.
  intros (ls & P & Hd & Ha) Hx. destruct (Hd p x Hx) as (d & Hxd & Hp).
  destruct (rm_spec self ls x P) as (self' & E & Hds & P'); [done|]. exists self'. split; [done|].
  exists (spec_rm (p_datas self) x ls). rewrite Hds. split_and!; [done|..].
  - intros q y [Hne Hy]%lookup_delete_Some. by apply Hd.
  - intros y e [Hy Hyx]%(active_rm self) He; [|done..]. destruct (Ha y e Hy He) as [Hq Hr]. split; [|done].
    rewrite lookup_delete_ne; [done|]. intros Eq. rewrite <-Eq, Hx in Hq. congruence.
Qed.

Lemma list_ok_add self data p x k ready : list_ok self data ready → data !! p = None → (∀ q, data !! q ≠ Some x) → 1 ≤ k ≤ 16 →
  list_ok (nn_priolist_add self x p k) (<[p := x]> data) ready.
Proof.
  intros (ls & P & Hd & Ha) Hp Hq Hk. exists ls.
  assert (inactive ls x) as Hin.
  { apply inactive_not_active. intros Hact. destruct Hact as (i & l & Hl & Hx). pose proof P as [P0 _].
    destruct (in_level _ _ _ _ P0 _ _ _ Hl Hx) as (d & Hxd & _). destruct (Ha x d) as [Hq' _]; [by exists i, l|done|]. by apply (Hq (d_pipe d)). }
  split_and!.
  - by apply add_spec.
  - intros q y Hy. cbn [p_datas nn_priolist_add]. destruct (decide (q = p)) as [->|Hne].
    + rewrite lookup_insert_eq in Hy. injection Hy as <-. exists (Data p k). by rewrite lookup_insert_eq.
    + rewrite lookup_insert_ne in Hy by done. destruct (Hd q y Hy) as (d & Hyd & Hdp). exists d. split; [|done].
      rewrite lookup_insert_ne; [done|]. intros ->. by apply (Hq q).
  - intros y d Hy. cbn [p_datas nn_priolist_add]. intros Hyd. destruct (decide (y = x)) as [->|Hne].
    + by apply inactive_not_active in Hin.
    + rewrite lookup_insert_ne in Hyd by done. destruct (Ha y d Hy Hyd) as [Hq' Hr]. split; [|done].
      rewrite lookup_insert_ne; [done|]. intros Eq. rewrite <-Eq, Hp in Hq'. done.
Qed.

(** The list stays, the pipes change. *)
Lemma list_ok_world self data (ready ready' : Z → Prop) : list_ok self data ready → (∀ p, ready p → ready' p) → list_ok self data ready'.
Proof. intros (ls & P & Hd & Ha) Hr. exists ls. split_and!; [done..|]. intros x d Hx Hxd. destruct (Ha x d Hx Hxd). auto. Qed.

(** The current pipe is used: it is ready before, and afterwards when it is kept. *)
Lemma list_ok_use self data ready : list_ok self data ready →
  (nn_priolist_getpipe self = Some None ∧ nn_priolist_is_active self = 0) ∨
  ∃ p, nn_priolist_getpipe self = Some (Some p) ∧ ready p ∧
    ∀ release (ready' : Z → Prop), (∀ q, ready q → q ≠ p ∨ release = 0 → ready' q) →
    ∃ self', nn_priolist_advance self release = Some self' ∧ list_ok self' data ready'.
Proof.
  intros (ls & P & Hd & Ha). rewrite (getpipe_spec self ls P). destruct (current_of ls) as [c|] eqn:Ec.
  - right. pose proof (current_active ls c Ec) as Hact. destruct (current_in self ls c P Ec) as [d Hcd]. rewrite Hcd. cbn.
    destruct (Ha c d Hact Hcd) as [Hpc Hr]. exists (d_pipe d). split; [done|]. split; [done|]. intros release ready' Hready.
    assert (first_level ls ≠ None) as Hf by (intros E; unfold current_of in Ec; by rewrite E in Ec).
    destruct (advance_spec self ls release P Hf) as (self' & E & Hds & P'). exists self'. split; [done|].
    exists (spec_advance release ls). rewrite Hds. split_and!; [done..|]. intros y e Hy He.
    destruct (active_advance _ _ _ _ P Hf Hy) as [Hy' Hyc]. destruct (Ha y e Hy' He) as [Hq Hre]. split; [done|]. apply Hready; [done|].
    destruct (decide (release = 0)) as [|Hrel]; [by right|]. left. intros Eq. apply (Hyc Hrel). rewrite Ec. congruence.
  - left. split; [done|]. unfold nn_priolist_is_active. destruct P as [P ->]. unfold cur_of. unfold current_of in Ec.
    destruct (first_level ls) as [i|] eqn:Ef; [|done]. exfalso. apply cur_of_spec in Ef as [(l & Hl & Hn) _]. cbn in Ec. rewrite Hl in Ec. cbn in Ec.
    by destruct (l.2).
Qed.

(** ** The promises of the raw socket *)
Definition xreq_can_in (p : Z) (x : nn_xreq * W) : Prop := can_join (xq_fq x.1) (xq_data x.1) p (readable p x.2).
Definition xreq_can_out (p : Z) (x : nn_xreq * W) : Prop := can_join (xq_lb x.1) (xq_data x.1) p (writable p x.2).
Definition xreq_can_rm (p : Z) (x : nn_xreq * W) : Prop := is_Some (xq_data x.1 !! p).
Definition xreq_can_send (x : nn_xreq * W) : Prop := nn_lb_can_send (xq_lb x.1) = 1.

Lemma xreq_in_ok p x : xreq_ok x → xreq_can_in p x → ∃ x', raw_in p x = Some x' ∧ xreq_ok x'.
Proof.
  destruct x as [q w]. intros [Hlb Hfq] Hc. unfold xreq_can_in, xreq_can_out in Hc. cbn [fst snd] in *. destruct (list_ok_join _ _ _ (λ p, readable p w) Hfq Hc) as (d & fq & Hd & E & Hok & _).
  cbn. unfold nn_xreq_in, nn_fq_in. rewrite Hd. cbn. rewrite E. cbn. eexists. split; [done|]. by split.
Qed.

Lemma xreq_out_ok p x : xreq_ok x → xreq_can_out p x → ∃ x', raw_out p x = Some x' ∧ xreq_ok x' ∧ xreq_can_send x'.
Proof.
  destruct x as [q w]. intros [Hlb Hfq] Hc. unfold xreq_can_in, xreq_can_out in Hc. cbn [fst snd] in *. destruct (list_ok_join _ _ _ (λ p, writable p w) Hlb Hc) as (d & lb & Hd & E & Hok & Hs).
  cbn. unfold nn_xreq_out, nn_lb_out. rewrite Hd. cbn. rewrite E. cbn. eexists. split; [done|]. by split.
Qed.

Lemma xreq_rm_ok p x : xreq_ok x → xreq_can_rm p x → ∃ x', raw_rm p x = Some x' ∧ xreq_ok x'.
Proof.
  destruct x as [q w]. intros [Hlb Hfq] [d Hd]. cbn in *.
  destruct (list_ok_rm _ _ p d _ Hlb Hd) as (lb & El & Hlb'). destruct (list_ok_rm _ _ p d _ Hfq Hd) as (fq & Ef & Hfq').
  unfold nn_xreq_rm, nn_lb_rm, nn_fq_rm. rewrite Hd. cbn. rewrite El. cbn. rewrite Ef. cbn. eexists. split; [done|]. by split.
Qed.

Lemma xreq_send_ok m x : xreq_ok x → ∃ x' rc to, raw_send_to m x = Some (x', rc, to) ∧ xreq_ok x' ∧
  ((rc = - EAGAIN ∧ ¬ xreq_can_send x) ∨ (rc = 0 ∧ is_Some to)).
Proof.
  destruct x as [q w]. intros [Hlb Hfq]. cbn in *. unfold nn_xreq_send_to, nn_lb_send, xreq_can_send, nn_lb_can_send.
  destruct (list_ok_use _ _ _ Hlb) as [[-> Hs]|(p & -> & Hp & Hadv)]; cbn.
  - eexists _, _, _. split; [reflexivity|]. split; [by split|]. left. split; [done|]. by rewrite Hs.
  - destruct (send_law p m w Hp) as (w' & rc & -> & Hrc & Hr & Hw). cbn. rewrite Z.geb_leb, (proj2 (Z.leb_le 0 rc)) by done.
    destruct (Hadv (Z.land rc NN_PIPE_RELEASE) (λ q, writable q w') Hw) as (lb & -> & Hlb'). cbn.
    assert (0 ≤ Z.ldiff rc NN_PIPE_RELEASE) as Hd by (apply Z.ldiff_nonneg; by left).
    rewrite (proj2 (Z.eqb_neq _ _)) by (unfold EAGAIN; lia). rewrite Z.geb_leb, (proj2 (Z.leb_le 0 _)) by done. cbn.
    eexists _, _, _. split; [reflexivity|]. split; [|by right]. split; [done|]. cbn. by eapply list_ok_world.
Qed.

Lemma xreq_recv_ok x : xreq_ok x → ∃ x' rc msg, raw_recv x = Some (x', rc, msg) ∧ xreq_ok x' ∧
  match msg with Stored m => rc = 0 ∧ (raw_pending x' < raw_pending x)%nat | _ => rc = - EAGAIN end.
Proof.
  destruct x as [q w]. intros [Hlb Hfq]. cbn in *. unfold nn_xreq_recv, nn_fq_recv.
  destruct (list_ok_use _ _ _ Hfq) as [[-> Hs]|(p & -> & Hp & Hadv)]; cbn.
  - eexists _, _, _. split; [reflexivity|]. split; [by split|done].
  - destruct (recv_law p w Hp) as (w' & rc & m & -> & Hrc & Hpend & Hhdr & Hw & Hr). cbn.
    rewrite Z.geb_leb, (proj2 (Z.leb_le 0 rc)) by done.
    destruct (Hadv (Z.land rc NN_PIPE_RELEASE) (λ q, readable q w') Hr) as (fq & -> & Hfq'). cbn.
    assert (0 ≤ Z.ldiff rc NN_PIPE_RELEASE) as Hd by (apply Z.ldiff_nonneg; by left).
    rewrite (proj2 (Z.eqb_neq _ _)) by (unfold EAGAIN; lia). rewrite Z.geb_leb, (proj2 (Z.leb_le 0 _)) by done. cbn.
    assert (list_ok (xq_lb q) (xq_data q) (λ p, writable p w')) as Hlb' by by eapply list_ok_world.
    assert (Z.land (Z.ldiff rc NN_PIPE_RELEASE) NN_PIPE_PARSED = Z.land rc NN_PIPE_PARSED) as ->.
    { rewrite Z.ldiff_land, <-Z.land_assoc. done. }
    destruct (Z.land rc NN_PIPE_PARSED =? 0) eqn:Hparsed.
    + apply Z.eqb_eq, Hhdr in Hparsed. destruct (xreq_split (body m)) as [[hdr rest]|]; [rewrite Hparsed; cbn|];
        (eexists _, _, _; split; [reflexivity|]; split; [by split|done]).
    + eexists _, _, _. split; [reflexivity|]. split; [by split|done].
Qed.

Lemma xreq_env_ok x x' : xreq_ok x → xreq_env x x' → xreq_ok x'.
Proof.
  destruct x as [q w], x' as [q' w']. intros [Hlb Hfq] [(Eq & Hw & Hr)|(Ew & p & d & sp & rp & E & Hp & Hd)]; cbn in *; subst.
  - split; cbn; by eapply list_ok_world.
  - unfold nn_xreq_add, nn_assert in E. destruct ((sp >=? 1) && (sp <=? 16)) eqn:Hsp; [|done].
    destruct ((rp >=? 1) && (rp <=? 16)) eqn:Hrp; [|done]. cbn in E. injection E as <-. split; cbn; apply list_ok_add; (done || lia).
Qed.

#[export] Instance xreq_raw_ok : RawReqOk (nn_xreq * W) := {|
  raw_ok := xreq_ok; can_in := xreq_can_in; can_out := xreq_can_out; can_rm := xreq_can_rm; can_send := xreq_can_send;
  raw_env := xreq_env;
  raw_in_ok := xreq_in_ok; raw_out_ok := xreq_out_ok; raw_rm_ok := xreq_rm_ok;
  raw_send_ok := xreq_send_ok; raw_recv_ok := xreq_recv_ok; raw_env_ok := xreq_env_ok
|}.

Lemma xreq_init_ok (w : W) : xreq_ok (nn_xreq_init, w).
Proof.
  split; cbn; exists (replicate NN_PRIOLIST_SLOTS ([], [])); (split; [apply init_spec|]; split; [done|]);
    intros x d (i & l & [-> _]%lookup_replicate_1 & Hx); by apply elem_of_nil in Hx.
Qed.

End system.

(** ** A world of pipes *)

(** The messages that wait in each pipe, and those that were sent. *)
Record boxes := Boxes { inbox : list (list nn_msg); outbox : list (Z * nn_msg) }.

(** A pipe is released with its last message. *)
#[export] Instance boxes_pipes : Pipes boxes := {
  pipe_send p m w := Some (Boxes (inbox w) (outbox w ++ [(p, m)]), 0);
  pipe_recv p w :=
    match inbox w !! Z.to_nat p with
    | Some (m :: ms) => Some (Boxes (<[Z.to_nat p := ms]> (inbox w)) (outbox w), match ms with [] => NN_PIPE_RELEASE | _ => 0 end, Some m)
    | _ => None
    end
}.

#[export] Instance boxes_pending : Pending boxes := λ w, length (concat (inbox w)).

Lemma length_concat_insert (ls : list (list nn_msg)) i m ms : ls !! i = Some (m :: ms) →
  (length (concat (<[i := ms]> ls)) < length (concat ls))%nat.
Proof.
  revert i. induction ls as [|l ls IH]; intros [|i] Hi; simplify_eq/=; [rewrite !length_app; lia|].
  rewrite !length_app. specialize (IH i Hi). lia.
Qed.

Definition box_readable (p : Z) (w : boxes) : Prop :=
  0 ≤ p ∧ ∃ ms, inbox w !! Z.to_nat p = Some ms ∧ ms ≠ [] ∧ Forall (λ m, sphdr m = []) ms.

Lemma boxes_recv_law p w : box_readable p w → ∃ w' rc m, pipe_recv p w = Some (w', rc, Some m) ∧ 0 ≤ rc ∧ (pending w' < pending w)%nat ∧
  (Z.land rc NN_PIPE_PARSED = 0 → sphdr m = []) ∧ (∀ q : Z, True → True) ∧
  ∀ q, box_readable q w → q ≠ p ∨ Z.land rc NN_PIPE_RELEASE = 0 → box_readable q w'.
Proof.
  intros (Hp & ms & Hms & Hne & Hf). destruct ms as [|m ms]; [done|]. apply Forall_cons in Hf as [Hm Hf]. cbn. rewrite Hms.
  eexists _, _, m. split; [reflexivity|]. split_and!; [by destruct ms|by apply (length_concat_insert _ _ m)|done|done|].
  intros q (Hq & l & Hl & Hln & Hlf) Hqp. split; [done|]. cbn. destruct (decide (Z.to_nat q = Z.to_nat p)) as [E|E].
  - exists ms. rewrite E, list_lookup_insert_eq by by eapply lookup_lt_Some. split_and!; [done| |done].
    destruct Hqp as [Hqp|Hrel]; [by assert (q = p) by lia|]. by destruct ms.
  - exists l. by rewrite list_lookup_insert_ne.
Qed.

#[export] Instance boxes_ok : PipesOk boxes.
Proof.
  refine {| readable := box_readable; writable _ _ := True |}.
  - intros p m w _. by eexists _, _.
  - exact boxes_recv_law.
Defined.

(** ** A requester with two pipes *)
Notation requester := (nn_req (nn_xreq * boxes)).

(** A message comes to a pipe. *)
Definition deliver (p : Z) (m : nn_msg) (r : requester) : requester :=
  let '(q, w) := rq_xreq r in set_xreq (q, Boxes (alter (.++ [m]) (Z.to_nat p) (inbox w)) (outbox w)) r.

Definition add_pipe (p : Z) (r : requester) : option requester :=
  q ← nn_xreq_add (rq_xreq r).1 p p 1 1; Some (set_xreq (q, (rq_xreq r).2) r).

Inductive demo_op := DAdd (p : Z) | DOut (p : Z) | DSend (b : list Z) | DRm (p : Z) | DDeliver (p : Z) (m : nn_msg) | DIn (p : Z) | DTask.

Definition demo_step (o : demo_op) (r : requester) : option (req_event * requester) :=
  match o with
  | DAdd p => pair EOther <$> add_pipe p r
  | DOut p => pair EOther <$> nn_req_out p r
  | DSend b => '(r, _) ← nn_req_csend (Msg [] [] b) r; Some (ESent, r)
  | DRm p => pair EOther <$> nn_req_rm p r
  | DDeliver p m => Some (EOther, deliver p m r)
  | DIn p => '(r, came) ← nn_req_in p r; Some (ECame came, r)
  | DTask => pair EOther <$> req_task r
  end.

Fixpoint demo_run (ops : list demo_op) (r : requester) : option (list req_event * requester) :=
  match ops with
  | [] => Some ([], r)
  | o :: ops => '(e, r) ← demo_step o r; '(tr, r) ← demo_run ops r; Some (e :: tr, r)
  end.

Definition demo_start : option requester := nn_req_init (nn_xreq_init, Boxes [[]; []] []) 5.

(** When the step is one of [req_step]. *)
Definition joins (self : nn_priolist) (data : gmap Z Z) (p : Z) : bool :=
  match data !! p with
  | Some x => bool_decide (nn_list_item_isinlist (p_items self) x = Some false)
  | None => false
  end.

Definition box_full (p : Z) (w : boxes) : bool :=
  match inbox w !! Z.to_nat p with
  | Some (m :: ms) => (0 <=? p) && forallb (λ m, length (sphdr m) =? 0)%nat (m :: ms)
  | _ => false
  end.

Definition demo_allows (o : demo_op) (r : requester) : bool :=
  let '(q, w) := rq_xreq r in
  match o with
  | DAdd p => bool_decide (xq_data q !! p = None) && bool_decide (map_Forall (λ _ x, x ≠ p) (xq_data q))
  | DOut p => joins (xq_lb q) (xq_data q) p
  | DSend _ | DTask => true
  | DRm p => bool_decide (xq_data q !! p ≠ None)
  | DDeliver _ m => (length (sphdr m) =? 0)%nat
  | DIn p => joins (xq_fq q) (xq_data q) p && box_full p w
  end.

Fixpoint demo_allowed (ops : list demo_op) (r : requester) : bool :=
  match ops with
  | [] => true
  | o :: ops => demo_allows o r && match demo_step o r with Some (_, r) => demo_allowed ops r | None => false end
  end.

Lemma joins_sound self data p (ready : Prop) : joins self data p = true → ready → can_join self data p ready.
Proof.
  unfold joins, can_join. destruct (data !! p) as [x|]; [|done]. intros Hx%bool_decide_eq_true_1 Hr. by exists x.
Qed.

Lemma box_full_sound p w : box_full p w = true → box_readable p w.
Proof.
  unfold box_full, box_readable. destruct (inbox w !! Z.to_nat p) as [[|m ms]|]; [done| |done].
  intros [Hp Hf]%andb_true_iff. split; [lia|]. eexists. split; [done|]. split; [done|].
  apply Forall_forall. intros m' Hm'. rewrite forallb_forall in Hf. specialize (Hf m'). rewrite <-list_elem_of_In in Hf.
  specialize (Hf Hm'). apply Nat.eqb_eq in Hf. by apply length_zero_iff_nil.
Qed.

Lemma deliver_env p m r : sphdr m = [] → xreq_env (rq_xreq r) (rq_xreq (deliver p m r)).
Proof.
  intros Hm. unfold deliver. destruct (rq_xreq r) as [q w] eqn:E. cbn. left. split; [done|]. split; [done|].
  intros p' (Hp & ms & Hms & Hne & Hf). split; [done|]. cbn in *. destruct (decide (Z.to_nat p' = Z.to_nat p)) as [Ep|Ep].
  - exists (ms ++ [m]). rewrite Ep, list_lookup_alter_eq, <-Ep, Hms. cbn. split_and!; [done|by destruct ms|].
    apply Forall_app. by split; [|apply Forall_singleton].
  - exists ms. by rewrite list_lookup_alter_ne.
Qed.

Lemma demo_step_sound o r e r' : demo_allows o r = true → demo_step o r = Some (e, r') → req_step r e r'.
Proof.
  unfold demo_allows. destruct (rq_xreq r) as [q w] eqn:Ex. destruct o as [p|p|b|p|p m|p|]; cbn [demo_step].
  - intros [Hp Hf]%andb_true_iff. apply bool_decide_eq_true_1 in Hp, Hf. unfold add_pipe. rewrite Ex. cbn [fst snd].
    destruct (nn_xreq_add q p p 1 1) as [q'|] eqn:E; [|done]. cbn. intros [= <- <-]. apply step_env. rewrite Ex. right. split; [done|].
    exists p, p, 1, 1. split_and!; [done..|]. intros p' Hp'. by apply (Hf p' p Hp').
  - intros Hj. destruct (nn_req_out p r) as [r1|] eqn:E; [|done]. intros [= <- <-]. apply (step_out p); [|done]. rewrite Ex. by apply joins_sound.
  - intros _. destruct (nn_req_csend _ r) as [[r1 rc]|] eqn:E; [|done]. cbn. intros [= <- <-]. by apply (step_send (Msg [] [] b) _ _ rc).
  - intros Hp%bool_decide_eq_true_1. destruct (nn_req_rm p r) as [r1|] eqn:E; [|done]. intros [= <- <-]. apply (step_rm p); [|done].
    rewrite Ex. cbn. unfold xreq_can_rm. cbn. by destruct (xq_data q !! p).
  - intros Hm%Nat.eqb_eq%length_zero_iff_nil [= <- <-]. pose proof (deliver_env p m r Hm) as He.
    assert (deliver p m r = set_xreq (rq_xreq (deliver p m r)) r) as -> by (unfold deliver; by rewrite Ex). by apply step_env.
  - intros [Hj Hb]%andb_true_iff. destruct (nn_req_in p r) as [[r1 came]|] eqn:E; [|done]. cbn. intros [= <- <-].
    apply (step_in p); [|done]. rewrite Ex. apply joins_sound; [done|]. by apply box_full_sound.
  - intros _. destruct (req_task r) as [r1|] eqn:E; [|done]. intros [= <- <-]. by apply step_task.
Qed.

Lemma req_run_cons (r0 r r' : requester) e tr : req_step r0 e r → req_run r tr r' → req_run r0 (e :: tr) r'.
Proof.
  intros Hs Hr. induction Hr as [|tr r1 e1 r2 Hr IH Hst]; [apply (run_snoc r0 [] r0); [constructor|done]|].
  by apply (run_snoc r0 (e :: tr) r1).
Qed.

Lemma demo_run_sound ops r tr r' : demo_allowed ops r = true → demo_run ops r = Some (tr, r') → req_run r tr r'.
Proof.
  revert r tr. induction ops as [|o ops IH]; intros r tr Ha; cbn; [intros [= <- <-]; constructor|].
  cbn in Ha. apply andb_true_iff in Ha as [Ha Hrest]. destruct (demo_step o r) as [[e r1]|] eqn:E; [|done]. cbn.
  destruct (demo_run ops r1) as [[tr1 r2]|] eqn:E1; [|done]. cbn. intros [= <- <-].
  eapply req_run_cons; [by eapply demo_step_sound|]. by eapply IH.
Qed.

(** ** Examples *)

(** The reply of the peer to the request with an id. *)
Definition demo_reply (id : Z) (b : list Z) : nn_msg := Msg [] [] (nn_putl (req_word id) ++ b).

(** A request, its reply, and the stopping of the timer. *)
Definition demo_answer : list demo_op :=
  [DAdd 0; DAdd 1; DOut 0; DOut 1; DSend [7]; DTask; DDeliver 0 (demo_reply 6 [8]); DIn 0; DTask].

(** The pipe of a request goes. *)
Definition demo_lost : list demo_op := [DAdd 0; DAdd 1; DOut 0; DOut 1; DSend [7]; DRm 0].

(** The state after some steps. *)
Definition demo_after (ops : list demo_op) : option requester := r ← demo_start; snd <$> demo_run ops r.

Lemma req_safe_witness : ∃ r0 tr r, nn_req_init (nn_xreq_init, Boxes [[]; []] []) 5 = Some r0 ∧ req_run r0 tr r ∧
  is_Some (nn_req_crecv r) ∧ is_Some (req_task r) ∧ ∃ r', nn_req_csend (Msg [] [] [7]) r = Some (r', 0).
Proof.
  destruct demo_start as [r0|] eqn:E0; [|vm_compute in E0; discriminate].
  destruct (demo_run demo_lost r0) as [[tr r]|] eqn:E1; [|vm_compute in E0; injection E0 as <-; vm_compute in E1; discriminate].
  assert (req_run r0 tr r) as Hrun.
  { apply (demo_run_sound demo_lost); [vm_compute in E0; injection E0 as <-; vm_compute; reflexivity|done]. }
  exists r0, tr, r. split; [exact E0|]. split; [exact Hrun|].
  pose proof (req_safe _ 5 r0 tr r (xreq_init_ok _) ltac:(lia) E0 Hrun) as (Hc & Hr & _ & _ & _ & Ht & _).
  split; [exact Hr|]. split; [exact Ht|]. by apply Hc.
Defined.

Lemma req_reply_witness : ∃ r0 tr r r', nn_req_init (nn_xreq_init, Boxes [[]; []] []) 5 = Some r0 ∧ req_run r0 tr r ∧
  nn_req_crecv r = Some (r', 0, Some (Msg [] [] [8])) ∧ arrived tr = [Some (Msg (nn_putl (req_word 6)) [] [8])] ∧
  replied 6 (Some (Msg [] [] [8])) (arrived tr).
Proof.
  destruct demo_start as [r0|] eqn:E0; [|vm_compute in E0; discriminate].
  destruct (demo_run demo_answer r0) as [[tr r]|] eqn:E1; [|vm_compute in E0; injection E0 as <-; vm_compute in E1; discriminate].
  assert (req_run r0 tr r) as Hrun.
  { apply (demo_run_sound demo_answer); [vm_compute in E0; injection E0 as <-; vm_compute; reflexivity|done]. }
  assert (∃ r', nn_req_crecv r = Some (r', 0, Some (Msg [] [] [8])) ∧ arrived tr = [Some (Msg (nn_putl (req_word 6)) [] [8])] ∧ sends tr = 1)
    as (r' & Hrecv & Harr & Hsends).
  { vm_compute in E0. injection E0 as <-. vm_compute in E1. injection E1 as <- <-. eexists. vm_compute. done. }
  exists r0, tr, r, r'. split; [exact E0|]. split; [exact Hrun|]. split; [exact Hrecv|]. split; [exact Harr|].
  pose proof (req_reply _ 5 r0 tr r r' _ (xreq_init_ok _) ltac:(lia) E0 Hrun Hrecv) as Hrep. by rewrite Hsends in Hrep.
Defined.

Lemma req_resends_witness : ∃ r0 tr r, nn_req_init (nn_xreq_init, Boxes [[]; []] []) 5 = Some r0 ∧ req_run r0 tr r ∧
  rq_state r = NN_REQ_STATE_TIMED_OUT ∧
  ∃ n r' x' rc to, (n ≤ 2)%nat ∧ req_tasks n r = Some r' ∧ rq_request r' = rq_request r ∧
    raw_send_to (rq_request r) (rq_xreq r) = Some (x', rc, to) ∧
    ((rq_state r' = NN_REQ_STATE_ACTIVE ∧ rc = 0 ∧ rq_sent_to r' = to) ∨ (rq_state r' = NN_REQ_STATE_DELAYED ∧ ¬ can_send (rq_xreq r))).
Proof.
  destruct demo_start as [r0|] eqn:E0; [|vm_compute in E0; discriminate].
  destruct (demo_run demo_lost r0) as [[tr r]|] eqn:E1; [|vm_compute in E0; injection E0 as <-; vm_compute in E1; discriminate].
  assert (req_run r0 tr r) as Hrun.
  { apply (demo_run_sound demo_lost); [vm_compute in E0; injection E0 as <-; vm_compute; reflexivity|done]. }
  assert (rq_state r = NN_REQ_STATE_TIMED_OUT) as Hs.
  { vm_compute in E0. injection E0 as <-. vm_compute in E1. by injection E1 as <- <-. }
  exists r0, tr, r. split; [exact E0|]. split; [exact Hrun|]. split; [exact Hs|].
  pose proof (req_resends _ 5 r0 tr r (xreq_init_ok _) ltac:(lia) E0 Hrun) as (_ & _ & H & _). apply H. by left.
Defined.

(** ** What goes wrong *)

(** A late reply to an earlier request overwrites the reply that waits for the user, and
    is terminated: the user receives a message that must not be used. *)
Lemma stale_reply : ∃ r r',
  demo_after [DAdd 0; DAdd 1; DOut 0; DOut 1; DSend [7]; DTask; DSend [9]; DTask; DTask;
    DDeliver 1 (demo_reply 7 [10]); DIn 1; DTask; DDeliver 0 (demo_reply 6 [8]); DIn 0] = Some r ∧
  nn_req_crecv r = Some (r', 0, None).
Proof. eexists _, _. split; vm_compute; reflexivity. Qed.

(** The loop of [nn_req_in] ends with the first reply that it takes: a second one stays in
    a pipe that is still active and tells nothing any more. *)
Lemma reply_left : ∃ r,
  demo_after [DAdd 0; DOut 0; DSend [7]; DTask; DDeliver 0 (demo_reply 6 [8]); DDeliver 0 (demo_reply 6 [8]); DIn 0] = Some r ∧
  pending (rq_xreq r).2 = 1%nat ∧ nn_fq_can_recv (xq_fq (rq_xreq r).1) = 1.
Proof. eexists. split; [vm_compute; reflexivity|]. repeat split; vm_compute; reflexivity. Qed.

(** So it does with a malformed one, and the reply behind it is not seen. *)
Lemma malformed_hides : ∃ r,
  demo_after [DAdd 0; DOut 0; DSend [7]; DTask; DDeliver 0 (Msg [] [] [1]); DDeliver 0 (demo_reply 6 [8]); DIn 0] = Some r ∧
  rq_state r = NN_REQ_STATE_ACTIVE ∧ pending (rq_xreq r).2 = 1%nat.
Proof. eexists. split; [vm_compute; reflexivity|]. repeat split; vm_compute; reflexivity. Qed.

(** Any [int] is taken as the interval; a negative one fails an assertion at the next
    request. *)
Lemma negative_interval : ∃ r, demo_after [DAdd 0; DOut 0] = Some r ∧ nn_req_csend (Msg [] [] [7]) (nn_req_setopt (-1) r) = None.
Proof. eexists. split; [vm_compute; reflexivity|]. repeat split; vm_compute; reflexivity. Qed.
