(* ===== verification/NnSha1.v ===== *)
(** * SHA-1 in nanomsg

    [nanomsg-1.0.0/src/transports/ws/sha1.c]: the hash of a WebSocket handshake, one byte
    at a time, in a buffer of sixteen words that the rounds overwrite.  [le] is the
    byte order of the machine. *)

From S2P Require Import Prelude NnCodec.
From stdpp Require Import base numbers list.
#[local] Open Scope Z_scope.

Definition SHA1_BLOCK_LEN : Z := 64.

Record nn_sha1 := Sha1 {
  s_buffer : list Z; s_state : list Z; s_bytes_hashed : Z; s_buffer_offset : Z; s_is_little_endian : bool
}.

(** [num] is a 32-bit number. *)
Definition sha1_rol32 (num bits : Z) : Z := Z.lor (uint32 (Z.shiftl num bits)) (Z.shiftr num (32 - bits)).

(** Where the byte at an address is in its word, in bits. *)
Definition byte_pos (le : bool) (addr : Z) : Z := if le then 8 * (addr `mod` 4) else 8 * (3 - addr `mod` 4).

(** Write a byte of an array of words. *)
Definition set_word_byte (le : bool) (ws : list Z) (addr data : Z) : list Z :=
  alter (λ w, uint32 (Z.lor (Z.ldiff w (Z.shiftl 255 (byte_pos le addr))) (Z.shiftl data (byte_pos le addr))))
    (Z.to_nat (addr `div` 4)) ws.

(** The bytes of an array of words, by their addresses. *)
Definition word_bytes (le : bool) (ws : list Z) : list Z :=
  concat (map (λ w, map (λ a, Z.land (Z.shiftr w (byte_pos le a)) 255) [0; 1; 2; 3]) ws).

(** [buffer] is what the memory has, which is not initialized. *)
Definition nn_sha1_init (le : bool) (buffer : list Z) : nn_sha1 :=
  Sha1 buffer [0x67452301; 0xefcdab89; 0x98badcfe; 0x10325476; 0xc3d2e1f0] 0 0 le.

Record round_vars := Vars { v_a : Z; v_b : Z; v_c : Z; v_d : Z; v_e : Z }.

(** One round, with the word that is scheduled for it. *)
Definition word_at (buffer : list Z) (i : Z) : Z := default 0 (buffer !! Z.to_nat (Z.land i 15)).

Definition schedule (i : Z) (buffer : list Z) : list Z :=
  if i >=? 16 then
    let t := Z.lxor (Z.lxor (Z.lxor (word_at buffer (i + 13)) (word_at buffer (i + 8))) (word_at buffer (i + 2))) (word_at buffer i) in
    <[Z.to_nat (Z.land i 15) := sha1_rol32 t 1]> buffer
  else buffer.

Definition mix (i : Z) (v : round_vars) : Z :=
  let '(Vars a b c d e) := v in
  if i <? 20 then Z.lxor d (Z.land b (Z.lxor c d)) + 0x5A827999
  else if i <? 40 then Z.lxor (Z.lxor b c) d + 0x6ED9EBA1
  else if i <? 60 then Z.lor (Z.land b c) (Z.land d (Z.lor b c)) + 0x8F1BBCDC
  else Z.lxor (Z.lxor b c) d + 0xCA62C1D6.

Definition round (buffer : list Z) (i : Z) (v : round_vars) : round_vars :=
  let '(Vars a b c d e) := v in
  let t := uint32 (uint32 (mix i v) + (sha1_rol32 a 5 + e + word_at buffer i)) in
  Vars t a (sha1_rol32 b 30) c d.

Definition rounds_step (s : list Z * round_vars) (i : Z) : list Z * round_vars :=
  let '(buffer, v) := s in
  let buffer := schedule i buffer in (buffer, round buffer i v).

(** The rounds over a full buffer. *)
Definition sha1_rounds (buffer state : list Z) : list Z * list Z :=
  match state with
  | [a; b; c; d; e] =>
      let '(buffer, v) := foldl rounds_step (buffer, Vars a b c d e) (seqZ 0 80) in
      (buffer, [uint32 (a + v_a v); uint32 (b + v_b v); uint32 (c + v_c v); uint32 (d + v_d v); uint32 (e + v_e v)])
  | _ => (buffer, state)
  end.

Definition nn_sha1_add (self : nn_sha1) (data : Z) : nn_sha1 :=
  let '(Sha1 buffer state n offset le) := self in
  let addr := if le then Z.lxor offset 3 else offset in
  let buffer := set_word_byte le buffer addr (data `mod` 256) in
  let offset := offset + 1 in
  if offset =? SHA1_BLOCK_LEN then
    let '(buffer, state) := sha1_rounds buffer state in Sha1 buffer state n 0 le
  else Sha1 buffer state n offset le.

Definition nn_sha1_hashbyte (self : nn_sha1) (data : Z) : nn_sha1 :=
  let '(Sha1 buffer state n offset le) := self in
  nn_sha1_add (Sha1 buffer state (uint32 (n + 1)) offset le) data.

(** [while (self->buffer_offset != 56)]. *)
Fixpoint sha1_pad (fuel : nat) (self : nn_sha1) : option nn_sha1 :=
  match fuel with
  | O => None
  | S fuel => if s_buffer_offset self =? 56 then Some self else sha1_pad fuel (nn_sha1_add self 0)
  end.

(** The word with its bytes in the opposite order. *)
Definition swap_word (w : Z) : Z :=
  Z.lor (Z.lor (Z.lor (Z.land (uint32 (Z.shiftl w 24)) 0xFF000000) (Z.land (uint32 (Z.shiftl w 8)) 0x00FF0000))
    (Z.land (Z.shiftr w 8) 0x0000FF00)) (Z.land (Z.shiftr w 24) 0x000000FF).

(** The twenty bytes of the hash. *)
Definition nn_sha1_result (self : nn_sha1) : option (list Z) :=
  self ← sha1_pad 64 (nn_sha1_add self 0x80);
  let n := s_bytes_hashed self in
  let self := foldl nn_sha1_add self
    [0; 0; 0; Z.shiftr n 29; Z.shiftr n 21; Z.shiftr n 13; Z.shiftr n 5; uint32 (Z.shiftl n 3)] in
  let state := if s_is_little_endian self then map swap_word (s_state self) else s_state self in
  Some (word_bytes (s_is_little_endian self) state).

(** The hash of some bytes, as [ws_handshake.c] computes it. *)
Definition sha1 (le : bool) (buffer bytes : list Z) : option (list Z) :=
  nn_sha1_result (foldl nn_sha1_hashbyte (nn_sha1_init le buffer) bytes).
