(* ===== verification/NnSha1Spec.v ===== *)
(** * SHA-1 is SHA-1

    The algorithm of FIPS 180-4 on whole messages, and that the hash of [NnSha1], byte
    by byte in a circular buffer, on a machine of either byte order, is the same. *)

From S2P Require Import Prelude NnCodec NnSha1.
From Stdlib Require Import ZArith Lia Btauto.
From stdpp Require Import base numbers list.
#[local] Open Scope Z_scope.

(** ** The standard *)

(** The message with its padding: a bit, zeros, and the length in bits. *)
Definition sha_pad (msg : list Z) : list Z :=
  msg ++ [128] ++ replicate (Z.to_nat ((55 - Z.of_nat (length msg)) mod 64)) 0 ++ nn_putll (8 * Z.of_nat (length msg)).

Definition be_word (b0 b1 b2 b3 : Z) : Z := Z.lor (Z.lor (Z.shiftl b0 24) (Z.shiftl b1 16)) (Z.lor (Z.shiftl b2 8) b3).

(** The words of a block, and the blocks of a message. *)
Fixpoint be_words (bytes : list Z) : list Z :=
  match bytes with
  | b0 :: b1 :: b2 :: b3 :: bytes => be_word b0 b1 b2 b3 :: be_words bytes
  | _ => []
  end.

Fixpoint sha_blocks (fuel : nat) (bytes : list Z) : list (list Z) :=
  match fuel, bytes with
  | S fuel, _ :: _ => take 64 bytes :: sha_blocks fuel (drop 64 bytes)
  | _, _ => []
  end.

(** The message schedule: sixty-four words more. *)
Definition sha_next (ws : list Z) : Z :=
  let w k := default 0 (ws !! (length ws - k)%nat) in
  sha1_rol32 (Z.lxor (Z.lxor (Z.lxor (w 3%nat) (w 8%nat)) (w 14%nat)) (w 16%nat)) 1.

Definition sha_schedule (n : nat) (ws : list Z) : list Z := Nat.iter n (λ ws, ws ++ [sha_next ws]) ws.

Definition sha_f (t : nat) (b c d : Z) : Z :=
  if (t <? 20)%nat then Z.lxor (Z.land b c) (Z.ldiff d b)
  else if (40 <=? t)%nat && (t <? 60)%nat then Z.lxor (Z.lxor (Z.land b c) (Z.land b d)) (Z.land c d)
  else Z.lxor (Z.lxor b c) d.

Definition sha_k (t : nat) : Z :=
  if (t <? 20)%nat then 0x5a827999 else if (t <? 40)%nat then 0x6ed9eba1 else if (t <? 60)%nat then 0x8f1bbcdc else 0xca62c1d6.

Definition sha_round (v : round_vars) (tw : nat * Z) : round_vars :=
  let '(Vars a b c d e) := v in
  Vars (uint32 (sha1_rol32 a 5 + sha_f tw.1 b c d + e + sha_k tw.1 + tw.2)) a (sha1_rol32 b 30) c d.

Definition sha_compress (h : list Z) (block : list Z) : list Z :=
  match h with
  | [a; b; c; d; e] =>
      let v := foldl sha_round (Vars a b c d e) (imap pair (sha_schedule 64 (be_words block))) in
      [uint32 (a + v_a v); uint32 (b + v_b v); uint32 (c + v_c v); uint32 (d + v_d v); uint32 (e + v_e v)]
  | _ => h
  end.

Definition sha_init : list Z := [0x67452301; 0xefcdab89; 0x98badcfe; 0x10325476; 0xc3d2e1f0].

Definition sha1_standard (msg : list Z) : list Z :=
  concat (map nn_putl (foldl sha_compress sha_init (sha_blocks (length (sha_pad msg)) (sha_pad msg)))).

(** ** The rounds *)

Lemma mix_spec t a b c d e : mix (Z.of_nat t) (Vars a b c d e) = sha_f t b c d + sha_k t.
Proof.
  unfold mix, sha_f, sha_k.
  destruct (Nat.ltb_spec t 20) as [H|H]; [rewrite (proj2 (Z.ltb_lt _ _)) by lia|rewrite (proj2 (Z.ltb_ge _ _)) by lia].
  { f_equal. apply Z.bits_inj'. intros n Hn. rewrite !Z.lxor_spec, !Z.land_spec, Z.ldiff_spec, Z.lxor_spec.
    by destruct (Z.testbit b n), (Z.testbit c n), (Z.testbit d n). }
  destruct (Nat.ltb_spec t 40) as [H1|H1]; [rewrite (proj2 (Z.ltb_lt _ _)) by lia|rewrite (proj2 (Z.ltb_ge _ 40)) by lia].
  { by rewrite (proj2 (Nat.leb_gt 40 t)) by lia. }
  rewrite (proj2 (Nat.leb_le 40 t)) by lia.
  destruct (Nat.ltb_spec t 60) as [H2|H2]; [rewrite (proj2 (Z.ltb_lt _ _)) by lia|rewrite (proj2 (Z.ltb_ge _ 60)) by lia]; [|done].
  cbn [andb]. f_equal. apply Z.bits_inj'. intros n Hn. rewrite !Z.lxor_spec, !Z.lor_spec, !Z.land_spec, Z.lor_spec.
  by destruct (Z.testbit b n), (Z.testbit c n), (Z.testbit d n).
Qed.

Lemma round_spec t buffer v w : word_at buffer (Z.of_nat t) = w → round buffer (Z.of_nat t) v = sha_round v (t, w).
Proof.
  intros Hw. destruct v as [a b c d e]. unfold round, sha_round. rewrite mix_spec, Hw. cbn [fst snd]. f_equal.
  unfold uint32. rewrite Zplus_mod_idemp_l. f_equal. lia.
Qed.

(** The buffer holds the last sixteen words of the schedule. *)
Definition holds (buffer ws : list Z) : Prop :=
  length buffer = 16%nat ∧ ∀ k, (length ws - 16 <= k < length ws)%nat → buffer !! (k mod 16)%nat = ws !! k.

Lemma land_15 n : Z.to_nat (Z.land (Z.of_nat n) 15) = (n mod 16)%nat.
Proof. change 15 with (Z.ones 4). rewrite Z.land_ones by lia. change (2 ^ 4) with (Z.of_nat 16). by rewrite <-Nat2Z.inj_mod, Nat2Z.id. Qed.

Lemma word_at_spec buffer ws i j : holds buffer ws → (16 ≤ length ws)%nat → (1 ≤ j ≤ 16)%nat → (i mod 16 = (length ws - j) mod 16)%nat →
  word_at buffer (Z.of_nat i) = default 0 (ws !! (length ws - j)%nat).
Proof. intros [_ Hb] Hl Hj Hm. unfold word_at. rewrite land_15, Hm, Hb by lia. done. Qed.

Lemma mod_shift n a b : (a + b = 16)%nat → (b <= n)%nat → ((n + a) mod 16 = (n - b) mod 16)%nat.
Proof.
  intros Hab Hb. replace (n + a)%nat with (n - b + 1 * 16)%nat by lia. apply Nat.Div0.mod_add.
Qed.

Lemma schedule_spec buffer ws : holds buffer ws → (16 ≤ length ws)%nat →
  holds (schedule (Z.of_nat (length ws)) buffer) (ws ++ [sha_next ws]).
Proof.
  intros Hh Hl. unfold schedule. rewrite Z.geb_leb, (proj2 (Z.leb_le 16 _)) by lia.
  assert (∀ a b, (a + b = 16)%nat → (1 ≤ b)%nat → word_at buffer (Z.of_nat (length ws) + Z.of_nat a) = default 0 (ws !! (length ws - b)%nat)) as Hw.
  { intros a b Hab Hb. rewrite <-Nat2Z.inj_add. apply word_at_spec; [done..|lia|]. apply mod_shift; lia. }
  pose proof (Hw 13%nat 3%nat eq_refl ltac:(lia)) as H3. pose proof (Hw 8%nat 8%nat eq_refl ltac:(lia)) as H8.
  pose proof (Hw 2%nat 14%nat eq_refl ltac:(lia)) as H14. pose proof (Hw 0%nat 16%nat eq_refl ltac:(lia)) as H16.
  change (Z.of_nat 13) with 13 in H3. change (Z.of_nat 8) with 8 in H8. change (Z.of_nat 2) with 2 in H14.
  change (Z.of_nat 0) with 0 in H16. rewrite Z.add_0_r in H16. rewrite H3, H8, H14, H16, land_15.
  change (sha1_rol32 _ 1) with (sha_next ws). destruct Hh as [Hlen Hb].
  assert ((length ws mod 16 < length buffer)%nat) as Hlt by (rewrite Hlen; apply Nat.mod_upper_bound; lia).
  split; [by rewrite length_insert|]. rewrite length_app. cbn [length]. intros k Hk. destruct (decide (k = length ws)) as [->|Hne].
  - rewrite list_lookup_insert_eq by done. by rewrite lookup_app_r, Nat.sub_diag by lia.
  - rewrite list_lookup_insert_ne; [by rewrite lookup_app_l, Hb by lia|].
    intros E. assert (k = length ws)%nat; [|done].
    pose proof (Nat.div_mod_eq k 16). pose proof (Nat.div_mod_eq (length ws) 16). nia.
Qed.

Lemma seqZ_snoc n : seqZ 0 (Z.of_nat (S n)) = seqZ 0 (Z.of_nat n) ++ [Z.of_nat n].
Proof. rewrite Nat2Z.inj_succ, <-Z.add_1_r, seqZ_app by lia. f_equal. Qed.

Lemma imap_snoc (l : list Z) (x : Z) : imap pair (l ++ [x]) = imap pair l ++ [(length l, x)].
Proof. rewrite imap_app. cbn. by rewrite Nat.add_0_r. Qed.

Lemma rounds_first buffer v n : length buffer = 16%nat → (n ≤ 16)%nat →
  foldl rounds_step (buffer, v) (seqZ 0 (Z.of_nat n)) = (buffer, foldl sha_round v (imap pair (take n buffer))).
Proof.
  intros Hl. induction n as [|n IH]; intros Hn; [done|]. rewrite seqZ_snoc, foldl_app, IH by lia. cbn.
  destruct (lookup_lt_is_Some_2 buffer n) as [w Hw]; [lia|]. rewrite (take_S_r _ _ _ Hw), imap_snoc, foldl_app, length_take_le by lia. cbn.
  unfold schedule. rewrite Z.geb_leb, (proj2 (Z.leb_gt 16 _)) by lia. f_equal. apply round_spec.
  unfold word_at. rewrite land_15, Nat.mod_small by lia. by rewrite Hw.
Qed.

Lemma schedule_length n ws : length (sha_schedule n ws) = (length ws + n)%nat.
Proof.
  induction n as [|n IH]; [cbn; lia|]. change (sha_schedule (S n) ws) with (sha_schedule n ws ++ [sha_next (sha_schedule n ws)]).
  rewrite length_app, IH. cbn. lia.
Qed.

Lemma rounds_rest buffer v n : length buffer = 16%nat →
  ∃ buffer', foldl rounds_step (buffer, v) (seqZ 0 (Z.of_nat (16 + n))) = (buffer', foldl sha_round v (imap pair (sha_schedule n buffer))) ∧
    holds buffer' (sha_schedule n buffer).
Proof.
  intros Hl. induction n as [|n (buffer' & E & Hh)].
  - exists buffer. rewrite rounds_first by (done || lia). rewrite take_ge by lia. split; [done|]. split; [done|].
    intros k Hk. cbn in Hk. by rewrite Nat.mod_small by lia.
  - rewrite Nat.add_succ_r, seqZ_snoc, foldl_app, E. cbn [foldl rounds_step].
    pose proof (schedule_length n buffer) as Hlen. rewrite Hl in Hlen. rewrite <-Hlen.
    eexists. split; [|exact (schedule_spec _ _ Hh ltac:(lia))]. f_equal. change (sha_schedule (S n) buffer) with (sha_schedule n buffer ++ [sha_next (sha_schedule n buffer)]).
    rewrite imap_snoc, foldl_app. cbn [foldl]. apply round_spec.
    destruct (schedule_spec _ _ Hh) as [_ Hb]; [lia|]. unfold word_at. rewrite land_15, Hb by (rewrite length_app; cbn; lia).
    by rewrite lookup_app_r, Nat.sub_diag by lia.
Qed.

Lemma sha1_rounds_spec buffer block state : length buffer = 16%nat → be_words block = buffer →
  ∃ buffer', sha1_rounds buffer state = (buffer', sha_compress state block) ∧ length buffer' = 16%nat.
Proof.
  intros Hl Hw. unfold sha1_rounds, sha_compress. destruct state as [|a [|b [|c [|d [|e [|? ?]]]]]]. 1-5, 7: by exists buffer.
  destruct (rounds_rest buffer (Vars a b c d e) 64 Hl) as (buffer' & E & Hlen & _). change (Z.of_nat (16 + 64)) with 80 in E.
  rewrite E, Hw. cbv zeta beta iota. exists buffer'. split; [reflexivity|exact Hlen].
Qed.

(** ** The buffer *)

(** The byte of an offset, whatever the byte order: the highest byte of a word is first. *)
Definition put_byte (ws : list Z) (o : nat) (data : Z) : list Z :=
  alter (λ w, uint32 (Z.lor (Z.ldiff w (Z.shiftl 255 (24 - 8 * Z.of_nat (o mod 4)))) (Z.shiftl data (24 - 8 * Z.of_nat (o mod 4)))))
    (o / 4)%nat ws.

Definition offset_addr (le : bool) (o : Z) : Z := if le then Z.lxor o 3 else o.

Lemma addr_spec le o : (o < 64)%nat →
  Z.to_nat (offset_addr le (Z.of_nat o) / 4) = (o / 4)%nat ∧ byte_pos le (offset_addr le (Z.of_nat o)) = 24 - 8 * Z.of_nat (o mod 4).
Proof.
  intros Ho. assert (Forall (λ o, Z.to_nat (offset_addr le (Z.of_nat o) / 4) = (o / 4)%nat ∧
    byte_pos le (offset_addr le (Z.of_nat o)) = 24 - 8 * Z.of_nat (o mod 4)) (seq 0 64)) as Hall.
  { destruct le; cbn [seq]; repeat (apply Forall_cons_2; [split; reflexivity|]); by apply Forall_nil_2. }
  rewrite Forall_forall in Hall. apply Hall, elem_of_seq. lia.
Qed.

Lemma set_put le ws o data : (o < 64)%nat → set_word_byte le ws (offset_addr le (Z.of_nat o)) data = put_byte ws o data.
Proof. intros Ho. destruct (addr_spec le o Ho) as [E1 E2]. unfold set_word_byte, put_byte. by rewrite E1, E2. Qed.

(** Bits of a byte within a word. *)
Lemma shl_bit b k n : 0 ≤ b < 256 → 0 ≤ k → 0 ≤ n → Z.testbit (Z.shiftl b k) n = (k <=? n) && (n <? k + 8) && Z.testbit b (n - k).
Proof.
  intros Hb Hk Hn. rewrite Z.shiftl_spec by done. destruct (Z.leb_spec k n); [|by rewrite Z.testbit_neg_r by lia].
  destruct (Z.ltb_spec n (k + 8)); [done|]. cbn. rewrite <-(Z.mod_small b (2 ^ 8)) by lia. apply Z.mod_pow2_bits_high. lia.
Qed.

Lemma byte_bit n : Z.testbit 255 n = (0 <=? n) && (n <? 8).
Proof. exact (Z.testbit_ones 8 n ltac:(lia)). Qed.

(** The comparisons that are decided. *)
Ltac decided :=
  repeat match goal with
    | |- context [Z.leb ?a ?b] => (rewrite (proj2 (Z.leb_le a b)) by lia) || (rewrite (proj2 (Z.leb_gt a b)) by lia)
    | |- context [Z.ltb ?a ?b] => (rewrite (proj2 (Z.ltb_lt a b)) by lia) || (rewrite (proj2 (Z.ltb_ge a b)) by lia)
    end.

Ltac word_bits :=
  repeat first [rewrite Z.lor_spec | rewrite Z.land_spec | rewrite Z.ldiff_spec | rewrite Z.testbit_mod_pow2 by lia |
                rewrite Z.shiftr_spec by lia | rewrite shl_bit by lia | rewrite byte_bit].

Lemma word_put w b0 b1 b2 b3 : 0 ≤ b0 < 256 → 0 ≤ b1 < 256 → 0 ≤ b2 < 256 → 0 ≤ b3 < 256 →
  let put k b w := uint32 (Z.lor (Z.ldiff w (Z.shiftl 255 k)) (Z.shiftl b k)) in
  put 0 b3 (put 8 b2 (put 16 b1 (put 24 b0 w))) = be_word b0 b1 b2 b3.
Proof.
  intros H0 H1 H2 H3. cbv zeta. unfold uint32, be_word. apply Z.bits_inj'. intros n Hn.
  rewrite <-(Z.shiftl_0_r b3) at 2. word_bits.
  assert (n < 8 ∨ 8 ≤ n < 16 ∨ 16 ≤ n < 24 ∨ 24 ≤ n < 32 ∨ 32 ≤ n) as [?|[?|[?|[?|?]]]] by lia; decided; cbn [andb orb negb];
    rewrite ?andb_false_r, ?orb_false_r; try done; by rewrite ?andb_true_r, ?andb_false_r.
Qed.

(** The four bytes of a word. *)
Lemma put_word ws j b0 b1 b2 b3 : Forall (λ b, 0 ≤ b < 256) [b0; b1; b2; b3] →
  put_byte (put_byte (put_byte (put_byte ws (4 * j) b0) (4 * j + 1) b1) (4 * j + 2) b2) (4 * j + 3) b3 = alter (λ _, be_word b0 b1 b2 b3) j ws.
Proof.
  rewrite !Forall_cons. intros (H0 & H1 & H2 & H3 & _). unfold put_byte.
  assert (∀ k, (k < 4)%nat → ((4 * j + k) / 4 = j)%nat ∧ ((4 * j + k) mod 4 = k)%nat) as Hk.
  { intros k Hk. rewrite (Nat.mul_comm 4 j), Nat.add_comm. split; [rewrite Nat.div_add, Nat.div_small by lia; lia|].
    rewrite Nat.Div0.mod_add. by apply Nat.mod_small. }
  destruct (Hk 0%nat ltac:(lia)) as [D0 M0], (Hk 1%nat ltac:(lia)) as [D1 M1], (Hk 2%nat ltac:(lia)) as [D2 M2], (Hk 3%nat ltac:(lia)) as [D3 M3].
  rewrite Nat.add_0_r in D0, M0. rewrite D0, M0, D1, M1, D2, M2, D3, M3. apply list_eq. intros i. destruct (decide (i = j)) as [->|Hi].
  - rewrite !list_lookup_alter_eq. destruct (ws !! j) as [w|]; [|done]. cbn. f_equal. exact (word_put w b0 b1 b2 b3 H0 H1 H2 H3).
  - by rewrite !list_lookup_alter_ne.
Qed.

(** Several bytes, from an offset on. *)
Fixpoint put_bytes (ws : list Z) (o : nat) (bs : list Z) : list Z :=
  match bs with [] => ws | b :: bs => put_bytes (put_byte ws o b) (S o) bs end.

Lemma put_bytes_app ws o a b : put_bytes ws o (a ++ b) = put_bytes (put_bytes ws o a) (o + length a) b.
Proof.
  revert ws o. induction a as [|x a IH]; intros ws o; cbn; [by rewrite Nat.add_0_r|]. rewrite IH. f_equal. lia.
Qed.

Lemma put_bytes_length ws o bs : length (put_bytes ws o bs) = length ws.
Proof. revert ws o. induction bs as [|b bs IH]; intros ws o; [done|]. cbn. rewrite IH. apply length_alter. Qed.

Lemma be_words_length m bs : length bs = (4 * m)%nat → length (be_words bs) = m.
Proof.
  revert bs. induction m as [|m IH]; intros bs Hl.
  - by apply length_zero_iff_nil in Hl as ->.
  - destruct bs as [|b0 [|b1 [|b2 [|b3 bs]]]]; cbn in Hl; try lia. cbn. by rewrite IH by lia.
Qed.

Lemma put_bytes_lookup m : ∀ bs j ws i, length bs = (4 * m)%nat → Forall (λ b, 0 ≤ b < 256) bs → (j + m ≤ length ws)%nat →
  put_bytes ws (4 * j) bs !! i = if decide (j ≤ i < j + m)%nat then be_words bs !! (i - j)%nat else ws !! i.
Proof.
  induction m as [|m IH]; intros bs j ws i Hl Hb Hj.
  - apply length_zero_iff_nil in Hl as ->. cbn. by rewrite decide_False by lia.
  - destruct bs as [|b0 [|b1 [|b2 [|b3 bs]]]]; cbn in Hl; try lia.
    pose proof (Forall_take _ 4 _ Hb) as H4. pose proof (Forall_drop _ 4 _ Hb) as Hrest. cbn [take drop] in H4, Hrest.
    cbn [put_bytes be_words]. replace (S (4 * j)) with (4 * j + 1)%nat by lia.
    replace (S (4 * j + 1)) with (4 * j + 2)%nat by lia. replace (S (4 * j + 2)) with (4 * j + 3)%nat by lia.
    rewrite put_word by done. replace (S (4 * j + 3)) with (4 * S j)%nat by lia.
    rewrite IH by (rewrite ?length_alter; (done || lia)).
    destruct (decide (S j ≤ i < S j + m)%nat).
    + rewrite decide_True by lia. by replace (i - j)%nat with (S (i - S j)) by lia.
    + destruct (decide (i = j)) as [->|Hne].
      * rewrite decide_True by lia. rewrite list_lookup_alter_eq, Nat.sub_diag.
        destruct (lookup_lt_is_Some_2 ws j) as [w ->]; [lia|done].
      * rewrite decide_False by lia. by rewrite list_lookup_alter_ne.
Qed.

Lemma put_block ws bs : length ws = 16%nat → length bs = 64%nat → Forall (λ b, 0 ≤ b < 256) bs → put_bytes ws 0 bs = be_words bs.
Proof.
  intros Hw Hl Hb. apply list_eq. intros i. pose proof (put_bytes_lookup 16 bs 0 ws i Hl Hb) as E. rewrite Nat.mul_0_r, Nat.sub_0_r in E.
  rewrite E by lia. destruct (decide (0 ≤ i < 0 + 16)%nat); [done|].
  rewrite !lookup_ge_None_2; [done| |lia]. rewrite (be_words_length 16) by done. lia.
Qed.

(** ** Adding bytes *)

Lemma add_put b st n o le x : (o < 63)%nat → 0 ≤ x < 256 →
  nn_sha1_add (Sha1 b st n (Z.of_nat o) le) x = Sha1 (put_byte b o x) st n (Z.of_nat (S o)) le.
Proof.
  intros Ho Hx. unfold nn_sha1_add. change (if le then Z.lxor (Z.of_nat o) 3 else Z.of_nat o) with (offset_addr le (Z.of_nat o)).
  rewrite set_put, Z.mod_small by lia. unfold SHA1_BLOCK_LEN. rewrite (proj2 (Z.eqb_neq _ _)) by lia. f_equal. lia.
Qed.

Lemma add_puts bs : ∀ b st n o le, (o + length bs < 64)%nat → Forall (λ b, 0 ≤ b < 256) bs →
  foldl nn_sha1_add (Sha1 b st n (Z.of_nat o) le) bs = Sha1 (put_bytes b o bs) st n (Z.of_nat (o + length bs)) le.
Proof.
  induction bs as [|x bs IH]; intros b st n o le Ho Hb; cbn [foldl put_bytes length] in *; [by rewrite Nat.add_0_r|].
  apply Forall_cons in Hb as [Hx Hb]. rewrite add_put by (done || lia). rewrite IH by (done || lia). f_equal. lia.
Qed.

(** A whole block. *)
Lemma add_block b st n le bs : length b = 16%nat → length bs = 64%nat → Forall (λ b, 0 ≤ b < 256) bs →
  ∃ b', foldl nn_sha1_add (Sha1 b st n 0 le) bs = Sha1 b' (sha_compress st bs) n 0 le ∧ length b' = 16%nat.
Proof.
  intros Hlb Hl Hb. destruct bs as [|x bs0 _] using rev_ind; [done|]. rewrite length_app in Hl. cbn in Hl.
  pose proof Hb as [Hb0 Hx]%Forall_app. rewrite Forall_singleton in Hx.
  rewrite foldl_app. change 0 with (Z.of_nat 0) at 1. rewrite add_puts by (done || lia). cbn [foldl].
  replace (0 + length bs0)%nat with 63%nat by lia. unfold nn_sha1_add.
  change (if le then Z.lxor (Z.of_nat 63) 3 else Z.of_nat 63) with (offset_addr le (Z.of_nat 63)). rewrite (set_put le _ 63) by lia. rewrite (Z.mod_small x) by exact Hx.
  change (Z.of_nat 63 + 1 =? SHA1_BLOCK_LEN) with true. cbn iota.
  assert (put_byte (put_bytes b 0 bs0) 63 x = be_words (bs0 ++ [x])) as E.
  { rewrite <-(put_block b); [|done|rewrite length_app; cbn; lia|done]. rewrite put_bytes_app. by replace (0 + length bs0)%nat with 63%nat by lia. }
  destruct (sha1_rounds_spec (be_words (bs0 ++ [x])) (bs0 ++ [x]) st) as (b' & Er & Hb'); [|done|].
  { apply be_words_length. rewrite length_app. cbn. lia. }
  rewrite E, Er. by exists b'.
Qed.

Lemma add_blocks m : ∀ fuel b st n le bs, length b = 16%nat → length bs = (64 * m)%nat → (m ≤ fuel)%nat → Forall (λ b, 0 ≤ b < 256) bs →
  ∃ b', foldl nn_sha1_add (Sha1 b st n 0 le) bs = Sha1 b' (foldl sha_compress st (sha_blocks fuel bs)) n 0 le.
Proof.
  induction m as [|m IH]; intros fuel b st n le bs Hlb Hl Hf Hb.
  - apply length_zero_iff_nil in Hl as ->. exists b. by destruct fuel.
  - destruct fuel as [|fuel]; [lia|]. destruct bs as [|x bs0]; [cbn in Hl; lia|].
    change (sha_blocks (S fuel) (x :: bs0)) with (take 64 (x :: bs0) :: sha_blocks fuel (drop 64 (x :: bs0))).
    revert Hl Hb. generalize (x :: bs0). intros bs Hl Hb. cbn [foldl].
    assert (∀ s, foldl nn_sha1_add s bs = foldl nn_sha1_add (foldl nn_sha1_add s (take 64 bs)) (drop 64 bs)) as ->
      by (intros s; by rewrite <-foldl_app, take_drop).
    destruct (add_block b st n le (take 64 bs)) as (b' & -> & Hb'); [done|rewrite length_take; lia|by apply Forall_take|].
    apply IH; [done|rewrite length_drop; lia|lia|by apply Forall_drop].
Qed.

(** ** The whole message *)

(** The counter is not looked at. *)
Definition set_count (k : Z) (s : nn_sha1) : nn_sha1 := Sha1 (s_buffer s) (s_state s) k (s_buffer_offset s) (s_is_little_endian s).

Lemma add_count s k x : nn_sha1_add (set_count k s) x = set_count k (nn_sha1_add s x).
Proof.
  destruct s as [b st n o le]. unfold nn_sha1_add, set_count. cbn. destruct (o + 1 =? SHA1_BLOCK_LEN); [|done].
  by destruct (sha1_rounds _ st).
Qed.

Lemma add_keeps s x : s_bytes_hashed (nn_sha1_add s x) = s_bytes_hashed s ∧ s_is_little_endian (nn_sha1_add s x) = s_is_little_endian s ∧
  (0 ≤ s_buffer_offset s < 64 → s_buffer_offset (nn_sha1_add s x) = (s_buffer_offset s + 1) mod 64).
Proof.
  destruct s as [b st n o le]. unfold nn_sha1_add. cbn. unfold SHA1_BLOCK_LEN. destruct (Z.eqb_spec (o + 1) 64) as [E|E].
  - destruct (sha1_rounds _ st). cbn. split_and!; [done..|]. intros _. by rewrite E.
  - cbn. split_and!; [done..|]. intros H. rewrite Z.mod_small; lia.
Qed.

Lemma adds_keep xs : ∀ s, s_bytes_hashed (foldl nn_sha1_add s xs) = s_bytes_hashed s ∧
  s_is_little_endian (foldl nn_sha1_add s xs) = s_is_little_endian s ∧
  (0 ≤ s_buffer_offset s < 64 → s_buffer_offset (foldl nn_sha1_add s xs) = (s_buffer_offset s + Z.of_nat (length xs)) mod 64).
Proof.
  induction xs as [|x xs IH]; intros s; cbn [foldl length].
  - split_and!; [done..|]. intros H. rewrite Z.mod_small; lia.
  - destruct (IH (nn_sha1_add s x)) as (-> & -> & Ho), (add_keeps s x) as (-> & -> & Ho1). split_and!; [done..|]. intros H.
    specialize (Ho1 H). rewrite Ho, Ho1 by (rewrite Ho1; apply Z.mod_pos_bound; lia). rewrite Zplus_mod_idemp_l. f_equal. lia.
Qed.

Lemma hashbytes_add msg : ∀ s, foldl nn_sha1_hashbyte s msg = foldl nn_sha1_add (set_count (uint32 (s_bytes_hashed s + Z.of_nat (length msg))) s) msg ∨ msg = [].
Proof.
  induction msg as [|x msg IH]; intros s; [by right|]. left. cbn [foldl length].
  assert (nn_sha1_hashbyte s x = nn_sha1_add (set_count (uint32 (s_bytes_hashed s + 1)) s) x) as -> by by destruct s.
  destruct (IH (nn_sha1_add (set_count (uint32 (s_bytes_hashed s + 1)) s) x)) as [-> | ->]; [|done].
  f_equal. rewrite <-!add_count. f_equal. destruct (add_keeps (set_count (uint32 (s_bytes_hashed s + 1)) s) x) as (-> & _).
  destruct s. unfold set_count. cbn. f_equal. unfold uint32. rewrite Zplus_mod_idemp_l. f_equal. lia.
Qed.

Lemma pad_spec k : ∀ fuel s, (k < fuel)%nat → (k < 64)%nat → 0 ≤ s_buffer_offset s < 64 → (s_buffer_offset s + Z.of_nat k) mod 64 = 56 →
  sha1_pad fuel s = Some (foldl nn_sha1_add s (replicate k 0)).
Proof.
  induction k as [|k IH]; intros [|fuel] s Hf Hk Ho E; try lia; cbn [sha1_pad replicate foldl].
  - rewrite Z.add_0_r, Z.mod_small in E by done. by rewrite E.
  - rewrite (proj2 (Z.eqb_neq _ _)).
    + destruct (add_keeps s 0) as (_ & _ & Ho1). specialize (Ho1 Ho). apply IH; [lia|lia|rewrite Ho1; apply Z.mod_pos_bound; lia|].
      rewrite Ho1, Zplus_mod_idemp_l, <-E. f_equal. lia.
    + intros E2. rewrite E2 in E. pose proof (Z.div_mod (56 + Z.of_nat (S k)) 64). lia.
Qed.

(** The bytes of the length. *)
Lemma length_bytes n : 0 ≤ n < 2 ^ 32 →
  map (λ x, x mod 256) [0; 0; 0; Z.shiftr n 29; Z.shiftr n 21; Z.shiftr n 13; Z.shiftr n 5; uint32 (Z.shiftl n 3)] = nn_putll (8 * n).
Proof.
  intros Hn. unfold nn_putll, uint32. cbn [map]. assert (∀ z, Z.land z 255 = z mod 256) as H by (intros z; exact (Z.land_ones z 8 ltac:(lia))).
  rewrite !H, Z.shiftl_mul_pow2, !Z.shiftr_div_pow2 by lia. clear H. repeat (f_equal; try (zify; Z.div_mod_to_equations; lia)).
Qed.

Lemma add_mod s x : nn_sha1_add s x = nn_sha1_add s (x mod 256).
Proof. destruct s. unfold nn_sha1_add. by rewrite Zmod_mod. Qed.

Lemma adds_mod xs : ∀ s, foldl nn_sha1_add s xs = foldl nn_sha1_add s (map (λ x, x mod 256) xs).
Proof. induction xs as [|x xs IH]; intros s; [done|]. cbn. by rewrite IH, (add_mod s x). Qed.

(** The bytes of the state. *)
Lemma swap_bytes w a : 0 ≤ a < 4 → Z.land (Z.shiftr (swap_word w) (byte_pos true a)) 255 = Z.land (Z.shiftr w (byte_pos false a)) 255.
Proof.
  intros Ha. assert (a = 0 ∨ a = 1 ∨ a = 2 ∨ a = 3) as Hc by lia.
  apply Z.bits_inj'. intros n Hn. destruct (decide (n < 8)) as [Hlt|Hge].
  - assert (n = 0 ∨ n = 1 ∨ n = 2 ∨ n = 3 ∨ n = 4 ∨ n = 5 ∨ n = 6 ∨ n = 7) as Hcn by lia. unfold swap_word, uint32.
    assert (byte_pos true 0 = 0 ∧ byte_pos true 1 = 8 ∧ byte_pos true 2 = 16 ∧ byte_pos true 3 = 24 ∧
      byte_pos false 0 = 24 ∧ byte_pos false 1 = 16 ∧ byte_pos false 2 = 8 ∧ byte_pos false 3 = 0) as (T0 & T1 & T2 & T3 & F0 & F1 & F2 & F3) by done.
    destruct Hc as [-> | [-> | [-> | ->]]]; rewrite ?T0, ?T1, ?T2, ?T3, ?F0, ?F1, ?F2, ?F3; clear -Hcn;
      repeat destruct Hcn as [-> | Hcn]; subst;
      rewrite !Z.land_spec, !Z.shiftr_spec, !Z.lor_spec, !Z.land_spec, !Z.testbit_mod_pow2, !Z.shiftl_spec, !Z.shiftr_spec by done;
      cbn [Z.add Z.sub Z.opp Pos.add Pos.succ Pos.add_carry Z.pos_sub Pos.pred_double Z.succ_double Z.pred_double Z.double];
      rewrite ?(Z.testbit_neg_r w) by done; cbn [Z.ltb Z.compare Pos.compare Pos.compare_cont];
      change (Z.testbit 255) with (Z.testbit 0xFF); cbn [andb orb]; repeat match goal with |- context [Z.testbit (Zpos ?p) ?k] =>
        let v := eval vm_compute in (Z.testbit (Zpos p) k) in change (Z.testbit (Zpos p) k) with v end;
      rewrite ?andb_false_r, ?orb_false_r, ?andb_true_r; done.
  - rewrite !Z.land_spec, (byte_bit n), (proj2 (Z.ltb_ge n 8)), !andb_false_r by lia. done.
Qed.

Lemma bytes_of_word w : word_bytes false [w] = nn_putl w.
Proof. unfold word_bytes, nn_putl, byte_pos. cbn. by rewrite Z.shiftr_0_r. Qed.

Lemma word_bytes_cons w ws : word_bytes false (w :: ws) = nn_putl w ++ word_bytes false ws.
Proof. rewrite <-bytes_of_word. unfold word_bytes. cbn [map concat]. by rewrite app_nil_r. Qed.

Lemma state_bytes le ws : word_bytes le (if le then map swap_word ws else ws) = concat (map nn_putl ws).
Proof.
  assert (word_bytes le (if le then map swap_word ws else ws) = word_bytes false ws) as ->.
  { destruct le; [|done]. unfold word_bytes. rewrite map_map. f_equal. apply map_ext. intros w.
    apply map_ext_in. intros a Ha. apply swap_bytes. cbn in Ha. lia. }
  induction ws as [|w ws IH]; [done|]. rewrite word_bytes_cons, IH. done.
Qed.

Lemma sha_pad_length msg : ∃ m, length (sha_pad msg) = (64 * m)%nat.
Proof.
  unfold sha_pad. rewrite !length_app, length_replicate. cbn [length nn_putll map].
  pose proof (Z.mod_pos_bound (55 - Z.of_nat (length msg)) 64 ltac:(lia)). pose proof (Z.div_mod (55 - Z.of_nat (length msg)) 64).
  exists (Z.to_nat (- ((55 - Z.of_nat (length msg)) / 64) + 1)). lia.
Qed.

Lemma sha_pad_bytes msg : Forall (λ b, 0 ≤ b < 256) msg → Forall (λ b, 0 ≤ b < 256) (sha_pad msg).
Proof.
  intros Hm. unfold sha_pad. apply Forall_app. split; [done|]. apply Forall_app. split; [by apply Forall_singleton|].
  apply Forall_app. split; [by apply Forall_replicate|]. unfold nn_putll. apply Forall_forall. intros b Hb.
  apply list_elem_of_In, in_map_iff in Hb as (k & <- & _). change 255 with (Z.ones 8). rewrite Z.land_ones by lia.
  apply (Z.mod_pos_bound _ (2 ^ 8)). lia.
Qed.

(** The state after all bytes of the message and its padding. *)
Lemma result_spec s msg : s_buffer_offset s = 0 → length (s_buffer s) = 16%nat → Forall (λ b, 0 ≤ b < 256) msg →
  Z.of_nat (length msg) < 2 ^ 32 → s_bytes_hashed s = Z.of_nat (length msg) →
  nn_sha1_result (foldl nn_sha1_add s msg) =
    Some (concat (map nn_putl (foldl sha_compress (s_state s) (sha_blocks (length (sha_pad msg)) (sha_pad msg))))).
Proof.
  intros Ho Hlen Hb Hl Hn. unfold nn_sha1_result.
  destruct (adds_keep (msg ++ [128]) s) as (_ & _ & Ho1). rewrite Ho, Z.add_0_l, foldl_app, length_app in Ho1. specialize (Ho1 ltac:(lia)).
  cbn [foldl length] in Ho1. set (k := Z.to_nat ((55 - Z.of_nat (length msg)) mod 64)).
  pose proof (Z.mod_pos_bound (55 - Z.of_nat (length msg)) 64 ltac:(lia)) as Hk.
  rewrite (pad_spec k); [|lia|lia|rewrite Ho1; apply Z.mod_pos_bound; lia|].
  2: { rewrite Ho1, Zplus_mod_idemp_l. unfold k. rewrite Z2Nat.id, Zplus_mod_idemp_r by lia.
       replace (Z.of_nat (length msg + 1) + (55 - Z.of_nat (length msg))) with 56 by lia. done. }
  cbn [mbind option_bind].
  assert (foldl nn_sha1_add (nn_sha1_add (foldl nn_sha1_add s msg) 128) (replicate k 0) = foldl nn_sha1_add s (msg ++ [128] ++ replicate k 0)) as ->
    by by rewrite !foldl_app.
  destruct (adds_keep (msg ++ [128] ++ replicate k 0) s) as (-> & _). rewrite Hn, adds_mod, length_bytes by lia. rewrite <-foldl_app, <-!app_assoc.
  change (msg ++ [128] ++ replicate k 0 ++ nn_putll (8 * Z.of_nat (length msg))) with (sha_pad msg).
  destruct (sha_pad_length msg) as [m Hm].
  destruct s as [b st n o le]. cbn [s_buffer_offset s_buffer s_state s_bytes_hashed] in *. subst o.
  destruct (add_blocks m (length (sha_pad msg)) b st n le (sha_pad msg) Hlen Hm) as (b' & ->); [lia|by apply sha_pad_bytes|].
  cbn [s_is_little_endian s_state]. f_equal. apply state_bytes.
Qed.

(** C29. The hash is SHA-1: on a machine of either byte order, and whatever the memory of
    the buffer had, the bytes that [nn_sha1_result] gives for a message of less than
    4 GB, hashed byte by byte, are the ones of the algorithm of FIPS 180-4 on the whole
    message. *)
Theorem sha1_exact le buffer msg (Hbuffer : length buffer = 16%nat) (Hbytes : Forall (λ b, 0 ≤ b < 256) msg)
    (Hlen : Z.of_nat (length msg) < 2 ^ 32) :
  sha1 le buffer msg = Some (sha1_standard msg).
Proof.
  unfold sha1, sha1_standard. destruct (hashbytes_add msg (nn_sha1_init le buffer)) as [-> | ->].
  - rewrite (result_spec _ msg); [done..|]. cbn. unfold uint32. by rewrite Z.mod_small by lia.
  - cbn [foldl]. pose proof (result_spec (nn_sha1_init le buffer) []) as E. cbn [foldl] in E. by apply E.
Qed.

(** The first example of the standard, [abc]. *)
Lemma sha1_exact_witness : sha1 true (replicate 16 0xdeadbeef) [97; 98; 99] = Some (sha1_standard [97; 98; 99]) ∧
  sha1_standard [97; 98; 99] =
    [0xa9; 0x99; 0x3e; 0x36; 0x47; 0x06; 0x81; 0x6a; 0xba; 0x3e; 0x25; 0x71; 0x78; 0x50; 0xc2; 0x6c; 0x9c; 0xd0; 0xd8; 0x9d].
Proof.
  split; [|vm_compute; reflexivity]. apply (sha1_exact true (replicate 16 0xdeadbeef) [97; 98; 99]); [done| |vm_compute; reflexivity].
  repeat (apply Forall_cons; split; [lia|]). apply Forall_nil_2.
Defined.
